(* ===== verification/_CoqProject ===== *)
-Q . S2P
Prelude.v
Effects.v
Traces.v
Collections.v
RustStr.v
RustNum.v
RustPath.v
HostFs.v
Gzip.v
FlatpakRef.v
FlatpakMetadata.v
Architecture.v
StaticOverrides.v
FilesystemPermissions.v
FileArguments.v
FilesystemGrants.v
DataMountPlan.v
Processes.v
ProcessTrees.v
InstallationPaths.v
Records.v
RunRecords.v
SandboxRecovery.v
ExtensionPoints.v
Activation.v
ApplicationEntry.v
Uninstall.v
CheckoutActivation.v
RemoteConfig.v
MetadataLock.v
RefResolution.v
OstreeSummary.v
OstreeRepository.v
MetadataCache.v
ExtraData.v
ApplicationInstallation.v
Reconciliation.v
LaunchRequest.v
LaunchExec.v
LaunchSupervisor.v
BrokerProtocol.v
BrokerShutdown.v
MountCalls.v
SecureMount.v
MountConfinement.v
SandboxMounts.v
NestedSandbox.v
BrokerService.v
BrokerOrder.v
Update.v
LaunchEnvironment.v
SandboxRoot.v
AppstreamMetadata.v
ApplyExtra.v
