(* ===== verification/Prelude.v ===== *)
(** * A verification library for freebsd-flatpak

    freebsd-flatpak installs Flatpak applications on FreeBSD and runs them in
    chroot or jail sandboxes.  This library translates the program's own logic
    into executable definitions, file by file, and proves what makes it
    correct.  Source names below are relative to src/src/.

    ** How the program is put together

    A command of the user (cli/) asks the remotes which refs exist (remotes/),
    deploys them from an OSTree repository (ostree/), keeps records of what is
    installed (installation/) and of what runs (sandbox/run_records.rs), works
    out which extensions an application needs (extensions/), plans what of the
    host the application may see (sandbox/), mounts that plan, and starts the
    program through setuid helpers (secure_mount.rs, secure_launch.rs) which
    trust nothing they are told.  While the program runs, the launcher is the
    reaper of its processes and serves those of them that ask for further
    processes (sandbox/process_supervision.rs, sandbox/spawn_broker.rs); at the
    end it takes the mounts down again (sandbox/chroot_instance.rs).

    ** Which file models what

    Shared vocabulary:
    - Prelude: [anyhow] results and their error chains, [fold]s and [map]s that
      can fail, total orders as a type class, and the tactics for results.
    - Effects: the state-and-error monad [M] in which the operations that touch
      the world are written, its loops, and the Hoare-style rules [keeps].
    - Traces: operations that record their calls, with three logics: what is
      recorded ([emits], [only]), calls justified by those before them ([obeys],
      [lawful]), and how the state changes ([steps]).
    - Collections: the standard library's stable sort, [dedup], BTreeSet and
      BTreeMap as strictly sorted lists.
    - RustStr, RustNum, RustPath: [str] (byte strings), integers as text, and
      [Path] by its components.
    - HostFs: [std::fs] as type classes with laws, and a concrete file system.

    Refs and metadata: FlatpakRef (flatpak_ref.rs), FlatpakMetadata
    (flatpak_metadata.rs), Architecture (architecture.rs), StaticOverrides
    (sandbox/static_overrides.rs).

    What a sandbox sees of the host: FilesystemPermissions, FileArguments,
    FilesystemGrants and DataMountPlan (the files of those names in sandbox/;
    DataMountPlan also has the mounting of the plan in
    sandbox/chroot_backend.rs).

    State of the installation: InstallationPaths, Records
    (installation/record_storage.rs, application_records.rs,
    runtime_records.rs, export_records.rs), RunRecords (sandbox/run_records.rs,
    installation/retired_deployment_cleanup.rs).

    Processes and recovery: Processes (process_identity.rs and the process
    table), ProcessTrees (sandbox/process_supervision.rs: the reaper, waiting
    for a tree and ending it), SandboxRecovery
    (sandbox/stale_sandbox_recovery.rs).

    Extensions: ExtensionPoints (extensions/extension_points.rs,
    runtime_extensions.rs and the facts of activation.rs), Activation
    (extensions/activation.rs).

    Deployment: CheckoutActivation (ostree/checkout_activation.rs): a
    transaction journal, the two loops that move checkouts into place, and the
    recovery of an interrupted transaction.

    Remotes: RemoteConfig (remotes/remote_config.rs), RefResolution
    (remotes/ref_resolution.rs and the types of remotes/mod.rs).

    The setuid launcher (secure_launch.rs): LaunchRequest (the request, its
    command line and its packet), LaunchExec (validation and the privileged
    execution), LaunchSupervisor (the daemon's worker).

    The setuid mount helper (secure_mount.rs): MountCalls (command lines, the
    system and its mount vectors), SecureMount (the helper, call by call),
    MountConfinement (which calls are justified).

    The mounts of a sandbox: SandboxMounts (sandbox/mount_operations.rs,
    sandbox/chroot_instance.rs), whose commands are those of MountCalls and
    whose unmounts are those of SandboxRecovery.

    The spawn broker (sandbox/spawn_broker.rs): BrokerProtocol (frames, requests
    and the client in compatibility_helpers/portal_bridge/
    flatpak_spawn_portal.c), NestedSandbox (the root of a nested sandbox, on top
    of SandboxMounts), BrokerService (a connection, on top of BrokerProtocol,
    NestedSandbox, ProcessTrees and LaunchRequest, and the listener),
    BrokerOrder (the order of its calls), BrokerShutdown (its threads as a step
    relation over the shared state).

    Records of the model keep the fields of the source; where two types share a
    field name the model's name has a prefix.  Operations that fail return
    [result], operations that change the world are in [M], and the world itself
    is a parameter: file systems, process tables, libostree, the kernel and the
    network are type classes whose operations the code uses and whose laws, if
    a theorem needs any, are classes of their own ([HostFsLaws],
    [FileOpsLaws], [ContentFs], [KernelLaws], [ClockLaws], [DescriptorLaws]).
    Every law class has a concrete instance on which the witnesses compute.

    ** What the theorems show

    - Round trips: refs, override files, file URIs, records, run records,
      remote configurations, launch requests and their packets are read back as
      what was written.
    - Confinement: grants never expose the project or the protected
      directories; mount targets and extension targets stay below their root;
      the cleanup removes only managed directories and spares those in use; the
      launcher runs a program only with its caller's identity inside the
      validated directory, whatever the kernel answers; every privileged call of
      the mount helper is justified by the checks before it.
    - Resources: an instance owns exactly the mounts that were made, wherever an
      operation fails, and its root goes only when they are unmounted; a nested
      root has a record for as long as it exists; the service of a connection
      closes every descriptor it received or made exactly once.
    - Ordering: grants, extensions, mounts and sandbox roots are handled parents
      first (or inside out), by key and by dependency; the broker starts what was
      asked for, reports what has happened, and takes a nested root down behind
      its processes; SIGKILL comes behind another signal and its grace period.
    - Refinement: the deployment transaction is atomic for every point at which
      it may be interrupted; the supervisor's calls follow an automaton; the
      helpers execute the commands their command lines were written for; the
      broker reads the request that the portal bridge (a C program) has sent.
    - Termination and liveness: the expansion of grants, the closure of active
      roots, the recovery order and the chain of renamed applications end within
      their fuel; the recovery of a transaction completes once the file system
      works; a child whose client is gone is killed; a process that is asked to
      stop is waited for in bounded time; the drop of the broker ends when no
      connection slipped past the stop.
    - Errors: a failed remote-add waits for its own lock, a request without a
      kind asks one remote only, a mapping can divert the readiness byte, a
      nested root that could not be populated is removed through a mount that is
      still there, a connection accepted while the broker stops can delay its
      drop, a received descriptor that cannot be marked leaks the next ones.
      These are defects of the code, recorded as findings.

    ** Fuel and bounds

    Recursion that is not structural has fuel, and a theorem or lemma that the
    fuel is enough: FUEL = 10 for the expansion of grants, whose depth the code
    bounds by 8; the number of edges plus one for the closure of active roots;
    the number of paths for the recovery order; two more than the number of
    renamed identifiers for the chain of replacements; two levels
    ([NULLFS_FUEL]) for a nullfs mount that goes through the staging; 42 rounds
    for a program that is asked to stop and 21 for each signal that ends a tree
    (a grace period of 2 s in rounds of 100 ms).  The walks over deployments and
    over the tree that a nested root copies take the depth of the tree as their
    fuel.  A service that is followed for fewer rounds than it runs is at no
    end: its result is [None], and the theorems on its order hold for it too.
    Machine integers are
    [Z] or [N] with their range stated where they are read ([parse_i32],
    [parse_u64]), and wrapped where the code wraps them ([as_u32], the [as u32]
    of the packet's lengths, the checked additions of its offsets).

    ** Not modelled

    - Printing, progress output, timing traces and diagnostics: they decide
      nothing.
    - libostree, GPG, fetch(1), mount(8), jail(3), D-Bus and Wayland: the source
      only calls them; they are operations of classes.
    - The accept loop and fork of the launch daemon, the signal forwarding of
      its client and the byte loops over sockets (single system calls retried).
    - Planned next, in this order: the metadata cache
      (remotes/metadata_cache.rs), the reconciliation of extensions
      (extensions/reconciliation.rs), application installation and its recovery
      (installation/), the selection of the update and uninstall commands
      (cli/update.rs, cli/uninstall.rs), the layout of a fresh sandbox root
      (sandbox/sandbox_root.rs) and the environment of a launch
      (sandbox/launch_environment.rs).
    - Portal, desktop and host resource integration (portal_integration/,
      desktop_integration/, host_resources/): bindings to desktop services.
    - The command line parser and the formatting of tables (cli/). *)
From Stdlib Require Import Ascii String NArith ZArith Lia Sorting.Sorted Permutation.
From stdpp Require Import base list strings gmap.

#[global] Open Scope string_scope.
#[global] Open Scope list_scope.

(** Concatenation of literals computes. *)
#[global] Arguments String.append !_ _ : simpl nomatch.

(** ** Results and errors *)

(** An [anyhow::Error] is its chain of messages, outermost context first. *)
Definition error : Type := list string.

(** [anyhow::Result]. *)
Inductive result (A : Type) : Type :=
| Ok (a : A)
| Err (e : error).
Arguments Ok {A} a.
Arguments Err {A} e.

#[export] Instance result_ret : MRet result := fun A a => Ok a.
#[export] Instance result_bind : MBind result := fun A B f m =>
  match m with Ok a => f a | Err e => Err e end.
#[export] Instance result_fmap : FMap result := fun A B f m =>
  match m with Ok a => Ok (f a) | Err e => Err e end.

(** [Context::context] on a result and on an option, and [bail!]. *)
Definition with_context {A} (msg : string) (m : result A) : result A :=
  match m with Ok a => Ok a | Err e => Err (msg :: e) end.
Definition ok_or {A} (msg : string) (o : option A) : result A :=
  match o with Some a => Ok a | None => Err [msg] end.
Definition bail {A} (msg : string) : result A := Err [msg].

(** [Result::ok]. *)
Definition to_option {A} (m : result A) : option A :=
  match m with Ok a => Some a | Err _ => None end.

Definition is_ok {A} (m : result A) : bool :=
  match m with Ok _ => true | Err _ => false end.

(** [format!]: the concatenation of the pieces. *)
Definition fmt (l : list string) : string := foldr String.append "" l.

(** The alternate rendering [{error:#}]: the chain separated by ": ". *)
Fixpoint chain (e : error) : string :=
  match e with
  | [] => ""
  | [m] => m
  | m :: r => m +:+ ": " +:+ chain r
  end.

Lemma Ok_inj {A} (a b : A) : Ok a = Ok b -> a = b.
Proof. by intros [= ->]. Qed.

Lemma bind_ok {A B} (m : result A) (f : A -> result B) b :
  (m ≫= f) = Ok b <-> exists a, m = Ok a /\ f a = Ok b.
Proof. destruct m as [a|e]; cbn; split; [eauto|by intros (? & [= ->] & ?)|done|by intros (? & ? & ?)]. Qed.

Lemma fmap_ok {A B} (m : result A) (f : A -> B) b :
  (f <$> m) = Ok b <-> exists a, m = Ok a /\ b = f a.
Proof.
  destruct m as [a|e]; cbn; split;
    [intros [= <-]; eauto|by intros (? & [= ->] & ->)|done|by intros (? & ? & ?)].
Qed.

Lemma with_context_ok {A} msg (m : result A) a : with_context msg m = Ok a <-> m = Ok a.
Proof. destruct m; simpl; split; naive_solver. Qed.

Lemma ok_or_ok {A} msg (o : option A) a : ok_or msg o = Ok a <-> o = Some a.
Proof. destruct o; cbn; naive_solver. Qed.



(** Takes a hypothesis that a computation returned [Ok] apart, one [?] at a
    time. *)
Ltac inv_ok :=
  repeat match goal with
  | H : (_ ≫= _) = Ok _ |- _ =>
      apply bind_ok in H; let a := fresh "r" in let Ha := fresh "Hr" in
      destruct H as (a & Ha & H)
  | H : (_ <$> _) = Ok _ |- _ =>
      apply fmap_ok in H; let a := fresh "r" in let Ha := fresh "Hr" in
      destruct H as (a & Ha & H)
  | H : with_context _ _ = Ok _ |- _ => apply with_context_ok in H
  | H : ok_or _ _ = Ok _ |- _ => apply ok_or_ok in H
  | H : Ok _ = Ok _ |- _ => injection H as H
  | H : Err _ = Ok _ |- _ => discriminate H
  | H : bail _ = Ok _ |- _ => discriminate H
  | H : mret _ = Ok _ |- _ => change (Ok _ = Ok _) in H
  end.

(** Splits every [if] and [match] of the goal or of a hypothesis. *)
Ltac cases :=
  repeat match goal with
  | |- context [match ?x with _ => _ end] => destruct x eqn:?
  | H : context [match ?x with _ => _ end] |- _ => destruct x eqn:?
  end.

(** Runs a result-returning function over a list, left to right, stopping at
    the first error (a [for] loop with [?] in its body). *)
Fixpoint fold_result {A S} (f : S -> A -> result S) (l : list A) (s : S) : result S :=
  match l with
  | [] => Ok s
  | a :: r => s' ← f s a; fold_result f r s'
  end.

Lemma fold_result_inv {A S} (f : S -> A -> result S) (P : S -> Prop) l s s' :
  (forall s a s', a ∈ l -> P s -> f s a = Ok s' -> P s') ->
  P s -> fold_result f l s = Ok s' -> P s'.
Proof.
  revert s. induction l as [|a l IH]; cbn; intros s Hf Hs H; inv_ok; [by subst|].
  eapply IH; [|eapply Hf; [|exact Hs|exact Hr]|exact H]; [|left].
  intros ??? Hin. apply Hf. by right.
Qed.

(** What a loop collects: when each round adds what its element contributes,
    the loop adds what all elements contribute. *)
Lemma fold_result_collect {A S T} (I : S -> (T -> Prop) -> Prop) (contributes : A -> T -> Prop) f l s s' P :
  (forall s P Q, (forall t, P t <-> Q t) -> I s P -> I s Q) ->
  (forall s a s' P, a ∈ l -> I s P -> f s a = Ok s' -> I s' (fun t => P t \/ contributes a t)) ->
  I s P -> fold_result f l s = Ok s' ->
  I s' (fun t => P t \/ exists a, a ∈ l /\ contributes a t).
Proof.
  intros Hext. revert s P. induction l as [|a l IH]; cbn; intros s P Hf Hs H; inv_ok.
  - subst. eapply Hext; [|exact Hs]. intros t. split; [by left|]. by intros [?|(? & ?%elem_of_nil & _)].
  - eapply Hext; [|eapply IH; [intros ???? Hin; apply Hf; by right|eapply Hf; [left|exact Hs|exact Hr]|exact H]].
    intros t. split.
    + intros [[?|?]|(b & ? & ?)]; [by left|right; exists a; by split; [left|]|right; exists b; by split; [right|]].
    + intros [?|(b & [->|?]%elem_of_cons & ?)]; [by left; left|by left; right|right; eauto].
Qed.

(** Maps a result-returning function over a list ([collect::<Result<_>>]). *)
Fixpoint map_result {A B} (f : A -> result B) (l : list A) : result (list B) :=
  match l with
  | [] => Ok []
  | a :: r => b ← f a; bs ← map_result f r; Ok (b :: bs)
  end.

Lemma elem_of_map_result {A B} (f : A -> result B) l bs b :
  map_result f l = Ok bs -> b ∈ bs -> exists a, a ∈ l /\ f a = Ok b.
Proof.
  revert bs. induction l as [|a l IH]; cbn; intros bs Hr Hb; inv_ok; subst bs.
  - by apply not_elem_of_nil in Hb.
  - apply elem_of_cons in Hb as [->|Hb]; [exists a; split; [left|done]|].
    destruct (IH _ Hr1 Hb) as (a' & ? & ?). exists a'. split; [by right|done].
Qed.

Lemma map_result_elem {A B} (f : A -> result B) l bs a :
  map_result f l = Ok bs -> a ∈ l -> exists b, b ∈ bs /\ f a = Ok b.
Proof.
  revert bs. induction l as [|a' l IH]; cbn; intros bs Hr Ha; [by apply not_elem_of_nil in Ha|].
  inv_ok. subst bs. apply elem_of_cons in Ha as [->|Ha]; [exists r; split; [left|done]|].
  destruct (IH _ Hr1 Ha) as (b & ? & ?). exists b. split; [by right|done].
Qed.

(** ** Total orders *)

(** [std::cmp::Ord], with the laws the standard library documents. *)
Class Ord (A : Type) := cmp : A -> A -> comparison.
Class OrdLaws (A : Type) `{Ord A} := {
  cmp_eq : forall x y : A, cmp x y = Eq <-> x = y;
  cmp_antisym : forall x y : A, cmp y x = CompOpp (cmp x y);
  cmp_trans : forall x y z : A, cmp x y = Lt -> cmp y z = Lt -> cmp x z = Lt;
}.

Section OrdFacts.
Context `{OrdLaws A}.

Lemma cmp_refl (x : A) : cmp x x = Eq.
Proof. by apply cmp_eq. Qed.

(** [x <= y] as a boolean, the form the sorting routines consume. *)
Definition leb (x y : A) : bool := match cmp x y with Gt => false | _ => true end.

Lemma leb_refl x : leb x x = true.
Proof. unfold leb. by rewrite cmp_refl. Qed.

Lemma leb_total x y : leb x y = true \/ leb y x = true.
Proof. unfold leb. rewrite (cmp_antisym x y). destruct (cmp x y); auto. Qed.

Lemma leb_antisym x y : leb x y = true -> leb y x = true -> x = y.
Proof.
  unfold leb. rewrite (cmp_antisym x y). intros H1 H2.
  apply cmp_eq. by destruct (cmp x y).
Qed.

Lemma leb_trans x y z : leb x y = true -> leb y z = true -> leb x z = true.
Proof.
  unfold leb. destruct (cmp x y) eqn:E1; [apply cmp_eq in E1 as ->| |done].
  - done.
  - intros _. destruct (cmp y z) eqn:E2; [apply cmp_eq in E2 as <-| |done].
    + by rewrite E1.
    + by rewrite (cmp_trans _ _ _ E1 E2).
Qed.

Lemma cmp_lt_irrefl (x : A) : cmp x x <> Lt.
Proof. by rewrite cmp_refl. Qed.

Lemma cmp_gt_lt (x y : A) : cmp x y = Gt <-> cmp y x = Lt.
Proof. rewrite (cmp_antisym x y). by destruct (cmp x y). Qed.
End OrdFacts.

(** Comparison through a key: [sort_by_key], derived orders on records. *)
Definition on {A B} `{Ord B} (f : A -> B) (x y : A) : bool := leb (f x) (f y).

#[export] Instance ord_nat : Ord nat := Nat.compare.
#[export] Instance ord_nat_laws : OrdLaws nat.
Proof.
  split; unfold cmp, ord_nat; intros *.
  - apply Nat.compare_eq_iff.
  - apply Nat.compare_antisym.
  - rewrite !Nat.compare_lt_iff. lia.
Qed.

#[export] Instance ord_N : Ord N := N.compare.
#[export] Instance ord_N_laws : OrdLaws N.
Proof.
  split; unfold cmp, ord_N; intros *.
  - apply N.compare_eq_iff.
  - apply N.compare_antisym.
  - rewrite !N.compare_lt_iff. lia.
Qed.

#[export] Instance ord_Z : Ord Z := Z.compare.
#[export] Instance ord_Z_laws : OrdLaws Z.
Proof.
  split; unfold cmp, ord_Z; intros *.
  - apply Z.compare_eq_iff.
  - apply Z.compare_antisym.
  - rewrite !Z.compare_lt_iff. lia.
Qed.

(** [false < true], as in Rust. *)
#[export] Instance ord_bool : Ord bool := fun a b =>
  match a, b with false, true => Lt | true, false => Gt | _, _ => Eq end.
#[export] Instance ord_bool_laws : OrdLaws bool.
Proof. split; [intros [] []; done|intros [] []; done|intros [] [] []; done]. Qed.

(** An injection into an ordered type carries the order back. *)
Lemma ord_laws_inj {A B} (f : A -> B) `{OrdLaws B} `{!Inj (=) (=) f} :
  @OrdLaws A (fun x y => cmp (f x) (f y)).
Proof.
  split; intros x y.
  - change (cmp (f x) (f y) = Eq <-> x = y). rewrite cmp_eq.
    split; [apply Inj0|by intros ->].
  - apply (cmp_antisym (f x) (f y)).
  - intros z. apply (cmp_trans (f x) (f y) (f z)).
Qed.

#[export] Instance ord_ascii : Ord ascii := fun a b => cmp (N_of_ascii a) (N_of_ascii b).
#[export] Instance N_of_ascii_inj : Inj (=) (=) N_of_ascii.
Proof. intros a b E. by rewrite <- (ascii_N_embedding a), E, ascii_N_embedding. Qed.
#[export] Instance ord_ascii_laws : OrdLaws ascii.
Proof. apply (ord_laws_inj N_of_ascii). Qed.

(** Pairs compare lexicographically. *)
#[export] Instance ord_prod `{Ord A, Ord B} : Ord (A * B) := fun x y =>
  match cmp x.1 y.1 with Eq => cmp x.2 y.2 | c => c end.

Lemma cmp_pair `{Ord A, Ord B} (x1 y1 : A) (x2 y2 : B) :
  cmp (x1, x2) (y1, y2) = match cmp x1 y1 with Eq => cmp x2 y2 | c => c end.
Proof. done. Qed.

#[export] Instance ord_prod_laws `{OrdLaws A, OrdLaws B} : OrdLaws (A * B).
Proof.
  split; intros [x1 x2] [y1 y2].
  - rewrite cmp_pair. destruct (cmp x1 y1) eqn:E.
    + apply cmp_eq in E as ->. rewrite cmp_eq. split; [by intros ->|by intros [= ->]].
    + split; [done|]. intros [= -> _]. by rewrite cmp_refl in E.
    + split; [done|]. intros [= -> _]. by rewrite cmp_refl in E.
  - rewrite !cmp_pair, (cmp_antisym x1 y1), (cmp_antisym x2 y2). by destruct (cmp x1 y1).
  - intros [z1 z2]. rewrite !cmp_pair.
    destruct (cmp x1 y1) eqn:E1; [apply cmp_eq in E1 as ->| |done].
    + intros L. destruct (cmp y1 z1) eqn:E2; [|done..]. by apply cmp_trans.
    + intros _. destruct (cmp y1 z1) eqn:E2; [apply cmp_eq in E2 as <-| |done].
      * by rewrite E1.
      * by rewrite (cmp_trans _ _ _ E1 E2).
Qed.

(** Lists compare lexicographically. *)
#[export] Instance ord_list `{Ord A} : Ord (list A) := fix go l k :=
  match l, k with
  | [], [] => Eq
  | [], _ => Lt
  | _, [] => Gt
  | x :: l, y :: k => match cmp x y with Eq => go l k | c => c end
  end.

Lemma cmp_cons `{Ord A} (x y : A) l k :
  cmp (x :: l) (y :: k) = match cmp x y with Eq => cmp l k | c => c end.
Proof. done. Qed.

#[export] Instance ord_list_laws `{OrdLaws A} : OrdLaws (list A).
Proof.
  split; intros l.
  - induction l as [|x l IH]; intros [|y k]; try done.
    rewrite cmp_cons. destruct (cmp x y) eqn:E.
    + apply cmp_eq in E as ->. rewrite IH. split; [by intros ->|by intros [= ->]].
    + split; [done|]. intros [= -> _]. by rewrite cmp_refl in E.
    + split; [done|]. intros [= -> _]. by rewrite cmp_refl in E.
  - induction l as [|x l IH]; intros [|y k]; try done.
    rewrite !cmp_cons, (cmp_antisym x y), IH. by destruct (cmp x y).
  - induction l as [|x l IH]; intros [|y k] [|z m]; try done.
    rewrite !cmp_cons.
    destruct (cmp x y) eqn:E1; [apply cmp_eq in E1 as ->| |done].
    + intros L. destruct (cmp y z) eqn:E2; [|done..]. by apply IH.
    + intros _. destruct (cmp y z) eqn:E2; [apply cmp_eq in E2 as <-| |done].
      * by rewrite E1.
      * by rewrite (cmp_trans _ _ _ E1 E2).
Qed.

(** Strings compare byte by byte. *)
#[export] Instance ord_string : Ord string := fun s t =>
  cmp (list_ascii_of_string s) (list_ascii_of_string t).
#[export] Instance list_ascii_of_string_inj : Inj (=) (=) list_ascii_of_string.
Proof.
  intros s t E. by rewrite <- (string_of_list_ascii_of_string s), E,
    string_of_list_ascii_of_string.
Qed.
#[export] Instance ord_string_laws : OrdLaws string.
Proof. apply (ord_laws_inj list_ascii_of_string). Qed.

(** [std::io::Error]: its kind, as far as the program tells kinds apart, and
    its message. *)
Inductive io_kind := NotFound | NotADirectory | AlreadyExists | OtherKind.
#[export] Instance io_kind_eq_dec : EqDecision io_kind.
Proof. solve_decision. Defined.
Record io_error := mkIoError { ioe_kind : io_kind; ioe_message : string }.
Definition io_result (A : Type) : Type := (A + io_error)%type.

(** [with_context] on an I/O result. *)
Definition io_context {A} (msg : string) (r : io_result A) : result A :=
  match r with inl a => Ok a | inr e => Err [msg; ioe_message e] end.
Definition io_ok {A} (r : io_result A) : option A :=
  match r with inl a => Some a | inr _ => None end.

Lemma fmt_app a b : fmt (a ++ b) = fmt a +:+ fmt b.
Proof.
  unfold fmt. induction a as [|x a IH]; cbn; [done|]. rewrite IH.
  clear IH. generalize (foldr append "" a), (foldr append "" b). intros s t.
  induction x as [|c x IH]; cbn; [done|]. by rewrite IH.
Qed.
