(* ===== verification/Effects.v ===== *)
(** * Effects: computations on a world that can fail

    A component that changes the system (mounts, processes, files) is written
    over an abstract state [W] of the system, with the operations it needs as a
    type class.  [M W A] is a computation on [W] that may fail with an error;
    unlike a transaction, a failure keeps what was already done to [W].

    [keeps P m] states that [m] preserves [P] whatever it returns; its rules are
    collected in the hint database [keeps], so that an invariant of the system
    is proved from the operations' own specifications by [eauto with keeps]. *)
From Stdlib Require Import String.
From stdpp Require Import base list strings.
From S2P Require Import Prelude.

Definition M (W A : Type) : Type := W -> result A * W.

#[export] Instance M_ret {W} : MRet (M W) := fun A a w => (Ok a, w).
#[export] Instance M_bind {W} : MBind (M W) := fun A B f m w =>
  match m w with
  | (Ok a, w') => f a w'
  | (Err e, w') => (Err e, w')
  end.
#[export] Instance M_fmap {W} : FMap (M W) := fun A B f m w =>
  match m w with
  | (Ok a, w') => (Ok (f a), w')
  | (Err e, w') => (Err e, w')
  end.

(** A result that needs no world; a view of the world; a failure caught. *)
Definition lift {W A} (r : result A) : M W A := fun w => (r, w).
Definition gets {W A} (f : W -> A) : M W A := fun w => (Ok (f w), w).
Definition getr {W A} (f : W -> result A) : M W A := fun w => (f w, w).
Definition fail {W A} (e : error) : M W A := fun w => (Err e, w).
Definition catch {W A} (m : M W A) : M W (result A) := fun w => let (r, w') := m w in (Ok r, w').
Definition in_context {W A} (msg : string) (m : M W A) : M W A := fun w =>
  let (r, w') := m w in (with_context msg r, w').

(** A [for] loop whose body may fail. *)
Fixpoint for_each {W A} (f : A -> M W unit) (l : list A) : M W unit :=
  match l with
  | [] => mret tt
  | a :: r => f a ≫= fun _ => for_each f r
  end.

(** A loop that threads an accumulator. *)
Fixpoint fold_each {W A B} (f : B -> A -> M W B) (l : list A) (b : B) : M W B :=
  match l with
  | [] => mret b
  | a :: r => f b a ≫= fun b' => fold_each f r b'
  end.

(** ** Invariants *)

Definition keeps {W A} (P : W -> Prop) (m : M W A) : Prop := forall w, P w -> P (m w).2.

Create HintDb keeps.

Section Keeps.
Context {W : Type} (P : W -> Prop).

Lemma keeps_ret {A} (a : A) : keeps P (mret a).
Proof. by intros w. Qed.
Lemma keeps_lift {A} (r : result A) : keeps P (lift r).
Proof. by intros w. Qed.
Lemma keeps_gets {A} (f : W -> A) : keeps P (gets f).
Proof. by intros w. Qed.
Lemma keeps_getr {A} (f : W -> result A) : keeps P (getr f).
Proof. by intros w. Qed.
Lemma keeps_fail {A} e : keeps P (@fail W A e).
Proof. by intros w. Qed.
Lemma keeps_bind {A B} (m : M W A) (f : A -> M W B) :
  keeps P m -> (forall a, keeps P (f a)) -> keeps P (m ≫= f).
Proof.
  intros Hm Hf w Hw. unfold mbind, M_bind. specialize (Hm w Hw).
  destruct (m w) as [[a|e] w']; [by apply Hf|done].
Qed.
Lemma keeps_fmap {A B} (m : M W A) (f : A -> B) : keeps P m -> keeps P (f <$> m).
Proof. intros Hm w Hw. specialize (Hm w Hw). unfold fmap, M_fmap. by destruct (m w) as [[a|e] w']. Qed.
Lemma keeps_catch {A} (m : M W A) : keeps P m -> keeps P (catch m).
Proof. intros Hm w Hw. unfold catch. specialize (Hm w Hw). by destruct (m w). Qed.
Lemma keeps_context {A} msg (m : M W A) : keeps P m -> keeps P (in_context msg m).
Proof. intros Hm w Hw. unfold in_context. specialize (Hm w Hw). by destruct (m w). Qed.
Lemma keeps_for_each {A} (f : A -> M W unit) l :
  (forall a, a ∈ l -> keeps P (f a)) -> keeps P (for_each f l).
Proof.
  induction l as [|a l IH]; intros Hf; cbn [for_each]; [apply keeps_ret|].
  apply keeps_bind; [apply Hf; left|]. intros _. apply IH. intros b Hb. apply Hf. by right.
Qed.
Lemma keeps_fold_each {A B} (f : B -> A -> M W B) l b :
  (forall b a, a ∈ l -> keeps P (f b a)) -> keeps P (fold_each f l b).
Proof.
  revert b. induction l as [|a l IH]; intros b Hf; cbn [fold_each]; [apply keeps_ret|].
  apply keeps_bind; [apply Hf; left|]. intros b'. apply IH. intros b'' a' Ha. apply Hf. by right.
Qed.
Lemma keeps_if {A} (c : bool) (m1 m2 : M W A) :
  keeps P m1 -> keeps P m2 -> keeps P (if c then m1 else m2).
Proof. by destruct c. Qed.
End Keeps.

#[export] Hint Resolve keeps_ret keeps_lift keeps_gets keeps_getr keeps_fail keeps_bind keeps_fmap
  keeps_catch keeps_context keeps_for_each keeps_fold_each keeps_if : keeps.

(** The value and the world a computation that returns leaves. *)
Lemma M_bind_cases {W A B} (m : M W A) (f : A -> M W B) w r w' :
  (m ≫= f) w = (r, w') ->
  exists o w1, m w = (o, w1) /\
    ((exists a, o = Ok a /\ f a w1 = (r, w')) \/ (exists e, o = Err e /\ r = Err e /\ w' = w1)).
Proof.
  unfold mbind, M_bind. destruct (m w) as [[a|e] w1]; intros Hr; eexists _, w1; (split; [done|]).
  - left. by exists a.
  - right. exists e. by injection Hr as <- <-.
Qed.

Lemma gets_bind {W A B} (f : W -> A) (g : A -> M W B) w : (gets f ≫= g) w = g (f w) w.
Proof. done. Qed.

Lemma M_bind_ok {W A B} (m : M W A) (f : A -> M W B) w b w' :
  (m ≫= f) w = (Ok b, w') <-> exists a w1, m w = (Ok a, w1) /\ f a w1 = (Ok b, w').
Proof.
  unfold mbind, M_bind. destruct (m w) as [[a|e] w1]; split.
  - intros H. by exists a, w1.
  - by intros (? & ? & [= -> ->] & H).
  - done.
  - by intros (? & ? & ? & H).
Qed.

Lemma fold_each_inv {W A B} (f : B -> A -> M W B) (I : B -> Prop) l b w b' w' :
  (forall b a w b' w', a ∈ l -> I b -> f b a w = (Ok b', w') -> I b') ->
  I b -> fold_each f l b w = (Ok b', w') -> I b'.
Proof.
  revert b w. induction l as [|a l IH]; intros b w Hf Hb Hr; cbn [fold_each] in Hr.
  - by injection Hr as <- <-.
  - apply M_bind_ok in Hr as (b1 & w1 & H1 & H2).
    apply (IH b1 w1); [|by eapply Hf; [left|exact Hb|exact H1]|exact H2].
    intros ????? Ha. apply Hf. by right.
Qed.
