(* ===== verification/Traces.v ===== *)
(** * Traces: computations that record their calls

    A component whose order of calls matters runs on the state of the system
    together with the list of the calls made so far.  [call] makes a call and
    records it with its outcome; [emits m Q] states what [m] returns together
    with what it records, whatever the system answers; [steps R m] that every
    run of [m] relates the state before to the state after.  The rules of both
    follow the operations of the monad. *)
From Stdlib Require Import String.
From stdpp Require Import base list strings.
From S2P Require Import Prelude Effects.

Create HintDb traces.

Section Traces.
Context {W E : Type}.

Definition traced : Type := W * list E.

(** A call that is not recorded; a call that is, by its result or by its answer;
    and a record without a call. *)
Definition quiet {A} (m : M W A) : M traced A := fun s => let (r, w) := m s.1 in (r, (w, s.2)).
Definition call {A} (event : result A -> E) (m : M W A) : M traced A := fun s =>
  let (r, w) := m s.1 in (r, (w, s.2 ++ [event r])).
Definition ask {A} (event : A -> E) (m : W -> A * W) : M traced A := fun s =>
  let (a, w) := m s.1 in (Ok a, (w, s.2 ++ [event a])).
Definition note (e : E) : M traced unit := fun s => (Ok tt, (s.1, s.2 ++ [e])).

(** ** What is recorded *)

Definition emits {A} (m : M traced A) (Q : result A -> list E -> Prop) : Prop :=
  forall s r s', m s = (r, s') -> exists ev, s'.2 = s.2 ++ ev /\ Q r ev.

Lemma emits_ret {A} (a : A) (Q : result A -> list E -> Prop) : Q (Ok a) [] -> emits (mret a) Q.
Proof. intros HQ s r s' [= <- <-]. exists []. by rewrite app_nil_r. Qed.
Lemma emits_lift {A} (x : result A) (Q : result A -> list E -> Prop) : Q x [] -> emits (lift x) Q.
Proof. intros HQ s r s' [= <- <-]. exists []. by rewrite app_nil_r. Qed.
Lemma emits_fail {A} e (Q : result A -> list E -> Prop) : Q (Err e) [] -> emits (fail e) Q.
Proof. intros HQ s r s' [= <- <-]. exists []. by rewrite app_nil_r. Qed.
Lemma emits_note e (Q : result unit -> list E -> Prop) : Q (Ok tt) [e] -> emits (note e) Q.
Proof. intros HQ s r s' [= <- <-]. by exists [e]. Qed.
Lemma emits_quiet {A} (m : M W A) (Q : result A -> list E -> Prop) : (forall r, Q r []) -> emits (quiet m) Q.
Proof. intros HQ s r s' E'. unfold quiet in E'. destruct (m s.1). injection E' as <- <-. exists []. by rewrite app_nil_r. Qed.
Lemma emits_call {A} (event : result A -> E) m (Q : result A -> list E -> Prop) :
  (forall r, Q r [event r]) -> emits (call event m) Q.
Proof. intros HQ s r s' E'. unfold call in E'. destruct (m s.1) as [x w]. injection E' as <- <-. by exists [event x]. Qed.
Lemma emits_ask {A} (event : A -> E) m (Q : result A -> list E -> Prop) :
  (forall a, Q (Ok a) [event a]) -> emits (ask event m) Q.
Proof. intros HQ s r s' E'. unfold ask in E'. destruct (m s.1) as [x w]. injection E' as <- <-. by exists [event x]. Qed.

Lemma emits_bind {A B} (m : M traced A) (f : A -> M traced B) Q R :
  emits m Q -> (forall a ev1, Q (Ok a) ev1 -> emits (f a) (fun r ev2 => R r (ev1 ++ ev2))) ->
  (forall e ev, Q (Err e) ev -> R (Err e) ev) -> emits (m ≫= f) R.
Proof.
  intros Hm Hf He s r s' (o & s1 & E' & Hr)%M_bind_cases. destruct (Hm _ _ _ E') as (ev1 & H1 & HQ).
  destruct Hr as [(a & -> & Hr)|(e & -> & -> & ->)]; [|by exists ev1; split; [|apply He]].
  destruct (Hf _ _ HQ _ _ _ Hr) as (ev2 & H2 & HR). exists (ev1 ++ ev2). by rewrite H2, H1, app_assoc.
Qed.
Lemma emits_fmap {A B} (f : A -> B) (m : M traced A) (Q : result B -> list E -> Prop) :
  emits m (fun r ev => Q (f <$> r) ev) -> emits (f <$> m) Q.
Proof.
  intros Hm s r s' E'. unfold fmap, M_fmap in E'. destruct (m s) as [o s1] eqn:Em.
  destruct (Hm _ _ _ Em) as (ev & H1 & HQ). destruct o; injection E' as <- <-; by exists ev.
Qed.
Lemma emits_catch {A} (m : M traced A) (Q : result (result A) -> list E -> Prop) :
  emits m (fun r ev => Q (Ok r) ev) -> emits (catch m) Q.
Proof.
  intros Hm s r s' E'. unfold catch in E'. destruct (m s) as [o s1] eqn:Em. injection E' as <- <-.
  by destruct (Hm _ _ _ Em) as (ev & H1 & HQ); exists ev.
Qed.
Lemma emits_context {A} msg (m : M traced A) (Q : result A -> list E -> Prop) :
  emits m (fun r ev => Q (with_context msg r) ev) -> emits (in_context msg m) Q.
Proof.
  intros Hm s r s' E'. unfold in_context in E'. destruct (m s) as [o s1] eqn:Em. injection E' as <- <-.
  by destruct (Hm _ _ _ Em) as (ev & H1 & HQ); exists ev.
Qed.
Lemma emits_mono {A} (m : M traced A) (Q R : result A -> list E -> Prop) :
  emits m Q -> (forall r ev, Q r ev -> R r ev) -> emits m R.
Proof. intros Hm HR s r s' E'. destruct (Hm _ _ _ E') as (ev & H1 & HQ). exists ev. split; [done|by apply HR]. Qed.

Lemma emits_ask_bind {A B} (event : A -> E) m (f : A -> M traced B) (R : result B -> list E -> Prop) :
  (forall a, emits (f a) (fun r ev => R r (event a :: ev))) -> emits (ask event m ≫= f) R.
Proof.
  intros Hf. eapply emits_bind; [by apply (emits_ask _ _ (fun r ev => exists a, r = Ok a /\ ev = [event a])); eauto| |].
  - intros a ev1 (a' & [= ->] & ->). apply Hf.
  - by intros e ev (a & ? & _).
Qed.
Lemma emits_lift_bind {A B} (x : result A) (f : A -> M traced B) (R : result B -> list E -> Prop) :
  (forall a, x = Ok a -> emits (f a) R) -> (forall e, x = Err e -> R (Err e) []) -> emits (lift x ≫= f) R.
Proof.
  intros Hf He. destruct x as [a|e]; [by intros s; apply (Hf a)|]. intros s r s' [= <- <-]. exists [].
  rewrite app_nil_r. split; [done|by apply He].
Qed.

(** A property of every event that a run records. *)
Definition only {A} (P : E -> Prop) (m : M traced A) : Prop := emits m (fun _ ev => Forall P ev).

Lemma only_bind {A B} P (m : M traced A) (f : A -> M traced B) : only P m -> (forall a, only P (f a)) -> only P (m ≫= f).
Proof.
  intros Hm Hf. eapply emits_bind; [exact Hm| |done]. intros a ev1 H1. eapply emits_mono; [apply Hf|].
  intros r ev2 H2. by apply Forall_app.
Qed.
Lemma only_for_each {A} P (f : A -> M traced unit) l : (forall a, a ∈ l -> only P (f a)) -> only P (for_each f l).
Proof.
  induction l as [|a l IH]; intros Hf; cbn [for_each]; [by apply emits_ret; constructor|].
  apply only_bind; [apply Hf; left|]. intros _. apply IH. intros b Hb. apply Hf. by right.
Qed.
Lemma only_if {A} P (c : bool) (m1 m2 : M traced A) : only P m1 -> only P m2 -> only P (if c then m1 else m2).
Proof. by destruct c. Qed.

Lemma only_mono {A} (P P' : E -> Prop) (m : M traced A) : only P m -> (forall e, P e -> P' e) -> only P' m.
Proof. intros Hm HP. eapply emits_mono; [exact Hm|]. intros r ev Hev. eapply Forall_impl; [exact Hev|exact HP]. Qed.

(** ** Calls justified by those before *)

Section Guarded.
Context (G : list E -> E -> Prop).

Definition lawful (t : list E) : Prop := forall pre e post, t = pre ++ e :: post -> G pre e.

(** From the trace [t], [m] makes only calls that [G] allows, and a value it
    returns satisfies [Q] with the trace it leaves. *)
Definition obeys {A} (t : list E) (m : M traced A) (Q : A -> list E -> Prop) : Prop :=
  forall s r s', s.2 = t -> lawful t -> m s = (r, s') ->
    lawful s'.2 /\ t `prefix_of` s'.2 /\ match r with Ok a => Q a s'.2 | Err _ => True end.

Lemma lawful_nil : lawful [].
Proof. intros [|] ? ? [=]. Qed.
Lemma lawful_snoc t e : lawful t -> G t e -> lawful (t ++ [e]).
Proof.
  intros Ht He pre e' post E'. destruct (decide (post = [])) as [->|Hp].
  - apply app_inj_tail in E' as [-> ->]. done.
  - destruct (exists_last Hp) as (post' & x & ->). rewrite app_comm_cons, app_assoc in E'.
    apply app_inj_tail in E' as [-> _]. by eapply Ht.
Qed.

Lemma obeys_ret {A} t (a : A) (Q : A -> list E -> Prop) : Q a t -> obeys t (mret a) Q.
Proof. intros HQ s r s' <- Ht [= <- <-]. done. Qed.
Lemma obeys_lift {A} t (x : result A) (Q : A -> list E -> Prop) : (forall a, x = Ok a -> Q a t) -> obeys t (lift x) Q.
Proof. intros HQ s r s' <- Ht [= <- <-]. split; [done|]. split; [done|]. destruct x; [by apply HQ|done]. Qed.
Lemma obeys_ask {A} t (event : A -> E) m (Q : A -> list E -> Prop) :
  (forall a, G t (event a)) -> (forall a, Q a (t ++ [event a])) -> obeys t (ask event m) Q.
Proof.
  intros HG HQ s r s' <- Ht E'. unfold ask in E'. destruct (m s.1) as [a w]. injection E' as <- <-. cbn [snd].
  split_and!; [by apply lawful_snoc|by eexists|done].
Qed.
Lemma obeys_note t e (Q : unit -> list E -> Prop) : G t e -> Q tt (t ++ [e]) -> obeys t (note e) Q.
Proof. intros HG HQ s r s' <- Ht [= <- <-]. cbn [snd]. split_and!; [by apply lawful_snoc|by eexists|done]. Qed.
Lemma obeys_fail {A} t e (Q : A -> list E -> Prop) : obeys t (fail e) Q.
Proof. by intros s r s' <- Ht [= <- <-]. Qed.
Lemma obeys_bind {A B} t (m : M traced A) (f : A -> M traced B) Q R :
  obeys t m Q -> (forall a t1, t `prefix_of` t1 -> Q a t1 -> obeys t1 (f a) R) -> obeys t (m ≫= f) R.
Proof.
  intros Hm Hf s r s' Es Ht (o & s1 & E' & Hr)%M_bind_cases. destruct (Hm _ _ _ Es Ht E') as (Ht1 & Hp & HQ).
  destruct Hr as [(a & -> & Hr)|(e & -> & -> & ->)]; [|done].
  destruct (Hf a s1.2 Hp HQ _ _ _ eq_refl Ht1 Hr) as (? & ? & ?). split_and!; [done|by etrans|done].
Qed.
Lemma obeys_mono {A} t (m : M traced A) (Q R : A -> list E -> Prop) :
  obeys t m Q -> (forall a t', t `prefix_of` t' -> Q a t' -> R a t') -> obeys t m R.
Proof.
  intros Hm HR s r s' Es Ht E'. destruct (Hm _ _ _ Es Ht E') as (? & ? & ?). split_and!; [done..|].
  destruct r; [by apply HR|done].
Qed.
(** Calls that need no justification. *)
Lemma obeys_only {A} P t (m : M traced A) :
  (forall t e, P e -> G t e) -> only P m -> obeys t m (fun _ t' => exists ev, t' = t ++ ev /\ Forall P ev).
Proof.
  intros HP Hm s r s' <- Ht E'. destruct (Hm _ _ _ E') as (ev & H1 & Hev).
  assert (lawful (s.2 ++ ev)) as Hg.
  { clear -HP Ht Hev. induction ev as [|e ev IH] using rev_ind; [by rewrite app_nil_r|].
    apply Forall_app in Hev as [H1 H2]. rewrite app_assoc. apply lawful_snoc; [by apply IH|]. apply HP. by inversion H2. }
  rewrite H1. split_and!; [done|by eexists|]. destruct r; [by exists ev|done].
Qed.
(** Calls that keep a property of the trace, which allows them. *)
Lemma obeys_steady {A} (I : list E -> Prop) (P : E -> Prop) t (m : M traced A) :
  (forall t e, I t -> P e -> G t e /\ I (t ++ [e])) -> only P m -> I t -> obeys t m (fun _ t' => I t').
Proof.
  intros HP Hm HI s r s' <- Ht E'. destruct (Hm _ _ _ E') as (ev & -> & Hev). clear E'.
  enough (lawful (s.2 ++ ev) /\ I (s.2 ++ ev)) as [? ?] by (split_and!; [done|by eexists|by destruct r]).
  induction ev as [|e ev IH] using rev_ind; [by rewrite app_nil_r|]. apply Forall_app in Hev as [H1 H2]. inversion_clear H2.
  destruct (IH H1) as [H3 H4]. destruct (HP _ e H4) as [? ?]; [done|]. rewrite app_assoc. split; [by apply lawful_snoc|done].
Qed.
Lemma obeys_emits {A} t (m : M traced A) Q R :
  obeys t m Q -> emits m R -> obeys t m (fun a t' => Q a t' /\ exists ev, t' = t ++ ev /\ R (Ok a) ev).
Proof.
  intros Hm Hr s r s' Es Ht E'. destruct (Hm _ _ _ Es Ht E') as (? & ? & ?). destruct (Hr _ _ _ E') as (ev & E1 & E2).
  split_and!; [done..|]. destruct r; [|done]. split; [done|]. exists ev. by rewrite E1, Es.
Qed.
End Guarded.

(** ** How the state changes *)

Section Steps.
Context (R : W -> W -> Prop) `{!PreOrder R}.

Definition steps {A} (m : M traced A) : Prop := forall s, R s.1 (m s).2.1.

Lemma steps_ret {A} (a : A) : steps (mret a).
Proof. by intros s. Qed.
Lemma steps_lift {A} (x : result A) : steps (lift x).
Proof. by intros s. Qed.
Lemma steps_fail {A} e : steps (@fail traced A e).
Proof. by intros s. Qed.
Lemma steps_call {A} event (m : M W A) : (forall w, R w (m w).2) -> steps (call event m).
Proof. intros Hm s. unfold call. specialize (Hm s.1). by destruct (m s.1). Qed.
Lemma steps_ask {A} event (m : W -> A * W) : (forall w, R w (m w).2) -> steps (ask event m).
Proof. intros Hm s. unfold ask. specialize (Hm s.1). by destruct (m s.1). Qed.
Lemma steps_bind {A B} (m : M traced A) (f : A -> M traced B) : steps m -> (forall a, steps (f a)) -> steps (m ≫= f).
Proof.
  intros Hm Hf s. unfold mbind, M_bind. specialize (Hm s). destruct (m s) as [[a|e] s1]; [|done].
  cbn in Hm. etrans; [exact Hm|]. apply Hf.
Qed.
Lemma steps_fmap {A B} (f : A -> B) (m : M traced A) : steps m -> steps (f <$> m).
Proof. intros Hm s. unfold fmap, M_fmap. specialize (Hm s). by destruct (m s) as [[a|e] s1]. Qed.
Lemma steps_context {A} msg (m : M traced A) : steps m -> steps (in_context msg m).
Proof. intros Hm s. unfold in_context. specialize (Hm s). by destruct (m s). Qed.
Lemma steps_for_each {A} (f : A -> M traced unit) l : (forall a, steps (f a)) -> steps (for_each f l).
Proof. induction l as [|a l IH]; intros Hf; cbn [for_each]; [apply steps_ret|]. apply steps_bind; [apply Hf|]. intros _. by apply IH. Qed.
Lemma steps_if {A} (c : bool) (m1 m2 : M traced A) : steps m1 -> steps m2 -> steps (if c then m1 else m2).
Proof. by destruct c. Qed.
End Steps.
End Traces.
Arguments traced : clear implicits.

#[export] Hint Resolve only_bind only_for_each only_if steps_ret steps_lift steps_fail steps_call steps_ask steps_bind
  steps_fmap steps_context steps_for_each steps_if : traces.
