(* ===== verification/Collections.v ===== *)
(** * Collections: the standard-library collections the program uses

    [Vec::sort_by], [Vec::dedup], [BTreeSet] and [BTreeMap].  The ordered
    collections are the strictly increasing lists of their elements, in the
    order in which the program iterates over them; [to_gmap] and the lemmas
    around it relate them to stdpp's finite maps. *)
From Stdlib Require Import Sorting.Sorted Permutation.
From stdpp Require Import base list strings gmap.
From S2P Require Import Prelude.

(** ** Sorting *)

(** [sort_by] is a stable sort: an element is placed before the first element
    of the sorted rest that is not smaller. *)
Section Sort.
Context {A : Type} (le : A -> A -> bool).

Fixpoint insert_by (x : A) (l : list A) : list A :=
  match l with
  | [] => [x]
  | y :: r => if le x y then x :: l else y :: insert_by x r
  end.

Definition sort_by (l : list A) : list A := foldr insert_by [] l.

Lemma insert_by_perm x l : insert_by x l ≡ₚ x :: l.
Proof.
  induction l as [|y r IH]; cbn; [done|].
  destruct (le x y); [done|]. rewrite IH. constructor.
Qed.

Lemma sort_by_perm l : sort_by l ≡ₚ l.
Proof. induction l as [|x l IH]; cbn; [done|]. by rewrite insert_by_perm, IH. Qed.

Lemma elem_of_sort_by x l : x ∈ sort_by l <-> x ∈ l.
Proof. by rewrite sort_by_perm. Qed.

Lemma length_sort_by l : length (sort_by l) = length l.
Proof. apply Permutation_length, sort_by_perm. Qed.

Context (le_total : forall x y, le x y = true \/ le y x = true).
Context (le_trans : forall x y z, le x y = true -> le y z = true -> le x z = true).

Lemma insert_by_sorted x l :
  StronglySorted le l -> StronglySorted le (insert_by x l).
Proof.
  induction 1 as [|y r Hr IH Hy]; cbn; [by repeat constructor|].
  destruct (le x y) eqn:E.
  - constructor; [by constructor|]. constructor; [by rewrite E|].
    eapply Forall_impl; [exact Hy|]. cbn. intros z Hz.
    apply Is_true_true. apply Is_true_true in Hz. eauto.
  - constructor; [done|]. rewrite insert_by_perm. constructor; [|done].
    destruct (le_total x y) as [F|F]; [congruence|by rewrite F].
Qed.

Lemma sort_by_sorted l : StronglySorted le (sort_by l).
Proof. induction l; cbn; [constructor|by apply insert_by_sorted]. Qed.
End Sort.

(** The order the program sorts by, through a key. *)
Section SortOn.
Context {A K : Type} `{OrdLaws K} (key : A -> K).

Lemma on_total x y : on key x y = true \/ on key y x = true.
Proof. apply leb_total. Qed.
Lemma on_trans x y z : on key x y = true -> on key y z = true -> on key x z = true.
Proof. apply leb_trans. Qed.

Lemma sort_on_sorted l : StronglySorted (on key) (sort_by (on key) l).
Proof. apply sort_by_sorted; [apply on_total|apply on_trans]. Qed.
End SortOn.

(** ** Removal of duplicates *)

(** [Vec::dedup_by]: removes an element equivalent to its predecessor kept. *)
Section Dedup.
Context {A : Type} (same : A -> A -> bool).

Fixpoint dedup_from (prev : A) (l : list A) : list A :=
  match l with
  | [] => []
  | x :: r => if same prev x then dedup_from prev r else x :: dedup_from x r
  end.

Definition dedup (l : list A) : list A :=
  match l with [] => [] | x :: r => x :: dedup_from x r end.

Lemma dedup_from_sublist prev l : dedup_from prev l `sublist_of` l.
Proof.
  revert prev. induction l as [|x l IH]; intros prev; cbn; [constructor|].
  destruct (same prev x); [by apply sublist_cons|by apply sublist_skip].
Qed.

Lemma dedup_sublist l : dedup l `sublist_of` l.
Proof. destruct l; cbn; [constructor|]. apply sublist_skip, dedup_from_sublist. Qed.

Lemma elem_of_dedup_1 x l : x ∈ dedup l -> x ∈ l.
Proof. intros Hx. eapply elem_of_submseteq; [exact Hx|]. apply sublist_submseteq, dedup_sublist. Qed.
End Dedup.

Lemma elem_of_dedup_from {A} (same : A -> A -> bool) prev x l :
  (forall a b, same a b = true -> a = b) ->
  x ∈ l -> x = prev \/ x ∈ dedup_from same prev l.
Proof.
  intros Hs. revert prev. induction l as [|y l IH]; intros prev Hx; cbn; [by apply not_elem_of_nil in Hx|].
  apply elem_of_cons in Hx as [->|Hx].
  - destruct (same prev y) eqn:E; [left; symmetry; auto|right; left].
  - destruct (same prev y) eqn:E; [by apply IH|].
    right. destruct (IH y Hx) as [->|?]; [left|by right].
Qed.

Lemma elem_of_dedup {A} (same : A -> A -> bool) x l :
  (forall a b, same a b = true -> a = b) -> x ∈ dedup same l <-> x ∈ l.
Proof.
  intros Hs. split; [apply elem_of_dedup_1|].
  destruct l as [|y l]; cbn; [done|]. intros [->|Hx]%elem_of_cons; [left|].
  destruct (elem_of_dedup_from same y x l Hs Hx) as [->|?]; [left|by right].
Qed.

Lemma dedup_map {A B} (f : A -> B) (same : B -> B -> bool) l :
  map f (dedup (fun a b => same (f a) (f b)) l) = dedup same (map f l).
Proof.
  destruct l as [|x l]; cbn; [done|]. f_equal. revert x.
  induction l as [|y l IH]; intros x; cbn; [done|].
  destruct (same (f x) (f y)); cbn; by rewrite IH.
Qed.

Lemma dedup_ext {A} (same same' : A -> A -> bool) l :
  (forall a b, same a b = same' a b) -> dedup same l = dedup same' l.
Proof.
  intros E. destruct l as [|x l]; cbn; [done|]. f_equal. revert x.
  induction l as [|y l IH]; intros x; cbn; [done|]. rewrite E. destruct (same' x y); by rewrite IH.
Qed.

Lemma sublist_StronglySorted {A} (R : A -> A -> Prop) l k :
  l `sublist_of` k -> StronglySorted R k -> StronglySorted R l.
Proof.
  induction 1 as [|x l k Hl IH|x l k Hl IH]; [done|..]; intros S; inversion S; subst.
  - constructor; [auto|]. apply Forall_forall. intros y Hy.
    eapply Forall_forall; [eassumption|]. by eapply elem_of_submseteq, sublist_submseteq.
  - auto.
Qed.

(** A list sorted by an antisymmetric order is strictly increasing once its
    duplicates are removed. *)
Section DedupSorted.
Context {A : Type} `{OrdLaws A}.
Definition lt_of (x y : A) : Prop := cmp x y = Lt.
Definition ltb_of (x y : A) : bool := match cmp x y with Lt => true | _ => false end.
Definition eqb_of (x y : A) : bool := match cmp x y with Eq => true | _ => false end.

Lemma eqb_of_true x y : eqb_of x y = true <-> x = y.
Proof. unfold eqb_of. rewrite <- (cmp_eq x y). by destruct (cmp x y). Qed.

Lemma dedup_from_strict prev l :
  StronglySorted leb (prev :: l) -> StronglySorted lt_of (prev :: dedup_from eqb_of prev l).
Proof.
  revert prev. induction l as [|x l IH]; intros prev S; cbn; [by repeat constructor|].
  inversion S as [|?? S1 F1]; subst. inversion F1 as [|?? Hx F2]; subst.
  destruct (eqb_of prev x) eqn:E.
  - apply eqb_of_true in E as ->. by apply IH.
  - pose proof (IH x S1) as S2. constructor; [done|].
    assert (lt_of prev x) as Hlt.
    { unfold lt_of, leb, eqb_of in *. by destruct (cmp prev x). }
    inversion S2 as [|?? _ F3]; subst. constructor; [done|].
    eapply Forall_impl; [exact F3|]. intros y. by apply cmp_trans.
Qed.

Lemma dedup_strict l : StronglySorted leb l -> StronglySorted lt_of (dedup eqb_of l).
Proof. destruct l; cbn; [constructor|]. apply dedup_from_strict. Qed.

Lemma strict_NoDup l : StronglySorted lt_of l -> NoDup l.
Proof.
  induction 1 as [|x l S IH F]; constructor; [|done].
  intros Hx. eapply Forall_forall in F; [|exact Hx]. by eapply cmp_lt_irrefl.
Qed.

Lemma dedup_NoDup l : StronglySorted leb l -> NoDup (dedup eqb_of l).
Proof. intros S. by apply strict_NoDup, dedup_strict. Qed.

(** Sorting by a key and removing the elements whose key repeats keeps one
    element for every key, in strictly increasing order. *)
Lemma dedup_key_strict {B} (key : B -> A) l :
  StronglySorted lt_of
    (map key (dedup (fun a b => eqb_of (key a) (key b)) (sort_by (on key) l))).
Proof.
  rewrite dedup_map. apply dedup_strict.
  generalize (sort_on_sorted key l). generalize (sort_by (on key) l) as k.
  induction 1 as [|x k S IH F]; cbn; constructor; [done|].
  rewrite Forall_map. eapply Forall_impl; [exact F|]. done.
Qed.

Lemma elem_of_dedup_key {B} (key : B -> A) (k : list B) x :
  x ∈ k -> exists y, y ∈ dedup (fun a b => eqb_of (key a) (key b)) k /\ key y = key x.
Proof.
  intros Hx. assert (key x ∈ map key (dedup (fun a b => eqb_of (key a) (key b)) k)) as Hk.
  { rewrite dedup_map. apply elem_of_dedup; [intros; by apply eqb_of_true|].
    apply list_elem_of_fmap. eauto. }
  apply list_elem_of_fmap in Hk as (y & E & Hy). eauto.
Qed.

(** Strictly increasing lists are determined by their elements. *)
Lemma strict_ext l k :
  StronglySorted lt_of l -> StronglySorted lt_of k ->
  (forall x, x ∈ l <-> x ∈ k) -> l = k.
Proof.
  intros Sl. revert k. induction Sl as [|x l Sl IH Fl]; intros k Sk E.
  - destruct k as [|y k]; [done|]. exfalso. eapply not_elem_of_nil, E. left.
  - destruct Sk as [|y k Sk Fk]; [exfalso; eapply not_elem_of_nil, E; left|].
    rewrite Forall_forall in Fl, Fk.
    assert (x = y) as <-.
    { pose proof (proj1 (E x) ltac:(left)) as Hx. pose proof (proj2 (E y) ltac:(left)) as Hy.
      apply elem_of_cons in Hx as [->|Hx]; [done|].
      apply elem_of_cons in Hy as [->|Hy]; [done|].
      exfalso. eapply cmp_lt_irrefl, cmp_trans; [apply (Fk _ Hx)|apply (Fl _ Hy)]. }
    f_equal. apply IH; [done|]. intros z. split; intros Hz.
    + pose proof (proj1 (E z) ltac:(by right)) as Hx.
      apply elem_of_cons in Hx as [->|Hx]; [|done]. by destruct (cmp_lt_irrefl _ (Fl _ Hz)).
    + pose proof (proj2 (E z) ltac:(by right)) as Hx.
      apply elem_of_cons in Hx as [->|Hx]; [|done]. by destruct (cmp_lt_irrefl _ (Fk _ Hz)).
Qed.
End DedupSorted.

(** ** [BTreeSet] *)

(** Insertion into a strictly increasing list; an element already present is
    kept. *)
Section BTreeSet.
Context {A : Type} `{OrdLaws A}.

Fixpoint bs_insert (x : A) (l : list A) : list A :=
  match l with
  | [] => [x]
  | y :: r => match cmp x y with
              | Lt => x :: l
              | Eq => l
              | Gt => y :: bs_insert x r
              end
  end.

Definition bs_contains (x : A) (l : list A) : bool := existsb (eqb_of x) l.

(** [extend] and [collect]. *)
Definition bs_extend (s : list A) (l : list A) : list A :=
  foldl (fun s x => bs_insert x s) s l.
Definition bs_of_list (l : list A) : list A := bs_extend [] l.

Lemma elem_of_bs_insert x y l : y ∈ bs_insert x l <-> y = x \/ y ∈ l.
Proof.
  induction l as [|z l IH]; cbn; [set_solver|].
  destruct (cmp x z) eqn:E; [apply cmp_eq in E as ->|..]; set_solver.
Qed.

Lemma bs_contains_true x l : bs_contains x l = true <-> x ∈ l.
Proof.
  unfold bs_contains. rewrite existsb_exists. setoid_rewrite eqb_of_true.
  rewrite list_elem_of_In. naive_solver.
Qed.

Lemma bs_insert_strict x l :
  StronglySorted lt_of l -> StronglySorted lt_of (bs_insert x l).
Proof.
  induction 1 as [|y l S IH F]; cbn; [by repeat constructor|].
  destruct (cmp x y) eqn:E.
  - by constructor.
  - constructor; [by constructor|]. constructor; [done|].
    eapply Forall_impl; [exact F|]. intros z. by apply cmp_trans.
  - constructor; [done|]. apply Forall_forall. intros z Hz.
    apply elem_of_bs_insert in Hz as [->|Hz]; [by apply cmp_gt_lt|].
    by eapply Forall_forall in F.
Qed.

Lemma elem_of_bs_extend s l x : x ∈ bs_extend s l <-> x ∈ s \/ x ∈ l.
Proof.
  unfold bs_extend. revert s. induction l as [|y l IH]; intros s; cbn.
  - set_solver.
  - rewrite IH, elem_of_bs_insert. set_solver.
Qed.

Lemma bs_extend_strict s l :
  StronglySorted lt_of s -> StronglySorted lt_of (bs_extend s l).
Proof.
  unfold bs_extend. revert s. induction l as [|y l IH]; intros s; cbn; [done|].
  intros S. by apply IH, bs_insert_strict.
Qed.

Lemma elem_of_bs_of_list l x : x ∈ bs_of_list l <-> x ∈ l.
Proof. unfold bs_of_list. rewrite elem_of_bs_extend. set_solver. Qed.

Lemma bs_of_list_strict l : StronglySorted lt_of (bs_of_list l).
Proof. apply bs_extend_strict. constructor. Qed.

Lemma bs_of_list_idem l : StronglySorted lt_of l -> bs_of_list l = l.
Proof.
  intros S. apply strict_ext; [apply bs_of_list_strict|done|apply elem_of_bs_of_list].
Qed.
End BTreeSet.

(** [seen.insert(x)] as a filter: keeps the first occurrence of each element,
    in order. *)
Section Seen.
Context {A : Type} `{OrdLaws A}.

Fixpoint dedup_seen (seen : list A) (l : list A) : list A :=
  match l with
  | [] => []
  | x :: r => if bs_contains x seen then dedup_seen seen r
              else x :: dedup_seen (bs_insert x seen) r
  end.

Lemma elem_of_dedup_seen seen l x :
  x ∈ dedup_seen seen l <-> x ∈ l /\ x ∉ seen.
Proof.
  revert seen. induction l as [|y l IH]; intros seen; cbn; [set_solver|].
  destruct (bs_contains y seen) eqn:E.
  - apply bs_contains_true in E. rewrite IH. set_solver.
  - assert (y ∉ seen) as Hy by (rewrite <- bs_contains_true; congruence).
    rewrite elem_of_cons, IH, elem_of_bs_insert.
    destruct (eqb_of x y) eqn:E2; [apply eqb_of_true in E2 as ->; set_solver|].
    assert (x <> y) by (intros ->; unfold eqb_of in E2; by rewrite cmp_refl in E2).
    set_solver.
Qed.

Lemma dedup_seen_NoDup seen l : NoDup (dedup_seen seen l).
Proof.
  revert seen. induction l as [|y l IH]; intros seen; cbn; [constructor|].
  destruct (bs_contains y seen); [done|]. constructor; [|done].
  rewrite elem_of_dedup_seen, elem_of_bs_insert. intros [_ []]. by left.
Qed.

Lemma dedup_seen_sublist seen l : dedup_seen seen l `sublist_of` l.
Proof.
  revert seen. induction l as [|x l IH]; intros seen; cbn; [constructor|].
  destruct (bs_contains x seen); [by apply sublist_cons|by apply sublist_skip].
Qed.
End Seen.

(** ** [BTreeMap] *)

(** The strictly increasing list of the map's entries. *)
Section BTreeMap.
Context {K V : Type} `{OrdLaws K}.

Fixpoint bm_insert (k : K) (v : V) (m : list (K * V)) : list (K * V) :=
  match m with
  | [] => [(k, v)]
  | (k', v') :: r => match cmp k k' with
                     | Lt => (k, v) :: m
                     | Eq => (k, v) :: r
                     | Gt => (k', v') :: bm_insert k v r
                     end
  end.

Fixpoint bm_get (k : K) (m : list (K * V)) : option V :=
  match m with
  | [] => None
  | (k', v') :: r => match cmp k k' with Eq => Some v' | _ => bm_get k r end
  end.

Definition bm_wf (m : list (K * V)) : Prop := StronglySorted lt_of m.*1.

Lemma bm_get_insert_eq k v m : bm_get k (bm_insert k v m) = Some v.
Proof.
  induction m as [|[k' v'] m IH]; cbn; [by rewrite cmp_refl|].
  destruct (cmp k k') eqn:E; cbn; rewrite ?cmp_refl, ?E; done.
Qed.

Lemma bm_get_insert_ne k k' v m : k <> k' -> bm_get k' (bm_insert k v m) = bm_get k' m.
Proof.
  intros Hne. assert (cmp k' k <> Eq) as Hc by (rewrite cmp_eq; congruence).
  induction m as [|[k'' v''] m IH]; cbn; [by destruct (cmp k' k)|].
  destruct (cmp k k'') eqn:E; cbn.
  - apply cmp_eq in E as <-. by destruct (cmp k' k).
  - by destruct (cmp k' k).
  - destruct (cmp k' k''); [done|exact IH..].
Qed.

Lemma bm_insert_keys k v m : (bm_insert k v m).*1 = bs_insert k m.*1.
Proof.
  induction m as [|[k' v'] m IH]; cbn; [done|].
  destruct (cmp k k') eqn:E; cbn; [apply cmp_eq in E as ->; done|done|by rewrite IH].
Qed.

Lemma bm_insert_wf k v m : bm_wf m -> bm_wf (bm_insert k v m).
Proof. unfold bm_wf. rewrite bm_insert_keys. apply bs_insert_strict. Qed.

Lemma bm_get_Some k m : is_Some (bm_get k m) <-> k ∈ m.*1.
Proof.
  induction m as [|[k' v'] m IH]; cbn.
  - split; [by intros []|by intros ?%not_elem_of_nil].
  - rewrite elem_of_cons, <- IH. destruct (cmp k k') eqn:E.
    + apply cmp_eq in E as ->. split; [by left|eauto].
    + split; [by right|]. intros [->|?]; [by rewrite cmp_refl in E|done].
    + split; [by right|]. intros [->|?]; [by rewrite cmp_refl in E|done].
Qed.

Lemma bm_get_elem k v m : bm_wf m -> (k, v) ∈ m <-> bm_get k m = Some v.
Proof.
  unfold bm_wf. induction m as [|[k' v'] m IH]; cbn; intros S.
  - split; [by intros ?%not_elem_of_nil|done].
  - inversion S as [|?? S' F]; subst. rewrite elem_of_cons, IH by done.
    rewrite Forall_forall in F. destruct (cmp k k') eqn:E.
    + apply cmp_eq in E as ->. split; [|intros [= ->]; by left].
      intros [[= ->]|G]; [done|]. destruct (cmp_lt_irrefl k').
      apply F, bm_get_Some. eauto.
    + split; [|by right]. intros [[= -> ->]|?]; [by rewrite cmp_refl in E|done].
    + split; [|by right]. intros [[= -> ->]|?]; [by rewrite cmp_refl in E|done].
Qed.

(** Two maps with the same lookups are equal. *)
Lemma bm_ext m1 m2 :
  bm_wf m1 -> bm_wf m2 -> (forall k, bm_get k m1 = bm_get k m2) -> m1 = m2.
Proof.
  intros W1 W2 E.
  assert (m1.*1 = m2.*1) as Ek.
  { apply strict_ext; [done..|]. intros k. by rewrite <- !bm_get_Some, E. }
  clear W2. unfold bm_wf in W1. revert m2 E Ek.
  induction m1 as [|[k v] m1 IH]; intros [|[k2 v2] m2] E Ek; try done.
  cbn in Ek. injection Ek as <- Ek. inversion W1 as [|?? W F]; subst.
  pose proof (E k) as Ev. cbn in Ev. rewrite cmp_refl in Ev. injection Ev as <-.
  f_equal. apply IH; [done| |done]. intros k'.
  pose proof (E k') as Ek'. cbn in Ek'. destruct (cmp k' k) eqn:C; [|done..].
  apply cmp_eq in C as ->.
  assert (forall m : list (K * V), m.*1 = m1.*1 -> bm_get k m = None) as N.
  { intros m Hm. destruct (bm_get k m) eqn:G; [|done].
    assert (k ∈ m.*1) as Hk by (apply bm_get_Some; eauto).
    rewrite Hm in Hk. eapply Forall_forall in F; [|exact Hk]. by destruct (cmp_lt_irrefl k). }
  by rewrite !N.
Qed.

(** Abstraction to stdpp's finite maps. *)
Section ToGmap.
Context `{Countable K}.
Definition to_gmap (m : list (K * V)) : gmap K V := list_to_map m.

Lemma to_gmap_lookup m k : to_gmap m !! k = bm_get k m.
Proof.
  unfold to_gmap. induction m as [|[k' v'] m IH]; cbn; [apply lookup_empty|].
  rewrite lookup_insert. case_decide as D.
  - subst. by rewrite cmp_refl.
  - rewrite IH. destruct (cmp k k') eqn:E; [apply cmp_eq in E; congruence|done..].
Qed.

Lemma to_gmap_insert m k v : to_gmap (bm_insert k v m) = <[k := v]> (to_gmap m).
Proof.
  apply map_eq. intros k'. rewrite lookup_insert, !to_gmap_lookup. case_decide as D.
  - subst. apply bm_get_insert_eq.
  - by apply bm_get_insert_ne.
Qed.
End ToGmap.
End BTreeMap.

(** The last element that satisfies a test, and what follows it. *)
Lemma last_filter_split {A} (f : A -> bool) (l : list A) x :
  last (List.filter f l) = Some x ->
  exists l1 l2, l = l1 ++ x :: l2 /\ f x = true /\ Forall (fun y => f y = false) l2.
Proof.
  induction l as [|y l IH]; cbn; [done|]. destruct (f y) eqn:E.
  - rewrite last_cons. destruct (last (List.filter f l)) as [z|] eqn:El.
    + intros [= ->]. destruct (IH eq_refl) as (l1 & l2 & -> & ? & ?). by exists (y :: l1), l2.
    + intros [= ->]. exists [], l. split_and!; [done..|].
      apply last_None in El. clear -El. induction l as [|z l IH]; [constructor|].
      cbn in El. destruct (f z) eqn:E; [done|]. constructor; auto.
  - intros El. destruct (IH El) as (l1 & l2 & -> & ? & ?). by exists (y :: l1), l2.
Qed.

Lemma find_filter {A} (f g : A -> bool) l :
  (forall x, f x = true -> g x = true) -> List.find f (List.filter g l) = List.find f l.
Proof.
  intros H. induction l as [|x l IH]; [done|]. cbn. destruct (g x) eqn:G; cbn; rewrite IH; [done|].
  destruct (f x) eqn:E; [|done]. apply H in E. congruence.
Qed.

(** [max_by_key]: the last of the greatest. *)
Fixpoint max_by_key {A} (key : A -> nat) (l : list A) (best : option A) : option A :=
  match l with
  | [] => best
  | x :: r =>
      max_by_key key r
        (match best with
         | Some b => if (key b <=? key x)%nat then Some x else best
         | None => Some x
         end)
  end.

Lemma max_by_key_None {A} (key : A -> nat) l best :
  max_by_key key l best = None <-> l = [] /\ best = None.
Proof.
  revert best. induction l as [|x l IH]; intros best; cbn; [naive_solver|].
  rewrite IH. destruct best as [b|]; [destruct (_ <=? _)%nat|]; naive_solver.
Qed.

(** What [max_by_key] finds is the last element of the greatest key. *)
Lemma max_by_key_Some {A} (key : A -> nat) l best x :
  max_by_key key l best = Some x ->
  exists l1 l2, option_list best ++ l = l1 ++ x :: l2 /\
    Forall (fun y => (key y <= key x)%nat) l1 /\ Forall (fun y => (key y < key x)%nat) l2.
Proof.
  revert best. induction l as [|y l IH]; intros best; cbn.
  - intros ->. exists [], []. cbn. auto.
  - intros H. apply IH in H as (l1 & l2 & E & H1 & H2). destruct best as [b|]; cbn in *.
    + destruct (key b <=? key y)%nat eqn:Hle; cbn in E.
      * apply Nat.leb_le in Hle. exists (b :: l1), l2. rewrite E. split; [done|]. split; [|done].
        constructor; [|done]. destruct l1 as [|z l1]; cbn in E; [by injection E as -> _|].
        injection E as -> _. inversion H1; subst. lia.
      * apply Nat.leb_gt in Hle. destruct l1 as [|z l1]; cbn in E; injection E as -> E.
        -- exists [], (y :: l2). rewrite E. split; [done|]. split; [constructor|by constructor].
        -- exists (z :: y :: l1), l2. rewrite E. split; [done|]. split; [|done].
           inversion H1; subst. constructor; [done|]. constructor; [lia|done].
    + exists l1, l2. done.
Qed.

Lemma filter_StronglySorted {A} (R : A -> A -> Prop) (f : A -> bool) l :
  StronglySorted R l -> StronglySorted R (List.filter f l).
Proof.
  induction 1 as [|x l Hs IH Hx]; cbn; [constructor|]. destruct (f x); [|done].
  constructor; [done|]. rewrite List.Forall_forall in *. intros y Hy.
  apply List.filter_In in Hy as [Hy _]. auto.
Qed.

Lemma StronglySorted_split {A} (R : A -> A -> Prop) l1 x l2 :
  StronglySorted R (l1 ++ x :: l2) -> Forall (fun y => R y x) l1 /\ Forall (R x) l2.
Proof.
  induction l1 as [|y l1 IH]; cbn; intros H; inversion H as [|? ? Hs Hf]; subst; [done|].
  destruct (IH Hs) as [H1 H2]. split; [|done]. constructor; [|done].
  rewrite Forall_forall in Hf. apply Hf. set_solver.
Qed.

Lemma imap_pair_sorted {A} (l : list A) : StronglySorted (fun x y => (x.1 < y.1)%nat) (imap pair l).
Proof.
  enough (forall k, StronglySorted (fun x y => (x.1 < y.1)%nat) (imap (fun n x => (k + n, x)%nat) l)) as H by apply (H 0%nat).
  induction l as [|x l IH]; intros k; cbn; [constructor|]. constructor.
  - specialize (IH (Datatypes.S k)). erewrite imap_ext; [exact IH|]. intros n y _. cbn. f_equal. lia.
  - apply Forall_forall. intros [n y] Hin. apply elem_of_lookup_imap in Hin as (m & z & [= -> ->] & _). cbn. lia.
Qed.

(** The last of the greatest among the elements of a list that pass a test,
    with its position. *)
Lemma last_greatest {A} (key : A -> nat) (f : A -> bool) (l : list A) i x :
  max_by_key (fun ix => key ix.2) (List.filter (fun ix => f ix.2) (imap pair l)) None = Some (i, x) <->
  l !! i = Some x /\ f x = true /\
  forall j y, l !! j = Some y -> f y = true -> (key y < key x)%nat \/ (key y = key x /\ (j <= i)%nat).
Proof.
  assert (forall i x, max_by_key (fun ix => key ix.2) (List.filter (fun ix => f ix.2) (imap pair l)) None = Some (i, x) ->
    l !! i = Some x /\ f x = true /\
    forall j y, l !! j = Some y -> f y = true -> (key y < key x)%nat \/ (key y = key x /\ (j <= i)%nat)) as Hto.
  { clear i x. intros i x Hm. apply max_by_key_Some in Hm as (l1 & l2 & E & H1 & H2). simpl in E.
    assert (forall j y, (j, y) ∈ List.filter (fun ix => f ix.2) (imap pair l) <-> l !! j = Some y /\ f y = true) as Hin.
    { intros j y. rewrite list_elem_of_In, List.filter_In, <- list_elem_of_In, elem_of_lookup_imap. cbn. naive_solver. }
    destruct (proj1 (Hin i x)) as [Hi Hf]; [rewrite E; set_solver|]. split; [done|]. split; [done|].
    intros j y Hj Hy. pose proof (proj2 (Hin j y) (conj Hj Hy)) as Hl. rewrite E in Hl.
    pose proof (filter_StronglySorted _ (fun ix => f ix.2) _ (imap_pair_sorted l)) as Hs. rewrite E in Hs.
    apply StronglySorted_split in Hs as [Hs1 Hs2]. rewrite Forall_forall in *.
    apply elem_of_app in Hl as [Hl|Hl]; [|apply elem_of_cons in Hl as [[= -> ->]|Hl]].
    - specialize (H1 _ Hl). specialize (Hs1 _ Hl). cbn in *. lia.
    - lia.
    - specialize (H2 _ Hl). cbn in *. lia. }
  split; [apply Hto|]. intros (Hi & Hf & Hmax).
  destruct (max_by_key (fun ix : nat * A => key ix.2) (List.filter (fun ix => f ix.2) (imap pair l)) None)
    as [[j y]|] eqn:E.
  - destruct (Hto _ _ eq_refl) as (Hj & Hy & Hmax'). specialize (Hmax j y Hj Hy). specialize (Hmax' i x Hi Hf).
    assert (i = j) as -> by lia. congruence.
  - apply max_by_key_None in E as [E _].
    assert ((i, x) ∈ List.filter (fun ix => f ix.2) (imap pair l)) as Hin.
    { rewrite list_elem_of_In, List.filter_In, <- list_elem_of_In, elem_of_lookup_imap. cbn. eauto. }
    rewrite E in Hin. by apply elem_of_nil in Hin.
Qed.

(** What [find] finds among the images of a list, and what it passed over. *)
Lemma find_map_Some {A B} (f : B -> bool) (g : A -> B) (l : list A) y :
  List.find f (map g l) = Some y <->
  exists l1 x l2, l = l1 ++ x :: l2 /\ y = g x /\ f (g x) = true /\ Forall (fun z => f (g z) = false) l1.
Proof.
  induction l as [|a l IH]; cbn.
  - split; [done|]. intros (l1 & x & l2 & E & _). by destruct l1.
  - destruct (f (g a)) eqn:Ha.
    + split.
      * intros [= <-]. exists [], a, l. auto.
      * intros (l1 & x & l2 & E & -> & _ & Hl). destruct l1 as [|b l1]; cbn in E; injection E as -> E; [done|].
        inversion Hl; congruence.
    + rewrite IH. split.
      * intros (l1 & x & l2 & -> & -> & Hx & Hl). exists (a :: l1), x, l2. auto.
      * intros (l1 & x & l2 & E & -> & Hx & Hl). destruct l1 as [|b l1]; cbn in E; injection E as -> E; [congruence|].
        inversion Hl; subst. eauto 7.
Qed.
