(* ===== verification/RustStr.v ===== *)
(** * RustStr: Rust string slices

    A [str] is its UTF-8 bytes, a [string] of the Standard Library.  The
    operations below are the methods of [str] the program calls; those that
    look for an ASCII character or an ASCII substring work on bytes, which is
    what they amount to on UTF-8 text.  [trim] removes the characters with the
    Unicode property White_Space in their UTF-8 encodings, and [chars] decodes
    the bytes. *)
From Stdlib Require Import Ascii String NArith Lia ZifyBool ZifyN.
From stdpp Require Import base list strings pretty.
From S2P Require Import Prelude.

Definition len (s : string) : nat := String.length s.
Definition is_empty (s : string) : bool := match s with "" => true | _ => false end.

(** ** Prefixes and suffixes *)

Fixpoint strip_prefix (p s : string) : option string :=
  match p, s with
  | EmptyString, _ => Some s
  | String a p, String b s => if Ascii.eqb a b then strip_prefix p s else None
  | _, EmptyString => None
  end.

Definition starts_with (p s : string) : bool :=
  match strip_prefix p s with Some _ => true | None => false end.

Fixpoint ends_with (p s : string) : bool :=
  String.eqb p s || match s with EmptyString => false | String _ s => ends_with p s end.

Fixpoint strip_suffix (p s : string) : option string :=
  if String.eqb p s then Some ""
  else match s with
       | EmptyString => None
       | String a s => String a <$> strip_suffix p s
       end.

(** [contains] with a substring, with a character, and with a predicate. *)
Fixpoint contains (p s : string) : bool :=
  starts_with p s || match s with EmptyString => false | String _ s => contains p s end.
Fixpoint has (c : ascii) (s : string) : bool :=
  match s with EmptyString => false | String a s => Ascii.eqb a c || has c s end.
Fixpoint all_bytes (f : ascii -> bool) (s : string) : bool :=
  match s with EmptyString => true | String a s => f a && all_bytes f s end.

(** ** Splitting and joining *)

(** [split(c)]: never the empty list. *)
Fixpoint split (c : ascii) (s : string) : list string :=
  match s with
  | EmptyString => [""]
  | String a r =>
      if Ascii.eqb a c then "" :: split c r
      else match split c r with
           | [] => [String a ""]
           | h :: t => String a h :: t
           end
  end.

(** [split_once(c)]: at the first occurrence. *)
Fixpoint split_once (c : ascii) (s : string) : option (string * string) :=
  match s with
  | EmptyString => None
  | String a r =>
      if Ascii.eqb a c then Some ("", r)
      else '(h, t) ← split_once c r; Some (String a h, t)
  end.

(** [rsplit_once(c)]: at the last occurrence. *)
Fixpoint rsplit_once (c : ascii) (s : string) : option (string * string) :=
  match s with
  | EmptyString => None
  | String a r =>
      match rsplit_once c r with
      | Some (h, t) => Some (String a h, t)
      | None => if Ascii.eqb a c then Some ("", r) else None
      end
  end.

(** [splitn(n, c)]: at most [n] pieces, the last holding the rest. *)
Fixpoint splitn (n : nat) (c : ascii) (s : string) : list string :=
  match n with
  | 0 => []
  | 1 => [s]
  | S n => match split_once c s with
           | None => [s]
           | Some (h, t) => h :: splitn n c t
           end
  end.

(** [join(sep)]. *)
Fixpoint join (sep : string) (l : list string) : string :=
  match l with
  | [] => ""
  | [s] => s
  | s :: r => s +:+ sep +:+ join sep r
  end.

Definition LF : ascii := "010".
Definition CR : ascii := "013".
Definition nl : string := String LF "".
Definition strip_cr (s : string) : string := default s (strip_suffix (String CR "") s).

(** [lines()]: the pieces ended by a line feed, without it and without a
    carriage return before it, and the unterminated rest if there is one. *)
Fixpoint lines_of (ps : list string) : list string :=
  match ps with
  | [] => []
  | [l] => if is_empty l then [] else [l]
  | l :: r => strip_cr l :: lines_of r
  end.
Definition lines (s : string) : list string := lines_of (split LF s).

(** ** White space *)

Definition bytes2 (a b : ascii) : N * N := (N_of_ascii a, N_of_ascii b).

(** The encodings of the White_Space characters, by length. *)
Definition ws1 (a : ascii) : bool :=
  let n := N_of_ascii a in (n =? 32)%N || ((9 <=? n)%N && (n <=? 13)%N).
Definition ws2 (a b : ascii) : bool :=
  let (m, n) := bytes2 a b in
  (m =? 194)%N && ((n =? 133)%N || (n =? 160)%N).
Definition ws3 (a b c : ascii) : bool :=
  let (m, n) := bytes2 a b in let o := N_of_ascii c in
  ((m =? 225)%N && (n =? 154)%N && (o =? 128)%N)
  || ((m =? 226)%N && (n =? 128)%N &&
      (((128 <=? o)%N && (o <=? 138)%N) || (o =? 168)%N || (o =? 169)%N || (o =? 175)%N))
  || ((m =? 226)%N && (n =? 129)%N && (o =? 159)%N)
  || ((m =? 227)%N && (n =? 128)%N && (o =? 128)%N).

(** Removes the encodings at the front of a byte list; the two- and three-byte
    tests are arguments because the end of a string is trimmed on its reversed
    bytes. *)
Section DropWs.
Context (w2 : ascii -> ascii -> bool) (w3 : ascii -> ascii -> ascii -> bool).

Fixpoint drop_ws (l : list ascii) : list ascii :=
  match l with
  | [] => []
  | a :: r =>
      if ws1 a then drop_ws r else
      match r with
      | b :: r2 =>
          if w2 a b then drop_ws r2 else
          match r2 with
          | c :: r3 => if w3 a b c then drop_ws r3 else l
          | [] => l
          end
      | [] => l
      end
  end.
End DropWs.

Definition trim_front : list ascii -> list ascii := drop_ws ws2 ws3.
Definition trim_back : list ascii -> list ascii :=
  drop_ws (fun a b => ws2 b a) (fun a b c => ws3 c b a).
Definition trim_bytes (l : list ascii) : list ascii :=
  rev (trim_back (rev (trim_front l))).
Definition trim (s : string) : string :=
  string_of_list_ascii (trim_bytes (list_ascii_of_string s)).
#[global] Arguments trim : simpl never.

(** ** ASCII case *)

Definition is_digit (a : ascii) : bool :=
  let n := N_of_ascii a in (48 <=? n)%N && (n <=? 57)%N.
Definition is_upper (a : ascii) : bool :=
  let n := N_of_ascii a in (65 <=? n)%N && (n <=? 90)%N.
Definition is_lower (a : ascii) : bool :=
  let n := N_of_ascii a in (97 <=? n)%N && (n <=? 122)%N.
Definition is_alpha (a : ascii) : bool := is_upper a || is_lower a.
Definition is_alnum (a : ascii) : bool := is_alpha a || is_digit a.
Definition is_hexdigit (a : ascii) : bool :=
  let n := N_of_ascii a in
  is_digit a || ((65 <=? n)%N && (n <=? 70)%N) || ((97 <=? n)%N && (n <=? 102)%N).

Definition lower (a : ascii) : ascii :=
  if is_upper a then ascii_of_N (N_of_ascii a + 32) else a.
Fixpoint to_ascii_lowercase (s : string) : string :=
  match s with
  | EmptyString => ""
  | String a r => String (lower a) (to_ascii_lowercase r)
  end.
Definition eq_ignore_ascii_case (s t : string) : bool :=
  String.eqb (to_ascii_lowercase s) (to_ascii_lowercase t).

(** ** Characters *)

(** [chars()]: each character as its UTF-8 bytes. *)
Fixpoint chars (s : string) : list string :=
  match s with
  | EmptyString => []
  | String a r =>
      let n := N_of_ascii a in
      if (n <? 192)%N then String a "" :: chars r else
      match r with
      | EmptyString => [String a ""]
      | String b r2 =>
          if (n <? 224)%N then String a (String b "") :: chars r2 else
          match r2 with
          | EmptyString => [String a (String b "")]
          | String c r3 =>
              if (n <? 240)%N then String a (String b (String c "")) :: chars r3 else
              match r3 with
              | EmptyString => [String a (String b (String c ""))]
              | String d r4 => String a (String b (String c (String d ""))) :: chars r4
              end
          end
      end
  end.

(** A predicate on ASCII characters, false on the others. *)
Definition ascii_char (f : ascii -> bool) (c : string) : bool :=
  match c with String a EmptyString => (N_of_ascii a <? 128)%N && f a | _ => false end.

Definition hex_digit (n : N) : ascii :=
  ascii_of_N (if (n <? 10)%N then 48 + n else 55 + n).
(** [{:02X}]. *)
Definition hex2 (n : N) : string :=
  String (hex_digit (n / 16)) (String (hex_digit (n mod 16)) "").

(** [{:x}] below 256. *)
Definition lower_hex (n : N) : string :=
  let d m := String (ascii_of_N (if (m <? 10)%N then 48 + m else 87 + m)) "" in
  if (n <? 16)%N then d n else d (n / 16)%N +:+ d (n mod 16)%N.

(** [{:?}] of a string.  Non-ASCII characters are rendered as themselves, which
    is what the formatter does with printable ones. *)
Definition debug_char (a : ascii) : string :=
  let n := N_of_ascii a in
  if Ascii.eqb a "\" then "\\"
  else if (n =? 34)%N then "\" +:+ String a ""
  else if (n =? 10)%N then "\n" else if (n =? 13)%N then "\r" else if (n =? 9)%N then "\t"
  else if (n =? 0)%N then "\0"
  else if (n <? 32)%N || (n =? 127)%N then fmt ["\u{"; lower_hex n; "}"]
  else String a "".
Fixpoint debug_chars (s : string) : string :=
  match s with EmptyString => "" | String a r => debug_char a +:+ debug_chars r end.
Definition debug_str (s : string) : string :=
  String "034" (debug_chars s +:+ String "034" "").

(** [str::split] by a set of characters. *)
Fixpoint split_when (f : ascii -> bool) (s : string) : list string :=
  match s with
  | EmptyString => [""]
  | String a r =>
      if f a then "" :: split_when f r
      else match split_when f r with
           | [] => [String a ""]
           | p :: ps => String a p :: ps
           end
  end.

(** [trim_start_matches] and [trim_end_matches] by a non-empty string; each
    round shortens the string, whose length is therefore fuel enough. *)
Fixpoint trim_start_from (fuel : nat) (p s : string) : string :=
  match fuel with
  | 0 => s
  | S fuel => match strip_prefix p s with Some r => trim_start_from fuel p r | None => s end
  end.
Definition trim_start_matches (p s : string) : string := trim_start_from (len s) p s.
Fixpoint trim_end_from (fuel : nat) (p s : string) : string :=
  match fuel with
  | 0 => s
  | S fuel => match strip_suffix p s with Some r => trim_end_from fuel p r | None => s end
  end.
Definition trim_end_matches (p s : string) : string := trim_end_from (len s) p s.

(** [replace] of one character by another. *)
Fixpoint replace_byte (a b : ascii) (s : string) : string :=
  match s with
  | EmptyString => ""
  | String c r => String (if Ascii.eqb c a then b else c) (replace_byte a b r)
  end.

(** [split_whitespace]: the maximal runs without white space. *)
Fixpoint words_from (cur : list ascii) (l : list ascii) : list string :=
  let flush := match cur with [] => [] | _ => [string_of_list_ascii (rev cur)] end in
  match l with
  | [] => flush
  | a :: r =>
      if ws1 a then flush ++ words_from [] r else
      match r with
      | b :: r2 =>
          if ws2 a b then flush ++ words_from [] r2 else
          match r2 with
          | c :: r3 => if ws3 a b c then flush ++ words_from [] r3 else words_from (a :: cur) r
          | [] => words_from (a :: cur) r
          end
      | [] => words_from (a :: cur) r
      end
  end.
Definition split_whitespace (s : string) : list string := words_from [] (list_ascii_of_string s).

(** A continuation byte of UTF-8. *)
Definition continuation (a : ascii) : bool := let n := N_of_ascii a in (128 <=? n)%N && (n <? 192)%N.

(** Validity of UTF-8 (the table of Unicode, section 3.9). *)
Fixpoint valid_utf8 (s : string) : bool :=
  match s with
  | EmptyString => true
  | String a r =>
      let n := N_of_ascii a in
      if (n <? 128)%N then valid_utf8 r else
      match r with
      | EmptyString => false
      | String b r2 =>
          let m := N_of_ascii b in
          if (194 <=? n)%N && (n <? 224)%N then continuation b && valid_utf8 r2 else
          match r2 with
          | EmptyString => false
          | String c r3 =>
              if (224 <=? n)%N && (n <? 240)%N then
                continuation b && continuation c
                && ((negb (n =? 224)%N || (160 <=? m)%N) && (negb (n =? 237)%N || (m <? 160)%N))
                && valid_utf8 r3
              else
                match r3 with
                | EmptyString => false
                | String d r4 =>
                    (240 <=? n)%N && (n <=? 244)%N
                    && continuation b && continuation c && continuation d
                    && ((negb (n =? 240)%N || (144 <=? m)%N) && (negb (n =? 244)%N || (m <? 144)%N))
                    && valid_utf8 r4
                end
          end
      end
  end.

(** [String::from_utf8] and [OsStr::to_str]: the text when the bytes are valid UTF-8. *)
Definition from_utf8 (s : string) : option string := if valid_utf8 s then Some s else None.

(** Decimal rendering of an unsigned integer: [pretty] of stdpp. *)
Definition show_nat (n : nat) : string := pretty n.
Definition show_N (n : N) : string := pretty n.

(** ** Lemmas *)

Lemma sapp_assoc (a b c : string) : (a +:+ b) +:+ c = a +:+ (b +:+ c).
Proof. induction a as [|x a IH]; cbn; [done|]. by rewrite IH. Qed.

Lemma sapp_nil_r (a : string) : a +:+ "" = a.
Proof. induction a as [|x a IH]; cbn; [done|]. by rewrite IH. Qed.

Lemma fmt_cons a l : fmt (a :: l) = a +:+ fmt l.
Proof. done. Qed.
Lemma fmt_nil : fmt [] = "".
Proof. done. Qed.

(** Normal form of a concatenation. *)
Ltac str_norm :=
  repeat first [progress cbn [append] | rewrite fmt_app | rewrite fmt_cons | rewrite fmt_nil
               | rewrite sapp_assoc | rewrite sapp_nil_r].

Lemma len_app a b : len (a +:+ b) = len a + len b.
Proof. unfold len. induction a as [|x a IH]; cbn; [done|]. by rewrite IH. Qed.

Lemma sapp_inv_head a b c : a +:+ b = a +:+ c -> b = c.
Proof. induction a as [|x a IH]; cbn; [done|]. intros [= E]. auto. Qed.

Lemma sapp_eq_nil a b : a +:+ b = "" -> a = "" /\ b = "".
Proof. by destruct a. Qed.

Lemma strip_prefix_Some p s r : strip_prefix p s = Some r <-> s = p +:+ r.
Proof.
  revert s. induction p as [|a p IH]; intros s; cbn.
  - split; [by intros [= ->]|by intros ->].
  - destruct s as [|b s]; [done|]. destruct (Ascii.eqb_spec a b) as [->|Hab].
    + rewrite IH. split; [by intros ->|by intros [= ->]].
    + split; [done|]. by intros [= ->].
Qed.

Lemma strip_prefix_app p r : strip_prefix p (p +:+ r) = Some r.
Proof. by apply strip_prefix_Some. Qed.

Lemma starts_with_strip p s : starts_with p s = match strip_prefix p s with Some _ => true | None => false end.
Proof. done. Qed.

Lemma starts_with_true p s : starts_with p s = true <-> exists r, s = p +:+ r.
Proof.
  rewrite starts_with_strip. destruct (strip_prefix p s) as [r|] eqn:E.
  - apply strip_prefix_Some in E as ->. split; eauto.
  - split; [done|]. intros [r ->]. by rewrite strip_prefix_app in E.
Qed.

Lemma starts_with_app p r : starts_with p (p +:+ r) = true.
Proof. apply starts_with_true. eauto. Qed.

Lemma ends_with_true p s : ends_with p s = true <-> exists r, s = r +:+ p.
Proof.
  induction s as [|a s IH]; cbn.
  - rewrite orb_false_r, String.eqb_eq. split.
    + intros ->. by exists "".
    + by intros [[|] E].
  - rewrite orb_true_iff, String.eqb_eq, IH. split.
    + intros [->|[r ->]]; [by exists ""|by exists (String a r)].
    + intros [[|b r] E]; cbn in E; [by left|]. injection E as -> ->. eauto.
Qed.

Lemma sapp_inv_tail a b p : a +:+ p = b +:+ p -> a = b.
Proof.
  revert b. induction a as [|x a IH]; intros [|y b] E; cbn in *; [done|..].
  - apply (f_equal len) in E. cbn in E. change (String.length (b +:+ p)) with (len (b +:+ p)) in E.
    rewrite len_app in E. unfold len in E. lia.
  - apply (f_equal len) in E. cbn in E. change (String.length (a +:+ p)) with (len (a +:+ p)) in E.
    rewrite len_app in E. unfold len in E. lia.
  - injection E as -> E. f_equal. auto.
Qed.

Lemma strip_suffix_Some p s r : strip_suffix p s = Some r <-> s = r +:+ p.
Proof.
  split.
  - revert r. induction s as [|a s IH]; cbn; intros r.
    + destruct (String.eqb_spec p "") as [->|]; [by intros [= <-]|done].
    + destruct (String.eqb_spec p (String a s)) as [->|]; [by intros [= <-]|].
      destruct (strip_suffix p s) as [t|]; cbn; [|done]. intros [= <-]. cbn. f_equal. auto.
  - intros ->. induction r as [|a r IH]; cbn [append].
    + destruct p; cbn; [done|]. by rewrite Ascii.eqb_refl, String.eqb_refl.
    + cbn. rewrite IH. destruct (String.eqb_spec p (String a (r +:+ p))) as [E|]; [|done].
      exfalso. apply (f_equal len) in E. cbn in E.
      change (String.length (r +:+ p)) with (len (r +:+ p)) in E.
      rewrite len_app in E. unfold len in E. lia.
Qed.

Lemma has_app c a b : has c (a +:+ b) = has c a || has c b.
Proof. induction a as [|x a IH]; cbn; [done|]. rewrite IH. by destruct (Ascii.eqb x c). Qed.

Lemma all_bytes_app f a b : all_bytes f (a +:+ b) = all_bytes f a && all_bytes f b.
Proof. induction a as [|x a IH]; cbn; [done|]. rewrite IH. by destruct (f x). Qed.

Lemma has_all_bytes c s : has c s = negb (all_bytes (fun a => negb (Ascii.eqb a c)) s).
Proof. induction s as [|a s IH]; cbn; [done|]. rewrite IH. by destruct (Ascii.eqb a c). Qed.

(** *** Splitting *)

Lemma split_ne c s : split c s <> [].
Proof. destruct s as [|a s]; cbn; [done|]. destruct (Ascii.eqb a c); [done|]. by destruct (split c s). Qed.

Lemma split_no_sep c s : has c s = false -> split c s = [s].
Proof.
  induction s as [|a s IH]; cbn; [done|]. intros [Ha Hs]%orb_false_iff.
  by rewrite Ha, IH.
Qed.

Lemma split_app_sep c a b : split c (a +:+ String c b) = split c a ++ split c b.
Proof.
  induction a as [|x a IH]; cbn.
  - by rewrite Ascii.eqb_refl.
  - destruct (Ascii.eqb x c); rewrite IH; [done|].
    destruct (split c a) eqn:E; [by destruct (split_ne c a)|done].
Qed.

Lemma split_cons_no_sep c a b :
  has c a = false -> split c (a +:+ String c b) = a :: split c b.
Proof. intros Ha. by rewrite split_app_sep, (split_no_sep c a). Qed.

Lemma split_pieces c s : Forall (fun p => has c p = false) (split c s).
Proof.
  induction s as [|a s IH]; cbn; [by repeat constructor|].
  destruct (Ascii.eqb a c) eqn:E; [by constructor|].
  destruct (split c s) as [|h t]; [by repeat constructor; cbn; rewrite E|].
  inversion IH; subst. constructor; [|done]. cbn. by rewrite E.
Qed.

Lemma join_cons sep s l : l <> [] -> join sep (s :: l) = s +:+ sep +:+ join sep l.
Proof. by destruct l. Qed.

Lemma join_split c s : join (String c "") (split c s) = s.
Proof.
  induction s as [|a s IH]; cbn; [done|].
  destruct (Ascii.eqb_spec a c) as [->|Hne].
  - rewrite join_cons by apply split_ne. cbn. by rewrite IH.
  - destruct (split c s) as [|h [|k t]] eqn:E; [by destruct (split_ne c s)|..]; cbn in *; by rewrite IH.
Qed.

Lemma split_join c l :
  l <> [] -> Forall (fun p => has c p = false) l -> split c (join (String c "") l) = l.
Proof.
  induction l as [|s l IH]; [done|]. intros _ F. inversion F as [|?? Hs Hl]; subst.
  destruct l as [|s' l]; [by apply split_no_sep|].
  rewrite join_cons by done. cbn [append]. rewrite split_cons_no_sep by done.
  by rewrite IH.
Qed.

Lemma split_once_Some c s h t :
  split_once c s = Some (h, t) <-> s = h +:+ String c t /\ has c h = false.
Proof.
  revert h. induction s as [|a s IH]; intros h; cbn.
  - split; [done|]. by intros [? _]; destruct h.
  - destruct (Ascii.eqb_spec a c) as [->|Hne].
    + split; [by intros [= <- <-]|]. intros [E Hh]. destruct h as [|b h]; cbn in *.
      * by injection E as ->.
      * injection E as -> ->. by rewrite Ascii.eqb_refl in Hh.
    + split.
      * destruct (split_once c s) as [[h' t']|] eqn:E; cbn; [|done].
        intros [= <- <-]. destruct (proj1 (IH h') eq_refl) as [-> Hh].
        cbn. rewrite Hh. split; [done|]. by destruct (Ascii.eqb_spec a c).
      * intros [E Hh]. destruct h as [|b h]; cbn in *; [congruence|].
        injection E as -> ->. apply orb_false_iff in Hh as [_ Hh].
        by rewrite (proj2 (IH h) (conj eq_refl Hh)).
Qed.

Lemma split_once_None c s : split_once c s = None <-> has c s = false.
Proof.
  induction s as [|a s IH]; cbn; [done|]. destruct (Ascii.eqb a c); cbn; [done|].
  rewrite <- IH. by destruct (split_once c s) as [[]|].
Qed.

Lemma rsplit_once_None c s : rsplit_once c s = None <-> has c s = false.
Proof.
  induction s as [|a s IH]; cbn; [done|].
  destruct (rsplit_once c s) as [[]|] eqn:E.
  - split; [done|]. intros [_ Hs]%orb_false_iff. by apply IH in Hs.
  - rewrite (proj1 IH eq_refl), orb_false_r. by destruct (Ascii.eqb a c).
Qed.

Lemma rsplit_once_Some c s h t :
  rsplit_once c s = Some (h, t) <-> s = h +:+ String c t /\ has c t = false.
Proof.
  revert h. induction s as [|a s IH]; intros h; cbn.
  - split; [done|]. by intros [? _]; destruct h.
  - split.
    + destruct (rsplit_once c s) as [[h' t']|] eqn:E.
      * intros [= <- <-]. by destruct (proj1 (IH h') eq_refl) as [-> Ht].
      * destruct (Ascii.eqb_spec a c) as [->|Hne]; [|done].
        intros [= <- <-]. split; [done|]. by apply rsplit_once_None.
    + intros [E Ht]. destruct h as [|b h]; cbn in E; injection E as -> ->.
      * apply rsplit_once_None in Ht as ->. by rewrite Ascii.eqb_refl.
      * by rewrite (proj2 (IH h) (conj eq_refl Ht)).
Qed.

(** *** Trimming *)

Definition high (a : ascii) : bool := (128 <=? N_of_ascii a)%N.

Section DropWsFacts.
Context (w2 : ascii -> ascii -> bool) (w3 : ascii -> ascii -> ascii -> bool).
Context (w2_high : forall a b, w2 a b = true -> high a && high b = true).
Context (w3_high : forall a b c, w3 a b c = true -> high a && high b && high c = true).
Local Abbreviation drop := (drop_ws w2 w3).

(** What one step of [drop_ws] removes. *)
Definition ws_head (l : list ascii) : option (list ascii) :=
  match l with
  | [] => None
  | a :: r =>
      if ws1 a then Some r else
      match r with
      | b :: r2 =>
          if w2 a b then Some r2 else
          match r2 with
          | c :: r3 => if w3 a b c then Some r3 else None
          | [] => None
          end
      | [] => None
      end
  end.

Lemma drop_unfold l : drop l = match ws_head l with Some r => drop r | None => l end.
Proof.
  destruct l as [|a r]; cbn; [done|]. destruct (ws1 a); [done|].
  destruct r as [|b r2]; [done|]. destruct (w2 a b); [done|].
  destruct r2 as [|c r3]; [done|]. by destruct (w3 a b c).
Qed.

Lemma ws_head_shorter l r : ws_head l = Some r -> exists p, l = p ++ r /\ p <> [].
Proof.
  destruct l as [|a r1]; cbn; [done|]. destruct (ws1 a); [intros [= <-]; by exists [a]|].
  destruct r1 as [|b r2]; [done|]. destruct (w2 a b); [intros [= <-]; by exists [a; b]|].
  destruct r2 as [|c r3]; [done|]. destruct (w3 a b c); [|done].
  intros [= <-]. by exists [a; b; c].
Qed.

Lemma drop_spec l : exists p, l = p ++ drop l /\ ws_head (drop l) = None.
Proof.
  induction l as [l IH] using (induction_ltof1 _ (@length ascii)). unfold ltof in IH.
  rewrite drop_unfold. destruct (ws_head l) as [r|] eqn:E; [|by exists []].
  apply ws_head_shorter in E as (p & -> & Hp).
  destruct (IH r) as (q & Hq & Hn).
  { rewrite length_app. destruct p; [done|cbn; lia]. }
  exists (p ++ q). by rewrite <- app_assoc, <- Hq.
Qed.

Lemma drop_fixed l : ws_head l = None -> drop l = l.
Proof. intros E. by rewrite drop_unfold, E. Qed.

Lemma drop_fixed_iff l : drop l = l <-> ws_head l = None.
Proof.
  split; [|apply drop_fixed]. intros E. destruct (drop_spec l) as (p & _ & Hn).
  by rewrite E in Hn.
Qed.

Lemma drop_idem l : drop (drop l) = drop l.
Proof. destruct (drop_spec l) as (p & _ & Hn). by apply drop_fixed. Qed.

Lemma ws_head_prefix k m : ws_head (k ++ m) = None -> ws_head k = None.
Proof.
  destruct k as [|a [|b [|c k]]]; cbn; [done|..]; destruct (ws1 a); try done;
    destruct (w2 a b); try done; by destruct (w3 a b c).
Qed.

Lemma drop_prefix k m : drop (k ++ m) = k ++ m -> drop k = k.
Proof. rewrite !drop_fixed_iff. apply ws_head_prefix. Qed.

(** An ASCII byte closes whatever precedes it. *)
Lemma ws_head_ascii k c m :
  ws_head k = None -> high c = false -> (k = [] -> ws1 c = false) ->
  ws_head (k ++ c :: m) = None.
Proof.
  intros Hk Hc Hn.
  assert (forall a, w2 a c = false) as N2.
  { intros a. destruct (w2 a c) eqn:E; [|done]. apply w2_high in E. by rewrite Hc, andb_false_r in E. }
  assert (forall b, w2 c b = false) as N2'.
  { intros b. destruct (w2 c b) eqn:E; [|done]. apply w2_high in E. by rewrite Hc in E. }
  assert (forall a b d, (high a && high b && high d)%bool = false -> w3 a b d = false) as N3.
  { intros a b d F. destruct (w3 a b d) eqn:E; [|done]. apply w3_high in E. congruence. }
  destruct k as [|a [|b [|d k]]]; cbn in *.
  - rewrite Hn by done. destruct m as [|b m]; [done|]. rewrite N2'.
    destruct m; [done|]. by rewrite N3 by (by rewrite Hc).
  - destruct (ws1 a); [done|]. rewrite N2. destruct m; [done|].
    by rewrite N3 by (by rewrite Hc, andb_false_r).
  - destruct (ws1 a); [done|]. destruct (w2 a b); [done|].
    by rewrite N3 by (by rewrite Hc, !andb_false_r).
  - destruct (ws1 a); [done|]. destruct (w2 a b); [done|]. by destruct (w3 a b d).
Qed.
End DropWsFacts.

Lemma ws2_high a b : ws2 a b = true -> high a && high b = true.
Proof. cbv beta iota zeta delta [ws2 bytes2 high]. lia. Qed.
Lemma ws3_high a b c : ws3 a b c = true -> high a && high b && high c = true.
Proof. cbv beta iota zeta delta [ws3 bytes2 high]. lia. Qed.

#[local] Hint Resolve ws2_high ws3_high : core.

Lemma ws2_high_rev a b : ws2 b a = true -> high a && high b = true.
Proof. intros E%ws2_high. by rewrite andb_comm. Qed.
Lemma ws3_high_rev a b c : ws3 c b a = true -> high a && high b && high c = true.
Proof. intros E%ws3_high. by rewrite andb_comm, (andb_comm (high a)), andb_assoc. Qed.

Lemma trim_bytes_idem l : trim_bytes (trim_bytes l) = trim_bytes l.
Proof.
  unfold trim_bytes at 2 3. set (x := trim_front l). set (y := trim_back (rev x)).
  assert (trim_front (rev y) = rev y) as Hf.
  { destruct (drop_spec (fun a b => ws2 b a) (fun a b c => ws3 c b a) (rev x)) as (p & Hp & _).
    apply (drop_prefix _ _ (rev y) (rev p)).
    rewrite <- rev_app_distr. unfold y, trim_back. rewrite <- Hp, rev_involutive.
    apply drop_idem. }
  unfold trim_bytes. rewrite Hf, rev_involutive. f_equal. apply drop_idem.
Qed.

Lemma trim_idem s : trim (trim s) = trim s.
Proof. unfold trim. by rewrite list_ascii_of_string_of_list_ascii, trim_bytes_idem. Qed.

(** A string whose ends are fixed by trimming, as a condition on its bytes. *)
Lemma trim_fixed_iff s :
  trim s = s <->
  ws_head ws2 ws3 (list_ascii_of_string s) = None /\
  ws_head (fun a b => ws2 b a) (fun a b c => ws3 c b a) (rev (list_ascii_of_string s)) = None.
Proof.
  unfold trim. set (l := list_ascii_of_string s).
  assert (string_of_list_ascii (trim_bytes l) = s <-> trim_bytes l = l) as ->.
  { unfold l. split; intros E.
    - apply (f_equal list_ascii_of_string) in E. by rewrite list_ascii_of_string_of_list_ascii in E.
    - by rewrite E, string_of_list_ascii_of_string. }
  rewrite <- (drop_fixed_iff ws2 ws3).
  rewrite <- (drop_fixed_iff (fun a b => ws2 b a) (fun a b c => ws3 c b a)).
  fold trim_front. fold trim_back. unfold trim_bytes. split.
  - intros E.
    destruct (drop_spec ws2 ws3 l) as (p & Hp & _). fold trim_front in Hp.
    destruct (drop_spec (fun a b => ws2 b a) (fun a b c => ws3 c b a) (rev (trim_front l)))
      as (q & Hq & _). fold trim_back in Hq.
    assert (length p = 0 /\ length q = 0) as [Np Nq].
    { apply (f_equal (@length _)) in E, Hp, Hq. rewrite length_app in *.
      rewrite length_rev in E, Hq. lia. }
    destruct p; [|done]. cbn in Hp. rewrite <- Hp in E |- *. split; [done|].
    by rewrite <- (rev_involutive (trim_back _)), E.
  - intros [-> ->]. apply rev_involutive.
Qed.

Lemma list_ascii_app a b :
  list_ascii_of_string (a +:+ b) = list_ascii_of_string a ++ list_ascii_of_string b.
Proof. induction a as [|x a IH]; cbn; [done|]. by rewrite IH. Qed.

(** Two trimmed strings around an ASCII separator that is not white space. *)
Lemma trim_around k c v :
  trim k = k -> trim v = v -> high c = false -> ws1 c = false ->
  trim (k +:+ String c v) = k +:+ String c v.
Proof.
  rewrite !trim_fixed_iff. intros [Hk _] [_ Hv] Hc Hw.
  rewrite list_ascii_app. split.
  - cbn [list_ascii_of_string]. apply ws_head_ascii; auto.
  - rewrite rev_app_distr. cbn [list_ascii_of_string rev]. rewrite <- app_assoc. cbn.
    apply ws_head_ascii; auto using ws2_high_rev, ws3_high_rev.
Qed.

Lemma trim_brackets s : trim ("[" +:+ s +:+ "]") = "[" +:+ s +:+ "]".
Proof.
  apply trim_fixed_iff. rewrite !list_ascii_app. split.
  - apply (ws_head_ascii ws2 ws3 ltac:(auto) ltac:(auto) []); done.
  - rewrite !rev_app_distr. cbn [list_ascii_of_string rev app].
    apply (ws_head_ascii _ _ ws2_high_rev ws3_high_rev []); done.
Qed.

(** *** Lines *)

Lemma lines_of_cons l r : r <> [] -> lines_of (l :: r) = strip_cr l :: lines_of r.
Proof. by destruct r. Qed.

Lemma lines_cons l s : has LF l = false -> lines (l +:+ nl +:+ s) = strip_cr l :: lines s.
Proof.
  intros Hl. unfold lines, nl. cbn. rewrite split_cons_no_sep by done.
  apply lines_of_cons, split_ne.
Qed.

Lemma trim_strip_cr s : trim s = s -> strip_cr s = s.
Proof.
  intros [_ H]%trim_fixed_iff. unfold strip_cr.
  destruct (strip_suffix (String CR "") s) as [r|] eqn:E; [|done]. exfalso.
  apply strip_suffix_Some in E as ->.
  rewrite list_ascii_app, rev_app_distr in H. done.
Qed.

Lemma has_trim c s : has c s = false -> has c (trim s) = false.
Proof.
  assert (forall l, has c (string_of_list_ascii l) = existsb (fun a => Ascii.eqb a c) l) as E.
  { induction l as [|a l IH]; cbn; [done|by rewrite IH]. }
  unfold trim. rewrite E. rewrite <- (string_of_list_ascii_of_string s) at 1. rewrite E.
  rewrite <- !not_true_iff_false, !existsb_exists. intros N (x & Hx & Ec). apply N.
  exists x. split; [|done]. unfold trim_bytes in Hx. apply in_rev in Hx.
  destruct (drop_spec ws2 ws3 (list_ascii_of_string s)) as (p & Hp & _).
  fold trim_front in Hp. rewrite Hp. apply in_or_app. right. apply in_rev.
  destruct (drop_spec (fun a b => ws2 b a) (fun a b c => ws3 c b a)
    (rev (trim_front (list_ascii_of_string s)))) as (q & Hq & _).
  fold trim_back in Hq. rewrite Hq. apply in_or_app. by right.
Qed.

(** *** Characters of ASCII text *)

Lemma chars_ascii f s : forallb (ascii_char f) (chars s) = true -> all_bytes f s = true.
Proof.
  induction s as [|a r IH]; [done|]. cbn [chars all_bytes].
  destruct (N_of_ascii a <? 192)%N eqn:E1.
  - cbn. rewrite !andb_true_iff. intros [[_ ->] H]. by rewrite IH.
  - destruct r as [|b r2]; [cbn; lia|]. destruct (N_of_ascii a <? 224)%N; [done|].
    destruct r2 as [|c r3]; [done|]. destruct (N_of_ascii a <? 240)%N; [done|].
    by destruct r3.
Qed.

Lemma all_bytes_impl (f g : ascii -> bool) s :
  (forall a, f a = true -> g a = true) -> all_bytes f s = true -> all_bytes g s = true.
Proof.
  intros Hfg. induction s as [|a s IH]; cbn; [done|]. rewrite !andb_true_iff.
  intros [Ha Hs]. auto.
Qed.

Lemma ascii_char_impl (f g : ascii -> bool) c :
  (forall a, f a = true -> g a = true) -> ascii_char f c = true -> ascii_char g c = true.
Proof.
  intros Hfg. destruct c as [|a [|]]; cbn; try done. rewrite !andb_true_iff. naive_solver.
Qed.

Lemma chars_nil s : chars s = [] <-> s = "".
Proof.
  split; [|by intros ->]. destruct s as [|a r]; [done|]. cbn.
  destruct (N_of_ascii a <? 192)%N; [done|]. destruct r as [|b r2]; [done|].
  destruct (N_of_ascii a <? 224)%N; [done|]. destruct r2 as [|c r3]; [done|].
  destruct (N_of_ascii a <? 240)%N; [done|]. by destruct r3.
Qed.

Lemma string_nil_dec (s : string) : {s = ""} + {s <> ""}.
Proof. by destruct s; [left|right]. Defined.

Lemma is_empty_true s : is_empty s = true <-> s = "".
Proof. by destruct s. Qed.
Lemma is_empty_false s : is_empty s = false <-> s <> "".
Proof. by destruct s. Qed.

Lemma has_split c d s : has d s = false -> Forall (fun p => has d p = false) (split c s).
Proof.
  induction s as [|a s IH]; cbn; [by repeat constructor|].
  intros [Ha Hs]%orb_false_iff. destruct (Ascii.eqb a c); [constructor; auto|].
  specialize (IH Hs). destruct (split c s) as [|h t].
  - repeat constructor. cbn. by rewrite Ha.
  - inversion IH; subst. constructor; [|done]. cbn. by rewrite Ha.
Qed.

Lemma has_of_split c d s :
  c <> d -> Forall (fun p => has d p = false) (split c s) -> has d s = false.
Proof.
  intros Hne. induction s as [|a s IH]; cbn; [done|].
  destruct (Ascii.eqb_spec a c) as [->|Ha].
  - intros F. inversion F; subst. rewrite IH by done.
    destruct (Ascii.eqb_spec c d); [done|reflexivity].
  - destruct (split c s) as [|h t]; intros F; inversion F as [|?? Hh Ht]; subst; cbn in Hh.
    + apply orb_false_iff in Hh as [-> _]. cbn. by apply IH.
    + apply orb_false_iff in Hh as [-> Hh]. cbn. apply IH. by constructor.
Qed.

(** *** The two halves of a trimmed text around a separator *)

Lemma has_strip_cr c s : has c s = false -> has c (strip_cr s) = false.
Proof.
  unfold strip_cr. destruct (strip_suffix (String CR "") s) as [r|] eqn:E; [|done].
  apply strip_suffix_Some in E as ->. rewrite has_app. by intros [? _]%orb_false_iff.
Qed.

Lemma lines_no_lf s : Forall (fun l => has LF l = false) (lines s).
Proof.
  unfold lines. pose proof (split_pieces LF s) as F.
  induction F as [|l r Hl F IH]; [done|]. destruct r as [|l' r].
  - cbn. destruct (is_empty l); by repeat constructor.
  - rewrite lines_of_cons by done. constructor; [by apply has_strip_cr|done].
Qed.

Lemma list_ascii_inj a b : list_ascii_of_string a = list_ascii_of_string b -> a = b.
Proof. apply list_ascii_of_string_inj. Qed.

Lemma string_of_list_app l k :
  string_of_list_ascii (l ++ k) = string_of_list_ascii l +:+ string_of_list_ascii k.
Proof. induction l as [|a l IH]; cbn; [done|]. by rewrite IH. Qed.

(** The front half only loses bytes at its end, the back half at its front. *)
Lemma trim_first_half k c v :
  trim (k +:+ String c v) = k +:+ String c v -> exists t, k = trim k +:+ t.
Proof.
  intros [H _]%trim_fixed_iff. rewrite list_ascii_app in H.
  apply ws_head_prefix in H. apply (drop_fixed ws2 ws3) in H. fold trim_front in H.
  destruct (drop_spec (fun a b => ws2 b a) (fun a b c => ws3 c b a)
    (rev (list_ascii_of_string k))) as (p & Hp & _). fold trim_back in Hp.
  exists (string_of_list_ascii (rev p)). unfold trim, trim_bytes. rewrite H.
  rewrite <- string_of_list_app, <- rev_app_distr, <- Hp, rev_involutive.
  by rewrite string_of_list_ascii_of_string.
Qed.

Lemma trim_second_half k c v :
  trim (k +:+ String c v) = k +:+ String c v -> exists t, v = t +:+ trim v.
Proof.
  intros [_ H]%trim_fixed_iff. rewrite list_ascii_app, rev_app_distr in H.
  cbn [list_ascii_of_string rev] in H. rewrite <- app_assoc in H. apply ws_head_prefix in H.
  destruct (drop_spec ws2 ws3 (list_ascii_of_string v)) as (p & Hp & _). fold trim_front in Hp.
  exists (string_of_list_ascii p). unfold trim, trim_bytes.
  rewrite Hp, rev_app_distr in H. apply ws_head_prefix in H.
  apply (drop_fixed (fun a b => ws2 b a) (fun a b c => ws3 c b a)) in H. fold trim_back in H.
  rewrite H, rev_involutive, <- string_of_list_app, <- Hp.
  by rewrite string_of_list_ascii_of_string.
Qed.

Lemma has_sep_false_app c a b : has c (a +:+ b) = false -> has c a = false /\ has c b = false.
Proof. rewrite has_app. apply orb_false_iff. Qed.

Lemma ends_with_app_ne c a b :
  b <> "" -> ends_with (String c "") (a +:+ b) = ends_with (String c "") b.
Proof.
  intros Hb. induction a as [|x a IH]; [done|]. cbn [append ends_with].
  rewrite IH. destruct (String.eqb_spec (String c "") (String x (a +:+ b))) as [E|]; [|done].
  injection E as _ E. symmetry in E. by apply sapp_eq_nil in E as [_ ?].
Qed.

(** ** Texts of lines *)

Definition end_line (l : string) : string := l +:+ nl.

Definition clean_line (l : string) : Prop := has LF l = false /\ strip_cr l = l.

Lemma lines_of_lines ls : Forall clean_line ls -> lines (fmt (map end_line ls)) = ls.
Proof.
  induction 1 as [|l ls [Hl Hc] F IH]; [done|]. cbn [map]. rewrite fmt_cons.
  unfold end_line at 1. rewrite sapp_assoc, lines_cons by done. by rewrite Hc, IH.
Qed.

(** A text of visible ASCII characters has nothing to trim. *)
Definition visible_ascii (a : ascii) : bool := negb (high a) && negb (ws1 a).

Lemma all_bytes_list f s : all_bytes f s = forallb f (list_ascii_of_string s).
Proof. induction s as [|a s IH]; cbn; [done|by rewrite IH]. Qed.

Lemma trim_visible s : all_bytes visible_ascii s = true -> trim s = s.
Proof.
  rewrite all_bytes_list. intros H. apply trim_fixed_iff.
  assert (forall l w2 w3, (forall a b, w2 a b = true -> high a && high b = true) ->
    (forall a b c, w3 a b c = true -> high a && high b && high c = true) ->
    forallb visible_ascii l = true -> ws_head w2 w3 l = None) as Hw.
  { intros l w2 w3 H2 H3 Hl. destruct l as [|c m]; [done|]. cbn in Hl.
    apply andb_true_iff in Hl as [[Hh Hs]%andb_true_iff _].
    apply negb_true_iff in Hh, Hs. by apply (ws_head_ascii w2 w3 H2 H3 []). }
  split; apply Hw; auto using ws2_high_rev, ws3_high_rev.
  rewrite forallb_forall in *. intros x Hx. apply H. by apply in_rev.
Qed.

(** ... and behind its end of line nothing is left. *)
Lemma trim_end_line s : s <> "" -> all_bytes visible_ascii s = true -> trim (s +:+ nl) = s.
Proof.
  intros Hne Hs. pose proof (trim_visible s Hs) as Ht. apply trim_fixed_iff in Ht as [Hf Hb].
  apply drop_fixed_iff in Hb. unfold trim, trim_bytes. rewrite list_ascii_app.
  assert (trim_front (list_ascii_of_string s ++ list_ascii_of_string nl) = list_ascii_of_string s ++ list_ascii_of_string nl) as ->.
  { apply drop_fixed_iff. rewrite all_bytes_list in Hs. destruct s as [|a s]; [done|]. cbn in Hs |- *.
    apply andb_true_iff in Hs as [[Hh Hw]%andb_true_iff _]. apply negb_true_iff in Hh, Hw.
    by apply (ws_head_ascii ws2 ws3 ltac:(auto) ltac:(auto) []). }
  rewrite rev_app_distr. cbn [list_ascii_of_string nl rev app].
  change (trim_back (LF :: rev (list_ascii_of_string s))) with (trim_back (rev (list_ascii_of_string s))).
  unfold trim_back. rewrite Hb, rev_involutive. apply string_of_list_ascii_of_string.
Qed.

Lemma all_bytes_has f c s : all_bytes f s = true -> f c = false -> has c s = false.
Proof.
  intros H Hc. rewrite has_all_bytes. apply negb_false_iff.
  eapply all_bytes_impl; [|exact H]. intros a Ha. apply negb_true_iff, Ascii.eqb_neq. by intros ->; congruence.
Qed.

(** Bytes below 128 are valid UTF-8. *)
Lemma valid_utf8_low s : all_bytes (fun a => negb (high a)) s = true -> valid_utf8 s = true.
Proof.
  induction s as [|a s IH]; [done|]. cbn [all_bytes]. intros [Ha Hs]%andb_true_iff. cbn [valid_utf8].
  unfold high in Ha. apply negb_true_iff, N.leb_gt in Ha. rewrite (proj2 (N.ltb_lt _ _)) by done. by apply IH.
Qed.

Lemma from_utf8_low s : all_bytes (fun a => negb (high a)) s = true -> from_utf8 s = Some s.
Proof. intros H. unfold from_utf8. by rewrite valid_utf8_low. Qed.
