(* ===== verification/RustNum.v ===== *)
(** * RustNum: integers as text

    [str::parse] and [Display] for the fixed-width integers the program reads
    from and writes to its records and from the kernel's tables. *)
From Stdlib Require Import Ascii String NArith ZArith Lia.
From stdpp Require Import base list strings pretty.
From S2P Require Import Prelude RustStr.

(** The value of a string of decimal digits after [acc]. *)
Fixpoint digits_value (acc : N) (s : string) : option N :=
  match s with
  | EmptyString => Some acc
  | String a r =>
      if is_digit a then digits_value (acc * 10 + (N_of_ascii a - 48)) r else None
  end.

Definition parse_digits (s : string) : option N :=
  if is_empty s then None else digits_value 0 s.

Definition in_range (lo hi z : Z) : option Z :=
  if (lo <=? z)%Z && (z <=? hi)%Z then Some z else None.

(** Signed types take either sign, unsigned types only a plus. *)
Definition parse_int (lo hi : Z) (s : string) : option Z :=
  match s with
  | EmptyString => None
  | String a r =>
      if Ascii.eqb a "+" then n ← parse_digits r; in_range lo hi (Z.of_N n)
      else if Ascii.eqb a "-" && (lo <? 0)%Z then n ← parse_digits r; in_range lo hi (- Z.of_N n)
      else n ← parse_digits s; in_range lo hi (Z.of_N n)
  end.

Definition i64_min : Z := - 2 ^ 63.
Definition i64_max : Z := 2 ^ 63 - 1.
Definition parse_i64 : string -> option Z := parse_int i64_min i64_max.
Definition parse_i32 : string -> option Z := parse_int (- 2 ^ 31) (2 ^ 31 - 1).
Definition parse_u64 : string -> option Z := parse_int 0 (2 ^ 64 - 1).
Definition parse_u32 : string -> option Z := parse_int 0 (2 ^ 32 - 1).

Definition show_Z (z : Z) : string :=
  if (z <? 0)%Z then "-" +:+ show_N (Z.to_N (- z)) else show_N (Z.to_N z).

(** [bool::from_str] and its rendering. *)
Definition parse_bool (s : string) : option bool :=
  if String.eqb s "true" then Some true else if String.eqb s "false" then Some false else None.
Definition show_bool (b : bool) : string := if b then "true" else "false".

(** ** Lemmas *)

Lemma digit_char x : is_digit (pretty_N_char (x mod 10)) = true /\
  (N_of_ascii (pretty_N_char (x mod 10)) - 48 = x mod 10)%N.
Proof.
  assert (x mod 10 < 10)%N as H by (apply N.mod_lt; done). revert H. generalize (x mod 10)%N.
  intros d Hd. assert (d ∈ map N.of_nat (seq 0 10)) as Hin.
  { apply list_elem_of_In, in_map_iff. exists (N.to_nat d). split; [lia|]. apply in_seq. lia. }
  cbn in Hin. rewrite !elem_of_cons in *.
  repeat destruct Hin as [->|Hin]; try (by apply not_elem_of_nil in Hin); by vm_compute.
Qed.

Lemma digits_value_go x s : digits_value 0 (pretty_N_go x s) = digits_value x s.
Proof.
  revert s. induction (N.lt_wf_0 x) as [x _ IH]. intros s.
  destruct (decide (0 < x)%N) as [Hx|Hx].
  - rewrite pretty_N_go_step by done. rewrite IH by (apply N.div_lt; lia).
    cbn [digits_value]. destruct (digit_char x) as [-> ->]. f_equal.
    pose proof (N.div_mod x 10). lia.
  - assert (x = 0)%N as -> by lia. by rewrite pretty_N_go_0.
Qed.

Lemma go_nonempty x s : s <> "" -> pretty_N_go x s <> "".
Proof.
  revert s. induction (N.lt_wf_0 x) as [x _ IH]. intros s Hs.
  destruct (decide (0 < x)%N) as [Hx|Hx].
  - rewrite pretty_N_go_step by done. by apply IH; [apply N.div_lt; lia|].
  - assert (x = 0)%N as -> by lia. by rewrite pretty_N_go_0.
Qed.

Lemma parse_digits_show n : parse_digits (show_N n) = Some n.
Proof.
  unfold show_N, pretty, pretty_N. destruct (decide (n = 0)%N) as [->|Hn]; [done|].
  unfold parse_digits. destruct (is_empty _) eqn:E.
  - exfalso. apply is_empty_true in E. revert E. rewrite pretty_N_go_step by lia. by apply go_nonempty.
  - by rewrite digits_value_go.
Qed.

(** A rendered number is made of digits. *)
Lemma go_digits x s : all_bytes is_digit s = true -> all_bytes is_digit (pretty_N_go x s) = true.
Proof.
  revert s. induction (N.lt_wf_0 x) as [x _ IH]. intros s Hs.
  destruct (decide (0 < x)%N) as [Hx|Hx].
  - rewrite pretty_N_go_step by done. apply IH; [apply N.div_lt; lia|].
    cbn [all_bytes]. by destruct (digit_char x) as [-> _].
  - assert (x = 0)%N as -> by lia. by rewrite pretty_N_go_0.
Qed.

Lemma show_N_digits n : all_bytes is_digit (show_N n) = true.
Proof.
  unfold show_N, pretty, pretty_N. destruct (decide (n = 0)%N); [done|]. by apply go_digits.
Qed.

Lemma show_N_head n : exists a r, show_N n = String a r /\ is_digit a = true.
Proof.
  pose proof (show_N_digits n) as H. pose proof (parse_digits_show n) as Hp.
  destruct (show_N n) as [|a r]; [done|]. cbn in H. apply andb_true_iff in H as [H _]. eauto.
Qed.

Lemma in_range_some lo hi z : (lo <= z <= hi)%Z -> in_range lo hi z = Some z.
Proof.
  intros H. unfold in_range.
  by rewrite (proj2 (Z.leb_le _ _)), (proj2 (Z.leb_le _ _)) by lia.
Qed.

(** Reading a rendered number of the type gives it back. *)
Lemma parse_int_show lo hi z : (lo <= z <= hi)%Z -> parse_int lo hi (show_Z z) = Some z.
Proof.
  intros H. unfold show_Z. destruct (Z.ltb_spec z 0) as [Hz|Hz].
  - cbn [append parse_int]. rewrite (Ascii.eqb_refl "-"). replace (Ascii.eqb "-" "+") with false by done.
    rewrite (proj2 (Z.ltb_lt lo 0)) by lia. cbn [andb]. rewrite parse_digits_show. cbn [mbind option_bind].
    rewrite Z2N.id, Z.opp_involutive by lia. by apply in_range_some.
  - destruct (show_N_head (Z.to_N z)) as (a & r & E & Ha). unfold parse_int. rewrite E.
    destruct (Ascii.eqb_spec a "+") as [->|_]; [done|].
    destruct (Ascii.eqb_spec a "-") as [->|_]; [done|]. cbn [andb].
    rewrite <- E, parse_digits_show. cbn [mbind option_bind]. rewrite Z2N.id by lia.
    by apply in_range_some.
Qed.

Lemma parse_int_range lo hi s z : parse_int lo hi s = Some z -> (lo <= z <= hi)%Z.
Proof.
  assert (forall y, in_range lo hi y = Some z -> (lo <= z <= hi)%Z) as Hr.
  { intros y. unfold in_range. destruct (_ && _) eqn:E; [|done]. intros [= ->].
    apply andb_true_iff in E as [?%Z.leb_le ?%Z.leb_le]. lia. }
  unfold parse_int. destruct s as [|a r]; [done|].
  destruct (Ascii.eqb a "+"); [|destruct (_ && _)];
    (destruct (parse_digits _); [|done]); apply Hr.
Qed.

Lemma parse_bool_show b : parse_bool (show_bool b) = Some b.
Proof. by destruct b. Qed.

(** *** The bytes of a number *)

Definition number_byte (a : ascii) : bool := is_digit a || Ascii.eqb a "-".

Lemma number_bytes z : all_bytes number_byte (show_Z z) = true.
Proof.
  assert (forall n, all_bytes number_byte (show_N n) = true) as Hn.
  { intros n. eapply all_bytes_impl; [|apply show_N_digits]. intros a Ha. unfold number_byte. by rewrite Ha. }
  unfold show_Z. destruct (z <? 0)%Z; [|apply Hn]. by rewrite all_bytes_app, Hn.
Qed.

Lemma number_byte_low a : number_byte a = true -> negb (high a) = true.
Proof. destruct a as [[] [] [] [] [] [] [] []]; vm_compute; congruence. Qed.

Lemma from_utf8_number z : from_utf8 (show_Z z) = Some (show_Z z).
Proof. apply from_utf8_low. eapply all_bytes_impl; [|apply number_bytes]. apply number_byte_low. Qed.

Lemma show_Z_nonempty z : show_Z z <> "".
Proof.
  unfold show_Z. destruct (z <? 0)%Z; [done|]. destruct (show_N_head (Z.to_N z)) as (a & r & -> & _). done.
Qed.
