(* ===== verification/RustPath.v ===== *)
(** * RustPath: std::path on Unix

    A [Path] is its text.  Equality, order, prefixes and depth are those of its
    [components], as in the standard library; [join], [parent] and
    [strip_prefix] work on the text and keep it as Rust does, so [display] of
    a path is the path itself. *)
From Stdlib Require Import Ascii String NArith ZArith Lia.
From stdpp Require Import base list strings.
From S2P Require Import Prelude Collections RustStr RustNum.

Abbreviation path := string (only parsing).

Inductive component := RootDir | CurDir | ParentDir | Normal (s : string).

#[export] Instance component_eq_dec : EqDecision component.
Proof. solve_decision. Defined.

(** The derived order of the enum. *)
Definition component_key (c : component) : nat * string :=
  match c with
  | RootDir => (0, "") | CurDir => (1, "") | ParentDir => (2, "") | Normal s => (3, s)
  end.
#[export] Instance component_key_inj : Inj (=) (=) component_key.
Proof. intros [] [] [=]; by subst. Qed.
#[export] Instance ord_component : Ord component := fun a b => cmp (component_key a) (component_key b).
#[export] Instance ord_component_laws : OrdLaws component.
Proof. apply (ord_laws_inj component_key). Qed.

(** Pieces between slashes that are no component of a path's body. *)
Definition skipped (p : string) : bool := is_empty p || String.eqb p ".".
Definition piece_component (p : string) : option component :=
  if skipped p then None
  else if String.eqb p ".." then Some ParentDir else Some (Normal p).
Definition body (ps : list string) : list component := omap piece_component ps.

Definition is_absolute (p : path) : bool := starts_with "/" p.

(** The special first component, and the pieces that follow it. *)
Definition front (p : path) : option component * list string :=
  let ps := split "/" p in
  if is_absolute p then (Some RootDir, tail ps)
  else match ps with
       | x :: r => if String.eqb x "." then (Some CurDir, r) else (None, ps)
       | [] => (None, ps)
       end.

Definition components (p : path) : list component :=
  let (c, ps) := front p in option_list c ++ body ps.

Definition depth (p : path) : nat := length (components p).
Definition path_eqb (p q : path) : bool := bool_decide (components p = components q).
Definition path_starts_with (p base : path) : bool :=
  bool_decide (components base `prefix_of` components p).

Definition join_path (a b : path) : path :=
  if is_absolute b then b
  else if is_empty a || ends_with "/" a then a +:+ b
  else a +:+ "/" +:+ b.

(** [Components::as_path] drops the skipped pieces at the ends of what is
    left. *)
Fixpoint trim_left (ps : list string) : list string :=
  match ps with
  | [] => []
  | p :: r => if skipped p then trim_left r else ps
  end.
Definition trim_right (ps : list string) : list string := rev (trim_left (rev ps)).

(** The pieces left after [n] components of the body. *)
Fixpoint drop_comps (n : nat) (ps : list string) : list string :=
  match n, ps with
  | 0, _ => ps
  | _, [] => []
  | S n', p :: r => if skipped p then drop_comps n r else drop_comps n' r
  end.

(** The text with its front component. *)
Definition with_front (c : option component) (ps : list string) : path :=
  match c with
  | Some RootDir => "/" +:+ join "/" ps
  | Some CurDir => join "/" ("." :: ps)
  | _ => join "/" ps
  end.

Definition rest_after (n : nat) (p : path) : path :=
  let (c, ps) := front p in
  match n with
  | 0 => with_front c (trim_right ps)
  | S m => join "/" (trim_right (trim_left (drop_comps (match c with Some _ => m | None => n end) ps)))
  end.

Definition strip_path_prefix (p base : path) : option path :=
  if path_starts_with p base then Some (rest_after (length (components base)) p) else None.

Definition parent (p : path) : option path :=
  let (c, ps) := front p in
  match trim_right ps, c with
  | [], Some CurDir => Some ""
  | [], _ => None
  | qs, _ => Some (with_front c (trim_right (removelast qs)))
  end.

(** [pop]: truncates to the parent when there is one. *)
Definition pop (p : path) : path := default p (parent p).

(** [Path::file_name]: the last component, if it is a name. *)
Definition file_name_of (p : path) : option string :=
  match last (components p) with Some (Normal s) => Some s | _ => None end.

(** [Path::with_file_name]. *)
Definition with_file_name (p : path) (name : string) : path :=
  match file_name_of p with
  | Some _ => join_path (pop p) name
  | None => join_path p name
  end.

(** [Path::with_extension]. *)
Definition file_stem (n : string) : string :=
  match rsplit_once "." n with None => n | Some (b, _) => if is_empty b then n else b end.
Definition with_extension (p : path) (ext : string) : path :=
  match file_name_of p with
  | None => p
  | Some n => with_file_name p (fmt [file_stem n; "."; ext])
  end.

(** [Component::as_os_str] *)
Definition os_str_of (c : component) : string :=
  match c with RootDir => "/" | CurDir => "." | ParentDir => ".." | Normal n => n end.

(** Only a root and normal components. *)
Definition normal (c : component) : bool := match c with Normal _ => true | _ => false end.
Definition rooted (c : component) : bool :=
  match c with RootDir | Normal _ => true | _ => false end.

(** ** Lemmas *)

Lemma is_absolute_split p : is_absolute p = true <-> exists r, split "/" p = "" :: r /\ r <> [].
Proof.
  unfold is_absolute. rewrite starts_with_true. split.
  - intros [r ->]. cbn. exists (split "/" r). split; [done|apply split_ne].
  - intros (r & E & Hr). exists (join "/" r).
    rewrite <- (join_split "/" p), E. by rewrite join_cons.
Qed.

Lemma body_app a b : body (a ++ b) = body a ++ body b.
Proof. apply omap_app. Qed.

Lemma body_tail ps : head ps = Some "" -> body (tail ps) = body ps.
Proof. destruct ps; cbn; [done|]. by intros [= ->]. Qed.

Lemma components_absolute p :
  is_absolute p = true -> components p = RootDir :: body (split "/" p).
Proof.
  intros H. unfold components, front. rewrite H. cbn. f_equal.
  apply is_absolute_split in H as (r & -> & _). done.
Qed.

(** The front component of a relative path is its leading dot. *)
Lemma front_relative p :
  is_absolute p = false ->
  front p = if bool_decide (head (split "/" p) = Some ".")
            then (Some CurDir, tail (split "/" p)) else (None, split "/" p).
Proof.
  intros H. unfold front. rewrite H. destruct (split "/" p) as [|x r]; [done|]. cbn.
  destruct (String.eqb_spec x "."); case_bool_decide; congruence.
Qed.

Lemma components_relative p :
  is_absolute p = false -> head (split "/" p) <> Some "." ->
  components p = body (split "/" p).
Proof. intros H Hd. unfold components. rewrite front_relative by done. by rewrite bool_decide_false. Qed.

Lemma is_absolute_app a b : a <> "" -> is_absolute (a +:+ b) = is_absolute a.
Proof.
  unfold is_absolute. rewrite !starts_with_strip. destruct a as [|x a]; [done|]. intros _.
  cbn [append strip_prefix]. by destruct (Ascii.eqb "/" x).
Qed.

Lemma components_app_sep a b :
  a <> "" -> components (a +:+ String "/" b) = components a ++ body (split "/" b).
Proof.
  intros Ha. destruct (is_absolute a) eqn:E.
  - rewrite !components_absolute by (by rewrite ?is_absolute_app). by rewrite split_app_sep, body_app.
  - unfold components. rewrite !front_relative by (by rewrite ?is_absolute_app).
    rewrite split_app_sep. pose proof (split_ne "/" a). destruct (split "/" a) as [|y r]; [done|].
    cbn [app head tail]. case_bool_decide; cbn [option_list app]; [by rewrite body_app|].
    apply (body_app (y :: r)).
Qed.

Lemma trim_slash a : ends_with "/" a = true -> exists a', a = a' +:+ "/".
Proof. by rewrite ends_with_true. Qed.

(** The components of a joined path. *)
Lemma components_join a b :
  a <> "" -> is_absolute b = false ->
  components (join_path a b) = components a ++ body (split "/" b).
Proof.
  intros Ha Hb. unfold join_path. rewrite Hb.
  destruct (is_empty a) eqn:Ea; [by apply is_empty_true in Ea|]. cbn [orb].
  destruct (ends_with "/" a) eqn:E; [|by apply components_app_sep].
  apply trim_slash in E as [a' ->]. rewrite sapp_assoc. cbn [append].
  destruct a' as [|x a'].
  - cbn [append]. rewrite !components_absolute by done. done.
  - rewrite components_app_sep by done.
    rewrite (components_app_sep (String x a') "") by done. cbn. by rewrite app_nil_r.
Qed.

Lemma is_absolute_join a b : is_absolute b = false -> a <> "" -> is_absolute (join_path a b) = is_absolute a.
Proof.
  intros Hb Ha. unfold join_path. rewrite Hb. destruct (_ || _); by rewrite is_absolute_app.
Qed.

(** *** Prefixes *)

Lemma path_starts_with_true p b :
  path_starts_with p b = true <-> components b `prefix_of` components p.
Proof. apply bool_decide_eq_true. Qed.

Lemma path_starts_with_refl p : path_starts_with p p = true.
Proof. by apply path_starts_with_true. Qed.

Lemma path_starts_with_trans p q r :
  path_starts_with p q = true -> path_starts_with q r = true -> path_starts_with p r = true.
Proof. rewrite !path_starts_with_true. intros ? ?. by transitivity (components q). Qed.

Lemma path_starts_with_join a b :
  a <> "" -> is_absolute b = false -> path_starts_with (join_path a b) a = true.
Proof.
  intros Ha Hb. apply path_starts_with_true. rewrite components_join by done.
  by apply prefix_app_r.
Qed.

Lemma path_starts_with_depth p q : path_starts_with p q = true -> depth q <= depth p.
Proof. rewrite path_starts_with_true. apply prefix_length. Qed.

Lemma path_eqb_true p q : path_eqb p q = true <-> components p = components q.
Proof. apply bool_decide_eq_true. Qed.

(** *** The rest of a path after a prefix *)

Lemma body_skip p r : skipped p = true -> body (p :: r) = body r.
Proof. intros E. unfold body. cbn. unfold piece_component. by rewrite E. Qed.

Lemma body_keep p r :
  skipped p = false ->
  body (p :: r) = (if String.eqb p ".." then ParentDir else Normal p) :: body r.
Proof.
  intros E. unfold body. cbn. unfold piece_component. rewrite E. by destruct (String.eqb p "..").
Qed.

Lemma trim_left_body ps : body (trim_left ps) = body ps.
Proof.
  induction ps as [|p r IH]; [done|]. cbn [trim_left].
  destruct (skipped p) eqn:E; [by rewrite IH, body_skip|done].
Qed.

Lemma body_rev ps : body (rev ps) = rev (body ps).
Proof.
  induction ps as [|p r IH]; [done|]. cbn [rev]. rewrite body_app, IH.
  destruct (skipped p) eqn:E; [rewrite !body_skip by done; cbn; by rewrite app_nil_r|].
  by rewrite !body_keep by done.
Qed.

Lemma trim_right_body ps : body (trim_right ps) = body ps.
Proof. unfold trim_right. by rewrite body_rev, trim_left_body, body_rev, rev_involutive. Qed.

Lemma drop_comps_body n ps : body (drop_comps n ps) = drop n (body ps).
Proof.
  revert n. induction ps as [|p r IH]; intros [|n]; cbn [drop_comps]; [done..|].
  destruct (skipped p) eqn:E.
  - by rewrite IH, body_skip.
  - by rewrite IH, body_keep.
Qed.

Lemma trim_left_head ps p : head (trim_left ps) = Some p -> skipped p = false.
Proof. induction ps as [|q r IH]; cbn; [done|]. destruct (skipped q) eqn:E; [done|]. by intros [= <-]. Qed.

Lemma trim_right_prefix ps : trim_right ps `prefix_of` ps.
Proof.
  unfold trim_right. rewrite <- (rev_involutive ps) at 2. generalize (rev ps) as qs.
  induction qs as [|q r IH]; cbn; [done|]. destruct (skipped q); [|done].
  cbn. by apply prefix_app_r.
Qed.

Lemma trim_left_suffix ps : exists l, ps = l ++ trim_left ps.
Proof.
  induction ps as [|p r IH]; cbn; [by exists []|]. destruct (skipped p); [|by exists []].
  destruct IH as [l E]. exists (p :: l). cbn. by rewrite <- E.
Qed.

Lemma drop_comps_suffix n ps : exists l, ps = l ++ drop_comps n ps.
Proof.
  revert n. induction ps as [|p r IH]; intros [|n]; cbn; try (by exists []).
  destruct (skipped p); [destruct (IH (S n)) as [l E]|destruct (IH n) as [l E]];
    exists (p :: l); cbn; by rewrite <- E.
Qed.

Definition no_slash (p : string) : Prop := has "/" p = false.

Lemma trim_no_slash ps : Forall no_slash ps -> Forall no_slash (trim_right (trim_left ps)).
Proof.
  intros F. destruct (trim_right_prefix (trim_left ps)) as [k E].
  destruct (trim_left_suffix ps) as [l E2]. rewrite E2, E in F.
  rewrite !Forall_app in F. naive_solver.
Qed.

Lemma front_no_slash p : Forall no_slash (front p).2.
Proof.
  pose proof (split_pieces "/" p) as F. unfold front.
  destruct (is_absolute p); cbn; [by apply Forall_tail|].
  destruct (split "/" p) as [|x r]; [done|]. destruct (String.eqb x "."); [|done].
  by inversion F.
Qed.

(** A trimmed list of pieces, joined, is a relative path with no leading dot. *)
Lemma join_trimmed ps :
  Forall no_slash ps ->
  let r := join "/" (trim_right (trim_left ps)) in
  is_absolute r = false /\ components r = body ps /\ body (split "/" r) = body ps /\
  (r = "" <-> body ps = []).
Proof.
  intros F. cbn zeta. pose proof (trim_no_slash _ F) as Fq.
  assert (body (trim_right (trim_left ps)) = body ps) as Hb
    by (by rewrite trim_right_body, trim_left_body).
  assert (forall q, head (trim_right (trim_left ps)) = Some q -> skipped q = false) as Hh.
  { intros q Hq. apply (trim_left_head ps). destruct (trim_right_prefix (trim_left ps)) as [k E].
    rewrite E. by destruct (trim_right (trim_left ps)). }
  destruct (trim_right (trim_left ps)) as [|q qs] eqn:Eq.
  - cbn in *. rewrite <- Hb. split_and!; done.
  - specialize (Hh q eq_refl). pose proof (split_join "/" (q :: qs) ltac:(done) Fq) as Es.
    set (r := join "/" (q :: qs)) in *.
    assert (is_absolute r = false) as Ha.
    { apply not_true_is_false. intros (x & E & _)%is_absolute_split. rewrite Es in E.
      injection E as -> ->. done. }
    split_and!; [done| |by rewrite Es|].
    + rewrite components_relative; [by rewrite Es|done|].
      rewrite Es. cbn. intros [= ->]. done.
    + split; [|rewrite <- Hb, body_keep by done; done]. intros E.
      rewrite E in Es. cbn in Es. injection Es as <- <-. done.
Qed.

Lemma components_front p : components p = option_list (front p).1 ++ body (front p).2.
Proof. unfold components. by destruct (front p). Qed.

(** What [strip_prefix] leaves holds the components after the prefix. *)
Lemma rest_after_components n p :
  n <> 0 -> n <= depth p ->
  is_absolute (rest_after n p) = false /\
  body (split "/" (rest_after n p)) = drop n (components p) /\
  components (rest_after n p) = drop n (components p) /\
  (rest_after n p = "" <-> depth p = n).
Proof.
  unfold depth. rewrite components_front. intros Hn Hd. unfold rest_after.
  pose proof (front_no_slash p) as F. destruct (front p) as [c ps]. cbn [fst snd] in *.
  destruct n as [|m]; [done|].
  set (k := match c with Some _ => m | None => S m end).
  assert (Forall no_slash (drop_comps k ps)) as Fd.
  { destruct (drop_comps_suffix k ps) as [l E]. rewrite E in F. by apply Forall_app in F as [_ ?]. }
  assert (drop (S m) (option_list c ++ body ps) = body (drop_comps k ps)) as ->.
  { rewrite drop_comps_body. unfold k. by destruct c. }
  destruct (join_trimmed _ Fd) as (H1 & H2 & H3 & H4). split_and!; [done..|].
  rewrite H4, drop_comps_body.
  assert (length (option_list c ++ body ps) = S m <-> length (body ps) = k) as ->.
  { rewrite length_app. unfold k. destruct c; cbn; lia. }
  assert (k <= length (body ps)) by (rewrite length_app in Hd; unfold k; destruct c; cbn in *; lia).
  rewrite <- length_zero_iff_nil, length_drop. lia.
Qed.

Lemma strip_path_prefix_Some p b r :
  strip_path_prefix p b = Some r ->
  path_starts_with p b = true /\ r = rest_after (depth b) p.
Proof. unfold strip_path_prefix. destruct (path_starts_with p b); [by intros [= <-]|done]. Qed.

Lemma strip_path_prefix_components p b r :
  components b <> [] -> strip_path_prefix p b = Some r ->
  components p = components b ++ components r /\ is_absolute r = false /\
  body (split "/" r) = components r /\ (r = "" <-> components p = components b).
Proof.
  intros Hb H. apply strip_path_prefix_Some in H as [Hp ->].
  pose proof (path_starts_with_depth _ _ Hp) as Hd.
  apply path_starts_with_true in Hp as [k Hk].
  assert (depth b <> 0) as Hn by (unfold depth; by destruct (components b)).
  destruct (rest_after_components (depth b) p Hn Hd) as (H1 & H2 & H3 & H4).
  assert (drop (depth b) (components p) = k) as Ek by (rewrite Hk; apply drop_app_length).
  rewrite H3, H2, Ek. split_and!; [done..|]. rewrite H4. unfold depth. rewrite Hk.
  rewrite length_app. split.
  - intros E. assert (k = []) as -> by (apply length_zero_iff_nil; lia). apply app_nil_r.
  - intros E. apply (f_equal (@length _)) in E. by rewrite length_app in E.
Qed.

(** *** Parents and names *)

Lemma components_with_root ws :
  Forall no_slash ws -> components ("/" +:+ join "/" ws) = RootDir :: body ws.
Proof.
  intros F. rewrite components_absolute by done. f_equal. cbn [append split].
  rewrite Ascii.eqb_refl. rewrite body_skip by done.
  destruct ws as [|w ws]; [done|]. by rewrite split_join.
Qed.

Lemma trim_right_last ps : trim_right ps <> [] ->
  exists qs q, trim_right ps = qs ++ [q] /\ skipped q = false.
Proof.
  unfold trim_right. intros H. destruct (trim_left (rev ps)) as [|q qs] eqn:E; [done|].
  exists (rev qs), q. split; [done|]. apply (trim_left_head (rev ps)). by rewrite E.
Qed.

Lemma front_absolute p : is_absolute p = true -> (front p).1 = Some RootDir.
Proof. unfold front. by intros ->. Qed.

(** The parent of an absolute path drops its last component. *)
Lemma parent_components p l c :
  is_absolute p = true -> components p = RootDir :: l ++ [c] ->
  exists q, parent p = Some q /\ is_absolute q = true /\ components q = RootDir :: l.
Proof.
  intros Ha E. rewrite components_front, (front_absolute _ Ha) in E. cbn in E.
  injection E as E. pose proof (front_no_slash p) as F. pose proof (front_absolute _ Ha) as Hf.
  unfold parent. destruct (front p) as [d ps]. cbn [fst snd] in *. subst d.
  rewrite <- (trim_right_body ps) in E.
  assert (trim_right ps <> []) as Hne by (intros Hn; rewrite Hn in E; by destruct l).
  destruct (trim_right_last ps Hne) as (qs & q & Eq & Hq). rewrite Eq in E |- *.
  assert (body qs = l) as Hl.
  { rewrite body_app, (body_keep q []) in E by done.
    apply app_inj_2 in E as [? _]; [done|]. by destruct (String.eqb q ".."). }
  assert (Forall no_slash qs) as Fq.
  { destruct (trim_right_prefix ps) as [k Ek]. rewrite Eq, <- app_assoc in Ek. rewrite Ek in F.
    by apply Forall_app in F as [? _]. }
  destruct (qs ++ [q]) as [|x r] eqn:Ex; [by destruct qs|]. rewrite <- Ex, removelast_last.
  eexists. split; [reflexivity|]. cbn [with_front]. split; [done|].
  rewrite components_with_root, trim_right_body; [by rewrite Hl|].
  destruct (trim_right_prefix qs) as [k Ek]. rewrite Ek in Fq. by apply Forall_app in Fq as [? _].
Qed.

(** Names that occur as components: not empty, no dot or dot-dot, no slash. *)
Definition name_ok (s : string) : Prop := no_slash s /\ skipped s = false /\ s <> "..".

Lemma body_names ps : Forall no_slash ps -> forall s, Normal s ∈ body ps -> name_ok s.
Proof.
  intros F s. unfold body. rewrite list_elem_of_omap. intros (p & Hp & E).
  unfold piece_component in E. destruct (skipped p) eqn:Es; [done|].
  destruct (String.eqb_spec p ".."); [done|]. injection E as ->.
  rewrite Forall_forall in F. split_and!; auto.
Qed.

Lemma components_names p s : Normal s ∈ components p -> name_ok s.
Proof.
  rewrite components_front, elem_of_app. intros [H|H].
  - unfold front in H. destruct (is_absolute p); [cbn in H; by apply list_elem_of_singleton in H|].
    destruct (split "/" p) as [|x r]; [by apply not_elem_of_nil in H|].
    destruct (String.eqb x "."); cbn in H;
      [by apply list_elem_of_singleton in H|by apply not_elem_of_nil in H].
  - eapply body_names; [apply front_no_slash|exact H].
Qed.

Lemma body_name s : name_ok s -> body (split "/" s) = [Normal s].
Proof.
  intros (H1 & H2 & H3). rewrite split_no_sep by done. rewrite body_keep by done.
  by destruct (String.eqb_spec s "..").
Qed.

Lemma name_relative s : name_ok s -> is_absolute s = false.
Proof.
  intros (H1 & _ & _). apply not_true_iff_false. intros [r ->]%starts_with_true. done.
Qed.

(** Appending a name appends one component. *)
Lemma components_join_name p s :
  p <> "" -> name_ok s -> components (join_path p s) = components p ++ [Normal s].
Proof. intros Hp Hs. rewrite components_join by auto using name_relative. by rewrite body_name. Qed.

(** No root in the body of a path. *)
Lemma body_no_root ps c : c ∈ body ps -> c <> RootDir /\ c <> CurDir.
Proof.
  unfold body. rewrite list_elem_of_omap. intros (p & _ & E). unfold piece_component in E.
  destruct (skipped p); [done|]. destruct (String.eqb p ".."); by injection E as <-.
Qed.

Lemma absolute_nonempty p : is_absolute p = true -> p <> "".
Proof. by intros H ->. Qed.

(** ** Paths that do not contain one another *)

Definition apart (p q : path) : Prop :=
  ~ components p `prefix_of` components q /\ ~ components q `prefix_of` components p.

Lemma apart_sym p q : apart p q -> apart q p.
Proof. intros [? ?]. by split. Qed.

(** They part at some component. *)
Lemma components_apart (cs l k : list component) (a b : component) p q :
  components p = cs ++ a :: l -> components q = cs ++ b :: k -> a <> b -> apart p q.
Proof.
  intros Hp Hq Hab. unfold apart. rewrite Hp, Hq.
  split; intros [j E]; rewrite <- app_assoc in E; apply app_inv_head in E; by injection E.
Qed.

(** Another name in the same directory. *)
Lemma components_with_file_name d n m :
  is_absolute d = true -> name_ok n -> name_ok m ->
  components (with_file_name (join_path d n) m) = components d ++ [Normal m].
Proof.
  intros Ha Hn Hm. pose proof (absolute_nonempty d Ha) as Hd.
  pose proof (components_join_name d n Hd Hn) as E.
  unfold with_file_name, file_name_of. rewrite E, last_snoc.
  pose proof (components_absolute d Ha) as Ed.
  destruct (parent_components (join_path d n) (body (split "/" d)) (Normal n)) as (q & Hq & Hqa & Hqc).
  - by rewrite is_absolute_join by auto using name_relative.
  - by rewrite E, Ed.
  - unfold pop. rewrite Hq. cbn [default from_option]. rewrite components_join_name by auto using absolute_nonempty.
    unfold id. by rewrite Hqc, Ed.
Qed.

(** ** Paths up to equality

    [PathBuf]'s equality, order, [starts_with], [parent] and component count
    see only a path's components.  Where the code keeps paths in ordered sets
    and maps, the model keeps their component lists, on which these relations
    are equality and the lexicographic order. *)
Abbreviation pathbuf := (list component) (only parsing).

Definition pb_starts_with (p base : pathbuf) : bool := bool_decide (base `prefix_of` p).

Definition pb_parent (p : pathbuf) : option pathbuf :=
  match rev p with
  | [] | RootDir :: _ => None
  | _ :: r => Some (rev r)
  end.

Lemma pb_starts_with_true p b : pb_starts_with p b = true <-> b `prefix_of` p.
Proof. apply bool_decide_eq_true. Qed.

Lemma pb_parent_app p c : c <> RootDir -> pb_parent (p ++ [c]) = Some p.
Proof. intros Hc. unfold pb_parent. rewrite rev_app_distr. cbn. rewrite rev_involutive. by destruct c. Qed.

Lemma pb_parent_Some p q : pb_parent p = Some q -> exists c, p = q ++ [c].
Proof.
  unfold pb_parent. intros H. destruct (rev p) as [|c r] eqn:E; [done|].
  assert (p = rev r ++ [c]) as ->.
  { rewrite <- (rev_involutive p), E. done. }
  exists c. by destruct c; simplify_eq.
Qed.

(** In a list sorted by a key that never puts a deeper path first, a path comes
    after those it lies inside. *)
Lemma sorted_by_depth {A K} `{OrdLaws K} (f : A -> path) (key : A -> K) l i j x y :
  (forall x y, on key x y = true -> depth (f x) <= depth (f y)) ->
  Sorted.StronglySorted (on key) l -> l !! i = Some x -> l !! j = Some y ->
  path_starts_with (f y) (f x) = true -> path_eqb (f y) (f x) = false -> i < j.
Proof.
  intros Hkey Hs Hi Hj Hp Hne.
  assert (depth (f x) < depth (f y)) as Hd.
  { apply path_starts_with_true in Hp as [k Hk]. unfold depth. rewrite Hk, length_app.
    destruct k; [|cbn; lia]. rewrite app_nil_r in Hk. apply not_true_iff_false in Hne.
    by rewrite path_eqb_true in Hne. }
  destruct (Nat.lt_trichotomy i j) as [?|[->|L]]; [done|simplify_eq; lia|].
  enough (depth (f y) <= depth (f x)) by lia. apply Hkey.
  apply list_elem_of_split_length in Hj as (l1 & l2 & -> & E). subst j.
  apply StronglySorted_split in Hs as [_ Hs].
  rewrite lookup_app_r in Hi by lia. destruct (i - length l1) as [|n] eqn:En; [lia|]. cbn in Hi.
  rewrite Forall_forall in Hs. apply Is_true_true, Hs. by eapply list_elem_of_lookup_2.
Qed.

(** A relative path of names. *)
Lemma normal_front p : p <> "" -> Forall (fun c => normal c = true) (components p) ->
  (front p).1 = None /\ forall x, head (front p).2 = Some x -> skipped x = false.
Proof.
  intros Hp. rewrite components_front. unfold front. destruct (is_absolute p) eqn:Ea.
  { cbn. intros [[=] _]%Forall_cons. }
  destruct (split "/" p) as [|x r] eqn:E; [by apply split_ne in E|].
  destruct (String.eqb x ".") eqn:Ex; cbn; [intros [[=] _]%Forall_cons|]. intros _. split; [done|].
  intros y [= <-]. unfold skipped. rewrite Ex, orb_false_r. apply is_empty_false. intros ->.
  destruct r as [|y r].
  - apply Hp. rewrite <- (join_split "/" p), E. done.
  - apply not_true_iff_false in Ea. apply Ea, is_absolute_split. by exists (y :: r).
Qed.

(** Such a path is relative and not empty. *)
Lemma normal_relative p : p <> "" -> Forall (fun c => normal c = true) (components p) ->
  is_absolute p = false /\ components p = body (split "/" p) /\ components p <> [].
Proof.
  intros Hp Hn. destruct (normal_front p Hp Hn) as [Hf Hh].
  assert (is_absolute p = false) as Ha by (apply not_true_iff_false; intros Ha; by rewrite front_absolute in Hf).
  rewrite front_relative in Hf, Hh by done. case_bool_decide as Hd; [done|]. cbn [snd] in Hh.
  rewrite components_relative by done. split_and!; [done..|].
  destruct (split "/" p) as [|x l] eqn:E; [by apply split_ne in E|]. rewrite body_keep by by apply Hh. done.
Qed.

Lemma parent_relative p l c : p <> "" -> Forall (fun c => normal c = true) (components p) ->
  components p = l ++ [c] -> exists q, parent p = Some q /\ components q = l /\ (q = "" <-> l = []).
Proof.
  intros Hp Hn E. destruct (normal_front p Hp Hn) as [Hf Hh]. pose proof (front_no_slash p) as F.
  rewrite components_front, Hf in E. cbn in E. unfold parent.
  destruct (front p) as [d ps]. cbn [fst snd] in *. subst d. rewrite <- (trim_right_body ps) in E.
  assert (trim_right ps <> []) as Hne by (intros H0; rewrite H0 in E; by destruct l).
  destruct (trim_right_last ps Hne) as (qs & q & Eq & Hq). rewrite Eq in E |- *.
  assert (body qs = l) as Hl.
  { rewrite body_app, (body_keep q []) in E by done. apply app_inj_2 in E as [? _]; [done|]. by destruct (String.eqb q ".."). }
  destruct (trim_right_prefix ps) as [k Ek]. rewrite Eq, <- app_assoc in Ek.
  assert (Forall no_slash qs) as Fq by (rewrite Ek in F; by apply Forall_app in F as [? _]).
  assert (trim_left qs = qs) as Ht.
  { destruct qs as [|x r]; [done|]. cbn. by rewrite (Hh x) by by rewrite Ek. }
  destruct (qs ++ [q]) as [|x r] eqn:Ex; [by destruct qs|]. rewrite <- Ex, removelast_last.
  destruct (join_trimmed qs Fq) as (_ & H2 & _ & H4). rewrite Ht, Hl in *.
  eexists. split; [reflexivity|]. by split.
Qed.

(** *** Numbers are names *)

Lemma show_N_name (n : N) : name_ok (show_N n).
Proof.
  pose proof (show_N_digits n) as Hd. pose proof (parse_digits_show n) as Hp.
  assert (forall a, is_digit a = false -> has a (show_N n) = false) as Hh by (intros a; by apply all_bytes_has).
  split_and!.
  - by apply Hh.
  - unfold skipped. destruct (is_empty (show_N n)) eqn:E; [apply is_empty_true in E; by rewrite E in Hp|].
    apply String.eqb_neq. intros E'. specialize (Hh "."%char eq_refl). by rewrite E' in Hh.
  - intros E'. specialize (Hh "."%char eq_refl). by rewrite E' in Hh.
Qed.

Lemma show_Z_name (z : Z) : name_ok (show_Z z).
Proof.
  unfold show_Z. destruct (z <? 0)%Z; [|apply show_N_name]. split_and!.
  - change (has "/" (show_N (Z.to_N (- z))) = false). apply (all_bytes_has is_digit); [apply show_N_digits|done].
  - done.
  - done.
Qed.
