(* ===== verification/HostFs.v ===== *)
(** * HostFs: the file system the program runs on

    [std::fs] as an interface: the program's components are written against
    the class [HostFs], whose parameter is the state of the host's file system,
    and use of it only what [HostFsLaws] states, the documented behaviour of
    [canonicalize].  [TreeFs] is a concrete instance, a finite set of
    directories without symbolic links, on which witnesses compute. *)
From Stdlib Require Import Ascii String.
From stdpp Require Import base list strings.
From S2P Require Import Prelude Collections RustStr RustPath Effects.

(** [FileType], of the entry itself (a symbolic link is not followed). *)
Inductive file_kind := RegularFile | Directory | Symlink | OtherFile.
#[export] Instance file_kind_eq_dec : EqDecision file_kind.
Proof. solve_decision. Defined.

(** A directory entry: its name, [DirEntry::metadata().is_dir()] and
    [DirEntry::file_type()]. *)
Record DirEntry := mkEntry {
  file_name : string;
  entry_is_dir : io_result bool;
  entry_kind : io_result file_kind;
}.

Class HostFs (S : Type) := {
  canonicalize : S -> path -> io_result path;
  path_exists : S -> path -> bool;
  is_dir : S -> path -> bool;
  read_dir : S -> path -> io_result (list (io_result DirEntry));
  read_to_string : S -> path -> io_result string;
  create_dir_all : S -> path -> io_result S;
}.

(** The operations that inspect and change single files.  An operation that
    fails may have changed the state. *)
Class FileOps (S : Type) `{HostFs S} := {
  is_file : S -> path -> bool;
  symlink_kind : S -> path -> io_result file_kind;
  make_dirs : path -> S -> io_result unit * S;
  set_mode : path -> nat -> S -> io_result unit * S;
  write_file : path -> string -> S -> io_result unit * S;
  rename_file : path -> path -> S -> io_result unit * S;
  remove_file : path -> S -> io_result unit * S;
  remove_dir_all : path -> S -> io_result unit * S;
}.

(** What a write and a rename promise: a file reads as it was last written, and
    a renamed file reads at its new path as it did at the old one. *)
Class FileOpsLaws (S : Type) `{FileOps S} := {
  write_file_read : forall p d s s', write_file p d s = (inl tt, s') -> read_to_string s' p = inl d;
  rename_file_read : forall p q s s' d, rename_file p q s = (inl tt, s') ->
    read_to_string s p = inl d -> read_to_string s' q = inl d;
}.

(** [canonicalize] returns the canonical, absolute form of a path with all
    intermediate components normalised. *)
Class HostFsLaws (S : Type) `{HostFs S} := {
  canonicalize_clean : forall s p q, canonicalize s p = inl q ->
    is_absolute q = true /\ Forall (fun c => rooted c = true) (components q);
}.

Definition canonical_or {S} `{HostFs S} (s : S) (p : path) : path :=
  default p (io_ok (canonicalize s p)).

(** ** A concrete file system *)

(** The directories and the text files, by component lists. *)
Record TreeFs := mkTree {
  dirs : list (list component);
  files : list (list component * string);
}.

Definition not_found : io_error := mkIoError NotFound "No such file or directory (os error 2)".

Definition tree_has (t : TreeFs) (cs : list component) : bool :=
  bool_decide (cs ∈ dirs t) || bool_decide (cs ∈ (files t).*1).

Definition render_components (cs : list component) : path :=
  "/" +:+ join "/" (omap (fun c => match c with Normal s => Some s | _ => None end) cs).

Definition tree_canonicalize (t : TreeFs) (p : path) : io_result path :=
  let cs := components p in
  if is_absolute p && forallb rooted cs && tree_has t cs then inl p else inr not_found.

Definition tree_children (t : TreeFs) (cs : list component) : list DirEntry :=
  omap (fun d => match rev d with
                 | Normal s :: r => if decide (rev r = cs) then Some (mkEntry s (inl true) (inl Directory)) else None
                 | _ => None
                 end) (dirs t).

(** The concrete file system's entries include its files. *)
Definition tree_file_children (t : TreeFs) (cs : list component) : list DirEntry :=
  omap (fun f => match rev f.1 with
                 | Normal s :: r => if decide (rev r = cs) then Some (mkEntry s (inl false) (inl RegularFile)) else None
                 | _ => None
                 end) (files t).

#[export] Instance tree_fs : HostFs TreeFs := {
  canonicalize := tree_canonicalize;
  path_exists t p := tree_has t (components p);
  is_dir t p := bool_decide (components p ∈ dirs t);
  read_dir t p :=
    if bool_decide (components p ∈ dirs t) then inl (map inl (tree_children t (components p) ++ tree_file_children t (components p)))
    else inr not_found;
  read_to_string t p :=
    match List.find (fun f => bool_decide (f.1 = components p)) (files t) with
    | Some f => inl f.2
    | None => inr not_found
    end;
  create_dir_all t p := inl (mkTree (components p :: dirs t) (files t));
}.

#[export] Instance tree_fs_laws : HostFsLaws TreeFs.
Proof.
  split. intros t p q. cbn. unfold tree_canonicalize.
  destruct (is_absolute p && forallb rooted (components p) && _) eqn:E; [|done].
  intros [= <-]. apply andb_true_iff in E as [[E1 E2]%andb_true_iff _]. split; [done|].
  rewrite forallb_forall in E2. apply Forall_forall. intros c Hc. by apply E2, list_elem_of_In.
Qed.

Definition tree_put (cs : list component) (d : string) (t : TreeFs) : TreeFs :=
  mkTree (dirs t) ((cs, d) :: List.filter (fun f => negb (bool_decide (f.1 = cs))) (files t)).
Definition tree_del (cs : list component) (t : TreeFs) : TreeFs :=
  mkTree (dirs t) (List.filter (fun f => negb (bool_decide (f.1 = cs))) (files t)).
Definition tree_file (t : TreeFs) (cs : list component) : option string :=
  snd <$> List.find (fun f => bool_decide (f.1 = cs)) (files t).

#[export] Instance tree_file_ops : FileOps TreeFs := {
  is_file t p := bool_decide (components p ∈ (files t).*1);
  symlink_kind t p :=
    if bool_decide (components p ∈ dirs t) then inl Directory
    else if bool_decide (components p ∈ (files t).*1) then inl RegularFile else inr not_found;
  make_dirs p t := (inl tt, mkTree (components p :: dirs t) (files t));
  set_mode p m t := (inl tt, t);
  write_file p d t := (inl tt, tree_put (components p) d t);
  rename_file p q t :=
    match tree_file t (components p) with
    | Some d => (inl tt, tree_put (components q) d (tree_del (components p) t))
    | None => (inr not_found, t)
    end;
  remove_file p t :=
    if bool_decide (components p ∈ (files t).*1) then (inl tt, tree_del (components p) t)
    else (inr not_found, t);
  remove_dir_all p t :=
    (inl tt, mkTree (List.filter (fun d => negb (bool_decide (components p `prefix_of` d))) (dirs t))
                    (List.filter (fun f => negb (bool_decide (components p `prefix_of` f.1))) (files t)));
}.

#[export] Instance tree_file_ops_laws : FileOpsLaws TreeFs.
Proof.
  split.
  - intros p d t t' [= <-]. cbn. by rewrite bool_decide_true.
  - intros p q t t' d Hr Hd. cbn in Hr, Hd |- *. unfold tree_file in Hr.
    destruct (List.find _ (files t)) as [f|]; [|done]. injection Hr as <-. injection Hd as <-.
    cbn. by rewrite bool_decide_true.
Qed.

(** ** File operations as computations *)

(** An I/O operation whose error is given a context, or passed on by [?]. *)
Definition io_step {W A} (msg : string) (op : W -> io_result A * W) : M W A := fun w =>
  let (r, w') := op w in (io_context msg r, w').
Definition io_plain {A} (r : io_result A) : result A :=
  match r with inl a => Ok a | inr e => Err [ioe_message e] end.
Definition io_try {W A} (op : W -> io_result A * W) : M W A := fun w =>
  let (r, w') := op w in (io_plain r, w').

Lemma io_step_ok {W A} msg (op : W -> io_result A * W) w a w' :
  io_step msg op w = (Ok a, w') <-> op w = (inl a, w').
Proof. unfold io_step, io_context. destruct (op w) as [[]]; naive_solver. Qed.

Lemma io_try_ok {W A} (op : W -> io_result A * W) w a w' :
  io_try op w = (Ok a, w') <-> op w = (inl a, w').
Proof. unfold io_try, io_plain. destruct (op w) as [[]]; naive_solver. Qed.

(** The entries of a directory, stopping at the first that cannot be read. *)
Definition dir_entries {W} `{HostFs W} (msg : string) (p : path) (w : W) : result (list DirEntry) :=
  entries ← io_context msg (read_dir w p);
  map_result io_plain entries.
