(* ===== verification/Gzip.v ===== *)
(** * Gzip: the payload of a gzip file
    (src/src/remotes/metadata_cache.rs: gzip_deflate_payload, decompress_gzip)

    The code skips the header of a gzip member by offsets.  The header is
    described here as the record of its fields; the code accepts exactly a header
    in front of a payload and a trailer, and returns the payload.  Inflating is
    the library's. *)
From Stdlib Require Import Ascii String NArith ZArith Lia.
From stdpp Require Import base list strings.
From S2P Require Import Prelude RustStr RustNum.

Abbreviation bytes := (list ascii) (only parsing).

(** ** The code *)

Definition byte_at (data : bytes) (i : nat) : N := N_of_ascii (nth i data "000"%char).

(** [Iterator::position] of a byte. *)
Fixpoint position_of (a : ascii) (l : bytes) : option nat :=
  match l with
  | [] => None
  | b :: r => if Ascii.eqb b a then Some 0 else S <$> position_of a r
  end.

(** [data.get(offset..)] is [None] behind the end. *)
Definition skip_gzip_c_string (data : bytes) (offset : nat) : option nat :=
  if (length data <? offset)%nat then None
  else (fun position => offset + position + 1) <$> position_of "000"%char (drop offset data).

Definition skip_extra (data : bytes) (offset : nat) : result nat :=
  if (length data <? offset + 2)%nat then bail "truncated gzip extra header"
  else Ok (offset + 2 + N.to_nat (byte_at data offset + 256 * byte_at data (offset + 1))).

Definition gzip_deflate_payload (data : bytes) : result bytes :=
  if (length data <? 18)%nat || negb (byte_at data 0 =? 0x1f)%N || negb (byte_at data 1 =? 0x8b)%N
  then bail "not a gzip stream"
  else if negb (byte_at data 2 =? 8)%N
  then bail (fmt ["unsupported gzip compression method "; show_N (byte_at data 2)])
  else
    let flags := byte_at data 3 in
    offset ← if N.testbit flags 2 then skip_extra data 10 else Ok 10;
    offset ← if N.testbit flags 3 then ok_or "truncated gzip file name" (skip_gzip_c_string data offset) else Ok offset;
    offset ← if N.testbit flags 4 then ok_or "truncated gzip comment" (skip_gzip_c_string data offset) else Ok offset;
    let offset := if N.testbit flags 1 then offset + 2 else offset in
    if (length data <? offset + 8)%nat then bail "truncated gzip payload"
    else Ok (take (length data - 8 - offset) (drop offset data)).

(** [inflate] is the library's. *)
Definition decompress_gzip (inflate : bytes -> result bytes) (data : bytes) : result bytes :=
  payload ← gzip_deflate_payload data;
  inflate payload.

(** ** The format (RFC 1952) *)

(** The fields behind the magic number and the method; the fixed ones are the
    time, the extra flags and the system. *)
Record Header := mkHeader {
  gz_flags : ascii;
  gz_fixed : bytes;
  gz_extra : option bytes;
  gz_name : option bytes;
  gz_comment : option bytes;
  gz_checksum : option bytes;
}.

Definition extra_field (v : bytes) : bytes :=
  ascii_of_N (N.of_nat (length v) mod 256) :: ascii_of_N (N.of_nat (length v) / 256) :: v.
Definition nul_terminated (v : bytes) : bytes := v ++ ["000"%char].
Definition optional (f : bytes -> bytes) (v : option bytes) : bytes := from_option f [] v.

Definition header_bytes (h : Header) : bytes :=
  ["031"%char; "139"%char; "008"%char; gz_flags h] ++ gz_fixed h ++ optional extra_field (gz_extra h)
  ++ optional nul_terminated (gz_name h) ++ optional nul_terminated (gz_comment h) ++ optional id (gz_checksum h).

(** The flags say which of the optional fields are there. *)
Record header_ok (h : Header) : Prop := {
  fixed_ok : length (gz_fixed h) = 6;
  extra_ok : N.testbit (N_of_ascii (gz_flags h)) 2 = bool_decide (is_Some (gz_extra h));
  name_flag_ok : N.testbit (N_of_ascii (gz_flags h)) 3 = bool_decide (is_Some (gz_name h));
  comment_ok : N.testbit (N_of_ascii (gz_flags h)) 4 = bool_decide (is_Some (gz_comment h));
  checksum_ok : N.testbit (N_of_ascii (gz_flags h)) 1 = bool_decide (is_Some (gz_checksum h));
  extra_length : from_option (fun v => N.of_nat (length v) < 65536)%N True (gz_extra h);
  name_no_nul : from_option (fun v => "000"%char ∉ v) True (gz_name h);
  comment_no_nul : from_option (fun v => "000"%char ∉ v) True (gz_comment h);
  checksum_length : from_option (fun v => length v = 2) True (gz_checksum h);
}.

(** ** The fields one after the other *)

Section Fields.
Context (data : bytes).
Implicit Types (v w : bytes) (o : nat).

(** [v] stands in the data at [o]. *)
Definition stands_at o v : Prop := v `prefix_of` drop o data.

Lemma stands_at_app o v w : stands_at o (v ++ w) <-> stands_at o v /\ stands_at (o + length v) w.
Proof.
  unfold stands_at. split.
  - intros [k E]. rewrite <- app_assoc in E. split; [exists (w ++ k); exact E|].
    exists k. rewrite <- drop_drop, E. apply drop_app_length.
  - intros [[k E] [j F]]. rewrite <- drop_drop, E, drop_app_length in F.
    exists j. rewrite E, F. apply app_assoc.
Qed.

Lemma stands_at_nil o : stands_at o [].
Proof. apply prefix_nil. Qed.

Lemma stands_at_nth o v i : stands_at o v -> i < length v -> nth (o + i) data "000"%char = nth i v "000"%char.
Proof.
  intros [k E] Hi. pose proof (nth_lookup data (o + i) "000"%char) as N1.
  rewrite N1, nth_lookup, <- lookup_drop, E, lookup_app_l by exact Hi. reflexivity.
Qed.

Lemma stands_at_take o v : length v = length (take (length v) (drop o data)) ->
  (forall i, i < length v -> nth (o + i) data "000"%char = nth i v "000"%char) -> stands_at o v.
Proof.
  intros L Hn. exists (drop (length v) (drop o data)).
  rewrite <- (take_drop (length v) (drop o data)) at 1. f_equal.
  apply (nth_ext _ _ "000"%char "000"%char); [easy|].
  intros i Hi. rewrite <- L in Hi. rewrite <- Hn by exact Hi.
  rewrite !nth_lookup, lookup_take_lt, lookup_drop by exact Hi. reflexivity.
Qed.

Lemma position_of_iff (a : ascii) l n : position_of a l = Some n <->
  exists v r, l = v ++ a :: r /\ a ∉ v /\ n = length v.
Proof.
  revert n; induction l as [|b r IH]; intros n; cbn; [split; [easy|intros (v & r & E & _); by destruct v]|].
  destruct (Ascii.eqb_spec b a) as [->|Hba].
  - split; [intros [= <-]; exists [], r; repeat split; apply not_elem_of_nil|].
    intros ([|c v] & r' & E & Hv & ->); [done|].
    injection E as -> _. contradict Hv. constructor.
  - rewrite fmap_Some. split.
    + intros (m & Hm & ->). apply IH in Hm as (v & r' & -> & Hv & ->).
      exists (b :: v), r'. repeat split. apply not_elem_of_cons; auto.
    + intros ([|c v] & r' & E & Hv & ->); injection E as -> E; [done|].
      apply not_elem_of_cons in Hv as [_ Hv]. exists (length v). split; [|done]. apply IH. eauto.
Qed.

Definition no_nul v : Prop := "000"%char ∉ v.
Definition short v : Prop := (N.of_nat (length v) < 65536)%N.

Lemma skip_gzip_c_string_iff o (o' : nat) : skip_gzip_c_string data o = Some o' <->
  exists v, no_nul v /\ stands_at o (nul_terminated v) /\ o' = o + length (nul_terminated v).
Proof.
  unfold skip_gzip_c_string, stands_at, nul_terminated, no_nul. destruct (Nat.ltb_spec (length data) o) as [L|L].
  - rewrite drop_ge by lia. split; [easy|]. intros (v & _ & [k E] & _). by destruct v.
  - rewrite fmap_Some. split.
    + intros (n & Hn & ->). apply position_of_iff in Hn as (v & r & E & Hv & ->).
      exists v. split; [done|]. rewrite length_app; cbn. split; [exists r; by rewrite <- app_assoc|lia].
    + intros (v & Hv & [r E] & ->). exists (length v). rewrite length_app; cbn. split; [|lia].
      apply position_of_iff. exists v, r. by rewrite E, <- app_assoc.
Qed.

Lemma skip_extra_iff o (o' : nat) : o' <= length data -> skip_extra data o = Ok o' <->
  exists v, short v /\ stands_at o (extra_field v) /\ o' = o + length (extra_field v).
Proof.
  intros Ho. unfold skip_extra. destruct (Nat.ltb_spec (length data) (o + 2)) as [L|L].
  - split; [easy|]. intros (v & _ & [k E] & ->).
    assert (length (drop o data) < 2) by (rewrite length_drop; lia). rewrite E in H. cbn in H. lia.
  - pose proof (fun a => N_ascii_bounded a) as B. unfold byte_at. split.
    + intros [= E].
      set (lo := nth o data "000"%char) in *; set (hi := nth (o + 1) data "000"%char) in *.
      set (n := N.to_nat (N_of_ascii lo + 256 * N_of_ascii hi)) in *.
      pose proof (B lo); pose proof (B hi).
      exists (take n (drop (o + 2) data)).
      assert (Hn : length (take n (drop (o + 2) data)) = n) by (rewrite length_take, length_drop; lia).
      unfold short. rewrite Hn. split; [subst n; lia|].
      unfold extra_field. rewrite Hn. split; [|cbn; rewrite Hn; lia].
      subst n. rewrite N2Nat.id.
      replace ((N_of_ascii lo + 256 * N_of_ascii hi) mod 256)%N with (N_of_ascii lo)
        by (rewrite (N.mul_comm 256), N.Div0.mod_add; symmetry; apply N.mod_small; lia).
      replace ((N_of_ascii lo + 256 * N_of_ascii hi) / 256)%N with (N_of_ascii hi)
        by (rewrite (N.mul_comm 256), N.div_add, N.div_small by lia; lia).
      rewrite !ascii_N_embedding.
      apply (stands_at_app o [lo; hi]). split.
      * apply stands_at_take; [cbn; rewrite length_take, length_drop; lia|].
        intros [|[|i]] Hi; cbn in Hi |- *; [by rewrite Nat.add_0_r|done|lia].
      * exists (drop (N.to_nat (N_of_ascii lo + 256 * N_of_ascii hi)) (drop (o + 2) data)).
        cbn. symmetry. apply take_drop.
    + intros (v & Hv & Hs & ->). unfold short in Hv.
      assert (E0 := stands_at_nth _ _ 0 Hs ltac:(cbn; lia)). assert (E1 := stands_at_nth _ _ 1 Hs ltac:(cbn; lia)).
      rewrite Nat.add_0_r in E0. rewrite E0, E1. cbn [nth extra_field length].
      rewrite !N_ascii_embedding; [|apply N.Div0.div_lt_upper_bound; lia|apply N.mod_lt; lia].
      f_equal. rewrite N.add_comm, <- N.div_mod by lia. lia.
Qed.

(** A field that the flag announces, or nothing. *)
Lemma field_iff (present : bool) (f : bytes -> bytes) (ok : bytes -> Prop) (skip : result nat) o (o' : nat) :
  (skip = Ok o' <-> exists v, ok v /\ stands_at o (f v) /\ o' = o + length (f v)) ->
  (if present then skip else Ok o) = Ok o' <->
  exists v : option bytes, present = bool_decide (is_Some v) /\ from_option ok True v /\
    stands_at o (optional f v) /\ o' = o + length (optional f v).
Proof.
  intros Hs. destruct present.
  - rewrite Hs. split.
    + intros (v & ? & ? & ->). exists (Some v). auto.
    + intros ([v|] & E & ? & ? & ->); [eauto|done].
  - split.
    + intros [= <-]. exists None. repeat split; [apply stands_at_nil|cbn; lia].
    + intros ([v|] & E & _ & _ & ->); [done|]. cbn. f_equal; lia.
Qed.
End Fields.

Lemma ascii_is (a : ascii) n : (n < 256)%N -> (N_of_ascii a =? n)%N = true <-> a = ascii_of_N n.
Proof.
  intros Hn. rewrite N.eqb_eq. split; [intros <-; by rewrite ascii_N_embedding|intros ->; by apply N_ascii_embedding].
Qed.

(** The fixed part, as the guards test it. *)
Lemma magic_iff data : 18 <= length data ->
  ((byte_at data 0 =? 0x1f)%N = true /\ (byte_at data 1 =? 0x8b)%N = true /\ (byte_at data 2 =? 8)%N = true) <->
  exists fl fixed rest, length fixed = 6 /\ N_of_ascii fl = byte_at data 3 /\
    data = (["031"%char; "139"%char; "008"%char; fl] ++ fixed) ++ rest.
Proof.
  intros L. unfold byte_at. rewrite !ascii_is by lia. split.
  - intros (E0 & E1 & E2). destruct data as [|a [|b [|c [|fl data]]]]; try (cbn in L; lia). cbn in *. subst.
    exists fl, (take 6 data), (drop 6 data). rewrite take_drop, length_take. split; [lia|done].
  - intros (fl & fixed & rest & _ & _ & ->). done.
Qed.


(** Where the header ends. *)
Definition header_end (data : bytes) : result nat :=
  let flags := byte_at data 3 in
  offset ← if N.testbit flags 2 then skip_extra data 10 else Ok 10;
  offset ← if N.testbit flags 3 then ok_or "truncated gzip file name" (skip_gzip_c_string data offset) else Ok offset;
  offset ← if N.testbit flags 4 then ok_or "truncated gzip comment" (skip_gzip_c_string data offset) else Ok offset;
  if N.testbit flags 1 then Ok (offset + 2) else Ok offset.

Lemma gzip_deflate_payload_iff data payload : gzip_deflate_payload data = Ok payload <->
  18 <= length data /\
  ((byte_at data 0 =? 0x1f)%N = true /\ (byte_at data 1 =? 0x8b)%N = true /\ (byte_at data 2 =? 8)%N = true) /\
  exists o, header_end data = Ok o /\ o + 8 <= length data /\ payload = take (length data - 8 - o) (drop o data).
Proof.
  unfold gzip_deflate_payload, header_end.
  destruct (Nat.ltb_spec (length data) 18); [split; [easy|lia]|].
  destruct (byte_at data 0 =? 0x1f)%N; [|split; [easy|naive_solver]].
  destruct (byte_at data 1 =? 0x8b)%N; [|split; [easy|naive_solver]].
  destruct (byte_at data 2 =? 8)%N; [|split; [easy|naive_solver]]. cbn [orb negb].
  destruct (if N.testbit _ 2 then _ else _) as [o1|]; cbn [mbind result_bind]; [|naive_solver].
  destruct (if N.testbit _ 3 then _ else _) as [o2|]; cbn [mbind result_bind]; [|naive_solver].
  destruct (if N.testbit _ 4 then _ else _) as [o3|]; cbn [mbind result_bind]; [|naive_solver].
  set (o4 := if N.testbit _ 1 then o3 + 2 else o3).
  replace (if N.testbit _ 1 then Ok (o3 + 2) else Ok o3) with (Ok o4) by (subst o4; by destruct N.testbit).
  destruct (Nat.ltb_spec (length data) (o4 + 8)).
  - split; [easy|]. intros (_ & _ & o & [= <-] & ? & _). lia.
  - split; [intros [= <-]; eauto 8|]. intros (_ & _ & o & [= <-] & _ & ->). done.
Qed.

Lemma c_string_field data msg o o' :
  ok_or msg (skip_gzip_c_string data o) = Ok o' <->
  exists v, no_nul v /\ stands_at data o (nul_terminated v) /\ o' = o + length (nul_terminated v).
Proof. rewrite ok_or_ok. apply skip_gzip_c_string_iff. Qed.

Lemma two_bytes_field data o o' : o' <= length data ->
  Ok (o + 2) = Ok o' <-> exists v, length v = 2 /\ stands_at data o (id v) /\ o' = o + length (id v).
Proof.
  intros Ho. split.
  - intros [= <-]. exists (take 2 (drop o data)). unfold id.
    assert (length (take 2 (drop o data)) = 2) as -> by (rewrite length_take, length_drop; lia).
    repeat split. exists (drop 2 (drop o data)). by rewrite take_drop.
  - intros (v & Hv & _ & ->). unfold id. by rewrite Hv.
Qed.

(** The optional fields stand one after the other, as the flags announce them. *)
Lemma header_end_iff data o' : o' <= length data ->
  header_end data = Ok o' <->
  exists e n c k, let flags := byte_at data 3 in
    N.testbit flags 2 = bool_decide (is_Some e) /\ from_option short True e /\
    N.testbit flags 3 = bool_decide (is_Some n) /\ from_option no_nul True n /\
    N.testbit flags 4 = bool_decide (is_Some c) /\ from_option no_nul True c /\
    N.testbit flags 1 = bool_decide (is_Some k) /\ from_option (fun v => length v = 2) True k /\
    stands_at data 10 (optional extra_field e ++ optional nul_terminated n ++ optional nul_terminated c ++ optional id k) /\
    o' = 10 + length (optional extra_field e ++ optional nul_terminated n ++ optional nul_terminated c ++ optional id k).
Proof.
  intros Ho. unfold header_end. split.
  - intros (o1 & H1 & (o2 & H2 & (o3 & H3 & H4)%bind_ok)%bind_ok)%bind_ok.
    apply (field_iff _ _ id _ _ _ _ (two_bytes_field data o3 o' Ho)) in H4 as (k & ? & ? & ? & ->).
    apply (field_iff _ _ nul_terminated _ _ _ _ (c_string_field data _ o2 o3)) in H3 as (c & ? & ? & ? & ->).
    apply (field_iff _ _ nul_terminated _ _ _ _ (c_string_field data _ o1 o2)) in H2 as (n & ? & ? & ? & ->).
    apply (field_iff _ _ extra_field _ _ _ _ (skip_extra_iff data 10 o1 ltac:(lia))) in H1 as (e & ? & ? & ? & ->).
    exists e, n, c, k. rewrite !stands_at_app, !length_app, <- !Nat.add_assoc in *. cbn zeta. auto 20 with lia.
  - intros (e & n & c & k & ? & ? & ? & ? & ? & ? & ? & ? & Hs & ->).
    rewrite !stands_at_app in Hs. destruct Hs as (S1 & S2 & S3 & S4). rewrite !length_app in *.
    apply bind_ok; eexists; split; [|apply bind_ok; eexists; split; [|apply bind_ok; eexists; split]].
    + apply (field_iff data _ extra_field short); [apply skip_extra_iff|eauto 8]. lia.
    + apply (field_iff data _ nul_terminated no_nul); [apply c_string_field|eauto 8].
    + apply (field_iff data _ nul_terminated no_nul); [apply c_string_field|eauto 8].
    + apply (field_iff data _ id (fun v => length v = 2)); [apply two_bytes_field; lia|].
      exists k. repeat split; auto. lia.
Qed.

Lemma header_bytes_split h : header_bytes h =
  (["031"%char; "139"%char; "008"%char; gz_flags h] ++ gz_fixed h) ++
  optional extra_field (gz_extra h) ++ optional nul_terminated (gz_name h) ++
  optional nul_terminated (gz_comment h) ++ optional id (gz_checksum h).
Proof. unfold header_bytes. by rewrite <- app_assoc. Qed.

(** A header stands at the start of the data exactly when the code's guards and
    its walk over the offsets accept it. *)
Lemma header_iff data o : 18 <= length data -> o <= length data ->
  ((byte_at data 0 =? 0x1f)%N = true /\ (byte_at data 1 =? 0x8b)%N = true /\ (byte_at data 2 =? 8)%N = true) /\
  header_end data = Ok o <->
  exists h, header_ok h /\ stands_at data 0 (header_bytes h) /\ o = length (header_bytes h).
Proof.
  intros L Ho. rewrite magic_iff, header_end_iff by lia. split.
  - intros [(fl & fixed & rest & Hf & Hfl & E) (e & n & c & k & Hs)]. rewrite <- Hfl in Hs.
    destruct Hs as (? & ? & ? & ? & ? & ? & ? & ? & Hs & ->).
    exists (mkHeader fl fixed e n c k). split; [by constructor|].
    rewrite header_bytes_split, stands_at_app, length_app. cbn [gz_flags gz_fixed gz_extra gz_name gz_comment gz_checksum].
    rewrite length_app, Hf. split; [split; [exists rest; exact E|exact Hs]|].
    rewrite !length_app, Hf. cbn [length]. lia.
  - intros ([fl fixed e n c k] & [F ? ? ? ? ? ? ? ?] & Hs & ->).
    rewrite header_bytes_split, stands_at_app in *. cbn in F, Hs. rewrite F in Hs. destruct Hs as [[rest E] Hs].
    split.
    + exists fl, fixed, rest. repeat split; [exact F|unfold byte_at|exact E]. rewrite drop_0 in E. by rewrite E.
    + exists e, n, c, k. assert (N_of_ascii fl = byte_at data 3) as <-.
      { unfold byte_at. rewrite drop_0 in E. by rewrite E. }
      rewrite length_app. cbn [gz_flags gz_fixed gz_extra gz_name gz_comment gz_checksum length app].
      rewrite F. cbn in *. auto 12.
Qed.

