(* ===== verification/FlatpakRef.v ===== *)
(** * FlatpakRef: refs and partial refs (src/src/flatpak_ref.rs)

    The data [RefKind], [FlatpakRef] and [PartialRef], the parser of both with
    its validation of identifiers, architectures and branches, and the
    rendering of a ref.  The theorems show that parsing and rendering are
    inverse and characterise the accepted identifiers. *)
From Stdlib Require Import Ascii String NArith Lia ZifyBool ZifyN.
From stdpp Require Import base list strings.
From S2P Require Import Prelude RustStr.

Inductive RefKind := App | Runtime.

#[export] Instance refkind_eq_dec : EqDecision RefKind.
Proof. solve_decision. Defined.

Definition as_str (k : RefKind) : string :=
  match k with App => "app" | Runtime => "runtime" end.

(** [set_kind_filter]: the new value of the filter the caller passes. *)
Definition set_kind_filter (target : option RefKind) (kind : RefKind)
  : result (option RefKind) :=
  match target with
  | Some current =>
      if decide (current = kind) then Ok (Some kind)
      else bail "--app and --runtime cannot be used together"
  | None => Ok (Some kind)
  end.

Record FlatpakRef := mkRef {
  kind : RefKind; id : string; arch : string; branch : string }.

Record PartialRef := mkPartial {
  p_kind : option RefKind; p_id : string;
  p_arch : option string; p_branch : option string }.

#[export] Instance flatpakref_eq_dec : EqDecision FlatpakRef.
Proof. solve_decision. Defined.
#[export] Instance partialref_eq_dec : EqDecision PartialRef.
Proof. solve_decision. Defined.

Definition full_ref (r : FlatpakRef) : string :=
  fmt [as_str (kind r); "/"; id r; "/"; arch r; "/"; branch r].
Definition partial_ref (r : FlatpakRef) : string :=
  fmt [id r; "/"; arch r; "/"; branch r].

(** ** Characters *)

Definition valid_initial_id_char (c : string) (allow_dash : bool) : bool :=
  ascii_char is_alpha c || String.eqb c "_" || (allow_dash && String.eqb c "-").
Definition valid_id_char (c : string) (allow_dash : bool) : bool :=
  valid_initial_id_char c allow_dash || ascii_char is_digit c.
Definition valid_initial_branch_char (c : string) : bool :=
  ascii_char is_alnum c || String.eqb c "_" || String.eqb c "-".
Definition valid_branch_char (c : string) : bool :=
  valid_initial_branch_char c || String.eqb c ".".

(** The scalar value of a control character (general category Cc: U+0000 to
    U+001F and U+007F to U+009F). *)
Definition control (c : string) : option N :=
  match c with
  | String a EmptyString =>
      let n := N_of_ascii a in
      if (n <? 32)%N || (n =? 127)%N then Some n else None
  | String a (String b EmptyString) =>
      let n := N_of_ascii b in
      if (N_of_ascii a =? 194)%N && (n <? 160)%N then Some n else None
  | _ => None
  end.

Definition describe_char (c : string) : string :=
  match control c with Some n => fmt ["U+00"; hex2 n] | None => c end.

(** ** Validation: [None] is [Ok(())], [Some reason] is [Err(reason)] *)

Definition quote : string := String "034" "".

(** The characters of a segment after the first. *)
Fixpoint check_id_rest (last_segment : bool) (cs : list string) : option string :=
  match cs with
  | [] => None
  | c :: r =>
      if valid_id_char c last_segment then check_id_rest last_segment r
      else if String.eqb c "-" then Some "Only last name segment can contain -"
      else Some (fmt ["Name can't contain "; quote; describe_char c; quote])
  end.

Definition check_segment (id : string) (period_count index : nat) (segment : string)
  : option string :=
  match chars segment with
  | [] =>
      Some (if Nat.eqb index 0 then "Name can't start with a period"
            else if ends_with "." id then "Name can't end with a period"
            else fmt ["Name segment can't start with "; quote; "."; quote])
  | first :: rest =>
      let last_segment := (0 <? period_count)%nat && Nat.eqb index period_count in
      if negb (valid_initial_id_char first last_segment) then
        if String.eqb first "-" then Some "Only last name segment can contain -"
        else Some (if Nat.eqb index 0
                   then fmt ["Name can't start with "; quote; describe_char first; quote]
                   else fmt ["Name segment can't start with "; quote; describe_char first; quote])
      else check_id_rest last_segment rest
  end.

Fixpoint check_segments (id : string) (period_count index : nat) (l : list string)
  : option string :=
  match l with
  | [] => None
  | s :: r =>
      match check_segment id period_count index s with
      | Some reason => Some reason
      | None => check_segments id period_count (S index) r
      end
  end.

Fixpoint count_byte (c : ascii) (s : string) : nat :=
  match s with
  | EmptyString => 0
  | String a r => (if Ascii.eqb a c then 1 else 0) + count_byte c r
  end.

Definition validate_id (id : string) : option string :=
  if is_empty id then Some "Name can't be empty"
  else if (255 <? len id)%nat then Some "Name can't be longer than 255 characters"
  else
    let period_count := count_byte "." id in
    match check_segments id period_count 0 (split "." id) with
    | Some reason => Some reason
    | None => if (period_count <? 2)%nat then Some "Names must contain at least 2 periods"
              else None
    end.

Definition validate_arch (arch : string) : option string :=
  if forallb (fun c => ascii_char is_alnum c || String.eqb c "_" || String.eqb c "-") (chars arch)
  then None else Some "Architecture contains invalid characters".

Definition validate_branch (branch : string) : option string :=
  match chars branch with
  | [] => Some "Branch can't be empty"
  | first :: rest =>
      if negb (valid_initial_branch_char first)
      then Some (fmt ["Branch can't start with "; quote; describe_char first; quote])
      else match List.find (fun c => negb (valid_branch_char c)) rest with
           | Some invalid => Some (fmt ["Branch can't contain "; quote; describe_char invalid; quote])
           | None => None
           end
  end.

(** [validate_x(..).map_err(|reason| anyhow!("Invalid x ..: {reason}"))?] *)
Definition checked (what value : string) (r : option string) : result () :=
  match r with
  | None => Ok ()
  | Some reason => bail (fmt ["Invalid "; what; " "; value; ": "; reason])
  end.

(** [parts.get(n).filter(|value| !value.is_empty())]. *)
Definition nonempty_at (n : nat) (parts : list string) : option string :=
  s ← parts !! n; if is_empty s then None else Some s.

Definition check_opt (what : string) (f : string -> option string) (o : option string)
  : result () :=
  match o with None => Ok () | Some v => checked what v (f v) end.

Definition parse_partial (value : string) : result PartialRef :=
  let '(k, partial) :=
    match strip_prefix "app/" value with
    | Some v => (Some App, v)
    | None => match strip_prefix "runtime/" value with
              | Some v => (Some Runtime, v)
              | None => (None, value)
              end
    end in
  let parts := split "/" partial in
  if Nat.eqb (length parts) 0 || (3 <? length parts)%nat
  then bail (fmt ["invalid partial Flatpak ref: "; value])
  else
    let i := default "" (parts !! 0) in
    _ ← checked "id" i (validate_id i);
    let a := nonempty_at 1 parts in
    _ ← check_opt "architecture" validate_arch a;
    let b := nonempty_at 2 parts in
    _ ← check_opt "branch" validate_branch b;
    Ok (mkPartial k i a b).

Definition parse_ref (value : string) : result FlatpakRef :=
  p ← parse_partial value;
  k ← ok_or (fmt ["full Flatpak ref has no kind: "; value]) (p_kind p);
  a ← ok_or (fmt ["full Flatpak ref has no architecture: "; value]) (p_arch p);
  b ← ok_or (fmt ["full Flatpak ref has no branch: "; value]) (p_branch p);
  Ok (mkRef k (p_id p) a b).

Definition option_kind_or (a b : option RefKind) : option RefKind :=
  match a with Some _ => a | None => b end.

Definition effective_kind (p : PartialRef) (filter : option RefKind)
  : result (option RefKind) :=
  match p_kind p, filter with
  | Some prefix, Some f =>
      if decide (prefix = f) then Ok (Some prefix)
      else bail (fmt [as_str prefix; " ref cannot be used with --"; as_str f])
  | k, f => Ok (option_kind_or k f)
  end.

Definition is_none_or {A} (o : option A) (f : A -> bool) : bool :=
  match o with None => true | Some a => f a end.

Definition matches (p : PartialRef) (c : FlatpakRef) : bool :=
  is_none_or (p_kind p) (fun k => bool_decide (k = kind c))
  && String.eqb (p_id p) (id c)
  && is_none_or (p_arch p) (fun a => String.eqb a (arch c))
  && is_none_or (p_branch p) (fun b => String.eqb b (branch c)).

Definition with_default_branch (p : PartialRef) (b : option string) : result PartialRef :=
  match p_branch p, b with
  | None, Some b =>
      _ ← checked "branch" b (validate_branch b);
      Ok (mkPartial (p_kind p) (p_id p) (p_arch p) (Some b))
  | _, _ => Ok p
  end.

Definition validate_partial_ref (value : string) (default_branch : option string) : result () :=
  p ← parse_partial value;
  _ ← with_default_branch p default_branch;
  Ok ().

(** ** Accepted identifiers, architectures and branches *)

(** The identifier grammar, without the order in which the code looks for
    errors: at least three nonempty segments of letters, digits and
    underscores, none starting with a digit; dashes only in the last. *)
Definition id_grammar (s : string) : Prop :=
  1 <= len s <= 255 /\ 3 <= length (split "." s) /\
  forall i segment, split "." s !! i = Some segment ->
    let last := Nat.eqb (S i) (length (split "." s)) in
    exists first rest, chars segment = first :: rest /\
      valid_initial_id_char first last = true /\
      Forall (fun c => valid_id_char c last = true) rest.

Definition wf_ref (r : FlatpakRef) : Prop :=
  validate_id (id r) = None /\ arch r <> "" /\ validate_arch (arch r) = None /\
  validate_branch (branch r) = None.

Lemma length_split c s : length (split c s) = S (count_byte c s).
Proof.
  induction s as [|a s IH]; cbn; [done|].
  destruct (Ascii.eqb a c); cbn; [by rewrite IH|].
  destruct (split c s) eqn:E; [by destruct (split_ne c s)|]. by rewrite <- IH.
Qed.

Lemma check_id_rest_None b cs :
  check_id_rest b cs = None <-> Forall (fun c => valid_id_char c b = true) cs.
Proof.
  induction cs as [|c cs IH]; cbn; [by split|]. rewrite Forall_cons.
  destruct (valid_id_char c b); [rewrite IH; naive_solver|].
  split; [by destruct (String.eqb c "-")|]. by intros [? _].
Qed.

Lemma check_segment_None i n k seg :
  check_segment i n k seg = None <->
  exists first rest, chars seg = first :: rest /\
    valid_initial_id_char first ((0 <? n) && Nat.eqb k n)%nat = true /\
    Forall (fun c => valid_id_char c ((0 <? n) && Nat.eqb k n)%nat = true) rest.
Proof.
  unfold check_segment. destruct (chars seg) as [|c cs]; [split; [done|by intros (? & ? & ? & _)]|].
  destruct (valid_initial_id_char c _) eqn:E; cbn [negb].
  - rewrite check_id_rest_None. split; [by exists c, cs|]. by intros (? & ? & [= -> ->] & _ & ?).
  - split; [by destruct (String.eqb c "-")|]. intros (? & ? & [= -> ->] & ? & _). congruence.
Qed.

Lemma check_segments_None i n k l :
  check_segments i n k l = None <->
  forall j seg, l !! j = Some seg -> check_segment i n (k + j) seg = None.
Proof.
  revert k. induction l as [|s l IH]; intros k; cbn; [naive_solver|].
  destruct (check_segment i n k s) eqn:E.
  - split; [done|]. intros H. specialize (H 0 s eq_refl). rewrite Nat.add_0_r in H. congruence.
  - rewrite IH. split.
    + intros H [|j] seg; cbn; [intros [= <-]; by rewrite Nat.add_0_r|].
      rewrite <- Nat.add_succ_comm. apply H.
    + intros H j seg Hj. rewrite Nat.add_succ_comm. by apply (H (S j)).
Qed.

Lemma validate_id_grammar s : validate_id s = None <-> id_grammar s.
Proof.
  unfold validate_id, id_grammar. rewrite length_split.
  destruct s as [|a s]; [cbn; split; [done|lia]|]. cbn [is_empty].
  set (t := String a s). assert (1 <= len t) by (cbn; lia).
  destruct (Nat.ltb_spec 255 (len t)); [split; [done|lia]|].
  destruct (check_segments _ _ _ _) as [e|] eqn:E.
  - split; [done|]. intros (_ & Hn & Hs). exfalso.
    assert (check_segments t (count_byte "." t) 0 (split "." t) = None) as E'; [|congruence].
    apply check_segments_None. intros j seg Hj. apply check_segment_None.
    destruct (Hs j seg Hj) as (c & cs & Hc & Hi & Hr). exists c, cs.
    replace ((0 <? count_byte "." t) && Nat.eqb (0 + j) (count_byte "." t))%nat
      with (Nat.eqb (S j) (S (count_byte "." t))) by lia. done.
  - destruct (Nat.ltb_spec (count_byte "." t) 2); [split; [done|lia]|].
    split; [intros _|done]. split_and!; [lia..|]. intros j seg Hj.
    rewrite check_segments_None in E. specialize (E j seg Hj).
    apply check_segment_None in E as (c & cs & Hc & Hi & Hr). exists c, cs.
    replace (Nat.eqb (S j) (S (count_byte "." t)))
      with ((0 <? count_byte "." t) && Nat.eqb (0 + j) (count_byte "." t))%nat by lia. done.
Qed.

(** Accepted components hold no slash. *)
Definition not_slash (a : ascii) : bool := negb (Ascii.eqb a "/").

Lemma is_alnum_not_slash a : is_alnum a = true -> not_slash a = true.
Proof. unfold not_slash. by destruct (Ascii.eqb_spec a "/") as [->|]. Qed.
Lemma is_digit_not_slash a : is_digit a = true -> not_slash a = true.
Proof. unfold not_slash. by destruct (Ascii.eqb_spec a "/") as [->|]. Qed.
Lemma is_alpha_not_slash a : is_alpha a = true -> not_slash a = true.
Proof. unfold not_slash. by destruct (Ascii.eqb_spec a "/") as [->|]. Qed.

Lemma eqb_ascii_char c d f : String.eqb c d = true -> ascii_char f d = true -> ascii_char f c = true.
Proof. by intros ->%String.eqb_eq. Qed.

#[local] Hint Resolve is_alnum_not_slash is_digit_not_slash is_alpha_not_slash : core.

Lemma valid_id_char_not_slash c b :
  valid_id_char c b = true -> ascii_char not_slash c = true.
Proof.
  unfold valid_id_char, valid_initial_id_char. rewrite !orb_true_iff, andb_true_iff.
  intros [[[H|H]|[_ H]]|H]; eauto using ascii_char_impl, eqb_ascii_char.
Qed.

Lemma valid_branch_char_not_slash c :
  valid_branch_char c = true -> ascii_char not_slash c = true.
Proof.
  unfold valid_branch_char, valid_initial_branch_char. rewrite !orb_true_iff.
  intros [[[H|H]|H]|H]; eauto using ascii_char_impl, eqb_ascii_char.
Qed.

Lemma no_slash s : forallb (ascii_char not_slash) (chars s) = true -> has "/" s = false.
Proof. intros H%chars_ascii. rewrite has_all_bytes. unfold not_slash in H. by rewrite H. Qed.

Lemma validate_id_no_slash s : validate_id s = None -> has "/" s = false.
Proof.
  intros (_ & _ & H)%validate_id_grammar. apply (has_of_split "."); [done|].
  apply Forall_lookup. intros i seg Hi. destruct (H i seg Hi) as (c & cs & Hc & H1 & H2).
  apply no_slash. rewrite Hc. cbn. apply andb_true_iff. split.
  - eapply valid_id_char_not_slash. unfold valid_id_char. by rewrite H1.
  - apply forallb_forall. intros x Hx%list_elem_of_In. rewrite Forall_forall in H2.
    eapply valid_id_char_not_slash, (H2 x Hx).
Qed.

Lemma validate_arch_no_slash s : validate_arch s = None -> has "/" s = false.
Proof.
  unfold validate_arch. destruct (forallb _ _) eqn:E; [|done]. intros _. apply no_slash.
  rewrite forallb_forall in *. intros c Hc. apply valid_branch_char_not_slash.
  unfold valid_branch_char, valid_initial_branch_char. by rewrite (E c Hc).
Qed.

Lemma validate_branch_no_slash s : validate_branch s = None -> s <> "" /\ has "/" s = false.
Proof.
  unfold validate_branch. destruct (chars s) as [|c cs] eqn:Ec; [done|].
  destruct (valid_initial_branch_char c) eqn:E; cbn; [|done].
  destruct (List.find _ _) eqn:F; [done|]. intros _.
  split; [intros ->; done|]. apply no_slash. rewrite Ec. cbn. apply andb_true_iff. split.
  - apply valid_branch_char_not_slash. unfold valid_branch_char. by rewrite E.
  - apply forallb_forall. intros x Hx. apply valid_branch_char_not_slash.
    pose proof (find_none _ _ F x Hx) as N. by apply negb_false_iff in N.
Qed.

Lemma validate_id_nonempty s : validate_id s = None -> s <> "".
Proof. by intros H ->. Qed.

(** ** Parsing and rendering *)

Lemma split_full_parts r :
  wf_ref r -> split "/" (partial_ref r) = [id r; arch r; branch r].
Proof.
  intros (Hi & _ & Ha & Hb). unfold partial_ref, fmt. cbn.
  apply validate_id_no_slash in Hi. apply validate_arch_no_slash in Ha.
  apply validate_branch_no_slash in Hb as [_ Hb].
  rewrite split_cons_no_sep by done. rewrite split_cons_no_sep by done.
  by rewrite sapp_nil_r, split_no_sep.
Qed.

Lemma parse_partial_full r :
  wf_ref r ->
  parse_partial (full_ref r) = Ok (mkPartial (Some (kind r)) (id r) (Some (arch r)) (Some (branch r))).
Proof.
  intros W. pose proof W as (Hi & Hne & Ha & Hb).
  apply validate_branch_no_slash in Hb as [Hbne _]. destruct W as (_ & _ & _ & Hb).
  pose proof (split_full_parts r ltac:(done)) as Hs.
  unfold parse_partial, full_ref. destruct r as [k i a b]; destruct k; cbn in *;
    unfold partial_ref in Hs; cbn in Hs; rewrite Hs; cbn;
    unfold nonempty_at; cbn; rewrite Hi; cbn;
    (destruct a; [done|]); cbn [is_empty mbind option_bind]; (destruct b; [done|]);
    cbn [is_empty mbind option_bind check_opt]; rewrite Ha; cbn; rewrite Hb; done.
Qed.

Lemma checked_ok w v r u : checked w v r = Ok u -> r = None.
Proof. by destruct r. Qed.
Lemma check_opt_ok w f o u v : check_opt w f o = Ok u -> o = Some v -> f v = None.
Proof. intros H ->. by eapply checked_ok. Qed.

Lemma nonempty_at_Some n ps s : nonempty_at n ps = Some s <-> ps !! n = Some s /\ s <> "".
Proof.
  unfold nonempty_at. destruct (ps !! n) as [t|]; cbn; [|naive_solver].
  destruct t; cbn; naive_solver.
Qed.

(** What a successful parse says about the text. *)
Lemma parse_partial_ok v p :
  parse_partial v = Ok p ->
  exists rest, v = match p_kind p with Some k => as_str k +:+ "/" +:+ rest | None => rest end /\
    validate_id (p_id p) = None /\
    (forall a, p_arch p = Some a -> a <> "" /\ validate_arch a = None /\ split "/" rest !! 1 = Some a) /\
    (forall b, p_branch p = Some b -> b <> "" /\ validate_branch b = None /\ split "/" rest !! 2 = Some b) /\
    split "/" rest !! 0 = Some (p_id p) /\ length (split "/" rest) <= 3.
Proof.
  unfold parse_partial.
  set (kp := match strip_prefix "app/" v with Some _ => _ | None => _ end).
  assert (v = match kp.1 with Some k => as_str k +:+ "/" +:+ kp.2 | None => kp.2 end) as Hv.
  { unfold kp. destruct (strip_prefix "app/" v) as [w|] eqn:E1; [by apply strip_prefix_Some in E1|].
    destruct (strip_prefix "runtime/" v) as [w|] eqn:E2; [by apply strip_prefix_Some in E2|done]. }
  clearbody kp. destruct kp as [k rest]. cbn in Hv.
  destruct (_ || _) eqn:L; [done|]. apply orb_false_iff in L as [L1 L2].
  intros H. inv_ok. subst. cbn. exists rest. apply checked_ok in Hr.
  apply Nat.ltb_ge in L2.
  destruct (split "/" rest) as [|i ps] eqn:Es; [done|]. cbn in *. split_and!; [done|done| | |done|lia].
  - intros a Ha. pose proof (check_opt_ok _ _ _ _ _ Hr0 Ha). apply nonempty_at_Some in Ha as [? ?].
    done.
  - intros b Hb. pose proof (check_opt_ok _ _ _ _ _ Hr1 Hb). apply nonempty_at_Some in Hb as [? ?].
    done.
Qed.

Lemma parse_ref_ok v r : parse_ref v = Ok r -> wf_ref r /\ full_ref r = v.
Proof.
  unfold parse_ref. intros H. inv_ok. subst.
  apply parse_partial_ok in Hr as (rest & -> & Hi & Ha & Hb & H0 & Hl).
  destruct (Ha _ Hr1) as (Ha1 & Ha2 & H1). destruct (Hb _ Hr2) as (Hb1 & Hb2 & H2).
  split; [done|]. rewrite Hr0. unfold full_ref, fmt. cbn.
  rewrite <- (join_split "/" rest).
  destruct (split "/" rest) as [|x [|y [|z [|]]]]; cbn in *; try done; [|lia].
  injection H0 as ->. injection H1 as ->. injection H2 as ->. by rewrite sapp_nil_r.
Qed.

(** C38.  Rendering a well-formed ref and parsing it back gives the ref. *)
Theorem parse_full_ref_roundtrip (r : FlatpakRef) :
  wf_ref r -> parse_ref (full_ref r) = Ok r.
Proof.
  intros W. unfold parse_ref. rewrite parse_partial_full by done. by destruct r.
Qed.

Definition calculator : FlatpakRef := mkRef App "org.gnome.Calculator" "x86_64" "stable".

Lemma parse_full_ref_roundtrip_witness :
  wf_ref calculator /\ parse_ref "app/org.gnome.Calculator/x86_64/stable" = Ok calculator.
Proof.
  assert (wf_ref calculator) as W by (repeat split; done).
  split; [exact W|exact (parse_full_ref_roundtrip calculator W)].
Defined.

(** A text that parses as a full ref is the canonical rendering of the
    ref, whose components are all valid: no two texts name one ref. *)
Theorem parse_ref_canonical (v : string) (r : FlatpakRef) :
  parse_ref v = Ok r -> full_ref r = v /\ wf_ref r.
Proof. intros H. by apply parse_ref_ok in H as [? ?]. Qed.

Lemma parse_ref_canonical_witness :
  full_ref calculator = "app/org.gnome.Calculator/x86_64/stable" /\ wf_ref calculator.
Proof. apply parse_ref_canonical. reflexivity. Defined.

(** C37.  [validate_id] accepts exactly the identifiers of the grammar. *)
Theorem validate_id_iff_grammar (s : string) : validate_id s = None <-> id_grammar s.
Proof. apply validate_id_grammar. Qed.

(** The partial ref read from the rendering of a ref selects that ref and
    no other. *)
Theorem full_ref_selects_only_itself (r c : FlatpakRef) p :
  wf_ref r -> parse_partial (full_ref r) = Ok p -> matches p c = true <-> c = r.
Proof.
  intros W. rewrite parse_partial_full by done. intros [= <-]. unfold matches; cbn.
  rewrite !andb_true_iff, !String.eqb_eq, bool_decide_eq_true.
  destruct r, c; cbn. split; [by intros [[[-> ->] ->] ->]|by intros [= -> -> -> ->]].
Qed.

Lemma full_ref_selects_only_itself_witness :
  matches (mkPartial (Some App) "org.gnome.Calculator" (Some "x86_64") (Some "stable")) calculator
    = true.
Proof.
  apply (full_ref_selects_only_itself calculator calculator); [repeat split; done|reflexivity..].
Defined.
