(* ===== verification/FlatpakMetadata.v ===== *)
(** * FlatpakMetadata: reading Flatpak key files (src/src/flatpak_metadata.rs)

    Flatpak metadata is a key file: [[section]] headers and [key=value] lines.
    The readers scan the lines with the current section as their state.  The
    lemmas relate the four readers to each other and say what they find in a
    text built from well-formed lines. *)
From Stdlib Require Import Ascii String.
From stdpp Require Import base list strings sets.
From S2P Require Import Prelude Collections RustStr.

(** [line.starts_with('[') && line.ends_with(']')] and the text between. *)
Definition header (line : string) : option string :=
  r ← strip_prefix "[" line; strip_suffix "]" r.
#[global] Arguments header : simpl never.

Fixpoint value_from (current section key : string) (ls : list string) : option string :=
  match ls with
  | [] => None
  | l :: r =>
      let line := trim l in
      match header line with
      | Some s => value_from s section key r
      | None =>
          if String.eqb current section then
            match split_once "=" line with
            | None => value_from current section key r
            | Some (candidate, v) =>
                if String.eqb (trim candidate) key then Some (trim v)
                else value_from current section key r
            end
          else value_from current section key r
      end
  end.

Definition value (metadata section key : string) : option string :=
  value_from "" section key (lines metadata).

Fixpoint entries_from (current section : string) (ls : list string) : list (string * string) :=
  match ls with
  | [] => []
  | l :: r =>
      let line := trim l in
      if is_empty line || starts_with "#" line then entries_from current section r
      else match header line with
           | Some s => entries_from s section r
           | None =>
               if negb (String.eqb current section) then entries_from current section r
               else match split_once "=" line with
                    | None => entries_from current section r
                    | Some (k, v) =>
                        let k := trim k in
                        if is_empty k then entries_from current section r
                        else (k, trim v) :: entries_from current section r
                    end
           end
  end.

Definition section_entries (metadata section : string) : list (string * string) :=
  entries_from "" section (lines metadata).

(** The headers of the text, in order. *)
Definition headers (metadata : string) : list string :=
  omap (fun l => header (trim l)) (lines metadata).

Definition has_section (metadata section : string) : bool :=
  existsb (fun l => match header (trim l) with
                    | Some s => String.eqb s section | None => false end) (lines metadata).

Definition sections_with_prefix (metadata prefix : string) : list string :=
  omap (fun l => s ← header (trim l); if starts_with prefix s then Some s else None)
    (lines metadata).

Definition section_names (metadata : string) : list string :=
  dedup eqb_of (sort_by leb (headers metadata)).

(** ** Lemmas *)

Lemma header_Some line s : header line = Some s <-> line = "[" +:+ s +:+ "]".
Proof.
  unfold header. destruct (strip_prefix "[" line) as [r|] eqn:E; cbn.
  - apply strip_prefix_Some in E as ->. rewrite strip_suffix_Some. cbn.
    split; [by intros ->|by intros [= ->]].
  - split; [done|]. intros ->. by cbn in E.
Qed.

Lemma header_None line :
  header line = None <-> starts_with "[" line && ends_with "]" line = false.
Proof.
  destruct (header line) as [s|] eqn:E.
  - apply header_Some in E as ->. split; [done|].
    rewrite starts_with_app. replace (ends_with "]" _) with true; [done|]. symmetry.
    apply ends_with_true. by exists ("[" +:+ s).
  - split; [intros _|done]. apply not_true_iff_false. intros [H1 H2]%andb_true_iff.
    apply starts_with_true in H1 as [r ->]. apply ends_with_true in H2 as [w Hw].
    destruct w as [|a w]; [done|]. cbn in Hw. injection Hw as <- ->.
    pose proof (proj2 (header_Some ("[" +:+ w +:+ "]") w) eq_refl) as H. rewrite H in E. done.
Qed.

Lemma header_brackets s : header ("[" +:+ s +:+ "]") = Some s.
Proof. by apply header_Some. Qed.

Lemma elem_of_section_names d s : s ∈ section_names d <-> s ∈ headers d.
Proof.
  unfold section_names. rewrite elem_of_dedup by (intros a b; by apply eqb_of_true).
  apply elem_of_sort_by.
Qed.

Lemma section_names_strict d : Sorted.StronglySorted lt_of (section_names d).
Proof. apply dedup_strict, sort_by_sorted; [apply leb_total|apply leb_trans]. Qed.

Lemma has_section_headers d s : has_section d s = true <-> s ∈ headers d.
Proof.
  unfold has_section, headers. rewrite existsb_exists, list_elem_of_omap. split.
  - intros (l & Hl & E). exists l. split; [by apply list_elem_of_In|].
    destruct (header (trim l)); [|done]. by apply String.eqb_eq in E as ->.
  - intros (l & Hl & E). exists l. split; [by apply list_elem_of_In|].
    rewrite E. apply String.eqb_refl.
Qed.

Lemma sections_with_prefix_filter d p :
  sections_with_prefix d p = List.filter (starts_with p) (headers d).
Proof.
  unfold sections_with_prefix, headers. induction (lines d) as [|l r IH]; cbn; [done|].
  destruct (header (trim l)) as [s|]; cbn; [|done]. rewrite IH. by destruct (starts_with p s).
Qed.

(** A reader finds nothing under a header that does not occur. *)
Lemma entries_from_absent current section ls :
  current <> section -> section ∉ omap (fun l => header (trim l)) ls ->
  entries_from current section ls = [].
Proof.
  revert current. induction ls as [|l r IH]; intros current Hne Hs; cbn; [done|].
  cbn in Hs. destruct (header (trim l)) as [s|] eqn:E; cbn in Hs.
  - apply not_elem_of_cons in Hs as [Hs1 Hs2]. rewrite !IH by done.
    by destruct (_ || _).
  - destruct (_ || _); [auto|]. apply String.eqb_neq in Hne. rewrite Hne. cbn.
    apply IH; [by apply String.eqb_neq|done].
Qed.

(** One line of a well-formed text, as the readers see it. *)
Lemma entries_from_header current section l s r :
  header (trim l) = Some s -> entries_from current section (l :: r) = entries_from s section r.
Proof.
  intros E. cbn. rewrite E. apply header_Some in E. by rewrite E.
Qed.

Lemma entries_from_blank current section l r :
  trim l = "" -> entries_from current section (l :: r) = entries_from current section r.
Proof. intros E. cbn. by rewrite E. Qed.

Lemma entries_from_entry current section k v r :
  trim k = k -> trim v = v -> k <> "" -> has "=" k = false -> starts_with "#" k = false ->
  header (k +:+ String "=" v) = None ->
  entries_from current section ((k +:+ String "=" v) :: r) =
    if String.eqb current section then (k, v) :: entries_from current section r
    else entries_from current section r.
Proof.
  intros Hk Hv Hne Heq Hc Hh. cbn [entries_from].
  rewrite (trim_around k "=" v) by done.
  destruct k as [|a k]; [done|]. cbn [is_empty append orb].
  replace (starts_with "#" (String a (k +:+ String "=" v))) with false.
  2: { rewrite starts_with_strip in Hc |- *. cbn [strip_prefix] in *. by destruct (Ascii.eqb "#" a). }
  cbn [append] in Hh. rewrite Hh. destruct (String.eqb current section); cbn [negb]; [|done].
  rewrite (proj2 (split_once_Some "=" _ (String a k) v)) by done.
  rewrite Hk, Hv. done.
Qed.

Lemma value_from_header current section key l s r :
  header (trim l) = Some s -> value_from current section key (l :: r) = value_from s section key r.
Proof. intros E. cbn. by rewrite E. Qed.

Lemma value_from_blank current section key l r :
  trim l = "" -> value_from current section key (l :: r) = value_from current section key r.
Proof. intros E. cbn. rewrite E. cbn. by destruct (String.eqb current section). Qed.

Lemma value_from_entry current section key k v r :
  trim k = k -> trim v = v -> has "=" k = false ->
  header (k +:+ String "=" v) = None ->
  value_from current section key ((k +:+ String "=" v) :: r) =
    if String.eqb current section && String.eqb k key then Some v
    else value_from current section key r.
Proof.
  intros Hk Hv Heq Hh. cbn [value_from].
  rewrite (trim_around k "=" v) by done. rewrite Hh.
  destruct (String.eqb current section); [|done].
  rewrite (proj2 (split_once_Some "=" _ k v)) by done. by rewrite Hk, Hv.
Qed.
