(* ===== verification/Architecture.v ===== *)
(** * Architecture: Flatpak architectures (src/src/architecture.rs) *)
From Stdlib Require Import Ascii String.
From stdpp Require Import base list strings.
From S2P Require Import Prelude RustStr.

Inductive FlatpakArchitecture := X86_64 | Aarch64.

#[export] Instance architecture_eq_dec : EqDecision FlatpakArchitecture.
Proof. solve_decision. Defined.

Definition flatpak_name (a : FlatpakArchitecture) : string :=
  match a with X86_64 => "x86_64" | Aarch64 => "aarch64" end.

Definition from_flatpak_name (name : string) : result FlatpakArchitecture :=
  if String.eqb name "x86_64" then Ok X86_64
  else if String.eqb name "aarch64" then Ok Aarch64
  else bail (fmt ["unsupported Flatpak architecture: "; name]).

Definition from_host_machine (machine : string) : result FlatpakArchitecture :=
  if String.eqb machine "amd64" || String.eqb machine "x86_64" then Ok X86_64
  else if String.eqb machine "arm64" || String.eqb machine "aarch64" then Ok Aarch64
  else bail (fmt ["unsupported host architecture for Flatpak: "; machine]).

Definition from_runtime_ref (runtime_ref : string) : result FlatpakArchitecture :=
  arch ← ok_or "missing runtime arch" (split "/" runtime_ref !! 1);
  from_flatpak_name arch.

Definition linux_multiarch_tuple (a : FlatpakArchitecture) : string :=
  match a with X86_64 => "x86_64-linux-gnu" | Aarch64 => "aarch64-linux-gnu" end.
Definition runtime_libdir (a : FlatpakArchitecture) : string :=
  fmt ["lib/"; linux_multiarch_tuple a].
Definition vulkan_icd_filename (a : FlatpakArchitecture) (driver : string) : string :=
  fmt [driver; "_icd."; flatpak_name a; ".json"].

Lemma from_flatpak_name_name a : from_flatpak_name (flatpak_name a) = Ok a.
Proof. by destruct a. Qed.

Lemma from_flatpak_name_ok n a : from_flatpak_name n = Ok a <-> n = flatpak_name a.
Proof.
  unfold from_flatpak_name. destruct (String.eqb_spec n "x86_64") as [->|?];
    [|destruct (String.eqb_spec n "aarch64") as [->|?]]; destruct a; cbn; split; (done || congruence).
Qed.
