(* ===== verification/StaticOverrides.v ===== *)
(** * StaticOverrides: metadata with overrides applied
    (src/src/sandbox/static_overrides.rs)

    A key file is a [BTreeMap] of [BTreeMap]s.  The application's metadata is
    parsed, the user-wide and the per-application override are laid over it in
    that order, and the result is rendered as text again, which the rest of the
    program reads with [FlatpakMetadata.value].  The theorems show that
    rendering and parsing are inverse, that what the readers find in the
    rendered text is what the maps hold, and what an override does to a list. *)
From Stdlib Require Import Ascii String Sorting.Sorted Lia.
From stdpp Require Import base list strings sets sorting.
From S2P Require Import Prelude Collections RustStr RustPath FlatpakMetadata.

Definition LIST_KEYS : list (string * string) :=
  [("Context", "shared"); ("Context", "sockets"); ("Context", "devices");
   ("Context", "features"); ("Context", "filesystems"); ("Context", "persistent");
   ("Context", "unset-environment")].

Abbreviation Entries := (list (string * string)).
Abbreviation KeyFile := (list (string * Entries)).

Definition insert_entries (entries : Entries) (l : list (string * string)) : Entries :=
  foldl (fun m e => bm_insert e.1 e.2 m) entries l.

(** [result.entry(section).or_default()], then the insertions. *)
Definition parse_key_file (data : string) : KeyFile :=
  foldl (fun result section =>
    bm_insert section
      (insert_entries (default [] (bm_get section result)) (section_entries data section))
      result)
    [] (section_names data).

(** The first component of a list item decides what it overrides. *)
Definition list_identity (item : string) (filesystem : bool) : string :=
  let item := default item (strip_prefix "!" item) in
  if negb filesystem then
    match split_once "@" item with Some (name, _) => name | None => item end
  else
    match rsplit_once ":" item with
    | Some (p, s) => if bool_decide (s ∈ ["ro"; "rw"; "create"]) then p else item
    | None => item
    end.

Definition split_list (v : string) : list string :=
  List.filter (fun item => negb (is_empty item)) (map trim (split ";" v)).

(** One overlay item: earlier items of its identity go, it is appended. *)
Definition merge_item (filesystem : bool) (values : list string) (item : string) : list string :=
  List.filter (fun existing =>
    negb (String.eqb (list_identity existing filesystem) (list_identity item filesystem))) values
  ++ [item].

Definition render_list (values : list string) : string :=
  match values with [] => "" | _ => fmt [join ";" values; ";"] end.

Definition merge_list (base : option string) (overlay : string) (filesystem : bool) : string :=
  render_list (foldl (merge_item filesystem) (split_list (default "" base)) (split_list overlay)).

Definition lookup_entry (kf : KeyFile) (section key : string) : option string :=
  entries ← bm_get section kf; bm_get key entries.

Definition is_list_key (section key : string) : bool := bool_decide ((section, key) ∈ LIST_KEYS).

(** One entry of an overlay. *)
Definition apply_entry (section : string) (base : KeyFile) (e : string * string) : KeyFile :=
  let (key, overlay_value) := e in
  let v := if is_list_key section key
           then merge_list (lookup_entry base section key) overlay_value (String.eqb key "filesystems")
           else overlay_value in
  bm_insert section (bm_insert key v (default [] (bm_get section base))) base.

Definition apply_overlay (base : KeyFile) (overlay : string) : KeyFile :=
  foldl (fun base section => foldl (apply_entry section) base (section_entries overlay section))
    base (section_names overlay).

Definition render_entry (e : string * string) : string := fmt [e.1; "="; e.2; nl].
Definition render_section (s : string * Entries) : string :=
  fmt ["["; s.1; "]"; nl] +:+ fmt (map render_entry s.2) +:+ nl.
Definition render_key_file (kf : KeyFile) : string := fmt (map render_section kf).

Definition effective_metadata_from_sources (metadata : string) (global application : option string)
  : result string :=
  let overlays := option_list global ++ option_list application in
  Ok (render_key_file (foldl apply_overlay (parse_key_file metadata) overlays)).

Definition permission_enabled (metadata section key target : string) : bool :=
  match value metadata section key with
  | None => false
  | Some items =>
      match List.find (fun item => String.eqb (list_identity item (String.eqb key "filesystems")) target)
              (rev (split_list items)) with
      | Some item => negb (starts_with "!" item)
      | None => false
      end
  end.

(** Reading the three files; [read_to_string] is [std::fs::read_to_string]. *)
Section EffectiveMetadata.
Context (read_to_string : path -> io_result string).

Definition read_optional (p : path) : result (option string) :=
  match read_to_string p with
  | inl data => Ok (Some data)
  | inr e => if decide (ioe_kind e = NotFound) then Ok None
             else Err [fmt ["read Flatpak override "; p]; ioe_message e]
  end.

Definition effective_metadata (metadata_path overrides_dir : path) (app_id : string)
  : result string :=
  metadata ← io_context (fmt ["read Flatpak metadata "; metadata_path])
               (read_to_string metadata_path);
  global ← read_optional (join_path overrides_dir "global");
  application ← read_optional (join_path overrides_dir app_id);
  effective_metadata_from_sources metadata global application.
End EffectiveMetadata.

(** ** Well-formed key files *)

(** An entry that survives rendering: its key is trimmed, not empty, not a
    comment and holds no equals sign; neither part holds a line feed; and the
    line does not look like a header. *)
Definition wf_entry (e : string * string) : Prop :=
  trim e.1 = e.1 /\ trim e.2 = e.2 /\ e.1 <> "" /\ has "=" e.1 = false /\
  starts_with "#" e.1 = false /\ has LF e.1 = false /\ has LF e.2 = false /\
  header (e.1 +:+ String "=" e.2) = None.

Definition wf_entries (m : Entries) : Prop := bm_wf m /\ Forall wf_entry m.

Definition wf (kf : KeyFile) : Prop :=
  bm_wf kf /\ Forall (fun s => has LF s.1 = false /\ wf_entries s.2) kf.

(** ** The text of a key file, line by line *)

Definition entry_line (e : string * string) : string := e.1 +:+ String "=" e.2.
Definition section_lines (s : string * Entries) : list string :=
  ("[" +:+ s.1 +:+ "]") :: map entry_line s.2 ++ [""].
Definition all_lines (kf : KeyFile) : list string := concat (map section_lines kf).

Lemma render_entry_line e : render_entry e = end_line (entry_line e).
Proof. unfold render_entry, end_line, entry_line. str_norm. done. Qed.

Lemma render_section_lines s :
  render_section s = fmt (map end_line (section_lines s)).
Proof.
  unfold render_section, section_lines. cbn [map].
  rewrite map_app, map_map. cbn [map]. rewrite (map_ext _ _ render_entry_line).
  unfold end_line at 2 4. unfold nl. str_norm. done.
Qed.

Lemma fmt_concat ls : fmt (concat ls) = fmt (map fmt ls).
Proof. induction ls as [|l ls IH]; [done|]. cbn [concat map]. str_norm. by rewrite IH. Qed.

Lemma render_all_lines kf : render_key_file kf = fmt (map end_line (all_lines kf)).
Proof.
  unfold render_key_file, all_lines. rewrite concat_map, fmt_concat, !map_map.
  f_equal. apply map_ext, render_section_lines.
Qed.

Lemma wf_entry_trim e : wf_entry e -> trim (entry_line e) = entry_line e.
Proof. intros (H1 & H2 & _). by apply trim_around. Qed.

Lemma wf_lines_clean kf : wf kf -> Forall clean_line (all_lines kf).
Proof.
  intros [_ F]. unfold all_lines. apply Forall_concat, Forall_map.
  eapply Forall_impl; [exact F|]. intros [s m] [Hs [_ Hm]]. cbn in *.
  constructor; [|apply Forall_app; split].
  - split; [|apply trim_strip_cr, trim_brackets]. cbn [fst]. rewrite !has_app. by rewrite Hs.
  - apply Forall_map. eapply Forall_impl; [exact Hm|]. intros e He.
    split; [|by apply trim_strip_cr, wf_entry_trim].
    destruct He as (_ & _ & _ & _ & _ & H1 & H2 & _). unfold entry_line.
    rewrite has_app. cbn. by rewrite H1, H2.
  - by repeat constructor.
Qed.

Lemma lines_render kf : wf kf -> lines (render_key_file kf) = all_lines kf.
Proof. intros W. rewrite render_all_lines. by apply lines_of_lines, wf_lines_clean. Qed.

(** ** Reading a rendered key file *)

Lemma headers_entries m :
  Forall wf_entry m -> omap (fun l => header (trim l)) (map entry_line m) = [].
Proof.
  induction 1 as [|e m He F IH]; [done|]. cbn.
  rewrite wf_entry_trim by done. destruct He as (_ & _ & _ & _ & _ & _ & _ & Hh).
  unfold entry_line at 1. by rewrite Hh.
Qed.

Lemma headers_render kf : wf kf -> headers (render_key_file kf) = kf.*1.
Proof.
  intros W. unfold headers. rewrite lines_render by done. destruct W as [_ F].
  unfold all_lines. induction F as [|[s m] kf [Hs [_ Hm]] F IH]; [done|].
  cbn [map concat]. rewrite omap_app, IH. unfold section_lines. cbn [fst snd omap list_omap].
  rewrite trim_brackets, header_brackets. cbn in Hm.
  rewrite omap_app, headers_entries by done. done.
Qed.

Lemma section_names_render kf : wf kf -> section_names (render_key_file kf) = kf.*1.
Proof.
  intros W. apply strict_ext; [apply section_names_strict|apply W|].
  intros x. by rewrite elem_of_section_names, headers_render.
Qed.

Lemma entries_from_lines sec cur m r :
  Forall wf_entry m ->
  entries_from cur sec (map entry_line m ++ r) =
    (if String.eqb cur sec then m else []) ++ entries_from cur sec r.
Proof.
  induction 1 as [|e m He F IH]; [by destruct (String.eqb cur sec)|].
  destruct He as (H1 & H2 & H3 & H4 & H5 & _ & _ & H8).
  cbn [map app]. unfold entry_line at 1. rewrite entries_from_entry by done. rewrite IH.
  destruct (String.eqb cur sec); [|done]. by destruct e.
Qed.

Lemma entries_from_all sec cur kf :
  Forall (fun s => has LF s.1 = false /\ wf_entries s.2) kf ->
  entries_from cur sec (all_lines kf) =
    concat (map (fun s => if String.eqb s.1 sec then s.2 else []) kf).
Proof.
  intros F. revert cur. induction F as [|[s m] kf [Hs [_ Hm]] F IH]; intros cur; [done|].
  unfold all_lines. cbn [map concat]. unfold section_lines. cbn [fst snd] in *.
  cbn [app]. rewrite (entries_from_header _ _ _ s).
  2: { rewrite trim_brackets. apply header_brackets. }
  rewrite <- app_assoc, entries_from_lines by done. f_equal.
  cbn [app]. rewrite entries_from_blank by done. apply IH.
Qed.

(** In a map, the entries filed under a key are those of its one section. *)
Lemma concat_bm_get sec (kf : KeyFile) :
  bm_wf kf ->
  concat (map (fun s => if String.eqb s.1 sec then s.2 else []) kf) = default [] (bm_get sec kf).
Proof.
  unfold bm_wf. induction kf as [|[s m] kf IH]; [done|]. cbn. intros S.
  inversion S as [|?? S' F]; subst. rewrite IH by done.
  destruct (String.eqb_spec s sec) as [->|Hne].
  - rewrite cmp_refl. cbn. destruct (bm_get sec kf) as [m'|] eqn:E; cbn; [|apply app_nil_r].
    exfalso. assert (sec ∈ kf.*1) as Hin by (apply bm_get_Some; eauto).
    rewrite Forall_forall in F. by destruct (cmp_lt_irrefl sec (F _ Hin)).
  - cbn. destruct (cmp sec s) eqn:C; [|done..]. apply cmp_eq in C. congruence.
Qed.

Lemma section_entries_render kf sec :
  wf kf -> section_entries (render_key_file kf) sec = default [] (bm_get sec kf).
Proof.
  intros W. unfold section_entries. rewrite lines_render by done. destruct W as [W F].
  rewrite entries_from_all by done. by apply concat_bm_get.
Qed.

Lemma bm_insert_snoc {V} (m : list (string * V)) k v :
  Forall (fun k' => lt_of k' k) m.*1 -> bm_insert k v m = m ++ [(k, v)].
Proof.
  induction m as [|[k' v'] m IH]; cbn; [done|]. intros F. inversion F as [|?? L F']; subst.
  rewrite (proj2 (cmp_gt_lt k k') L). by rewrite IH.
Qed.

Lemma insert_entries_sorted m l :
  StronglySorted lt_of (m ++ l).*1 -> insert_entries m l = m ++ l.
Proof.
  revert m. unfold insert_entries. induction l as [|[k v] l IH]; cbn; intros m S; [by rewrite app_nil_r|].
  rewrite fmap_app in S. cbn in S.
  rewrite bm_insert_snoc.
  - rewrite IH; rewrite <- app_assoc; [done|]. by rewrite fmap_app.
  - apply StronglySorted_app in S as (H1 & _ & _). apply Forall_forall.
    intros x Hx. apply H1; [done|left].
Qed.

Lemma parse_sections (f : string -> Entries) done_ todo :
  StronglySorted lt_of (done_ ++ todo).*1 ->
  Forall (fun s => f s.1 = s.2 /\ bm_wf s.2) todo ->
  foldl (fun result section =>
      bm_insert section (insert_entries (default [] (bm_get section result)) (f section)) result)
    done_ todo.*1 = done_ ++ todo.
Proof.
  revert done_. induction todo as [|[s m] todo IH]; intros dn S F; [by rewrite app_nil_r|].
  inversion F as [|?? [Hf Hm] F']; subst. cbn in *. rewrite fmap_app in S. cbn in S.
  pose proof S as S2. apply StronglySorted_app in S2 as (H1 & _ & _).
  assert (bm_get s dn = None) as ->.
  { destruct (bm_get s dn) eqn:E; [|done]. exfalso.
    assert (s ∈ dn.*1) as Hin by (apply bm_get_Some; eauto).
    apply (cmp_lt_irrefl s), H1; [done|left]. }
  cbn. rewrite Hf, insert_entries_sorted by done. cbn.
  rewrite bm_insert_snoc.
  - rewrite IH; [by rewrite <- app_assoc|rewrite <- app_assoc; by rewrite fmap_app|done].
  - apply Forall_forall. intros x Hx. apply H1; [done|left].
Qed.

Lemma parse_render kf : wf kf -> parse_key_file (render_key_file kf) = kf.
Proof.
  intros W. unfold parse_key_file. rewrite section_names_render by done.
  pose proof W as [Wk F].
  apply (parse_sections (section_entries (render_key_file kf)) []); [done|].
  apply Forall_forall. intros [s m] Hin. rewrite section_entries_render by done. cbn.
  assert (bm_get s kf = Some m) as -> by (by apply bm_get_elem). split; [done|].
  rewrite Forall_forall in F. by destruct (F _ Hin) as [_ [? _]].
Qed.

Lemma value_from_lines sec key cur m r :
  Forall wf_entry m ->
  value_from cur sec key (map entry_line m ++ r) =
    match (if String.eqb cur sec then bm_get key m else None) with
    | Some v => Some v
    | None => value_from cur sec key r
    end.
Proof.
  induction 1 as [|e m He F IH]; [by destruct (String.eqb cur sec)|].
  destruct He as (H1 & H2 & H3 & H4 & H5 & _ & _ & H8).
  cbn [map app]. unfold entry_line at 1. rewrite value_from_entry by done. rewrite IH.
  destruct e as [k v]; cbn. destruct (String.eqb cur sec); cbn; [|done].
  destruct (String.eqb_spec k key) as [->|Hne]; [by rewrite cmp_refl|].
  destruct (cmp key k) eqn:C; [|done..]. apply cmp_eq in C. congruence.
Qed.

Lemma value_from_all sec key cur kf :
  bm_wf kf -> Forall (fun s => has LF s.1 = false /\ wf_entries s.2) kf ->
  value_from cur sec key (all_lines kf) = lookup_entry kf sec key.
Proof.
  intros W F. revert cur. induction F as [|[s m] kf [Hs [_ Hm]] F IH]; intros cur; [done|].
  unfold all_lines. cbn [map concat]. unfold section_lines. cbn [fst snd] in *.
  cbn [app]. rewrite (value_from_header _ _ _ _ s).
  2: { rewrite trim_brackets. apply header_brackets. }
  rewrite <- app_assoc, value_from_lines by done. cbn [app].
  rewrite value_from_blank by done. inversion W as [|?? W' L]; subst. rewrite IH by done.
  unfold lookup_entry. cbn. destruct (String.eqb_spec s sec) as [->|Hne].
  - rewrite cmp_refl. cbn. destruct (bm_get key m); [done|].
    destruct (bm_get sec kf) as [m'|] eqn:E; cbn; [|done]. exfalso.
    assert (sec ∈ kf.*1) as Hin by (apply bm_get_Some; eauto).
    rewrite Forall_forall in L. by destruct (cmp_lt_irrefl sec (L _ Hin)).
  - destruct (cmp sec s) eqn:C; [|done..]. apply cmp_eq in C. congruence.
Qed.

Lemma value_render kf sec key :
  wf kf -> value (render_key_file kf) sec key = lookup_entry kf sec key.
Proof.
  intros W. unfold value. rewrite lines_render by done. destruct W. by apply value_from_all.
Qed.

(** ** Parsing and overlaying keep a key file well formed *)

Lemma header_no_lf l s : has LF l = false -> header (trim l) = Some s -> has LF s = false.
Proof.
  intros Hl%has_trim E%header_Some. rewrite E in Hl.
  by apply has_sep_false_app in Hl as [_ [? _]%has_sep_false_app].
Qed.

Lemma section_names_no_lf d s : s ∈ section_names d -> has LF s = false.
Proof.
  rewrite elem_of_section_names. unfold headers. rewrite list_elem_of_omap.
  intros (l & Hl & E). eapply header_no_lf; [|exact E].
  pose proof (lines_no_lf d) as F. rewrite Forall_forall in F. by apply F.
Qed.

(** One line the reader keeps, with its parts trimmed. *)
Lemma entry_of_line l k v :
  has LF l = false -> starts_with "#" (trim l) = false -> header (trim l) = None ->
  split_once "=" (trim l) = Some (k, v) -> trim k <> "" -> wf_entry (trim k, trim v).
Proof.
  intros Hl Hc Hh Hs Hk. apply split_once_Some in Hs as [Hs Heq].
  pose proof (trim_idem l) as Ht. rewrite Hs in Ht, Hc, Hh.
  pose proof (has_trim _ _ Hl) as Hlf. rewrite Hs in Hlf.
  apply has_sep_false_app in Hlf as [Hk1 Hv1].
  destruct (trim_first_half _ _ _ Ht) as [t1 E1]. destruct (trim_second_half _ _ _ Ht) as [t2 E2].
  unfold wf_entry; cbn [fst snd]. split_and!.
  - apply trim_idem.
  - apply trim_idem.
  - done.
  - by apply has_trim.
  - apply not_true_iff_false. intros [r Er]%starts_with_true.
    rewrite E1, Er, !sapp_assoc, starts_with_app in Hc. done.
  - by apply has_trim.
  - apply has_trim. cbn in Hv1. done.
  - apply header_None. apply header_None in Hh. apply not_true_iff_false.
    intros [H1 H2]%andb_true_iff. apply not_true_iff_false in Hh. apply Hh, andb_true_iff.
    split.
    + apply starts_with_true in H1 as [r Er]. destruct (trim k) as [|a k'] eqn:Ek; [done|].
      cbn in Er. injection Er as -> _. rewrite E1. done.
    + rewrite ends_with_app_ne in H2 |- * by done. change (String "=" ?x) with ("=" +:+ x) in *.
      destruct (string_nil_dec (trim v)) as [Ev|Ev]; [by rewrite Ev in H2|].
      rewrite ends_with_app_ne in H2 by done. rewrite E2.
      rewrite <- sapp_assoc. by rewrite ends_with_app_ne.
Qed.

Lemma entries_from_wf sec cur ls :
  Forall (fun l => has LF l = false) ls -> Forall wf_entry (entries_from cur sec ls).
Proof.
  intros F. revert cur. induction F as [|l r Hl F IH]; intros cur; [constructor|].
  cbn [entries_from]. destruct (is_empty (trim l) || starts_with "#" (trim l)) eqn:Ec; [done|].
  apply orb_false_iff in Ec as [_ Ec].
  destruct (header (trim l)) eqn:Eh; [done|].
  destruct (String.eqb cur sec); cbn [negb]; [|done].
  destruct (split_once "=" (trim l)) as [[k v]|] eqn:Es; [|done].
  destruct (is_empty (trim k)) eqn:Ek; [done|]. constructor; [|done].
  eapply entry_of_line; eauto. by apply is_empty_false.
Qed.

Lemma section_entries_wf d sec : Forall wf_entry (section_entries d sec).
Proof. apply entries_from_wf, lines_no_lf. Qed.

Lemma bm_insert_Forall {V} (P : string * V -> Prop) k v m :
  P (k, v) -> Forall P m -> Forall P (bm_insert k v m).
Proof.
  intros Hp. induction 1 as [|[k' v'] m Hm F IH]; cbn; [by repeat constructor|].
  destruct (cmp k k'); repeat constructor; done.
Qed.

Lemma insert_entries_wf m l : wf_entries m -> Forall wf_entry l -> wf_entries (insert_entries m l).
Proof.
  intros W F. revert m W. induction F as [|[k v] l He F IH]; intros m [W1 W2]; [done|].
  apply IH. split; [by apply bm_insert_wf|by apply bm_insert_Forall].
Qed.

Lemma wf_entries_nil : wf_entries [].
Proof. split; constructor. Qed.

Lemma wf_get kf sec : wf kf -> wf_entries (default [] (bm_get sec kf)).
Proof.
  intros [W F]. destruct (bm_get sec kf) as [m|] eqn:E; cbn; [|apply wf_entries_nil].
  apply bm_get_elem in E; [|done]. rewrite Forall_forall in F. by destruct (F _ E).
Qed.

Lemma wf_insert kf sec m :
  has LF sec = false -> wf_entries m -> wf kf -> wf (bm_insert sec m kf).
Proof. intros Hs Hm [W F]. split; [by apply bm_insert_wf|by apply bm_insert_Forall]. Qed.

Lemma foldl_inv {A S} (f : S -> A -> S) (P : S -> Prop) l s :
  (forall s a, a ∈ l -> P s -> P (f s a)) -> P s -> P (foldl f s l).
Proof.
  revert s. induction l as [|a l IH]; cbn; intros s Hf Hs; [done|].
  apply IH; [|apply Hf; [left|done]]. intros ???. apply Hf. by right.
Qed.

Lemma parse_key_file_wf d : wf (parse_key_file d).
Proof.
  unfold parse_key_file. apply foldl_inv; [|split; constructor].
  intros kf sec Hsec W. apply wf_insert; [by eapply section_names_no_lf| |done].
  apply insert_entries_wf; [by apply wf_get|apply section_entries_wf].
Qed.

(** ** Lists *)

Definition item_ok (x : string) : Prop := trim x = x /\ x <> "" /\ has ";" x = false.

Lemma split_list_ok v : Forall item_ok (split_list v).
Proof.
  unfold split_list. apply Forall_forall. intros x Hx%list_elem_of_In.
  apply filter_In in Hx as [Hx Hne]. apply in_map_iff in Hx as (y & <- & Hy%list_elem_of_In).
  pose proof (split_pieces ";" v) as F. rewrite Forall_forall in F.
  split_and!; [apply trim_idem|by apply is_empty_false, negb_true_iff|apply has_trim; auto].
Qed.

Lemma render_list_split values :
  Forall item_ok values -> split_list (render_list values) = values.
Proof.
  intros F. destruct values as [|x vs] eqn:E; [done|]. rewrite <- E in *.
  assert (render_list values = join ";" values +:+ String ";" "") as ->
    by (rewrite E; unfold render_list; by str_norm).
  unfold split_list. rewrite split_app_sep, split_join; [|by subst|].
  - rewrite map_app, List.filter_app. cbn. rewrite app_nil_r. clear E.
    induction F as [|y l (H1 & H2 & _) F IH]; [done|]. cbn. rewrite H1.
    apply is_empty_false in H2. rewrite H2. cbn. by rewrite IH.
  - eapply Forall_impl; [exact F|]. by intros y (_ & _ & ?).
Qed.

(** The item that decides about a target: the last of its identity. *)
Definition find_item (filesystem : bool) (target : string) (values : list string) : option string :=
  List.find (fun item => String.eqb (list_identity item filesystem) target) (rev values).

Lemma find_item_merge fs target values item :
  find_item fs target (merge_item fs values item) =
    if String.eqb (list_identity item fs) target then Some item else find_item fs target values.
Proof.
  unfold find_item, merge_item. rewrite rev_app_distr. cbn.
  destruct (String.eqb_spec (list_identity item fs) target) as [E|E]; [done|].
  rewrite <- List.filter_rev. apply find_filter. intros x Hx%String.eqb_eq.
  apply negb_true_iff, String.eqb_neq. congruence.
Qed.

Lemma find_item_fold fs target overlay values :
  find_item fs target (foldl (merge_item fs) values overlay) =
    match find_item fs target overlay with
    | Some item => Some item
    | None => find_item fs target values
    end.
Proof.
  induction overlay as [|x l IH] using rev_ind; [done|].
  rewrite foldl_app. cbn [foldl]. rewrite find_item_merge, IH.
  unfold find_item at 3. rewrite rev_app_distr. cbn.
  by destruct (String.eqb (list_identity x fs) target).
Qed.

Lemma merge_items_ok fs overlay values :
  Forall item_ok values -> Forall item_ok overlay ->
  Forall item_ok (foldl (merge_item fs) values overlay).
Proof.
  intros Fv Fo. revert values Fv. induction Fo as [|x l Hx Fo IH]; intros values Fv; [done|].
  apply IH. unfold merge_item. apply Forall_app. split; [|by constructor].
  apply Forall_forall. intros y Hy%list_elem_of_In. apply filter_In in Hy as [Hy _].
  rewrite Forall_forall in Fv. by apply Fv, list_elem_of_In.
Qed.

Lemma merge_list_split base overlay fs :
  split_list (merge_list base overlay fs) =
    foldl (merge_item fs) (split_list (default "" base)) (split_list overlay).
Proof. apply render_list_split, merge_items_ok; apply split_list_ok. Qed.

Lemma render_list_trim values : Forall item_ok values -> trim (render_list values) = render_list values.
Proof.
  intros F. destruct F as [|x vs [Hx _] F]; [done|].
  unfold render_list. str_norm.
  assert (exists r, join ";" (x :: vs) +:+ ";" = x +:+ String ";" r) as [r Er].
  { destruct vs as [|y vs]; [by exists ""|]. exists (join ";" (y :: vs) +:+ ";").
    rewrite join_cons by done. by str_norm. }
  apply trim_fixed_iff. split.
  - rewrite Er, list_ascii_app. apply trim_fixed_iff in Hx as [Hx _].
    apply (ws_head_ascii ws2 ws3 ws2_high ws3_high); done.
  - rewrite list_ascii_app, rev_app_distr. cbn [list_ascii_of_string rev app].
    apply (ws_head_ascii _ _ ws2_high_rev ws3_high_rev []); done.
Qed.

Lemma join_no_lf vs : Forall (fun x => has LF x = false) vs -> has LF (join ";" vs) = false.
Proof.
  induction 1 as [|x vs Hx F IH]; [done|]. destruct vs as [|y vs]; [done|].
  rewrite join_cons, !has_app by done. by rewrite Hx, IH.
Qed.

Lemma split_list_no_lf v : has LF v = false -> Forall (fun x => has LF x = false) (split_list v).
Proof.
  intros Hv. unfold split_list. apply Forall_forall. intros x Hx%list_elem_of_In.
  apply filter_In in Hx as [Hx _]. apply in_map_iff in Hx as (y & <- & Hy%list_elem_of_In).
  apply has_trim. pose proof (has_split ";" _ _ Hv) as F. rewrite Forall_forall in F. auto.
Qed.

Lemma merge_list_no_lf base overlay fs :
  (forall b, base = Some b -> has LF b = false) -> has LF overlay = false ->
  has LF (merge_list base overlay fs) = false.
Proof.
  intros Hb Ho. unfold merge_list. set (vs := foldl _ _ _).
  assert (Forall (fun x => has LF x = false) vs) as F.
  { unfold vs. assert (Forall (fun x => has LF x = false) (split_list (default "" base))) as Fb.
    { apply split_list_no_lf. destruct base; cbn; auto. }
    revert Fb. generalize (split_list (default "" base)).
    induction (split_list_no_lf _ Ho) as [|x l Hx F IH]; intros l0 F0; [done|].
    apply IH. unfold merge_item. apply Forall_app. split; [|by constructor].
    apply Forall_forall. intros y Hy%list_elem_of_In. apply filter_In in Hy as [Hy _].
    rewrite Forall_forall in F0. by apply F0, list_elem_of_In. }
  unfold render_list. destruct vs; [done|]. str_norm. rewrite has_app.
  by rewrite join_no_lf.
Qed.

(** ** Overlays *)

Lemma lookup_insert_entry base s k v s' k' :
  lookup_entry (bm_insert s (bm_insert k v (default [] (bm_get s base))) base) s' k' =
    if String.eqb s s' && String.eqb k k' then Some v else lookup_entry base s' k'.
Proof.
  unfold lookup_entry. destruct (String.eqb_spec s s') as [->|Hs]; cbn.
  - rewrite bm_get_insert_eq. cbn. destruct (String.eqb_spec k k') as [->|Hk].
    + apply bm_get_insert_eq.
    + rewrite bm_get_insert_ne by done. by destruct (bm_get s' base).
  - by rewrite bm_get_insert_ne.
Qed.

Lemma lookup_wf_entry kf s k v : wf kf -> lookup_entry kf s k = Some v -> wf_entry (k, v).
Proof.
  unfold lookup_entry. intros W H. apply bind_Some in H as (m & Hm & Hk).
  pose proof (wf_get kf s W) as Wm. rewrite Hm in Wm. destruct Wm as [W1 W2].
  apply bm_get_elem in Hk; [|done]. rewrite Forall_forall in W2. by apply W2.
Qed.

Lemma list_key_front s k : is_list_key s k = true -> starts_with "[" k = false.
Proof.
  unfold is_list_key, LIST_KEYS. rewrite bool_decide_eq_true. rewrite !elem_of_cons.
  intros H. repeat destruct H as [[= _ ->]|H]; try done. by apply not_elem_of_nil in H.
Qed.

Lemma apply_entry_wf s base e :
  has LF s = false -> wf base -> wf_entry e -> wf (apply_entry s base e).
Proof.
  intros Hs W He. unfold apply_entry. destruct e as [k v].
  apply wf_insert; [done| |done]. destruct (wf_get base s W) as [W1 W2].
  split; [by apply bm_insert_wf|]. apply bm_insert_Forall; [|done].
  destruct (is_list_key s k) eqn:E; [|done].
  destruct He as (H1 & H2 & H3 & H4 & H5 & H6 & H7 & _). unfold wf_entry; cbn [fst snd] in *.
  split_and!; try done.
  - apply render_list_trim, merge_items_ok; apply split_list_ok.
  - apply merge_list_no_lf; [|done]. intros b Hb. by apply (lookup_wf_entry _ _ _ _ W Hb).
  - apply header_None. apply list_key_front in E. destruct k as [|a k]; [done|].
    unfold starts_with in *. cbn [append strip_prefix] in *. by destruct (Ascii.eqb "[" a).
Qed.

Lemma apply_overlay_wf base o : wf base -> wf (apply_overlay base o).
Proof.
  intros W. unfold apply_overlay. apply foldl_inv; [|done]. intros kf s Hs Wk.
  apply foldl_inv; [|done]. intros kf' e He Wk'. apply apply_entry_wf; [|done|].
  - by eapply section_names_no_lf.
  - pose proof (section_entries_wf o s) as F. rewrite Forall_forall in F. by apply F.
Qed.

Lemma effective_wf m overlays : wf (foldl apply_overlay (parse_key_file m) overlays).
Proof. apply foldl_inv; [intros; by apply apply_overlay_wf|apply parse_key_file_wf]. Qed.

(** The values an overlay gives a key, in the order it applies them. *)
Definition updates (section_list : list (string * string)) (k : string) : list string :=
  map snd (List.filter (fun e => String.eqb e.1 k) section_list).

Definition update (s k : string) (current : option string) (v : string) : option string :=
  Some (if is_list_key s k then merge_list current v (String.eqb k "filesystems") else v).

Lemma lookup_apply_entry s base e s' k' :
  lookup_entry (apply_entry s base e) s' k' =
    if String.eqb s s' && String.eqb e.1 k' then update s' k' (lookup_entry base s' k') e.2
    else lookup_entry base s' k'.
Proof.
  destruct e as [k v]. unfold apply_entry, update. rewrite lookup_insert_entry. cbn.
  destruct (String.eqb_spec s s') as [->|]; [|done].
  by destruct (String.eqb_spec k k') as [->|].
Qed.

Lemma lookup_apply_entries s base l s' k' :
  lookup_entry (foldl (apply_entry s) base l) s' k' =
    if String.eqb s s' then foldl (update s' k') (lookup_entry base s' k') (updates l k')
    else lookup_entry base s' k'.
Proof.
  revert base. unfold updates. induction l as [|e l IH]; intros base; cbn [foldl List.filter].
  - by destruct (String.eqb s s').
  - rewrite IH, lookup_apply_entry. destruct (String.eqb s s'); [|done]. cbn [andb].
    by destruct (String.eqb e.1 k').
Qed.

Lemma lookup_apply_overlay base o s k :
  lookup_entry (apply_overlay base o) s k =
    if bool_decide (s ∈ section_names o)
    then foldl (update s k) (lookup_entry base s k) (updates (section_entries o s) k)
    else lookup_entry base s k.
Proof.
  unfold apply_overlay. pose proof (strict_NoDup _ (section_names_strict o)) as N.
  revert base. induction N as [|x l Hx N IH]; intros base; [done|]. cbn [foldl].
  rewrite IH, lookup_apply_entries. destruct (String.eqb_spec x s) as [->|Hne].
  - rewrite (bool_decide_false (s ∈ l)) by done. by rewrite bool_decide_true by left.
  - assert (bool_decide (s ∈ x :: l) = bool_decide (s ∈ l)) as ->; [|done].
    apply bool_decide_ext. set_solver.
Qed.

Lemma insert_entries_get m l k :
  bm_get k (insert_entries m l) = foldl (fun _ v => Some v) (bm_get k m) (updates l k).
Proof.
  unfold insert_entries, updates. revert m. induction l as [|[k' v] l IH]; intros m; [done|].
  cbn [foldl List.filter fst snd]. rewrite IH. destruct (String.eqb_spec k' k) as [->|Hne]; cbn.
  - by rewrite bm_get_insert_eq.
  - by rewrite bm_get_insert_ne.
Qed.

Lemma lookup_parse o s k :
  lookup_entry (parse_key_file o) s k =
    if bool_decide (s ∈ section_names o)
    then foldl (fun _ v => Some v) None (updates (section_entries o s) k) else None.
Proof.
  unfold parse_key_file. pose proof (strict_NoDup _ (section_names_strict o)) as N.
  set (step := fun result section => _).
  assert (forall kf, bm_get s kf = None \/ s ∉ section_names o ->
    bm_get s (foldl step kf (section_names o)) =
      if bool_decide (s ∈ section_names o) then Some (insert_entries [] (section_entries o s))
      else bm_get s kf) as G.
  { induction N as [|x l Hx N IH]; intros kf Hkf; [done|]. cbn [foldl]. unfold step at 2.
    destruct (decide (x = s)) as [->|Hne].
    - destruct Hkf as [Hkf|?]; [|set_solver]. rewrite IH by (right; done).
      rewrite bool_decide_false, bool_decide_true by (done || left).
      by rewrite bm_get_insert_eq, Hkf.
    - rewrite IH by (rewrite bm_get_insert_ne by done; set_solver).
      rewrite bm_get_insert_ne by done.
      assert (bool_decide (s ∈ x :: l) = bool_decide (s ∈ l)) as ->; [|done].
      apply bool_decide_ext. set_solver. }
  unfold lookup_entry. rewrite G by (by left). case_bool_decide; [|done]. cbn.
  apply insert_entries_get.
Qed.

Lemma updates_last {A} (d : option A) l : l <> [] -> foldl (fun _ v => Some v) d l = foldl (fun _ v => Some v) None l.
Proof. by destruct l. Qed.

(** What the readers of the effective metadata find under a section and a
    key is the entry of the merged key file: rendering loses nothing and adds
    nothing, whatever the three input texts are. *)
Theorem effective_metadata_read_back m g a text s k :
  effective_metadata_from_sources m g a = Ok text ->
  value text s k =
    lookup_entry (foldl apply_overlay (parse_key_file m) (option_list g ++ option_list a)) s k.
Proof. intros [= <-]. apply value_render, effective_wf. Qed.

Definition sample_metadata : string :=
  fmt ["[Application]"; nl; "name=org.x.y"; nl; "[Context]"; nl; "filesystems=home;xdg-download:ro;"; nl].
Definition sample_override : string :=
  fmt ["[Context]"; nl; "filesystems=!home;xdg-music"; nl].

Lemma effective_metadata_read_back_witness :
  value "[Application]
name=org.x.y

[Context]
filesystems=xdg-download:ro;!home;xdg-music;

" "Context" "filesystems" = Some "xdg-download:ro;!home;xdg-music;".
Proof.
  etransitivity;
    [apply (effective_metadata_read_back sample_metadata (Some sample_override) None); vm_compute; reflexivity|].
  vm_compute. reflexivity.
Defined.

(** A well-formed key file is what parsing its rendering gives, and
    parsing any text gives a well-formed key file: the effective metadata is a
    fixed point of rendering and parsing. *)
Theorem key_file_roundtrip kf d :
  (wf kf -> parse_key_file (render_key_file kf) = kf) /\
  wf (parse_key_file d) /\
  parse_key_file (render_key_file (parse_key_file d)) = parse_key_file d.
Proof. split_and!; [apply parse_render|apply parse_key_file_wf|apply parse_render, parse_key_file_wf]. Qed.

Lemma key_file_roundtrip_witness :
  parse_key_file (render_key_file [("Context", [("shared", "network;")])]) =
    [("Context", [("shared", "network;")])].
Proof.
  apply (key_file_roundtrip _ ""). split; [by repeat constructor|].
  repeat constructor; cbn; discriminate.
Defined.

(** Outside the list keys an overlay replaces what it mentions and keeps
    the rest. *)
Theorem overlay_replaces base o s k :
  is_list_key s k = false ->
  lookup_entry (apply_overlay base o) s k =
    match lookup_entry (parse_key_file o) s k with
    | Some v => Some v
    | None => lookup_entry base s k
    end.
Proof.
  intros Hl. rewrite lookup_apply_overlay, lookup_parse. case_bool_decide; [|done].
  assert (forall vs d, foldl (update s k) d vs = foldl (fun _ v => Some v) d vs) as ->.
  { induction vs as [|v vs IH]; intros d; [done|]. cbn. unfold update at 2. rewrite Hl. apply IH. }
  destruct (updates (section_entries o s) k) as [|v vs] using rev_ind; [done|].
  by rewrite !foldl_app.
Qed.

Lemma overlay_replaces_witness :
  lookup_entry (apply_overlay (parse_key_file sample_metadata)
    (fmt ["[Application]"; nl; "name=org.z"; nl])) "Application" "name" = Some "org.z".
Proof. rewrite overlay_replaces by reflexivity. vm_compute. reflexivity. Defined.

(** A permission an override names is decided by the override's last item
    for it, negated or not; every other permission of the list is what it was
    before the override. *)
Theorem override_decides_permission base o s k v target :
  wf base -> is_list_key s k = true -> updates (section_entries o s) k = [v] ->
  permission_enabled (render_key_file (apply_overlay base o)) s k target =
    match find_item (String.eqb k "filesystems") target (split_list v) with
    | Some item => negb (starts_with "!" item)
    | None => permission_enabled (render_key_file base) s k target
    end.
Proof.
  intros W Hl Hu. unfold permission_enabled.
  rewrite !value_render by (try apply apply_overlay_wf; done).
  assert (s ∈ section_names o) as Hs.
  { destruct (decide (s ∈ section_names o)) as [?|N]; [done|]. exfalso.
    rewrite elem_of_section_names in N. unfold section_entries in Hu.
    rewrite entries_from_absent in Hu; [done| |done].
    intros <-. unfold is_list_key in Hl. apply bool_decide_eq_true in Hl. set_solver. }
  rewrite lookup_apply_overlay, bool_decide_true, Hu by done. cbn. rewrite Hl, merge_list_split.
  fold (find_item (String.eqb k "filesystems") target).
  change (List.find _ (rev ?l)) with (find_item (String.eqb k "filesystems") target l).
  rewrite find_item_fold.
  destruct (find_item _ target (split_list v)); [done|].
  destruct (lookup_entry base s k); done.
Qed.

Lemma override_decides_permission_witness :
  permission_enabled (render_key_file (apply_overlay (parse_key_file sample_metadata) sample_override))
    "Context" "filesystems" "home" = false.
Proof.
  rewrite (override_decides_permission _ _ _ _ "!home;xdg-music").
  - vm_compute. reflexivity.
  - apply parse_key_file_wf.
  - reflexivity.
  - vm_compute. reflexivity.
Defined.
