(* ===== verification/FilesystemPermissions.v ===== *)
(** * FilesystemPermissions: the filesystems list of the metadata
    (src/src/sandbox/filesystem_permissions.rs) *)
From Stdlib Require Import Ascii String.
From stdpp Require Import base list strings.
From S2P Require Import Prelude RustStr FlatpakMetadata.

Inductive AccessMode := ReadOnly | ReadWrite.

#[export] Instance access_mode_eq_dec : EqDecision AccessMode.
Proof. solve_decision. Defined.

Definition is_read_only (m : AccessMode) : bool := bool_decide (m = ReadOnly).
Definition access_label (m : AccessMode) : string :=
  match m with ReadOnly => "read-only" | ReadWrite => "read-write" end.
Definition merge (m other : AccessMode) : AccessMode :=
  if bool_decide (m = ReadWrite) || bool_decide (other = ReadWrite) then ReadWrite else ReadOnly.

Record FilesystemPermission := mkPermission {
  original : string; fp_path : string; fp_access : AccessMode; create : bool }.

Definition parse_access_suffix (raw : string) : result (string * AccessMode * bool) :=
  match rsplit_once ":" raw with
  | None => Ok (raw, ReadWrite, false)
  | Some (path, suffix) =>
      if String.eqb suffix "ro" then Ok (path, ReadOnly, false)
      else if String.eqb suffix "rw" then Ok (path, ReadWrite, false)
      else if String.eqb suffix "create" then Ok (path, ReadWrite, true)
      else if contains "/" path then Ok (raw, ReadWrite, false)
      else bail (fmt ["unsupported filesystem permission suffix in "; raw])
  end.

Definition parse_permission (raw : string) : result FilesystemPermission :=
  if starts_with "!" raw then Ok (mkPermission raw raw ReadOnly false)
  else
    '(path, access, create) ← parse_access_suffix raw;
    Ok (mkPermission raw path access create).

Definition parse_filesystem_permissions (metadata : string) : result (list FilesystemPermission) :=
  match value metadata "Context" "filesystems" with
  | None => Ok []
  | Some v =>
      map_result parse_permission
        (List.filter (fun raw => negb (is_empty raw)) (map trim (split ";" v)))
  end.

(** The join of two accesses is write if one of them is. *)
Lemma merge_comm a b : merge a b = merge b a.
Proof. by destruct a, b. Qed.
Lemma merge_assoc a b c : merge a (merge b c) = merge (merge a b) c.
Proof. by destruct a, b, c. Qed.
Lemma merge_idem a : merge a a = a.
Proof. by destruct a. Qed.
Lemma merge_write a b : merge a b = ReadWrite <-> a = ReadWrite \/ b = ReadWrite.
Proof. destruct a, b; cbn; naive_solver. Qed.
