(* ===== verification/FileArguments.v ===== *)
(** * FileArguments: translating file arguments
    (src/src/sandbox/file_argument_translation.rs)

    Recognising file arguments and file URIs, percent-encoding, and the lexical
    normalisation of a path.  [HOME] and the current directory are arguments of
    the definitions that read them. *)
From Stdlib Require Import Ascii String NArith Lia ZifyBool ZifyN.
From stdpp Require Import base list strings sets.
From S2P Require Import Prelude RustStr RustPath.

(** ** Percent encoding *)

Definition hex_value (a : ascii) : option N :=
  let n := N_of_ascii a in
  if is_digit a then Some (n - 48)%N
  else if is_lower a && (n <=? 102)%N then Some (n - 97 + 10)%N
  else if is_upper a && (n <=? 70)%N then Some (n - 65 + 10)%N
  else None.

(** [(hi << 4) | lo] on bytes. *)
Definition byte_of_nibbles (hi lo : N) : ascii :=
  ascii_of_N (N.lor (N.shiftl hi 4) lo mod 256).

(** The bytes decoded, [None] at an invalid escape. *)
Fixpoint decode_bytes (s : string) : option string :=
  match s with
  | EmptyString => Some ""
  | String a r =>
      if Ascii.eqb a "%" then
        match r with
        | String h (String l r2) =>
            hi ← hex_value h; lo ← hex_value l;
            t ← decode_bytes r2; Some (String (byte_of_nibbles hi lo) t)
        | _ => None
        end
      else t ← decode_bytes r; Some (String a t)
  end.

Definition percent_decode (v : string) : result string :=
  decoded ← ok_or (fmt ["invalid percent escape in file URI: "; v]) (decode_bytes v);
  ok_or "file URI path is not valid UTF-8" (from_utf8 decoded).

Definition unreserved (a : ascii) : bool :=
  is_alnum a || bool_decide (a ∈ ["/"; "-"; "_"; "."; "~"]%char).

Fixpoint percent_encode_path (text : path) : string :=
  match text with
  | EmptyString => ""
  | String a r =>
      if unreserved a then String a (percent_encode_path r)
      else "%" +:+ hex2 (N_of_ascii a) +:+ percent_encode_path r
  end.

(** ** File URIs and path arguments *)

(** The text before a separator, or the fallback when there is none. *)
Definition before (c : ascii) (s fallback : string) : string :=
  match split_once c s with Some (h, _) => h | None => fallback end.

Definition local_file_uri_path (uri : string) : result path :=
  rest ← ok_or "file URI must start with file://" (strip_prefix "file://" uri);
  path_part ← match strip_prefix "localhost/" rest with
              | Some p => Ok ("/" +:+ p)
              | None => if starts_with "/" rest then Ok rest
                        else bail (fmt ["unsupported non-local file URI: "; uri])
              end;
  percent_decode (before "?" (before "#" path_part path_part) path_part).

Section Environment.
Context (home : option path) (current_dir : result path).

Definition host_path_from_arg (arg : string) : result path :=
  match strip_prefix "~/" arg with
  | Some rest =>
      home ← ok_or "HOME must be set to expand ~/ file argument" home;
      Ok (join_path home rest)
  | None =>
      if is_absolute arg then Ok arg
      else
        cwd ← with_context "determine current directory for relative file argument" current_dir;
        Ok (join_path cwd arg)
  end.

(** One component of the path being normalised; a [Prefix] component does not
    occur on Unix. *)
Definition push_component (normalized : path) (c : component) : path :=
  match c with
  | RootDir => join_path normalized "/"
  | Normal part => join_path normalized part
  | CurDir => normalized
  | ParentDir => if path_eqb normalized "/" then normalized else pop normalized
  end.

Definition normalize_absolute_path (p : path) : result path :=
  absolute ← (if is_absolute p then Ok p
              else cwd ← with_context "determine current directory for path normalization" current_dir;
                   Ok (join_path cwd p));
  let normalized := foldl push_component "" (components absolute) in
  Ok (if is_empty normalized then join_path normalized "/" else normalized).
End Environment.

Definition looks_like_path_arg (arg : string) : bool :=
  starts_with "/" arg || starts_with "./" arg || starts_with "../" arg || starts_with "~/" arg.

Definition internal_roots : list path :=
  ["/app"; "/bin"; "/dev"; "/etc"; "/lib"; "/lib64"; "/proc"; "/run"; "/sys"; "/tmp"; "/usr"; "/var"].
Definition is_sandbox_internal_path (p : path) : bool :=
  existsb (path_starts_with p) internal_roots.

Definition is_standalone_desktop_field_code (arg : string) : bool :=
  bool_decide (arg ∈ ["%f"; "%F"; "%u"; "%U"; "%i"; "%c"; "%k"; "%%"]).

(** ** Percent encoding round trips *)

Lemma hex_digit_value a :
  hex_value (hex_digit (N_of_ascii a / 16)) = Some (N_of_ascii a / 16)%N /\
  hex_value (hex_digit (N_of_ascii a mod 16)) = Some (N_of_ascii a mod 16)%N /\
  byte_of_nibbles (N_of_ascii a / 16) (N_of_ascii a mod 16) = a.
Proof. destruct a as [[] [] [] [] [] [] [] []]; vm_compute; done. Qed.

Lemma unreserved_spec a : unreserved a = true -> a <> "%"%char /\ a <> "#"%char /\ a <> "?"%char.
Proof. destruct a as [[] [] [] [] [] [] [] []]; vm_compute; done. Qed.

Lemma hex_digit_plain n c : c ∈ ["%"; "#"; "?"]%char -> Ascii.eqb (hex_digit (n mod 16)) c = false.
Proof.
  intros Hc. assert (n mod 16 < 16)%N as Hn by (apply N.mod_lt; done).
  revert Hn. generalize (n mod 16)%N. intros m Hm.
  assert (m ∈ map N.of_nat (seq 0 16)) as Hin.
  { apply list_elem_of_In, in_map_iff. exists (N.to_nat m). split; [lia|]. apply in_seq. lia. }
  cbn in Hin. rewrite !elem_of_cons in *.
  repeat destruct Hin as [->|Hin]; try (by apply not_elem_of_nil in Hin);
    repeat destruct Hc as [->|Hc]; try (by apply not_elem_of_nil in Hc); done.
Qed.

Lemma decode_encode s : decode_bytes (percent_encode_path s) = Some s.
Proof.
  induction s as [|a s IH]; [done|]. cbn [percent_encode_path].
  destruct (unreserved a) eqn:E.
  - apply unreserved_spec in E as (E & _). cbn [decode_bytes].
    destruct (Ascii.eqb_spec a "%"); [done|]. by rewrite IH.
  - unfold hex2. cbn [append decode_bytes]. rewrite Ascii.eqb_refl.
    destruct (hex_digit_value a) as (-> & -> & H). cbn. rewrite IH. cbn. by rewrite H.
Qed.

(** The encoding of a path holds no query or fragment separator. *)
Lemma encode_plain c s : c = "#"%char \/ c = "?"%char -> has c (percent_encode_path s) = false.
Proof.
  intros Hc. induction s as [|a s IH]; [done|]. cbn [percent_encode_path].
  destruct (unreserved a) eqn:E.
  - apply unreserved_spec in E as (_ & E1 & E2). cbn [has]. rewrite IH, orb_false_r.
    apply Ascii.eqb_neq. destruct Hc; congruence.
  - unfold hex2. cbn [append has]. rewrite IH.
    assert (N_of_ascii a / 16 = (N_of_ascii a / 16) mod 16)%N as ->.
    { symmetry. apply N.mod_small. apply N.Div0.div_lt_upper_bound. pose proof (N_ascii_bounded a). lia. }
    rewrite !hex_digit_plain by (destruct Hc as [->| ->]; set_solver).
    destruct Hc as [->| ->]; done.
Qed.

Lemma before_none c s f : has c s = false -> before c s f = f.
Proof. unfold before. by intros ->%split_once_None. Qed.

(** ** Lexical normalisation *)

(** The names left of a path when its dot-dots are resolved. *)
Definition reduce (acc : list string) (c : component) : list string :=
  match c with
  | RootDir => []
  | Normal s => acc ++ [s]
  | CurDir => acc
  | ParentDir => removelast acc
  end.

Definition resolved (p : path) (acc : list string) : Prop :=
  is_absolute p = true /\ components p = RootDir :: map Normal acc.

Lemma push_component_resolved p acc c :
  resolved p acc -> (forall s, c = Normal s -> name_ok s) ->
  resolved (push_component p c) (reduce acc c).
Proof.
  intros [Ha Hc] Hn. pose proof (absolute_nonempty _ Ha) as Hne. destruct c as [| | |s]; cbn.
  - done.
  - done.
  - destruct (path_eqb p "/") eqn:E.
    + apply path_eqb_true in E. rewrite Hc in E. cbn in E. injection E as E.
      by destruct acc.
    + destruct acc as [|x acc _] using rev_ind.
      { apply not_true_iff_false in E. destruct E. by apply path_eqb_true. }
      rewrite map_app in Hc. cbn in Hc. rewrite removelast_last.
      destruct (parent_components _ _ _ Ha Hc) as (q & Hq & Hqa & Hqc).
      unfold pop. rewrite Hq. done.
  - specialize (Hn s eq_refl). split.
    + by rewrite is_absolute_join by (auto using name_relative).
    + rewrite components_join_name by done. rewrite Hc, map_app. done.
Qed.

Lemma push_components_resolved p acc cs :
  resolved p acc -> (forall s, Normal s ∈ cs -> name_ok s) ->
  resolved (foldl push_component p cs) (foldl reduce acc cs).
Proof.
  revert p acc. induction cs as [|c cs IH]; intros p acc R Hn; [done|]. cbn.
  apply IH; [|intros; apply Hn; by right].
  apply push_component_resolved; [done|]. intros s ->. apply Hn. left.
Qed.

Lemma normalize_absolute cwd p :
  is_absolute p = true ->
  exists q, normalize_absolute_path cwd p = Ok q /\ resolved q (foldl reduce [] (components p)).
Proof.
  intros Ha. unfold normalize_absolute_path. rewrite Ha. cbn [mbind result_bind].
  assert (resolved (foldl push_component "" (components p)) (foldl reduce [] (components p))) as R.
  { rewrite components_absolute by done. cbn [foldl push_component reduce].
    apply push_components_resolved; [done|]. intros s Hs.
    apply (components_names p). rewrite components_absolute by done. by right. }
  eexists. split; [reflexivity|]. destruct R as [R1 R2].
  destruct (is_empty _) eqn:E; [|done]. apply is_empty_true in E. by rewrite E in R1.
Qed.

Lemma reduce_normals acc l : foldl reduce acc (map Normal l) = acc ++ l.
Proof.
  revert acc. induction l as [|s l IH]; intros acc; cbn; [by rewrite app_nil_r|].
  by rewrite IH, <- app_assoc.
Qed.

(** The URI built from an absolute path by percent-encoding is read back
    as that path. *)
Theorem file_uri_roundtrip (p : path) :
  is_absolute p = true -> valid_utf8 p = true ->
  local_file_uri_path ("file://" +:+ percent_encode_path p) = Ok p.
Proof.
  intros Ha Hv. unfold local_file_uri_path. rewrite strip_prefix_app. cbn [mbind result_bind ok_or].
  apply starts_with_true in Ha as [r Hr].
  assert (percent_encode_path p = String "/" (percent_encode_path r)) as E by (by subst p).
  replace (strip_prefix "localhost/" (percent_encode_path p)) with (@None string) by (by rewrite E).
  replace (starts_with "/" (percent_encode_path p)) with true by (by rewrite E).
  cbn [mbind result_bind].
  rewrite (before_none "#") by (apply encode_plain; auto).
  rewrite before_none by (apply encode_plain; auto).
  unfold percent_decode. rewrite decode_encode. cbn. unfold from_utf8. by rewrite Hv.
Qed.

Lemma file_uri_roundtrip_witness :
  local_file_uri_path "file:///home/user/a%20b%23c" = Ok "/home/user/a b#c".
Proof. exact (file_uri_roundtrip "/home/user/a b#c" eq_refl eq_refl). Defined.

(** Normalising an absolute path gives an absolute path whose components
    are the root and the names left when the dot-dots are resolved lexically,
    and normalising that path again changes no component. *)
Theorem normalize_resolves cwd (p : path) :
  is_absolute p = true ->
  exists q names,
    normalize_absolute_path cwd p = Ok q /\
    names = foldl reduce [] (components p) /\
    is_absolute q = true /\ components q = RootDir :: map Normal names /\
    exists q', normalize_absolute_path cwd q = Ok q' /\ components q' = components q.
Proof.
  intros Ha. destruct (normalize_absolute cwd p Ha) as (q & Hq & Hqa & Hqc).
  exists q, (foldl reduce [] (components p)). split_and!; [done..|].
  destruct (normalize_absolute cwd q Hqa) as (q' & Hq' & _ & Hc').
  exists q'. split; [done|]. rewrite Hc', Hqc. cbn [foldl reduce]. by rewrite reduce_normals.
Qed.

Lemma normalize_resolves_witness :
  exists q names,
    normalize_absolute_path (Err []) "/home/user/../x/./y/" = Ok q /\
    names = foldl reduce [] (components "/home/user/../x/./y/") /\
    is_absolute q = true /\ components q = RootDir :: map Normal names /\
    exists q', normalize_absolute_path (Err []) q = Ok q' /\ components q' = components q.
Proof. exact (normalize_resolves (Err []) "/home/user/../x/./y/" eq_refl). Defined.

(** A fragment is removed from a file URI only when the URI also has a
    query: without one, the path keeps the separator and the fragment. *)
Theorem fragment_without_query_is_kept (p f : string) :
  has "#" p = false -> has "?" p = false ->
  local_file_uri_path ("file:///" +:+ p +:+ String "#" f) = percent_decode ("/" +:+ p +:+ String "#" f) /\
  (forall q, local_file_uri_path ("file:///" +:+ p +:+ String "?" (q +:+ String "#" f)) =
             percent_decode ("/" +:+ p)).
Proof.
  intros H1 H2. unfold local_file_uri_path. split; [|intros q].
  - change ("file:///" +:+ ?x) with ("file://" +:+ ("/" +:+ x)). rewrite strip_prefix_app.
    cbn [mbind result_bind ok_or].
    replace (strip_prefix "localhost/" _) with (@None string) by done.
    rewrite starts_with_app. cbn [mbind result_bind]. unfold before at 2.
    rewrite (proj2 (split_once_Some "#" _ ("/" +:+ p) f)).
    + by rewrite before_none by (rewrite has_app; by rewrite H2).
    + split; [by rewrite sapp_assoc|]. rewrite has_app. by rewrite H1.
  - change ("file:///" +:+ ?x) with ("file://" +:+ ("/" +:+ x)). rewrite strip_prefix_app.
    cbn [mbind result_bind ok_or].
    replace (strip_prefix "localhost/" _) with (@None string) by done.
    rewrite starts_with_app. cbn [mbind result_bind].
    set (s := "/" +:+ p +:+ _).
    assert (exists h, before "#" s s = "/" +:+ p +:+ String "?" h) as [h ->].
    { unfold before. destruct (has "#" q) eqn:Hq.
      - destruct (split_once "#" q) as [[a b]|] eqn:Es; [|apply split_once_None in Es; congruence].
        apply split_once_Some in Es as [-> Ha]. exists a.
        rewrite (proj2 (split_once_Some "#" s ("/" +:+ p +:+ String "?" a) (b +:+ String "#" f))); [done|].
        split; [unfold s; by str_norm|]. rewrite !has_app, H1. cbn. by rewrite Ha.
      - exists q. rewrite (proj2 (split_once_Some "#" s ("/" +:+ p +:+ String "?" q) f)); [done|].
        split; [unfold s; by str_norm|]. rewrite !has_app, H1. cbn. by rewrite Hq. }
    unfold before. rewrite (proj2 (split_once_Some "?" _ ("/" +:+ p) h)); [done|].
    split; [by rewrite sapp_assoc|]. rewrite has_app. by rewrite H2.
Qed.

Lemma fragment_without_query_is_kept_witness :
  local_file_uri_path "file:///doc.html#top" = Ok "/doc.html#top".
Proof.
  etransitivity; [exact (proj1 (fragment_without_query_is_kept "doc.html" "top" eq_refl eq_refl))|].
  reflexivity.
Defined.
