(* ===== verification/FilesystemGrants.v ===== *)
(** * FilesystemGrants: host paths an application may see
    (src/src/sandbox/filesystem_grants.rs)

    The metadata's filesystem permissions are turned into grants, each a host
    directory mounted at a sandbox path.  A grant whose mount would contain its
    own target is expanded into its children; nested host mounts below a grant
    become grants of their own.  The resulting [HostFilesystem] translates file
    arguments into the sandbox.

    The fields of the code's [GrantBuilder] that never change after it is built
    are [GrantConfig]; those that do, with the host's file system, are
    [GrantState]. *)
From Stdlib Require Import Ascii String Sorting.Sorted Permutation Lia.
From stdpp Require Import base list strings sets sorting.
From S2P Require Import Prelude Collections RustStr RustPath FlatpakMetadata FilesystemPermissions FileArguments HostFs.

Record HostPathGrant := mkGrant {
  label : string;
  source_permission : string;
  host_path : path;
  canonical_host_path : path;
  sandbox_path : path;
  access : AccessMode;
}.

(** ** XDG user directories *)

Record XdgUserDirs := mkXdg {
  desktop : path; documents : path; download : path; music : path;
  pictures : path; public_share : path; templates : path; videos : path;
  config_file : option path;
}.

Definition xdg_defaults (home : path) : XdgUserDirs := {|
  desktop := join_path home "Desktop";
  documents := join_path home "Documents";
  download := join_path home "Downloads";
  music := join_path home "Music";
  pictures := join_path home "Pictures";
  public_share := join_path home "Public";
  templates := join_path home "Templates";
  videos := join_path home "Videos";
  config_file := None;
|}.

Fixpoint unescape_from (escaped : bool) (s : string) : string :=
  match s with
  | EmptyString => if escaped then "\" else ""
  | String a r =>
      if escaped then String a (unescape_from false r)
      else if Ascii.eqb a "\" then unescape_from true r
      else String a (unescape_from false r)
  end.
Definition unescape_xdg_value (v : string) : string := unescape_from false v.

Definition dquote : string := String "034" "".

Definition parse_xdg_user_dir_value (v : string) (home : path) : option path :=
  let unquoted := default v (r ← strip_prefix dquote v; strip_suffix dquote r) in
  let unescaped := unescape_xdg_value unquoted in
  match strip_prefix "$HOME/" unescaped with
  | Some rest => Some (join_path home rest)
  | None =>
      if String.eqb unescaped "$HOME" then Some home
      else match strip_prefix "${HOME}/" unescaped with
           | Some rest => Some (join_path home rest)
           | None =>
               if String.eqb unescaped "${HOME}" then Some home
               else if is_absolute unescaped then Some unescaped else None
           end
  end.

(** The assignment a key of [user-dirs.dirs] selects. *)
Definition set_xdg_dir (key : string) (p : path) (d : XdgUserDirs) : XdgUserDirs :=
  let 'mkXdg a b c e f g h i j := d in
  if String.eqb key "XDG_DESKTOP_DIR" then mkXdg p b c e f g h i j
  else if String.eqb key "XDG_DOCUMENTS_DIR" then mkXdg a p c e f g h i j
  else if String.eqb key "XDG_DOWNLOAD_DIR" then mkXdg a b p e f g h i j
  else if String.eqb key "XDG_MUSIC_DIR" then mkXdg a b c p f g h i j
  else if String.eqb key "XDG_PICTURES_DIR" then mkXdg a b c e p g h i j
  else if String.eqb key "XDG_PUBLICSHARE_DIR" then mkXdg a b c e f p h i j
  else if String.eqb key "XDG_TEMPLATES_DIR" then mkXdg a b c e f g p i j
  else if String.eqb key "XDG_VIDEOS_DIR" then mkXdg a b c e f g h p j
  else d.

Definition load_line (home : path) (d : XdgUserDirs) (l : string) : XdgUserDirs :=
  let line := trim l in
  if is_empty line || starts_with "#" line then d
  else match split_once "=" line with
       | None => d
       | Some (key, raw_value) =>
           match parse_xdg_user_dir_value (trim raw_value) home with
           | None => d
           | Some p => set_xdg_dir (trim key) p d
           end
       end.

Definition xdg_get (d : XdgUserDirs) (name : string) : option path :=
  if String.eqb name "xdg-desktop" then Some (desktop d)
  else if String.eqb name "xdg-documents" then Some (documents d)
  else if String.eqb name "xdg-download" then Some (download d)
  else if String.eqb name "xdg-music" then Some (music d)
  else if String.eqb name "xdg-pictures" then Some (pictures d)
  else if String.eqb name "xdg-public-share" then Some (public_share d)
  else if String.eqb name "xdg-templates" then Some (templates d)
  else if String.eqb name "xdg-videos" then Some (videos d)
  else None.

Definition xdg_candidates (d : XdgUserDirs) : list (string * path) :=
  [("xdg-desktop", desktop d); ("xdg-documents", documents d); ("xdg-download", download d);
   ("xdg-music", music d); ("xdg-pictures", pictures d); ("xdg-public-share", public_share d);
   ("xdg-templates", templates d); ("xdg-videos", videos d)].

Definition xdg_entries : list (string * string) :=
  [("xdg-desktop", "XDG_DESKTOP_DIR"); ("xdg-download", "XDG_DOWNLOAD_DIR");
   ("xdg-templates", "XDG_TEMPLATES_DIR"); ("xdg-public-share", "XDG_PUBLICSHARE_DIR");
   ("xdg-documents", "XDG_DOCUMENTS_DIR"); ("xdg-music", "XDG_MUSIC_DIR");
   ("xdg-pictures", "XDG_PICTURES_DIR"); ("xdg-videos", "XDG_VIDEOS_DIR")].

(** ** Paths *)

Definition push_suffix (suffix : string) (p : path) (c : component) : result path :=
  match c with
  | Normal part => Ok (join_path p part)
  | CurDir => Ok p
  | _ => bail (fmt ["invalid filesystem permission subpath: "; suffix])
  end.

Definition append_permission_suffix (base : path) (suffix : option string) : result path :=
  match suffix with
  | None => Ok base
  | Some suffix => fold_result (push_suffix suffix) (components suffix) base
  end.

Definition push_relative (p : path) (relative : path) (c : component) : result path :=
  match c with
  | RootDir | CurDir => Ok relative
  | Normal part => Ok (join_path relative part)
  | _ => bail (fmt ["invalid sandbox path: "; p])
  end.

Definition absolute_to_chroot_relative (p : path) : result path :=
  if negb (is_absolute p) then bail (fmt ["sandbox path must be absolute: "; p])
  else
    relative ← fold_result (push_relative p) (components p) "";
    if is_empty relative then bail "refusing to use sandbox root as a mount target"
    else Ok relative.

Definition path_overlaps (l r : path) : bool := path_starts_with l r || path_starts_with r l.

Definition clean_absolute_path (p : path) : bool := is_absolute p && forallb rooted (components p).

(** The order of paths by depth and then by components. *)
Definition depth_key (p : path) : nat * list component := (depth p, components p).

Definition authorized_grant_paths (roots mount_points : list path) : list path :=
  let paths := roots ++
    List.filter (fun m => clean_absolute_path m &&
      existsb (fun root => negb (path_eqb m root) && path_starts_with m root) roots) mount_points in
  dedup path_eqb (sort_by (on depth_key) paths).

(** ** Grants *)

Definition map_with (g : HostPathGrant) (suffix : path) : path :=
  if is_empty suffix then sandbox_path g else join_path (sandbox_path g) suffix.

Definition grant_map_host_path (g : HostPathGrant) (p : path) : option path :=
  match strip_path_prefix p (host_path g) with
  | Some suffix => Some (map_with g suffix)
  | None => map_with g <$> strip_path_prefix p (canonical_host_path g)
  end.

Definition same_mount (g : HostPathGrant) (host sandbox : path) : bool :=
  (path_eqb (host_path g) host || path_eqb (canonical_host_path g) host)
  && path_eqb (sandbox_path g) sandbox.

Definition sandbox_target_relative (g : HostPathGrant) : result path :=
  absolute_to_chroot_relative (sandbox_path g).

Definition merge_access (a : AccessMode) (g : HostPathGrant) : HostPathGrant :=
  mkGrant (label g) (source_permission g) (host_path g) (canonical_host_path g)
    (sandbox_path g) (merge (access g) a).

(** [iter_mut().find(f)] and an update of what it finds; [None] if it finds
    nothing. *)
Fixpoint update_first {A} (f : A -> bool) (u : A -> A) (l : list A) : option (list A) :=
  match l with
  | [] => None
  | x :: r => if f x then Some (u x :: r) else cons x <$> update_first f u r
  end.

Record GrantConfig := mkConfig {
  mount_points : list path;
  home : path;
  sandbox_home : path;
  project_root : path;
  sandbox_root : path;
  xdg_dirs : XdgUserDirs;
  xdg_data_home : path;
}.

Section Builder.
Context {S : Type} `{HostFs S}.

Record GrantState := mkState {
  host : S;
  grants : list HostPathGrant;
  warnings : list string;
}.

Definition warn (msg : string) (st : GrantState) : GrantState :=
  mkState (host st) (grants st) (warnings st ++ [msg]).
Definition set_grants (gs : list HostPathGrant) (st : GrantState) : GrantState :=
  mkState (host st) gs (warnings st).
Definition set_host (s : S) (st : GrantState) : GrantState :=
  mkState s (grants st) (warnings st).

(** [HostPathGrant::new]. *)
Definition new_grant (s : S) (label source_permission : string) (hp sp : path) (a : AccessMode)
  : result HostPathGrant :=
  if negb (is_absolute hp) then bail (fmt ["host filesystem grant must be absolute: "; hp])
  else if negb (is_absolute sp) then bail (fmt ["sandbox filesystem grant must be absolute: "; sp])
  else Ok (mkGrant label source_permission hp (canonical_or s hp) sp a).

Definition label_for_host_path (s : S) (d : XdgUserDirs) (p : path) : option string :=
  fst <$> List.find (fun c => path_eqb (canonical_or s c.2) p) (xdg_candidates d).

Definition load_from_config_home (s : S) (home config_home : path) : XdgUserDirs :=
  let user_dirs := join_path config_home "user-dirs.dirs" in
  match read_to_string s user_dirs with
  | inr _ => xdg_defaults home
  | inl data =>
      let 'mkXdg a b c e f g h i _ := xdg_defaults home in
      foldl (load_line home) (mkXdg a b c e f g h i (Some user_dirs)) (lines data)
  end.

Section Config.
Context (cfg : GrantConfig).

Definition add_grant (st : GrantState) (l source : string) (hp sp : path) (a : AccessMode)
  : result GrantState :=
  let l := default l (label_for_host_path (host st) (xdg_dirs cfg) hp) in
  match update_first (fun g => same_mount g hp sp) (merge_access a) (grants st) with
  | Some gs => Ok (set_grants gs st)
  | None =>
      g ← new_grant (host st) l source hp sp a;
      Ok (set_grants (grants st ++ [g]) st)
  end.

(** [entries.sort_by_key(file_name)], after the errors of the iteration. *)
Definition sorted_entries (s : S) (p : path) : result (list DirEntry) :=
  entries ← io_context (fmt ["read host directory "; p]) (read_dir s p);
  entries ← map_result (fun e => match e with inl e => Ok e | inr e => Err [ioe_message e] end) entries;
  Ok (sort_by (on file_name) entries).

(** [add_grant_or_expand] and [expand_directory_children] call each other; a
    call below depth 8 can only reach depth 8, so the fuel of
    [add_grant_or_expand] below is never used up. *)
Fixpoint add_or_expand (fuel : nat) (permission : FilesystemPermission) (l : string)
    (hp sp : path) (create : bool) (depth : nat) (st : GrantState) : result GrantState :=
  match fuel with
  | 0 => bail "unreachable"
  | Datatypes.S fuel =>
      if Nat.eqb depth 0 then
        fold_result (fun st granted =>
            suffix ← ok_or (fmt ["map subordinate mount "; granted; " below grant "; hp])
                       (strip_path_prefix granted hp);
            add_or_expand fuel permission l granted
              (if is_empty suffix then sp else join_path sp suffix)
              (create && is_empty suffix) 1 st)
          (authorized_grant_paths [hp] (mount_points cfg)) st
      else
        st ← (if create && negb (path_exists (host st) hp)
              then s ← io_context (fmt ["create host directory "; hp]) (create_dir_all (host st) hp);
                   Ok (set_host s st)
              else Ok st);
        match canonicalize (host st) hp with
        | inr _ => Ok (warn (fmt ["skipping missing host path for "; original permission; ": "; hp]) st)
        | inl hp =>
            if negb (is_dir (host st) hp) then
              Ok (warn (fmt ["skipping non-directory host path for "; original permission; ": "; hp]) st)
            else if path_starts_with hp (project_root cfg) then
              Ok (warn (fmt ["skipping project directory for "; original permission;
                             " to avoid recursive nullfs mount: "; hp]) st)
            else
              relative ← absolute_to_chroot_relative sp;
              let chroot_target := join_path (sandbox_root cfg) relative in
              if path_overlaps hp chroot_target then
                if (8 <=? depth)%nat then
                  Ok (warn (fmt ["skipping deeply recursive host path for "; original permission; ": "; hp]) st)
                else
                  (* expand_directory_children *)
                  let st := warn (fmt ["expanding "; original permission;
                    " into child directory mounts to avoid recursive nullfs mount: "; hp]) st in
                  entries ← sorted_entries (host st) hp;
                  fold_result (fun st entry =>
                      d ← io_context (fmt ["stat "; join_path hp (file_name entry)]) (entry_is_dir entry);
                      if negb d then Ok st
                      else add_or_expand fuel permission l (join_path hp (file_name entry))
                             (join_path sp (file_name entry)) false (Datatypes.S depth) st)
                    entries st
              else add_grant st l (original permission) hp sp (fp_access permission)
        end
  end.

Definition FUEL : nat := 10.
Definition add_grant_or_expand (st : GrantState) (permission : FilesystemPermission) (l : string)
    (hp sp : path) (create : bool) : result GrantState :=
  add_or_expand FUEL permission l hp sp create 0 st.

Definition host_roots : list path := ["/home"; "/media"; "/mnt"; "/opt"; "/run/media"; "/srv"].

Definition add_host_grants (st : GrantState) (permission : FilesystemPermission) : result GrantState :=
  fold_result (fun st p =>
      if is_dir (host st) p
      then add_grant_or_expand st permission "host" p p (create permission)
      else Ok st)
    host_roots st.

Definition xdg_names : list string :=
  ["xdg-desktop"; "xdg-documents"; "xdg-download"; "xdg-music"; "xdg-pictures";
   "xdg-public-share"; "xdg-templates"; "xdg-videos"].

Definition apply_permission (st : GrantState) (permission : FilesystemPermission) : result GrantState :=
  let '(base, suffix) :=
    match split_once "/" (fp_path permission) with
    | Some (base, suffix) => (base, Some suffix)
    | None => (fp_path permission, None)
    end in
  if starts_with "!" base then Ok st
  else if String.eqb base "host" && bool_decide (suffix = None) then add_host_grants st permission
  else if String.eqb base "home" || String.eqb base "~" then
    hp ← append_permission_suffix (home cfg) suffix;
    sp ← append_permission_suffix (sandbox_home cfg) suffix;
    add_grant_or_expand st permission "home" hp sp (create permission)
  else if bool_decide (base ∈ xdg_names) then
    match xdg_get (xdg_dirs cfg) base with
    | None => Ok (warn (fmt ["unsupported XDG filesystem permission: "; base]) st)
    | Some host_base =>
        if path_eqb host_base (home cfg)
        then Ok (warn (fmt ["disabled XDG filesystem permission: "; base]) st)
        else
          hp ← append_permission_suffix host_base suffix;
          add_grant_or_expand st permission base hp hp (create permission)
    end
  else if String.eqb base "xdg-data" then
    if bool_decide (suffix = Some "flatpak/app") then Ok st
    else
      hp ← append_permission_suffix (xdg_data_home cfg) suffix;
      add_grant_or_expand st permission "xdg-data" hp hp (create permission)
  else Ok (warn (fmt ["skipping unsupported filesystem permission "; original permission]) st).
End Config.

Definition grant_key (g : HostPathGrant) : nat * list component * list component :=
  (depth (sandbox_path g), components (sandbox_path g), components (host_path g)).
Definition sort_grants (gs : list HostPathGrant) : list HostPathGrant :=
  sort_by (on grant_key) gs.

Record HostFilesystem := mkHostFilesystem {
  hf_permissions : list FilesystemPermission;
  hf_grants : list HostPathGrant;
  hf_warnings : list string;
  hf_sandbox_home : path;
  hf_xdg_dirs : XdgUserDirs;
}.

(** [from_metadata_with_xdg_dirs_and_data_home]: the file system it leaves
    behind, with what it returns. *)
Definition from_metadata (s : S) (metadata user : string) (home project_root sandbox_root : path)
    (mount_points : list path) (xdg : XdgUserDirs) (xdg_data_home : path)
  : result (S * HostFilesystem) :=
  permissions ← parse_filesystem_permissions metadata;
  let sandbox_home := join_path "/home" user in
  let cfg := mkConfig mount_points home sandbox_home (canonical_or s project_root) sandbox_root
               xdg xdg_data_home in
  st ← fold_result (apply_permission cfg) permissions (mkState s [] []);
  Ok (host st, mkHostFilesystem permissions (sort_grants (grants st)) (warnings st) sandbox_home xdg).

(** [from_metadata_for_user] with the environment variables it reads. *)
Definition from_metadata_for_user (s : S) (HOME XDG_DATA_HOME XDG_CONFIG_HOME : option path)
    (host_mount_points : list path) (metadata user : string) (project_root sandbox_root : path)
  : result (S * HostFilesystem) :=
  home ← ok_or "HOME must be set to derive Flatpak filesystem grants" HOME;
  let xdg_data_home :=
    match XDG_DATA_HOME with
    | Some v => if is_empty v then join_path home ".local/share" else v
    | None => join_path home ".local/share"
    end in
  let config_home := default (join_path home ".config") XDG_CONFIG_HOME in
  from_metadata s metadata user home project_root sandbox_root host_mount_points
    (load_from_config_home s home config_home) xdg_data_home.

(** ** Translating arguments *)

(** The first of the deepest mapped paths. *)
Fixpoint best_match (gs : list HostPathGrant) (p : path) (best : option path) : option path :=
  match gs with
  | [] => best
  | g :: r =>
      let best' :=
        match grant_map_host_path g p with
        | None => best
        | Some mapped =>
            match best with
            | Some current => if (depth current <? depth mapped)%nat then Some mapped else best
            | None => Some mapped
            end
        end in
      best_match r p best'
  end.

Section Translate.
Context (HOME : option path) (current_dir : result path) (hf : HostFilesystem).

Definition hf_map_host_path (p : path) : result (option path) :=
  normalized ← normalize_absolute_path current_dir p;
  Ok (best_match (hf_grants hf) normalized None).

Definition translate_file_uri (arg : string) : result string :=
  hp ← local_file_uri_path arg;
  if is_sandbox_internal_path hp then Ok arg
  else
    m ← hf_map_host_path hp;
    Ok (match m with Some sp => "file://" +:+ percent_encode_path sp | None => arg end).

Definition translate_path_arg (arg : string) : result string :=
  hp ← host_path_from_arg HOME current_dir arg;
  if is_sandbox_internal_path hp then Ok arg
  else
    m ← hf_map_host_path hp;
    Ok (default arg m).

Definition translate_arg (arg : string) : result (list string) :=
  if is_standalone_desktop_field_code arg then Ok []
  else if starts_with "file://" arg then t ← translate_file_uri arg; Ok [t]
  else if looks_like_path_arg arg then t ← translate_path_arg arg; Ok [t]
  else Ok [arg].

Definition translate_args (args : list string) : result (list string) :=
  ts ← map_result translate_arg args; Ok (concat ts).
End Translate.

Definition sandbox_home_env (hf : HostFilesystem) (fallback : string) : string :=
  if existsb (fun g => starts_with "xdg-" (label g)
       || (path_starts_with (sandbox_path g) (hf_sandbox_home hf)
           && (String.eqb (label g) "home" || String.eqb (source_permission g) "host")))
       (hf_grants hf)
  then hf_sandbox_home hf else fallback.

Definition sandbox_dir_for_xdg_label (s : S) (hf : HostFilesystem) (l : string) : option path :=
  hp ← xdg_get (hf_xdg_dirs hf) l;
  let canonical := canonical_or s hp in
  let mapped := omap (fun g =>
    (fun sp => (depth (host_path g), sp)) <$>
      match grant_map_host_path g hp with
      | Some sp => Some sp
      | None => grant_map_host_path g canonical
      end) (hf_grants hf) in
  snd <$> max_by_key fst mapped None.

Definition user_dir_env (s : S) (hf : HostFilesystem) : list (string * string) :=
  omap (fun e => (fun p => (e.2, p)) <$> sandbox_dir_for_xdg_label s hf e.1) xdg_entries.
End Builder.
Arguments mkState {S} _ _ _.
Arguments host {S} _.
Arguments grants {S} _.
Arguments warnings {S} _.

(** ** Lemmas: paths of permissions and targets *)

Lemma push_suffix_inv suffix b p c q :
  is_absolute b = true -> (forall s, c = Normal s -> name_ok s) ->
  is_absolute p = true /\ path_starts_with p b = true ->
  push_suffix suffix p c = Ok q ->
  is_absolute q = true /\ path_starts_with q b = true /\
  components q = components p ++ (if normal c then [c] else []).
Proof.
  intros Hb Hn [Ha Hs] H. destruct c as [| | |s]; cbn in H; inv_ok; subst q.
  - cbn. by rewrite app_nil_r.
  - specialize (Hn s eq_refl). pose proof (absolute_nonempty _ Ha) as Hne.
    rewrite is_absolute_join by (auto using name_relative). split_and!; [done| |].
    + eapply path_starts_with_trans; [|exact Hs]. apply path_starts_with_join; auto using name_relative.
    + by apply components_join_name.
Qed.

Lemma fold_push_suffix suffix b cs p q :
  is_absolute b = true -> (forall s, Normal s ∈ cs -> name_ok s) ->
  is_absolute p = true -> path_starts_with p b = true ->
  fold_result (push_suffix suffix) cs p = Ok q ->
  is_absolute q = true /\ path_starts_with q b = true /\
  components q = components p ++ List.filter normal cs /\
  Forall (fun c => c = CurDir \/ normal c = true) cs.
Proof.
  intros Hb. revert p. induction cs as [|c cs IH]; cbn; intros p Hn Ha Hs H; inv_ok.
  - subst q. by rewrite app_nil_r.
  - assert (c = CurDir \/ normal c = true) as Hc by (destruct c; cbn in Hr; inv_ok; auto).
    apply (push_suffix_inv suffix b) in Hr as (Ha' & Hs' & E); [|done| |done].
    2:{ intros s ->. apply Hn. left. }
    destruct (IH r) as (? & ? & E2 & ?); [|done..|].
    { intros s Hin. apply Hn. by right. }
    split_and!; [done|done| |by constructor].
    rewrite E2, E, <- app_assoc. f_equal. by destruct (normal c).
Qed.

Lemma push_relative_inv p r c q :
  (forall s, c = Normal s -> name_ok s) ->
  is_absolute r = false -> push_relative p r c = Ok q ->
  is_absolute q = false /\
  body (split "/" q) = body (split "/" r) ++ (if normal c then [c] else []).
Proof.
  intros Hn Hr H. destruct c as [| | |s]; cbn in H; inv_ok; subst q; cbn [normal];
    rewrite ?app_nil_r; [by split..|].
  specialize (Hn s eq_refl). pose proof (name_relative _ Hn) as Hs.
  destruct (string_nil_dec r) as [->|Hne].
  - unfold join_path. rewrite Hs. cbn [is_empty orb append].
    split; [done|]. by rewrite body_name.
  - split.
    + by rewrite is_absolute_join.
    + unfold join_path. rewrite Hs. replace (is_empty r) with false by (by destruct r).
      cbn [orb]. destruct (ends_with "/" r) eqn:E.
      * apply trim_slash in E as [r' ->].
        replace ((r' +:+ "/") +:+ s) with (r' +:+ String "/" s) by (by str_norm).
        rewrite split_app_sep, body_app, (body_name s) by done.
        replace (r' +:+ "/") with (r' +:+ String "/" "") by done.
        rewrite split_app_sep, body_app. cbn. by rewrite app_nil_r.
      * change ("/" +:+ s) with (String "/" s).
        by rewrite split_app_sep, body_app, (body_name s).
Qed.

Lemma fold_push_relative p cs r q :
  (forall s, Normal s ∈ cs -> name_ok s) ->
  is_absolute r = false -> fold_result (push_relative p) cs r = Ok q ->
  is_absolute q = false /\ body (split "/" q) = body (split "/" r) ++ List.filter normal cs /\
  ParentDir ∉ cs.
Proof.
  revert r. induction cs as [|c cs IH]; cbn; intros r Hn Ha H; inv_ok.
  - subst q. rewrite app_nil_r. split_and!; [done..|apply not_elem_of_nil].
  - assert (c <> ParentDir) as Hc by (by intros ->).
    apply push_relative_inv in Hr as (Ha' & E); [|intros s ->; apply Hn; left|done].
    destruct (IH r0) as (? & E2 & ?); [|done..|].
    { intros s Hin. apply Hn. by right. }
    split_and!; [done| |].
    + rewrite E2, E, <- app_assoc. f_equal. by destruct (normal c).
    + rewrite not_elem_of_cons. done.
Qed.

Lemma push_suffix_ok suffix c : (exists p q, push_suffix suffix p c = Ok q) -> c = CurDir \/ normal c = true.
Proof. intros (p & q & H). destruct c; cbn in H; inv_ok; auto. Qed.

Lemma fold_push_suffix_ok suffix cs p :
  Forall (fun c => c = CurDir \/ normal c = true) cs ->
  exists q, fold_result (push_suffix suffix) cs p = Ok q.
Proof.
  intros F. revert p. induction F as [|c cs Hc F IH]; intros p; cbn; [eauto|].
  destruct Hc as [->|Hc]; [apply IH|]. destruct c; try done. apply IH.
Qed.

Lemma append_suffix_spec base suffix q :
  is_absolute base = true ->
  append_permission_suffix base suffix = Ok q ->
  is_absolute q = true /\ path_starts_with q base = true /\
  components q = components base ++ match suffix with
                                    | Some s => List.filter normal (components s)
                                    | None => []
                                    end.
Proof.
  intros Ha H. destruct suffix as [s|]; cbn in H.
  - edestruct fold_push_suffix as (? & ? & E & _); [exact Ha| |exact Ha|apply path_starts_with_refl|exact H|done].
    intros ?. apply components_names.
  - inv_ok. subst q. rewrite app_nil_r. auto using path_starts_with_refl.
Qed.

Lemma normal_components_absolute p :
  is_absolute p = true -> List.filter normal (components p) = List.filter normal (body (split "/" p)).
Proof. intros Ha. by rewrite components_absolute. Qed.

Lemma filter_normal_all cs : Forall (fun c => normal c = true) cs -> List.filter normal cs = cs.
Proof. induction 1 as [|c cs Hc F IH]; cbn; [done|]. by rewrite Hc, IH. Qed.

Lemma chroot_relative_spec p r root :
  absolute_to_chroot_relative p = Ok r -> is_absolute root = true ->
  is_absolute p = true /\ is_absolute r = false /\ ParentDir ∉ components p /\ r <> "" /\
  components p = RootDir :: body (split "/" r) /\
  components (join_path root r) = components root ++ tail (components p).
Proof.
  unfold absolute_to_chroot_relative. intros H Hroot.
  destruct (is_absolute p) eqn:Ha; [|done]. cbn [negb] in H. inv_ok.
  destruct (is_empty r0) eqn:E; [done|]. inv_ok. subst r0.
  assert (r <> "") as Hne by (by intros ->).
  apply fold_push_relative in Hr as (Hr & Hb & Hp); [|apply components_names|done].
  cbn in Hb. assert (components p = RootDir :: body (split "/" r)) as Hc.
  { rewrite Hb, normal_components_absolute by done. rewrite components_absolute in Hp |- * by done.
    f_equal. symmetry. apply filter_normal_all, Forall_forall. intros c Hin.
    destruct (body_no_root _ _ Hin). destruct c; try done. exfalso. apply Hp. by right. }
  split_and!; [done..|]. rewrite components_join by eauto using absolute_nonempty.
  by rewrite Hc.
Qed.

(** ** Lemmas: looking a grant up *)

Lemma update_first_Some {A} f (u : A -> A) l k :
  update_first f u l = Some k <->
  exists l1 x l2, l = l1 ++ x :: l2 /\ k = l1 ++ u x :: l2 /\ f x = true /\
                  Forall (fun y => f y = false) l1.
Proof.
  revert k. induction l as [|y l IH]; intros k; cbn.
  - split; [done|]. by intros ([] & ? & ? & ? & _).
  - destruct (f y) eqn:E.
    + split; [intros [= <-]; by exists [], y, l|].
      intros ([|z l1] & x & l2 & [= -> ->] & -> & Hx & F); [done|].
      apply Forall_cons in F as [F _]. congruence.
    + destruct (update_first f u l) as [k'|]; cbn.
      * split.
        -- intros [= <-]. destruct (proj1 (IH k') eq_refl) as (l1 & x & l2 & -> & -> & Hx & F).
           exists (y :: l1), x, l2. split_and!; [done..|by constructor].
        -- intros ([|z l1] & x & l2 & [= -> ->] & -> & Hx & F); [congruence|].
           apply Forall_cons in F as [_ F]. cbn. f_equal. f_equal.
           enough (Some k' = Some (l1 ++ u x :: l2)) as [= ->] by done.
           apply IH. by exists l1, x, l2.
      * split; [done|]. intros ([|z l1] & x & l2 & [= -> ->] & -> & Hx & F); [congruence|].
        apply Forall_cons in F as [_ F].
        enough (None = Some (l1 ++ u x :: l2)) by done. apply IH. by exists l1, x, l2.
Qed.

Lemma update_first_None {A} f (u : A -> A) l :
  update_first f u l = None <-> Forall (fun y => f y = false) l.
Proof.
  induction l as [|y l IH]; cbn; [by split|].
  destruct (f y) eqn:E; [split; [done|]; intros [? ?]%Forall_cons; congruence|].
  rewrite fmap_None, IH, Forall_cons. naive_solver.
Qed.

(** ** The rule for invariants of the builder

    A property of the builder's state that warnings, created directories and
    admissible grants preserve holds of every state the builder reaches. *)
Section Rule.
Context {S : Type} `{HostFs S}.
Context (cfg : GrantConfig) (P : GrantState (S := S) -> Prop).

(** What [add_or_expand] has checked when it adds a grant. *)
Definition admissible (st : GrantState (S := S)) (hp sp : path) : Prop :=
  (exists q, canonicalize (host st) q = inl hp) /\
  path_starts_with hp (project_root cfg) = false /\
  exists rel, absolute_to_chroot_relative sp = Ok rel /\
              path_overlaps hp (join_path (sandbox_root cfg) rel) = false.

Context (P_warn : forall st m, P st -> P (warn m st)).
Context (P_host : forall st s, P st -> P (set_host s st)).
Context (P_add : forall st l src hp sp a st',
  P st -> admissible st hp sp -> add_grant cfg st l src hp sp a = Ok st' -> P st').

Lemma add_or_expand_rule fuel permission l hp sp create depth st st' :
  P st -> add_or_expand cfg fuel permission l hp sp create depth st = Ok st' -> P st'.
Proof.
  revert permission l hp sp create depth st st'.
  induction fuel as [|fuel IH]; intros permission l hp sp create depth st st' HP Hr; [done|].
  cbn [add_or_expand] in Hr. destruct (Nat.eqb depth 0).
  { eapply fold_result_inv; [|exact HP|exact Hr]. cbn. intros s a s' _ HPs Hs. inv_ok. eauto. }
  apply bind_ok in Hr as (st1 & Hst & Hr).
  assert (P st1) as HP1 by (destruct (create && _) in Hst; inv_ok; subst; auto).
  destruct (canonicalize (host st1) hp) as [hp'|] eqn:Ec; [|inv_ok; subst; auto].
  destruct (is_dir (host st1) hp'); cbn [negb] in Hr; [|inv_ok; subst; auto].
  destruct (path_starts_with hp' (project_root cfg)) eqn:Ep; [inv_ok; subst; auto|].
  apply bind_ok in Hr as (rel & Hrel & Hr).
  destruct (path_overlaps _ _) eqn:Eo.
  - destruct (8 <=? depth)%nat; [inv_ok; subst; auto|].
    apply bind_ok in Hr as (entries & _ & Hr).
    eapply fold_result_inv; [|apply P_warn, HP1|exact Hr]. cbn.
    intros s a s' _ HPs Hs. inv_ok. destruct r; cbn [negb] in Hs; [eauto|]. inv_ok. by subst.
  - eapply P_add; [exact HP1| |exact Hr]. split_and!; eauto.
Qed.

Lemma apply_permission_rule permission st st' :
  P st -> apply_permission cfg st permission = Ok st' -> P st'.
Proof.
  intros HP Hr. unfold apply_permission in Hr.
  destruct (match split_once _ _ with Some _ => _ | None => _ end) as [base suffix].
  destruct (starts_with "!" base); [inv_ok; by subst|].
  destruct (_ && bool_decide _).
  { eapply fold_result_inv; [|exact HP|exact Hr]. intros s a s' _ HPs Hs.
    cbv beta in Hs. destruct (is_dir _ a); [|inv_ok; by subst]. eapply add_or_expand_rule; eauto. }
  destruct (_ || _); [inv_ok; eapply add_or_expand_rule; eauto|].
  destruct (bool_decide (base ∈ _)).
  { destruct (xdg_get _ _); [|inv_ok; subst; auto].
    destruct (path_eqb _ _); inv_ok; [subst; auto|]. eapply add_or_expand_rule; eauto. }
  destruct (String.eqb base "xdg-data"); [|inv_ok; subst; auto].
  destruct (bool_decide _); inv_ok; [by subst|]. eapply add_or_expand_rule; eauto.
Qed.
End Rule.

Section FromMetadata.
Context {S : Type} `{HostFs S}.

(** The configuration [from_metadata] builds its grants with. *)
Definition config_of (s : S) (user : string) (home project_root sandbox_root : path)
    (mount_points : list path) (xdg : XdgUserDirs) (xdg_data_home : path) : GrantConfig :=
  mkConfig mount_points home (join_path "/home" user) (canonical_or s project_root) sandbox_root
    xdg xdg_data_home.

Lemma from_metadata_rule (P : GrantState -> Prop) s metadata user home pr sr mps xdg data s' hf :
  let cfg := config_of s user home pr sr mps xdg data in
  (forall st m, P st -> P (warn m st)) -> (forall st x, P st -> P (set_host x st)) ->
  (forall st l src hp sp a st',
    P st -> admissible cfg st hp sp -> add_grant cfg st l src hp sp a = Ok st' -> P st') ->
  P (mkState s [] []) ->
  from_metadata s metadata user home pr sr mps xdg data = Ok (s', hf) ->
  exists st, P st /\ hf_grants hf = sort_grants (grants st) /\ hf_warnings hf = warnings st.
Proof.
  intros cfg Hw Hh Ha H0 Hr. unfold from_metadata in Hr. inv_ok. simplify_eq.
  exists r0. split; [|done].
  eapply fold_result_inv; [|exact H0|exact Hr1]. cbn. intros st p st' _ HP. by apply apply_permission_rule.
Qed.
End FromMetadata.

(** ** Lemmas: adding a grant *)

Lemma new_grant_ok `{HostFs Fs} (s : Fs) l src hp sp a g :
  new_grant s l src hp sp a = Ok g ->
  is_absolute hp = true /\ is_absolute sp = true /\
  g = mkGrant l src hp (canonical_or s hp) sp a.
Proof.
  intros Hr. unfold new_grant in Hr. destruct (is_absolute hp), (is_absolute sp); cbn in Hr; by inv_ok.
Qed.

Lemma add_grant_cases `{HostFs Fs} cfg (st : GrantState (S := Fs)) l src hp sp a st' :
  add_grant cfg st l src hp sp a = Ok st' ->
  host st' = host st /\ warnings st' = warnings st /\
  ((exists l1 g l2, grants st = l1 ++ g :: l2 /\ grants st' = l1 ++ merge_access a g :: l2 /\
      same_mount g hp sp = true /\ Forall (fun g => same_mount g hp sp = false) l1) \/
   (exists l', grants st' = grants st ++ [mkGrant l' src hp (canonical_or (host st) hp) sp a] /\
      Forall (fun g => same_mount g hp sp = false) (grants st) /\
      is_absolute hp = true /\ is_absolute sp = true)).
Proof.
  unfold add_grant. intros Hr.
  destruct (update_first _ _ _) as [gs|] eqn:E.
  - inv_ok. subst st'. split_and!; [done..|]. left.
    apply update_first_Some in E as (l1 & g & l2 & -> & -> & Hs & F). by exists l1, g, l2.
  - inv_ok. subst st'. split_and!; [done..|]. right.
    apply new_grant_ok in Hr0 as (? & ? & ->). apply update_first_None in E. eauto.
Qed.

(** Two grants that would be mounted from and at the same places. *)
Definition mount_key (g : HostPathGrant) : list component * list component :=
  (components (host_path g), components (sandbox_path g)).

Lemma same_mount_key g h : same_mount g (host_path h) (sandbox_path h) = false -> mount_key g <> mount_key h.
Proof.
  intros E [= E1 E2]. unfold same_mount, path_eqb in E.
  by rewrite E1, E2, (bool_decide_true (components (host_path h) = _)),
    (bool_decide_true (components (sandbox_path h) = _)) in E.
Qed.

Lemma merge_key a g : mount_key (merge_access a g) = mount_key g.
Proof. done. Qed.

Lemma add_grant_keys `{HostFs Fs} cfg (st : GrantState (S := Fs)) l src hp sp a st' :
  add_grant cfg st l src hp sp a = Ok st' ->
  NoDup (mount_key <$> grants st) -> NoDup (mount_key <$> grants st').
Proof.
  intros Hr. apply add_grant_cases in Hr as (_ & _ & [(l1 & g & l2 & -> & -> & _)|(l' & -> & F & _)]).
  - by rewrite !fmap_app, !fmap_cons, merge_key.
  - rewrite fmap_app. intros N. apply NoDup_app. split_and!; [done| |apply NoDup_singleton].
    intros k (g & -> & Hg)%list_elem_of_fmap Hk. apply list_elem_of_singleton in Hk.
    rewrite Forall_forall in F. specialize (F _ Hg).
    by apply (same_mount_key g (mkGrant l' src hp (canonical_or (host st) hp) sp a)) in F.
Qed.

(** What every grant satisfies, for the sandbox of [cfg]. *)
Definition safe_grant (cfg : GrantConfig) (g : HostPathGrant) : Prop :=
  is_absolute (host_path g) = true /\
  Forall (fun c => rooted c = true) (components (host_path g)) /\
  path_starts_with (host_path g) (project_root cfg) = false /\
  exists rel, sandbox_target_relative g = Ok rel /\
              path_overlaps (host_path g) (join_path (sandbox_root cfg) rel) = false.

Lemma add_grant_safe `{HostFsLaws Fs} cfg (st : GrantState (S := Fs)) l src hp sp a st' :
  Forall (safe_grant cfg) (grants st) -> admissible cfg st hp sp ->
  add_grant cfg st l src hp sp a = Ok st' -> Forall (safe_grant cfg) (grants st').
Proof.
  intros F ((q & Hq) & Hp & rel & Hrel & Ho) Hr.
  apply add_grant_cases in Hr as (_ & _ & [(l1 & g & l2 & E & -> & _)|(l' & -> & _ & Ha & _)]).
  - rewrite E, Forall_app, Forall_cons in F. rewrite Forall_app, Forall_cons.
    destruct F as (? & Hg & ?). split_and!; [done| |done]. exact Hg.
  - apply Forall_app. split; [done|]. apply Forall_singleton.
    destruct (canonicalize_clean (host st) q hp Hq) as [_ Hc]. split_and!; eauto.
Qed.

(** ** Lemmas: the order of the grants *)

Lemma sort_grants_perm gs : sort_grants gs ≡ₚ gs.
Proof. apply sort_by_perm. Qed.

Lemma on_grant_key_depth g h :
  on grant_key g h = true -> depth (sandbox_path g) <= depth (sandbox_path h).
Proof.
  unfold on, leb, grant_key. rewrite cmp_pair, cmp_pair.
  destruct (cmp (depth _) (depth _)) eqn:E; [apply cmp_eq in E; lia| |done].
  intros _. unfold cmp, ord_nat in E. apply Nat.compare_lt_iff in E. lia.
Qed.

(** ** Lemmas: the fuel of the expansion *)

Lemma fold_result_ext {A B} (f g : B -> A -> result B) l s :
  (forall s a, f s a = g s a) -> fold_result f l s = fold_result g l s.
Proof.
  intros E. revert s. induction l as [|a l IH]; intros s; cbn; [done|]. rewrite E.
  destruct (g s a); cbn; auto.
Qed.

Lemma add_or_expand_fuel `{HostFs Fs} cfg f1 f2 permission l hp sp create depth (st : GrantState (S := Fs)) :
  9 <= f1 + depth -> 9 <= f2 + depth -> depth <= 8 ->
  add_or_expand cfg f1 permission l hp sp create depth st =
  add_or_expand cfg f2 permission l hp sp create depth st.
Proof.
  revert f2 permission l hp sp create depth st.
  induction f1 as [|f1 IH]; intros [|f2] permission l hp sp create depth st H1 H2 Hd; [lia..|].
  cbn [add_or_expand]. destruct (Nat.eqb_spec depth 0) as [->|Hn].
  { apply fold_result_ext. intros s' e. destruct (ok_or _ _); [|done].
    cbn [mbind result_bind]. apply IH; lia. }
  destruct (if create && _ then _ else _) as [st1|]; [|done]. cbn [mbind result_bind].
  destruct (canonicalize (host st1) hp); [|done].
  destruct (negb _); [done|]. destruct (path_starts_with _ _); [done|].
  destruct (absolute_to_chroot_relative sp); [|done]. cbn [mbind result_bind].
  destruct (path_overlaps _ _); [|done]. destruct (Nat.leb_spec 8 depth); [done|].
  destruct (sorted_entries _ _); [|done]. cbn [mbind result_bind].
  apply fold_result_ext. intros s' e. destruct (io_context _ _) as [d|]; [|done].
  cbn [mbind result_bind]. destruct (negb d); [done|]. apply IH; lia.
Qed.

(** ** Lemmas: the deepest mapping *)

Lemma best_match_spec gs p best q :
  best_match gs p best = Some q ->
  (best = Some q \/ exists g, g ∈ gs /\ grant_map_host_path g p = Some q) /\
  (forall b, best = Some b -> depth b <= depth q) /\
  (forall g m, g ∈ gs -> grant_map_host_path g p = Some m -> depth m <= depth q).
Proof.
  revert best. induction gs as [|g gs IH]; intros best Hq; cbn [best_match] in Hq.
  - subst best. split_and!; [by left|naive_solver|].
    intros ? ? Hin. by apply not_elem_of_nil in Hin.
  - apply IH in Hq as (H1 & H2 & H3).
    destruct (grant_map_host_path g p) as [m|] eqn:Em; [destruct best as [b|]|].
    + destruct (Nat.ltb_spec (depth b) (depth m)) as [L|L].
      * specialize (H2 _ eq_refl). split_and!.
        -- destruct H1 as [[= <-]|(h & ? & ?)]; right; [exists g|exists h]; split; try done; by constructor.
        -- intros ? [= <-]. lia.
        -- intros h m' [->|Hin]%elem_of_cons Hm; [simplify_eq; lia|eauto].
      * specialize (H2 _ eq_refl). split_and!.
        -- destruct H1 as [[= <-]|(h & ? & ?)]; [by left|right; exists h; split; [by right|done]].
        -- intros ? [= <-]. lia.
        -- intros h m' [->|Hin]%elem_of_cons Hm; [simplify_eq; lia|eauto].
    + specialize (H2 _ eq_refl). split_and!; [|done|].
      * destruct H1 as [[= <-]|(h & ? & ?)]; right; [exists g|exists h]; split; try done; by constructor.
      * intros h m' [->|Hin]%elem_of_cons Hm; [simplify_eq; lia|eauto].
    + split_and!; [|done|].
      * destruct H1 as [->|(h & ? & ?)]; [by left|right; exists h; split; [by right|done]].
      * intros h m' [->|Hin]%elem_of_cons Hm; [congruence|eauto].
Qed.

Lemma best_match_None gs p best :
  best_match gs p best = None <->
  best = None /\ Forall (fun g => grant_map_host_path g p = None) gs.
Proof.
  revert best. induction gs as [|g gs IH]; intros best; cbn [best_match]; [naive_solver|].
  rewrite IH, Forall_cons. destruct (grant_map_host_path g p) as [m|]; [|naive_solver].
  destruct best as [b|]; [destruct (_ <? _)%nat|]; naive_solver.
Qed.

(** A mapped path is the grant's sandbox path followed by what the host path
    has below the grant's host path. *)
Lemma map_with_components g r :
  sandbox_path g <> "" -> is_absolute r = false -> body (split "/" r) = components r ->
  components (map_with g r) = components (sandbox_path g) ++ components r.
Proof.
  intros Hs Hr Hb. unfold map_with. destruct (is_empty r) eqn:E.
  - apply is_empty_true in E as ->. cbn. by rewrite app_nil_r.
  - rewrite components_join, Hb; done.
Qed.

Lemma strip_map_components g p b q :
  is_absolute b = true -> sandbox_path g <> "" ->
  map_with g <$> strip_path_prefix p b = Some q ->
  exists rest, components p = components b ++ rest /\ components q = components (sandbox_path g) ++ rest.
Proof.
  intros Hb Hs (r & Hr & ->)%fmap_Some. assert (components b <> []) as Hn by (by rewrite components_absolute).
  destruct (strip_path_prefix_components _ _ _ Hn Hr) as (E & Ha & Hbd & _).
  exists (components r). split; [done|]. by apply map_with_components.
Qed.

Lemma grant_map_components g p q :
  is_absolute (host_path g) = true -> is_absolute (canonical_host_path g) = true ->
  is_absolute (sandbox_path g) = true ->
  grant_map_host_path g p = Some q ->
  exists base rest, (base = host_path g \/ base = canonical_host_path g) /\
    components p = components base ++ rest /\ components q = components (sandbox_path g) ++ rest.
Proof.
  intros H1 H2 H3 Hm. apply absolute_nonempty in H3. unfold grant_map_host_path in Hm.
  destruct (strip_path_prefix p (host_path g)) as [r|] eqn:E.
  - destruct (strip_map_components g p (host_path g) q) as (rest & ? & ?); [done..|by rewrite E|].
    exists (host_path g), rest. auto.
  - destruct (strip_map_components g p (canonical_host_path g) q) as (rest & ? & ?); [done..|].
    exists (canonical_host_path g), rest. auto.
Qed.

(** ** Lemmas: the mounts below a grant *)

(** A mount point that a grant on [roots] has to carry along. *)
Definition below_root (roots : list path) (m : path) : Prop :=
  clean_absolute_path m = true /\
  exists root, root ∈ roots /\ path_starts_with m root = true /\ components m <> components root.

Lemma below_root_filter roots m :
  clean_absolute_path m &&
    existsb (fun root => negb (path_eqb m root) && path_starts_with m root) roots = true <->
  below_root roots m.
Proof.
  unfold below_root. rewrite andb_true_iff, existsb_exists. setoid_rewrite andb_true_iff.
  setoid_rewrite negb_true_iff. setoid_rewrite <- not_true_iff_false.
  setoid_rewrite path_eqb_true. setoid_rewrite list_elem_of_In. naive_solver.
Qed.

Lemma depth_key_eqb a b : path_eqb a b = eqb_of (depth_key a) (depth_key b).
Proof.
  apply eq_true_iff_eq. rewrite path_eqb_true, eqb_of_true. unfold depth_key, depth.
  split; [by intros ->|by intros [= _ ->]].
Qed.

Lemma elem_of_authorized roots mps p :
  p ∈ roots ++ List.filter (fun m => clean_absolute_path m &&
      existsb (fun root => negb (path_eqb m root) && path_starts_with m root) roots) mps <->
  p ∈ roots \/ p ∈ mps /\ below_root roots p.
Proof.
  rewrite elem_of_app. f_equiv. rewrite list_elem_of_In, filter_In, <- list_elem_of_In.
  by rewrite below_root_filter.
Qed.

(** A host with a home directory and a mounted disk, for the witnesses. *)
Definition example_host : TreeFs :=
  mkTree (map components ["/"; "/home"; "/home/u"; "/home/u/Downloads"; "/home/u/Music";
    "/home/u/sb"; "/home/u/Music/disk"; "/home/u/flatpak"; "/home/u/flatpak/src"]) [].
Definition example_metadata : string :=
  fmt ["[Context]"; nl; "filesystems=home;xdg-music:ro;xdg-music;xdg-download:ro;"; nl].
Definition example_result : result (TreeFs * HostFilesystem) :=
  from_metadata example_host example_metadata "u" "/home/u" "/home/u/flatpak" "/home/u/sb"
    ["/home/u/Music/disk"; "/var"] (xdg_defaults "/home/u") "/home/u/.local/share".

(** ** Properties *)



(** No two grants of the result mount the same host directory at the same
    sandbox path: a repeated permission merges into the grant already there. *)
Theorem grants_are_distinct `{HostFs Fs} (s : Fs) metadata user home pr sr mps xdg data s' hf :
  from_metadata s metadata user home pr sr mps xdg data = Ok (s', hf) ->
  NoDup (mount_key <$> hf_grants hf).
Proof.
  intros Hr.
  destruct (from_metadata_rule (fun st => NoDup (mount_key <$> grants st))
    s metadata user home pr sr mps xdg data s' hf) as (st & F & -> & _); try done.
  - intros st ?? hp ??? F _ Ha. by eapply add_grant_keys.
  - constructor.
  - by rewrite sort_grants_perm.
Qed.

Lemma grants_are_distinct_witness :
  match example_result with
  | Ok (_, hf) => NoDup (mount_key <$> hf_grants hf)
  | Err _ => False
  end.
Proof.
  destruct example_result as [[s' hf]|e] eqn:E; [|vm_compute in E; discriminate E].
  exact (grants_are_distinct _ _ _ _ _ _ _ _ _ _ _ E).
Defined.

(** A grant whose sandbox path lies strictly inside another grant's comes
    after it, so it is mounted on top of it and not hidden below it. *)
Theorem parents_mounted_first `{HostFs Fs} (s : Fs) metadata user home pr sr mps xdg data s' hf i j g h :
  from_metadata s metadata user home pr sr mps xdg data = Ok (s', hf) ->
  hf_grants hf !! i = Some g -> hf_grants hf !! j = Some h ->
  path_starts_with (sandbox_path h) (sandbox_path g) = true ->
  path_eqb (sandbox_path h) (sandbox_path g) = false -> i < j.
Proof.
  intros Hr Hi Hj Hp Hne.
  destruct (from_metadata_rule (fun _ => True) s metadata user home pr sr mps xdg data s' hf)
    as (st & _ & E & _); try done.
  rewrite E in Hi, Hj. eapply (sorted_by_depth sandbox_path grant_key); [|apply sort_on_sorted|exact Hi|exact Hj|exact Hp|exact Hne].
  intros x y. apply on_grant_key_depth.
Qed.

Lemma parents_mounted_first_witness : 1 < 2.
Proof.
  destruct example_result as [[s' hf]|e] eqn:E; [|vm_compute in E; discriminate E].
  refine (parents_mounted_first _ _ _ _ _ _ _ _ _ _ _ 1 2
    (mkGrant "xdg-music" "home" "/home/u/Music" "/home/u/Music" "/home/u/Music" ReadWrite)
    (mkGrant "home" "home" "/home/u/Music/disk" "/home/u/Music/disk" "/home/u/Music/disk" ReadWrite)
    E _ _ eq_refl eq_refl); vm_compute in E; injection E as <- <-; reflexivity.
Defined.

(** Adding a grant leaves the lookup of its mount with the access that
    joins what was granted before with what is granted now: a later read-only
    permission never takes a write access back, and a write permission
    upgrades. *)
Theorem add_grant_joins_access `{HostFs Fs} cfg (st : GrantState (S := Fs)) l src hp sp a st' :
  add_grant cfg st l src hp sp a = Ok st' ->
  access <$> List.find (fun g => same_mount g hp sp) (grants st') =
  Some (match List.find (fun g => same_mount g hp sp) (grants st) with
        | Some g => merge (access g) a
        | None => a
        end).
Proof.
  intros Hr.
  assert (forall l1 x l2, Forall (fun g => same_mount g hp sp = false) l1 ->
    same_mount x hp sp = true -> List.find (fun g => same_mount g hp sp) (l1 ++ x :: l2) = Some x) as Hf.
  { intros l1 x l2 F Hx. induction F as [|y l1 Hy F IH]; cbn; [by rewrite Hx|by rewrite Hy]. }
  assert (forall l1, Forall (fun g => same_mount g hp sp = false) l1 ->
    List.find (fun g => same_mount g hp sp) l1 = None) as Hn.
  { intros l1 F. induction F as [|y l1 Hy F IH]; cbn; [done|by rewrite Hy]. }
  apply add_grant_cases in Hr as (_ & _ & [(l1 & g & l2 & -> & -> & Hs & F)|(l' & -> & F & _)]).
  - by rewrite !Hf.
  - rewrite Hf, Hn; [done..|]. unfold same_mount, path_eqb. cbn.
    by rewrite (bool_decide_true (components hp = components hp)),
      (bool_decide_true (components sp = components sp)).
Qed.

Lemma add_grant_joins_access_witness :
  let cfg := config_of example_host "u" "/home/u" "/src" "/sb" [] (xdg_defaults "/home/u") "/d" in
  let st := mkState example_host
    [mkGrant "xdg-music" "xdg-music" "/home/u/Music" "/home/u/Music" "/home/u/Music" ReadWrite] [] in
  exists st', add_grant cfg st "home" "xdg-music:ro" "/home/u/Music" "/home/u/Music" ReadOnly = Ok st' /\
  access <$> List.find (fun g => same_mount g "/home/u/Music" "/home/u/Music") (grants st') = Some ReadWrite.
Proof.
  intros cfg st. eexists. split; [reflexivity|].
  etransitivity.
  - eapply (add_grant_joins_access cfg st "home" "xdg-music:ro" "/home/u/Music" "/home/u/Music" ReadOnly).
    reflexivity.
  - reflexivity.
Defined.

(** The expansion of a permission into child directories ends by itself:
    giving the mutual recursion more fuel than [add_grant_or_expand] gives it
    never changes what it does. *)
Theorem expansion_terminates `{HostFs Fs} cfg permission l hp sp create (st : GrantState (S := Fs)) extra :
  add_or_expand cfg (FUEL + extra) permission l hp sp create 0 st =
  add_grant_or_expand cfg st permission l hp sp create.
Proof. unfold add_grant_or_expand. apply add_or_expand_fuel; unfold FUEL; lia. Qed.

(** The paths a grant is made on are its roots and exactly the clean host
    mount points strictly below a root, each once, parents before children. *)
Theorem authorized_paths_exact (roots mps : list path) :
  (forall p, p ∈ authorized_grant_paths roots mps -> p ∈ roots \/ p ∈ mps /\ below_root roots p) /\
  (forall p, p ∈ roots \/ p ∈ mps /\ below_root roots p ->
     exists q, q ∈ authorized_grant_paths roots mps /\ components q = components p) /\
  StronglySorted lt_of (map depth_key (authorized_grant_paths roots mps)).
Proof.
  unfold authorized_grant_paths. rewrite (dedup_ext path_eqb _ _ depth_key_eqb). split_and!.
  - intros p Hp. apply elem_of_dedup_1, elem_of_sort_by in Hp. by apply elem_of_authorized.
  - intros p Hp. apply elem_of_authorized in Hp. rewrite <- (elem_of_sort_by (on depth_key)) in Hp.
    destruct (elem_of_dedup_key depth_key _ _ Hp) as (q & Hq & E). exists q. split; [exact Hq|].
    by injection E.
  - apply dedup_key_strict.
Qed.

(** A permission's subpath is accepted exactly when its components are
    names (and dots); the path it gives lies below the base, with those names
    appended: no subpath can climb out of the directory it was granted in. *)
Theorem permission_suffix_stays_below (base suffix : string) :
  is_absolute base = true ->
  (is_ok (append_permission_suffix base (Some suffix)) = true <->
     Forall (fun c => c = CurDir \/ normal c = true) (components suffix)) /\
  forall q, append_permission_suffix base (Some suffix) = Ok q ->
    is_absolute q = true /\ path_starts_with q base = true /\
    components q = components base ++ List.filter normal (components suffix).
Proof.
  intros Ha. split.
  - cbn [append_permission_suffix]. split.
    + destruct (fold_result _ _ _) as [q|] eqn:E; [|done]. intros _.
      eapply (fold_push_suffix suffix base) in E as (_ & _ & _ & F); try done.
      * apply components_names.
      * apply path_starts_with_refl.
    + intros F. by destruct (fold_push_suffix_ok suffix _ base F) as [q ->].
  - intros q. apply (append_suffix_spec base (Some suffix) q Ha).
Qed.

Lemma permission_suffix_stays_below_witness :
  append_permission_suffix "/home/u" (Some "a/./b") = Ok "/home/u/a/b" /\
  path_starts_with "/home/u/a/b" "/home/u" = true /\
  is_ok (append_permission_suffix "/home/u" (Some "a/../../b")) = false.
Proof.
  split_and!; [reflexivity| |].
  - exact (proj1 (proj2 (proj2 (permission_suffix_stays_below "/home/u" "a/./b" eq_refl) _ eq_refl))).
  - reflexivity.
Defined.

(** The target of a mount is found below the sandbox's root: a sandbox path
    is accepted when it is absolute, has no dot-dot and is not the root itself,
    and its target is the sandbox root followed by the path's components. *)
Theorem chroot_target_stays_in_root (p rel root : path) :
  is_absolute root = true -> absolute_to_chroot_relative p = Ok rel ->
  is_absolute p = true /\ ParentDir ∉ components p /\
  components p <> [RootDir] /\
  components (join_path root rel) = components root ++ tail (components p) /\
  path_starts_with (join_path root rel) root = true /\
  path_eqb (join_path root rel) root = false.
Proof.
  intros Hroot Hr. pose proof Hr as Hr'.
  apply (chroot_relative_spec p rel root) in Hr as (Ha & Hrel & Hp & Hne & Hc & Hj); [|done].
  assert (components p <> [RootDir]) as Hnr.
  { intros E. rewrite E in Hc. injection Hc as Hc. unfold absolute_to_chroot_relative in Hr'.
    rewrite Ha, E in Hr'. cbn in Hr'. by inv_ok. }
  split_and!; [done..| |].
  - apply path_starts_with_true. rewrite Hj. by apply prefix_app_r.
  - apply not_true_iff_false. rewrite path_eqb_true, Hj, Hc. cbn [tail]. intros E.
    apply Hnr. rewrite Hc. f_equal. apply (f_equal length) in E. rewrite length_app in E.
    destruct (body _); [done|cbn in E; lia].
Qed.

Lemma chroot_target_stays_in_root_witness :
  components (join_path "/sb" "home/u") = components "/sb" ++ [Normal "home"; Normal "u"].
Proof.
  exact (proj1 (proj2 (proj2 (proj2 (chroot_target_stays_in_root "/home/./u/" "home/u" "/sb"
    eq_refl eq_refl))))).
Defined.

(** A host path is mapped into the sandbox exactly when some grant covers
    it; the result names, below a covering grant's sandbox path, what the host
    path names below that grant's host directory, and no covering grant gives a
    deeper sandbox path. *)
Theorem host_path_maps_to_deepest current_dir hf (p : path) :
  is_absolute p = true ->
  Forall (fun g => is_absolute (host_path g) = true /\ is_absolute (canonical_host_path g) = true /\
                   is_absolute (sandbox_path g) = true) (hf_grants hf) ->
  exists n o, normalize_absolute_path current_dir p = Ok n /\ hf_map_host_path current_dir hf p = Ok o /\
  match o with
  | None => Forall (fun g => grant_map_host_path g n = None) (hf_grants hf)
  | Some q => exists g base rest,
      g ∈ hf_grants hf /\ (base = host_path g \/ base = canonical_host_path g) /\
      components n = components base ++ rest /\ components q = components (sandbox_path g) ++ rest /\
      forall h m, h ∈ hf_grants hf -> grant_map_host_path h n = Some m -> depth m <= depth q
  end.
Proof.
  intros Ha F. destruct (normalize_absolute current_dir p Ha) as (n & Hn & _).
  unfold hf_map_host_path. rewrite Hn. cbn [mbind result_bind].
  exists n, (best_match (hf_grants hf) n None). split_and!; [done..|].
  destruct (best_match (hf_grants hf) n None) as [q|] eqn:E; [|by apply best_match_None in E as [_ E]].
  apply best_match_spec in E as ([?|(g & Hg & Hm)] & _ & Hmax); [done|].
  rewrite Forall_forall in F; pose proof (F g Hg) as (H1 & H2 & H3).
  destruct (grant_map_components g n q H1 H2 H3 Hm) as (base & rest & ? & ? & ?).
  exists g, base, rest. split_and!; auto.
Qed.

Definition example_filesystem : HostFilesystem :=
  mkHostFilesystem [] [mkGrant "home" "home" "/home/u" "/usr/home/u" "/home/u" ReadWrite;
                       mkGrant "disk" "home" "/home/u/disk" "/media/disk" "/mnt/disk/a/b" ReadOnly]
    [] "/home/u" (xdg_defaults "/home/u").

Lemma host_path_maps_to_deepest_witness :
  exists n o, normalize_absolute_path (Err []) "/home/u/x/../disk/f" = Ok n /\
    hf_map_host_path (Err []) example_filesystem "/home/u/x/../disk/f" = Ok o /\
    o = Some "/mnt/disk/a/b/f".
Proof.
  destruct (host_path_maps_to_deepest (Err []) example_filesystem "/home/u/x/../disk/f" eq_refl)
    as (n & o & Hn & Ho & _).
  - repeat constructor.
  - exists n, o. split_and!; [done..|]. vm_compute in Ho. by injection Ho as <-.
Defined.
