(* ===== verification/DataMountPlan.v ===== *)
(** * DataMountPlan: protecting Flatpak's own data from broad grants
    (src/src/sandbox/flatpak_data_mount_plan.rs and the mounts of
    [ChrootNullfsBackend::prepare] that follow the plan)

    A plan splits the grants into those mounted before Flatpak's reserved
    directories are covered by tmpfs and those mounted back on top of them.
    [data_mounts] is the order in which the backend performs the plan's mounts;
    [visible] is the mount that provides a path once they are all in place, the
    last one whose target contains it. *)
From Stdlib Require Import Ascii String Sorting.Sorted Permutation Lia.
From stdpp Require Import base list strings sets.
From S2P Require Import Prelude Collections RustStr RustPath FilesystemPermissions HostFs FilesystemGrants.

Record FlatpakDataMountPlan := mkPlan {
  grants_before_mask : list HostPathGrant;
  mask_app_data_root : bool;
  app_data_root : path;
  app_data : path;
  reserved_roots_to_mask : list path;
  grants_after_mask : list HostPathGrant;
}.

(** [paths.sort(); paths.dedup()] *)
Definition sorted_paths (l : list path) : list path := dedup path_eqb (sort_by (on components) l).

Inductive side := Dropped | BeforeMask | AfterMask.
#[export] Instance side_eq_dec : EqDecision side.
Proof. solve_decision. Defined.

Definition grant_side (app_data : path) (regrant_roots : list path) (g : HostPathGrant) : side :=
  if path_starts_with (sandbox_path g) app_data then Dropped
  else if existsb (fun root => path_starts_with (sandbox_path g) root) regrant_roots then AfterMask
  else BeforeMask.

Definition paths_overlap (l r : path) : bool := path_starts_with l r || path_starts_with r l.

Definition overlapped_by (gs : list HostPathGrant) (root : path) : bool :=
  existsb (fun g => paths_overlap (sandbox_path g) root) gs.

Definition build_with_aliases (gs : list HostPathGrant) (app_data : path)
    (reserved_roots alias_roots : list path) : result FlatpakDataMountPlan :=
  app_data_root ← ok_or "application data path must have a parent" (parent app_data);
  let regrant_roots := sorted_paths (reserved_roots ++ [app_data_root]) in
  let on_side s := List.filter (fun g => bool_decide (grant_side app_data regrant_roots g = s)) gs in
  let before := on_side BeforeMask in
  Ok {| grants_before_mask := before;
        mask_app_data_root := overlapped_by before app_data_root;
        app_data_root := app_data_root;
        app_data := app_data;
        reserved_roots_to_mask :=
          sorted_paths (List.filter (overlapped_by before) (reserved_roots ++ alias_roots));
        grants_after_mask := on_side AfterMask |}.

Section Build.
Context {S : Type} `{HostFs S} (s : S).

Definition add_canonical_alias (roots : list path) (p : path) : list path :=
  match canonicalize s p with
  | inl alias => if path_eqb alias p then roots else roots ++ [alias]
  | inr _ => roots
  end.

(** [build_from_installation_parts] *)
Definition build (gs : list HostPathGrant) (app_data data_home data_root : path)
  : result FlatpakDataMountPlan :=
  let flatpak_root := join_path data_home "flatpak" in
  app_data_root ← ok_or "application data path must have a parent" (parent app_data);
  let reserved_roots := [flatpak_root; data_root] in
  let alias_roots := foldl add_canonical_alias []
    [flatpak_root; join_path flatpak_root "overrides"; data_root; app_data_root] in
  build_with_aliases gs app_data reserved_roots alias_roots.
End Build.

(** ** The mounts of the plan *)

Inductive mount_kind := TmpfsMask | GrantMount (g : HostPathGrant) | AppDataMount (source : path).
Record DataMount := mkDataMount { m_kind : mount_kind; m_target : path; m_read_only : bool }.

(** [absolute_to_chroot_relative] of the backend. *)
Definition backend_chroot_relative (p : path) : result path :=
  relative ← ok_or (fmt ["make sandbox path relative: "; p]) (strip_path_prefix p "/");
  if is_empty relative then bail "sandbox path must not be the root directory" else Ok relative.

Definition grant_mount (g : HostPathGrant) : result DataMount :=
  target ← sandbox_target_relative g;
  Ok (mkDataMount (GrantMount g) target (is_read_only (access g))).

Definition mask_mount (root : path) : result DataMount :=
  target ← backend_chroot_relative root;
  Ok (mkDataMount TmpfsMask target false).

Definition data_mounts (plan : FlatpakDataMountPlan) : result (list DataMount) :=
  before ← map_result grant_mount (grants_before_mask plan);
  masks ← map_result mask_mount (reserved_roots_to_mask plan);
  root_mask ← (if mask_app_data_root plan
               then m ← mask_mount (app_data_root plan); Ok [m] else Ok []);
  after ← map_result grant_mount (grants_after_mask plan);
  target ← backend_chroot_relative (app_data plan);
  Ok (before ++ masks ++ root_mask ++ after ++ [mkDataMount (AppDataMount (app_data plan)) target false]).

(** Whether a path of the sandbox is at or below a mount's target. *)
Definition covers (p : path) (m : DataMount) : bool :=
  path_starts_with p (join_path "/" (m_target m)).

(** The mount that provides [p]. *)
Definition visible (ms : list DataMount) (p : path) : option DataMount :=
  last (List.filter (covers p) ms).

(** ** Lemmas *)

Lemma paths_overlap_prefixes p a b :
  path_starts_with p a = true -> path_starts_with p b = true -> paths_overlap a b = true.
Proof.
  unfold paths_overlap. rewrite orb_true_iff, !path_starts_with_true. intros H1 H2.
  destruct (prefix_weak_total _ _ _ H1 H2); auto.
Qed.

Lemma elem_of_sorted_paths l p : p ∈ l -> exists q, q ∈ sorted_paths l /\ path_eqb q p = true.
Proof.
  intros Hp. unfold sorted_paths.
  assert (forall a b, path_eqb a b = eqb_of (components a) (components b)) as E.
  { intros a b. apply eq_true_iff_eq. by rewrite path_eqb_true, eqb_of_true. }
  rewrite (dedup_ext _ _ _ E). rewrite <- (elem_of_sort_by (on components)) in Hp.
  destruct (elem_of_dedup_key components _ _ Hp) as (q & Hq & Hc).
  exists q. split; [exact Hq|]. by apply path_eqb_true.
Qed.

Lemma sorted_paths_elem l p : p ∈ sorted_paths l -> p ∈ l.
Proof. unfold sorted_paths. intros Hp. by apply elem_of_dedup_1, elem_of_sort_by in Hp. Qed.

(** A mount of the plan lies exactly at the sandbox path it was made for. *)
Definition mounted_at (m : DataMount) (p : path) : Prop :=
  components (join_path "/" (m_target m)) = components p.

Lemma covers_at m q p : mounted_at m q -> covers p m = path_starts_with p q.
Proof. unfold mounted_at, covers, path_starts_with. by intros ->. Qed.

Lemma grant_mount_at g m :
  grant_mount g = Ok m -> m_kind m = GrantMount g /\ mounted_at m (sandbox_path g) /\
  m_read_only m = is_read_only (access g).
Proof.
  unfold grant_mount, sandbox_target_relative. intros Hr. inv_ok. subst m. split_and!; [done| |done].
  apply (chroot_relative_spec _ _ "/") in Hr0 as (_ & _ & _ & _ & Hc & E); [|done].
  unfold mounted_at. cbn [m_target]. rewrite E, Hc. done.
Qed.

Lemma backend_relative_at p r :
  backend_chroot_relative p = Ok r -> components (join_path "/" r) = components p.
Proof.
  unfold backend_chroot_relative. intros Hr. inv_ok. destruct (is_empty r0) eqn:E; inv_ok. subst r0.
  destruct (strip_path_prefix_components p "/" r) as (Hc & Ha & Hb & _); [done|done|].
  rewrite components_join by done. by rewrite Hb, Hc.
Qed.

Lemma mask_mount_at root m : mask_mount root = Ok m -> m_kind m = TmpfsMask /\ mounted_at m root.
Proof.
  unfold mask_mount. intros Hr. inv_ok. subst m. split; [done|]. by apply backend_relative_at.
Qed.

Lemma existsb_sorted_paths p l :
  existsb (fun root => path_starts_with p root) (sorted_paths l) = true <->
  exists r, r ∈ l /\ path_starts_with p r = true.
Proof.
  rewrite existsb_exists. setoid_rewrite <- list_elem_of_In. split.
  - intros (q & Hq & Hs). exists q. split; [by apply sorted_paths_elem|done].
  - intros (q & Hq & Hs). destruct (elem_of_sorted_paths _ _ Hq) as (q' & Hq' & E).
    exists q'. split; [done|]. apply path_eqb_true in E.
    revert Hs. rewrite !path_starts_with_true. by rewrite E.
Qed.

(** What [build_with_aliases] returns. *)
Lemma build_with_aliases_ok gs app_data reserved aliases plan :
  build_with_aliases gs app_data reserved aliases = Ok plan ->
  exists root, parent app_data = Some root /\ app_data_root plan = root /\
    DataMountPlan.app_data plan = app_data /\
    (forall g, g ∈ grants_before_mask plan <-> g ∈ gs /\
       path_starts_with (sandbox_path g) app_data = false /\
       forall r, r ∈ reserved ++ [root] -> path_starts_with (sandbox_path g) r = false) /\
    (forall g, g ∈ grants_after_mask plan <-> g ∈ gs /\
       path_starts_with (sandbox_path g) app_data = false /\
       exists r, r ∈ reserved ++ [root] /\ path_starts_with (sandbox_path g) r = true) /\
    mask_app_data_root plan = overlapped_by (grants_before_mask plan) root /\
    reserved_roots_to_mask plan =
      sorted_paths (List.filter (overlapped_by (grants_before_mask plan)) (reserved ++ aliases)).
Proof.
  unfold build_with_aliases. intros Hr. inv_ok. subst plan. cbn.
  exists r. rewrite Hr0. split_and!; [done..| | |done|done].
  - intros g. rewrite list_elem_of_In, filter_In, <- list_elem_of_In, bool_decide_eq_true.
    unfold grant_side. destruct (path_starts_with _ app_data); [naive_solver|].
    destruct (existsb _ _) eqn:E.
    + apply existsb_sorted_paths in E as (q & Hq & Hs).
      split; [naive_solver|]. intros (_ & _ & F). specialize (F q Hq). congruence.
    + apply not_true_iff_false in E. rewrite existsb_sorted_paths in E.
      setoid_rewrite <- not_true_iff_false. naive_solver.
  - intros g. rewrite list_elem_of_In, filter_In, <- list_elem_of_In, bool_decide_eq_true.
    unfold grant_side. destruct (path_starts_with _ app_data); [naive_solver|].
    destruct (existsb _ _) eqn:E.
    + apply existsb_sorted_paths in E. naive_solver.
    + apply not_true_iff_false in E. rewrite existsb_sorted_paths in E. naive_solver.
Qed.

Lemma overlapped_by_true gs root :
  overlapped_by gs root = true <-> exists g, g ∈ gs /\ paths_overlap (sandbox_path g) root = true.
Proof. unfold overlapped_by. rewrite existsb_exists. by setoid_rewrite list_elem_of_In. Qed.

(** The parts of the mount sequence. *)
Lemma data_mounts_ok plan ms :
  data_mounts plan = Ok ms ->
  exists before masks after final, ms = before ++ masks ++ after ++ [final] /\
    (forall m, m ∈ before -> exists g, g ∈ grants_before_mask plan /\ grant_mount g = Ok m) /\
    (forall m, m ∈ masks -> m_kind m = TmpfsMask /\ exists root, mounted_at m root /\
       (root ∈ reserved_roots_to_mask plan \/ mask_app_data_root plan = true /\ root = app_data_root plan)) /\
    (forall root, root ∈ reserved_roots_to_mask plan \/
       mask_app_data_root plan = true /\ root = app_data_root plan ->
       exists m, m ∈ masks /\ mounted_at m root) /\
    (forall m, m ∈ after -> exists g, g ∈ grants_after_mask plan /\ grant_mount g = Ok m) /\
    m_kind final = AppDataMount (app_data plan) /\ mounted_at final (app_data plan).
Proof.
  unfold data_mounts. intros Hr. inv_ok.
  exists r, (r0 ++ r1), r2, (mkDataMount (AppDataMount (app_data plan)) r3 false).
  split_and!; [by rewrite <- !app_assoc| | | | |done|by apply backend_relative_at].
  - intros m Hm. by eapply elem_of_map_result.
  - intros m [Hm|Hm]%elem_of_app.
    + destruct (elem_of_map_result _ _ _ _ Hr1 Hm) as (root & Hroot & E).
      apply mask_mount_at in E as []. split; [done|]. exists root. split; [done|by left].
    + destruct (mask_app_data_root plan) eqn:Ek; inv_ok; subst r1; [|by apply not_elem_of_nil in Hm].
      apply list_elem_of_singleton in Hm as ->. apply mask_mount_at in Hr5 as [].
      split; [done|]. exists (app_data_root plan). split; [done|by right].
  - intros root [Hroot|[Ek ->]].
    + destruct (map_result_elem _ _ _ _ Hr1 Hroot) as (m & Hm & E).
      apply mask_mount_at in E as []. exists m. set_solver.
    + rewrite Ek in Hr2. inv_ok. subst r1. apply mask_mount_at in Hr5 as []. exists r4. set_solver.
  - intros m Hm. by eapply elem_of_map_result.
Qed.

(** Sequences in which what a later part covers wins. *)
Lemma visible_split ms p m :
  visible ms p = Some m ->
  exists l1 l2, ms = l1 ++ m :: l2 /\ covers p m = true /\ forall m', m' ∈ l2 -> covers p m' = false.
Proof.
  intros H. apply last_filter_split in H as (l1 & l2 & -> & Hc & F).
  exists l1, l2. split_and!; [done..|]. by apply Forall_forall.
Qed.

Lemma visible_last ms m p : covers p m = true -> visible (ms ++ [m]) p = Some m.
Proof. intros Hc. unfold visible. rewrite List.filter_app. cbn. rewrite Hc. by rewrite last_snoc. Qed.

(** A mount whose part of the sequence is followed by a covering one is hidden. *)
Lemma visible_not_before l k m p :
  visible (l ++ k) p = Some m -> (exists m', m' ∈ k /\ covers p m' = true) -> m ∈ k.
Proof.
  intros (l1 & l2 & E & Hc & Hl)%visible_split (m' & Hm' & Hc').
  apply app_eq_app in E as (x & [[-> E]|[-> ->]]); [|apply elem_of_app; right; left].
  destruct x as [|y x]; cbn in E; [rewrite <- E; left|].
  injection E as <- E. rewrite E in Hl. rewrite Hl in Hc' by (apply elem_of_app; by right). done.
Qed.

(** ** Properties *)

Section Protected.
Context `{HostFs Fs} (s : Fs) (app_data data_home data_root : path).

Local Abbreviation flatpak_root := (join_path data_home "flatpak").

(** The directories the plan protects by name, and those it protects as well
    because they are where a protected name really leads. *)
Definition named_roots (app_data_root : path) : list path :=
  [flatpak_root; data_root; app_data_root].
Definition protected (app_data_root r : path) : Prop :=
  r ∈ named_roots app_data_root \/
  exists q, q ∈ [flatpak_root; join_path flatpak_root "overrides"; data_root; app_data_root] /\
            canonicalize s q = inl r.

Lemma foldl_aliases l acc r :
  r ∈ foldl (add_canonical_alias s) acc l <->
  r ∈ acc \/ exists q, q ∈ l /\ canonicalize s q = inl r /\ path_eqb r q = false.
Proof.
  revert acc. induction l as [|q l IH]; intros acc; cbn [foldl]; [set_solver|].
  rewrite IH. unfold add_canonical_alias. setoid_rewrite elem_of_cons.
  destruct (canonicalize s q) as [a|] eqn:E; [destruct (path_eqb a q) eqn:Eq|].
  - split; [intros [?|(q0 & ? & ? & ?)]; eauto 8|].
    intros [?|(q0 & [->|?] & ? & ?)]; [auto|congruence|eauto].
  - rewrite elem_of_app, list_elem_of_singleton.
    split; [intros [[?| ->]|(q0 & ? & ? & ?)]; eauto 8|].
    intros [?|(q0 & [->|?] & ? & ?)]; [auto| |eauto]. left. right. congruence.
  - split; [intros [?|(q0 & ? & ? & ?)]; eauto 8|].
    intros [?|(q0 & [->|?] & ? & ?)]; [auto|congruence|eauto].
Qed.

Context (gs : list HostPathGrant) (plan : FlatpakDataMountPlan).
Context (Hplan : build s gs app_data data_home data_root = Ok plan).

Lemma build_ok :
  exists aliases,
    build_with_aliases gs app_data [flatpak_root; data_root] aliases = Ok plan /\
    forall r, r ∈ aliases <->
      exists q, q ∈ [flatpak_root; join_path flatpak_root "overrides"; data_root; app_data_root plan] /\
                canonicalize s q = inl r /\ path_eqb r q = false.
Proof.
  unfold build in Hplan. inv_ok. eexists. split; [exact Hplan|]. intros q.
  apply build_with_aliases_ok in Hplan as (root & E & -> & _). assert (r = root) as -> by congruence.
  rewrite foldl_aliases. split; [intros [[]%not_elem_of_nil|?]; done|by right].
Qed.

(** A grant mounted before the masks that overlaps a protected directory makes
    the plan mask that directory, or one it lies in. *)
Lemma protected_masked r g p :
  protected (app_data_root plan) r -> path_starts_with p r = true ->
  g ∈ grants_before_mask plan -> path_starts_with p (sandbox_path g) = true ->
  exists root, path_starts_with p root = true /\
    (root ∈ reserved_roots_to_mask plan \/
     mask_app_data_root plan = true /\ root = app_data_root plan).
Proof.
  intros Hr Hp Hg Hpg.
  destruct build_ok as (aliases & Hb & Hal).
  apply build_with_aliases_ok in Hb as (? & _ & <- & _ & _ & _ & Em & Er).
  assert (forall q, q ∈ [flatpak_root; data_root] ++ aliases -> path_starts_with p q = true ->
    exists root, path_starts_with p root = true /\ root ∈ reserved_roots_to_mask plan) as Hq.
  { intros q Hq Hpq. rewrite Er.
    destruct (elem_of_sorted_paths (List.filter (overlapped_by (grants_before_mask plan))
      ([flatpak_root; data_root] ++ aliases)) q) as (q' & Hq' & E).
    - apply list_elem_of_In, filter_In. split; [by apply list_elem_of_In|].
      apply overlapped_by_true. exists g. split; [done|]. by eapply paths_overlap_prefixes.
    - exists q'. split; [|done]. apply path_eqb_true in E.
      revert Hpq. rewrite !path_starts_with_true. by rewrite E. }
  assert (path_starts_with p (app_data_root plan) = true -> exists root, path_starts_with p root = true /\
    (root ∈ reserved_roots_to_mask plan \/
     mask_app_data_root plan = true /\ root = app_data_root plan)) as Hroot.
  { intros Hpr. exists (app_data_root plan). split; [done|]. right. split; [|done]. rewrite Em.
    apply overlapped_by_true. exists g. split; [done|]. by eapply paths_overlap_prefixes. }
  assert (forall q, q ∈ named_roots (app_data_root plan) -> path_starts_with p q = true ->
    exists root, path_starts_with p root = true /\
    (root ∈ reserved_roots_to_mask plan \/
     mask_app_data_root plan = true /\ root = app_data_root plan)) as Hn.
  { intros q. unfold named_roots. rewrite !elem_of_cons.
    intros [->|[->|[->|[]%not_elem_of_nil]]] Hpq; [..|by auto];
      (edestruct Hq as (q' & ? & ?); [|exact Hpq|eauto]); [left|right; left]. }
  destruct Hr as [Hr|(q & Hin & Hc)]; [by apply (Hn r)|].
  destruct (path_eqb r q) eqn:E.
  - apply path_eqb_true in E. assert (path_starts_with p q = true) as Hpq.
    { revert Hp. rewrite !path_starts_with_true. by rewrite E. }
    rewrite !elem_of_cons in Hin. destruct Hin as [->|[->|[->|[->|[]%not_elem_of_nil]]]].
    + apply (Hn flatpak_root); [left|done].
    + apply (Hn flatpak_root); [left|].
      eapply path_starts_with_trans; [exact Hpq|]. apply path_starts_with_join; [|reflexivity].
      unfold join_path. replace (is_absolute "flatpak") with false by reflexivity.
      destruct data_home; [discriminate|]. destruct (_ || _); discriminate.
    + apply (Hn data_root); [right; left|done].
    + apply (Hn (app_data_root plan)); [right; right; left|done].
  - destruct (Hq r) as (q' & ? & ?); [|done|eauto].
    apply elem_of_app. right. apply Hal. eauto.
Qed.
End Protected.

(** C11.  Once the plan's mounts are in place, a host grant provides a path
    inside a protected directory (Flatpak's installation, the launcher's own
    data, the applications' data, by name or by where those names lead) only if
    it was granted inside one of the named directories: a broad grant never
    shows what is protected. *)
Theorem broad_grants_hide_protected `{HostFs Fs} (s : Fs) gs app_data data_home data_root plan ms p r m :
  build s gs app_data data_home data_root = Ok plan -> data_mounts plan = Ok ms ->
  protected s data_home data_root (app_data_root plan) r -> path_starts_with p r = true ->
  visible ms p = Some m ->
  match m_kind m with
  | GrantMount g => g ∈ gs /\ exists n, n ∈ named_roots data_home data_root (app_data_root plan) /\
                                        path_starts_with (sandbox_path g) n = true
  | _ => True
  end.
Proof.
  intros Hplan Hms Hr Hp Hv.
  destruct (data_mounts_ok _ _ Hms) as (before & masks & after & final & -> & Hb & Hm & Hm2 & Ha & Hf & _).
  destruct (visible_split _ _ _ Hv) as (l1 & l2 & E & Hc & _).
  assert (m ∈ before \/ m ∈ masks \/ m ∈ after \/ m = final) as Hin.
  { assert (m ∈ before ++ masks ++ after ++ [final]) as Hin by (rewrite E; set_solver). set_solver. }
  destruct (build_ok s app_data data_home data_root gs plan Hplan) as (aliases & Hbuild & _).
  apply build_with_aliases_ok in Hbuild as (root & _ & <- & _ & _ & Hafter & _).
  assert (m ∈ before -> m ∈ masks ++ after ++ [final]) as Hhide.
  { intros Hbf. destruct (Hb _ Hbf) as (g & Hg & Hgm). apply grant_mount_at in Hgm as (_ & Hat & _).
    rewrite (covers_at _ _ _ Hat) in Hc.
    destruct (protected_masked s app_data data_home data_root gs plan Hplan r g p Hr Hp Hg Hc)
      as (mr & Hmr & Hin2).
    destruct (Hm2 _ Hin2) as (m' & Hm' & Hat'). eapply visible_not_before; [exact Hv|].
    exists m'. split; [set_solver|]. by rewrite (covers_at _ _ _ Hat'). }
  assert (m ∈ masks \/ m ∈ after \/ m = final) as [Hx|[Hx| ->]] by set_solver.
  - by destruct (Hm _ Hx) as [-> _].
  - destruct (Ha _ Hx) as (g & Hg & Hgm). apply grant_mount_at in Hgm as (-> & _ & _).
    apply Hafter in Hg as (Hg & _ & n & Hn & Hs). split; [done|]. exists n. split; [|done].
    unfold named_roots. set_solver.
  - by rewrite Hf.
Qed.

Definition example_grants : list HostPathGrant :=
  [mkGrant "home" "home" "/home/u" "/home/u" "/home/u" ReadWrite;
   mkGrant "home" "home" "/home/u/.var/app/org.b/data" "/home/u/.var/app/org.b/data"
     "/home/u/.var/app/org.b/data" ReadOnly].
Definition example_plan : result FlatpakDataMountPlan :=
  build example_host example_grants "/home/u/.var/app/org.a" "/home/u/.local/share"
    "/home/u/.local/share/fbsd".

Lemma broad_grants_hide_protected_witness :
  match example_plan with
  | Ok plan => match data_mounts plan with
    | Ok ms => match visible ms "/home/u/.var/app/org.b/data/x" with
      | Some m => m_kind m = GrantMount (mkGrant "home" "home" "/home/u/.var/app/org.b/data"
          "/home/u/.var/app/org.b/data" "/home/u/.var/app/org.b/data" ReadOnly) /\
          (exists n, n ∈ named_roots "/home/u/.local/share" "/home/u/.local/share/fbsd" (app_data_root plan) /\
             path_starts_with "/home/u/.var/app/org.b/data" n = true)
      | None => False end
    | Err _ => False end
  | Err _ => False
  end.
Proof.
  destruct example_plan as [plan|e] eqn:E; [|vm_compute in E; discriminate E].
  destruct (data_mounts plan) as [ms|e] eqn:Em; [|vm_compute in E; injection E as <-; discriminate Em].
  destruct (visible ms "/home/u/.var/app/org.b/data/x") as [m|] eqn:Ev;
    [|vm_compute in E; injection E as <-; vm_compute in Em; injection Em as <-; discriminate Ev].
  assert (m_kind m = GrantMount (mkGrant "home" "home" "/home/u/.var/app/org.b/data"
          "/home/u/.var/app/org.b/data" "/home/u/.var/app/org.b/data" ReadOnly)) as Hk.
  { vm_compute in E; injection E as <-; vm_compute in Em; injection Em as <-; vm_compute in Ev.
    injection Ev as <-. reflexivity. }
  assert (app_data_root plan = "/home/u/.var/app") as Er.
  { vm_compute in E; injection E as <-. reflexivity. }
  pose proof (broad_grants_hide_protected example_host _ _ _ _ plan ms "/home/u/.var/app/org.b/data/x"
    (app_data_root plan) m E Em) as T. rewrite Hk in T. split; [exact Hk|]. apply T; [| |exact Ev].
  - left. right. right. left.
  - rewrite Er. reflexivity.
Defined.

(** The application's own data directory is always what is visible at its
    path, whatever was granted, and a mask is visible only inside a directory
    the plan masks. *)
Theorem own_data_is_visible plan ms p :
  data_mounts plan = Ok ms ->
  (path_starts_with p (app_data plan) = true ->
     exists m, visible ms p = Some m /\ m_kind m = AppDataMount (app_data plan)) /\
  (forall m, visible ms p = Some m -> m_kind m = TmpfsMask ->
     exists root, path_starts_with p root = true /\
       (root ∈ reserved_roots_to_mask plan \/
        mask_app_data_root plan = true /\ root = app_data_root plan)).
Proof.
  intros Hms.
  destruct (data_mounts_ok _ _ Hms) as (before & masks & after & final & -> & Hb & Hm & _ & Ha & Hf & Hat).
  split.
  - intros Hp. exists final. split; [|done]. rewrite !app_assoc. apply visible_last.
    by rewrite (covers_at _ _ _ Hat).
  - intros m (l1 & l2 & E & Hc & _)%visible_split Hk.
    assert (m ∈ before ++ masks ++ after ++ [final]) as Hin by (rewrite E; set_solver).
    rewrite !elem_of_app, list_elem_of_singleton in Hin. destruct Hin as [Hin|[Hin|[Hin| ->]]].
    + destruct (Hb _ Hin) as (g & _ & Hg). apply grant_mount_at in Hg as (Hg & _). congruence.
    + destruct (Hm _ Hin) as (_ & root & Hr & Hroot). exists root. split; [|done].
      by rewrite <- (covers_at _ _ _ Hr).
    + destruct (Ha _ Hin) as (g & _ & Hg). apply grant_mount_at in Hg as (Hg & _). congruence.
    + congruence.
Qed.

Lemma own_data_is_visible_witness :
  match example_plan with
  | Ok plan => match data_mounts plan with
    | Ok ms => exists m, visible ms "/home/u/.var/app/org.a/data" = Some m /\
        m_kind m = AppDataMount (app_data plan)
    | Err _ => False end
  | Err _ => False
  end.
Proof.
  destruct example_plan as [plan|e] eqn:E; [|vm_compute in E; discriminate E].
  destruct (data_mounts plan) as [ms|e] eqn:Em; [|vm_compute in E; injection E as <-; discriminate Em].
  apply (proj1 (own_data_is_visible plan ms "/home/u/.var/app/org.a/data" Em)).
  vm_compute in E; injection E as <-; reflexivity.
Defined.
