(* ===== verification/Processes.v ===== *)
(** * Processes: identities, the kernel's process table and termination
    (src/src/process_identity.rs, src/src/sandbox/process_supervision.rs)

    A launcher is identified by its process id and the time it started, so that
    a record never refers to a later process with the same id.  A sandbox's
    processes are found through the directories [procstat] says they use, never
    through recorded ids.  Paths are their component lists (see RustPath). *)
From Stdlib Require Import Ascii String ZArith Lia Sorting.Sorted.
From stdpp Require Import base list strings sets.
From S2P Require Import Prelude Collections RustStr RustNum RustPath Effects.

(** ** Identities *)

Record ProcessIdentity := mkIdentity { start_seconds : Z; start_microseconds : Z }.
#[export] Instance process_identity_eq_dec : EqDecision ProcessIdentity.
Proof. solve_decision. Defined.

Definition parse_identity (v : string) : option ProcessIdentity :=
  '(seconds, microseconds) ← split_once ":" v;
  s ← parse_i64 seconds;
  u ← parse_i64 microseconds;
  Some (mkIdentity s u).

Definition display_identity (i : ProcessIdentity) : string :=
  fmt [show_Z (start_seconds i); ":"; show_Z (start_microseconds i)].

(** The process table as [sysctl] reports it: an error other than the absence
    of the process, or the start time of the process with the id. *)
Definition identity_for_pid (lookup : Z -> result (option ProcessIdentity)) (pid : Z)
  : result (option ProcessIdentity) :=
  if (pid <=? 0)%Z then Ok None else lookup pid.

(** ** The table of process references *)

(** The index of the first occurrence, [str::find]. *)
Fixpoint find_sub (needle s : string) : option nat :=
  if starts_with needle s then Some 0
  else match s with
       | EmptyString => None
       | String _ r => S <$> find_sub needle r
       end.

Definition is_char_boundary (s : string) (i : nat) : bool :=
  match String.get i s with
  | None => Nat.eqb i (len s)
  | Some a => let n := N_of_ascii a in ((n <? 128) || (192 <=? n))%N
  end.

(** [str::get(i..j)] *)
Definition get_range (s : string) (i j : nat) : option string :=
  if (i <=? j)%nat && (j <=? len s)%nat && is_char_boundary s i && is_char_boundary s j
  then Some (String.substring i (j - i) s) else None.

Definition trim_end (s : string) : string :=
  string_of_list_ascii (rev (trim_back (rev (list_ascii_of_string s)))).

Record ProcstatLayout := mkLayout { pid_end : nat; fd_start : nat; fd_end : nat; name_start : nat }.

Definition from_header (h : string) : option ProcstatLayout :=
  pid_end ← find_sub " COMM" h;
  fd_end ← find_sub " T V FLAGS" h;
  fd_start ← (if (4 <=? fd_end)%nat then Some (fd_end - 4) else None);
  name_start ← find_sub "NAME" h;
  Some (mkLayout pid_end fd_start fd_end name_start).

Definition reference (l : ProcstatLayout) (line : string) : option (Z * string * pathbuf) :=
  pid ← (t ← get_range line 0 (pid_end l); parse_i32 (trim t));
  fd ← get_range line (fd_start l) (fd_end l);
  name ← get_range line (name_start l) (len line);
  Some (pid, trim fd, components (trim_end name)).

Definition SandboxProcessSnapshot : Type := list (Z * pathbuf).

Definition parse_snapshot (text : string) : SandboxProcessSnapshot :=
  match lines text with
  | [] => []
  | h :: rest =>
      match from_header h with
      | None => []
      | Some layout =>
          map (fun r => (r.1.1, r.2))
            (List.filter (fun r => bool_decide (r.1.2 ∈ ["cwd"; "root"; "jail"]))
              (omap (reference layout) rest))
      end
  end.

Definition references_root (s : SandboxProcessSnapshot) (root : pathbuf) : bool :=
  existsb (fun r => pb_starts_with r.2 root) s.

Definition pids_referencing_roots (s : SandboxProcessSnapshot) (roots : list pathbuf) : list Z :=
  bs_of_list (map fst
    (List.filter (fun r => existsb (fun root => pb_starts_with r.2 root) roots) s)).
Definition pids_referencing_root (s : SandboxProcessSnapshot) (root : pathbuf) : list Z :=
  pids_referencing_roots s [root].

(** ** Termination *)

Definition SIGTERM : Z := 15.
Definition SIGKILL : Z := 9.

(** What the termination loops use of the system. *)
Class ProcessWorld (W : Type) := {
  capture : M W SandboxProcessSnapshot;
  send_signal : Z -> Z -> M W unit;
  pause : M W unit;
  self_pid : Z;
}.

Section Terminate.
Context {W : Type} `{ProcessWorld W}.

(** [n] rounds with one signal; [None] once there are none left to signal. *)
Fixpoint signal_rounds (n : nat) (signal : Z) (processes : M W (list Z)) : M W (option unit) :=
  match n with
  | 0 => mret (Some tt)
  | S n =>
      pids ← processes;
      if bool_decide (pids = []) then mret None
      else
        _ ← for_each (fun pid => send_signal pid signal) pids;
        _ ← pause;
        signal_rounds n signal processes
  end.

(** [terminate_processes_with] of stale_sandbox_recovery.rs *)
Definition terminate_processes_with (processes : M W (list Z)) : M W (list Z) :=
  r ← signal_rounds 20 SIGTERM processes;
  match r with
  | None => mret []
  | Some _ =>
      r ← signal_rounds 20 SIGKILL processes;
      match r with
      | None => mret []
      | Some _ => processes
      end
  end.

Definition terminate_processes_referencing_roots (roots : list pathbuf) : M W bool :=
  snapshot ← capture;
  if bool_decide (pids_referencing_roots snapshot roots = []) then mret false
  else
    let others := (fun s => List.filter (fun pid => negb (Z.eqb pid self_pid))
                              (pids_referencing_roots s roots)) <$> capture in
    r ← signal_rounds 20 SIGTERM others;
    match r with
    | None => mret true
    | Some _ =>
        r ← signal_rounds 20 SIGKILL others;
        match r with
        | None => mret true
        | Some _ =>
            snapshot ← capture;
            if bool_decide (pids_referencing_roots snapshot roots = []) then mret true
            else lift (bail (fmt ["sandbox processes survived SIGKILL: [";
                   join ", " (map show_Z (pids_referencing_roots snapshot roots)); "]"]))
        end
    end.

(** [chroot_processes] and [terminate_chroot_processes] of
    stale_sandbox_recovery.rs *)
Definition chroot_processes (root : pathbuf) : M W (list Z) :=
  (fun s => List.filter (fun pid => negb (Z.eqb pid self_pid)) (pids_referencing_root s root)) <$> capture.

Definition terminate_chroot_processes (root : pathbuf) : M W unit :=
  initial ← chroot_processes root;
  if bool_decide (initial = []) then mret tt
  else
    remaining ← terminate_processes_with (chroot_processes root);
    if bool_decide (remaining = []) then mret tt
    else lift (bail (fmt ["sandbox processes survived SIGKILL: [";
                          join ", " (map show_Z remaining); "]"])).
End Terminate.

(** ** Lemmas *)

Lemma identity_roundtrip i :
  (i64_min <= start_seconds i <= i64_max)%Z -> (i64_min <= start_microseconds i <= i64_max)%Z ->
  parse_identity (display_identity i) = Some i.
Proof.
  intros H1 H2. unfold parse_identity, display_identity.
  rewrite (proj2 (split_once_Some ":" _ (show_Z (start_seconds i)) (show_Z (start_microseconds i)))).
  - cbn [mbind option_bind]. unfold parse_i64. rewrite !parse_int_show by done. by destruct i.
  - split; [by str_norm|]. unfold show_Z.
    assert (forall n, has ":" (show_N n) = false) as Hn.
    { intros n. pose proof (show_N_digits n) as Hd. revert Hd. generalize (show_N n). intros t.
      induction t as [|a t IH]; cbn; [done|]. intros [Ha Ht]%andb_true_iff. rewrite (IH Ht), orb_false_r.
      apply Ascii.eqb_neq. by intros ->. }
    destruct (_ <? 0)%Z; [|apply Hn]. rewrite has_app. by rewrite Hn.
Qed.

Lemma references_root_true s root :
  references_root s root = true <-> exists pid p, (pid, p) ∈ s /\ root `prefix_of` p.
Proof.
  unfold references_root. rewrite existsb_exists. setoid_rewrite <- list_elem_of_In.
  setoid_rewrite pb_starts_with_true. split; [intros ([pid p] & ? & ?); eauto|].
  intros (pid & p & ? & ?). by exists (pid, p).
Qed.

Lemma elem_of_pids s roots pid :
  pid ∈ pids_referencing_roots s roots <->
  exists p root, (pid, p) ∈ s /\ root ∈ roots /\ root `prefix_of` p.
Proof.
  unfold pids_referencing_roots. rewrite elem_of_bs_of_list, list_elem_of_fmap.
  setoid_rewrite list_elem_of_In at 1. setoid_rewrite filter_In. setoid_rewrite existsb_exists.
  setoid_rewrite pb_starts_with_true. setoid_rewrite <- list_elem_of_In.
  split.
  - intros ([pid' p] & -> & Hin & root & ? & ?). by exists p, root.
  - intros (p & root & ? & ? & ?). exists (pid, p). split_and!; [done..|]. by exists root.
Qed.
