(* ===== verification/ProcessTrees.v ===== *)
(** * ProcessTrees: the reaper and the processes below it
    (src/src/sandbox/process_supervision.rs, from ProcessReaper to reaper_pid_info)

    A launcher makes itself the reaper of its descendants and follows the
    subtree of every program it starts: it waits until no process of the subtree
    is left, passes signals on to the whole subtree, and sends SIGKILL once the
    grace period after a signal is over.

    The kernel's answers are arbitrary; every call is recorded.  Times are in
    nanoseconds, as [Instant] and [Duration] have them.  The loops run for as
    long as processes remain: their fuel is the number of rounds, [None] means
    that they are still waiting, and the theorems bound the number of rounds
    after a signal has been asked for. *)
From Stdlib Require Import Ascii String NArith ZArith Lia.
From stdpp Require Import base list strings sets.
From S2P Require Import Prelude Effects Traces RustStr RustNum Processes.

Definition POLL_INTERVAL : Z := 100000000.
Definition TERMINATION_GRACE : Z := 2000000000.
Definition FORCE_STOP_SIGNAL : Z := 30. (* SIGUSR1 *)
Definition ESRCH : Z := 3.
Definition REAPER_STATUS_OWNED : N := 1.
Definition REAPER_PIDINFO_VALID : N := 1.

(** ** The system *)

(** [io::Error]: the number of the error and its text. *)
Record os_error := mkOsError { errno : Z; os_text : string }.
Abbreviation answer A := (A + os_error)%type (only parsing).
Definition os_context {A} (msg : string) (r : answer A) : result A :=
  match r with inl a => Ok a | inr e => Err [msg; os_text e] end.

Record ReaperStatus := mkReaperStatus { rs_flags : N; rs_descendants : N }.
Record ReaperPidInfo := mkPidInfo { pi_pid : Z; pi_subtree : Z; pi_flags : N }.
#[export] Instance reaper_pid_info_eq_dec : EqDecision ReaperPidInfo.
Proof. solve_decision. Defined.
Definition default_pid_info : ReaperPidInfo := mkPidInfo 0 0 0.

Inductive TreeEvent :=
| EReapStatus (pid : Z) (r : answer ReaperStatus)
| EReapGetPids (count : N) (r : answer (list ReaperPidInfo))
| EReapKill (signal subtree : Z) (r : answer unit)
| EReaper (acquire : bool) (r : answer unit)
| EWaitPid (pid : Z)
| ETryWait (child : Z) (r : answer (option Z))
| ENow (t : Z)
| ESleep (d : Z)
| EIdentity (pid : Z) (r : result (option ProcessIdentity))
| EKill (pid signal : Z) (r : answer unit).

(** What the code asks of the system: [procctl], [waitpid], the clock,
    [sysctl] for the start time of a process, [kill].  [reap_get_pids] answers
    with the entries the kernel writes to the front of the buffer. *)
Class ReaperSystem (W : Type) := {
  reap_status : Z -> W -> answer ReaperStatus * W;
  reap_get_pids : N -> W -> answer (list ReaperPidInfo) * W;
  reap_kill : Z -> Z -> W -> answer unit * W;
  set_reaper : bool -> W -> answer unit * W;
  wait_pid : Z -> W -> unit * W;
  try_wait : Z -> W -> answer (option Z) * W;
  instant_now : W -> Z * W;
  thread_sleep : Z -> W -> unit * W;
  lookup_identity : Z -> W -> result (option ProcessIdentity) * W;
  kill_process : Z -> Z -> W -> answer unit * W;
}.

Section Trees.
Context {W : Type} `{!ReaperSystem W}.
Abbreviation T A := (M (traced W TreeEvent) A) (only parsing).

Definition now : T Z := ask ENow instant_now.
Definition sleep (d : Z) : T unit := ask (fun _ => ESleep d) (thread_sleep d).

(** ** The reaper *)

Definition set_reaper_status (acquire : bool) : T unit :=
  r ← ask (EReaper acquire) (set_reaper acquire);
  lift (os_context (if acquire then "acquire sandbox process reaper" else "release sandbox process reaper") r).

Definition reaper_status : T ReaperStatus :=
  r ← ask (EReapStatus 0) (reap_status 0);
  lift (os_context "read sandbox process reaper status" r).

(** The buffer after the kernel has written to its front. *)
Definition filled (n : nat) (entries : list ReaperPidInfo) : list ReaperPidInfo :=
  take n entries ++ replicate (n - length entries) default_pid_info.

(** [take_while] *)
Fixpoint valid_entries (l : list ReaperPidInfo) : list ReaperPidInfo :=
  match l with
  | [] => []
  | p :: r => if negb (N.land (pi_flags p) REAPER_PIDINFO_VALID =? 0)%N then p :: valid_entries r else []
  end.

Definition reaper_pid_info : T (list ReaperPidInfo) :=
  status ← reaper_status;
  let descendant_count := rs_descendants status in
  if (descendant_count =? 0)%N then mret []
  else
    let len := (descendant_count + 16)%N in
    r ← ask (EReapGetPids (len mod 2 ^ 32)) (reap_get_pids (len mod 2 ^ 32));
    entries ← lift (os_context "list sandbox process descendants" r);
    mret (valid_entries (filled (N.to_nat len) entries)).

Record ProcessReaper := mkReaper { acquired : bool }.

Definition acquire : T ProcessReaper := _ ← set_reaper_status true; mret (mkReaper true).
Definition drop_reaper (r : ProcessReaper) : T unit :=
  if acquired r then _ ← catch (set_reaper_status false); mret tt else mret tt.

(** [i32::try_from] of a [u32]. *)
Definition to_pid_t (n : Z) : option Z := if (n <? 2 ^ 31)%Z then Some n else None.

(** A tree and a subtree are both the process id of their root. *)
Definition track (subtree : Z) : result Z := ok_or "sandbox process id exceeds pid_t" (to_pid_t subtree).

Definition subtree_for_descendant (descendant : Z) : T (option Z) :=
  descendant ← lift (ok_or "sandbox descendant id exceeds pid_t" (to_pid_t descendant));
  info ← reaper_pid_info;
  mret (pi_subtree <$> List.find (fun p => pi_pid p =? descendant)%Z info).

(** ** The processes of a subtree *)

Definition subtree_pids (subtree : Z) : T (list Z) :=
  info ← reaper_pid_info;
  mret (map pi_pid (List.filter (fun p => pi_subtree p =? subtree)%Z info)).

Definition processes_remain (subtree : Z) (reap_tracked_child : bool) : T bool :=
  pids ← subtree_pids subtree;
  _ ← for_each (fun pid => if negb reap_tracked_child && (pid =? subtree)%Z then mret tt
                           else ask (fun _ => EWaitPid pid) (wait_pid pid)) pids;
  if Nat.eqb (length pids) 0 then mret false
  else
    pids ← subtree_pids subtree;
    mret (negb (Nat.eqb (length pids) 0)).

Definition signal_subtree (subtree signal : Z) : T unit :=
  r ← ask (EReapKill signal subtree) (reap_kill signal subtree);
  match r with
  | inl _ => mret tt
  | inr e => if (errno e =? ESRCH)%Z then mret tt
             else lift (Err ["signal sandbox process descendants"; os_text e])
  end.

Definition survived {A} (subtree : Z) : T A :=
  lift (bail (fmt ["sandbox process tree rooted at pid "; show_Z subtree; " survived SIGKILL"])).

(** ** Waiting for the tracked program *)

(** The signal asked for and the end of its grace period. *)
Definition Termination : Type := option (Z * Z).

Definition ask_for_termination (termination_signal : T (option Z)) (termination : Termination) : T Termination :=
  match termination with
  | Some _ => mret termination
  | None =>
      signal ← termination_signal;
      match signal with
      | None => mret None
      | Some signal => t ← now; mret (Some (signal, t + TERMINATION_GRACE)%Z)
      end
  end.

Definition pass_on_signal (subtree : Z) (termination : Termination) : T Termination :=
  match termination with
  | None => mret None
  | Some (signal, deadline) =>
      _ ← signal_subtree subtree signal;
      t ← now;
      if (deadline <=? t)%Z
      then if (signal =? SIGKILL)%Z then survived subtree
           else t ← now; mret (Some (SIGKILL, t + TERMINATION_GRACE)%Z)
      else mret termination
  end.

Fixpoint wait_loop (fuel : nat) (subtree child : Z) (termination_signal : T (option Z))
    (status : option Z) (termination : Termination) : T (option Z) :=
  match fuel with
  | 0 => mret None
  | S fuel =>
      status ← (match status with
                | Some _ => mret status
                | None => r ← ask (ETryWait child) (try_wait child); lift (os_context "wait for app process" r)
                end);
      remain ← processes_remain subtree false;
      if negb remain then Some <$> lift (ok_or "sandbox process tree exited without app status" status)
      else
        termination ← ask_for_termination termination_signal termination;
        termination ← pass_on_signal subtree termination;
        _ ← sleep POLL_INTERVAL;
        wait_loop fuel subtree child termination_signal status termination
  end.

Definition wait_for_exit_with_signal (fuel : nat) (subtree child : Z) (termination_signal : T (option Z)) : T (option Z) :=
  wait_loop fuel subtree child termination_signal None None.

Definition wait_for_exit (fuel : nat) (subtree child : Z) (termination_requested : T bool) : T (option Z) :=
  wait_for_exit_with_signal fuel subtree child
    ((fun requested : bool => if requested then Some SIGTERM else None) <$> termination_requested).

(** ** Ending a tree *)

Fixpoint empty_loop (fuel : nat) (subtree signal deadline : Z) (reap_subtree_root : bool) : T (option bool) :=
  match fuel with
  | 0 => mret None
  | S fuel =>
      remain ← processes_remain subtree reap_subtree_root;
      if negb remain then mret (Some true)
      else
        _ ← signal_subtree subtree signal;
        t ← now;
        if (deadline <=? t)%Z then mret (Some false)
        else _ ← sleep POLL_INTERVAL; empty_loop fuel subtree signal deadline reap_subtree_root
  end.

Definition wait_until_empty (fuel : nat) (subtree timeout signal : Z) (reap_subtree_root : bool) : T (option bool) :=
  t ← now; empty_loop fuel subtree signal (t + timeout) reap_subtree_root.

Definition terminate_with_signal_mode (fuel : nat) (subtree signal : Z) (reap_subtree_root : bool) : T (option unit) :=
  empty ← wait_until_empty fuel subtree TERMINATION_GRACE signal reap_subtree_root;
  match empty with
  | None => mret None
  | Some true => mret (Some tt)
  | Some false =>
      empty ← wait_until_empty fuel subtree TERMINATION_GRACE SIGKILL reap_subtree_root;
      match empty with
      | None => mret None
      | Some true => mret (Some tt)
      | Some false => survived subtree
      end
  end.

Definition terminate_with_signal (fuel : nat) (subtree signal : Z) : T (option unit) :=
  terminate_with_signal_mode fuel subtree signal true.
Definition terminate (fuel : nat) (subtree : Z) : T (option unit) := terminate_with_signal fuel subtree SIGTERM.

(** What happens to a tree that is dropped. *)
Definition drop_tree (fuel : nat) (subtree : Z) : T unit := _ ← catch (terminate fuel subtree); mret tt.

Definition terminate_orphaned_subtree_with_signal (fuel : nat) (subtree signal : Z) : T (option bool) :=
  info ← reaper_pid_info;
  if existsb (fun p => pi_pid p =? subtree)%Z info then mret (Some false)
  else
    r ← terminate_with_signal_mode fuel subtree signal false;
    mret ((fun _ => true) <$> r).

(** ** Stopping another launcher *)

Inductive ForceStopResult := Signaled | Exited | Stale.

(** [ProcessIdentity::for_pid] *)
Definition identity_of (pid : Z) : T (option ProcessIdentity) :=
  if (pid <=? 0)%Z then mret None else r ← ask (EIdentity pid) (lookup_identity pid); lift r.

Definition force_stop_launcher (pid : Z) (expected : ProcessIdentity) : T ForceStopResult :=
  current ← identity_of pid;
  if negb (bool_decide (current = Some expected)) then mret Stale
  else
    r ← ask (EReapStatus pid) (reap_status pid);
    match r with
    | inr e => if (errno e =? ESRCH)%Z then mret Exited
               else lift (Err [fmt ["inspect launcher process "; show_Z pid]; os_text e])
    | inl status =>
        if (N.land (rs_flags status) REAPER_STATUS_OWNED =? 0)%N then mret Stale
        else
          current ← identity_of pid;
          if negb (bool_decide (current = Some expected)) then mret Exited
          else
            r ← ask (EKill pid FORCE_STOP_SIGNAL) (kill_process pid FORCE_STOP_SIGNAL);
            match r with
            | inl _ => mret Signaled
            | inr e => if (errno e =? ESRCH)%Z then mret Exited
                       else lift (Err [fmt ["request force-stop from launcher "; show_Z pid]; os_text e])
            end
    end.
End Trees.

(** ** Lemmas: what is recorded *)

Section Recorded.
Context {W : Type} `{!ReaperSystem W}.
Abbreviation T A := (M (traced W TreeEvent) A) (only parsing).

(** Listing processes and collecting the ended ones. *)
Definition looking (e : TreeEvent) : Prop :=
  match e with EReapStatus 0 _ | EReapGetPids _ _ | EWaitPid _ => True | _ => False end.

Lemma looking_pid_info : only looking reaper_pid_info.
Proof.
  apply only_bind; [apply only_bind; [by apply emits_ask; repeat constructor|intros; by apply emits_lift]|]. intros st.
  cbn zeta. apply only_if; [by apply emits_ret|].
  apply only_bind; [by apply emits_ask; repeat constructor|]. intros r.
  apply only_bind; [by apply emits_lift|]. intros l. by apply emits_ret.
Qed.

(** The root of the subtree is collected only when that is asked for. *)
Definition keeps_root (subtree : Z) (reap : bool) (e : TreeEvent) : Prop :=
  looking e /\ (reap = false -> e <> EWaitPid subtree).

Lemma looking_keeps_root subtree reap {A} (m : M (traced W TreeEvent) A) :
  only (fun e => looking e /\ forall p, e <> EWaitPid p) m -> only (keeps_root subtree reap) m.
Proof. intros Hm. eapply emits_mono; [exact Hm|]. intros r ev Hev. eapply Forall_impl; [exact Hev|]. intros e [? ?]. by split. Qed.

Lemma pid_info_keeps_root subtree reap : only (keeps_root subtree reap) reaper_pid_info.
Proof.
  apply looking_keeps_root.
  apply only_bind; [apply only_bind; [by apply emits_ask; repeat constructor|intros; by apply emits_lift]|]. intros st.
  cbn zeta. apply only_if; [by apply emits_ret|].
  apply only_bind; [by apply emits_ask; repeat constructor|]. intros r.
  apply only_bind; [by apply emits_lift|]. intros l. by apply emits_ret.
Qed.
Lemma subtree_pids_keeps_root subtree s reap : only (keeps_root subtree reap) (subtree_pids s).
Proof. apply only_bind; [apply pid_info_keeps_root|]. intros. by apply emits_ret. Qed.

Lemma remain_keeps_root subtree reap : only (keeps_root subtree reap) (processes_remain subtree reap).
Proof.
  apply only_bind; [apply subtree_pids_keeps_root|]. intros pids. apply only_bind.
  - apply only_for_each. intros pid _. destruct (negb reap && _) eqn:E; [by apply emits_ret; constructor|].
    apply emits_ask. intros []. constructor; [|done]. split; [done|]. intros -> [= ->]. by rewrite Z.eqb_refl in E.
  - intros _. apply only_if; [by apply emits_ret|]. apply only_bind; [apply subtree_pids_keeps_root|]. intros. by apply emits_ret.
Qed.
Lemma remain_only_looks subtree reap : only looking (processes_remain subtree reap).
Proof. eapply emits_mono; [apply remain_keeps_root|]. intros r ev Hev. eapply Forall_impl; [exact Hev|]. by intros e [? ?]. Qed.
(** What every call of the loop satisfies, if the calls of its parts do. *)
Lemma ask_only P (ask_signal : T (option Z)) tm :
  (forall t, P (ENow t)) -> only P ask_signal -> only P (ask_for_termination ask_signal tm).
Proof.
  intros HP Ha. destruct tm as [x|]; [by apply emits_ret; constructor|]. apply only_bind; [done|]. intros [x|]; [|by apply emits_ret; constructor].
  apply only_bind; [by apply emits_ask; repeat constructor|]. intros. apply emits_ret. constructor.
Qed.
Lemma signal_only (P : TreeEvent -> Prop) subtree signal : (forall s t r, P (EReapKill s t r)) -> only P (signal_subtree subtree signal).
Proof.
  intros HP. apply only_bind; [by apply emits_ask; repeat constructor|]. intros [[]|e]; [by apply emits_ret; constructor|].
  apply only_if; [by apply emits_ret; constructor|by apply emits_lift; constructor].
Qed.
Lemma pass_on_only (P : TreeEvent -> Prop) subtree tm :
  (forall t, P (ENow t)) -> (forall s t r, P (EReapKill s t r)) -> only P (pass_on_signal subtree tm).
Proof.
  intros H1 H2. destruct tm as [[sig d]|]; [|by apply emits_ret; constructor]. apply only_bind; [by apply signal_only|].
  intros _. apply only_bind; [by apply emits_ask; repeat constructor|]. intros t. apply only_if; [|by apply emits_ret; constructor].
  apply only_if; [by apply emits_lift; constructor|]. apply only_bind; [by apply emits_ask; repeat constructor|].
  intros. apply emits_ret. constructor.
Qed.
Lemma try_wait_only (P : TreeEvent -> Prop) child (status : option Z) : (forall r, P (ETryWait child r)) ->
  only P (match status with
          | Some _ => mret status
          | None => r ← ask (ETryWait child) (try_wait child); lift (os_context "wait for app process" r)
          end : T (option Z)).
Proof.
  intros HP. destruct status; [by apply emits_ret; constructor|]. apply only_bind; [by apply emits_ask; repeat constructor|].
  intros. by apply emits_lift.
Qed.
End Recorded.

(** ** Lemmas: what holds of the calls holds of the operations *)

Section Closed.
Context {W : Type} `{!ReaperSystem W}.
Abbreviation T A := (M (traced W TreeEvent) A) (only parsing).
Context (Q : forall A, T A -> Prop).

(** A property of computations that every call has and that is kept by the
    combinations the operations are made of. *)
Record closed_under_calls : Prop := {
  closed_ret : forall A (a : A), Q A (mret a);
  closed_lift : forall A (x : result A), Q A (lift x);
  closed_bind : forall A B (m : T A) (f : A -> T B), Q A m -> (forall a, Q B (f a)) -> Q B (m ≫= f);
  closed_fmap : forall A B (f : A -> B) (m : T A), Q A m -> Q B (f <$> m);
  closed_status : forall p, Q _ (ask (EReapStatus p) (reap_status p));
  closed_get_pids : forall n, Q _ (ask (EReapGetPids n) (reap_get_pids n));
  closed_reap_kill : forall s t, Q _ (ask (EReapKill s t) (reap_kill s t));
  closed_wait_pid : forall p, Q _ (ask (fun _ => EWaitPid p) (wait_pid p));
  closed_try_wait : forall c, Q _ (ask (ETryWait c) (try_wait c));
  closed_now : Q _ now;
  closed_sleep : forall d, Q _ (sleep d);
}.
Context (C : closed_under_calls).

Ltac one_closed :=
  first [apply (closed_ret C) | apply (closed_lift C) | apply (closed_bind C) | apply (closed_fmap C) | apply (closed_status C)
    | apply (closed_get_pids C) | apply (closed_reap_kill C) | apply (closed_wait_pid C) | apply (closed_try_wait C)
    | apply (closed_now C) | apply (closed_sleep C) | assumption
    | match goal with |- Q _ (match ?x with _ => _ end) => destruct x end | intros ?; cbv zeta].
Ltac go_closed := repeat one_closed.

Lemma closed_for_each {A} (f : A -> T unit) l : (forall a, Q _ (f a)) -> Q _ (for_each f l).
Proof using C. intros Hf. induction l; cbn [for_each]; go_closed. apply Hf. Qed.
Lemma closed_pid_info : Q _ reaper_pid_info.
Proof using C. unfold reaper_pid_info, reaper_status. go_closed. Qed.
Lemma closed_remain subtree reap : Q _ (processes_remain subtree reap).
Proof using C.
  unfold processes_remain, subtree_pids. repeat first [apply closed_pid_info | apply closed_for_each | one_closed].
Qed.
Lemma closed_signal subtree signal : Q _ (signal_subtree subtree signal).
Proof using C. unfold signal_subtree. go_closed. Qed.

Lemma closed_subtree_for descendant : Q _ (subtree_for_descendant descendant).
Proof using C. unfold subtree_for_descendant. repeat first [apply closed_pid_info | one_closed]. Qed.

Lemma closed_wait_loop fuel subtree child termination_signal status tm : Q _ termination_signal ->
  Q _ (wait_loop fuel subtree child termination_signal status tm).
Proof using C.
  intros Hs. revert status tm. induction fuel as [|fuel IH]; intros status tm; cbn [wait_loop]; [go_closed|].
  unfold ask_for_termination, pass_on_signal, survived.
  repeat first [apply closed_remain | apply closed_signal | apply IH | one_closed].
Qed.
Lemma closed_wait fuel subtree child requested : Q _ requested -> Q _ (wait_for_exit fuel subtree child requested).
Proof using C. intros Hs. apply closed_wait_loop. go_closed. Qed.

Lemma closed_until_empty fuel subtree timeout signal reap : Q _ (wait_until_empty fuel subtree timeout signal reap).
Proof using C.
  apply (closed_bind C); [apply (closed_now C)|]. intros t. generalize (t + timeout)%Z as d.
  induction fuel as [|fuel IH]; intros d; cbn [empty_loop]; [go_closed|].
  repeat first [apply closed_remain | apply closed_signal | apply IH | one_closed].
Qed.
Lemma closed_terminate fuel subtree signal reap : Q _ (terminate_with_signal_mode fuel subtree signal reap).
Proof using C. unfold terminate_with_signal_mode, survived. repeat first [apply closed_until_empty | one_closed]. Qed.
Lemma closed_orphaned fuel subtree signal : Q _ (terminate_orphaned_subtree_with_signal fuel subtree signal).
Proof using C.
  unfold terminate_orphaned_subtree_with_signal. repeat first [apply closed_pid_info | apply closed_terminate | one_closed].
Qed.
End Closed.

(** ** Lemmas: the clock *)

(** The clock does not go back, and a sleep is at least as long as asked for. *)
Class ClockLaws (W : Type) `{!ReaperSystem W} := {
  clock : W -> Z;
  now_clock : forall w, (instant_now w).1 = clock (instant_now w).2;
  now_later : forall w, (clock w <= clock (instant_now w).2)%Z;
  sleep_later : forall d w, (clock w + d <= clock (thread_sleep d w).2)%Z;
  status_later : forall p w, (clock w <= clock (reap_status p w).2)%Z;
  get_pids_later : forall n w, (clock w <= clock (reap_get_pids n w).2)%Z;
  kill_later : forall s t w, (clock w <= clock (reap_kill s t w).2)%Z;
  wait_pid_later : forall p w, (clock w <= clock (wait_pid p w).2)%Z;
  try_wait_later : forall p w, (clock w <= clock (try_wait p w).2)%Z;
}.

Section Clock.
Context {W : Type} `{ClockLaws W}.
Abbreviation T A := (M (traced W TreeEvent) A) (only parsing).

Definition later (w w' : W) : Prop := (clock w <= clock w')%Z.
#[local] Instance later_preorder : PreOrder later.
Proof. split; unfold later; [by intros ?|intros ???; lia]. Qed.

Lemma ask_later {A} (event : A -> TreeEvent) (m : W -> A * W) :
  (forall w, (clock w <= clock (m w).2)%Z) -> steps later (ask event m).
Proof. intros Hm. apply steps_ask. exact Hm. Qed.
Lemma now_steps : steps later now.
Proof. apply ask_later, now_later. Qed.

Ltac go_later :=
  repeat first [apply later_preorder | apply steps_ret | apply steps_lift | apply steps_fail | apply steps_if | apply steps_bind | apply steps_fmap
    | apply steps_for_each | apply now_steps
    | apply ask_later; first [apply status_later | apply get_pids_later | apply kill_later | apply wait_pid_later | apply try_wait_later]
    | match goal with |- steps _ (match ?x with _ => _ end) => destruct x end | intros ?; cbv zeta].

Lemma later_pid_info : steps later reaper_pid_info.
Proof.
  unfold reaper_pid_info, reaper_status. go_later.
Qed.
Lemma later_remain subtree reap : steps later (processes_remain subtree reap).
Proof. unfold processes_remain, subtree_pids. repeat first [apply later_pid_info | go_later]. Qed.
Lemma later_signal subtree signal : steps later (signal_subtree subtree signal).
Proof. unfold signal_subtree. go_later. Qed.

(** What one call of the loops reads from the clock. *)
Lemma now_spec s r s' : now s = (r, s') -> exists t, r = Ok t /\ (clock s.1 <= t)%Z /\ t = clock s'.1.
Proof.
  unfold now, ask. pose proof (now_clock s.1) as H1. pose proof (now_later s.1) as H2.
  destruct (instant_now s.1) as [t w]. intros [= <- <-]. cbn in *. exists t. by rewrite H1.
Qed.
Lemma sleep_spec d s r s' : sleep d s = (r, s') -> r = Ok tt /\ (clock s.1 + d <= clock s'.1)%Z.
Proof.
  unfold sleep, ask. pose proof (sleep_later d s.1) as H1. destruct (thread_sleep d s.1) as [[] w]. by intros [= <- <-].
Qed.
Lemma later_spec {A} (m : T A) s r s' : steps later m -> m s = (r, s') -> (clock s.1 <= clock s'.1)%Z.
Proof. intros Hm E. specialize (Hm s). by rewrite E in Hm. Qed.

(** Passing a signal on ends the loop with an error, leaves a deadline that is
    not over, or starts the last grace period. *)
Lemma pass_on_spec subtree signal deadline s r s' :
  pass_on_signal subtree (Some (signal, deadline)) s = (r, s') ->
  (clock s.1 <= clock s'.1)%Z /\
  match r with
  | Err _ => True
  | Ok t => (t = Some (signal, deadline) /\ (clock s.1 < deadline)%Z) \/
            (signal <> SIGKILL /\ exists d, t = Some (SIGKILL, d) /\ (d <= clock s'.1 + TERMINATION_GRACE)%Z)
  end.
Proof.
  unfold pass_on_signal. intros (o & s1 & E1 & Hr)%M_bind_cases. apply later_spec in E1; [|apply later_signal].
  destruct Hr as [([] & -> & Hr)|(e & -> & -> & ->)]; [|done].
  apply M_bind_cases in Hr as (o & s2 & E2 & Hr). apply now_spec in E2 as (t & -> & H2 & H3).
  destruct Hr as [(? & [= <-] & Hr)|(e & ? & ?)]; [|done]. destruct (Z.leb_spec deadline t).
  - destruct (Z.eqb_spec signal SIGKILL).
    + injection Hr as <- <-. split; [lia|done].
    + apply M_bind_cases in Hr as (o & s3 & E3 & Hr). apply now_spec in E3 as (t' & -> & H4 & H5).
      destruct Hr as [(? & [= <-] & Hr)|(e & ? & ?)]; [|done]. injection Hr as <- <-. split; [lia|]. right.
      split; [done|]. exists (t' + TERMINATION_GRACE)%Z. split; [done|lia].
  - injection Hr as <- <-. split; [lia|]. left. split; [done|lia].
Qed.

Context (subtree child : Z) (termination_signal : T (option Z)).
Context (ask_later' : steps later termination_signal) (asks : forall s, (termination_signal s).1 <> Ok None).

Lemma ask_spec tm s r s' : ask_for_termination termination_signal tm s = (r, s') ->
  (clock s.1 <= clock s'.1)%Z /\
  match r with
  | Err _ => True
  | Ok t => exists sig d, t = Some (sig, d) /\ (tm = Some (sig, d) \/ (tm = None /\ (d <= clock s'.1 + TERMINATION_GRACE)%Z))
  end.
Proof using ask_later' asks.
  destruct tm as [[sig d]|]; cbn [ask_for_termination]; [intros [= <- <-]; split; [done|]; by eauto|].
  intros (o & s1 & E1 & Hr)%M_bind_cases. pose proof (asks s) as Ha. rewrite E1 in Ha.
  apply later_spec in E1; [|done]. destruct Hr as [([sig|] & -> & Hr)|(e & -> & -> & ->)]; [|done|done].
  apply M_bind_cases in Hr as (o & s2 & E2 & Hr). apply now_spec in E2 as (t & -> & H2 & H3).
  destruct Hr as [(? & [= <-] & Hr)|(e & ? & ?)]; [|done]. injection Hr as <- <-. split; [lia|].
  exists sig, (t + TERMINATION_GRACE)%Z. split; [done|]. right. split; [done|lia].
Qed.

(** One round: the loop ends, or the clock advances and the deadline is not
    over, or the last grace period starts. *)
Lemma wait_round fuel status tm s r s' :
  wait_loop (S fuel) subtree child termination_signal status tm s = (r, s') ->
  r <> Ok None \/
  exists sig d c status' t s1,
    (tm = Some (sig, d) \/ (tm = None /\ (d <= c + TERMINATION_GRACE)%Z)) /\
    (clock s.1 <= c)%Z /\ (c + POLL_INTERVAL <= clock s1.1)%Z /\
    ((t = Some (sig, d) /\ (c < d)%Z) \/
     (sig <> SIGKILL /\ exists d', t = Some (SIGKILL, d') /\ (d' <= clock s1.1 - POLL_INTERVAL + TERMINATION_GRACE)%Z)) /\
    wait_loop fuel subtree child termination_signal status' t s1 = (r, s').
Proof using ask_later' asks.
  cbn [wait_loop]. intros (o & s1 & E1 & Hr)%M_bind_cases.
  assert (clock s.1 <= clock s1.1)%Z as H1.
  { eapply later_spec; [|exact E1]. go_later. }
  destruct Hr as [(status' & -> & Hr)|(e & -> & -> & ->)]; [|by left].
  apply M_bind_cases in Hr as (o & s2 & E2 & Hr). apply later_spec in E2; [|apply later_remain].
  destruct Hr as [(remain & -> & Hr)|(e & -> & -> & ->)]; [|by left].
  destruct remain; cbn [negb] in Hr; [|left; destruct status'; injection Hr as <- <-; by cbn].
  apply M_bind_cases in Hr as (o & s3 & E3 & Hr). apply ask_spec in E3 as [H3 H4].
  destruct Hr as [(tm' & -> & Hr)|(e & -> & -> & ->)]; [|by left]. destruct H4 as (sig & d & -> & H4).
  apply M_bind_cases in Hr as (o & s4 & E4 & Hr). apply pass_on_spec in E4 as [H5 H6].
  destruct Hr as [(t & -> & Hr)|(e & -> & -> & ->)]; [|by left].
  apply M_bind_cases in Hr as (o & s5 & E5 & Hr). apply sleep_spec in E5 as [-> H7].
  destruct Hr as [([] & _ & Hr)|(e & ? & ?)]; [|done]. right.
  exists sig, d, (clock s3.1), status', t, s5. split; [done|]. split; [lia|]. split; [lia|]. split; [|done].
  destruct H6 as [H6|(Hs & d' & -> & ?)]; [by left|right]. split; [done|]. exists d'. split; [done|lia].
Qed.

Lemma kill_ends n : forall fuel status d s, (n < fuel)%nat -> (d <= clock s.1 + Z.of_nat n * POLL_INTERVAL)%Z ->
  (wait_loop fuel subtree child termination_signal status (Some (SIGKILL, d)) s).1 <> Ok None.
Proof using ask_later' asks.
  induction n as [|n IH]; intros [|fuel] status d s Hf Hd; [lia| |lia|];
    destruct (wait_loop _ _ _ _ _ _ _) as [r s'] eqn:E; apply wait_round in E as [?|(sig & d1 & c & status' & t & s1 & [[= <- <-]|[? ?]] & Hc & Hp & Ht & E)];
    try done; (destruct Ht as [[-> Ht]|[? _]]; [|done]); cbn [fst].
  - unfold POLL_INTERVAL in *. lia.
  - specialize (IH fuel status' d s1). rewrite E in IH. apply IH; [lia|]. unfold POLL_INTERVAL in *. lia.
Qed.

Lemma signal_ends n : forall fuel status sig d s, (n + 21 < fuel)%nat -> (d <= clock s.1 + Z.of_nat n * POLL_INTERVAL)%Z ->
  (wait_loop fuel subtree child termination_signal status (Some (sig, d)) s).1 <> Ok None.
Proof using ask_later' asks.
  induction n as [|n IH]; intros [|fuel] status sig d s Hf Hd; [lia| |lia|];
    destruct (wait_loop _ _ _ _ _ _ _) as [r s'] eqn:E; apply wait_round in E as [?|(sig1 & d1 & c & status' & t & s1 & [[= <- <-]|[? ?]] & Hc & Hp & Ht & E)];
    try done; cbn [fst].
  1, 2: destruct Ht as [[-> Ht]|(_ & d' & -> & Ht)].
  - lia.
  - pose proof (kill_ends 20 fuel status' d' s1) as Hk. rewrite E in Hk. apply Hk; [lia|]. unfold POLL_INTERVAL, TERMINATION_GRACE in *. lia.
  - specialize (IH fuel status' sig d s1). rewrite E in IH. apply IH; [lia|]. unfold POLL_INTERVAL in *. lia.
  - pose proof (kill_ends 20 fuel status' d' s1) as Hk. rewrite E in Hk. apply Hk; [lia|]. unfold POLL_INTERVAL, TERMINATION_GRACE in *. lia.
Qed.
End Clock.

(** ** Lemmas: the order of the signals *)

Section Signals.
Context {W : Type} `{!ReaperSystem W}.
Abbreviation T A := (M (traced W TreeEvent) A) (only parsing).
Context (subtree : Z).

(** Another signal was sent to the subtree, and the grace period is over. *)
Definition warned (t : list TreeEvent) : Prop :=
  exists t0 t1 signal r, signal <> SIGKILL /\ (t0 + TERMINATION_GRACE <= t1)%Z /\
    [ENow t0; EReapKill signal subtree r; ENow t1] `sublist_of` t.
Definition patient (t : list TreeEvent) (e : TreeEvent) : Prop :=
  match e with EReapKill s t' _ => t' = subtree /\ (s = SIGKILL -> warned t) | _ => True end.
Definition signals_nothing (e : TreeEvent) : Prop := match e with EReapKill _ _ _ => False | _ => True end.

Lemma warned_prefix t t' : t `prefix_of` t' -> warned t -> warned t'.
Proof.
  intros Hp (t0 & t1 & sig & r & ? & ? & Hs). exists t0, t1, sig, r. split_and!; [done..|].
  destruct Hp as [k ->]. by apply sublist_inserts_r.
Qed.

(** The grace period of the signal asked for started at a time that was read. *)
Definition started (tm : Termination) (t : list TreeEvent) : Prop :=
  match tm with
  | None => True
  | Some (signal, deadline) => (signal = SIGKILL /\ warned t) \/ (signal <> SIGKILL /\ ENow (deadline - TERMINATION_GRACE) ∈ t)
  end.
Lemma started_prefix tm t t' : t `prefix_of` t' -> started tm t -> started tm t'.
Proof.
  destruct tm as [[sig d]|]; [|done]. intros Hp [[-> Hw]|[? Hin]]; [left|right]; split; [done|by eapply warned_prefix|done|].
  destruct Hp as [k ->]. apply elem_of_app. by left.
Qed.

Lemma now_runs t (Q : Z -> list TreeEvent -> Prop) : (forall a, Q a (t ++ [ENow a])) -> obeys patient t now Q.
Proof. by apply obeys_ask. Qed.
Lemma signal_runs t signal : (signal = SIGKILL -> warned t) ->
  obeys patient t (signal_subtree subtree signal) (fun _ t' => exists r, t' = t ++ [EReapKill signal subtree r]).
Proof.
  intros Hs. eapply obeys_bind; [apply (obeys_ask _ _ _ _ (fun r t' => t' = t ++ [EReapKill signal subtree r])); done|].
  intros r t1 _ ->. destruct r as [[]|e]; [by apply obeys_ret; eexists|].
  destruct (errno e =? ESRCH)%Z; [by apply obeys_ret; eexists|by apply obeys_lift].
Qed.

Lemma warned_now t t0 signal r t1 :
  signal <> SIGKILL -> ENow t0 ∈ t -> (t0 + TERMINATION_GRACE <= t1)%Z -> warned ((t ++ [EReapKill signal subtree r]) ++ [ENow t1]).
Proof.
  intros Hs (k1 & k2 & ->)%list_elem_of_split Ht. exists t0, t1, signal, r. split_and!; [done..|].
  rewrite <- !app_assoc. cbn [app]. apply sublist_inserts_l, sublist_skip, sublist_inserts_l. done.
Qed.

Lemma pass_on_runs t tm : started tm t -> obeys patient t (pass_on_signal subtree tm) (fun tm' t' => started tm' t').
Proof.
  destruct tm as [[sig d]|]; [|by intros _; apply obeys_ret]. intros Hst. cbn [pass_on_signal].
  eapply obeys_bind; [apply signal_runs; intros ->; by destruct Hst as [[_ ?]|[? _]]|]. intros [] t1 Hp1 [r ->].
  eapply obeys_bind; [apply now_runs; intros a; exact (eq_refl : (fun a t' => t' = (t ++ [EReapKill sig subtree r]) ++ [ENow a]) a _)|].
  intros a t2 Hp2 E2. cbn beta in E2. subst t2. destruct (Z.leb_spec d a).
  - destruct (Z.eqb_spec sig SIGKILL); [by apply obeys_lift|].
    eapply obeys_bind; [apply now_runs; intros b; exact (eq_refl : (fun b t' => t' = ((t ++ [EReapKill sig subtree r]) ++ [ENow a]) ++ [ENow b]) b _)|].
    intros b t3 Hp3 E3. cbn beta in E3. subst t3. apply obeys_ret. left. split; [done|].
    eapply warned_prefix; [exact Hp3|]. destruct Hst as [[? _]|[_ Hin]]; [done|]. eapply warned_now; [done|exact Hin|lia].
  - apply obeys_ret. eapply started_prefix; [|exact Hst]. by etrans.
Qed.

Context (child : Z) (termination_signal : T (option Z)).
Context (quiet_signal : only signals_nothing termination_signal).
Context (never_kills : forall s, (termination_signal s).1 <> Ok (Some SIGKILL)).

Lemma nothing_runs {A} t (m : T A) : only signals_nothing m -> obeys patient t m (fun _ t' => t `prefix_of` t').
Proof.
  intros Hm. eapply obeys_mono; [apply obeys_only; [|exact Hm]|].
  - by intros ? [].
  - intros _ t' Hp _. done.
Qed.

Lemma ask_runs t tm : started tm t ->
  obeys patient t (ask_for_termination termination_signal tm) (fun tm' t' => started tm' t').
Proof using quiet_signal never_kills.
  destruct tm as [[sig d]|]; intros Hst; cbn [ask_for_termination]; [by apply obeys_ret|].
  assert (obeys patient t termination_signal (fun o _ => o <> Some SIGKILL)) as Ho.
  { intros s r s' Es Ht E. pose proof (never_kills s) as Hk. rewrite E in Hk.
    destruct (nothing_runs t _ quiet_signal _ _ _ Es Ht E) as (? & ? & ?). split_and!; [done..|]. destruct r; [|done]. by intros ->. }
  eapply obeys_bind; [exact Ho|]. intros [sig|] t1 _ Hs; [|by apply obeys_ret].
  eapply obeys_bind; [apply now_runs; intros a; exact (eq_refl : (fun a t' => t' = t1 ++ [ENow a]) a _)|].
  intros a t2 _ E2. cbn beta in E2. subst t2. apply obeys_ret. right. split; [by intros ->|].
  rewrite Z.add_simpl_r. apply elem_of_app. right. by left.
Qed.

Lemma looking_signals_nothing {A} (m : T A) : only looking m -> only signals_nothing m.
Proof. intros Hm. eapply only_mono; [exact Hm|]. by intros []. Qed.

Lemma wait_loop_runs fuel : forall t status tm, started tm t ->
  obeys patient t (wait_loop fuel subtree child termination_signal status tm) (fun _ _ => True).
Proof using quiet_signal never_kills.
  induction fuel as [|fuel IH]; intros t status tm Hst; cbn [wait_loop]; [by apply obeys_ret|].
  eapply obeys_bind.
  { by apply nothing_runs, try_wait_only. }
  intros status' t1 H1 _. eapply obeys_bind; [apply nothing_runs, looking_signals_nothing, remain_only_looks|].
  intros remain t2 H2 _. destruct remain; cbn [negb]; [|by intros s r s' Es Ht E; destruct status'; injection E as <- <-; rewrite Es].
  assert (started tm t2) as Hst2 by (eapply started_prefix; [|exact Hst]; by etrans).
  eapply obeys_bind; [by apply ask_runs|]. intros tm3 t3 _ Hst3.
  eapply obeys_bind; [by apply pass_on_runs|]. intros tm4 t4 _ Hst4.
  eapply obeys_bind; [apply nothing_runs, emits_ask; by repeat constructor|]. intros [] t5 H5 _.
  apply IH. by eapply started_prefix.
Qed.
End Signals.

(** ** Lemmas: when a tree has ended *)

Section Ended.
Context {W : Type} `{!ReaperSystem W}.
Abbreviation T A := (M (traced W TreeEvent) A) (only parsing).

(** The processes the reaper lists. *)
Definition lists (l : list TreeEvent) (info : list ReaperPidInfo) : Prop :=
  exists status, (l = [EReapStatus 0 (inl status)] /\ rs_descendants status = 0%N /\ info = []) \/
    exists entries, l = [EReapStatus 0 (inl status); EReapGetPids ((rs_descendants status + 16) mod 2 ^ 32) (inl entries)] /\
      info = valid_entries (filled (N.to_nat (rs_descendants status + 16)) entries).

(** The last call is a listing without a process of the subtree. *)
Definition ends_empty (subtree : Z) (ev : list TreeEvent) : Prop :=
  exists pre l info, ev = pre ++ l /\ lists l info /\ Forall (fun p => pi_subtree p <> subtree) info.

Lemma ends_empty_app subtree ev1 ev2 : ends_empty subtree ev2 -> ends_empty subtree (ev1 ++ ev2).
Proof. intros (pre & l & info & -> & Hl). exists (ev1 ++ pre), l, info. by rewrite app_assoc. Qed.
Lemma ends_empty_cons subtree e ev : ends_empty subtree ev -> ends_empty subtree (e :: ev).
Proof. apply (ends_empty_app _ [e]). Qed.

Lemma pid_info_emits : emits reaper_pid_info (fun r ev => forall info, r = Ok info -> lists ev info).
Proof.
  unfold reaper_pid_info, reaper_status. intros s. revert s. eapply emits_bind; [|intros st ev1 H1|done].
  - apply (emits_ask_bind _ _ _ (fun r ev => forall st, r = Ok st -> ev = [EReapStatus 0 (inl st)])). intros a.
    apply emits_lift. intros st Hst. destruct a as [st'|]; [|done]. by injection Hst as ->.
  - rewrite (H1 st eq_refl). cbn zeta. destruct (N.eqb_spec (rs_descendants st) 0) as [Hz|_].
    + apply emits_ret. intros info [= <-]. exists st. left. done.
    + apply emits_ask_bind. intros a. apply emits_lift_bind; [|done]. intros entries Ha. destruct a as [entries'|]; [|done].
      injection Ha as ->. apply emits_ret. intros info [= <-]. exists st. right. by exists entries.
Qed.

Lemma subtree_pids_emits subtree : emits (subtree_pids subtree) (fun r ev => r = Ok [] -> ends_empty subtree ev).
Proof.
  eapply emits_bind; [apply pid_info_emits| |done]. intros info ev Hi. apply emits_ret. intros [= E]. rewrite app_nil_r.
  exists [], ev, info. split_and!; [done|by apply Hi|]. apply map_eq_nil in E. apply Forall_forall. intros p Hp Hs.
  apply list_elem_of_In in Hp.
  assert (In p (List.filter (fun p => pi_subtree p =? subtree)%Z info)) as Hin by (apply filter_In; split; [done|by apply Z.eqb_eq]).
  by rewrite E in Hin.
Qed.

Lemma remain_emits subtree reap :
  emits (processes_remain subtree reap) (fun r ev => r = Ok false -> ends_empty subtree ev).
Proof.
  eapply emits_bind; [apply subtree_pids_emits| |done]. intros pids ev1 H1.
  eapply emits_bind; [|intros [] ev2 H2|done].
  { apply (emits_mono _ (fun _ ev => pids = [] -> ev = [])); [|intros r ev H2; exact (H2 : (fun _ ev => pids = [] -> ev = []) r ev)].
    destruct pids as [|pid pids]; [by apply emits_ret|]. intros s r s' E.
    assert (only (fun _ => True) (for_each (fun pid => if negb reap && (pid =? subtree)%Z then mret tt
      else ask (fun _ => EWaitPid pid) (wait_pid pid)) (pid :: pids))) as Ho.
    { apply only_for_each. intros a _. destruct (_ && _); [by apply emits_ret; constructor|]. apply emits_ask. by repeat constructor. }
    destruct (Ho _ _ _ E) as (ev & He & _). exists ev. by split. }
  destruct pids as [|pid pids]; cbn [length Nat.eqb].
  - apply emits_ret. intros _. rewrite (H2 eq_refl), !app_nil_r. by apply H1.
  - eapply emits_bind; [apply subtree_pids_emits| |done]. intros pids' ev3 H3. apply emits_ret. intros E.
    apply ends_empty_app, ends_empty_app. rewrite app_nil_r. apply H3. by destruct pids'.
Qed.

Lemma wait_loop_spares fuel subtree child (ask_signal : T (option Z)) : only (fun e => e <> EWaitPid subtree) ask_signal ->
  forall status tm, only (fun e => e <> EWaitPid subtree) (wait_loop fuel subtree child ask_signal status tm).
Proof.
  intros Ha. induction fuel as [|fuel IH]; intros status tm; cbn [wait_loop]; [by apply emits_ret; constructor|].
  apply only_bind; [by apply try_wait_only|]. intros status'. apply only_bind.
  { eapply only_mono; [apply (remain_keeps_root subtree false)|]. intros e [_ He]. by apply He. }
  intros remain. apply only_if; [by apply (emits_fmap Some), emits_lift; constructor|].
  apply only_bind; [by apply ask_only|]. intros tm1. apply only_bind; [by apply pass_on_only|]. intros tm2.
  apply only_bind; [by apply emits_ask; repeat constructor|]. intros []. apply IH.
Qed.

Lemma wait_loop_emits fuel subtree child (ask_signal : T (option Z)) : only (fun _ => True) ask_signal -> forall status tm,
  emits (wait_loop fuel subtree child ask_signal status tm) (fun r ev => forall st, r = Ok (Some st) ->
    (status = Some st \/ ETryWait child (inl (Some st)) ∈ ev) /\ ends_empty subtree ev).
Proof.
  intros Ha. induction fuel as [|fuel IH]; intros status tm; cbn [wait_loop]; [by apply emits_ret|].
  eapply (emits_bind _ _ (fun r ev => forall x st, r = Ok x -> x = Some st -> status = Some st \/ ETryWait child (inl (Some st)) ∈ ev)).
  - destruct status as [st|]; [by apply emits_ret; intros x st' [= <-] [= <-]; left|].
    apply emits_ask_bind. intros a. apply emits_lift. intros x st Hx ->. right. destruct a as [o|]; [|done].
    injection Hx as ->. by left.
  - intros status' ev1 H1. eapply emits_bind; [apply remain_emits| |done]. intros remain ev2 H2. destruct remain; cbn [negb].
    + eapply emits_bind; [by apply (ask_only (fun _ => True))| |done]. intros tm1 ev3 _. eapply emits_bind; [by apply (pass_on_only (fun _ => True))| |done]. intros tm2 ev4 _.
      apply emits_ask_bind. intros []. eapply emits_mono; [apply IH|]. intros r ev5 H5 st ->. destruct (H5 st eq_refl) as [H6 H7].
      split; [|do 4 apply ends_empty_app; by apply ends_empty_cons].
      destruct H6 as [->|H6]; [destruct (H1 _ _ eq_refl eq_refl) as [->|]; [by left|right; set_solver]|right; set_solver].
    + apply (emits_fmap Some), emits_lift. intros st E. split; [|by apply ends_empty_app; rewrite app_nil_r; apply H2].
      destruct status' as [st'|]; [|done]. injection E as ->. destruct (H1 _ _ eq_refl eq_refl) as [->|]; [by left|right; set_solver].
  - done.
Qed.
End Ended.

(** ** Lemmas: stopping another launcher *)

Section ForceStop.
Context {W : Type} `{!ReaperSystem W}.
Abbreviation T A := (M (traced W TreeEvent) A) (only parsing).

Definition kills_nothing (e : TreeEvent) : Prop := match e with EKill _ _ _ => False | _ => True end.

Definition force_stopped (pid : Z) (expected : ProcessIdentity) (r : result ForceStopResult) (ev : list TreeEvent) : Prop :=
  (r <> Ok Signaled /\ Forall kills_nothing ev) \/
  (0 < pid)%Z /\ exists status x, N.land (rs_flags status) REAPER_STATUS_OWNED <> 0%N /\ (r = Ok Signaled <-> x = inl tt) /\
    ev = [EIdentity pid (Ok (Some expected)); EReapStatus pid (inl status); EIdentity pid (Ok (Some expected));
          EKill pid FORCE_STOP_SIGNAL x].

(** A check of the identity in front, which makes one call or none. *)
Lemma identity_bind {B} pid (f : option ProcessIdentity -> T B) R :
  (forall e ev, Forall kills_nothing ev -> R (Err e) ev) -> ((pid <= 0)%Z -> emits (f None) R) ->
  ((0 < pid)%Z -> forall c, emits (f c) (fun r ev => R r (EIdentity pid (Ok c) :: ev))) -> emits (identity_of pid ≫= f) R.
Proof.
  intros He H1 H2. unfold identity_of. destruct (Z.leb_spec pid 0) as [Hp|Hp]; [exact (H1 Hp)|].
  apply (emits_bind _ _ (fun r ev => ev = [EIdentity pid r])).
  - apply emits_ask_bind. intros a. by apply emits_lift.
  - intros c ev ->. exact (H2 Hp c).
  - intros e ev ->. apply He. by repeat constructor.
Qed.

Lemma force_stop_emits pid expected : emits (force_stop_launcher pid expected) (force_stopped pid expected).
Proof.
  apply identity_bind; [by intros; left| |].
  { intros _. rewrite bool_decide_false by done. apply emits_ret. left. split; [done|constructor]. }
  intros Hp c1. case_bool_decide as Hc1; cbn [negb]; [subst c1|apply emits_ret; left; split; [done|by repeat constructor]].
  apply emits_ask_bind. intros [status|e].
  2: { destruct (errno e =? ESRCH)%Z; [apply emits_ret|apply emits_lift]; left; (split; [done|by repeat constructor]). }
  destruct (N.eqb_spec (N.land (rs_flags status) REAPER_STATUS_OWNED) 0) as [?|Ho];
    [apply emits_ret; left; split; [done|by repeat constructor]|].
  apply identity_bind; [|lia|].
  { intros e ev Hev. left. split; [done|]. by repeat constructor. }
  intros _ c2. case_bool_decide as Hc2; cbn [negb]; [subst c2|apply emits_ret; left; split; [done|by repeat constructor]].
  apply emits_ask_bind. intros x.
  assert (forall r, (r = Ok Signaled <-> x = inl tt) -> force_stopped pid expected r
    [EIdentity pid (Ok (Some expected)); EReapStatus pid (inl status); EIdentity pid (Ok (Some expected)); EKill pid FORCE_STOP_SIGNAL x])
    as Hr by (intros r Hr; right; split; [done|]; by exists status, x).
  destruct x as [[]|e]; [apply emits_ret; by apply Hr|].
  destruct (errno e =? ESRCH)%Z; [apply emits_ret|apply emits_lift]; by apply Hr.
Qed.
End ForceStop.

(** ** Lemmas: ending a tree *)

Section Ending.
Context {W : Type} `{ClockLaws W}.

Lemma empty_loop_ends subtree signal reap n : forall fuel deadline s,
  (n < fuel)%nat -> (deadline <= clock s.1 + Z.of_nat n * POLL_INTERVAL)%Z ->
  (empty_loop fuel subtree signal deadline reap s).1 <> Ok None.
Proof.
  induction n as [|n IH]; intros [|fuel] deadline s Hf Hd; [lia| |lia|]; cbn [empty_loop];
    destruct ((_ : M (traced W TreeEvent) _) s) as [r s'] eqn:E; cbn [fst];
    apply M_bind_cases in E as (o & s1 & E1 & Hr); apply later_spec in E1; try apply later_remain;
    (destruct Hr as [(remain & -> & Hr)|(e & -> & -> & ->)]; [|done]);
    (destruct remain; cbn [negb] in Hr; [|by injection Hr as <- <-]);
    apply M_bind_cases in Hr as (o & s2 & E2 & Hr); apply later_spec in E2; try apply later_signal;
    (destruct Hr as [([] & -> & Hr)|(e & -> & -> & ->)]; [|done]);
    apply M_bind_cases in Hr as (o & s3 & E3 & Hr); apply now_spec in E3 as (t & -> & E3 & E4);
    (destruct Hr as [(? & [= <-] & Hr)|(e & ? & ?)]; [|done]).
  1, 2: destruct (Z.leb_spec deadline t); [by injection Hr as <- <-|].
  - lia.
  - apply M_bind_cases in Hr as (o & s4 & E5 & Hr). apply sleep_spec in E5 as [-> E5].
    destruct Hr as [([] & _ & Hr)|(e & ? & ?)]; [|done]. pose proof (IH fuel deadline s4) as Hi. rewrite Hr in Hi.
    apply Hi; [lia|]. unfold POLL_INTERVAL in *. lia.
Qed.

Lemma wait_until_empty_ends fuel subtree signal reap s : (20 < fuel)%nat ->
  (wait_until_empty fuel subtree TERMINATION_GRACE signal reap s).1 <> Ok None.
Proof.
  intros Hf. destruct (wait_until_empty _ _ _ _ _ s) as [r s'] eqn:E. apply M_bind_cases in E as (o & s1 & E1 & Hr).
  apply now_spec in E1 as (t & -> & E1 & E2). destruct Hr as [(? & [= <-] & Hr)|(e & ? & ?)]; [|done].
  pose proof (empty_loop_ends subtree signal reap 20 fuel (t + TERMINATION_GRACE) s1 Hf) as Hi. rewrite Hr in Hi. apply Hi.
  unfold TERMINATION_GRACE, POLL_INTERVAL in *. lia.
Qed.
End Ending.

Section Outcome.
Context {W : Type} `{!ReaperSystem W}.

(** What ending a subtree does, if its root is not to be collected. *)
Definition orphan_call (subtree : Z) (e : TreeEvent) : Prop :=
  e <> EWaitPid subtree /\ match e with EReapKill _ t _ => t = subtree | EKill _ _ _ => False | _ => True end.
Definition ending_call (subtree : Z) (reap : bool) (e : TreeEvent) : Prop := reap = false -> orphan_call subtree e.

Lemma signal_ending subtree signal reap : only (ending_call subtree reap) (signal_subtree subtree signal).
Proof.
  apply only_bind; [apply emits_ask; intros r; constructor; [|done]; by intros _|]. intros [[]|e]; [by apply emits_ret; constructor|].
  apply only_if; [by apply emits_ret; constructor|by apply emits_lift; constructor].
Qed.
Lemma remain_ending subtree reap : only (ending_call subtree reap) (processes_remain subtree reap).
Proof.
  eapply only_mono; [apply remain_keeps_root|]. intros e [Hl He] Hr. split; [by apply He|]. by destruct e.
Qed.

Lemma empty_loop_emits fuel subtree signal deadline reap :
  emits (empty_loop fuel subtree signal deadline reap) (fun r ev =>
    Forall (ending_call subtree reap) ev /\ (r = Ok (Some true) -> ends_empty subtree ev)).
Proof.
  induction fuel as [|fuel IH]; cbn [empty_loop]; [by apply emits_ret; split; [constructor|]|].
  apply (emits_bind _ _ (fun r ev => Forall (ending_call subtree reap) ev /\ (r = Ok false -> ends_empty subtree ev))).
  - intros s r s' E. destruct (remain_emits _ _ _ _ _ E) as (ev & H1 & H2). destruct (remain_ending _ _ _ _ _ E) as (ev' & H3 & H4).
    assert (ev' = ev) as -> by (apply (app_inv_head s.2); congruence). by exists ev.
  - intros remain ev1 [H1 H2]. destruct remain; cbn [negb].
    + eapply emits_bind; [apply signal_ending| |]; [|intros e ev H3; cbn beta in *; split; [by apply Forall_app_2|done]].
      intros [] ev2 H3. apply emits_ask_bind. intros t. destruct (_ <=? _)%Z.
      * apply emits_ret. split; [|done]. apply Forall_app_2; [done|]. apply Forall_app_2; [done|]. by repeat constructor.
      * apply emits_ask_bind. intros []. eapply emits_mono; [exact IH|]. intros r ev4 [H5 H6].
        split; [|intros ->; by apply ends_empty_app, ends_empty_app, ends_empty_cons, ends_empty_cons, H6].
        apply Forall_app_2; [done|]. apply Forall_app_2; [done|]. by repeat constructor.
    + apply emits_ret. rewrite app_nil_r. split; [done|]. intros _. by apply H2.
  - intros e ev [H1 _]. by split.
Qed.

Lemma until_empty_emits fuel subtree timeout signal reap :
  emits (wait_until_empty fuel subtree timeout signal reap) (fun r ev =>
    Forall (ending_call subtree reap) ev /\ (r = Ok (Some true) -> ends_empty subtree ev)).
Proof.
  apply emits_ask_bind. intros t. eapply emits_mono; [apply empty_loop_emits|]. intros r ev [H1 H2].
  split; [by constructor|]. intros ->. by apply ends_empty_cons, H2.
Qed.

Lemma terminate_emits fuel subtree signal reap :
  emits (terminate_with_signal_mode fuel subtree signal reap) (fun r ev =>
    (reap = false -> Forall (orphan_call subtree) ev) /\ (r = Ok (Some tt) -> ends_empty subtree ev)).
Proof.
  apply (emits_mono _ (fun r ev => Forall (ending_call subtree reap) ev /\ (r = Ok (Some tt) -> ends_empty subtree ev))).
  2: { intros r ev [H1 H2]. split; [|done]. intros Hr. eapply Forall_impl; [exact H1|]. intros e He. by apply He. }
  eapply emits_bind; [apply until_empty_emits| |]; [|by intros e ev [? _]; split].
  intros [[]|] ev1 [H1 H2].
  - apply emits_ret. rewrite app_nil_r. split; [done|]. intros _. by apply H2.
  - eapply emits_bind; [apply until_empty_emits| |]; [|by intros e ev [? _]; split; [apply Forall_app|]].
    intros [[]|] ev2 [H3 H4]; [apply emits_ret|apply emits_lift|apply emits_ret]; rewrite app_nil_r;
      (split; [by apply Forall_app|]); [|done|done]. intros _. by apply ends_empty_app, H4.
  - apply emits_ret. rewrite app_nil_r. by split.
Qed.
End Outcome.

(** ** Lemmas: a system to compute with *)

(** The clock, the processes with their subtrees, and whether they ignore
    every signal but SIGKILL. *)
Record Table := mkTable { tb_clock : Z; tb_processes : list (Z * Z); tb_stubborn : bool }.

#[export] Instance table_system : ReaperSystem Table := {
  reap_status _ w := (inl (mkReaperStatus 1 (N.of_nat (length (tb_processes w)))), w);
  reap_get_pids _ w := (inl (map (fun p => mkPidInfo p.1 p.2 1) (tb_processes w)), w);
  reap_kill signal subtree w :=
    if negb (tb_stubborn w) || (signal =? SIGKILL)%Z
    then (inl tt, mkTable (tb_clock w) (List.filter (fun p => negb (p.2 =? subtree)%Z) (tb_processes w)) (tb_stubborn w))
    else (inl tt, w);
  set_reaper _ w := (inl tt, w);
  wait_pid _ w := (tt, w);
  try_wait child w := (inl (if existsb (fun p => p.1 =? child)%Z (tb_processes w) then None else Some 9%Z), w);
  instant_now w := (tb_clock w, w);
  thread_sleep d w := (tt, mkTable (tb_clock w + Z.max 0 d) (tb_processes w) (tb_stubborn w));
  lookup_identity pid w := (Ok (if existsb (fun p => p.1 =? pid)%Z (tb_processes w) then Some (mkIdentity pid 0) else None), w);
  kill_process _ _ w := (inl tt, w);
}.

#[export] Instance table_clock : ClockLaws Table.
Proof. refine {| clock := tb_clock |}; cbn; intros; try done; try lia. by destruct (_ || _). Defined.

Definition sample_table : Table := mkTable 0 [(7, 7); (9, 7); (4, 4)]%Z true.

(** ** Theorems *)

Section Theorems.
Context {W : Type} `{ClockLaws W}.

(** C19.  Once a signal is asked for, waiting for a program ends: within 42
    rounds of the loop its processes are gone or an error is returned, whatever
    the processes and the kernel do, as long as the clock does not go back and a
    sleep is not shorter than asked for. *)
Theorem stop_request_is_served fuel subtree child termination_signal status s :
  (42 <= fuel)%nat -> steps later termination_signal -> (forall s, (termination_signal s).1 <> Ok None) ->
  (wait_loop fuel subtree child termination_signal status None s).1 <> Ok None.
Proof.
  intros Hf Hl Ha. destruct fuel as [|fuel]; [lia|]. destruct (wait_loop _ _ _ _ _ _ _) as [r s'] eqn:E.
  apply wait_round in E as [?|(sig & d & c & status' & t & s1 & [?|[_ Hd]] & Hc & Hp & Ht & E)]; try done.
  destruct Ht as [[-> Ht]|(_ & d' & -> & Ht)].
  - pose proof (signal_ends subtree child _ Hl Ha 19 fuel status' sig d s1) as Hi. rewrite E in Hi. apply Hi; [lia|].
    unfold TERMINATION_GRACE, POLL_INTERVAL in *. lia.
  - pose proof (kill_ends subtree child _ Hl Ha 19 fuel status' d' s1) as Hi. rewrite E in Hi. apply Hi; [lia|].
    unfold TERMINATION_GRACE, POLL_INTERVAL in *. lia.
Qed.

(** A tree that is dropped is ended in bounded time: at most 21 rounds with
    SIGTERM and 21 with SIGKILL, after which the processes are gone or the
    failure is reported. *)
Theorem dropped_tree_ends fuel subtree signal reap s :
  (21 <= fuel)%nat -> (terminate_with_signal_mode fuel subtree signal reap s).1 <> Ok None.
Proof.
  intros Hf. unfold terminate_with_signal_mode. destruct ((_ : M (traced W TreeEvent) _) s) as [r s'] eqn:E. cbn [fst].
  apply M_bind_cases in E as (o & s1 & E1 & Hr). pose proof (wait_until_empty_ends fuel subtree signal reap s Hf) as H1.
  rewrite E1 in H1. destruct Hr as [([[]|] & -> & Hr)|(e & -> & -> & ->)]; [by injection Hr as <- <-| |done|done].
  apply M_bind_cases in Hr as (o & s2 & E2 & Hr). pose proof (wait_until_empty_ends fuel subtree SIGKILL reap s1 Hf) as H2.
  rewrite E2 in H2. by destruct Hr as [([[]|] & -> & Hr)|(e & -> & -> & ->)]; [injection Hr as <- <-|injection Hr as <- <-|..].
Qed.
End Theorems.

Lemma stop_request_is_served_witness :
  exists s, wait_loop 42 7 7 (mret (Some SIGTERM)) None None (sample_table, []) = (Ok (Some 9%Z), s) /\
  (wait_loop 42 7 7 (mret (Some SIGTERM)) None None (sample_table, [])).1 <> Ok None.
Proof.
  eexists. split; [vm_compute; reflexivity|]. apply stop_request_is_served; [lia|by intros s; unfold later|done].
Defined.
Lemma dropped_tree_ends_witness :
  exists s, terminate 21 7 (sample_table, []) = (Ok (Some tt), s) /\ (terminate 21 7 (sample_table, [])).1 <> Ok None.
Proof. eexists. split; [vm_compute; reflexivity|]. apply dropped_tree_ends. lia. Defined.

Section Order.
Context {W : Type} `{!ReaperSystem W}.


(** The status that waiting returns is one that [try_wait] gave for the
    program, and the last thing that was done is a listing of the reaper's
    descendants without a process of the subtree; meanwhile the program itself
    was never collected by the loop that collects its descendants. *)
Theorem exit_status_is_of_ended_tree fuel subtree child termination_signal w r s' :
  only (fun e => e <> EWaitPid subtree) termination_signal ->
  wait_for_exit_with_signal fuel subtree child termination_signal (w, []) = (r, s') ->
  EWaitPid subtree ∉ s'.2 /\
  forall st, r = Ok (Some st) -> ETryWait child (inl (Some st)) ∈ s'.2 /\ ends_empty subtree s'.2.
Proof.
  intros Hq E. split.
  - enough (only (fun e => e <> EWaitPid subtree) (wait_for_exit_with_signal fuel subtree child termination_signal)) as Ho.
    { destruct (Ho _ _ _ E) as (ev & -> & Hev). cbn. intros Hin. by apply (proj1 (Forall_forall _ _) Hev) in Hin. }
    apply wait_loop_spares, Hq.
  - assert (only (fun _ => True) termination_signal) as Ht by (by eapply only_mono; [exact Hq|]).
    destruct (wait_loop_emits fuel subtree child termination_signal Ht None None _ _ _ E) as (ev & -> & Hev).
    intros st ->. by destruct (Hev st eq_refl) as [[?|?] ?].
Qed.

(** C23.  Force-stopping signals nothing but the launcher that was recorded: the
    one signal is sent as the last call, after the process was found to have the
    recorded start time, to be a reaper, and to have the start time still; and
    the result says that it was signalled exactly if that call succeeded. *)
Theorem force_stop_only_recorded_launcher pid expected w r s' :
  force_stop_launcher pid expected (w, []) = (r, s') ->
  (r <> Ok Signaled /\ Forall kills_nothing s'.2) \/
  (0 < pid)%Z /\ exists status x, N.land (rs_flags status) REAPER_STATUS_OWNED <> 0%N /\ (r = Ok Signaled <-> x = inl tt) /\
    s'.2 = [EIdentity pid (Ok (Some expected)); EReapStatus pid (inl status); EIdentity pid (Ok (Some expected));
            EKill pid FORCE_STOP_SIGNAL x].
Proof. intros E. destruct (force_stop_emits pid expected _ _ _ E) as (ev & -> & Hev). exact Hev. Qed.

(** The clean-up after a watched owner spares an owner that is still there:
    if the first listing has the root of the subtree, nothing else is done;
    otherwise only the subtree is signalled, its root's process id is not waited
    for (it may be another child's by now), and success means that the last
    listing has no process of the subtree. *)
Theorem orphan_cleanup_spares_owner fuel subtree signal w r s' :
  terminate_orphaned_subtree_with_signal fuel subtree signal (w, []) = (r, s') ->
  (is_ok r = false /\ Forall looking s'.2) \/
  exists l rest info, s'.2 = l ++ rest /\ lists l info /\
    if existsb (fun p => pi_pid p =? subtree)%Z info then rest = [] /\ r = Ok (Some false)
    else Forall (orphan_call subtree) rest /\ r <> Ok (Some false) /\ (r = Ok (Some true) -> ends_empty subtree s'.2).
Proof.
  intros (o & [w1 l] & E1 & Hr)%M_bind_cases. destruct (pid_info_emits _ _ _ E1) as (ev1 & Hl & H1). cbn [snd app] in Hl. subst ev1.
  destruct Hr as [(info & -> & Hr)|(e & -> & -> & ->)].
  - right. destruct (existsb _ info) eqn:Ei.
    + injection Hr as <- <-. exists l, [], info. rewrite app_nil_r, Ei. split_and!; [done|by apply H1|done|done].
    + apply M_bind_cases in Hr as (o & s2 & E2 & Hr). destruct (terminate_emits _ _ _ false _ _ _ E2) as (ev & Hs & Ho & He).
      destruct Hr as [(x & -> & Hr)|(e & -> & -> & ->)]; [injection Hr as <- <-|]; exists l, ev, info; rewrite Ei;
        (split; [exact Hs|]; split; [by apply H1|]; split; [by apply Ho|]; split; [by destruct x || done|]); [|done].
      destruct x as [[]|]; [|done]. intros _. rewrite Hs. apply ends_empty_app. by apply He.
  - left. split; [done|]. destruct (looking_pid_info _ _ _ E1) as (ev & -> & Hev). exact Hev.
Qed.
End Order.

Lemma exit_status_is_of_ended_tree_witness :
  exists s, wait_for_exit_with_signal 42 7 7 (mret (Some SIGTERM)) (sample_table, []) = (Ok (Some 9%Z), s) /\
    EWaitPid 7 ∉ s.2 /\ forall st, Ok (Some 9%Z) = Ok (Some st) -> ETryWait 7 (inl (Some st)) ∈ s.2 /\ ends_empty 7 s.2.
Proof.
  eexists. split; [vm_compute; reflexivity|].
  apply (exit_status_is_of_ended_tree 42 7 7 (mret (Some SIGTERM)) sample_table); [by apply emits_ret; constructor|].
  vm_compute. reflexivity.
Defined.
Lemma force_stop_only_recorded_launcher_witness :
  exists s, force_stop_launcher 7 (mkIdentity 7 0) (sample_table, []) = (Ok Signaled, s) /\
  ((@Ok ForceStopResult Signaled <> Ok Signaled /\ Forall kills_nothing s.2) \/
  (0 < 7)%Z /\ exists status x, N.land (rs_flags status) REAPER_STATUS_OWNED <> 0%N /\ (Ok Signaled = Ok Signaled <-> x = inl tt) /\
    s.2 = [EIdentity 7 (Ok (Some (mkIdentity 7 0))); EReapStatus 7 (inl status); EIdentity 7 (Ok (Some (mkIdentity 7 0)));
            EKill 7 FORCE_STOP_SIGNAL x]).
Proof.
  eexists. split; [vm_compute; reflexivity|]. apply (force_stop_only_recorded_launcher 7 (mkIdentity 7 0) sample_table). vm_compute. reflexivity.
Defined.
Definition orphan_table : Table := mkTable 0 [(9, 7); (4, 4)]%Z false.
Lemma orphan_cleanup_spares_owner_witness :
  exists s, terminate_orphaned_subtree_with_signal 21 7 2 (orphan_table, []) = (Ok (Some true), s) /\
  ((is_ok (Ok (Some true)) = false /\ Forall looking s.2) \/
  exists l rest info, s.2 = l ++ rest /\ lists l info /\
    if existsb (fun p => pi_pid p =? 7)%Z info then rest = [] /\ Ok (Some true) = Ok (Some false)
    else Forall (orphan_call 7) rest /\ Ok (Some true) <> Ok (Some false) /\ (Ok (Some true) = Ok (Some true) -> ends_empty 7 s.2)).
Proof.
  eexists. split; [vm_compute; reflexivity|]. apply (orphan_cleanup_spares_owner 21 7 2 orphan_table). vm_compute. reflexivity.
Defined.
