(* ===== verification/InstallationPaths.v ===== *)
(** * InstallationPaths: where the launcher keeps its files
    (src/src/installation/installation_paths.rs) *)
From Stdlib Require Import Ascii String NArith.
From stdpp Require Import base list strings.
From S2P Require Import Prelude Effects RustStr RustPath HostFs.

Definition APP_DIR_NAME : string := "freebsd-flatpak".

Record Installation := mkInstallation {
  data_home : path;
  data_root : path;
  cache_root : path;
  runtime_root : path;
  app_data_root : path;
  launcher : path;
  libexec_root : path;
}.

(** The process's environment. *)
Section Env.
Context (getenv : string -> option string) (euid : N).

Definition env_path (name : string) : option path :=
  match getenv name with
  | Some v => if is_empty v then None else Some v
  | None => None
  end.

Definition from_env : result Installation :=
  home ← ok_or "HOME must be set" (env_path "HOME");
  let data_home := default (join_path home ".local/share") (env_path "XDG_DATA_HOME") in
  let cache_home := default (join_path home ".cache") (env_path "XDG_CACHE_HOME") in
  let runtime_home :=
    default (fmt ["/tmp/freebsd-flatpak-"; show_N euid]) (env_path "XDG_RUNTIME_DIR") in
  Ok {| data_root := default (join_path data_home APP_DIR_NAME) (env_path "FREEBSD_FLATPAK_DATA_DIR");
        cache_root := default (join_path cache_home APP_DIR_NAME) (env_path "FREEBSD_FLATPAK_CACHE_DIR");
        runtime_root := default (join_path runtime_home APP_DIR_NAME) (env_path "FREEBSD_FLATPAK_RUNTIME_DIR");
        app_data_root := default (join_path home ".var/app") (env_path "FREEBSD_FLATPAK_APP_DATA_DIR");
        launcher := default "/usr/local/bin/flatpak" (env_path "FREEBSD_FLATPAK_BIN");
        libexec_root := default "/usr/local/libexec/freebsd-flatpak" (env_path "FREEBSD_FLATPAK_LIBEXEC_DIR");
        data_home := data_home |}.
End Env.

Section Paths.
Context (i : Installation).

Definition flatpak_overrides : path := join_path (data_home i) "flatpak/overrides".
Definition apps : path := join_path (data_root i) "apps".
Definition app (app_id : string) : path := join_path apps app_id.
Definition runtimes : path := join_path (data_root i) "runtimes".
Definition repo : path := join_path (data_root i) "repo".
Definition refs : path := join_path (data_root i) "refs".
Definition exports : path := join_path (data_root i) "exports".
Definition export_share : path := join_path exports "share".
Definition remote_configs : path := join_path (data_root i) "remotes".
Definition remote_metadata_root : path := join_path (cache_root i) "remotes".
Definition remote_metadata (remote : string) : path := join_path remote_metadata_root remote.
Definition portal_documents : path := join_path (data_root i) "portal-documents".
Definition chroots : path := join_path (runtime_root i) "chroots".
Definition runs : path := join_path (runtime_root i) "runs".
Definition spawn_brokers : path := join_path (runtime_root i) "spawn-brokers".
Definition portal : path := join_path (runtime_root i) "portal".
Definition system_bus : path := join_path (runtime_root i) "system-bus".
Definition gpu : path := join_path (runtime_root i) "gpu".

Definition ensure {W} `{FileOps W} : M W unit :=
  _ ← for_each (fun p => io_step (fmt ["create "; p]) (make_dirs p))
        [apps; runtimes; repo; refs; exports; remote_configs; remote_metadata_root;
         portal_documents; chroots; runs; portal; system_bus; gpu; app_data_root i];
  io_step (fmt ["secure "; runtime_root i]) (set_mode (runtime_root i) 448).

Definition validate_app_id (app_id : string) : result unit :=
  if is_empty app_id || has "/" app_id || String.eqb app_id "." || String.eqb app_id ".."
  then bail (fmt ["invalid app id: "; debug_str app_id]) else Ok tt.

Definition app_data (app_id : string) : result path :=
  _ ← validate_app_id app_id;
  Ok (join_path (app_data_root i) app_id).

Definition absolute_data_path (p : path) : path :=
  if is_absolute p then p else join_path (data_root i) p.

Definition relative_data_path (p : path) : result path :=
  let absolute := if is_absolute p then p else join_path (data_root i) p in
  ok_or (fmt [absolute; " is outside managed data "; data_root i])
    (strip_path_prefix absolute (data_root i)).
End Paths.

(** ** Lemmas *)

Lemma validate_app_id_name app_id : validate_app_id app_id = Ok tt -> name_ok app_id.
Proof.
  unfold validate_app_id. destruct (is_empty app_id) eqn:E1, (has "/" app_id) eqn:E2,
    (String.eqb_spec app_id "."), (String.eqb_spec app_id ".."); cbn; try done.
  intros _. split_and!; [done| |done]. unfold skipped. rewrite E1. by destruct (String.eqb_spec app_id ".").
Qed.

(** An application's data directory is one directory below the common root. *)
Lemma app_data_components i app_id p :
  is_absolute (app_data_root i) = true -> app_data i app_id = Ok p ->
  components p = components (app_data_root i) ++ [Normal app_id].
Proof.
  intros Ha H. unfold app_data in H. inv_ok. subst p. destruct r.
  apply components_join_name; [by apply absolute_nonempty|by apply validate_app_id_name].
Qed.

(** A managed path survives being recorded relative to the data root. *)
Lemma relative_absolute_data_path i p r :
  is_absolute (data_root i) = true -> is_absolute p = true ->
  relative_data_path i p = Ok r -> components (absolute_data_path i r) = components p.
Proof.
  intros Hroot Hp H. unfold relative_data_path in H. rewrite Hp in H. inv_ok.
  assert (components (data_root i) <> []) as Hn by (by rewrite components_absolute).
  destruct (strip_path_prefix_components _ _ _ Hn H) as (E & Ha & Hb & _).
  unfold absolute_data_path. rewrite Ha, components_join, Hb by (auto using absolute_nonempty). done.
Qed.
