(* ===== verification/Records.v ===== *)
(** * Records: the installation's state files
    (record_storage.rs, application_records.rs, runtime_records.rs and
    export_records.rs of src/src/installation)

    Each installed application and runtime is a file of [key=value] lines,
    replaced atomically by writing a temporary file and renaming it. *)
From Stdlib Require Import Ascii String NArith ZArith Lia.
From stdpp Require Import base list strings sets.
From S2P Require Import Prelude Effects Collections RustStr RustNum RustPath HostFs FlatpakMetadata FlatpakRef InstallationPaths.

Abbreviation values := (list (string * string)) (only parsing).

(** ** record_storage.rs *)

Definition apps_dir (i : Installation) : path := join_path (refs i) "apps".
Definition runtimes_dir (i : Installation) : path := join_path (refs i) "runtimes".
Definition exports_dir (i : Installation) : path := join_path (refs i) "exports".

Definition safe_char (c : string) : string :=
  if ascii_char (fun a => is_alnum a || Ascii.eqb a "." || Ascii.eqb a "-" || Ascii.eqb a "_") c
  then c else "_".
Definition safe_name_lossy (v : string) : string := fmt (map safe_char (chars v)).
Definition safe_name (v : string) : result string :=
  if has "/" v then bail (fmt ["name must not contain '/': "; v]) else Ok (safe_name_lossy v).

Definition kv_line (p : path) (m : values) (l : string) : result values :=
  let line := trim l in
  if is_empty line || starts_with "#" line then Ok m
  else match split_once "=" line with
       | None => bail (fmt ["invalid state line in "; p; ": "; line])
       | Some (key, v) => Ok (bm_insert key v m)
       end.
(** What [read_kv_file] makes of the text of a file. *)
Definition parse_kv (p : path) (data : string) : result values :=
  fold_result (kv_line p) (lines data) [].

Definition required (m : values) (key : string) : result string :=
  ok_or (fmt ["state record missing "; key]) (bm_get key m).

Section Storage.
Context {W : Type} `{FileOps W}.

Definition ensure_layout (i : Installation) : M W unit :=
  _ ← ensure i;
  _ ← io_step "create app state directory" (make_dirs (apps_dir i));
  _ ← io_step "create runtime state directory" (make_dirs (runtimes_dir i));
  io_step "create export state directory" (make_dirs (exports_dir i)).

Definition read_kv_file (p : path) (w : W) : result values :=
  data ← io_context (fmt ["read "; p]) (read_to_string w p);
  parse_kv p data.

(** The process id and the sequence number that name a temporary file. *)
Context (pid : N) (next_sequence : M W N).

Definition write_atomic (p : path) (data : string) : M W unit :=
  _ ← match parent p with
      | Some d => io_try (make_dirs d)
      | None => mret tt
      end;
  sequence ← next_sequence;
  let tmp := with_file_name p
    (fmt ["."; default "state" (file_name_of p); "."; show_N pid; "."; show_N sequence; ".tmp"]) in
  _ ← io_step (fmt ["create "; tmp]) (write_file tmp data);
  io_step (fmt ["move "; tmp; " to "; p]) (rename_file tmp p).

(** ** application_records.rs *)

Record AppRecord := mkApp {
  app_origin : string; runtime_origin : string; app_id : string; app_ref : string;
  app_commit : string; app_installed_size : Z; app_dir : path; arch : string; branch : string;
  app_runtime_ref : string; app_runtime_commit : string; app_runtime_dir : path; command : string;
}.

Definition kv (l : list (string * string)) : string :=
  fmt (map (fun e => fmt [e.1; "="; e.2; nl]) l).

Definition app_entries (a : AppRecord) : list (string * string) :=
  [("origin", app_origin a); ("runtime_origin", runtime_origin a); ("app_id", app_id a);
   ("app_ref", app_ref a); ("app_commit", app_commit a);
   ("installed_size", show_Z (app_installed_size a)); ("app_dir", app_dir a); ("arch", arch a);
   ("branch", branch a); ("runtime_ref", app_runtime_ref a);
   ("runtime_commit", app_runtime_commit a); ("runtime_dir", app_runtime_dir a);
   ("command", command a)].

Definition DEFAULT_REMOTE : string := "flathub".

Definition app_from_values (m : values) : result AppRecord :=
  let origin := default DEFAULT_REMOTE (bm_get "origin" m) in
  id ← required m "app_id";
  r ← required m "app_ref";
  commit ← required m "app_commit";
  size ← (s ← required m "installed_size"; ok_or "invalid installed_size" (parse_u64 s));
  dir ← required m "app_dir";
  arch ← required m "arch";
  branch ← required m "branch";
  rref ← required m "runtime_ref";
  rcommit ← required m "runtime_commit";
  rdir ← required m "runtime_dir";
  command ← required m "command";
  Ok (mkApp origin (default origin (bm_get "runtime_origin" m)) id r commit size dir arch branch
        rref rcommit rdir command).

Definition app_record_path (i : Installation) (app_id : string) : result path :=
  n ← safe_name app_id; Ok (join_path (apps_dir i) (fmt [n; ".ini"])).

Definition write_app (i : Installation) (a : AppRecord) : M W unit :=
  p ← lift (app_record_path i (app_id a));
  write_atomic p (kv (app_entries a)).

Definition read_app_path (p : path) (w : W) : result AppRecord :=
  m ← read_kv_file p w; app_from_values m.

Definition get_app (i : Installation) (app_id : string) (w : W) : result AppRecord :=
  p ← app_record_path i app_id;
  with_context (fmt [app_id; " is not installed"]) (read_app_path p w).

(** The regular files of a directory. *)
Definition regular_files (msg : string) (dir : path) (w : W) : result (list path) :=
  entries ← dir_entries msg dir w;
  kinds ← map_result (fun e => k ← io_plain (entry_kind e); Ok (file_name e, k)) entries;
  Ok (map (fun e => join_path dir e.1) (List.filter (fun e => bool_decide (e.2 = RegularFile)) kinds)).

Definition list_apps (i : Installation) : M W (list AppRecord) :=
  _ ← ensure_layout i;
  getr (fun w =>
    files ← regular_files "read app state directory" (apps_dir i) w;
    apps ← map_result (fun p => read_app_path p w) files;
    Ok (sort_by (on app_id) apps)).

Definition remove_app_record (i : Installation) (app_id : string) : M W (option AppRecord) :=
  p ← lift (app_record_path i app_id);
  exists_ ← gets (fun w : W => path_exists w p);
  if negb exists_ then mret None
  else
    record ← getr (read_app_path p);
    _ ← io_step (fmt ["remove "; p]) (remove_file p);
    mret (Some record).

(** ** runtime_records.rs *)

Record RuntimeRecord := mkRuntime {
  rt_origin : string; runtime_ref : string; runtime_commit : string; rt_installed_size : Z;
  explicitly_installed : bool; runtime_dir : path;
}.

Definition runtime_entries (r : RuntimeRecord) : list (string * string) :=
  [("origin", rt_origin r); ("runtime_ref", runtime_ref r); ("runtime_commit", runtime_commit r);
   ("installed_size", show_Z (rt_installed_size r)); ("runtime_dir", runtime_dir r);
   ("explicitly_installed", show_bool (explicitly_installed r))].

Definition runtime_from_values (m : values) : result RuntimeRecord :=
  origin ← required m "origin";
  rref ← required m "runtime_ref";
  commit ← required m "runtime_commit";
  explicit ← (s ← required m "explicitly_installed"; ok_or "invalid explicitly_installed" (parse_bool s));
  size ← (s ← required m "installed_size"; ok_or "invalid installed_size" (parse_u64 s));
  dir ← required m "runtime_dir";
  Ok (mkRuntime origin rref commit size explicit dir).

Definition runtime_record_path (i : Installation) (runtime_ref : string) : path :=
  join_path (runtimes_dir i) (fmt [safe_name_lossy runtime_ref; ".ini"]).

Definition read_runtime_path (p : path) (w : W) : result RuntimeRecord :=
  m ← read_kv_file p w; runtime_from_values m.

Fixpoint first_duplicate (l : list RuntimeRecord) : option RuntimeRecord :=
  match l with
  | r :: (r' :: _) as t => if String.eqb (runtime_ref r) (runtime_ref r') then Some r else first_duplicate t
  | _ => None
  end.

Definition list_runtimes (i : Installation) : M W (list RuntimeRecord) :=
  _ ← ensure_layout i;
  getr (fun w =>
    files ← regular_files "read runtime state directory" (runtimes_dir i) w;
    runtimes ← map_result (fun p => read_runtime_path p w) files;
    let runtimes := sort_by (on runtime_ref) runtimes in
    match first_duplicate runtimes with
    | Some r => bail (fmt ["duplicate installed runtime ref: "; runtime_ref r])
    | None => Ok runtimes
    end).

Definition get_runtime (i : Installation) (rref : string) : M W (option RuntimeRecord) :=
  runtimes ← list_runtimes i;
  mret (List.find (fun r => String.eqb (runtime_ref r) rref) runtimes).

Definition write_runtime (i : Installation) (r : RuntimeRecord) : M W unit :=
  _ ← ensure_layout i;
  write_atomic (runtime_record_path i (runtime_ref r)) (kv (runtime_entries r)).

Definition remove_runtime_record (i : Installation) (rref : string) : M W unit := fun w =>
  let (r, w') := remove_file (runtime_record_path i rref) w in
  match r with
  | inl _ => (Ok tt, w')
  | inr e =>
      if bool_decide (ioe_kind e = NotFound) then (Ok tt, w')
      else (Err [fmt ["remove runtime record "; rref]; ioe_message e], w')
  end.

(** The application record that points at a runtime's current deployment. *)
Definition rebind (a : AppRecord) (r : RuntimeRecord) : AppRecord :=
  mkApp (app_origin a) (rt_origin r) (app_id a) (app_ref a) (app_commit a) (app_installed_size a)
    (app_dir a) (arch a) (branch a) (app_runtime_ref a) (runtime_commit r) (runtime_dir r) (command a).

Definition bound_to (a : AppRecord) (r : RuntimeRecord) : bool :=
  String.eqb (runtime_origin a) (rt_origin r) && String.eqb (app_runtime_commit a) (runtime_commit r)
  && path_eqb (app_runtime_dir a) (runtime_dir r).

Definition reconcile_runtime_bindings (i : Installation) : M W unit :=
  apps ← list_apps i;
  for_each (fun a =>
    runtime ← get_runtime i (app_runtime_ref a);
    match runtime with
    | None => mret tt
    | Some r => if bound_to a r then mret tt else write_app i (rebind a r)
    end) apps.

Definition runtime_is_required (i : Installation) (rref : string) : M W bool :=
  all ← list_apps i;
  if existsb (fun a => String.eqb (app_runtime_ref a) rref) all then mret true
  else
    getr (fun w =>
      if negb (is_dir w (apps i)) then Ok false
      else
        entries ← dir_entries (fmt ["read "; apps i]) (apps i) w;
        (fix go (l : list DirEntry) : result bool := match l with
           | [] => Ok false
           | e :: r =>
               k ← io_plain (entry_kind e);
               if negb (bool_decide (k = Directory)) then go r
               else match read_to_string w (join_path (join_path (apps i) (file_name e)) "metadata") with
                    | inr _ => go r
                    | inl metadata =>
                        if bool_decide (value metadata "Application" "runtime" = Some rref)
                        then Ok true else go r
                    end
           end) entries).

(** ** export_records.rs *)

Definition export_record_path (i : Installation) (app_id : string) : result path :=
  n ← safe_name app_id; Ok (join_path (exports_dir i) (fmt [n; ".list"])).

Definition write_export_record (i : Installation) (app_id : string) (paths : list path) : M W unit :=
  _ ← ensure_layout i;
  p ← lift (export_record_path i app_id);
  write_atomic p (fmt (map (fun e => e +:+ nl) paths)).

Definition parse_export_record (data : string) : list path :=
  List.filter (fun l => negb (is_empty l) && negb (starts_with "#" l)) (map trim (lines data)).

Definition read_export_record (i : Installation) (app_id : string) (w : W) : result (list path) :=
  p ← export_record_path i app_id;
  if negb (path_exists w p) then Ok []
  else
    data ← io_context (fmt ["read "; p]) (read_to_string w p);
    Ok (parse_export_record data).

Definition remove_export_record (i : Installation) (app_id : string) : M W unit :=
  p ← lift (export_record_path i app_id);
  exists_ ← gets (fun w : W => path_exists w p);
  if (exists_ : bool) then io_step (fmt ["remove "; p]) (remove_file p) else mret tt.
End Storage.

(** ** Lemmas: reading a record back *)

(** A value that survives being a line's end. *)
Definition value_ok (v : string) : Prop := has LF v = false /\ trim v = v.
Definition key_ok (k : string) : Prop :=
  trim k = k /\ k <> "" /\ has "=" k = false /\ has LF k = false /\ starts_with "#" k = false.

Definition kv_text (e : string * string) : string := e.1 +:+ String "=" e.2.

Lemma kv_lines l : kv l = fmt (map end_line (map kv_text l)).
Proof.
  unfold kv. rewrite map_map. f_equal. apply map_ext. intros e. unfold end_line, kv_text. by str_norm.
Qed.

Lemma kv_text_trim k v : key_ok k -> value_ok v -> trim (kv_text (k, v)) = kv_text (k, v).
Proof. intros (Hk & _) (_ & Hv). by apply trim_around. Qed.

Lemma kv_line_entry p m k v :
  key_ok k -> value_ok v -> kv_line p m (kv_text (k, v)) = Ok (bm_insert k v m).
Proof.
  intros Hk Hv. unfold kv_line. rewrite kv_text_trim by done.
  destruct Hk as (_ & Hne & Heq & _ & Hh). unfold kv_text. cbn [fst snd].
  destruct k as [|a k]; [done|]. replace (is_empty _) with false by done.
  replace (starts_with "#" (String a k +:+ String "=" v)) with (starts_with "#" (String a k)).
  2: { rewrite !starts_with_strip. cbn [append strip_prefix]. by destruct (Ascii.eqb "#" a). }
  rewrite Hh. cbn [orb].
  by rewrite (proj2 (split_once_Some "=" _ (String a k) v)).
Qed.

Definition entry_ok (e : string * string) : Prop := key_ok e.1 /\ value_ok e.2.

Lemma parse_kv_entries p l :
  Forall entry_ok l -> parse_kv p (kv l) = Ok (foldl (fun m e => bm_insert e.1 e.2 m) [] l).
Proof.
  intros F. unfold parse_kv. rewrite kv_lines, lines_of_lines.
  - generalize (@nil (string * string)) as m. induction F as [|[k v] l [Hk Hv] F IH]; intros m; [done|].
    cbn [map fold_result]. rewrite kv_line_entry by done. cbn [mbind result_bind foldl]. apply IH.
  - apply Forall_map. eapply Forall_impl; [exact F|]. intros [k v] [Hk Hv]. split.
    + destruct Hk as (_ & _ & _ & Hk & _), Hv as [Hv _]. unfold kv_text.
      rewrite has_app. cbn in *. by rewrite Hk, Hv.
    + by apply trim_strip_cr, kv_text_trim.
Qed.

Lemma value_ok_visible s : all_bytes visible_ascii s = true -> value_ok s.
Proof. intros H. split; [by eapply all_bytes_has|by apply trim_visible]. Qed.

Lemma digit_visible a : is_digit a = true -> visible_ascii a = true.
Proof. destruct a as [[] [] [] [] [] [] [] []]; vm_compute; done. Qed.

Lemma value_ok_show_Z z : value_ok (show_Z z).
Proof.
  apply value_ok_visible. unfold show_Z.
  assert (forall n, all_bytes visible_ascii (show_N n) = true) as Hn.
  { intros n. eapply all_bytes_impl; [exact digit_visible|]. apply show_N_digits. }
  destruct (z <? 0)%Z; [|done]. cbn [append all_bytes]. by rewrite Hn.
Qed.

Lemma value_ok_bool b : value_ok (show_bool b).
Proof. by destruct b. Qed.

(** Finds an element in a list given by its elements. *)
Ltac find_elem := repeat (first [by left | right]).

(** The constant keys of the records. *)
Ltac key_ok := split_and!; vm_compute; done.

Section ReadBack.
Context `{FileOpsLaws W} (pid : N) (next_sequence : M W N).

Lemma write_atomic_read p d w w' :
  write_atomic pid next_sequence p d w = (Ok tt, w') -> read_to_string w' p = inl d.
Proof.
  unfold write_atomic. intros Hr.
  apply M_bind_ok in Hr as (? & w1 & _ & Hr).
  apply M_bind_ok in Hr as (n & w2 & _ & Hr). cbv zeta in Hr.
  apply M_bind_ok in Hr as (? & w3 & Hw & Hr).
  apply io_step_ok in Hw, Hr. destruct x0.
  eapply rename_file_read; [exact Hr|]. by eapply write_file_read.
Qed.
End ReadBack.

(** What a record may hold to be read back unchanged: values of one trimmed
    line, and a size of its type. *)
Definition app_ok (a : AppRecord) : Prop :=
  Forall (fun e => value_ok e.2) (app_entries a) /\ (0 <= app_installed_size a <= 2 ^ 64 - 1)%Z.
Definition runtime_ok (r : RuntimeRecord) : Prop :=
  Forall (fun e => value_ok e.2) (runtime_entries r) /\ (0 <= rt_installed_size r <= 2 ^ 64 - 1)%Z.

Lemma entries_ok l :
  Forall key_ok l.*1 -> Forall (fun e => value_ok e.2) l -> Forall entry_ok l.
Proof. rewrite Forall_fmap, !Forall_forall. intros H1 H2 e He. split; [by apply H1|by apply H2]. Qed.

Lemma app_keys_ok a : Forall key_ok (app_entries a).*1.
Proof. repeat (constructor; [key_ok|]). constructor. Qed.
Lemma runtime_keys_ok r : Forall key_ok (runtime_entries r).*1.
Proof. repeat (constructor; [key_ok|]). constructor. Qed.

Lemma app_values_roundtrip p a :
  app_ok a -> (m ← parse_kv p (kv (app_entries a)); app_from_values m) = Ok a.
Proof.
  intros [F Hs]. rewrite parse_kv_entries by (apply entries_ok; [apply app_keys_ok|done]).
  cbn [mbind result_bind]. unfold app_from_values.
  assert (forall k v, (k, v) ∈ app_entries a ->
    bm_get k (foldl (fun m e => bm_insert e.1 e.2 m) [] (app_entries a)) = Some v) as Hg.
  { intros k v. unfold app_entries. rewrite !elem_of_cons.
    intros Hin. repeat destruct Hin as [[= -> ->]|Hin]; try reflexivity. by apply not_elem_of_nil in Hin. }
  unfold required.
  rewrite (Hg "origin" (app_origin a)), (Hg "runtime_origin" (runtime_origin a)),
    (Hg "app_id" (app_id a)), (Hg "app_ref" (app_ref a)), (Hg "app_commit" (app_commit a)),
    (Hg "installed_size" (show_Z (app_installed_size a))), (Hg "app_dir" (app_dir a)),
    (Hg "arch" (arch a)), (Hg "branch" (branch a)), (Hg "runtime_ref" (app_runtime_ref a)),
    (Hg "runtime_commit" (app_runtime_commit a)), (Hg "runtime_dir" (app_runtime_dir a)),
    (Hg "command" (command a)) by find_elem.
  cbn [ok_or mbind result_bind]. unfold parse_u64. rewrite parse_int_show by done. by destruct a.
Qed.

Lemma runtime_values_roundtrip p r :
  runtime_ok r -> (m ← parse_kv p (kv (runtime_entries r)); runtime_from_values m) = Ok r.
Proof.
  intros [F Hs]. rewrite parse_kv_entries by (apply entries_ok; [apply runtime_keys_ok|done]).
  cbn [mbind result_bind]. unfold runtime_from_values.
  assert (forall k v, (k, v) ∈ runtime_entries r ->
    bm_get k (foldl (fun m e => bm_insert e.1 e.2 m) [] (runtime_entries r)) = Some v) as Hg.
  { intros k v. unfold runtime_entries. rewrite !elem_of_cons.
    intros Hin. repeat destruct Hin as [[= -> ->]|Hin]; try reflexivity. by apply not_elem_of_nil in Hin. }
  unfold required.
  rewrite (Hg "origin" (rt_origin r)), (Hg "runtime_ref" (runtime_ref r)),
    (Hg "runtime_commit" (runtime_commit r)), (Hg "installed_size" (show_Z (rt_installed_size r))),
    (Hg "runtime_dir" (runtime_dir r)), (Hg "explicitly_installed" (show_bool (explicitly_installed r)))
    by find_elem.
  cbn [ok_or mbind result_bind]. unfold parse_u64. rewrite parse_bool_show, parse_int_show by done.
  by destruct r.
Qed.

(** ** Lemmas: the files of the records *)

Definition safe_byte (a : ascii) : bool :=
  is_alnum a || Ascii.eqb a "." || Ascii.eqb a "-" || Ascii.eqb a "_".

Lemma safe_byte_ascii a : safe_byte a = true -> (N_of_ascii a <? 128)%N = true.
Proof. destruct a as [[] [] [] [] [] [] [] []]; vm_compute; done. Qed.

Lemma safe_name_lossy_fixed s : all_bytes safe_byte s = true -> safe_name_lossy s = s.
Proof.
  unfold safe_name_lossy. induction s as [|a s IH]; [done|]. cbn [all_bytes].
  intros [Ha Hs]%andb_true_iff. pose proof (safe_byte_ascii _ Ha) as Hn.
  cbn [chars]. rewrite (proj2 (N.ltb_lt _ 192)) by (apply N.ltb_lt in Hn; lia).
  cbn [map]. rewrite fmt_cons, IH by done. unfold safe_char, ascii_char. rewrite Hn.
  unfold safe_byte in Ha. rewrite Ha. done.
Qed.

Lemma safe_name_lossy_safe s : all_bytes safe_byte (safe_name_lossy s) = true.
Proof.
  unfold safe_name_lossy. induction (chars s) as [|c l IH]; [done|]. cbn [map].
  rewrite fmt_cons, all_bytes_app, IH, andb_true_r. unfold safe_char.
  destruct (ascii_char _ c) eqn:E; [|done].
  destruct c as [|a [|]]; try done. cbn in E |- *. apply andb_true_iff in E as [_ E].
  unfold safe_byte. by rewrite E.
Qed.

Lemma all_bytes_join f c l :
  f c = true -> Forall (fun p => all_bytes f p = true) l -> all_bytes f (join (String c "") l) = true.
Proof.
  intros Hc. induction 1 as [|p l Hp F IH]; [done|].
  destruct l as [|q l]; [done|]. rewrite join_cons by done.
  rewrite !all_bytes_app, Hp, IH. cbn. by rewrite Hc.
Qed.

Lemma validate_id_safe s : validate_id s = None -> all_bytes safe_byte s = true.
Proof.
  intros (_ & _ & H)%validate_id_grammar. rewrite <- (join_split "." s).
  apply all_bytes_join; [done|]. apply Forall_lookup. intros i seg Hi.
  destruct (H i seg Hi) as (c & cs & Hc & H1 & H2). apply chars_ascii. rewrite Hc.
  assert (forall x b, valid_id_char x b = true -> ascii_char safe_byte x = true) as Hv.
  { intros x b. unfold valid_id_char, valid_initial_id_char. rewrite !orb_true_iff, andb_true_iff.
    intros [[[Hx|Hx]|[_ Hx]]|Hx].
    - eapply ascii_char_impl; [|exact Hx]. intros a Ha. unfold safe_byte, is_alnum. by rewrite Ha.
    - by apply String.eqb_eq in Hx as ->.
    - by apply String.eqb_eq in Hx as ->.
    - eapply ascii_char_impl; [|exact Hx]. intros a Ha. unfold safe_byte, is_alnum.
      by rewrite Ha, orb_true_r. }
  cbn [forallb]. rewrite (Hv c (Nat.eqb (S i) (length (split "." s)))).
  - apply forallb_forall. intros x Hx%list_elem_of_In. rewrite Forall_forall in H2. eapply Hv, (H2 x Hx).
  - unfold valid_id_char. by rewrite H1.
Qed.

Lemma record_name_ok n ext : all_bytes safe_byte n = true -> ext ∈ ["ini"; "list"] ->
  name_ok (fmt [n; "." +:+ ext]).
Proof.
  intros Hn Hext. assert (all_bytes safe_byte (fmt [n; "." +:+ ext]) = true) as Ha.
  { rewrite !fmt_cons, fmt_nil, !all_bytes_app, Hn. rewrite !elem_of_cons in Hext.
    by destruct Hext as [->|[->|[]%not_elem_of_nil]]. }
  split_and!; [by eapply all_bytes_has| |];
    rewrite !elem_of_cons in Hext; destruct Hext as [->|[->|[]%not_elem_of_nil]];
    destruct n as [|a [|b [|c n]]]; try done; unfold skipped; cbn;
    repeat match goal with |- context [Ascii.eqb ?x ?y] => destruct (Ascii.eqb x y) end; try done;
    by intros [=].
Qed.

(** ** Properties *)

(** A record that was written is read back unchanged: an application's
    under its identifier, a runtime's under the file of its ref, for records
    whose values are single trimmed lines. *)
Theorem records_roundtrip `{FileOpsLaws W} (pid : N) (next_sequence : M W N) i w w' :
  (forall a, app_ok a -> has "/" (app_id a) = false ->
     write_app pid next_sequence i a w = (Ok tt, w') -> get_app i (app_id a) w' = Ok a) /\
  (forall r, runtime_ok r ->
     write_runtime pid next_sequence i r w = (Ok tt, w') ->
     read_runtime_path (runtime_record_path i (runtime_ref r)) w' = Ok r).
Proof.
  split.
  - intros a Ha Hs Hw. unfold write_app in Hw. apply M_bind_ok in Hw as (p & w1 & Hp & Hw).
    unfold lift in Hp. injection Hp as Hp <-. apply write_atomic_read in Hw.
    unfold get_app. rewrite Hp. cbn [mbind result_bind]. unfold read_app_path, read_kv_file.
    rewrite Hw. cbn [io_context mbind result_bind]. by rewrite app_values_roundtrip.
  - intros r Hr Hw. unfold write_runtime in Hw. apply M_bind_ok in Hw as (? & w1 & _ & Hw).
    apply write_atomic_read in Hw. unfold read_runtime_path, read_kv_file.
    rewrite Hw. cbn [io_context mbind result_bind]. by apply runtime_values_roundtrip.
Qed.

Definition example_installation : Installation :=
  mkInstallation "/home/u/.local/share" "/data" "/cache" "/run/x" "/home/u/.var/app" "/bin/flatpak" "/libexec".
Definition example_app : AppRecord :=
  mkApp "flathub" "flathub" "org.a.App" "app/org.a.App/x86_64/stable" "c0ffee" 123456 "apps/org.a.App/c0ffee"
    "x86_64" "stable" "org.p.Platform/x86_64/24.08" "beef" "runtimes/p/beef" "run me --now".
Definition example_runtime : RuntimeRecord :=
  mkRuntime "flathub" "org.p.Platform/x86_64/24.08" "beef" 42 true "runtimes/p/beef".

Lemma example_app_ok : app_ok example_app.
Proof.
  split; [repeat (constructor; [split; vm_compute; reflexivity|]); constructor|vm_compute; split; discriminate].
Qed.

Lemma records_roundtrip_witness :
  let w := mkTree [] [] in
  get_app example_installation "org.a.App"
    (write_app 7 (mret 3%N) example_installation example_app w).2 = Ok example_app /\
  read_runtime_path (runtime_record_path example_installation "org.p.Platform/x86_64/24.08")
    (write_runtime 7 (mret 3%N) example_installation example_runtime w).2 = Ok example_runtime.
Proof.
  intros w. split.
  - apply (proj1 (records_roundtrip 7 (mret 3%N) example_installation w _) example_app).
    + split; [repeat (constructor; [split; vm_compute; reflexivity|]); constructor|vm_compute; split; discriminate].
    + reflexivity.
    + vm_compute. reflexivity.
  - apply (proj2 (records_roundtrip 7 (mret 3%N) example_installation w _) example_runtime).
    + split; [repeat (constructor; [split; vm_compute; reflexivity|]); constructor|vm_compute; split; discriminate].
    + vm_compute. reflexivity.
Defined.

(** The record of an application with a valid identifier is a file of its
    own directly in the directory of application records. *)
Theorem app_record_paths i a b p q :
  is_absolute (refs i) = true -> validate_id a = None -> validate_id b = None ->
  app_record_path i a = Ok p -> app_record_path i b = Ok q ->
  components p = components (apps_dir i) ++ [Normal (a +:+ ".ini")] /\ (components p = components q -> a = b).
Proof.
  intros Hi Ha Hb Hp Hq. unfold app_record_path in Hp, Hq. inv_ok. subst p q.
  unfold safe_name in *. rewrite validate_id_no_slash in Hr, Hr0 by done. inv_ok. subst r r0.
  rewrite !safe_name_lossy_fixed by (by apply validate_id_safe).
  assert (apps_dir i <> "") as Hne.
  { apply absolute_nonempty. unfold apps_dir. rewrite is_absolute_join; auto using absolute_nonempty. }
  assert (forall n, validate_id n = None -> components (join_path (apps_dir i) (n +:+ ".ini")) =
    components (apps_dir i) ++ [Normal (n +:+ ".ini")]) as Hc.
  { intros n Hn. rewrite components_join_name; [|done|].
    - done.
    - apply (record_name_ok n "ini"); [by apply validate_id_safe|left]. }
  rewrite !Hc by done. split; [done|]. intros E. apply app_inj_tail in E as [_ E].
  injection E as E. by apply sapp_inv_tail in E.
Qed.

Lemma app_record_paths_witness :
  components "/data/refs/apps/org.a.App.ini" =
    components (apps_dir example_installation) ++ [Normal "org.a.App.ini"].
Proof.
  exact (proj1 (app_record_paths example_installation "org.a.App" "org.a.App" _ _
    eq_refl eq_refl eq_refl eq_refl eq_refl)).
Defined.

(** The files of runtime records are not their own: two different valid
    runtime refs can have the same record file, and recording one of them
    replaces the record of the other. *)
Theorem runtime_record_paths_collide i :
  let a := "org.a.b/x86_64/s_x86_64_t" in let b := "org.a.b_x86_64_s/x86_64/t" in
  is_ok (parse_ref ("runtime/" +:+ a)) = true /\ is_ok (parse_ref ("runtime/" +:+ b)) = true /\
  a <> b /\ runtime_record_path i a = runtime_record_path i b.
Proof.
  split; [vm_compute; reflexivity|]. split; [vm_compute; reflexivity|]. split; [discriminate|].
  unfold runtime_record_path.
  assert (safe_name_lossy "org.a.b/x86_64/s_x86_64_t" = safe_name_lossy "org.a.b_x86_64_s/x86_64/t") as ->
    by (vm_compute; reflexivity).
  reflexivity.
Qed.
