(* ===== verification/RunRecords.v ===== *)
(** * RunRecords: running instances and the deployments they hold
    (run_records.rs, generation_cleanup.rs and the deployment scan of
    runtime_records.rs in src/src/installation)

    Every running sandbox owns a record that names its root, its launcher and
    the deployments it uses; deployments no installed or running application
    uses any more are removed. *)
From Stdlib Require Import Ascii String NArith ZArith Lia Sorting.Sorted.
From stdpp Require Import base list strings sets.
From S2P Require Import Prelude Effects Collections RustStr RustNum RustPath HostFs FlatpakMetadata Processes InstallationPaths Records.

(** ** Deployment markers *)

Record DeploymentData := mkDeployment {
  dd_ref_name : string; dd_commit : string; dd_installed_size : Z; dd_origin : string }.

Section Markers.
Context {W : Type} `{FileOps W}.

Definition marker_lines (p : path) (w : W) : result (option (list string)) :=
  let marker_path := join_path p ".ostree-commit" in
  if negb (is_file w marker_path) then Ok None
  else
    marker ← io_context (fmt ["read "; marker_path]) (read_to_string w marker_path);
    Ok (Some (lines marker)).

Definition deployment_marker (p : path) (w : W) : result (option (string * string)) :=
  marker ← marker_lines p w;
  match marker with
  | None => Ok None
  | Some l =>
      ref_name ← ok_or "deployment marker missing ref" (l !! 0);
      commit ← ok_or "deployment marker missing commit" (l !! 1);
      Ok (Some (ref_name, commit))
  end.

Definition deployment_data (p : path) (w : W) : result (option DeploymentData) :=
  marker ← marker_lines p w;
  match marker with
  | None => Ok None
  | Some l =>
      ref_name ← ok_or "deployment marker missing ref" (l !! 0);
      commit ← ok_or "deployment marker missing commit" (l !! 1);
      size ← ok_or "deployment marker missing installed size" (l !! 2);
      size ← ok_or "deployment marker has invalid installed size" (parse_u64 size);
      origin ← ok_or "deployment marker missing origin" (l !! 3);
      Ok (Some (mkDeployment ref_name commit size origin))
  end.
End Markers.

(** ** Run records *)

(** The cast [u32 as pid_t]. *)
Definition as_pid_t (z : Z) : Z := if (z <? 2 ^ 31)%Z then z else (z - 2 ^ 32)%Z.

Definition run_record_path (i : Installation) (app_id instance_id : string) : result path :=
  a ← safe_name app_id;
  n ← safe_name instance_id;
  Ok (join_path (runs i) (fmt [a; "."; n; ".ini"])).

Record RunRecord := mkRun {
  rr_app_id : string; rr_instance_id : string; rr_root : path;
  rr_launcher_pid : Z; rr_child_pid : Z;
  rr_parent_root : option path;
  rr_deployment : option AppRecord;
  rr_checkout_paths : option (path * path);
  rr_extension_refs : list string;
  rr_extension_dirs : list path;
}.

Definition deployment_entries (a : AppRecord) : list (string * string) :=
  [("app_ref", app_ref a); ("app_commit", app_commit a); ("installed_size", show_Z (app_installed_size a));
   ("app_dir", app_dir a); ("arch", arch a); ("branch", branch a);
   ("runtime_ref", app_runtime_ref a); ("runtime_commit", app_runtime_commit a);
   ("runtime_dir", app_runtime_dir a); ("command", command a)].

(** The lines of a run record; [launcher_start] is the identity of the launcher
    if it is running. *)
Definition run_entries (r : RunRecord) (launcher_start : option ProcessIdentity) : list (string * string) :=
  [("app_id", rr_app_id r); ("instance_id", rr_instance_id r); ("root", rr_root r);
   ("launcher_pid", show_Z (rr_launcher_pid r)); ("child_pid", show_Z (rr_child_pid r))]
  ++ option_list ((fun p => ("parent_root", p)) <$> rr_parent_root r)
  ++ option_list ((fun s => ("launcher_start", display_identity s)) <$> launcher_start)
  ++ match rr_deployment r, rr_checkout_paths r with
     | Some a, _ => deployment_entries a
     | None, Some (app_dir, runtime_dir) => [("app_dir", app_dir); ("runtime_dir", runtime_dir)]
     | None, None => []
     end
  ++ (if bool_decide (rr_extension_refs r = []) then []
      else [("extension_refs", join ";" (rr_extension_refs r))])
  ++ (if bool_decide (rr_extension_dirs r = []) then []
      else [("extension_dirs", join ";" (rr_extension_dirs r))]).

(** [kill(pid, 0)]: success, no such process, no permission, or another error. *)
Inductive kill_probe := KillOk | KillESRCH | KillEPERM | KillError (e : string).

Section RunRecords.
Context {W : Type} `{FileOps W}.
Context (pid : N) (next_sequence : M W N).
(** The process table: [sysctl] and [kill] with signal 0. *)
Context (process_lookup : W -> Z -> result (option ProcessIdentity)) (probe : W -> Z -> kill_probe).

Definition for_pid (w : W) (p : Z) : result (option ProcessIdentity) :=
  identity_for_pid (process_lookup w) p.

(** [write_run_record_inner], which every writer of run records calls. *)
Definition write_run_record (i : Installation) (r : RunRecord) : M W path :=
  _ ← ensure_layout i;
  p ← lift (run_record_path i (rr_app_id r) (rr_instance_id r));
  identity ← getr (fun w => for_pid w (as_pid_t (rr_launcher_pid r)));
  _ ← write_atomic pid next_sequence p (kv (run_entries r identity));
  mret p.

Definition write_nested_run_record (i : Installation) (app_id instance_id : string)
    (root parent_root : path) (launcher_pid : Z) : M W path :=
  write_run_record i (mkRun app_id instance_id root launcher_pid 0 (Some parent_root) None None [] []).

Definition write_checkout_pin (i : Installation) (app_id instance_id : string)
    (root app_dir runtime_dir : path) : M W path :=
  write_run_record i (mkRun app_id instance_id root (Z.of_N pid) 0 None None (Some (app_dir, runtime_dir)) [] []).

Definition write_pinned_run_record_with_extension_deployments (i : Installation) (instance_id : string)
    (root : path) (launcher_pid child_pid : Z) (a : AppRecord)
    (extension_refs : list string) (extension_dirs : list path) : M W path :=
  write_run_record i (mkRun (app_id a) instance_id root launcher_pid child_pid None (Some a) None
    extension_refs extension_dirs).

Definition app_from_run_record (i : Installation) (m : values) (w : W) : result AppRecord :=
  match bm_get "app_commit" m with
  | Some _ => app_from_values m
  | None => id ← required m "app_id"; get_app i id w
  end.

Definition pinned_deployment_for_app (i : Installation) (id : string) (dir runtime_dir : path) (w : W)
  : result AppRecord :=
  a ← get_app i id w;
  let relative p := match relative_data_path i p with Ok q => q | Err _ => p end in
  marker ← deployment_marker dir w;
  runtime_marker ← deployment_marker runtime_dir w;
  let (rref, rcommit) := match runtime_marker with
    | Some (r, c) => (default r (strip_prefix "runtime/" r), c)
    | None => (app_runtime_ref a, app_runtime_commit a)
    end in
  Ok (mkApp (app_origin a) (runtime_origin a) (app_id a)
        (match marker with Some (r, _) => r | None => app_ref a end)
        (match marker with Some (_, c) => c | None => app_commit a end)
        (app_installed_size a) (relative dir) (arch a) (branch a) rref rcommit
        (relative runtime_dir) (command a)).

Definition remove_run_record (p : path) : M W unit :=
  present ← gets (fun w : W => path_exists w p);
  if (present : bool) then io_step (fmt ["remove "; p]) (remove_file p) else mret tt.

Definition portal_inactive_text (data : string) : string :=
  fmt (map end_line (List.filter (fun l => negb (starts_with "portal_active=" l)) (lines data)))
  +:+ end_line "portal_active=false".

Definition mark_run_record_portal_inactive (p : path) : M W unit :=
  data ← getr (fun w => io_context (fmt ["read "; p]) (read_to_string w p));
  in_context (fmt ["mark portal inactive in "; p])
    (write_atomic pid next_sequence p (portal_inactive_text data)).

Definition read_sandbox_ownership_records (i : Installation) : M W (list values) :=
  _ ← ensure_layout i;
  getr (fun w =>
    entries ← dir_entries "read run state directory" (runs i) w;
    kinds ← map_result (fun e => k ← io_plain (entry_kind e); Ok (file_name e, k)) entries;
    map_result (fun e =>
        let p := join_path (runs i) e.1 in
        m ← read_kv_file p w; Ok (bm_insert "_path" p m))
      (List.filter (fun e => bool_decide (e.2 = RegularFile)) kinds)).

Definition read_run_records (i : Installation) : M W (list values) :=
  records ← read_sandbox_ownership_records i;
  mret (List.filter (fun m => bool_decide (bm_get "parent_root" m = None)) records).

Definition run_record_launcher_active (w : W) (m : values) : result bool :=
  match bm_get "launcher_pid" m ≫= parse_i32 with
  | None => Ok false
  | Some p =>
      if (p <=? 0)%Z then Ok false
      else match bm_get "launcher_start" m with
           | None =>
               match probe w p with
               | KillOk => Ok true
               | KillESRCH => Ok false
               | KillEPERM => Ok true
               | KillError e => Err [fmt ["inspect legacy run-record launcher "; show_Z p]; e]
               end
           | Some v =>
               recorded ← ok_or (fmt ["invalid identity for run-record launcher "; show_Z p]) (parse_identity v);
               current ← for_pid w p;
               Ok (bool_decide (current = Some recorded))
           end
  end.

(** ** Deployments *)

Definition runtime_deployment_from_path (i : Installation) (p : path) (w : W) : result (option RuntimeRecord) :=
  data ← deployment_data p w;
  match data with
  | None => Ok None
  | Some d =>
      match strip_prefix "runtime/" (dd_ref_name d) with
      | None => Ok None
      | Some rref =>
          dir ← relative_data_path i p;
          Ok (Some (mkRuntime (dd_origin d) rref (dd_commit d) (dd_installed_size d) false dir))
      end
  end.

(** The walk below the runtimes' directory; the fuel bounds its depth. *)
Fixpoint collect_runtime_deployments (fuel : nat) (i : Installation) (directory : path) (w : W)
  : result (list RuntimeRecord) :=
  match fuel with
  | 0 => bail "directory tree too deep"
  | S fuel =>
      if negb (is_dir w directory) then Ok []
      else
        runtime ← runtime_deployment_from_path i directory w;
        match runtime with
        | Some r => Ok [r]
        | None =>
            entries ← dir_entries (fmt ["read "; directory]) directory w;
            parts ← map_result (fun e =>
                k ← io_plain (entry_kind e);
                if bool_decide (k = Directory)
                then collect_runtime_deployments fuel i (join_path directory (file_name e)) w
                else Ok []) entries;
            Ok (concat parts)
        end
  end.

Definition deployment_key (r : RuntimeRecord) : string * string * list component :=
  (runtime_ref r, rt_origin r, components (runtime_dir r)).

Definition list_runtime_deployments (fuel : nat) (i : Installation) : M W (list RuntimeRecord) :=
  _ ← ensure_layout i;
  getr (fun w =>
    deployments ← collect_runtime_deployments fuel i (runtimes i) w;
    Ok (dedup (fun a b => path_eqb (runtime_dir a) (runtime_dir b))
          (sort_by (on deployment_key) deployments))).

(** ** Removal of what is no longer used *)

Definition managed_below (roots : list path) (p : path) : bool :=
  existsb (fun root => path_starts_with p root && negb (path_eqb p root)) roots.

Definition safe_remove_dir (i : Installation) (p : path) : M W unit :=
  let p := absolute_data_path i p in
  present ← gets (fun w : W => path_exists w p);
  if negb present then mret tt
  else if negb (managed_below [apps i; runtimes i; chroots i] p)
  then lift (bail (fmt ["refusing to remove path outside managed runtime data: "; p]))
  else io_step (fmt ["remove "; p]) (remove_dir_all p).

Definition remove_managed_path (i : Installation) (p : path) : M W unit :=
  if negb (managed_below [apps i; runtimes i] p)
  then lift (bail (fmt ["refusing to remove unmanaged path: "; p]))
  else
    kind ← gets (fun w : W => symlink_kind w p);
    match kind with
    | inl Directory => io_step (fmt ["remove "; p]) (remove_dir_all p)
    | inl _ => io_step (fmt ["remove "; p]) (remove_file p)
    | inr e => if bool_decide (ioe_kind e = NotFound) then mret tt
               else fail [fmt ["inspect "; p]; ioe_message e]
    end.

Definition run_directories (i : Installation) (m : values) : list path :=
  option_list (absolute_data_path i <$> bm_get "app_dir" m)
  ++ option_list (absolute_data_path i <$> bm_get "runtime_dir" m)
  ++ match bm_get "extension_dirs" m with
     | None => []
     | Some v => map (absolute_data_path i)
                   (List.filter (fun p => negb (is_empty p)) (map trim (split ";" v)))
     end.

(** The directories that installed or running applications use, by their
    components: a [BTreeSet<PathBuf>]. *)
Definition protected_directories (i : Installation) : M W (list pathbuf) :=
  all ← list_apps i;
  runtimes ← list_runtimes i;
  runs ← read_run_records i;
  mret (bs_of_list (map components
    (concat (map (fun a => [absolute_data_path i (app_dir a); absolute_data_path i (app_runtime_dir a)]) all)
     ++ map (fun r => absolute_data_path i (runtime_dir r)) runtimes
     ++ concat (map (run_directories i) runs)))).

Definition has_marker (w : W) (p : path) : bool := is_file w (join_path p ".ostree-commit").

Section Cleanup.
Context (i : Installation) (protected : list pathbuf).

Definition is_protected (p : path) : bool := bs_contains (components p) protected.

Definition remove_runtimes (deployments : list RuntimeRecord) : M W (list path) :=
  fold_each (fun removed r =>
    let p := absolute_data_path i (runtime_dir r) in
    if is_protected p then mret removed
    else _ ← safe_remove_dir i p; mret (removed ++ [p])) deployments [].

Definition remove_generation (family : path) (removed : list path) (e : DirEntry) : M W (list path) :=
  let p := join_path family (file_name e) in
  kind ← lift (io_plain (entry_kind e));
  marked ← gets (fun w : W => has_marker w p);
  if negb (bool_decide (kind = Directory)) || negb marked || is_protected p then mret removed
  else _ ← safe_remove_dir i p; mret (removed ++ [p]).

Definition remove_legacy_entry (family : path) (e : DirEntry) : M W unit :=
  let p := join_path family (file_name e) in
  kind ← lift (io_plain (entry_kind e));
  marked ← gets (fun w : W => has_marker w p);
  if bool_decide (kind = Directory) && marked then mret tt else remove_managed_path i p.

Definition remove_family (removed : list path) (e : DirEntry) : M W (list path) :=
  let family := join_path (apps i) (file_name e) in
  kind ← lift (io_plain (entry_kind e));
  if negb (bool_decide (kind = Directory)) then mret removed
  else
    generations ← getr (dir_entries (fmt ["read "; family]) family);
    removed ← fold_each (remove_generation family) generations removed;
    marked ← gets (fun w : W => has_marker w family);
    if (marked : bool) && negb (is_protected family) then
      entries ← getr (dir_entries (fmt ["read "; family]) family);
      _ ← for_each (remove_legacy_entry family) entries;
      mret (removed ++ [family])
    else mret removed.
End Cleanup.

Definition cleanup_retired_deployments (fuel : nat) (i : Installation) : M W (list path) :=
  protected ← protected_directories i;
  deployments ← list_runtime_deployments fuel i;
  removed ← remove_runtimes i protected deployments;
  present ← gets (fun w : W => is_dir w (apps i));
  if negb present then mret removed
  else
    families ← getr (dir_entries (fmt ["read "; apps i]) (apps i));
    fold_each (remove_family i protected) families removed.
End RunRecords.

(** ** Lemmas: what the cleanup touches *)

Section Safety.
Context {W : Type} `{FileOps W} (i : Installation) (P : W -> Prop).

(** Operations that prepare the layout, and removals below the managed
    directories. *)
Context (P_dirs : forall p, keeps P (io_step (W := W) (fmt ["create "; p]) (make_dirs p))).
Context (P_layout : keeps P (ensure_layout (W := W) i)).
Context (P_remove : forall msg p, managed_below [apps i; runtimes i; chroots i] p = true ->
  keeps P (io_step (W := W) msg (remove_dir_all p)) /\ keeps P (io_step (W := W) msg (remove_file p))).

Lemma keeps_list_apps : keeps P (list_apps (W := W) i).
Proof. unfold list_apps. eauto with keeps. Qed.
Lemma keeps_list_runtimes : keeps P (list_runtimes (W := W) i).
Proof. unfold list_runtimes. eauto with keeps. Qed.
Lemma keeps_read_run_records : keeps P (read_run_records (W := W) i).
Proof. unfold read_run_records, read_sandbox_ownership_records. eauto 10 with keeps. Qed.
#[local] Hint Resolve keeps_list_apps keeps_list_runtimes keeps_read_run_records : keeps.

Lemma keeps_protected_directories : keeps P (protected_directories (W := W) i).
Proof.
  unfold protected_directories. apply keeps_bind; [auto with keeps|]. intros all.
  apply keeps_bind; [auto with keeps|]. intros rts. apply keeps_bind; auto with keeps.
Qed.

Lemma keeps_safe_remove_dir p : keeps P (safe_remove_dir (W := W) i p).
Proof.
  unfold safe_remove_dir. apply keeps_bind; [auto with keeps|]. intros present.
  apply keeps_if; [auto with keeps|].
  destruct (managed_below [apps i; runtimes i; chroots i] (absolute_data_path i p)) eqn:E; cbn [negb]; [|auto with keeps].
  by apply (P_remove _ _ E).
Qed.

Lemma managed_weaken p :
  managed_below [apps i; runtimes i] p = true -> managed_below [apps i; runtimes i; chroots i] p = true.
Proof. unfold managed_below. cbn. rewrite !orb_true_iff. naive_solver. Qed.

Lemma keeps_remove_managed_path p : keeps P (remove_managed_path (W := W) i p).
Proof.
  unfold remove_managed_path. destruct (managed_below [apps i; runtimes i] p) eqn:E; cbn [negb]; [|auto with keeps].
  apply managed_weaken in E. apply keeps_bind; [auto with keeps|].
  intros [[]|e]; try (by apply (P_remove _ _ E)). apply keeps_if; auto with keeps.
Qed.
#[local] Hint Resolve keeps_protected_directories keeps_safe_remove_dir keeps_remove_managed_path : keeps.

Lemma keeps_cleanup fuel : keeps P (cleanup_retired_deployments (W := W) fuel i).
Proof.
  unfold cleanup_retired_deployments. apply keeps_bind; [auto with keeps|]. intros prot.
  apply keeps_bind; [unfold list_runtime_deployments; auto with keeps|]. intros deployments.
  apply keeps_bind.
  { unfold remove_runtimes. apply keeps_fold_each. intros removed r _. apply keeps_if; auto with keeps. }
  intros removed. apply keeps_bind; [auto with keeps|]. intros present.
  apply keeps_if; [auto with keeps|]. apply keeps_bind; [auto with keeps|]. intros families.
  apply keeps_fold_each. intros removed' e _. unfold remove_family.
  apply keeps_bind; [auto with keeps|]. intros kind. apply keeps_if; [auto with keeps|].
  apply keeps_bind; [auto with keeps|]. intros generations. apply keeps_bind.
  { apply keeps_fold_each. intros rem e' _. unfold remove_generation.
    apply keeps_bind; [auto with keeps|]. intros k. apply keeps_bind; [auto with keeps|]. intros m.
    apply keeps_if; auto with keeps. }
  intros rem. apply keeps_bind; [auto with keeps|]. intros marked. apply keeps_if; [|auto with keeps].
  apply keeps_bind; [auto with keeps|]. intros entries. apply keeps_bind; [|auto with keeps].
  apply keeps_for_each. intros e' _. unfold remove_legacy_entry.
  apply keeps_bind; [auto with keeps|]. intros k. apply keeps_bind; [auto with keeps|]. intros m.
  apply keeps_if; auto with keeps.
Qed.
End Safety.

(** What the cleanup reports to have removed was not in use. *)
Section Reported.
Context {W : Type} `{FileOps W} (i : Installation) (prot : list pathbuf).

Definition unprotected (removed : list path) : Prop := Forall (fun p => components p ∉ prot) removed.

Lemma not_protected p : is_protected prot p = false -> components p ∉ prot.
Proof. unfold is_protected. rewrite <- not_true_iff_false. by rewrite bs_contains_true. Qed.

Lemma unprotected_snoc removed p :
  unprotected removed -> is_protected prot p = false -> unprotected (removed ++ [p]).
Proof. intros Hr Hp. apply Forall_app. split; [done|]. apply Forall_singleton. by apply not_protected. Qed.

Lemma remove_runtimes_unprotected deployments (w : W) removed w' :
  remove_runtimes i prot deployments w = (Ok removed, w') -> unprotected removed.
Proof.
  intros Hr. eapply (fold_each_inv _ unprotected); [|constructor|exact Hr].
  intros b a w1 b' w1' _ Hb Hs. cbv zeta beta in Hs.
  destruct (is_protected _ _) eqn:E; [by injection Hs as <- <-|].
  apply M_bind_ok in Hs as (? & w2 & _ & Hs). injection Hs as <- <-. by apply unprotected_snoc.
Qed.

Lemma remove_family_unprotected removed e (w : W) removed' w' :
  unprotected removed -> remove_family i prot removed e w = (Ok removed', w') -> unprotected removed'.
Proof.
  intros Hu0 Hr. unfold remove_family in Hr. cbv zeta in Hr.
  apply M_bind_ok in Hr as (kind & w1 & _ & Hr).
  destruct (negb _); [by injection Hr as <- <-|].
  apply M_bind_ok in Hr as (generations & w2 & _ & Hr).
  apply M_bind_ok in Hr as (rem & w3 & Hrem & Hr).
  assert (unprotected rem) as Hu.
  { clear Hr. eapply (fold_each_inv _ unprotected); [|exact Hu0|exact Hrem].
    intros b a w4 b' w4' _ Hb Hs. unfold remove_generation in Hs. cbv zeta in Hs.
    apply M_bind_ok in Hs as (k & w5 & _ & Hs). apply M_bind_ok in Hs as (m & w6 & _ & Hs).
    destruct (is_protected prot _) eqn:E; [rewrite orb_true_r in Hs; by injection Hs as <- <-|].
    destruct (_ || _); [by injection Hs as <- <-|].
    apply M_bind_ok in Hs as (? & w7 & _ & Hs). injection Hs as <- <-. by apply unprotected_snoc. }
  apply M_bind_ok in Hr as (marked & w4 & _ & Hr).
  destruct (is_protected prot _) eqn:E; [rewrite andb_false_r in Hr; by injection Hr as <- <-|].
  destruct (_ && _); [|by injection Hr as <- <-].
  apply M_bind_ok in Hr as (entries & w5 & _ & Hr). apply M_bind_ok in Hr as (? & w6 & _ & Hr).
  injection Hr as <- <-. by apply unprotected_snoc.
Qed.
End Reported.

(** ** Lemmas: run records read back *)

Lemma display_identity_ok s : value_ok (display_identity s).
Proof.
  apply value_ok_visible. unfold display_identity. rewrite !fmt_cons, fmt_nil, !all_bytes_app.
  assert (forall z, all_bytes visible_ascii (show_Z z) = true) as Hz.
  { intros z. unfold show_Z.
    assert (forall n, all_bytes visible_ascii (show_N n) = true) as Hn.
    { intros n. eapply all_bytes_impl; [exact digit_visible|]. apply show_N_digits. }
    destruct (z <? 0)%Z; [|done]. cbn [append all_bytes]. by rewrite Hn. }
  by rewrite !Hz.
Qed.

(** The values of a run record that its writer does not render itself. *)
Definition run_ok (r : RunRecord) : Prop :=
  value_ok (rr_app_id r) /\ value_ok (rr_instance_id r) /\ value_ok (rr_root r) /\
  (forall p, rr_parent_root r = Some p -> value_ok p) /\
  (forall a, rr_deployment r = Some a -> app_ok a) /\
  (forall p q, rr_checkout_paths r = Some (p, q) -> value_ok p /\ value_ok q) /\
  value_ok (join ";" (rr_extension_refs r)) /\ value_ok (join ";" (rr_extension_dirs r)).

Lemma deployment_entries_ok a : app_ok a -> Forall entry_ok (deployment_entries a).
Proof.
  intros [F _]. apply entries_ok; [repeat (constructor; [key_ok|]); constructor|].
  rewrite Forall_forall in F |- *. intros e He. apply F. revert He.
  unfold deployment_entries, app_entries. rewrite !elem_of_cons. tauto.
Qed.

Lemma run_entries_ok r s : run_ok r -> Forall entry_ok (run_entries r s).
Proof.
  intros (H1 & H2 & H3 & H4 & H5 & H6 & H7 & H8). unfold run_entries. rewrite !Forall_app.
  split_and!.
  - apply entries_ok; [repeat (constructor; [key_ok|]); constructor|].
    rewrite !Forall_cons, Forall_nil. split_and!; try done; apply value_ok_show_Z.
  - destruct (rr_parent_root r) as [p|]; [|constructor]. constructor; [|constructor].
    split; [key_ok|by apply H4].
  - destruct s as [s|]; [|constructor]. constructor; [|constructor]. split; [key_ok|]. apply display_identity_ok.
  - destruct (rr_deployment r) as [a|]; [by apply deployment_entries_ok, H5|].
    destruct (rr_checkout_paths r) as [[p q]|]; [|constructor]. destruct (H6 p q eq_refl).
    constructor; [split; [key_ok|done]|]. constructor; [split; [key_ok|done]|constructor].
  - destruct (bool_decide _); [constructor|]. constructor; [|constructor]. split; [key_ok|done].
  - destruct (bool_decide _); [constructor|]. constructor; [|constructor]. split; [key_ok|done].
Qed.

Lemma bm_get_inserts k (l m : values) :
  bm_get k (foldl (fun m e => bm_insert e.1 e.2 m) m l) =
  match last (omap (fun e => if String.eqb e.1 k then Some e.2 else None) l) with
  | Some v => Some v
  | None => bm_get k m
  end.
Proof.
  revert m. induction l as [|[k' v] l IH]; intros m; [done|]. cbn [foldl omap list_omap fst snd].
  rewrite IH. destruct (String.eqb_spec k' k) as [->|Hne].
  - rewrite last_cons. destruct (last _); [done|]. by rewrite bm_get_insert_eq.
  - by rewrite bm_get_insert_ne.
Qed.

(** What a run record says about the launcher and the deployment. *)
Lemma run_entries_get r s k v :
  k ∈ ["launcher_pid"; "launcher_start"] ->
  last (omap (fun e => if String.eqb e.1 k then Some e.2 else None) (run_entries r s)) = v ->
  v = if String.eqb k "launcher_pid" then Some (show_Z (rr_launcher_pid r)) else display_identity <$> s.
Proof.
  rewrite !elem_of_cons. intros Hk <-. destruct Hk as [->|[->|[]%not_elem_of_nil]];
    unfold run_entries, deployment_entries;
    destruct (rr_parent_root r), s, (rr_deployment r), (rr_checkout_paths r) as [[]|],
      (bool_decide (rr_extension_refs r = [])), (bool_decide (rr_extension_dirs r = [])); reflexivity.
Qed.

Lemma run_entries_deployment r s a :
  rr_deployment r = Some a ->
  Forall (fun e => last (omap (fun f => if String.eqb f.1 e.1 then Some f.2 else None) (run_entries r s)) = Some e.2)
    (("app_id", rr_app_id r) :: deployment_entries a) /\
  Forall (fun k => last (omap (fun f => if String.eqb f.1 k then Some f.2 else None) (run_entries r s)) = None)
    ["origin"; "runtime_origin"].
Proof.
  intros Ha. unfold run_entries. rewrite Ha. unfold deployment_entries.
  destruct (rr_parent_root r), s,
    (bool_decide (rr_extension_refs r = [])), (bool_decide (rr_extension_dirs r = []));
  (split; [repeat (apply Forall_cons_2; [reflexivity|]); apply Forall_nil_2|
           repeat (apply Forall_cons_2; [reflexivity|]); apply Forall_nil_2]).
Qed.

(** ** Properties *)

(** C17.  The cleanup of retired deployments removes nothing outside the
    directories the launcher manages: whatever is preserved by preparing the
    layout and by removals strictly below them is preserved by it. *)
Theorem cleanup_stays_below_managed `{FileOps W} (i : Installation) (P : W -> Prop) fuel w :
  keeps P (ensure_layout (W := W) i) ->
  (forall msg p, managed_below [apps i; runtimes i; chroots i] p = true ->
     keeps P (io_step (W := W) msg (remove_dir_all p)) /\ keeps P (io_step (W := W) msg (remove_file p))) ->
  P w -> P (cleanup_retired_deployments fuel i w).2.
Proof. intros H1 H2. by apply keeps_cleanup. Qed.

Lemma cleanup_stays_below_managed_witness :
  let doc := components "/home/u/letter.txt" in
  let w := mkTree (map components ["/"; "/data"; "/data/apps"; "/data/apps/org.a"; "/data/apps/org.a/c1"; "/run/x/runs"])
                  [(doc, "dear"); (components "/data/apps/org.a/c1/.ostree-commit", "")] in
  tree_file (cleanup_retired_deployments 5 example_installation w).2 doc = Some "dear".
Proof.
  intros doc w.
  apply (cleanup_stays_below_managed example_installation (fun t => tree_file t doc = Some "dear")).
  - intros t Ht. cbn. exact Ht.
  - intros msg p Hp.
    assert (~ components p `prefix_of` doc) as Hn.
    { intros Hd. unfold managed_below in Hp. cbn [existsb] in Hp. rewrite !orb_true_iff, !andb_true_iff in Hp.
      assert (forall r, path_starts_with p r = true -> components r `prefix_of` doc) as Hr.
      { intros r Hs. apply path_starts_with_true in Hs. by etrans. }
      destruct Hp as [[Hp _]|[[Hp _]|[[Hp _]|Hp]]]; [apply Hr in Hp; by vm_compute in Hp; inversion Hp..|done]. }
    split; intros t Ht; cbn.
    + unfold tree_file in *. cbn [files]. rewrite find_filter; [done|].
      intros f Hf%bool_decide_eq_true. by rewrite Hf, (bool_decide_false (components p `prefix_of` doc)).
    + unfold io_step; cbn [remove_file tree_file_ops]; case_bool_decide; cbn; [|done]. unfold tree_file in *. cbn [tree_del files].
      rewrite find_filter; [done|]. intros f Hf%bool_decide_eq_true. rewrite Hf, (bool_decide_false (doc = components p)); [done|].
      intros E. apply Hn. by rewrite <- E.
  - reflexivity.
Defined.

(** No directory the cleanup reports as removed is one that an installed
    application, an installed runtime or a running sandbox uses. *)
Theorem cleanup_spares_used `{FileOps W} (i : Installation) fuel (w : W) removed w' :
  cleanup_retired_deployments fuel i w = (Ok removed, w') ->
  exists prot w1, protected_directories i w = (Ok prot, w1) /\
    Forall (fun p => components p ∉ prot) removed.
Proof.
  intros Hr. unfold cleanup_retired_deployments in Hr.
  apply M_bind_ok in Hr as (prot & w1 & Hp & Hr). exists prot, w1. split; [done|].
  apply M_bind_ok in Hr as (deployments & w2 & _ & Hr).
  apply M_bind_ok in Hr as (rem & w3 & Hrem & Hr). apply remove_runtimes_unprotected in Hrem.
  apply M_bind_ok in Hr as (present & w4 & _ & Hr).
  destruct (negb present); [by injection Hr as <- <-|].
  apply M_bind_ok in Hr as (families & w5 & _ & Hr).
  eapply (fold_each_inv _ (unprotected prot)); [|exact Hrem|exact Hr].
  intros b a w6 b' w6' _ Hb Hs. by eapply remove_family_unprotected.
Qed.

Definition example_tree : TreeFs :=
  mkTree (map components ["/"; "/data"; "/data/apps"; "/data/apps/org.a"; "/data/apps/org.a/c1";
                          "/data/apps/org.a/c2"; "/run/x/runs"; "/data/refs/apps"; "/data/refs/runtimes"])
    [(components "/data/apps/org.a/c1/.ostree-commit", ""); (components "/data/apps/org.a/c2/.ostree-commit", "");
     (components "/run/x/runs/a.ini", fmt ["app_dir=apps/org.a/c2"; nl])].

Lemma cleanup_spares_used_witness :
  match cleanup_retired_deployments 5 example_installation example_tree with
  | (Ok removed, _) => removed = ["/data/apps/org.a/c1"] /\
      exists prot w1, protected_directories example_installation example_tree = (Ok prot, w1) /\
        Forall (fun p => components p ∉ prot) removed
  | _ => False
  end.
Proof.
  destruct (cleanup_retired_deployments 5 example_installation example_tree) as [[removed|e] w'] eqn:E.
  - split; [vm_compute in E; by injection E as <- _|].
    exact (cleanup_spares_used example_installation 5 example_tree removed w' E).
  - vm_compute in E. discriminate E.
Defined.

(** A run record that was written while its launcher ran says later that
    the launcher is active exactly when the process with its id is still the
    one that started then: a reused process id never keeps a sandbox alive. *)
Theorem launcher_identity_decides {W} (lookup : W -> Z -> result (option ProcessIdentity)) probe w p r s m :
  run_ok r -> (0 < rr_launcher_pid r < 2 ^ 31)%Z ->
  (i64_min <= start_seconds s <= i64_max)%Z -> (i64_min <= start_microseconds s <= i64_max)%Z ->
  parse_kv p (kv (run_entries r (Some s))) = Ok m ->
  run_record_launcher_active lookup probe w m =
    (current ← for_pid lookup w (rr_launcher_pid r); Ok (bool_decide (current = Some s))).
Proof.
  intros Hok Hpid H1 H2 Hm. rewrite parse_kv_entries in Hm by (by apply run_entries_ok). apply Ok_inj in Hm. subst m.
  unfold run_record_launcher_active.
  rewrite !bm_get_inserts.
  rewrite (run_entries_get r (Some s) "launcher_pid" _ ltac:(left) eq_refl).
  rewrite (run_entries_get r (Some s) "launcher_start" _ ltac:(right; left) eq_refl).
  cbn [String.eqb Ascii.eqb Bool.eqb fmap option_fmap option_map mbind option_bind].
  unfold parse_i32. rewrite parse_int_show by lia.
  rewrite (proj2 (Z.leb_gt _ _)) by lia. cbn [ok_or].
  rewrite identity_roundtrip by done. done.
Qed.

Definition example_run : RunRecord :=
  mkRun "org.a.App" "1-2-3" "/run/x/chroots/org.a.App/1-2-3" 4242 4243 None (Some example_app) None [] [].

Lemma example_run_ok : run_ok example_run.
Proof.
  assert (forall v, has LF v = false -> trim v = v -> value_ok v) as Hv by done.
  split; [by apply Hv; vm_compute|]. split; [by apply Hv; vm_compute|]. split; [by apply Hv; vm_compute|].
  split; [discriminate|]. split; [intros a [= <-]; exact example_app_ok|]. split; [discriminate|].
  by split; apply Hv; vm_compute.
Qed.

Lemma launcher_identity_decides_witness :
  let lookup (now : Z) (_ : Z) := Ok (Some (mkIdentity now 7)) in
  match parse_kv "r" (kv (run_entries example_run (Some (mkIdentity 1000 7)))) with
  | Ok m => run_record_launcher_active lookup (fun _ _ => KillOk) 1000%Z m = Ok true /\
            run_record_launcher_active lookup (fun _ _ => KillOk) 2000%Z m = Ok false
  | Err _ => False
  end.
Proof.
  intros lookup. destruct (parse_kv "r" _) as [m|e] eqn:E; [|vm_compute in E; discriminate E].
  assert (run_ok example_run) as Hok.
  { exact example_run_ok. }
  split; (etransitivity; [apply (launcher_identity_decides lookup (fun _ _ => KillOk) _ "r" example_run
    (mkIdentity 1000 7) m Hok); [vm_compute; split; reflexivity|vm_compute; split; discriminate|
    vm_compute; split; discriminate|exact E]|vm_compute; reflexivity]).
Defined.

(** The deployment a run record pins is read back from it unchanged, except
    for the origins, which a run record does not hold and which read as the
    default remote. *)
Theorem pinned_deployment_roundtrip `{FileOps W} i (w : W) p r s a m :
  run_ok r -> rr_deployment r = Some a -> rr_app_id r = app_id a ->
  parse_kv p (kv (run_entries r s)) = Ok m ->
  app_from_run_record i m w =
    Ok (mkApp DEFAULT_REMOTE DEFAULT_REMOTE (app_id a) (app_ref a) (app_commit a) (app_installed_size a)
          (app_dir a) (arch a) (branch a) (app_runtime_ref a) (app_runtime_commit a) (app_runtime_dir a)
          (command a)).
Proof.
  intros Hok Ha Hid Hm. rewrite parse_kv_entries in Hm by (by apply run_entries_ok). apply Ok_inj in Hm. subst m.
  destruct (run_entries_deployment r s a Ha) as [F N].
  assert (forall k v, (k, v) ∈ ("app_id", rr_app_id r) :: deployment_entries a ->
    bm_get k (foldl (fun m e => bm_insert e.1 e.2 m) [] (run_entries r s)) = Some v) as Hg.
  { intros k v Hin. rewrite Forall_forall in F. specialize (F _ Hin). cbn [fst snd] in F.
    by rewrite bm_get_inserts, F. }
  assert (forall k, k ∈ ["origin"; "runtime_origin"] ->
    bm_get k (foldl (fun m e => bm_insert e.1 e.2 m) [] (run_entries r s)) = None) as Hn.
  { intros k Hin. rewrite Forall_forall in N. specialize (N _ Hin). by rewrite bm_get_inserts, N. }
  unfold app_from_run_record, app_from_values, required.
  rewrite (Hg "app_commit" (app_commit a)), (Hn "origin"), (Hn "runtime_origin"),
    (Hg "app_id" (rr_app_id r)), (Hg "app_ref" (app_ref a)),
    (Hg "installed_size" (show_Z (app_installed_size a))), (Hg "app_dir" (app_dir a)),
    (Hg "arch" (arch a)), (Hg "branch" (branch a)), (Hg "runtime_ref" (app_runtime_ref a)),
    (Hg "runtime_commit" (app_runtime_commit a)), (Hg "runtime_dir" (app_runtime_dir a)),
    (Hg "command" (command a)) by find_elem.
  cbn [ok_or mbind result_bind default].
  destruct Hok as (_ & _ & _ & _ & Hok & _). destruct (Hok a Ha) as [_ Hs].
  unfold parse_u64. rewrite parse_int_show by done. by rewrite Hid.
Qed.

Lemma pinned_deployment_roundtrip_witness :
  match parse_kv "r" (kv (run_entries example_run None)) with
  | Ok m => command <$> app_from_run_record example_installation m example_tree = Ok "run me --now"
  | Err _ => False
  end.
Proof.
  destruct (parse_kv "r" _) as [m|e] eqn:E; [|vm_compute in E; discriminate E].
  rewrite (pinned_deployment_roundtrip example_installation example_tree "r" example_run None example_app m).
  - reflexivity.
  - exact example_run_ok.
  - reflexivity.
  - reflexivity.
  - exact E.
Defined.
