(* ===== verification/SandboxRecovery.v ===== *)
(** * SandboxRecovery: cleaning up after launchers that died
    (src/src/sandbox/stale_sandbox_recovery.rs)

    The roots of all sandboxes come from the run records and the mount table;
    those in use, directly or as the parent or mount source of one in use, are
    left alone; the others are torn down, a sandbox before those it depends on.
    Paths are their component lists (see RustPath). *)
From Stdlib Require Import Ascii String NArith ZArith Lia Sorting.Sorted Permutation.
From stdpp Require Import base list strings sets.
From S2P Require Import Prelude Effects Collections RustStr RustNum RustPath HostFs Processes InstallationPaths Records RunRecords.

(** ** The mount table *)

Record MountInfo := mkMount { mi_source : pathbuf; mi_mountpoint : pathbuf; mi_options : string }.

(** [trim_end_matches(')')] *)
Fixpoint drop_parens (l : list ascii) : list ascii :=
  match l with a :: r => if Ascii.eqb a ")" then drop_parens r else l | [] => [] end.
Definition trim_end_parens (s : string) : string :=
  string_of_list_ascii (rev (drop_parens (rev (list_ascii_of_string s)))).

(** [split_once] with a string separator. *)
Definition split_once_str (sep s : string) : option (string * string) :=
  i ← find_sub sep s;
  Some (String.substring 0 i s, String.substring (i + len sep) (len s - (i + len sep)) s).

Definition mount_of_line (line : string) : option MountInfo :=
  '(source, rest) ← split_once_str " on " line;
  '(mountpoint, options) ← split_once_str " (" rest;
  Some (mkMount (components source) (components mountpoint) (trim_end_parens options)).

Definition parse_mount_table (table : string) : list MountInfo := omap mount_of_line (lines table).

Definition mount_is_read_only (mounts : list MountInfo) (mountpoint : pathbuf) : bool :=
  match List.find (fun m => bool_decide (mi_mountpoint m = mountpoint)) mounts with
  | Some m => existsb (fun o => String.eqb o "read-only") (map trim (split "," (mi_options m)))
  | None => false
  end.

(** ** Orders *)

(** The order of [max_by] in [topological_path_order] and of the sort by depth:
    component count, then the paths. *)
Definition depth_key (p : pathbuf) : nat * pathbuf := (length p, p).

(** [Iterator::max_by]: the last of the greatest. *)
Fixpoint max_from (best : pathbuf) (l : list pathbuf) : pathbuf :=
  match l with
  | [] => best
  | p :: r => max_from (match cmp (depth_key best) (depth_key p) with Gt => best | _ => p end) r
  end.
Definition max_path (l : list pathbuf) : option pathbuf :=
  match l with [] => None | p :: r => Some (max_from p r) end.

Definition edge : Type := pathbuf * pathbuf.

(** A path is ready when nothing that must go before it remains. *)
Definition is_ready (dependencies : list edge) (remaining : list pathbuf) (candidate : pathbuf) : bool :=
  negb (existsb (fun e => bool_decide (e.2 = candidate) && bs_contains e.1 remaining) dependencies).

Definition next_path (dependencies : list edge) (remaining : list pathbuf) : option pathbuf :=
  match max_path (List.filter (is_ready dependencies remaining) remaining) with
  | Some p => Some p
  | None => last remaining
  end.

Definition bs_remove (p : pathbuf) (s : list pathbuf) : list pathbuf :=
  List.filter (fun q => negb (bool_decide (q = p))) s.

(** The [while] loop takes one path in each round. *)
Fixpoint topo_loop (fuel : nat) (dependencies : list edge) (remaining : list pathbuf) : list pathbuf :=
  match fuel with
  | 0 => []
  | S fuel =>
      match next_path dependencies remaining with
      | None => []
      | Some ready => ready :: topo_loop fuel dependencies (bs_remove ready remaining)
      end
  end.
Definition topological_path_order (remaining : list pathbuf) (dependencies : list edge) : list pathbuf :=
  topo_loop (length remaining) dependencies remaining.

Definition order_mounts_for_recovery (mounts : list MountInfo) : list MountInfo :=
  let paths := bs_of_list (map mi_mountpoint mounts) in
  let dependencies := bs_of_list (concat (map (fun m =>
    omap (fun parent =>
      if negb (bool_decide (mi_mountpoint m = mi_mountpoint parent))
         && (pb_starts_with (mi_mountpoint m) (mi_mountpoint parent)
             || pb_starts_with (mi_source m) (mi_mountpoint parent))
      then Some (mi_mountpoint m, mi_mountpoint parent) else None) mounts) mounts)) in
  omap (fun p => last (List.filter (fun m => bool_decide (mi_mountpoint m = p)) mounts))
    (topological_path_order paths dependencies).

(** ** Sandbox roots *)

Definition record_root (m : values) : option pathbuf := components <$> bm_get "root" m.
Definition record_parent (m : values) : option pathbuf := components <$> bm_get "parent_root" m.

Section Roots.
(** [Path::is_file] on the [.flatpak-info] file below a path. *)
Context (has_info : pathbuf -> bool).

Fixpoint root_search (fuel : nat) (chroots p : pathbuf) : option pathbuf :=
  match fuel with
  | 0 => None
  | S fuel =>
      match pb_parent p with
      | None => None
      | Some q =>
          if bool_decide (q = chroots) then None
          else if pb_starts_with q chroots && has_info q then Some q
          else root_search fuel chroots q
      end
  end.
Definition chroot_root_for_mount (chroots mountpoint : pathbuf) : option pathbuf :=
  root_search (length mountpoint) chroots mountpoint.

Definition sandbox_roots (chroots : pathbuf) (records : list values) (mounts : list MountInfo) : list pathbuf :=
  bs_extend (bs_of_list (omap record_root records))
    (omap (fun m => chroot_root_for_mount chroots (mi_mountpoint m)) mounts).

(** What keeps another root alive: a sandbox its parent, a mount its source. *)
Definition record_edge (m : values) : option edge :=
  root ← record_root m; parent ← record_parent m; Some (root, parent).
Definition mount_edge (chroots : pathbuf) (m : MountInfo) : option edge :=
  target ← chroot_root_for_mount chroots (mi_mountpoint m);
  source ← chroot_root_for_mount chroots (mi_source m);
  Some (target, source).

(** One round of the [loop]: the set, and whether it grew. *)
Definition closure_step (st : list pathbuf * bool) (e : edge) : list pathbuf * bool :=
  if bs_contains e.1 st.1 then (bs_insert e.2 st.1, st.2 || negb (bs_contains e.2 st.1)) else st.
Definition closure_round (edges : list edge) (active : list pathbuf) : list pathbuf * bool :=
  foldl closure_step (active, false) edges.

Fixpoint closure_loop (fuel : nat) (edges : list edge) (active : list pathbuf) : list pathbuf :=
  match fuel with
  | 0 => active
  | S fuel =>
      let (active, changed) := closure_round edges active in
      if changed then closure_loop fuel edges active else active
  end.
(** Every round but the last adds the second end of an edge. *)
Definition close_under (edges : list edge) (active : list pathbuf) : list pathbuf :=
  closure_loop (S (length edges)) edges active.

Definition active_roots_from_records (launcher_active : values -> result bool)
    (records : list values) (processes : SandboxProcessSnapshot) : result (list pathbuf) :=
  active ← fold_result (fun active m =>
      match record_root m with
      | None => Ok active
      | Some root =>
          alive ← (if references_root processes root then Ok true else launcher_active m);
          Ok (if alive : bool then bs_insert root active else active)
      end) records [];
  Ok (close_under (omap record_edge records) active).

Definition active_sandbox_roots (launcher_active : values -> result bool) (chroots : pathbuf)
    (records : list values) (mounts : list MountInfo) (roots : list pathbuf)
    (processes : SandboxProcessSnapshot) : result (list pathbuf) :=
  active ← active_roots_from_records launcher_active records processes;
  let active := bs_extend active (List.filter (references_root processes) roots) in
  Ok (close_under (omap record_edge records ++ omap (mount_edge chroots) mounts) active).

Definition order_sandbox_roots_for_recovery (chroots : pathbuf) (roots : list pathbuf)
    (records : list values) (mounts : list MountInfo) : list pathbuf :=
  let both e := bs_contains e.1 roots && bs_contains e.2 roots in
  let dependencies := bs_of_list (
    List.filter both (omap record_edge records) ++
    List.filter (fun e => negb (bool_decide (e.1 = e.2)) && both e) (omap (mount_edge chroots) mounts)) in
  topological_path_order roots dependencies.
End Roots.

(** ** Unmounting *)

(** [unmount_mountpoint_with]: a busy mount is forced only when allowed. *)
Definition unmount_mountpoint_with {W} (mountpoint : pathbuf) (allow_force : bool)
    (mounted : pathbuf -> M W bool) (unmount : pathbuf -> bool -> M W unit) : M W unit :=
  present ← mounted mountpoint;
  if negb present then mret tt
  else
    first ← catch (unmount mountpoint false);
    match first with
    | Ok _ => mret tt
    | Err normal_error =>
        present ← mounted mountpoint;
        if negb present then mret tt
        else
          present ← (if allow_force then mounted mountpoint else mret false);
          if present : bool then unmount mountpoint true
          else
            present ← mounted mountpoint;
            if negb present then mret tt else fail normal_error
    end.

(** The recovery's view of the system beyond files and processes: the mount
    table, and the kernel operations of its helper programs. *)
Class RecoveryWorld (W : Type) `{FileOps W, ProcessWorld W} := {
  mount_command : M W string;
  launcher_lookup : W -> Z -> result (option ProcessIdentity);
  launcher_probe : W -> Z -> kill_probe;
  (** [fs::metadata]: the device and inode numbers. *)
  metadata_identity : W -> pathbuf -> io_result (N * N);
  unmount_command : pathbuf -> N * N -> list component -> bool -> M W unit;
  document_unmount_command : pathbuf -> N * N -> pathbuf -> bool -> M W unit;
  to_path : pathbuf -> path;
}.

Section Recovery.
Context {W : Type} `{RecoveryWorld W}.

Definition has_info (w : W) (p : pathbuf) : bool := is_file w (join_path (to_path p) ".flatpak-info").

Definition mount_infos : M W (list MountInfo) := parse_mount_table <$> mount_command.
Definition is_mounted (target : pathbuf) : M W bool :=
  (fun ms => existsb (fun m => bool_decide (mi_mountpoint m = target)) ms) <$> mount_infos.

Definition ensure_mountpoint_free (target : pathbuf) : M W unit :=
  mounted ← is_mounted target;
  if mounted : bool
  then fail [fmt ["sandbox mountpoint is already mounted; clean it first: "; to_path target]]
  else mret tt.

Definition mount_points_under (root : pathbuf) : M W (list pathbuf) :=
  (fun ms => rev (sort_by (on depth_key) (List.filter (fun p => pb_starts_with p root) (map mi_mountpoint ms))))
    <$> mount_infos.

(** [Path::ancestors]: the path itself first. *)
Fixpoint find_ancestor (fuel : nat) (f : pathbuf -> bool) (p : pathbuf) : option pathbuf :=
  match fuel with
  | 0 => None
  | S fuel =>
      if f p then Some p
      else match pb_parent p with Some q => find_ancestor fuel f q | None => None end
  end.

Definition sandbox_mount_target (w : W) (mountpoint : pathbuf)
  : result (pathbuf * list component * (N * N)) :=
  root ← ok_or "mountpoint is not below a freebsd-flatpak sandbox root"
           (find_ancestor (S (length mountpoint)) (has_info w) mountpoint);
  let relative := drop (length root) mountpoint in
  if bool_decide (relative = []) then bail "refusing to unmount sandbox root"
  else
    identity ← io_context (fmt ["inspect sandbox root "; to_path root]) (metadata_identity w root);
    Ok (root, relative, identity).

Definition unmount_mountpoint (mountpoint : pathbuf) (allow_force : bool) : M W unit :=
  '(root, relative, identity) ← getr (fun w => sandbox_mount_target w mountpoint);
  unmount_mountpoint_with mountpoint allow_force is_mounted
    (fun p force =>
       if negb (bool_decide (p = mountpoint)) then fail ["secure unmount target changed during retry"]
       else unmount_command root identity relative force).

(** [unmount_mountpoints]: every mount is tried, the failures are reported
    together. *)
Definition unmount_mountpoints (mountpoints : list pathbuf) : M W unit :=
  errors ← fold_each (fun errors p =>
      read_only ← catch ((fun ms => mount_is_read_only ms p) <$> mount_infos);
      r ← catch (unmount_mountpoint p (match read_only with Ok b => b | Err _ => false end));
      mret (match r with Ok _ => errors | Err e => errors ++ [chain e] end)) mountpoints [];
  if bool_decide (errors = []) then mret tt
  else fail [fmt ["stale mount recovery failed:"; nl; join nl errors]].

Definition unmount_under (root : pathbuf) : M W unit :=
  ms ← mount_infos;
  unmount_mountpoints (map mi_mountpoint
    (order_mounts_for_recovery (List.filter (fun m => pb_starts_with (mi_mountpoint m) root) ms))).

Definition remove_instance_root (root : pathbuf) : M W unit := fun w =>
  let (r, w') := remove_dir_all (to_path root) w in
  match r with
  | inl _ => (Ok tt, w')
  | inr e => if bool_decide (ioe_kind e = NotFound) then (Ok tt, w')
             else (Err [fmt ["remove sandbox root "; to_path root]; ioe_message e], w')
  end.

(** ** Document mounts whose sandbox is gone *)

Definition is_orphaned_regular_document_mount (w : W) (chroots mountpoint : pathbuf) : bool :=
  if pb_starts_with mountpoint chroots then
    match drop (length chroots) mountpoint with
    | [Normal a; Normal instance; Normal run; Normal user; Normal _; Normal doc; Normal _; Normal _] =>
        String.eqb run "run" && String.eqb user "user" && String.eqb doc "doc"
        && negb (path_exists w (join_path (join_path (to_path chroots) a) instance))
    | _ => false
    end
  else false.

Definition recover_orphaned_document_mounts (i : Installation) : M W unit :=
  let chroots := components (chroots i) in
  identity ← getr (fun w => io_context (fmt ["read metadata for "; to_path chroots]) (metadata_identity w chroots));
  mountpoints ← mount_points_under chroots;
  for_each (fun p =>
    orphaned ← gets (fun w => is_orphaned_regular_document_mount w chroots p);
    if negb orphaned then mret tt
    else
      r ← catch (document_unmount_command chroots identity p false);
      match r with
      | Ok _ => mret tt
      | Err _ =>
          mounted ← is_mounted p;
          if negb mounted then mret tt else document_unmount_command chroots identity p true
      end) mountpoints.

(** ** The recovery *)

Definition launcher_alive (w : W) : values -> result bool :=
  run_record_launcher_active launcher_lookup launcher_probe w.

(** The records, mounts, roots, processes and active roots at one moment. *)
Definition take_stock (i : Installation) : M W (list values * list MountInfo * list pathbuf * list pathbuf) :=
  records ← read_sandbox_ownership_records i;
  mounts ← mount_infos;
  roots ← gets (fun w => sandbox_roots (has_info w) (components (chroots i)) records mounts);
  processes ← capture;
  active ← getr (fun w => active_sandbox_roots (has_info w) (launcher_alive w) (components (chroots i))
                            records mounts roots processes);
  mret (records, mounts, roots, active).

(** The teardown of one root that is not active. *)
Definition tear_down (root : pathbuf) (records : list values) : M W unit :=
  _ ← terminate_chroot_processes root;
  _ ← unmount_under root;
  rest ← mount_points_under root;
  if bool_decide (rest = []) then
    _ ← remove_instance_root root;
    for_each (fun m =>
      if bool_decide (record_root m = Some root)
      then match bm_get "_path" m with Some p => remove_run_record p | None => mret tt end
      else mret tt) records
  else mret tt.

Definition recover_root (i : Installation) (root : pathbuf) : M W unit :=
  stock ← take_stock i;
  let '(records, mounts, roots, active) := stock in
  if bs_contains root active then mret tt else tear_down root records.

Definition recover_stale_mounts (i : Installation) : M W unit :=
  _ ← ensure_layout i;
  _ ← recover_orphaned_document_mounts i;
  stock ← take_stock i;
  let '(records, mounts, roots, active) := stock in
  let stale := List.filter (fun r => negb (bs_contains r active)) roots in
  order ← gets (fun w => order_sandbox_roots_for_recovery (has_info w) (components (chroots i)) stale records mounts);
  _ ← for_each (recover_root i) order;
  recover_orphaned_document_mounts i.
End Recovery.

(** ** Lemmas: choosing the next path *)

Lemma max_from_elem best l : max_from best l = best \/ max_from best l ∈ l.
Proof.
  revert best. induction l as [|p l IH]; intros best; cbn [max_from]; [by left|].
  destruct (IH (match cmp (depth_key best) (depth_key p) with Gt => best | _ => p end)) as [->|Hin].
  - destruct (cmp _ _); [right; left..|by left].
  - right. by right.
Qed.

Lemma max_path_elem l p : max_path l = Some p -> p ∈ l.
Proof.
  destruct l as [|q l]; [done|]. intros [= <-]. destruct (max_from_elem q l) as [->|Hin]; [left|by right].
Qed.

Lemma max_path_None l : max_path l = None <-> l = [].
Proof. by destruct l. Qed.

Lemma next_path_elem deps l p : next_path deps l = Some p -> p ∈ l.
Proof.
  unfold next_path. destruct (max_path _) as [q|] eqn:E.
  - intros [= <-]. apply max_path_elem, list_elem_of_In, filter_In in E as [E _]. by apply list_elem_of_In.
  - intros Hl. by apply last_Some_elem_of in Hl.
Qed.

Lemma next_path_None deps l : next_path deps l = None -> l = [].
Proof. unfold next_path. destruct (max_path _); [done|]. by intros ?%last_None. Qed.

Lemma elem_of_bs_remove p q l : q ∈ bs_remove p l <-> q ∈ l /\ q <> p.
Proof.
  unfold bs_remove. rewrite list_elem_of_In, filter_In, <- list_elem_of_In, negb_true_iff.
  by rewrite bool_decide_eq_false.
Qed.

Lemma bs_remove_perm p l : NoDup l -> p ∈ l -> l ≡ₚ p :: bs_remove p l.
Proof.
  intros N Hp. apply NoDup_Permutation; [done| |].
  - constructor; [by rewrite elem_of_bs_remove; intros []|]. by apply NoDup_ListNoDup, List.NoDup_filter, NoDup_ListNoDup.
  - intros q. rewrite elem_of_cons, elem_of_bs_remove. destruct (decide (q = p)); naive_solver.
Qed.

(** ** Lemmas: the topological order *)

Definition precedes (b a : pathbuf) (l : list pathbuf) : Prop :=
  exists l1 l2 l3, l = l1 ++ b :: l2 ++ a :: l3.

(** The dependencies between the paths of [l] have no cycle: they increase some
    rank. *)
Definition acyclic (dependencies : list edge) (l : list pathbuf) : Prop :=
  exists rank : pathbuf -> nat, forall e, e ∈ dependencies -> e.1 ∈ l -> e.2 ∈ l -> rank e.1 < rank e.2.

Lemma topo_loop_perm fuel deps l : NoDup l -> length l <= fuel -> topo_loop fuel deps l ≡ₚ l.
Proof.
  revert l. induction fuel as [|fuel IH]; intros l N Hl; cbn [topo_loop].
  - destruct l; [done|cbn in Hl; lia].
  - destruct (next_path deps l) as [p|] eqn:E; [|apply next_path_None in E as ->; done].
    apply next_path_elem in E. pose proof (bs_remove_perm p l N E) as Hp.
    rewrite IH; [by symmetry| |].
    + apply NoDup_ListNoDup, List.NoDup_filter, NoDup_ListNoDup, N.
    + apply Permutation_length in Hp. cbn in Hp. lia.
Qed.

Lemma acyclic_ready deps l : acyclic deps l -> l <> [] -> exists p, p ∈ l /\ is_ready deps l p = true.
Proof.
  intros [rank Hr] Hl.
  assert (forall n, (exists p, p ∈ l /\ rank p <= n) -> exists p, p ∈ l /\ forall q, q ∈ l -> rank p <= rank q) as Hmin.
  { induction n as [|n IH]; intros (p & Hp & Hn).
    - exists p. split; [done|]. intros. lia.
    - destruct (existsb (fun q => rank q <=? n)%nat l) eqn:E.
      + apply IH. apply existsb_exists in E as (q & Hq & Hle). apply Nat.leb_le in Hle.
        exists q. split; [by apply list_elem_of_In|done].
      + exists p. split; [done|]. intros q Hq. apply not_true_iff_false in E.
        destruct (Nat.leb_spec (rank q) n); [|lia]. destruct E. apply existsb_exists.
        exists q. split; [by apply list_elem_of_In|by apply Nat.leb_le]. }
  destruct l as [|x l]; [done|].
  destruct (Hmin (rank x)) as (p & Hp & Hle); [exists x; split; [left|lia]|].
  exists p. split; [done|]. unfold is_ready. apply negb_true_iff, not_true_iff_false. intros He.
  apply existsb_exists in He as (e & He & [E1 E2]%andb_true_iff).
  apply bool_decide_eq_true in E1. apply bs_contains_true in E2. apply list_elem_of_In in He.
  rewrite <- E1 in Hp. specialize (Hr e He E2 Hp). specialize (Hle _ E2). rewrite E1 in Hr. lia.
Qed.

Lemma acyclic_remove deps l p : acyclic deps l -> acyclic deps (bs_remove p l).
Proof.
  intros [rank Hr]. exists rank. intros e He [H1 _]%elem_of_bs_remove [H2 _]%elem_of_bs_remove. auto.
Qed.

Lemma topo_loop_order fuel deps l b a :
  NoDup l -> length l <= fuel -> acyclic deps l ->
  (b, a) ∈ deps -> b ∈ l -> a ∈ l -> precedes b a (topo_loop fuel deps l).
Proof.
  revert l. induction fuel as [|fuel IH]; intros l N Hl Hac Hd Hb Ha.
  { destruct l; [by apply not_elem_of_nil in Hb|cbn in Hl; lia]. }
  assert (a <> b) as Hab.
  { destruct Hac as [rank Hr]. intros ->. specialize (Hr _ Hd Hb Ha). cbn in Hr. lia. }
  cbn [topo_loop]. unfold next_path at 1.
  destruct (max_path _) as [r|] eqn:E.
  2: { exfalso. apply max_path_None in E. destruct (acyclic_ready deps l Hac) as (p & Hp & Hpr).
       { intros ->. by apply not_elem_of_nil in Hb. }
       assert (p ∈ List.filter (is_ready deps l) l) as Hin.
       { by apply list_elem_of_In, filter_In; split; [apply list_elem_of_In|]. }
       rewrite E in Hin. by apply not_elem_of_nil in Hin. }
  apply max_path_elem, list_elem_of_In, filter_In in E as [Hr Hready]. apply list_elem_of_In in Hr.
  assert (r <> a) as Hra.
  { intros ->. unfold is_ready in Hready. apply negb_true_iff, not_true_iff_false in Hready.
    apply Hready, existsb_exists. exists (b, a). split; [by apply list_elem_of_In|].
    apply andb_true_iff. split; [by apply bool_decide_eq_true|by apply bs_contains_true]. }
  pose proof (bs_remove_perm r l N Hr) as Hp.
  assert (NoDup (bs_remove r l)) as N' by apply NoDup_ListNoDup, List.NoDup_filter, NoDup_ListNoDup, N.
  assert (length (bs_remove r l) <= fuel) as Hl'.
  { apply Permutation_length in Hp. cbn in Hp. lia. }
  destruct (decide (r = b)) as [->|Hrb].
  - assert (a ∈ topo_loop fuel deps (bs_remove b l)) as Hin.
    { rewrite topo_loop_perm by done. by apply elem_of_bs_remove. }
    apply list_elem_of_split in Hin as (l2 & l3 & ->). by exists [], l2, l3.
  - destruct (IH (bs_remove r l)) as (l1 & l2 & l3 & ->); [done|done|by apply acyclic_remove|done|..].
    + by apply elem_of_bs_remove.
    + by apply elem_of_bs_remove.
    + by exists (r :: l1), l2, l3.
Qed.

(** ** Lemmas: the roots kept alive *)

(** What the ends of the edges reach from a set. *)
Inductive Reach (edges : list edge) (seed : pathbuf -> Prop) : pathbuf -> Prop :=
| reach_seed r : seed r -> Reach edges seed r
| reach_edge e : e ∈ edges -> Reach edges seed e.1 -> Reach edges seed e.2.

Lemma closure_step_elem st e r :
  r ∈ (closure_step st e).1 <-> r ∈ st.1 \/ r = e.2 /\ e.1 ∈ st.1.
Proof.
  unfold closure_step. destruct (bs_contains e.1 st.1) eqn:E; cbn [fst].
  - apply bs_contains_true in E. rewrite elem_of_bs_insert. naive_solver.
  - apply not_true_iff_false in E. rewrite bs_contains_true in E. naive_solver.
Qed.

Lemma closure_fold_grows l st r : r ∈ st.1 -> r ∈ (foldl closure_step st l).1.
Proof.
  revert st. induction l as [|e l IH]; intros st Hr; cbn [foldl]; [done|].
  apply IH, closure_step_elem. by left.
Qed.

Lemma closure_fold_sound edges seed l st :
  (forall e, e ∈ l -> e ∈ edges) -> (forall r, r ∈ st.1 -> Reach edges seed r) ->
  forall r, r ∈ (foldl closure_step st l).1 -> Reach edges seed r.
Proof.
  revert st. induction l as [|e l IH]; intros st Hl Hs; cbn [foldl]; [done|].
  apply IH; [intros; apply Hl; by right|]. intros r [Hr|[-> Hr]]%closure_step_elem; [by apply Hs|].
  apply reach_edge; [apply Hl; left|by apply Hs].
Qed.

(** The flag of a round: once set it stays; if it stays unset the round changed
    nothing and the set is closed. *)
Lemma closure_flag_stays l st : st.2 = true -> (foldl closure_step st l).2 = true.
Proof.
  revert st. induction l as [|e l IH]; intros st Hs; cbn [foldl]; [done|]. apply IH.
  unfold closure_step. destruct (bs_contains e.1 st.1); cbn; [by rewrite Hs|done].
Qed.

Lemma closure_unchanged l st :
  (foldl closure_step st l).2 = false ->
  (forall r, r ∈ (foldl closure_step st l).1 <-> r ∈ st.1) /\
  forall e, e ∈ l -> e.1 ∈ st.1 -> e.2 ∈ st.1.
Proof.
  revert st. induction l as [|e l IH]; intros st Hf; cbn [foldl] in *.
  - split; [done|]. intros e He. by apply not_elem_of_nil in He.
  - destruct (IH _ Hf) as [IH1 IH2].
    assert ((closure_step st e).2 = false) as Hs.
    { apply not_true_iff_false. intros Ht. apply closure_flag_stays with (l := l) in Ht. congruence. }
    assert (e.1 ∈ st.1 -> e.2 ∈ st.1) as Hin.
    { intros H1%bs_contains_true. unfold closure_step in Hs. rewrite H1 in Hs. cbn in Hs.
      apply orb_false_iff in Hs as [_ Hs]. apply negb_false_iff in Hs. by apply bs_contains_true. }
    assert (forall r, r ∈ (closure_step st e).1 <-> r ∈ st.1) as Hst.
    { intros r. rewrite closure_step_elem. naive_solver. }
    split.
    + intros r. rewrite IH1. apply Hst.
    + intros e' [->|He]%elem_of_cons; [done|]. intros H1. apply Hst, IH2; [done|by apply Hst].
Qed.

(** The edges whose second end is not in the set yet: a round that changes the
    set has fewer of them afterwards. *)
Definition open_edges (edges : list edge) (active : list pathbuf) : list edge :=
  List.filter (fun e => negb (bs_contains e.2 active)) edges.

Lemma open_edges_mono (edges : list edge) a b :
  (forall r, r ∈ a -> r ∈ b) -> length (open_edges edges b) <= length (open_edges edges a).
Proof.
  intros Hab. unfold open_edges. induction edges as [|e l IH]; cbn [List.filter]; [done|].
  destruct (bs_contains e.2 a) eqn:Ea.
  - apply bs_contains_true, Hab, bs_contains_true in Ea. by rewrite Ea.
  - cbn [negb]. destruct (bs_contains e.2 b); cbn; lia.
Qed.

Lemma open_edges_less (edges : list edge) a b e :
  (forall r, r ∈ a -> r ∈ b) -> e ∈ edges -> e.2 ∉ a -> e.2 ∈ b ->
  length (open_edges edges b) < length (open_edges edges a).
Proof.
  intros Hab He Ha Hb. apply list_elem_of_split in He as (l1 & l2 & ->).
  unfold open_edges. rewrite !List.filter_app, !length_app. cbn [List.filter].
  rewrite <- bs_contains_true in Ha, Hb. apply not_true_iff_false in Ha. rewrite Ha, Hb. cbn [negb length].
  pose proof (open_edges_mono l1 a b Hab). pose proof (open_edges_mono l2 a b Hab).
  unfold open_edges, edge in *. lia.
Qed.

Lemma closure_round_less edges active :
  (closure_round edges active).2 = true ->
  length (open_edges edges (closure_round edges active).1) < length (open_edges edges active).
Proof.
  unfold closure_round. intros Hc.
  assert (forall l st, (foldl closure_step st l).2 = true -> st.2 = true \/
    exists e, e ∈ l /\ e.2 ∉ st.1 /\ e.2 ∈ (foldl closure_step st l).1) as Hnew.
  { induction l as [|e l IH]; intros st Hs; cbn [foldl] in *; [by left|].
    destruct (IH _ Hs) as [Hs1|(e' & He' & Hn & Hin)].
    - unfold closure_step in Hs1. destruct (bs_contains e.1 st.1) eqn:E1; [|by left].
      cbn [snd] in Hs1. apply orb_true_iff in Hs1 as [Hs1|Hs1]; [by left|]. right. exists e.
      split; [left|]. rewrite <- bs_contains_true. apply negb_true_iff in Hs1. split; [congruence|].
      apply closure_fold_grows, closure_step_elem. right. split; [done|by apply bs_contains_true].
    - right. exists e'. split; [by right|]. split; [|done]. intros Hn'. apply Hn, closure_step_elem. by left. }
  destruct (Hnew _ _ Hc) as [?|(e & He & Hn & Hin)]; [done|].
  apply (open_edges_less _ _ _ e); [|done..]. intros r Hr. by apply closure_fold_grows.
Qed.

Lemma closure_loop_spec fuel edges active :
  length (open_edges edges active) < fuel ->
  forall r, r ∈ closure_loop fuel edges active <-> Reach edges (fun q => q ∈ active) r.
Proof.
  revert active. induction fuel as [|fuel IH]; intros active Hf r; [lia|]. cbn [closure_loop].
  destruct (closure_round edges active) as [next changed] eqn:E.
  assert (next = (closure_round edges active).1) as En by (by rewrite E).
  destruct changed.
  - rewrite IH.
    + split.
      * induction 1 as [q Hq|e He _ IHr]; [|by apply reach_edge].
        subst next. revert q Hq. apply closure_fold_sound; [done|]. intros q' Hq'. by apply reach_seed.
      * induction 1 as [q Hq|e He _ IHr]; [|by apply reach_edge].
        apply reach_seed. subst next. by apply closure_fold_grows.
    + subst next. pose proof (closure_round_less edges active) as Hl. rewrite E in Hl. specialize (Hl eq_refl).
      cbn [fst]. cbn [fst] in Hl. lia.
  - destruct (closure_unchanged edges (active, false)) as [H1 H2].
    { change ((closure_round edges active).2 = false). by rewrite E. }
    subst next. fold (closure_round edges active) in H1. rewrite E in H1. cbn [fst] in H1, H2. rewrite E. cbn [fst].
    rewrite H1. split; [intros Hr; by apply reach_seed|]. induction 1 as [q Hq|e He _ IHr]; [done|by apply H2].
Qed.

Lemma close_under_spec edges active r :
  r ∈ close_under edges active <-> Reach edges (fun q => q ∈ active) r.
Proof.
  apply closure_loop_spec. unfold open_edges.
  assert (forall l : list edge, length (List.filter (fun e => negb (bs_contains e.2 active)) l) <= length l) as Hle.
  { induction l as [|e l IH]; cbn [List.filter]; [done|]. destruct (negb _); cbn; lia. }
  specialize (Hle edges). unfold edge in *. lia.
Qed.

Lemma reach_mono edges edges' (s s' : pathbuf -> Prop) r :
  (forall e, e ∈ edges -> e ∈ edges') -> (forall q, s q -> Reach edges' s' q) ->
  Reach edges s r -> Reach edges' s' r.
Proof. intros He Hs. induction 1 as [q Hq|e Hin _ IH]; [by apply Hs|apply reach_edge; auto]. Qed.

(** A root in use by itself: a process works inside it, or it is the root of a
    record whose launcher runs. *)
Definition in_use (launcher_active : values -> result bool) (records : list values)
    (roots : list pathbuf) (processes : SandboxProcessSnapshot) (r : pathbuf) : Prop :=
  (exists m, m ∈ records /\ record_root m = Some r /\
     (references_root processes r = true \/ launcher_active m = Ok true)) \/
  (r ∈ roots /\ references_root processes r = true).

(** One record of the first loop. *)
Definition record_step (launcher_active : values -> result bool) (processes : SandboxProcessSnapshot)
    (active : list pathbuf) (m : values) : result (list pathbuf) :=
  match record_root m with
  | None => Ok active
  | Some root =>
      alive ← (if references_root processes root then Ok true else launcher_active m);
      Ok (if alive : bool then bs_insert root active else active)
  end.

Lemma record_step_elem launcher_active processes active m active' p :
  record_step launcher_active processes active m = Ok active' ->
  p ∈ active' <-> p ∈ active \/
    record_root m = Some p /\ (references_root processes p = true \/ launcher_active m = Ok true).
Proof.
  unfold record_step. intros Hs. destruct (record_root m) as [root|] eqn:E.
  - inv_ok. subst active'.
    assert (r = true <-> references_root processes root = true \/ launcher_active m = Ok true) as Hr'.
    { destruct (references_root processes root); [inv_ok; subst r; tauto|]. rewrite Hr.
      split; [by intros ->; right|by intros [?|[= ->]]]. }
    destruct r.
    + rewrite elem_of_bs_insert. split; [intros [->|?]; [right; split; [done|by apply Hr']|by left]|].
      intros [?|[[= ->] _]]; [by right|by left].
    + split; [by left|]. intros [?|[[= ->] Hx]]; [done|]. by apply Hr' in Hx.
  - inv_ok. subst active'. split; [by left|]. by intros [?|[? _]].
Qed.

Lemma active_from_records_spec launcher_active records processes active :
  active_roots_from_records launcher_active records processes = Ok active ->
  forall r, r ∈ active <->
    Reach (omap record_edge records) (in_use launcher_active records [] processes) r.
Proof.
  unfold active_roots_from_records. intros Hr. inv_ok. subst active. intros q. rewrite close_under_spec.
  assert (forall l acc acc', fold_result (record_step launcher_active processes) l acc = Ok acc' ->
    forall p, p ∈ acc' <-> p ∈ acc \/ in_use launcher_active l [] processes p) as Hf.
  { induction l as [|m l IH]; intros acc acc' Hl p; cbn [fold_result] in Hl.
    - inv_ok. subst acc'. split; [by left|].
      intros [?|[(m & Hm & _)|[Hp _]]]; [done|by apply not_elem_of_nil in Hm|by apply not_elem_of_nil in Hp].
    - apply bind_ok in Hl as (acc1 & Hs & Hl).
      rewrite (IH _ _ Hl), (record_step_elem _ _ _ _ _ _ Hs). unfold in_use.
      split.
      + intros [[?|?]|[(m' & ? & ?)|[Hp _]]]; [by left|right; left; exists m; split; [left|done]
          |right; left; exists m'; split; [by right|done]|by apply not_elem_of_nil in Hp].
      + intros [?|[(m' & [->|Hm]%elem_of_cons & ?)|[Hp _]]]; [by left; left|by left; right
          |right; left; by exists m'|by apply not_elem_of_nil in Hp]. }
  specialize (Hf _ _ _ Hr0).
  split; apply reach_mono; try done; intros p Hp.
  - apply Hf in Hp as [Hp|Hp]; [by apply not_elem_of_nil in Hp|by apply reach_seed].
  - apply reach_seed, Hf. by right.
Qed.

Lemma active_roots_spec has_info launcher_active chroots records mounts roots processes active :
  active_sandbox_roots has_info launcher_active chroots records mounts roots processes = Ok active ->
  forall r, r ∈ active <->
    Reach (omap record_edge records ++ omap (mount_edge has_info chroots) mounts)
      (in_use launcher_active records roots processes) r.
Proof.
  unfold active_sandbox_roots. intros Hr. inv_ok. subst active. intros q. rewrite close_under_spec.
  pose proof (active_from_records_spec _ _ _ _ Hr0) as Ha.
  split; apply reach_mono; try done; intros p Hp.
  - apply elem_of_bs_extend in Hp as [Hp|Hp].
    + apply Ha in Hp. revert Hp. apply reach_mono.
      * intros e He. apply elem_of_app. by left.
      * intros x Hx. apply reach_seed. destruct Hx as [Hx|[Hx _]]; [by left|by apply not_elem_of_nil in Hx].
    + apply list_elem_of_In, filter_In in Hp as [Hp1 Hp2]. apply reach_seed. right.
      split; [by apply list_elem_of_In|done].
  - apply reach_seed, elem_of_bs_extend. destruct Hp as [Hp|[Hp1 Hp2]].
    + left. apply Ha, reach_seed. by left.
    + right. apply list_elem_of_In, filter_In. split; [by apply list_elem_of_In|done].
Qed.

(** ** Lemmas: the order of unmounting *)

Definition mount_depends (m parent : MountInfo) : bool :=
  negb (bool_decide (mi_mountpoint m = mi_mountpoint parent))
  && (pb_starts_with (mi_mountpoint m) (mi_mountpoint parent)
      || pb_starts_with (mi_source m) (mi_mountpoint parent)).

Lemma mount_dependencies (mounts : list MountInfo) (e : edge) :
  e ∈ bs_of_list (concat (map (fun m =>
    omap (fun parent =>
      if negb (bool_decide (mi_mountpoint m = mi_mountpoint parent))
         && (pb_starts_with (mi_mountpoint m) (mi_mountpoint parent)
             || pb_starts_with (mi_source m) (mi_mountpoint parent))
      then Some (mi_mountpoint m, mi_mountpoint parent) else None) mounts) mounts)) <->
  exists m p, m ∈ mounts /\ p ∈ mounts /\ mount_depends m p = true /\ e = (mi_mountpoint m, mi_mountpoint p).
Proof.
  rewrite elem_of_bs_of_list, list_elem_of_In, in_concat. setoid_rewrite in_map_iff.
  setoid_rewrite <- list_elem_of_In. split.
  - intros (l & (m & <- & Hm) & He). apply list_elem_of_omap in He as (p & Hp & E).
    exists m, p. unfold mount_depends. destruct (_ && _); [|done]. by injection E as <-.
  - intros (m & p & Hm & Hp & Hd & ->). eexists. split; [exists m; split; [reflexivity|done]|].
    apply list_elem_of_omap. exists p. split; [done|]. unfold mount_depends in Hd. by rewrite Hd.
Qed.

Lemma order_mounts_points mounts :
  map mi_mountpoint (order_mounts_for_recovery mounts) =
  topological_path_order (bs_of_list (map mi_mountpoint mounts))
    (bs_of_list (concat (map (fun m =>
      omap (fun parent =>
        if negb (bool_decide (mi_mountpoint m = mi_mountpoint parent))
           && (pb_starts_with (mi_mountpoint m) (mi_mountpoint parent)
               || pb_starts_with (mi_source m) (mi_mountpoint parent))
        then Some (mi_mountpoint m, mi_mountpoint parent) else None) mounts) mounts))).
Proof.
  unfold order_mounts_for_recovery. cbv zeta. set (deps := bs_of_list (concat _)).
  assert (forall p, p ∈ topological_path_order (bs_of_list (map mi_mountpoint mounts)) deps -> p ∈ map mi_mountpoint mounts) as Hin.
  { intros p Hp. unfold topological_path_order in Hp. rewrite topo_loop_perm in Hp; [|by apply strict_NoDup, bs_of_list_strict|done].
    by rewrite elem_of_bs_of_list in Hp. }
  revert Hin. generalize (topological_path_order (bs_of_list (map mi_mountpoint mounts)) deps) as l.
  induction l as [|p l IH]; intros Hin; [done|]. cbn [omap list_omap].
  destruct (last (List.filter _ mounts)) as [m|] eqn:E.
  - cbn [map]. rewrite IH by (intros; apply Hin; by right). f_equal.
    apply last_Some_elem_of, list_elem_of_In, filter_In in E as [_ E]. by apply bool_decide_eq_true in E.
  - exfalso. apply last_None in E. assert (p ∈ map mi_mountpoint mounts) as Hp by (apply Hin; left).
    apply list_elem_of_In, in_map_iff in Hp as (m & <- & Hm).
    assert (In m (List.filter (fun m' => bool_decide (mi_mountpoint m' = mi_mountpoint m)) mounts)) as Hf.
    { apply filter_In. split; [done|]. by apply bool_decide_eq_true. }
    rewrite E in Hf. destruct Hf.
Qed.

(** ** Properties *)

(** The recovery order lists every path exactly once, whatever the
    dependencies, and when they have no cycle it respects each of them. *)
Theorem topological_order_correct (paths : list pathbuf) (dependencies : list edge) :
  NoDup paths ->
  topological_path_order paths dependencies ≡ₚ paths /\
  (acyclic dependencies paths -> forall before after, (before, after) ∈ dependencies ->
     before ∈ paths -> after ∈ paths ->
     precedes before after (topological_path_order paths dependencies)).
Proof.
  intros N. split; [by apply topo_loop_perm|]. intros Hac b a Hd Hb Ha. by apply topo_loop_order.
Qed.

Lemma topological_order_correct_witness :
  topological_path_order (map components ["/c/a"; "/c/b"; "/c/b/x"])
    [(components "/c/a", components "/c/b/x")] = map components ["/c/b"; "/c/a"; "/c/b/x"] /\
  precedes (components "/c/a") (components "/c/b/x")
    (topological_path_order (map components ["/c/a"; "/c/b"; "/c/b/x"]) [(components "/c/a", components "/c/b/x")]).
Proof.
  split; [vm_compute; reflexivity|].
  assert (NoDup (map components ["/c/a"; "/c/b"; "/c/b/x"])) as N.
  { apply (bool_decide_unpack _). vm_compute. exact I. }
  apply (proj2 (topological_order_correct (map components ["/c/a"; "/c/b"; "/c/b/x"])
    [(components "/c/a", components "/c/b/x")] N)).
  - exists length. intros e ->%list_elem_of_singleton _ _. vm_compute. lia.
  - left.
  - left.
  - right; right; left.
Defined.

(** The mounts of a dead sandbox are unmounted once for each mountpoint, and
    unless the mounts depend on each other in a cycle, a mount goes before the
    mount it lies in and before the mount its source lies in. *)
Theorem mounts_unmounted_inside_out (mounts : list MountInfo) :
  map mi_mountpoint (order_mounts_for_recovery mounts) ≡ₚ bs_of_list (map mi_mountpoint mounts) /\
  ((exists rank : pathbuf -> nat, forall m p, m ∈ mounts -> p ∈ mounts -> mount_depends m p = true ->
      rank (mi_mountpoint m) < rank (mi_mountpoint p)) ->
   forall m p, m ∈ mounts -> p ∈ mounts -> mount_depends m p = true ->
     precedes (mi_mountpoint m) (mi_mountpoint p) (map mi_mountpoint (order_mounts_for_recovery mounts))).
Proof.
  assert (NoDup (bs_of_list (map mi_mountpoint mounts))) as N by apply strict_NoDup, bs_of_list_strict.
  rewrite order_mounts_points. split; [by apply topo_loop_perm|].
  intros [rank Hr] m p Hm Hp Hd. apply topo_loop_order; [done|done| | | |].
  - exists rank. intros e He _ _. apply mount_dependencies in He as (m' & p' & ? & ? & ? & ->). by apply Hr.
  - apply mount_dependencies. by exists m, p.
  - apply elem_of_bs_of_list, list_elem_of_fmap. eauto.
  - apply elem_of_bs_of_list, list_elem_of_fmap. eauto.
Qed.

Definition example_mounts : list MountInfo :=
  parse_mount_table (fmt ["tmpfs on /r/app (tmpfs, local)"; nl; "/data/x on /r/app/lib (nullfs, local, read-only)"; nl;
                          "/r/app/lib on /r/usr (nullfs, local)"; nl]).

Lemma mounts_unmounted_inside_out_witness :
  map mi_mountpoint (order_mounts_for_recovery example_mounts) =
    map components ["/r/usr"; "/r/app/lib"; "/r/app"] /\
  precedes (components "/r/usr") (components "/r/app/lib")
    (map mi_mountpoint (order_mounts_for_recovery example_mounts)).
Proof.
  split; [vm_compute; reflexivity|].
  apply (proj2 (mounts_unmounted_inside_out example_mounts)) with
    (m := mkMount (components "/r/app/lib") (components "/r/usr") "nullfs, local")
    (p := mkMount (components "/data/x") (components "/r/app/lib") "nullfs, local, read-only").
  - exists (fun p => if bool_decide (p = components "/r/usr") then 0
                     else if bool_decide (p = components "/r/app/lib") then 1 else 2).
    intros m p Hm Hp Hd.
    assert (example_mounts = [mkMount (components "tmpfs") (components "/r/app") "tmpfs, local";
      mkMount (components "/data/x") (components "/r/app/lib") "nullfs, local, read-only";
      mkMount (components "/r/app/lib") (components "/r/usr") "nullfs, local"]) as E by (vm_compute; reflexivity).
    rewrite E, !elem_of_cons in Hm, Hp.
    destruct Hm as [->|[->|[->|[]%not_elem_of_nil]]], Hp as [->|[->|[->|[]%not_elem_of_nil]]];
      vm_compute in Hd |- *; try discriminate Hd; lia.
  - right; right; left.
  - right; left.
  - vm_compute. reflexivity.
Defined.

(** The roots the recovery counts as active are exactly those in use (by a
    process inside them, or by a running launcher that recorded them) and those
    that one of these needs, as the parent of a nested sandbox or as the source
    of a mount, directly or through others; the search always ends. *)
Theorem active_roots_are_needed has_info launcher_active chroots records mounts roots processes active :
  active_sandbox_roots has_info launcher_active chroots records mounts roots processes = Ok active ->
  forall r, r ∈ active <->
    Reach (omap record_edge records ++ omap (mount_edge has_info chroots) mounts)
      (in_use launcher_active records roots processes) r.
Proof. apply active_roots_spec. Qed.

Definition example_records : list values :=
  [[("launcher_pid", "1"); ("root", "/c/o/dead")];
   [("launcher_pid", "2"); ("parent_root", "/c/o/parent"); ("root", "/c/o/nested")];
   [("launcher_pid", "3"); ("root", "/c/o/parent")]].

Lemma active_roots_are_needed_witness :
  exists active,
    active_sandbox_roots (fun _ => true) (fun _ => Ok false) (components "/c") example_records []
      (map components ["/c/o/dead"; "/c/o/nested"; "/c/o/parent"]) [(42%Z, components "/c/o/nested/app")] = Ok active /\
    components "/c/o/parent" ∈ active.
Proof.
  eexists. split; [vm_compute; reflexivity|].
  eapply (active_roots_are_needed (fun _ => true) (fun _ => Ok false) (components "/c") example_records []
    (map components ["/c/o/dead"; "/c/o/nested"; "/c/o/parent"]) [(42%Z, components "/c/o/nested/app")]);
    [vm_compute; reflexivity|].
  apply (reach_edge _ _ (components "/c/o/nested", components "/c/o/parent")).
  - vm_compute. left.
  - apply reach_seed. right. split; [right; left|vm_compute; reflexivity].
Defined.


(** A system whose one process works in a sandbox. *)
#[local] Instance quiet_processes : ProcessWorld TreeFs := {
  capture := mret [(42%Z, components "/run/x/chroots/a/1/app")];
  send_signal _ _ := mret tt;
  pause := mret tt;
  self_pid := 1%Z;
}.
#[local] Instance quiet_world : RecoveryWorld TreeFs := {
  mount_command := mret "";
  launcher_lookup _ _ := Ok None;
  launcher_probe _ _ := KillESRCH;
  metadata_identity _ _ := inl (1, 1)%N;
  unmount_command _ _ _ _ := mret tt;
  document_unmount_command _ _ _ _ := mret tt;
  to_path p := render_components p;
}.


(** A mount is unmounted by force only when that is allowed, after a normal
    unmount has failed and with the mount still in place; without permission the
    forced operation plays no part in the outcome. *)
Theorem unmount_forces_only_when_allowed {W} (p : pathbuf) (allow : bool)
    (mounted : pathbuf -> M W bool) (unmount unmount' : pathbuf -> bool -> M W unit) (w : W) :
  (forall q, unmount q false = unmount' q false) ->
  (allow = true -> forall w0 w1 w2 w3 e,
     mounted p w0 = (Ok true, w1) -> unmount p false w1 = (Err e, w2) ->
     mounted p w2 = (Ok true, w3) -> forall w4, mounted p w3 = (Ok true, w4) ->
     unmount p true w4 = unmount' p true w4) ->
  unmount_mountpoint_with p allow mounted unmount w = unmount_mountpoint_with p allow mounted unmount' w.
Proof.
  intros Hn Hf. unfold unmount_mountpoint_with, mbind, M_bind.
  destruct (mounted p w) as [[[]|e0] w1] eqn:E1; cbn [negb]; [|done|done].
  unfold catch. rewrite <- Hn.
  destruct (unmount p false w1) as [[[]|e] w2] eqn:E2; [done|].
  destruct (mounted p w2) as [[[]|e3] w3] eqn:E3; cbn [negb]; [|done|done].
  destruct allow; [|done].
  destruct (mounted p w3) as [[[]|e4] w4] eqn:E4; [|done|done].
  exact (Hf eq_refl w w1 w2 w3 e E1 E2 E3 w4 E4).
Qed.

(** A world of one mount: whether it is there, and the operations tried on it. *)
Definition toy_mounted (p : pathbuf) : M (bool * list bool) bool := gets fst.
Definition toy_unmount (p : pathbuf) (force : bool) : M (bool * list bool) unit := fun w =>
  if force then (Ok tt, (false, w.2 ++ [true])) else (Err ["busy"], (w.1, w.2 ++ [false])).

Lemma unmount_forces_only_when_allowed_witness :
  unmount_mountpoint_with (components "/m") false toy_mounted toy_unmount (true, []) =
  unmount_mountpoint_with (components "/m") false toy_mounted
    (fun p force => if force then fail ["never"] else toy_unmount p false) (true, []) /\
  unmount_mountpoint_with (components "/m") false toy_mounted toy_unmount (true, []) = (Err ["busy"], (true, [false])).
Proof.
  split; [|reflexivity].
  apply (unmount_forces_only_when_allowed (components "/m") false toy_mounted toy_unmount); [reflexivity|discriminate].
Defined.
