(* ===== verification/ExtensionPoints.v ===== *)
(** * ExtensionPoints: extension points and the refs they resolve to
    (extension_points.rs, runtime_extensions.rs and the facts of activation.rs
    in src/src/extensions)

    An application or runtime declares extension points in its metadata.  A
    point is filled by installed runtimes of its name, or, if it has
    subdirectories, of names below its own; among the branches the point lists
    the first available one is used.  Where points overlap, the one with the
    longest name owns a ref.  The main lemmas say which point owns a ref and
    which refs the points of a parent resolve to. *)
From Stdlib Require Import Ascii String NArith ZArith Lia Sorting.Sorted.
From stdpp Require Import base list strings sets.
From S2P Require Import Prelude Collections RustStr RustNum RustPath HostFs FlatpakMetadata.

(** ** Metadata values *)

Definition list_value (metadata section key : string) : list string :=
  match value metadata section key with
  | None => []
  | Some items => List.filter (fun s => negb (is_empty s)) (map trim (split ";" items))
  end.
Definition bool_value (metadata section key : string) : bool :=
  match value metadata section key with Some item => eq_ignore_ascii_case item "true" | None => false end.
Definition nonempty_value (metadata section key : string) : option string :=
  match value metadata section key with
  | Some item => if is_empty item then None else Some item
  | None => None
  end.

(** ** Facts about the host that conditions refer to *)

Record ExtensionFacts := mkFacts {
  active_gl_drivers : list string;
  active_gtk_theme : option string;
  intel_gpu : bool;
  kernel_modules : list string;
  xdg_desktops : list string;
}.

Definition split_fact_values (v : string) : list string :=
  List.filter (fun s => negb (is_empty s))
    (map trim (split_when (fun c => bool_decide (c ∈ [":"; ";"; ","]%char)) v)).

Definition normalize_kernel_module (module : string) : string :=
  to_ascii_lowercase (replace_byte "-" "_" (trim_end_matches ".ko" module)).

(** [detect]: the environment variables, the output of kldstat if it succeeded
    and the presence of an Intel DRM device are inputs. *)
Definition detect (gl_drivers_env desktop_env kldstat : option string) (has_intel_drm_device : bool)
    (gtk_theme : option string) : ExtensionFacts := {|
  active_gl_drivers :=
    bs_of_list (default [] (split_fact_values <$> gl_drivers_env) ++ ["default"]);
  active_gtk_theme := gtk_theme;
  intel_gpu := has_intel_drm_device;
  kernel_modules :=
    bs_of_list (map normalize_kernel_module
      (omap (fun l => last (split_whitespace l)) (default [] (lines <$> kldstat))));
  xdg_desktops :=
    bs_of_list (map to_ascii_lowercase (default [] (split_fact_values <$> desktop_env))) |}.

Definition extension_suffix_matches (n : string) (active : list string) : bool :=
  existsb (fun driver => String.eqb n driver
                         || match strip_suffix driver n with Some p => ends_with "." p | None => false end) active.

Definition condition_matches (f : ExtensionFacts) (n : string) (condition : string) : bool :=
  if String.eqb condition "active-gl-driver" then extension_suffix_matches n (active_gl_drivers f)
  else if String.eqb condition "active-gtk-theme" then
    match active_gtk_theme f, rsplit_once "." n with
    | Some theme, Some (_, suffix) => String.eqb suffix theme
    | _, _ => false
    end
  else if String.eqb condition "have-intel-gpu" then intel_gpu f
  else
    match strip_prefix "have-kernel-module-" condition with
    | Some module => bs_contains (normalize_kernel_module module) (kernel_modules f)
    | None => false
    end
    || match strip_prefix "on-xdg-desktop-" condition with
       | Some desktop => bs_contains (to_ascii_lowercase desktop) (xdg_desktops f)
       | None => false
       end.

Definition matches_any (f : ExtensionFacts) (conditions : list string) (n : string) : bool :=
  existsb (condition_matches f n) conditions.

(** ** Extension points *)

Record ExtensionPoint := mkPoint {
  name : string;
  tag : option string;
  directory : option string;
  version : option string;
  versions : list string;
  subdirectories : bool;
  subdirectory_suffix : option string;
  add_ld_path : option string;
  merge_dirs : list string;
  no_autodownload : bool;
  download_if : list string;
  enable_if : list string;
  autodelete : bool;
  autoprune_unless : list string;
  locale_subset : bool;
}.

Record ExtensionParent := mkParent { parent_arch : string; parent_branch : string }.

(** [ExtensionParent::from_ref]. *)
Definition parent_from_ref (parent_ref : string) : result ExtensionParent :=
  let partial :=
    match strip_prefix "app/" parent_ref with
    | Some p => p
    | None => default parent_ref (strip_prefix "runtime/" parent_ref)
    end in
  let parts := splitn 3 "/" partial in
  let nonempty o := match o with Some "" => None | _ => o end in
  _ ← ok_or "extension parent ref is missing an ID" (parts !! 0);
  arch ← ok_or "extension parent ref is missing an architecture" (nonempty (parts !! 1));
  branch ← ok_or "extension parent ref is missing a branch" (nonempty (parts !! 2));
  Ok (mkParent arch branch).

(** [ExtensionPoint::parse]. *)
Definition parse_point (metadata section : string) : ExtensionPoint :=
  let qualified_name := trim_start_matches "Extension " section in
  let '(n, t) := match split_once "@" qualified_name with
                 | None => (qualified_name, None)
                 | Some (n, t) => (n, if is_empty t then None else Some t)
                 end in
  let related_debug := ends_with ".Debug" n in
  let related_locale := ends_with ".Locale" n in
  {| name := n;
     tag := t;
     directory := value metadata section "directory";
     version := nonempty_value metadata section "version";
     versions := list_value metadata section "versions";
     subdirectories := bool_value metadata section "subdirectories";
     subdirectory_suffix := nonempty_value metadata section "subdirectory-suffix";
     add_ld_path := nonempty_value metadata section "add-ld-path";
     merge_dirs := list_value metadata section "merge-dirs";
     no_autodownload := related_debug || bool_value metadata section "no-autodownload";
     download_if := list_value metadata section "download-if";
     enable_if := list_value metadata section "enable-if";
     autodelete := related_debug || related_locale || bool_value metadata section "autodelete";
     autoprune_unless := list_value metadata section "autoprune-unless";
     locale_subset := bool_value metadata section "locale-subset" |}.

Definition parse_extension_points (metadata : string) : list ExtensionPoint :=
  map (parse_point metadata) (sections_with_prefix metadata "Extension ").

Definition branches (p : ExtensionPoint) (parent : ExtensionParent) : list string :=
  match versions p with
  | [] => match version p with Some v => [v] | None => [parent_branch parent] end
  | vs => dedup_seen [] vs
  end.

(** ** Refs *)

Record RuntimeRefParts := mkParts { rp_name : string; rp_arch : string; rp_branch : string }.

Definition runtime_ref_parts (ref_name : string) : option RuntimeRefParts :=
  partial ← strip_prefix "runtime/" ref_name;
  let parts := splitn 3 "/" partial in
  n ← parts !! 0; a ← parts !! 1; b ← parts !! 2;
  Some (mkParts n a b).

Definition extension_ref (n arch branch : string) : string := fmt ["runtime/"; n; "/"; arch; "/"; branch].

(** The filter of [point_for_ref]. *)
Definition covers (parent : ExtensionParent) (c : RuntimeRefParts) (p : ExtensionPoint) : bool :=
  (String.eqb (rp_name c) (name p)
   || (subdirectories p
       && match strip_prefix (name p) (rp_name c) with Some suffix => starts_with "." suffix | None => false end))
  && existsb (fun b => String.eqb b (rp_branch c)) (branches p parent).

(** The owner of a ref with its position among the points, which stands for
    the identity [ptr::eq] compares. *)
Definition owner_of_ref (points : list ExtensionPoint) (parent : ExtensionParent) (ref_name : string)
  : option (nat * ExtensionPoint) :=
  c ← runtime_ref_parts ref_name;
  if negb (String.eqb (rp_arch c) (parent_arch parent)) then None
  else max_by_key (fun ip => len (name ip.2))
         (List.filter (fun ip => covers parent c ip.2) (imap pair points)) None.

Definition point_for_ref (points : list ExtensionPoint) (parent : ExtensionParent) (ref_name : string)
  : option ExtensionPoint := snd <$> owner_of_ref points parent ref_name.

(** The names a point asks for. *)
Definition point_names (parent : ExtensionParent) (available : list string) (p : ExtensionPoint) : list string :=
  bs_extend [name p]
    (if subdirectories p then
       omap (fun candidate =>
               c ← runtime_ref_parts candidate;
               if starts_with (fmt [name p; "."]) (rp_name c) && String.eqb (rp_arch c) (parent_arch parent)
               then Some (rp_name c) else None) available
     else []).

(** The loop over the branches, left at the first ref that is available and
    owned by the point. *)
Definition resolve_name (points : list ExtensionPoint) (parent : ExtensionParent) (available : list string)
    (i : nat) (p : ExtensionPoint) (n : string) : option string :=
  List.find (fun candidate =>
      bs_contains candidate available
      && match owner_of_ref points parent candidate with
         | Some (j, _) => Nat.eqb j i
         | None => false
         end)
    (map (extension_ref n (parent_arch parent)) (branches p parent)).

Definition resolve_extension_refs (points : list ExtensionPoint) (parent : ExtensionParent)
    (available : list string) : list string :=
  foldl (fun resolved ip =>
      bs_extend resolved
        (omap (resolve_name points parent available ip.1 ip.2) (point_names parent available ip.2)))
    [] (imap pair points).

Definition keeps_installed_ref (facts : ExtensionFacts) (p : ExtensionPoint) (ref_name : string) : bool :=
  match runtime_ref_parts ref_name with
  | None => false
  | Some c =>
      if negb (bool_decide (autoprune_unless p = [])) then matches_any facts (autoprune_unless p) (rp_name c)
      else
        let dynamic := List.filter (fun s => String.eqb s "active-gl-driver" || String.eqb s "active-gtk-theme")
                         (download_if p ++ enable_if p) in
        if negb (bool_decide (dynamic = [])) then matches_any facts dynamic (rp_name c) else true
  end.

Definition is_hidden_related_ref (runtime_ref : string) : bool :=
  match head (split "/" runtime_ref) with
  | Some id => existsb (fun s => String.eqb s "Locale" || String.eqb s "Debug") (split "." id)
  | None => false
  end.

(** ** Reading the installed metadata *)

Section Reading.
Context {W : Type} `{HostFs W}.

(** [ExtensionFacts::detect] looks at the world: its result for a theme is a
    parameter. *)
Context (detect_facts : option string -> ExtensionFacts).

Definition applicable_extension_refs (metadata_path : path) (parent_ref : string)
    (installed : list string) (gtk_theme : option string) (w : W) : result (list string) :=
  match read_to_string w metadata_path with
  | inr _ => Ok []
  | inl metadata =>
      parent ← parent_from_ref parent_ref;
      let facts := detect_facts gtk_theme in
      let points := parse_extension_points metadata in
      Ok (bs_of_list (List.filter (fun r =>
              match point_for_ref points parent r with
              | Some p => keeps_installed_ref facts p r
              | None => false
              end) (resolve_extension_refs points parent installed)))
  end.

Definition required_extension_refs (app_dir : path) (app_ref runtime_ref : string) (runtime_dir : path)
    (installed : list string) (gtk_theme : option string) (w : W) : result (list string) :=
  fold_result (fun refs source =>
      more ← applicable_extension_refs source.1 source.2 installed gtk_theme w;
      Ok (bs_extend refs more))
    [(join_path app_dir "metadata", app_ref); (join_path runtime_dir "metadata", runtime_ref)] [].

Definition autodelete_extension_refs (app_dir : path) (app_ref runtime_ref : string) (runtime_dir : path)
    (installed : list string) (w : W) : result (list string) :=
  app_parent ← parent_from_ref app_ref;
  runtime_parent ← parent_from_ref runtime_ref;
  Ok (foldl (fun refs (source : path * ExtensionParent) =>
        match read_to_string w source.1 with
        | inr _ => refs
        | inl metadata =>
            let points := parse_extension_points metadata in
            bs_extend refs (List.filter (fun r =>
              match point_for_ref points source.2 r with Some p => autodelete p | None => false end)
              (resolve_extension_refs points source.2 installed))
        end)
     [] [(join_path app_dir "metadata", app_parent); (join_path runtime_dir "metadata", runtime_parent)]).
End Reading.

(** ** runtime_extensions.rs *)

Definition runtime_checkout_dir (runtime_ref : string) : string :=
  let parts := split "/" runtime_ref in
  let n := default runtime_ref (parts !! 0) in
  let arch := default "unknown" (parts !! 1) in
  let branch := default "stable" (parts !! 2) in
  fmt [n; "-"; arch; "-"; replace_byte "/" "_" branch].

Definition valid_relative_extension_path (v : string) : bool :=
  negb (is_empty v) && forallb normal (components v).

Section Checkout.
Context {W : Type} `{HostFs W}.

(** The closure [validation]. *)
Definition checkout_valid (ref_name : string) (checkout_dir : path) (w : W) : result unit :=
  if negb (is_dir w checkout_dir) then bail "checkout directory does not exist"
  else
    let marker_path := join_path checkout_dir ".ostree-commit" in
    marker ← io_context (fmt ["read deployment marker "; marker_path]) (read_to_string w marker_path);
    let ls := lines marker in
    installed_ref ← ok_or "deployment marker missing ref" (ls !! 0);
    if negb (String.eqb installed_ref ref_name)
    then bail (fmt ["deployment marker contains ref "; installed_ref; ", expected "; ref_name])
    else if bool_decide (default "" (ls !! 1) = "") then bail "deployment marker missing commit"
    else
      size ← ok_or "deployment marker missing installed size" (ls !! 2);
      _ ← ok_or "deployment marker has invalid installed size" (parse_u64 size);
      if bool_decide (default "" (ls !! 3) = "") then bail "deployment marker missing origin"
      else
        let metadata_path := join_path checkout_dir "metadata" in
        metadata ← io_context (fmt ["read extension metadata "; metadata_path]) (read_to_string w metadata_path);
        expected_name ← ok_or "extension ref is not a runtime ref"
                          (v ← strip_prefix "runtime/" ref_name; head (split "/" v));
        installed_name ← ok_or "extension metadata is missing Runtime/name" (value metadata "Runtime" "name");
        if negb (String.eqb installed_name expected_name)
        then bail (fmt ["extension metadata contains name "; installed_name; ", expected "; expected_name])
        else if negb (is_dir w (join_path checkout_dir "files"))
        then bail (fmt ["files directory is missing: "; join_path checkout_dir "files"])
        else Ok tt.

Definition validate_extension_checkout (ref_name : string) (checkout_dir : path) (w : W) : result unit :=
  with_context (fmt ["required extension "; ref_name; " is missing or corrupt at "; checkout_dir;
                     "; run `flatpak update` or `flatpak repair`"])
    (checkout_valid ref_name checkout_dir w).
End Checkout.

(** ** Lemmas: the parts of a ref *)

Lemma extension_ref_eq n a b : extension_ref n a b = "runtime/" +:+ n +:+ "/" +:+ a +:+ "/" +:+ b.
Proof. unfold extension_ref. by rewrite !fmt_cons, fmt_nil, sapp_nil_r. Qed.

Lemma splitn_3 c x y z :
  has c x = false -> has c y = false ->
  splitn 3 c (x +:+ String c (y +:+ String c z)) = [x; y; z].
Proof.
  intros Hx Hy. cbn [splitn]. rewrite (proj2 (split_once_Some c _ x (y +:+ String c z))) by done.
  by rewrite (proj2 (split_once_Some c _ y z)).
Qed.

Lemma runtime_ref_parts_ref n a b :
  has "/" n = false -> has "/" a = false ->
  runtime_ref_parts (extension_ref n a b) = Some (mkParts n a b).
Proof.
  intros Hn Ha. rewrite extension_ref_eq. unfold runtime_ref_parts. rewrite strip_prefix_app.
  cbn [mbind option_bind]. change (n +:+ "/" +:+ a +:+ "/" +:+ b) with (n +:+ String "/" (a +:+ String "/" b)).
  by rewrite splitn_3.
Qed.

Lemma runtime_ref_parts_Some r c :
  runtime_ref_parts r = Some c ->
  r = extension_ref (rp_name c) (rp_arch c) (rp_branch c) /\ has "/" (rp_name c) = false /\ has "/" (rp_arch c) = false.
Proof.
  unfold runtime_ref_parts. intros H. destruct (strip_prefix "runtime/" r) as [p|] eqn:E; [|done].
  apply strip_prefix_Some in E as ->. cbn [mbind option_bind splitn] in H.
  destruct (split_once "/" p) as [[n t]|] eqn:E; [|done]. apply split_once_Some in E as [-> Hn].
  destruct (split_once "/" t) as [[a b]|] eqn:E; [|done]. apply split_once_Some in E as [-> Ha].
  injection H as <-. by rewrite extension_ref_eq.
Qed.

(** ** Lemmas: owners *)

(** The owner of a ref is the last of the points with the longest name among
    those that cover it. *)
Lemma owner_of_ref_Some points parent r i p :
  owner_of_ref points parent r = Some (i, p) <->
  exists c, runtime_ref_parts r = Some c /\ rp_arch c = parent_arch parent /\
    points !! i = Some p /\ covers parent c p = true /\
    forall j q, points !! j = Some q -> covers parent c q = true ->
      (len (name q) < len (name p))%nat \/ (len (name q) = len (name p) /\ (j <= i)%nat).
Proof.
  unfold owner_of_ref. destruct (runtime_ref_parts r) as [c|]; cbn [mbind option_bind]; [|naive_solver].
  destruct (String.eqb_spec (rp_arch c) (parent_arch parent)) as [Ha|Ha]; cbn [negb].
  - rewrite (last_greatest (fun p => len (name p)) (covers parent c)). naive_solver.
  - naive_solver.
Qed.

Lemma covers_name parent c p :
  covers parent c p = true <->
  (rp_name c = name p \/
   subdirectories p = true /\ exists suffix, rp_name c = name p +:+ "." +:+ suffix) /\
  rp_branch c ∈ branches p parent.
Proof.
  unfold covers. rewrite andb_true_iff, orb_true_iff, andb_true_iff, String.eqb_eq, existsb_exists.
  setoid_rewrite <- list_elem_of_In. setoid_rewrite String.eqb_eq.
  assert (match strip_prefix (name p) (rp_name c) with Some suffix => starts_with "." suffix | None => false end = true
    <-> exists suffix, rp_name c = name p +:+ "." +:+ suffix) as ->.
  { destruct (strip_prefix (name p) (rp_name c)) as [s|] eqn:E.
    - apply strip_prefix_Some in E as ->. rewrite starts_with_true. split; intros [t Ht].
      + subst. eauto.
      + apply sapp_inv_head in Ht. eauto.
    - split; [done|]. intros [s Hs]. rewrite Hs, strip_prefix_app in E. done. }
  naive_solver.
Qed.

(** ** Lemmas: resolution *)

Section Resolution.
Context (points : list ExtensionPoint) (parent : ExtensionParent) (available : list string).

Lemma elem_of_resolve r :
  r ∈ resolve_extension_refs points parent available <->
  exists i p n, points !! i = Some p /\ n ∈ point_names parent available p /\
    resolve_name points parent available i p n = Some r.
Proof.
  unfold resolve_extension_refs.
  enough (forall acc l, r ∈ foldl (fun resolved (ip : nat * ExtensionPoint) => bs_extend resolved
      (omap (resolve_name points parent available ip.1 ip.2) (point_names parent available ip.2))) acc l <->
    r ∈ acc \/ exists ip, ip ∈ l /\ exists n, n ∈ point_names parent available ip.2 /\
      resolve_name points parent available ip.1 ip.2 n = Some r) as H.
  { rewrite H. split.
    - intros [Hr|([i p] & Hip & n & Hn & Hr)]; [by apply elem_of_nil in Hr|].
      apply elem_of_lookup_imap in Hip as (j & q & [= -> ->] & Hj). eauto 6.
    - intros (i & p & n & Hi & Hn & Hr). right. exists (i, p). split; [|eauto].
      apply elem_of_lookup_imap. eauto. }
  intros acc l. revert acc. induction l as [|ip l IH]; intros acc; cbn; [set_solver|].
  rewrite IH, elem_of_bs_extend, list_elem_of_omap. set_solver.
Qed.

Lemma elem_of_point_names p n :
  has "/" (name p) = false ->
  n ∈ point_names parent available p <->
  n = name p \/ subdirectories p = true /\ exists suffix c r, n = name p +:+ "." +:+ suffix /\ n = rp_name c /\
    r ∈ available /\ runtime_ref_parts r = Some c /\ rp_arch c = parent_arch parent.
Proof.
  intros Hp. unfold point_names. rewrite elem_of_bs_extend, list_elem_of_singleton.
  destruct (subdirectories p); [|set_solver]. rewrite list_elem_of_omap. split; (intros [->|H]; [by left|right]).
  - destruct H as (r & Hr & H). split; [done|]. destruct (runtime_ref_parts r) as [c|] eqn:E; [|done]. cbn [mbind option_bind] in H.
    destruct (starts_with _ _ && _) eqn:E2; [|done]. injection H as <-.
    apply andb_true_iff in E2 as [E2 Ha%String.eqb_eq]. apply starts_with_true in E2 as [s Hs].
    rewrite !fmt_cons, fmt_nil, sapp_nil_r, sapp_assoc in Hs. eauto 10.
  - destruct H as (_ & s & c & r & -> & Hc & Hr & Hp2 & Ha). exists r. split; [done|]. rewrite Hp2. cbn [mbind option_bind].
    rewrite <- Hc, Ha, String.eqb_refl, andb_true_r.
    rewrite (proj2 (starts_with_true _ _)); [done|]. exists s. by rewrite !fmt_cons, fmt_nil, sapp_nil_r, sapp_assoc.
Qed.
End Resolution.

(** The test of [resolve_name]. *)
Lemma candidate_accepted points parent available i p r :
  points !! i = Some p ->
  bs_contains r available
  && match owner_of_ref points parent r with Some (j, _) => Nat.eqb j i | None => false end = true <->
  r ∈ available /\ owner_of_ref points parent r = Some (i, p).
Proof.
  intros Hi. rewrite andb_true_iff, bs_contains_true.
  destruct (owner_of_ref points parent r) as [[j q]|] eqn:E; [|naive_solver].
  rewrite Nat.eqb_eq. split; [|naive_solver]. intros [Hr ->]. split; [done|].
  apply owner_of_ref_Some in E as (c & _ & _ & Hq & _). congruence.
Qed.

(** The refs the extension points of a parent resolve to are exactly the
    available refs that one of the points owns and for which no earlier branch
    of that point names an available ref that the same point owns. *)
Theorem resolved_refs_exact points parent available r
    (Harch : has "/" (parent_arch parent) = false)
    (Hnames : Forall (fun p => has "/" (name p) = false) points) :
  r ∈ resolve_extension_refs points parent available <->
  exists i p c l1 l2,
    r ∈ available /\ owner_of_ref points parent r = Some (i, p) /\
    runtime_ref_parts r = Some c /\ branches p parent = l1 ++ rp_branch c :: l2 /\
    Forall (fun b => ~ (extension_ref (rp_name c) (parent_arch parent) b ∈ available /\
                        owner_of_ref points parent (extension_ref (rp_name c) (parent_arch parent) b) = Some (i, p))) l1.
Proof.
  rewrite elem_of_resolve. split.
  - intros (i & p & n & Hi & Hn & Hr). unfold resolve_name in Hr.
    apply find_map_Some in Hr as (l1 & b & l2 & E & -> & Hb & Hl).
    apply (candidate_accepted _ _ _ _ p) in Hb as [Ha Ho]; [|done].
    assert (has "/" n = false) as Hns.
    { apply elem_of_point_names in Hn as [->|(_ & s & c & r & _ & -> & _ & Hc & _)];
        [|by apply runtime_ref_parts_Some in Hc as (_ & ? & _)|]; rewrite Forall_forall in Hnames;
        apply Hnames; by eapply list_elem_of_lookup_2. }
    exists i, p, (mkParts n (parent_arch parent) b), l1, l2.
    cbn [rp_name rp_branch]. rewrite runtime_ref_parts_ref by done.
    do 4 (split; [done|]). eapply Forall_impl; [exact Hl|]. cbv beta. intros b' Hf Hok.
    apply (candidate_accepted _ _ _ _ p) in Hok; [congruence|done].
  - intros (i & p & c & l1 & l2 & Ha & Ho & Hc & E & Hl).
    pose proof Ho as (c' & Hc' & Harc & Hi & Hcov & _)%owner_of_ref_Some.
    rewrite Hc in Hc'. injection Hc' as <-. apply covers_name in Hcov as [Hn _].
    pose proof (proj1 (runtime_ref_parts_Some _ _ Hc)) as Hr. rewrite Harc in Hr.
    exists i, p, (rp_name c). split; [done|]. split.
    + apply elem_of_point_names; [rewrite Forall_forall in Hnames; apply Hnames; by eapply list_elem_of_lookup_2|].
      destruct Hn as [->|[Hs [s Hn]]]; [by left|]. right. split; [done|]. exists s, c, r. done.
    + unfold resolve_name. apply find_map_Some. exists l1, (rp_branch c), l2. split; [done|]. split; [done|].
      rewrite <- Hr. split; [by apply (candidate_accepted _ _ _ _ p)|].
      eapply Forall_impl; [exact Hl|]. cbv beta. intros b Hb. apply not_true_iff_false. intros Hok. apply Hb.
      by apply (candidate_accepted _ _ _ _ p) in Hok.
Qed.

Definition sample_point (n : string) (subdirs : bool) (vs : list string) : ExtensionPoint :=
  mkPoint n None (Some "ext") None vs subdirs None None [] false [] [] false [] false.

Definition sample_points : list ExtensionPoint :=
  [sample_point "org.GL" true ["1.4"; "1.3"]; sample_point "org.GL.Debug" true ["1.4"]].

Lemma resolved_refs_exact_witness :
  "runtime/org.GL.mesa/x86_64/1.3" ∈ resolve_extension_refs sample_points (mkParent "x86_64" "23.08")
    ["runtime/org.GL.Debug.mesa/x86_64/1.4"; "runtime/org.GL.mesa/x86_64/1.3"] /\
  exists i p c l1 l2, i = 0 /\ runtime_ref_parts "runtime/org.GL.mesa/x86_64/1.3" = Some c /\
    branches p (mkParent "x86_64" "23.08") = l1 ++ rp_branch c :: l2.
Proof.
  assert ("runtime/org.GL.mesa/x86_64/1.3" ∈ resolve_extension_refs sample_points (mkParent "x86_64" "23.08")
    ["runtime/org.GL.Debug.mesa/x86_64/1.4"; "runtime/org.GL.mesa/x86_64/1.3"]) as Hin.
  { apply list_elem_of_In. vm_compute. tauto. }
  split; [exact Hin|].
  apply resolved_refs_exact in Hin as (i & p & c & l1 & l2 & _ & Ho & Hc & E & _); [|reflexivity|by repeat constructor].
  exists i, p, c, l1, l2. split; [|done]. vm_compute in Ho. by injection Ho.
Defined.
