(* ===== verification/Activation.v ===== *)
(** * Activation: the extension mounts of a launch
    (src/src/extensions/activation.rs)

    A launch resolves the extension points of the runtime and of the
    application against the installed runtimes, checks each payload and plans
    where it is mounted; directories that several payloads merge into are
    filled entry by entry, the payload of the highest priority winning. *)
From Stdlib Require Import Ascii String NArith ZArith Lia Sorting.Sorted.
From stdpp Require Import base list strings sets.
From S2P Require Import Prelude Effects Collections RustStr RustNum RustPath HostFs FlatpakMetadata FlatpakRef InstallationPaths Records RunRecords ExtensionPoints.

Inductive ExtensionScope := AppScope | RuntimeScope.
#[export] Instance extension_scope_eq_dec : EqDecision ExtensionScope.
Proof. solve_decision. Defined.

Definition scope_root (s : ExtensionScope) : string :=
  match s with AppScope => "app" | RuntimeScope => "usr" end.

Record ExtensionMergeMount := mkMerge { merge_target : path; source_relative : path }.

Record ExtensionMount := mkMount {
  em_name : string;
  em_ref_name : string;
  em_commit : string;
  checkout_dir : path;
  target : path;
  add_ld_paths : list string;
  em_merge_dirs : list ExtensionMergeMount;
  priority : Z;
  scope : ExtensionScope;
  conditions : list string;
}.

Definition runtime_name (ref_name : string) : option string :=
  partial ← strip_prefix "runtime/" ref_name; head (split "/" partial).

Definition is_debug_extension_name (n : string) : bool :=
  existsb (fun s => String.eqb s "Debug") (split "." n).

(** ** The plan's views *)

(** [ExtensionMountPlan] holds its mounts and nothing else. *)
Abbreviation ExtensionMountPlan := (list ExtensionMount) (only parsing).

Definition plan_refs (plan : ExtensionMountPlan) : list string := bs_of_list (map em_ref_name plan).
(** A set of paths is the set of their component lists. *)
Definition plan_checkout_dirs (plan : ExtensionMountPlan) : list pathbuf :=
  bs_of_list (map (fun m => components (checkout_dir m)) plan).
Definition in_scope (s : ExtensionScope) (m : ExtensionMount) : bool := bool_decide (scope m = s).
Definition app_ld_library_paths (plan : ExtensionMountPlan) : list string :=
  flat_map add_ld_paths (List.filter (in_scope AppScope) plan).
Definition runtime_ld_library_paths (plan : ExtensionMountPlan) : list string :=
  flat_map add_ld_paths (List.filter (in_scope RuntimeScope) plan).
Definition has_condition (condition : string) (m : ExtensionMount) : bool :=
  existsb (fun c => String.eqb c condition) (conditions m).
Definition conditioned_mount (condition : string) (plan : ExtensionMountPlan) : option ExtensionMount :=
  List.find (has_condition condition) plan.
Definition active_gl_mount (plan : ExtensionMountPlan) : option ExtensionMount :=
  List.find (fun m => has_condition "active-gl-driver" m && negb (is_debug_extension_name (em_name m))) plan.
Definition extension_info (mounts : list ExtensionMount) : list string :=
  bs_of_list (map (fun m => fmt [em_name m; "="; em_commit m]) mounts).
Definition app_info (plan : ExtensionMountPlan) : list string :=
  extension_info (List.filter (in_scope AppScope) plan).
Definition runtime_info (plan : ExtensionMountPlan) : list string :=
  extension_info (List.filter (in_scope RuntimeScope) plan).

(** ** Merge directories *)

Record Candidate := mkCandidate { cand_priority : Z; cand_ref_name : string; cand_source : path }.

(** The test [replace]: whether a candidate takes the place of the current one. *)
Definition beats (c current : Candidate) : bool :=
  (cand_priority current <? cand_priority c)%Z
  || ((cand_priority c =? cand_priority current)%Z
      && ltb_of (cand_ref_name c) (cand_ref_name current)).

Definition offer (candidates : list (string * Candidate)) (n : string) (c : Candidate)
  : list (string * Candidate) :=
  if match bm_get n candidates with None => true | Some current => beats c current end
  then bm_insert n c candidates else candidates.

Record ExtensionMergeEntry := mkMergeEntry { me_name : string; me_source : path }.
Record ExtensionMergeDirectory := mkMergeDirectory {
  md_target : pathbuf; md_base_source : path; md_entries : list ExtensionMergeEntry }.

(** The groups, by the components of their target. *)
Abbreviation groups := (list (pathbuf * (path * list (string * Candidate)))) (only parsing).

Section MergeDirectories.
Context {W : Type} `{HostFs W}.

(** A target that does not start with its scope's root is a panic of [expect],
    which [ok_or] stands for. *)
Definition base_source (app_dir runtime_dir : path) (m : ExtensionMount) (merge : ExtensionMergeMount)
  : result path :=
  relative ← ok_or "merge target starts with scope root" (strip_path_prefix (merge_target merge) (scope_root (scope m)));
  Ok (join_path (join_path (match scope m with AppScope => app_dir | RuntimeScope => runtime_dir end) "files") relative).

Definition extension_source (m : ExtensionMount) (merge : ExtensionMergeMount) : path :=
  join_path (join_path (checkout_dir m) "files") (source_relative merge).

Definition add_merge (app_dir runtime_dir : path) (w : W) (m : ExtensionMount) (gs : groups)
    (merge : ExtensionMergeMount) : result groups :=
  base ← base_source app_dir runtime_dir m merge;
  let key := components (merge_target merge) in
  let source := extension_source m merge in
  let group := default (base, []) (bm_get key gs) in
  match read_dir w source with
  | inr _ => Ok (bm_insert key group gs)
  | inl entries =>
      candidates ← fold_result (fun cs entry =>
          entry ← io_context (fmt ["read merge directory "; source]) entry;
          Ok (offer cs (file_name entry)
                (mkCandidate (priority m) (em_ref_name m) (join_path source (file_name entry)))))
        entries group.2;
      Ok (bm_insert key (group.1, candidates) gs)
  end.

Definition merge_directories (app_dir runtime_dir : path) (plan : ExtensionMountPlan) (w : W)
  : result (list ExtensionMergeDirectory) :=
  gs ← fold_result (fun gs m => fold_result (add_merge app_dir runtime_dir w m) (em_merge_dirs m) gs) plan [];
  let directories := map (fun g : pathbuf * (path * list (string * Candidate)) =>
    mkMergeDirectory g.1 g.2.1 (map (fun e => mkMergeEntry e.1 (cand_source e.2)) g.2.2)) gs in
  Ok (sort_by (on (fun d => (length (md_target d), md_target d))) directories).
End MergeDirectories.

(** ** The plan *)

Definition launch_enabled (p : ExtensionPoint) (ref_name : string) (facts : ExtensionFacts) : bool :=
  bool_decide (enable_if p = []) || matches_any facts (enable_if p) (default "" (runtime_name ref_name)).

Definition mount_target (p : ExtensionPoint) (ref_name : string) (s : ExtensionScope) : result path :=
  dir ← ok_or "extension point is missing directory" (directory p);
  if negb (valid_relative_extension_path dir)
  then bail (fmt ["invalid extension directory for "; name p; ": "; debug_str dir])
  else
    let t := join_path (scope_root s) dir in
    t ← (if subdirectories p then
           suffix ← ok_or "subdirectory extension ref does not extend its point name"
                      (strip_prefix (fmt [name p; "."]) (default "" (runtime_name ref_name)));
           Ok (join_path t suffix)
         else Ok t);
    match subdirectory_suffix p with
    | None => Ok t
    | Some suffix =>
        if negb (valid_relative_extension_path suffix)
        then bail (fmt ["invalid extension subdirectory suffix: "; debug_str suffix])
        else Ok (join_path t suffix)
    end.

(** The library paths a point adds, and the directories it merges. *)
Definition ld_paths (p : ExtensionPoint) (t : path) : result (list string) :=
  map_result (fun l =>
      if negb (valid_relative_extension_path l)
      then bail (fmt ["invalid add-ld-path for "; name p; ": "; debug_str l])
      else Ok (join_path (join_path "/" t) l))
    (List.filter (fun l => negb (is_empty l))
       (map trim (match add_ld_path p with Some l => split ":" l | None => [] end))).

Definition merge_mounts (p : ExtensionPoint) (s : ExtensionScope) : result (list ExtensionMergeMount) :=
  map_result (fun d =>
      if negb (valid_relative_extension_path d)
      then bail (fmt ["invalid merge-dirs path for "; name p; ": "; debug_str d])
      else Ok (mkMerge (join_path (join_path (scope_root s) (default "" (directory p))) d) d))
    (merge_dirs p).

Definition held_conditions (p : ExtensionPoint) (ref_name : string) (facts : ExtensionFacts) : list string :=
  dedup String.eqb (sort_by (on (fun c => c))
    (List.filter (fun c => matches_any facts [c] (default "" (runtime_name ref_name)))
       (enable_if p ++ download_if p))).

Definition path_depth (p : path) : nat := length (components p).
Definition mount_key (m : ExtensionMount) : nat * list component * Z * string :=
  (path_depth (target m), components (target m), (- priority m)%Z, em_ref_name m).

Section Plan.
Context {W : Type} `{FileOps W}.

Definition extension_mount (i : Installation) (facts : ExtensionFacts) (w : W) (s : ExtensionScope)
    (p : ExtensionPoint) (ref_name : string) (record : RuntimeRecord) : result ExtensionMount :=
  let dir := absolute_data_path i (runtime_dir record) in
  _ ← validate_extension_checkout ref_name dir w;
  t ← mount_target p ref_name s;
  let extension_metadata := default "" (io_ok (read_to_string w (join_path dir "metadata"))) in
  let prio := default 0%Z (value extension_metadata "ExtensionOf" "priority" ≫= parse_i32) in
  lds ← ld_paths p t;
  merges ← merge_mounts p s;
  Ok (mkMount (default (name p) (runtime_name ref_name)) ref_name (runtime_commit record) dir t lds merges
        prio s (held_conditions p ref_name facts)).

Definition resolve_metadata_mounts (i : Installation) (facts : ExtensionFacts) (available : list string)
    (installed : list (string * RuntimeRecord)) (w : W) (parent_dir : path) (parent_ref : string)
    (s : ExtensionScope) (mounts : list ExtensionMount) : result (list ExtensionMount) :=
  let metadata_path := join_path parent_dir "metadata" in
  metadata ← io_context (fmt ["read extension metadata "; metadata_path]) (read_to_string w metadata_path);
  parent ← parent_from_ref parent_ref;
  let points := parse_extension_points metadata in
  fold_result (fun mounts ref_name =>
      match point_for_ref points parent ref_name with
      | None => Ok mounts
      | Some p =>
          if negb (launch_enabled p ref_name facts) then Ok mounts
          else match bm_get ref_name installed with
               | None => Ok mounts
               | Some record =>
                   m ← extension_mount i facts w s p ref_name record;
                   Ok (mounts ++ [m])
               end
      end)
    (resolve_extension_refs points parent available) mounts.

(** The application whose launch is planned ([FlatpakApp]). *)
Record FlatpakApp := mkFlatpakApp {
  fa_app_id : string; fa_app_dir : path; fa_runtime_ref : string; fa_runtime_dir : path;
  fa_command : string; fa_args : list string }.

Definition full_runtime_ref (r : RuntimeRecord) : string := fmt ["runtime/"; runtime_ref r].

Definition resolve_extension_mount_plan (i : Installation) (app : FlatpakApp) (facts : ExtensionFacts)
  : M W ExtensionMountPlan :=
  marker ← getr (deployment_marker (fa_app_dir app));
  app_ref ← lift (match marker with
    | Some (ref_name, _) => Ok ref_name
    | None =>
        parent ← with_context "validated runtime ref has architecture and branch"
                   (parent_from_ref (fa_runtime_ref app));
        Ok (fmt ["app/"; fa_app_id app; "/"; parent_arch parent; "/"; parent_branch parent])
    end);
  runtimes ← list_runtimes i;
  getr (fun w =>
    let available := bs_of_list (map full_runtime_ref runtimes) in
    let installed := foldl (fun m r => bm_insert (full_runtime_ref r) r m) [] runtimes in
    mounts ← resolve_metadata_mounts i facts available installed w (fa_runtime_dir app) (fa_runtime_ref app)
               RuntimeScope [];
    mounts ← resolve_metadata_mounts i facts available installed w (fa_app_dir app) app_ref AppScope mounts;
    Ok (sort_by (on mount_key) mounts)).
End Plan.

(** ** Lemmas: candidates *)

Definition candidate_key (c : Candidate) : Z * string := ((- cand_priority c)%Z, cand_ref_name c).

Lemma beats_key c d : beats c d = ltb_of (candidate_key c) (candidate_key d).
Proof.
  assert (cmp (candidate_key c) (candidate_key d) =
    match Z.compare (- cand_priority c) (- cand_priority d) with
    | Eq => cmp (cand_ref_name c) (cand_ref_name d) | o => o end) as E by reflexivity.
  unfold beats, ltb_of. rewrite E.
  destruct (Z.compare_spec (- cand_priority c) (- cand_priority d)) as [L|L|L].
  - by rewrite (proj2 (Z.ltb_ge _ _)), (proj2 (Z.eqb_eq _ _)) by lia.
  - by rewrite (proj2 (Z.ltb_lt _ _)) by lia.
  - by rewrite (proj2 (Z.ltb_ge _ _)), (proj2 (Z.eqb_neq _ _)) by lia.
Qed.

(** [best cs Q]: the map holds, for each name offered in [Q], an offer that no
    other offer of that name beats. *)
Definition best (cs : list (string * Candidate)) (Q : string * Candidate -> Prop) : Prop :=
  bm_wf cs /\
  (forall n c, bm_get n cs = Some c -> Q (n, c) /\ forall c', Q (n, c') -> beats c' c = false) /\
  (forall n c, Q (n, c) -> is_Some (bm_get n cs)).

Lemma best_ext cs Q Q' : (forall t, Q t <-> Q' t) -> best cs Q -> best cs Q'.
Proof.
  intros E (Hwf & Hb & Ha). split; [done|]. setoid_rewrite <- E. done.
Qed.

Lemma beats_irrefl c : beats c c = false.
Proof. rewrite beats_key. unfold ltb_of. by rewrite cmp_refl. Qed.

Lemma beats_trans c d e : beats c d = true -> beats e d = false -> beats e c = false.
Proof.
  rewrite !beats_key. unfold ltb_of. intros Hcd Hed.
  destruct (cmp (candidate_key c) (candidate_key d)) eqn:E1; [done| |done].
  destruct (cmp (candidate_key e) (candidate_key c)) eqn:E2; [done| |done].
  by rewrite (cmp_trans _ _ _ E2 E1) in Hed.
Qed.

Lemma beats_antisym c d : beats c d = true -> beats d c = false.
Proof. intros H. eapply beats_trans; [exact H|apply beats_irrefl]. Qed.

Lemma best_insert cs Q n c :
  best cs Q -> (forall c', Q (n, c') -> beats c' c = false) ->
  best (bm_insert n c cs) (fun t => Q t \/ t = (n, c)).
Proof.
  intros (Hwf & Hb & Ha) Hc. split; [by apply bm_insert_wf|]. split.
  - intros m e. destruct (decide (m = n)) as [->|Hne].
    + rewrite bm_get_insert_eq. intros [= <-]. split; [by right|].
      intros c' [Hq|[= ->]]; [auto|apply beats_irrefl].
    + rewrite bm_get_insert_ne by congruence. intros He. destruct (Hb _ _ He) as [Hq Hbest].
      split; [by left|]. intros c' [?|[= -> _]]; [auto|done].
  - intros m e Hq. destruct (decide (m = n)) as [->|Hne]; [by rewrite bm_get_insert_eq|].
    rewrite bm_get_insert_ne by congruence. destruct Hq as [Hq|[= -> _]]; [by eapply Ha|done].
Qed.

Lemma best_offer cs Q n c : best cs Q -> best (offer cs n c) (fun t => Q t \/ t = (n, c)).
Proof.
  intros HB. pose proof HB as (Hwf & Hb & Ha). unfold offer.
  destruct (bm_get n cs) as [d|] eqn:E; [destruct (beats c d) eqn:Hcd|].
  - apply best_insert; [done|]. intros c' Hq. eapply beats_trans; [exact Hcd|]. by apply (Hb n d).
  - split; [done|]. split.
    + intros m e He. destruct (Hb _ _ He) as [Hq Hbest]. split; [by left|].
      intros c' [?|[= -> ->]]; [auto|]. by rewrite E in He; injection He as <-.
    + intros m e [Hq|[= -> ->]]; [by eapply Ha|by rewrite E].
  - apply best_insert; [done|]. intros c' Hq. apply Ha in Hq as [? Hq]. congruence.
Qed.

(** ** Lemmas: groups *)

Section MergeLemmas.
Context {W : Type} `{HostFs W} (app_dir runtime_dir : path) (w : W).

(** The candidates one merge of a mount offers. *)
Definition merge_offers (m : ExtensionMount) (merge : ExtensionMergeMount) (t : pathbuf * (string * Candidate)) : Prop :=
  exists entries e,
    t.1 = components (merge_target merge) /\
    read_dir w (extension_source m merge) = inl entries /\ inl e ∈ entries /\
    t.2 = (file_name e, mkCandidate (priority m) (em_ref_name m) (join_path (extension_source m merge) (file_name e))).

(** Every group holds its best candidates. *)
Definition groups_best (gs : groups) (P : pathbuf * (string * Candidate) -> Prop) : Prop :=
  bm_wf gs /\ forall t, best (default [] (snd <$> bm_get t gs)) (fun nc => P (t, nc)).

Lemma groups_best_ext gs P Q : (forall t, P t <-> Q t) -> groups_best gs P -> groups_best gs Q.
Proof. intros E [Hwf Hb]. split; [done|]. intros t. eapply best_ext; [|apply Hb]. intros nc. apply E. Qed.

Lemma groups_best_nil : groups_best [] (fun _ => False).
Proof.
  split; [constructor|]. intros t. cbn. split; [constructor|]. split; [done|]. by intros ? ? [].
Qed.

(** A group is replaced by one that holds its best candidates too. *)
Lemma groups_best_insert gs P t b cs Q :
  groups_best gs P -> best cs (fun nc => P (t, nc) \/ Q nc) ->
  groups_best (bm_insert t (b, cs) gs) (fun x => P x \/ (x.1 = t /\ Q x.2)).
Proof.
  intros [Hwf Hb] Hcs. split; [by apply bm_insert_wf|]. intros u. destruct (decide (u = t)) as [->|Hne].
  - rewrite bm_get_insert_eq. cbn. eapply best_ext; [|exact Hcs]. naive_solver.
  - rewrite bm_get_insert_ne by congruence. eapply best_ext; [|apply Hb]. naive_solver.
Qed.

Lemma add_merge_best m gs merge gs' P :
  groups_best gs P -> add_merge app_dir runtime_dir w m gs merge = Ok gs' ->
  groups_best gs' (fun t => P t \/ merge_offers m merge t).
Proof.
  intros Hg Hr. unfold add_merge in Hr. inv_ok. cbn in Hr.
  pose proof (proj2 Hg (components (merge_target merge))) as Hb.
  set (group := default (r, []) (bm_get (components (merge_target merge)) gs)) in *.
  assert (group.2 = default [] (snd <$> bm_get (components (merge_target merge)) gs)) as Eg
    by (unfold group; by destruct (bm_get _ gs)).
  rewrite <- Eg in Hb. destruct (read_dir w (extension_source m merge)) as [entries|e] eqn:Er; inv_ok; subst.
  - eapply groups_best_ext; [|eapply (groups_best_insert _ _ _ _ _ (fun nc => exists entry, entry ∈ entries /\ exists e, entry = inl e /\
      nc = (file_name e, mkCandidate (priority m) (em_ref_name m) (join_path (extension_source m merge) (file_name e)))));
      [exact Hg|]].
    + intros [t nc]. cbn. unfold merge_offers. rewrite Er. cbn. naive_solver.
    + eapply (fold_result_collect best); [apply best_ext| |exact Hb|eassumption].
      intros cs entry cs' Q Hin Hcs Hf. inv_ok. destruct entry as [e|e]; [|done]. cbn in *. inv_ok. subst.
      eapply best_ext; [|by apply best_offer]. naive_solver.
  - destruct group as [b cs]. cbn in *. eapply groups_best_ext; [|eapply (groups_best_insert _ _ _ b cs (fun _ => False)); [exact Hg|]].
    + intros [t nc]. cbn. unfold merge_offers. rewrite Er. naive_solver.
    + eapply best_ext; [|exact Hb]. naive_solver.
Qed.
End MergeLemmas.

Section MergeResult.
Context {W : Type} `{HostFs W} (app_dir runtime_dir : path) (w : W).

(** What the mounts of a plan offer for a target directory and a name. *)
Definition offered (plan : ExtensionMountPlan) (t : pathbuf) (n : string) (c : Candidate) : Prop :=
  exists m, m ∈ plan /\ exists merge, merge ∈ em_merge_dirs m /\ merge_offers w m merge (t, (n, c)).

Lemma all_groups_best plan gs :
  fold_result (fun gs m => fold_result (add_merge app_dir runtime_dir w m) (em_merge_dirs m) gs) plan [] = Ok gs ->
  groups_best gs (fun t => offered plan t.1 t.2.1 t.2.2).
Proof.
  intros Hr. eapply groups_best_ext; [|eapply (fold_result_collect groups_best); [apply groups_best_ext| |apply groups_best_nil|exact Hr]].
  2: { intros gs1 m gs2 P _ Hg Hf. cbv beta in Hf.
       eapply (fold_result_collect groups_best); [apply groups_best_ext| |exact Hg|exact Hf].
       intros gs3 merge gs4 Q _ Hg3 Ha. by eapply add_merge_best. }
  intros [t [n c]]. unfold offered. cbn. naive_solver.
Qed.

Lemma beats_false c c' :
  beats c' c = false <->
  (cand_priority c' < cand_priority c)%Z \/
  cand_priority c' = cand_priority c /\ leb (cand_ref_name c) (cand_ref_name c') = true.
Proof.
  unfold beats, leb, ltb_of. rewrite (cmp_antisym (cand_ref_name c') (cand_ref_name c)).
  destruct (Z.ltb_spec (cand_priority c) (cand_priority c')); cbn; [split; [done|intros [?|[? _]]; exfalso; lia]|].
  destruct (Z.eqb_spec (cand_priority c') (cand_priority c)); cbn.
  - destruct (cmp (cand_ref_name c') (cand_ref_name c)); cbn;
      (split; [intros; first [done|by right]|intros [?|[_ ?]]; first [done|exfalso; lia]]).
  - split; [left; lia|done].
Qed.
End MergeResult.

(** C39.  The merged directories hold, for every name that some payload offers in
    a target, exactly one entry, taken from a payload of the highest priority
    and among those from one with the least ref; no directory and no name
    appears twice. *)
Theorem merge_takes_highest_priority `{HostFs W} (w : W) app_dir runtime_dir plan ds :
  merge_directories app_dir runtime_dir plan w = Ok ds ->
  NoDup (map md_target ds) /\
  (forall d, d ∈ ds -> NoDup (map me_name (md_entries d))) /\
  (forall d e, d ∈ ds -> e ∈ md_entries d ->
     exists c, offered w plan (md_target d) (me_name e) c /\ me_source e = cand_source c /\
       forall c', offered w plan (md_target d) (me_name e) c' ->
         (cand_priority c' < cand_priority c)%Z \/
         cand_priority c' = cand_priority c /\ leb (cand_ref_name c) (cand_ref_name c') = true) /\
  (forall t n c, offered w plan t n c ->
     exists d e, d ∈ ds /\ md_target d = t /\ e ∈ md_entries d /\ me_name e = n).
Proof.
  unfold merge_directories. intros Hr. inv_ok. subst ds. apply all_groups_best in Hr0 as [Hwf Hb].
  set (dir := fun g : pathbuf * (path * list (string * Candidate)) => _).
  assert (forall d, d ∈ sort_by (on (fun d => (length (md_target d), md_target d))) (map dir r) <->
    exists t b cs, (t, (b, cs)) ∈ r /\ d = dir (t, (b, cs))) as Hin.
  { intros d. rewrite elem_of_sort_by, list_elem_of_fmap. split; [intros ([t [b cs]] & -> & ?)|intros (t & b & cs & ? & ->)]; eauto. }
  assert (forall t b cs, (t, (b, cs)) ∈ r -> best cs (fun nc => offered w plan t nc.1 nc.2)) as Hbest.
  { intros t b cs Hg. apply bm_get_elem in Hg; [|done]. specialize (Hb t). by rewrite Hg in Hb. }
  split; [|split; [|split]].
  - rewrite (sort_by_perm (on _) (map dir r)), map_map. by apply strict_NoDup.
  - intros d (t & b & cs & Hg & ->)%Hin. cbn. rewrite map_map. by apply strict_NoDup, (Hbest _ _ _ Hg).
  - intros d e (t & b & cs & Hg & ->)%Hin. cbn. intros ([n c] & -> & Hc)%list_elem_of_fmap.
    destruct (Hbest _ _ _ Hg) as (Hcs & Hok & _). apply bm_get_elem in Hc; [|done].
    destruct (Hok _ _ Hc) as [Ho Hm]. exists c. split; [done|]. split; [done|].
    intros c' Ho'. by apply beats_false, Hm.
  - intros t n c Ho. destruct (Hb t) as (_ & _ & Ha). destruct (Ha n c Ho) as [c' Hc'].
    destruct (bm_get t r) as [[b cs]|] eqn:E; [|done]. cbn in Hc'.
    apply bm_get_elem in E; [|done]. destruct (Hbest _ _ _ E) as (Hcs & _).
    apply bm_get_elem in Hc'; [|done].
    exists (dir (t, (b, cs))), (mkMergeEntry n (cand_source c')). split; [apply Hin; eauto|]. split; [done|].
    split; [|done]. cbn. apply list_elem_of_fmap. by exists (n, c').
Qed.

(** ** Lemmas: targets *)

(** A path lies strictly below a root when its components are the root's name
    and at least one more name. *)
Definition strictly_below (root : string) (p : path) : Prop :=
  exists cs, components p = Normal root :: cs /\ cs <> [] /\ Forall (fun c => normal c = true) cs.

Lemma valid_relative_body v :
  valid_relative_extension_path v = true ->
  v <> "" /\ is_absolute v = false /\ components v = body (split "/" v) /\ components v <> [] /\
  Forall (fun c => normal c = true) (components v).
Proof.
  unfold valid_relative_extension_path. rewrite andb_true_iff, negb_true_iff, is_empty_false.
  intros [Hne Hn]. rewrite forallb_forall in Hn. setoid_rewrite <- list_elem_of_In in Hn.
  assert (is_absolute v = false) as Ha.
  { apply not_true_iff_false. intros Ha. rewrite (components_absolute _ Ha) in Hn. by specialize (Hn RootDir ltac:(left)). }
  assert (head (split "/" v) <> Some ".") as Hd.
  { intros Hd. specialize (Hn CurDir). unfold components in Hn. rewrite front_relative, bool_decide_true in Hn by done.
    by specialize (Hn ltac:(left)). }
  assert (components v = body (split "/" v)) as E by (by apply components_relative).
  split; [done|]. split; [done|]. split; [done|]. split; [|by rewrite Forall_forall].
  rewrite E. destruct (split "/" v) as [|p ps] eqn:Es; [by pose proof (split_ne "/" v)|].
  rewrite body_keep; [done|]. unfold skipped. apply orb_false_iff. split.
  - apply is_empty_false. intros ->. apply not_true_iff_false in Ha. apply Ha, is_absolute_split.
    exists ps. split; [done|]. intros ->. pose proof (join_split "/" v) as J. rewrite Es in J. cbn in J. congruence.
  - apply String.eqb_neq. intros ->. by apply Hd.
Qed.

Lemma strictly_below_join root p v :
  strictly_below root p -> valid_relative_extension_path v = true -> strictly_below root (join_path p v).
Proof.
  intros (cs & E & Hne & Hcs) Hv. apply valid_relative_body in Hv as (Hv & Ha & Ev & _ & Hn).
  exists (cs ++ components v). rewrite components_join by (by try intros ->).
  rewrite E, Ev. split; [done|]. split; [by destruct cs|]. apply Forall_app. by rewrite <- Ev.
Qed.

Lemma scope_root_join s v :
  valid_relative_extension_path v = true -> strictly_below (scope_root s) (join_path (scope_root s) v).
Proof.
  intros Hv. apply valid_relative_body in Hv as (_ & Ha & Ev & Hne & Hn). exists (components v).
  rewrite components_join by (by destruct s). rewrite <- Ev. by destruct s.
Qed.

(** What follows a point's name in a valid identifier is a single file name. *)
Lemma id_suffix_name_ok n p suffix :
  validate_id n = None -> n = p +:+ "." +:+ suffix -> name_ok suffix.
Proof.
  intros Hid ->. pose proof (validate_id_no_slash _ Hid) as Hs. apply validate_id_grammar in Hid as (_ & _ & Hg).
  assert (Forall (fun s => s <> "") (split "." suffix)) as Hf.
  { change (p +:+ "." +:+ suffix) with (p +:+ String "." suffix) in Hg. rewrite split_app_sep in Hg.
    apply Forall_forall. intros s [i Hi]%list_elem_of_lookup.
    destruct (Hg (length (split "." p) + i) s) as (c & r & Hc & _).
    - by rewrite lookup_app_r, Nat.add_comm, Nat.add_sub by lia.
    - intros ->. done. }
  rewrite !has_app in Hs. apply orb_false_iff in Hs as [_ Hs]. apply orb_false_iff in Hs as [_ Hs].
  rewrite Forall_forall in Hf.
  split; [done|]. split.
  - unfold skipped. apply orb_false_iff. rewrite is_empty_false, String.eqb_neq. split; intros ->; by apply (Hf ""); [left|].
  - intros ->. by apply (Hf ""); [left|].
Qed.

Lemma mount_target_below p r s t n :
  mount_target p r s = Ok t -> runtime_name r = Some n -> validate_id n = None -> strictly_below (scope_root s) t.
Proof.
  intros Hr Hn Hid. unfold mount_target in Hr. inv_ok. destruct (valid_relative_extension_path r0) eqn:Hd; [|done].
  cbn [negb] in Hr. inv_ok.
  assert (strictly_below (scope_root s) r1) as Hb.
  { destruct (subdirectories p); inv_ok; subst; [|by apply scope_root_join].
    rewrite Hn in Hr2. cbn [default] in Hr2. apply strip_prefix_Some in Hr2.
    rewrite !fmt_cons, fmt_nil, sapp_nil_r, sapp_assoc in Hr2.
    pose proof (id_suffix_name_ok _ _ _ Hid Hr2) as Hok.
    destruct (scope_root_join s r0 Hd) as (cs & E & Hne & Hcs).
    exists (cs ++ [Normal r2]). rewrite components_join_name, E by (try done; intros E0; by rewrite E0 in E).
    split; [done|]. split; [by destruct cs|]. apply Forall_app. split; [done|by constructor]. }
  destruct (subdirectory_suffix p) as [suffix|]; inv_ok; [|by subst].
  destruct (valid_relative_extension_path suffix) eqn:Hs; cbn [negb] in Hr; inv_ok. subst.
  by apply strictly_below_join.
Qed.

(** ** Lemmas: the plan *)

Lemma installed_record runtimes ref_name record :
  bm_get ref_name (foldl (fun m r => bm_insert (full_runtime_ref r) r m) [] runtimes) = Some record ->
  record ∈ runtimes /\ full_runtime_ref record = ref_name.
Proof.
  enough (forall m, bm_get ref_name (foldl (fun m r => bm_insert (full_runtime_ref r) r m) m runtimes) = Some record ->
    bm_get ref_name m = Some record \/ record ∈ runtimes /\ full_runtime_ref record = ref_name) as H.
  { intros Hg. by destruct (H [] Hg) as [?|?]. }
  induction runtimes as [|r runtimes IH]; cbn [foldl]; intros m Hg; [by left|].
  destruct (IH _ Hg) as [Hm|[Hin E]]; [|by right; split; [right|]].
  destruct (decide (ref_name = full_runtime_ref r)) as [->|Hne].
  - rewrite bm_get_insert_eq in Hm. injection Hm as ->. right. by split; [left|].
  - rewrite bm_get_insert_ne in Hm by congruence. by left.
Qed.

Section PlanLemmas.
Context {W : Type} `{FileOps W} (i : Installation) (facts : ExtensionFacts).

(** Where a mount of a plan comes from. *)
Definition planned (w : W) (installed : list (string * RuntimeRecord)) (m : ExtensionMount) : Prop :=
  exists s p ref_name record,
    bm_get ref_name installed = Some record /\ launch_enabled p ref_name facts = true /\
    extension_mount i facts w s p ref_name record = Ok m.

Lemma resolve_metadata_mounts_planned available installed w parent_dir parent_ref s mounts mounts' :
  resolve_metadata_mounts i facts available installed w parent_dir parent_ref s mounts = Ok mounts' ->
  Forall (planned w installed) mounts -> Forall (planned w installed) mounts'.
Proof.
  unfold resolve_metadata_mounts. intros Hr Hm. inv_ok.
  refine (fold_result_inv _ (Forall (planned w installed)) _ _ _ _ Hm Hr).
  intros ms ref_name ms' _ Hms Hstep. destruct (point_for_ref _ _ _) as [p|]; [|by injection Hstep as <-].
  destruct (launch_enabled p ref_name facts) eqn:Hl; cbn [negb] in Hstep; [|by injection Hstep as <-].
  destruct (bm_get ref_name installed) as [record|] eqn:Hg; [|by injection Hstep as <-].
  inv_ok. subst ms'. apply Forall_app. split; [done|]. constructor; [|done]. by exists s, p, ref_name, record.
Qed.

(** A plan is the sorted list of mounts made from the installed runtimes. *)
Lemma resolve_plan_planned app w plan w' :
  resolve_extension_mount_plan i app facts w = (Ok plan, w') ->
  exists runtimes mounts, list_runtimes i w = (Ok runtimes, w') /\ plan = sort_by (on mount_key) mounts /\
    Forall (planned w' (foldl (fun m r => bm_insert (full_runtime_ref r) r m) [] runtimes)) mounts.
Proof.
  unfold resolve_extension_mount_plan. intros Hr.
  apply M_bind_ok in Hr as (marker & w1 & Hm & Hr). unfold getr in Hm. injection Hm as _ <-.
  apply M_bind_ok in Hr as (app_ref & w1 & Ha & Hr). unfold lift in Ha. injection Ha as _ <-.
  apply M_bind_ok in Hr as (runtimes & w1 & Hl & Hr). unfold getr in Hr. injection Hr as Hr <-.
  inv_ok. exists runtimes, r0. split; [done|]. split; [done|].
  eapply resolve_metadata_mounts_planned; [exact Hr1|].
  eapply resolve_metadata_mounts_planned; [exact Hr0|constructor].
Qed.

Lemma planned_mount w installed m :
  planned w installed m ->
  exists s p ref_name record, bm_get ref_name installed = Some record /\ launch_enabled p ref_name facts = true /\
    em_ref_name m = ref_name /\ em_commit m = runtime_commit record /\
    checkout_dir m = absolute_data_path i (runtime_dir record) /\ scope m = s /\
    validate_extension_checkout ref_name (checkout_dir m) w = Ok tt /\
    mount_target p ref_name s = Ok (target m) /\ merge_mounts p s = Ok (em_merge_dirs m).
Proof.
  intros (s & p & ref_name & record & Hg & Hl & He). unfold extension_mount in He. inv_ok. subst m.
  destruct r. exists s, p, ref_name, record. done.
Qed.
End PlanLemmas.

Lemma mount_key_depth x y : on mount_key x y = true -> depth (target x) <= depth (target y).
Proof.
  unfold on, leb, mount_key, path_depth. rewrite !cmp_pair.
  destruct (cmp (length (components (target x))) (length (components (target y)))) eqn:E; [apply cmp_eq in E; unfold depth; lia| |done].
  intros _. unfold cmp, ord_nat in E. apply Nat.compare_lt_iff in E. unfold depth. lia.
Qed.

(** Every mount of a launch plan, and every directory it merges into, lies
    strictly below the root of its scope ([app] or [usr]) whatever the metadata
    says, as long as the payload's identifier is a valid one; no parent
    component and no absolute path lets a payload be mounted elsewhere. *)
Theorem extension_targets_stay_in_scope `{FileOps W} (w : W) i app facts plan w' m :
  resolve_extension_mount_plan i app facts w = (Ok plan, w') -> m ∈ plan ->
  (forall n, runtime_name (em_ref_name m) = Some n -> validate_id n = None ->
     strictly_below (scope_root (scope m)) (target m)) /\
  (forall merge, merge ∈ em_merge_dirs m -> strictly_below (scope_root (scope m)) (merge_target merge)).
Proof.
  intros (runtimes & mounts & _ & -> & Hp)%resolve_plan_planned Hm. rewrite elem_of_sort_by in Hm.
  rewrite Forall_forall in Hp.
  destruct (planned_mount _ _ _ _ _ (Hp _ Hm)) as (s & p & r & record & _ & _ & -> & _ & _ & -> & _ & Ht & Hd).
  split; [intros n Hn Hid; by eapply mount_target_below|].
  intros merge Hin. unfold mount_target in Ht. inv_ok.
  destruct (valid_relative_extension_path r0) eqn:Hv; [|done].
  destruct (elem_of_map_result _ _ _ _ Hd Hin) as (d & _ & Hmerge).
  destruct (valid_relative_extension_path d) eqn:Hvd; cbn [negb] in Hmerge; inv_ok. subst merge. cbn.
  apply strictly_below_join; [|done]. rewrite Hr. by apply scope_root_join.
Qed.

(** Every mount of a launch plan comes from an installed runtime record,
    carries its ref, commit and deployment directory, and the payload in that
    directory passed its validation for that ref. *)
Theorem extension_mounts_are_installed `{FileOps W} (w : W) i app facts plan w' :
  resolve_extension_mount_plan i app facts w = (Ok plan, w') ->
  exists runtimes, list_runtimes i w = (Ok runtimes, w') /\
    forall m, m ∈ plan -> exists record, record ∈ runtimes /\
      em_ref_name m = full_runtime_ref record /\ em_commit m = runtime_commit record /\
      checkout_dir m = absolute_data_path i (runtime_dir record) /\
      validate_extension_checkout (em_ref_name m) (checkout_dir m) w' = Ok tt.
Proof.
  intros (runtimes & mounts & Hl & -> & Hp)%resolve_plan_planned. exists runtimes. split; [done|].
  intros m Hm. rewrite elem_of_sort_by in Hm. rewrite Forall_forall in Hp.
  destruct (planned_mount _ _ _ _ _ (Hp _ Hm)) as (s & p & r & record & Hg & _ & Er & Ec & Ed & _ & Hv & _).
  apply installed_record in Hg as [Hin E]. exists record. by rewrite Er, E.
Qed.

(** Mounts are planned outside in: a mount whose target lies inside
    another's comes after it. *)
Theorem extension_mounts_nest `{FileOps W} (w : W) i app facts plan w' j k g h :
  resolve_extension_mount_plan i app facts w = (Ok plan, w') ->
  plan !! j = Some g -> plan !! k = Some h ->
  path_starts_with (target h) (target g) = true -> path_eqb (target h) (target g) = false -> j < k.
Proof.
  intros (runtimes & mounts & _ & -> & _)%resolve_plan_planned Hj Hk Hp Hne.
  eapply (sorted_by_depth target mount_key); [|apply sort_on_sorted|exact Hj|exact Hk|exact Hp|exact Hne].
  intros x y. apply mount_key_depth.
Qed.

(** ** A concrete launch *)

Definition example_plugin (n : string) : RuntimeRecord :=
  mkRuntime "flathub" (fmt ["org.a.App."; n; "/x86_64/stable"]) "feed" 7 false (fmt ["runtimes/"; n]).
Definition example_launch : FlatpakApp :=
  mkFlatpakApp "org.a.App" "/data/apps/a" "org.p.Platform/x86_64/24.08" "/data/runtimes/p" "run" [].
Definition example_metadata : list string :=
  ["[Extension org.a.App.Plugin]"; "directory=plugins"; "version=stable"; "subdirectories=true"; "merge-dirs=data";
   "[Extension org.a.App.Deep]"; "directory=plugins/Foo/deep"; "version=stable"].

(** The files of an installed plugin. *)
Definition plugin_files (n : string) (prio : string) : list (list component * string) :=
  [(components (fmt ["/data/refs/runtimes/"; n; ".ini"]), kv (runtime_entries (example_plugin n)));
   (components (fmt ["/data/runtimes/"; n; "/.ostree-commit"]),
    fmt (map end_line [full_runtime_ref (example_plugin n); "feed"; "7"; "flathub"]));
   (components (fmt ["/data/runtimes/"; n; "/metadata"]),
    fmt (map end_line ["[Runtime]"; fmt ["name=org.a.App."; n]; "[ExtensionOf]"; fmt ["priority="; prio]]));
   (components (fmt ["/data/runtimes/"; n; "/files/data/icon"]), n)].
Definition plugin_dirs (n : string) : list path :=
  [fmt ["/data/runtimes/"; n]; fmt ["/data/runtimes/"; n; "/files"]; fmt ["/data/runtimes/"; n; "/files/data"]].

Definition example_extension_tree : TreeFs :=
  mkTree (map components (["/"; "/data"; "/data/refs/apps"; "/data/refs/runtimes"]
                          ++ plugin_dirs "Plugin.Foo" ++ plugin_dirs "Plugin.Bar" ++ plugin_dirs "Deep"))
    ([(components "/data/runtimes/p/metadata", ""); (components "/data/apps/a/metadata", fmt (map end_line example_metadata))]
     ++ plugin_files "Plugin.Foo" "1" ++ plugin_files "Plugin.Bar" "5" ++ plugin_files "Deep" "0").
Definition no_facts : ExtensionFacts := detect None None None false None.
Definition example_plan : result ExtensionMountPlan * TreeFs :=
  resolve_extension_mount_plan example_installation example_launch no_facts example_extension_tree.

Lemma extension_targets_stay_in_scope_witness :
  match example_plan with
  | (Ok plan, _) => exists m, m ∈ plan /\ target m = "app/plugins/Foo" /\ strictly_below "app" (target m)
  | _ => False
  end.
Proof.
  destruct example_plan as [[plan|e] w'] eqn:E; [|vm_compute in E; discriminate E].
  destruct (plan !! 1) as [m|] eqn:Em; [|vm_compute in E; injection E as <- _; discriminate Em].
  assert (m ∈ plan) as Hm by (by eapply list_elem_of_lookup_2).
  pose proof (extension_targets_stay_in_scope _ _ _ _ _ _ _ E Hm) as [Ht _].
  exists m. split; [exact Hm|].
  vm_compute in E. injection E as <- _. vm_compute in Em. injection Em as <-.
  split; [reflexivity|]. exact (Ht "org.a.App.Plugin.Foo" eq_refl eq_refl).
Defined.

Lemma extension_mounts_are_installed_witness :
  match example_plan with
  | (Ok plan, w') => length plan = 3 /\ exists runtimes, list_runtimes example_installation example_extension_tree = (Ok runtimes, w') /\
      forall m, m ∈ plan -> exists record, record ∈ runtimes /\ em_commit m = runtime_commit record
  | _ => False
  end.
Proof.
  destruct example_plan as [[plan|e] w'] eqn:E; [|vm_compute in E; discriminate E].
  split; [vm_compute in E; injection E as <- _; reflexivity|].
  destruct (extension_mounts_are_installed _ _ _ _ _ _ E) as (runtimes & Hl & Hp).
  exists runtimes. split; [exact Hl|]. intros m Hm. destruct (Hp m Hm) as (record & ? & _ & ? & _). by exists record.
Defined.

Lemma extension_mounts_nest_witness :
  match example_plan with
  | (Ok plan, _) => exists j k g h, plan !! j = Some g /\ plan !! k = Some h /\
      target g = "app/plugins/Foo" /\ target h = "app/plugins/Foo/deep" /\ j < k
  | _ => False
  end.
Proof.
  destruct example_plan as [[plan|e] w'] eqn:E; [|vm_compute in E; discriminate E].
  destruct (plan !! 1) as [g|] eqn:Eg; [|vm_compute in E; injection E as <- _; discriminate Eg].
  destruct (plan !! 2) as [h|] eqn:Eh; [|vm_compute in E; injection E as <- _; discriminate Eh].
  pose proof (extension_mounts_nest _ _ _ _ _ _ 1 2 g h E Eg Eh) as Hn.
  exists 1, 2, g, h. split; [exact Eg|]. split; [exact Eh|].
  vm_compute in E. injection E as <- _. vm_compute in Eg, Eh. injection Eg as <-. injection Eh as <-.
  split; [reflexivity|]. split; [reflexivity|]. apply Hn; reflexivity.
Defined.

Lemma merge_takes_highest_priority_witness :
  match example_plan with
  | (Ok plan, w) =>
      match merge_directories "/data/apps/a" "/data/runtimes/p" plan w with
      | Ok ds => exists d e, d ∈ ds /\ e ∈ md_entries d /\ me_source e = "/data/runtimes/Plugin.Bar/files/data/icon" /\
          exists c, offered w plan (md_target d) (me_name e) c /\ me_source e = cand_source c
      | Err _ => False
      end
  | _ => False
  end.
Proof.
  destruct example_plan as [[plan|e] w] eqn:E; [|vm_compute in E; discriminate E].
  destruct (merge_directories "/data/apps/a" "/data/runtimes/p" plan w) as [ds|err] eqn:Ed;
    [|vm_compute in E; injection E as <- <-; vm_compute in Ed; discriminate Ed].
  destruct (merge_takes_highest_priority _ _ _ _ _ Ed) as (_ & _ & Hb & _).
  destruct (ds !! 0) as [d|] eqn:E0; [|vm_compute in E; injection E as <- <-; vm_compute in Ed; injection Ed as <-; discriminate E0].
  destruct (md_entries d !! 0) as [en|] eqn:E1;
    [|vm_compute in E; injection E as <- <-; vm_compute in Ed; injection Ed as <-; injection E0 as <-; discriminate E1].
  apply list_elem_of_lookup_2 in E0 as Hd. apply list_elem_of_lookup_2 in E1 as He.
  exists d, en. split; [exact Hd|]. split; [exact He|]. split.
  - vm_compute in E. injection E as <- <-. vm_compute in Ed. injection Ed as <-. injection E0 as <-. injection E1 as <-. reflexivity.
  - destruct (Hb d en Hd He) as (c & Ho & Hs & _). by exists c.
Defined.
