(* ===== verification/ApplicationEntry.v ===== *)
(** * ApplicationEntry: which program of an application is run, and as whom
    (src/src/sandbox/launch_application.rs, application_entrypoint.rs and
    sandbox_identity.rs)

    An installed application is read into a [FlatpakApp]; its command becomes a
    path inside the sandbox and the arguments of the program; the user becomes
    the two files /etc/passwd and /etc/group.  The output of id(1), the
    environment and what glib knows about the user are arguments.  Paths are
    shown as they are, which is what [display] does with UTF-8. *)
From Stdlib Require Import Ascii String NArith ZArith Lia.
From stdpp Require Import base list strings sets.
From S2P Require Import Prelude Effects Collections RustStr RustNum RustPath HostFs FlatpakMetadata FlatpakRef InstallationPaths Records ExtensionPoints Activation.

(** ** launch_application.rs *)

Record ResolveAppOptions := mkOptions {
  opt_app_dir : option path;
  opt_runtime_ref : option string;
  opt_runtime_dir : option path;
  opt_entry : option string;
  opt_args : list string;
}.

Section Resolve.
Context {W : Type} `{FileOps W}.

Definition validate_checkout_dir (kind : string) (dir : path) (w : W) : result unit :=
  if negb (is_dir w dir) then bail (fmt [kind; " checkout directory does not exist: "; dir])
  else
    let files := join_path dir "files" in
    if negb (is_dir w files) then bail (fmt [kind; " checkout is missing files directory: "; files]) else Ok tt.

Definition resolve_app (i : Installation) (app_id : string) (options : ResolveAppOptions) (w : W) : result FlatpakApp :=
  if has "/" app_id then bail (fmt ["app id must not contain '/': "; app_id])
  else
    let app_dir := default (InstallationPaths.app i app_id) (opt_app_dir options) in
    let metadata_path := join_path app_dir "metadata" in
    metadata ← io_context (fmt ["read Flatpak metadata "; metadata_path]) (read_to_string w metadata_path);
    metadata_app_id ← ok_or (fmt ["metadata has no Application/name in "; metadata_path]) (value metadata "Application" "name");
    if negb (String.eqb metadata_app_id app_id) then
      bail (fmt ["metadata app id mismatch: requested "; app_id; ", checkout contains "; metadata_app_id])
    else
      metadata_runtime_ref ← ok_or (fmt ["metadata has no Application/runtime in "; metadata_path])
        (value metadata "Application" "runtime");
      let runtime_ref := default metadata_runtime_ref (opt_runtime_ref options) in
      command ← ok_or (fmt ["metadata has no Application/command in "; metadata_path])
        (match opt_entry options with Some e => Some e | None => value metadata "Application" "command" end);
      if negb (Nat.eqb (length (split_whitespace command)) 1) then
        bail (fmt ["entry command must be a single executable: "; debug_str command])
      else
        let runtime_dir := default (join_path (runtimes i) (runtime_checkout_dir runtime_ref)) (opt_runtime_dir options) in
        _ ← validate_checkout_dir "app" app_dir w;
        _ ← validate_checkout_dir "runtime" runtime_dir w;
        Ok (mkFlatpakApp app_id app_dir runtime_ref runtime_dir command (opt_args options)).

(** ** application_entrypoint.rs *)

Definition app_uses_electron_base (metadata : string) : bool :=
  match value metadata "Application" "base" with
  | Some base => starts_with "app/org.electronjs.Electron2.BaseApp/" base
  | None => false
  end.

Definition app_requests_socket (metadata socket : string) : bool :=
  match value metadata "Context" "sockets" with
  | Some sockets => existsb (fun e => String.eqb e socket) (split ";" sockets)
  | None => false
  end.

Definition has_ozone_platform_arg (args : list string) : bool :=
  existsb (fun a => String.eqb a "--ozone-platform" || starts_with "--ozone-platform=" a) args.

Definition compatibility_args (app : FlatpakApp) (translated_args : list string) (w : W) : result (list string) :=
  if has_ozone_platform_arg translated_args then Ok []
  else
    let metadata_path := join_path (fa_app_dir app) "metadata" in
    metadata ← io_context (fmt ["read Flatpak metadata "; metadata_path]) (read_to_string w metadata_path);
    if app_uses_electron_base metadata && app_requests_socket metadata "wayland" then Ok ["--ozone-platform=wayland"]
    else Ok [].

Definition launch_args (app : FlatpakApp) (translated_args : list string) (w : W) : result (list string) :=
  args ← compatibility_args app translated_args w;
  Ok (args ++ translated_args).

Record EntryLaunch := mkEntryLaunch { chroot_path : string }.

Definition entry_display (e : EntryLaunch) (args : list string) : string :=
  foldl (fun d a => fmt [d; " "; a]) (chroot_path e) args.
Definition command_args (e : EntryLaunch) (args : list string) : list string := chroot_path e :: args.

Definition host_app_path (app_files : path) (chroot_path : string) : result path :=
  match strip_prefix "/app/" chroot_path with
  | Some relative => Ok (join_path app_files relative)
  | None =>
      if starts_with "/" chroot_path then bail (fmt ["entry path must be inside /app: "; chroot_path])
      else Ok (join_path (join_path app_files "bin") chroot_path)
  end.

Definition chroot_entry_path (command : string) : string :=
  if starts_with "/" command then command else fmt ["/app/bin/"; command].

Definition resolve_entry (app : FlatpakApp) (w : W) : result EntryLaunch :=
  let app_files := join_path (fa_app_dir app) "files" in
  let chroot_path := chroot_entry_path (fa_command app) in
  host_entry ← host_app_path app_files chroot_path;
  match symlink_kind w host_entry with
  | inr _ => bail (fmt ["entry executable does not exist: "; host_entry])
  | inl _ => Ok (mkEntryLaunch chroot_path)
  end.
End Resolve.

Definition sandbox_name (app_id : string) : string :=
  fmt (map (fun ch =>
    if ascii_char (fun a => is_alnum a || Ascii.eqb a "." || Ascii.eqb a "-" || Ascii.eqb a "_") ch then ch else "_")
    (chars app_id)).

(** [Output] of a command: its status, shown, and its standard output. *)
Record Output := mkOutput { out_success : bool; out_status : string; out_stdout : string }.

Section Commands.
Context (output : string -> string -> io_result Output).

Definition command_text (program arg : string) : result string :=
  o ← io_context (fmt ["run "; program; " "; arg]) (output program arg);
  if negb (out_success o) then bail (fmt [program; " "; arg; " failed with status "; out_status o])
  else ok_or "invalid utf-8 sequence" (from_utf8 (out_stdout o)).

Definition parse_id (v : string) : result Z := ok_or (fmt ["parse numeric id from "; debug_str v]) (parse_u32 v).
Definition numeric_id (program arg : string) : result Z :=
  text ← command_text program arg;
  parse_id (trim text).
Definition numeric_ids (program arg : string) : result (list Z) :=
  text ← command_text program arg;
  map_result parse_id (split_whitespace text).

Definition host_user (env_var : string -> option string) (uid : Z) : string := default (show_Z uid) (env_var "USER").

(** ** sandbox_identity.rs *)

Record SandboxIdentity := mkIdentity {
  id_uid : Z;
  id_gid : Z;
  id_user_name : string;
  id_group_name : option string;
  id_real_name : string;
  id_home_dir : path;
}.

Definition DEFAULT_SHELL : string := "/bin/sh".

Definition validate_field (label v : string) : result unit :=
  if has ":" v || has LF v || has CR v then bail (fmt ["host "; label; " cannot be represented in a sandbox identity file"])
  else Ok tt.

Definition new_identity (uid gid : Z) (user_name : string) (group_name : option string) (real_name : string) (home_dir : path)
    : result SandboxIdentity :=
  _ ← validate_field "user name" user_name;
  let group_name := g ← group_name; if is_empty g then None else Some g in
  _ ← (match group_name with Some g => validate_field "group name" g | None => Ok tt end);
  _ ← validate_field "real name" real_name;
  _ ← validate_field "home directory" home_dir;
  if negb (is_absolute home_dir) then bail (fmt ["host home directory is not absolute: "; home_dir])
  else Ok (mkIdentity uid gid user_name group_name real_name home_dir).

Definition primary_group_name : option string :=
  o ← io_ok (output "id" "-gn");
  if negb (out_success o) then None
  else
    text ← from_utf8 (out_stdout o);
    let name := trim text in
    if is_empty name then None else Some name.

Definition from_current_process (glib_user_name glib_real_name : string) (glib_home_dir : path) (uid gid : Z)
    : result SandboxIdentity :=
  new_identity uid gid glib_user_name primary_group_name glib_real_name glib_home_dir.
End Commands.

Definition passwd_contents (i : SandboxIdentity) : string :=
  fmt [id_user_name i; ":x:"; show_Z (id_uid i); ":"; show_Z (id_gid i); ":"; id_real_name i; ":"; id_home_dir i; ":";
       DEFAULT_SHELL; nl; "nfsnobody:x:65534:65534:Unmapped user:/:/sbin/nologin"; nl].

Definition group_contents (i : SandboxIdentity) : string :=
  fmt [match id_group_name i with
       | Some g => fmt [g; ":x:"; show_Z (id_gid i); ":"; id_user_name i; nl]
       | None => ""
       end; "nfsnobody:x:65534:"; nl].

(** ** Reading the identity files *)

(** passwd(5) and group(5): lines of fields between colons. *)
Definition database (contents : string) : list (list string) := map (split ":") (lines contents).

Definition identity_fields (i : SandboxIdentity) : list string :=
  [id_user_name i; id_real_name i; id_home_dir i] ++ option_list (id_group_name i).

Lemma validate_field_ok label v : validate_field label v = Ok tt <-> has ":" v = false /\ has LF v = false /\ has CR v = false.
Proof. unfold validate_field, bail. destruct (has ":" v), (has LF v), (has CR v); cbn; intuition congruence. Qed.

(** What the identity files can represent. *)
Lemma new_identity_fields uid gid user group real home i : new_identity uid gid user group real home = Ok i ->
  Forall (fun v => has ":" v = false /\ has LF v = false /\ has CR v = false) (identity_fields i) /\
  id_uid i = uid /\ id_gid i = gid /\ id_user_name i = user /\ id_real_name i = real /\ id_home_dir i = home /\
  id_group_name i = (g ← group; if is_empty g then None else Some g) /\ is_absolute home = true.
Proof.
  unfold new_identity. intros Hi. inv_ok. destruct (negb (is_absolute home)) eqn:E; [done|]. apply Ok_inj in Hi as <-.
  apply negb_false_iff in E. destruct r, r1, r2. apply validate_field_ok in Hr, Hr1, Hr2.
  split; [|done]. unfold identity_fields. cbn [id_user_name id_real_name id_home_dir id_group_name].
  apply Forall_app. split; [by rewrite !Forall_cons|].
  destruct (group ≫= _) as [g|] eqn:Eg; [|done]. destruct r0. apply validate_field_ok in Hr0. unfold option_list. cbn [option_rect].
  by rewrite Forall_cons.
Qed.

(** A line of fields is read back as the fields. *)
Lemma split_fields fs : fs <> [] -> Forall (fun f => has ":" f = false) fs -> split ":" (join ":" fs) = fs.
Proof. intros. by apply (split_join ":" fs). Qed.

Definition clean_field (f : string) : Prop := has ":" f = false /\ has LF f = false /\ has CR f = false.

Lemma has_join c fs : c <> ":"%char -> Forall (fun f => has c f = false) fs -> has c (join ":" fs) = false.
Proof.
  intros Hc F. induction F as [|f fs Hf F IH]; [done|]. destruct fs as [|g fs]; [done|].
  rewrite join_cons, !has_app, Hf, IH by done. cbn [has]. by rewrite (proj2 (Ascii.eqb_neq ":" c)) by congruence.
Qed.

Lemma strip_cr_clean l : has CR l = false -> strip_cr l = l.
Proof.
  intros Hc. unfold strip_cr. destruct (strip_suffix _ l) as [r|] eqn:E; [|done]. apply strip_suffix_Some in E as ->.
  rewrite has_app in Hc. cbn in Hc. by rewrite orb_true_r in Hc.
Qed.

Lemma database_lines fss : Forall (fun fs => fs <> [] /\ Forall clean_field fs) fss ->
  database (fmt (map (fun fs => join ":" fs +:+ nl) fss)) = fss.
Proof.
  intros F. unfold database. rewrite <- (map_map (join ":") end_line), lines_of_lines.
  - rewrite map_map. induction F as [|fs fss (Hn & Hc) F IH]; [done|]. cbn [map]. rewrite IH. f_equal.
    apply split_fields; [done|]. eapply Forall_impl; [exact Hc|]. by intros f (? & _).
  - apply Forall_map. eapply Forall_impl; [exact F|]. intros fs (_ & Hc). cbn. split; [|apply strip_cr_clean];
      apply has_join; try done; eapply Forall_impl; [exact Hc|by intros f (_ & ? & _)|exact Hc|by intros f (_ & _ & ?)].
Qed.

Lemma clean_number z : clean_field (show_Z z).
Proof.
  assert (forall n, clean_field (show_N n)) as Hn.
  { intros n. pose proof (show_N_digits n) as Hd. repeat split; by apply (all_bytes_has is_digit). }
  unfold show_Z. destruct (z <? 0)%Z; [|apply Hn]. destruct (Hn (Z.to_N (- z))) as (? & ? & ?).
  unfold clean_field. rewrite !has_app. by repeat split.
Qed.

(** The unmapped user and group. *)
Definition unmapped_user : list string := ["nfsnobody"; "x"; "65534"; "65534"; "Unmapped user"; "/"; "/sbin/nologin"].
Definition unmapped_group : list string := ["nfsnobody"; "x"; "65534"; ""].

Lemma clean_unmapped : Forall clean_field unmapped_user /\ Forall clean_field unmapped_group.
Proof. unfold unmapped_user, unmapped_group. by rewrite !Forall_cons. Qed.

(** ** Theorems *)

(** C0.  The identity files of the sandbox are read back as what they were
    written for: the user and the unmapped user, the user's group if it has a
    name and the unmapped group, and nothing else, whatever the names are. *)
Theorem identity_files_read_back uid gid user group real home i : new_identity uid gid user group real home = Ok i ->
  database (passwd_contents i) = [[user; "x"; show_Z uid; show_Z gid; real; home; "/bin/sh"]; unmapped_user] /\
  database (group_contents i) =
    (match g ← group; if is_empty g then None else Some g with Some g => [[g; "x"; show_Z gid; user]] | None => [] end)
      ++ [unmapped_group].
Proof.
  intros (F & Hu & Hg & Hn & Hr & Hh & Hgr & _)%new_identity_fields. unfold identity_fields in F.
  rewrite Hn, Hr, Hh, Hgr in F. apply Forall_app in F as [F G].
  apply Forall_cons in F as [Fu F]. apply Forall_cons in F as [Fr F]. apply Forall_cons in F as [Fh _].
  pose proof (clean_number uid) as Cu. pose proof (clean_number gid) as Cg. split.
  - unfold passwd_contents. rewrite Hu, Hg, Hn, Hr, Hh.
    etransitivity; [|apply (database_lines [[user; "x"; show_Z uid; show_Z gid; real; home; "/bin/sh"]; unmapped_user])].
    + f_equal. cbn [map join unmapped_user]. by str_norm.
    + rewrite !Forall_cons. repeat split; done || apply clean_unmapped || apply Cu || apply Cg || apply Fu || apply Fr || apply Fh.
  - unfold group_contents. rewrite Hg, Hn, Hgr. destruct (group ≫= _) as [g|].
    + unfold option_list in G. cbn [option_rect] in G. apply Forall_cons in G as [Gg _].
      etransitivity; [|apply (database_lines [[g; "x"; show_Z gid; user]; unmapped_group])].
      * f_equal. cbn [map join unmapped_group]. by str_norm.
      * rewrite !Forall_cons. repeat split; done || apply clean_unmapped || apply Cg || apply Fu || apply Gg.
    + reflexivity.
Qed.

(** The name of an application's directory of sandboxes is its identifier. *)
Lemma sandbox_name_id app_id : validate_id app_id = None -> sandbox_name app_id = app_id.
Proof. intros Hv. change (sandbox_name app_id) with (safe_name_lossy app_id). by apply safe_name_lossy_fixed, validate_id_safe. Qed.

Lemma chroot_entry_path_absolute command : starts_with "/" (chroot_entry_path command) = true.
Proof. unfold chroot_entry_path. by destruct (starts_with "/" command) eqn:E. Qed.

(** The program that is run lies in the sandbox where the file that was looked
    for lies in the deployment, as long as its path below /app is relative. *)
Theorem checked_entry_is_launched {W} `{FileOps W} app (w : W) e : fa_app_dir app <> "" ->
  resolve_entry app w = Ok e ->
  exists relative kind, chroot_path e = "/app/" +:+ relative /\ 
    symlink_kind w (join_path (join_path (fa_app_dir app) "files") relative) = inl kind /\
    (is_absolute relative = false ->
      exists rest, components (chroot_path e) = RootDir :: Normal "app" :: rest /\
        components (join_path (join_path (fa_app_dir app) "files") relative) = components (fa_app_dir app) ++ Normal "files" :: rest).
Proof.
  intros Hd. unfold resolve_entry, host_app_path. cbn zeta. intros Hr.
  destruct (strip_prefix "/app/" _) as [relative|] eqn:E; cycle 1.
  { by rewrite chroot_entry_path_absolute in Hr. }
  cbn [mbind result_bind] in Hr. destruct (symlink_kind w _) as [kind|] eqn:Ek; [|done]. apply Ok_inj in Hr as <-.
  apply strip_prefix_Some in E as Ec. exists relative, kind. split_and!; [done|done|]. intros Hrel.
  assert (join_path (fa_app_dir app) "files" <> "") as Hf.
  { unfold join_path. cbn [is_absolute]. destruct (_ || _); by destruct (fa_app_dir app). }
  exists (body (split "/" relative)). cbn [chroot_path]. rewrite Ec. split.
  - change ("/app/" +:+ relative) with ("/app" +:+ String "/" relative). by rewrite components_app_sep.
  - rewrite (components_join _ relative) by done. rewrite components_join_name; [by rewrite <- app_assoc|done|by repeat split].
Qed.

Lemma starts_slash relative : starts_with "/" ("/app/" +:+ relative) = true.
Proof. done. Qed.

(** With two slashes behind /app the file is looked for on the host: the check
    that the program exists says nothing about the application. *)
Theorem double_slash_checks_the_host {W} `{FileOps W} app relative (w : W) : is_absolute relative = true ->
  fa_command app = "/app/" +:+ relative ->
  is_ok (resolve_entry app w) = match symlink_kind w relative with inl _ => true | inr _ => false end.
Proof.
  intros Ha Hc. unfold resolve_entry, chroot_entry_path, host_app_path. rewrite Hc, starts_slash, strip_prefix_app.
  cbn [mbind result_bind]. unfold join_path at 1. rewrite Ha. by destruct (symlink_kind w relative).
Qed.

(** ** Witnesses *)

Lemma identity_files_read_back_witness :
  match new_identity 1001 1002 "u" (Some "media") "A, B" "/home/u" with
  | Ok i => database (group_contents i) = [["media"; "x"; "1002"; "u"]; unmapped_group]
  | Err _ => False
  end.
Proof.
  destruct (new_identity 1001 1002 "u" (Some "media") "A, B" "/home/u") as [i|e] eqn:E; [|vm_compute in E; discriminate E].
  exact (proj2 (identity_files_read_back _ _ _ _ _ _ _ E)).
Defined.

Definition example_app : FlatpakApp := mkFlatpakApp "org.a.App" "/d/apps/org.a.App/1" "org.freedesktop.Platform/x86_64/25.08" "/d/rt" "run-it" [].
Definition example_tree : TreeFs := mkTree [] [(components "/d/apps/org.a.App/1/files/bin/run-it", ""); (components "/bin/sh", "")].

Lemma checked_entry_is_launched_witness : exists e relative kind,
  resolve_entry example_app example_tree = Ok e /\ chroot_path e = "/app/" +:+ relative /\
  symlink_kind example_tree (join_path "/d/apps/org.a.App/1/files" relative) = inl kind.
Proof.
  destruct (resolve_entry example_app example_tree) as [e|] eqn:E; [|vm_compute in E; discriminate E].
  destruct (checked_entry_is_launched example_app example_tree e ltac:(discriminate) E) as (relative & kind & H1 & H2 & _).
  exists e, relative, kind. split; [reflexivity|]. split; [exact H1|exact H2].
Defined.

Lemma double_slash_checks_the_host_witness :
  is_ok (resolve_entry (mkFlatpakApp "org.a.App" "/d/apps/org.a.App/1" "" "" "/app//bin/sh" []) example_tree) = true.
Proof. rewrite (double_slash_checks_the_host _ "/bin/sh" example_tree); vm_compute; reflexivity. Defined.
