(* ===== verification/Uninstall.v ===== *)
(** * Uninstall: removing applications, runtimes and what nothing needs
    (src/src/cli/uninstall.rs, cli/confirmation.rs)

    The command removes an application with its related extensions, a runtime,
    or all runtimes and extensions that no application needs.  The plan for the
    unused ones is described exactly; what it and the removal of a runtime do not
    look at, the directories that running sandboxes and installations in progress
    have pinned, is shown on a concrete system. *)
From Stdlib Require Import Ascii String NArith ZArith Lia.
From stdpp Require Import base list strings sets.
From S2P Require Import ApplicationEntry Prelude Effects Collections RustStr RustNum RustPath HostFs FlatpakRef Processes InstallationPaths Records RunRecords SandboxRecovery ExtensionPoints.

(** ** confirmation.rs *)

Record TransactionOptions := mkOptions { assumeyes : bool; noninteractive : bool }.
Inductive TransactionOperation := Install | Update | Uninstall.
Record TransactionEntry := mkEntry { operation : TransactionOperation; entry_type : string; entry_ref : string }.

Definition label (o : TransactionOperation) : string :=
  match o with Install => "install" | Update => "update" | Uninstall => "uninstall" end.
Definition active_label (o : TransactionOperation) : string :=
  match o with Install => "Installing" | Update => "Updating" | Uninstall => "Uninstalling" end.

(** The terminal: [read_line] gives the line with its end, or nothing. *)
Class Terminal (W : Type) := {
  print : string -> M W unit;
  read_line : M W string;
}.

(** [{:<n}]. *)
Definition pad_right (n : nat) (s : string) : string := s +:+ fmt (repeat " " (n - String.length s)).

Section Confirmation.
Context {W : Type} `{Terminal W}.

(** [None]: still asking after so many answers. *)
Fixpoint ask (fuel : nat) : M W (option bool) :=
  match fuel with
  | 0 => mret None
  | S fuel =>
      _ ← print (nl +:+ "Proceed with these changes? [Y/n]: ");
      answer ← read_line;
      if is_empty answer then _ ← print ("Cancelled." +:+ nl); mret (Some false)
      else
        let a := to_ascii_lowercase (trim answer) in
        if existsb (String.eqb a) [""; "y"; "yes"] then mret (Some true)
        else if existsb (String.eqb a) ["n"; "no"] then _ ← print ("Cancelled." +:+ nl); mret (Some false)
        else _ ← print ("Please answer y or n." +:+ nl); ask fuel
  end.

Definition confirm_after_preview_with (fuel : nat) (options : TransactionOptions) : M W (option bool) :=
  if assumeyes options || noninteractive options then mret (Some true) else ask fuel.

Definition present_and_confirm_with (fuel : nat) (entries : list TransactionEntry) (options : TransactionOptions)
    : M W (option bool) :=
  if noninteractive options then
    _ ← for_each (fun e => print (fmt [active_label (operation e); " "; entry_ref e; nl])) entries;
    mret (Some true)
  else
    _ ← print (nl +:+ "Changes:" +:+ nl);
    _ ← print (fmt ["  "; pad_right 11 "Operation"; " "; pad_right 10 "Type"; " Ref"; nl]);
    _ ← for_each (fun e => print (fmt ["  "; pad_right 11 (label (operation e)); " "; pad_right 10 (entry_type e); " ";
                                       entry_ref e; nl])) entries;
    confirm_after_preview_with fuel options.
End Confirmation.

(** ** The command line *)

Record UninstallOptions := mkUninstall {
  transaction : TransactionOptions;
  unused : bool;
  delete_data : bool;
  no_related : bool;
  kind_filter : option RefKind;
  reference : option string;
}.

(** The options so far and the operands. *)
Definition uninstall_arg (st : UninstallOptions * list string) (arg : string) : result (UninstallOptions * list string) :=
  let '(mkUninstall t u d n k r as o, operands) := st in
  if String.eqb arg "-y" || String.eqb arg "--assumeyes"
  then Ok (mkUninstall (mkOptions true (noninteractive t)) u d n k r, operands)
  else if String.eqb arg "--noninteractive" then Ok (mkUninstall (mkOptions (assumeyes t) true) u d n k r, operands)
  else if String.eqb arg "--unused" then Ok (mkUninstall t true d n k r, operands)
  else if String.eqb arg "--delete-data" then Ok (mkUninstall t u true n k r, operands)
  else if String.eqb arg "--no-related" then Ok (mkUninstall t u d true k r, operands)
  else if String.eqb arg "--app" then k ← set_kind_filter k App; Ok (mkUninstall t u d n k r, operands)
  else if String.eqb arg "--runtime" then k ← set_kind_filter k Runtime; Ok (mkUninstall t u d n k r, operands)
  else if starts_with "-" arg then bail (fmt ["unknown uninstall option: "; arg])
  else Ok (o, operands ++ [arg]).

Definition parse_uninstall_args (args : list string) : result UninstallOptions :=
  '(mkUninstall t u d n k _, operands) ← fold_result uninstall_arg args
     (mkUninstall (mkOptions false false) false false false None None, []);
  if (1 <? length operands)%nat || (u && negb (length operands =? 0)%nat) || (negb u && (length operands =? 0)%nat) || (u && d)
  then bail "usage: flatpak uninstall [OPTION] [--unused | <ref>]"
  else Ok (mkUninstall t u d n k (last operands)).

(** ** What is unused *)

Record UnusedRemoval := mkRemoval {
  ur_ref_name : string; ur_kind : string; deployment_paths : list path; ur_runtime_ref : option string;
  ur_origins : list string }.
Record RemovedRef := mkRemoved { rf_origins : list string; rf_ref_name : string }.

(** A [BTreeSet<PathBuf>], which keeps the text of the first of equal paths. *)
Abbreviation path_set := (list (list component * path)) (only parsing).
Definition path_insert (p : path) (s : path_set) : path_set :=
  match bm_get (components p) s with Some _ => s | None => bm_insert (components p) p s end.

(** The deployments and origins of the runtimes. *)
Abbreviation candidate_map := (list (string * (path_set * list string))) (only parsing).

Definition add_candidate (i : Installation) (m : candidate_map) (r : RuntimeRecord) : candidate_map :=
  let c := default ([], []) (bm_get (runtime_ref r) m) in
  bm_insert (runtime_ref r)
    (path_insert (absolute_data_path i (runtime_dir r)) c.1, bs_insert (rt_origin r) c.2) m.

Definition installed_ref (r : RuntimeRecord) : string := fmt ["runtime/"; runtime_ref r].

(** The refs that a run record lists. *)
Definition run_extension_refs (m : values) : list string :=
  match bm_get "extension_refs" m with
  | None => []
  | Some refs => List.filter (fun n => negb (is_empty n)) (map trim (split ";" refs))
  end.

(** The runtimes that are needed, and the plan that spares them. *)
Definition runtime_roots (deployments : list AppRecord) (required : list string) (installed : list RuntimeRecord) : list string :=
  bs_extend (bs_extend (bs_of_list (map app_runtime_ref deployments)) (omap (strip_prefix "runtime/") required))
    (map runtime_ref (List.filter explicitly_installed installed)).

Definition unused_plan (i : Installation) (roots : list string) (installed deployed : list RuntimeRecord) : list UnusedRemoval :=
  let runtime_candidates := foldl (add_candidate i) (foldl (add_candidate i) [] installed) deployed in
  map (fun e => mkRemoval (fmt ["runtime/"; e.1]) "runtime" (map snd e.2.1) (Some e.1) e.2.2)
    (List.filter (fun e => negb (bs_contains e.1 roots)) runtime_candidates).

(** What the command uses of the parts of the program that are modelled
    elsewhere or not at all: the theme of the desktop, the exports to the
    desktop, and the refs of the OSTree repository. *)
Class UninstallWorld (W : Type) `{FileOps W} := {
  desktop_gtk_theme : W -> option string;
  remove_export : Installation -> string -> M W unit;
  remove_remote_refs : Installation -> string -> list string -> M W unit;
}.

Section Uninstall.
Context {W : Type} `{RecoveryWorld W} `{!UninstallWorld W} `{!Terminal W}.
Context (detect_facts : option string -> ExtensionFacts).
(** The depth of the walk over deployments, and the answers of the user. *)
Context (fuel : nat) (i : Installation).

(** The runtime an application runs on: its current deployment, if it has a
    record. *)
Definition runtime_dir_of (a : AppRecord) : M W path :=
  r ← get_runtime i (app_runtime_ref a);
  mret (absolute_data_path i (match r with Some r => runtime_dir r | None => app_runtime_dir a end)).

Definition extensions_of (installed : list string) (theme : option string) (refs : list string) (a : AppRecord)
    : M W (list string) :=
  dir ← runtime_dir_of a;
  more ← getr (required_extension_refs detect_facts (absolute_data_path i (app_dir a)) (app_ref a)
                 (app_runtime_ref a) dir installed theme);
  mret (bs_extend refs more).

(** The applications whose deployments count: those installed, and those of run
    records that can be read as one. *)
Definition running_apps (runs : list values) (w : W) : list AppRecord :=
  omap (fun run => match app_from_run_record i run w with Ok a => Some a | Err _ => None end) runs.

Definition plan_unused_deployment_checkouts_with_gtk_theme (theme : option string) : M W (list UnusedRemoval) :=
  apps ← list_apps i;
  runs ← read_run_records i;
  running ← gets (running_apps runs);
  let deployments := apps ++ running in
  installed ← list_runtimes i;
  let installed_extension_refs := bs_of_list (map installed_ref installed) in
  required ← fold_each (extensions_of installed_extension_refs theme) deployments [];
  let required := bs_extend required (concat (map run_extension_refs runs)) in
  installed ← list_runtimes i;
  deployed ← list_runtime_deployments fuel i;
  mret (unused_plan i (runtime_roots deployments required installed) installed deployed).

Definition plan_unused_deployment_checkouts : M W (list UnusedRemoval) :=
  theme ← gets desktop_gtk_theme;
  plan_unused_deployment_checkouts_with_gtk_theme theme.

Definition apply_removal (item : UnusedRemoval) : M W RemovedRef :=
  _ ← for_each (safe_remove_dir i) (deployment_paths item);
  _ ← match ur_runtime_ref item with Some r => remove_runtime_record i r | None => mret tt end;
  mret (mkRemoved (ur_origins item) (ur_ref_name item)).

Definition apply_unused_deployment_plan (plan : list UnusedRemoval) : M W (list RemovedRef) :=
  removed ← fold_each (fun removed item => r ← apply_removal item; mret (removed ++ [r])) plan [];
  _ ← cleanup_retired_deployments fuel i;
  mret removed.

Definition forget_refs (removed : list RemovedRef) : M W unit :=
  for_each (fun item => for_each (fun origin => remove_remote_refs i origin [rf_ref_name item]) (rf_origins item)) removed.

(** The messages that end a command are left out. *)
Definition uninstall_unused (options : TransactionOptions) : M W (option unit) :=
  plan ← plan_unused_deployment_checkouts;
  if bool_decide (length plan = 0) then mret (Some tt)
  else
    go ← present_and_confirm_with fuel
           (map (fun item => mkEntry Uninstall (ur_kind item) (ur_ref_name item)) plan) options;
    match go with
    | None => mret None
    | Some false => mret (Some tt)
    | Some true =>
        removed ← apply_unused_deployment_plan plan;
        _ ← forget_refs removed;
        mret (Some tt)
    end.

(** ** One ref *)

Inductive InstalledTarget := TargetApp (a : AppRecord) | TargetRuntime (r : RuntimeRecord).

Definition matching_apps (partial : PartialRef) (l : list AppRecord) : result (list InstalledTarget) :=
  fold_result (fun found a => c ← parse_ref (app_ref a); Ok (if matches partial c then found ++ [TargetApp a] else found)) l [].
Definition matching_runtimes (partial : PartialRef) (l : list RuntimeRecord) : result (list InstalledTarget) :=
  fold_result (fun found r => c ← parse_ref (installed_ref r); Ok (if matches partial c then found ++ [TargetRuntime r] else found)) l [].

Definition resolve_installed_target (requested : string) (filter : option RefKind) : M W InstalledTarget :=
  partial ← lift (parse_partial requested);
  filter ← lift (effective_kind partial filter);
  found_apps ← (if bool_decide (filter = Some Runtime) then mret []
                else apps ← list_apps i; lift (matching_apps partial apps));
  found_runtimes ← (if bool_decide (filter = Some App) then mret []
                    else runtimes ← list_runtimes i; lift (matching_runtimes partial runtimes));
  match found_apps ++ found_runtimes with
  | [] => lift (bail (fmt [requested; " is not installed"]))
  | [target] => mret target
  | _ => lift (bail (fmt [requested; " matches multiple installed refs; specify kind, architecture, and branch"]))
  end.

Definition uninstall_runtime (record : RuntimeRecord) (options : TransactionOptions) : M W (option unit) :=
  let full_ref := installed_ref record in
  apps ← list_apps i;
  let users := map app_id (List.filter (fun a => String.eqb (app_runtime_ref a) (runtime_ref record)) apps) in
  if negb (bool_decide (length users = 0))
  then lift (bail (fmt ["cannot uninstall "; full_ref; ": required by installed applications: "; join ", " users]))
  else
    go ← present_and_confirm_with fuel [mkEntry Uninstall "runtime" full_ref] options;
    match go with
    | None => mret None
    | Some false => mret (Some tt)
    | Some true =>
        _ ← remove_runtime_record i (runtime_ref record);
        _ ← safe_remove_dir i (runtime_dir record);
        _ ← remove_remote_refs i (rt_origin record) [full_ref];
        _ ← cleanup_retired_deployments fuel i;
        mret (Some tt)
    end.

Definition app_has_mounts (app_id : string) : M W bool :=
  points ← mount_points_under (components (join_path (chroots i) (sandbox_name app_id)));
  mret (negb (bool_decide (length points = 0))).

Definition related_refs_for_uninstall (record : AppRecord) (no_related : bool) : M W (list string) :=
  if no_related then mret []
  else
    runtimes ← list_runtimes i;
    getr (autodelete_extension_refs (absolute_data_path i (app_dir record)) (app_ref record) (app_runtime_ref record)
            (absolute_data_path i (app_runtime_dir record)) (bs_of_list (map installed_ref runtimes))).

Definition remove_app_data (app_id : string) : M W unit :=
  p ← lift (app_data i app_id);
  kind ← gets (fun w : W => symlink_kind w p);
  match kind with
  | inl Directory => io_step (fmt ["delete app data "; p]) (remove_dir_all p)
  | inl _ => io_step (fmt ["delete app data "; p]) (remove_file p)
  | inr e => if bool_decide (ioe_kind e = NotFound) then mret tt
             else fail [fmt ["inspect "; p]; ioe_message e]
  end.

Definition remove_autodelete (refs : list string) : M W unit :=
  if bool_decide (length refs = 0) then mret tt
  else
    plan ← plan_unused_deployment_checkouts;
    removed ← apply_unused_deployment_plan (List.filter (fun item => bs_contains (ur_ref_name item) refs) plan);
    forget_refs removed.

Definition uninstall_app (record : AppRecord) (options : UninstallOptions) : M W (option unit) :=
  let id := app_id record in
  mounted ← app_has_mounts id;
  if mounted : bool
  then lift (bail (fmt [id; " still has active sandbox mounts; stop it before uninstalling"]))
  else
    go ← present_and_confirm_with fuel [mkEntry Uninstall "application" (app_ref record)] (transaction options);
    match go with
    | None => mret None
    | Some false => mret (Some tt)
    | Some true =>
        autodelete_refs ← related_refs_for_uninstall record (no_related options);
        _ ← remove_export i id;
        removed ← remove_app_record i id;
        match removed with
        | None => mret (Some tt)
        | Some _ =>
            _ ← safe_remove_dir i (app_dir record);
            _ ← safe_remove_dir i (join_path (chroots i) id);
            _ ← remove_remote_refs i (app_origin record) [app_ref record];
            _ ← cleanup_retired_deployments fuel i;
            _ ← remove_autodelete autodelete_refs;
            _ ← (if delete_data options then remove_app_data id else mret tt);
            mret (Some tt)
        end
    end.

Definition cmd_uninstall (args : list string) : M W (option unit) :=
  options ← lift (parse_uninstall_args args);
  if unused options then uninstall_unused (transaction options)
  else
    requested ← lift (ok_or "missing app id" (reference options));
    target ← resolve_installed_target requested (kind_filter options);
    match target with
    | TargetApp record => uninstall_app record options
    | TargetRuntime record => uninstall_runtime record (transaction options)
    end.
End Uninstall.

(** ** Lemmas: the candidates *)

Section Candidates.
Context (i : Installation).
Implicit Types (m : candidate_map) (l : list RuntimeRecord).

Definition dir_of (r : RuntimeRecord) : path := absolute_data_path i (runtime_dir r).

Lemma path_insert_wf p s : bm_wf s -> bm_wf (path_insert p s).
Proof. unfold path_insert. destruct (bm_get _ _); [done|]. apply bm_insert_wf. Qed.

Lemma path_insert_keys p s c : c ∈ (path_insert p s).*1 <-> c = components p \/ c ∈ s.*1.
Proof.
  unfold path_insert. destruct (bm_get (components p) s) eqn:E.
  - assert (components p ∈ s.*1) by (apply bm_get_Some; eauto). naive_solver.
  - by rewrite bm_insert_keys, elem_of_bs_insert.
Qed.

(** Every entry has the text of a path with its components. *)
Definition texts_ok (ok : path -> Prop) (s : path_set) : Prop :=
  Forall (fun e => components e.2 = e.1 /\ ok e.2) s.

Lemma bm_insert_elem {K V} `{OrdLaws K} (k : K) (v : V) (x : list (K * V)) e : e ∈ bm_insert k v x -> e = (k, v) \/ e ∈ x.
Proof.
  induction x as [|[k' v'] x IH]; cbn; [rewrite list_elem_of_singleton; by left|].
  destruct (cmp k k'); rewrite !elem_of_cons; naive_solver.
Qed.

Lemma path_insert_texts (ok : path -> Prop) p s : ok p -> texts_ok ok s -> texts_ok ok (path_insert p s).
Proof.
  intros Hp Hs. unfold path_insert. destruct (bm_get _ _); [done|]. apply Forall_forall. intros e He.
  apply bm_insert_elem in He as [->|He]; [done|]. by eapply Forall_forall in Hs.
Qed.

(** What a runtime's entry holds after these records. *)
Definition entry_of (l : list RuntimeRecord) (name : string) (v : path_set * list string) : Prop :=
  (forall c, c ∈ v.1.*1 <-> exists r, r ∈ l /\ runtime_ref r = name /\ components (dir_of r) = c) /\
  texts_ok (fun p => exists r, r ∈ l /\ runtime_ref r = name /\ dir_of r = p) v.1 /\
  (forall o, o ∈ v.2 <-> exists r, r ∈ l /\ runtime_ref r = name /\ rt_origin r = o).

Lemma entry_of_other l r name v : entry_of l name v -> runtime_ref r <> name -> entry_of (l ++ [r]) name v.
Proof.
  intros (H1 & H2 & H3) Hn. split; [|split].
  - intros c. rewrite H1. setoid_rewrite elem_of_app. setoid_rewrite list_elem_of_singleton. naive_solver.
  - eapply Forall_impl; [exact H2|]. intros e [? (r' & ? & ? & ?)]. split; [done|]. exists r'. rewrite elem_of_app. auto.
  - intros o. rewrite H3. setoid_rewrite elem_of_app. setoid_rewrite list_elem_of_singleton. naive_solver.
Qed.

Lemma entry_of_same l r v : entry_of l (runtime_ref r) v ->
  entry_of (l ++ [r]) (runtime_ref r) (path_insert (dir_of r) v.1, bs_insert (rt_origin r) v.2).
Proof.
  intros (H1 & H2 & H3). split; [|split]; cbn [fst snd].
  - intros c. rewrite path_insert_keys, H1. setoid_rewrite elem_of_app. setoid_rewrite list_elem_of_singleton. naive_solver.
  - apply path_insert_texts; [exists r; rewrite elem_of_app, list_elem_of_singleton; auto|].
    eapply Forall_impl; [exact H2|]. intros e [? (r' & ? & ? & ?)]. split; [done|]. exists r'. rewrite elem_of_app. auto.
  - intros o. rewrite elem_of_bs_insert, H3. setoid_rewrite elem_of_app. setoid_rewrite list_elem_of_singleton. naive_solver.
Qed.

(** The map describes the records. *)
Definition describes m l : Prop :=
  bm_wf m /\ (forall name, name ∈ m.*1 <-> exists r, r ∈ l /\ runtime_ref r = name) /\
  forall name v, bm_get name m = Some v -> entry_of l name v.

Lemma describes_add m l r : describes m l -> describes (add_candidate i m r) (l ++ [r]).
Proof.
  intros (Hw & Hk & He). unfold add_candidate. fold (dir_of r). split; [by apply bm_insert_wf|]. split.
  - intros name. rewrite bm_insert_keys, elem_of_bs_insert, Hk. setoid_rewrite elem_of_app.
    setoid_rewrite list_elem_of_singleton. naive_solver.
  - intros name v. destruct (decide (runtime_ref r = name)) as [<-|Hn].
    + rewrite bm_get_insert_eq. intros [= <-]. apply entry_of_same.
      destruct (bm_get (runtime_ref r) m) as [v|] eqn:E; [by apply He|]. cbn [default from_option].
      assert (forall r', r' ∈ l -> runtime_ref r' <> runtime_ref r) as Hno.
      { intros r' Hr' Heq. assert (is_Some (bm_get (runtime_ref r) m)) as [? ?] by (apply bm_get_Some, Hk; eauto). congruence. }
      split; [|split]; [|constructor|]; intros x; cbn; (split; [by intros ?%not_elem_of_nil|]);
        intros (r' & Hr' & Heq & _); by destruct (Hno r').
    + rewrite bm_get_insert_ne by done. intros Hv. apply entry_of_other; auto.
Qed.

Lemma describes_all l1 : forall m l, describes m l -> describes (foldl (add_candidate i) m l1) (l ++ l1).
Proof.
  induction l1 as [|r l1 IH]; intros m l Hm; cbn [foldl]; [by rewrite app_nil_r|].
  rewrite (app_assoc l [r] l1 : l ++ r :: l1 = _). apply IH. by apply describes_add.
Qed.

Lemma describes_nil : describes [] [].
Proof.
  split; [constructor|]. split; [|done]. intros name. split; [by intros ?%not_elem_of_nil|].
  intros (r & Hr & _). by apply not_elem_of_nil in Hr.
Qed.
End Candidates.

(** A runtime that is needed: by an application that is installed or that a run
    record describes, as an extension, or because the user asked for it. *)
Definition needed (deployments : list AppRecord) (runs : list values) (required : list string)
    (installed : list RuntimeRecord) (name : string) : Prop :=
  (exists a, a ∈ deployments /\ app_runtime_ref a = name) \/
  "runtime/" +:+ name ∈ required \/ (exists run, run ∈ runs /\ "runtime/" +:+ name ∈ run_extension_refs run) \/
  exists r, r ∈ installed /\ explicitly_installed r = true /\ runtime_ref r = name.

Lemma runtime_roots_spec deployments runs required installed name :
  name ∈ runtime_roots deployments (bs_extend required (concat (map run_extension_refs runs))) installed <->
  needed deployments runs required installed name.
Proof.
  unfold runtime_roots, needed. rewrite !elem_of_bs_extend, elem_of_bs_of_list, list_elem_of_omap.
  rewrite !list_elem_of_fmap. setoid_rewrite elem_of_bs_extend.
  setoid_rewrite strip_prefix_Some. setoid_rewrite list_elem_of_In at 4. setoid_rewrite filter_In. setoid_rewrite <- list_elem_of_In.
  assert (forall x, x ∈ concat (map run_extension_refs runs) <-> exists run, run ∈ runs /\ x ∈ run_extension_refs run) as Hc.
  { intros x. rewrite !list_elem_of_In, in_concat. setoid_rewrite in_map_iff. setoid_rewrite list_elem_of_In. naive_solver. }
  setoid_rewrite Hc. naive_solver.
Qed.

(** The item of the plan for a runtime. *)
Definition planned (i : Installation) (l : list RuntimeRecord) (item : UnusedRemoval) (name : string) : Prop :=
  ur_ref_name item = "runtime/" +:+ name /\ ur_runtime_ref item = Some name /\
  (forall p, p ∈ deployment_paths item -> exists r, r ∈ l /\ runtime_ref r = name /\ dir_of i r = p) /\
  (forall r, r ∈ l -> runtime_ref r = name -> exists p, p ∈ deployment_paths item /\ components p = components (dir_of i r)) /\
  (forall o, o ∈ ur_origins item <-> exists r, r ∈ l /\ runtime_ref r = name /\ rt_origin r = o).

Lemma unused_plan_spec i roots installed deployed :
  (forall item, item ∈ unused_plan i roots installed deployed ->
    exists name, name ∉ roots /\ planned i (installed ++ deployed) item name) /\
  (forall r, r ∈ installed ++ deployed -> runtime_ref r ∉ roots ->
    exists item, item ∈ unused_plan i roots installed deployed /\ planned i (installed ++ deployed) item (runtime_ref r)).
Proof.
  pose proof (describes_all i deployed _ _ (describes_all i installed _ _ (describes_nil i))) as (Hw & Hk & He). cbn [app] in *.
  unfold unused_plan. set (m := foldl (add_candidate i) _ deployed) in *.
  assert (forall name v, (name, v) ∈ m ->
    planned i (installed ++ deployed) (mkRemoval (fmt ["runtime/"; name]) "runtime" (map snd v.1) (Some name) v.2) name) as Hp.
  { intros name v Hv. apply bm_get_elem in Hv; [|done]. apply He in Hv as (H1 & H2 & H3). unfold texts_ok in H2. rewrite Forall_forall in H2.
    split; [cbn; by rewrite sapp_nil_r|]. split; [done|]. cbn. split; [|split; [|exact H3]].
    - intros p Hp. apply list_elem_of_fmap in Hp as (e & -> & Hin). by apply H2.
    - intros r Hr Hn. assert (components (dir_of i r) ∈ v.1.*1) as Hc by (apply H1; eauto).
      apply list_elem_of_fmap in Hc as ([c p] & -> & Hin). exists p. split; [|by apply H2 in Hin as [? _]].
      apply list_elem_of_fmap. by exists (c, p). }
  split.
  - intros item Hi. apply list_elem_of_fmap in Hi as ([name v] & -> & Hin). apply list_elem_of_In, filter_In in Hin as [Hin Hc].
    exists name. cbn [fst snd] in *. split; [|apply Hp; by apply list_elem_of_In]. by rewrite <- bs_contains_true; destruct (bs_contains name roots).
  - intros r Hr Hn. assert (runtime_ref r ∈ m.*1) as Hkey by (apply Hk; eauto).
    apply list_elem_of_fmap in Hkey as ([name v] & E & Hin). cbn in E. subst name.
    eexists. split; [|by apply (Hp _ v)]. apply list_elem_of_fmap. exists (runtime_ref r, v). split; [done|].
    apply list_elem_of_In, filter_In. split; [by apply list_elem_of_In|]. cbn [fst].
    destruct (bs_contains (runtime_ref r) roots) eqn:E; [|done]. by apply bs_contains_true in E.
Qed.

(** ** Properties *)

(** C26.  The plan for what is unused: exactly the runtimes that have a deployment
    or a record and that nothing needs, each with all of its deployments and
    origins.  Needed is the runtime of an installed application or of one that a
    run record describes, an extension that such an application requires or a
    running sandbox has, and what the user asked for. *)
Theorem unused_plan_is_exact `{RecoveryWorld W} detect_facts fuel i theme (w w' : W) plan :
  plan_unused_deployment_checkouts_with_gtk_theme detect_facts fuel i theme w = (Ok plan, w') ->
  exists apps runs required installed deployed w1 w2 w3 w4 w5 w6 refs,
    list_apps i w = (Ok apps, w1) /\ read_run_records i w1 = (Ok runs, w2) /\ list_runtimes i w2 = (Ok refs, w3) /\
    fold_each (extensions_of detect_facts i (bs_of_list (map installed_ref refs)) theme)
      (apps ++ running_apps i runs w2) [] w3 = (Ok required, w4) /\
    list_runtimes i w4 = (Ok installed, w5) /\ list_runtime_deployments fuel i w5 = (Ok deployed, w6) /\
    (forall item, item ∈ plan -> exists name, planned i (installed ++ deployed) item name /\
      ~ needed (apps ++ running_apps i runs w2) runs required installed name) /\
    (forall r, r ∈ installed ++ deployed -> ~ needed (apps ++ running_apps i runs w2) runs required installed (runtime_ref r) ->
      exists item, item ∈ plan /\ planned i (installed ++ deployed) item (runtime_ref r)).
Proof.
  unfold plan_unused_deployment_checkouts_with_gtk_theme. intros E.
  apply M_bind_ok in E as (apps & w1 & Ea & E). apply M_bind_ok in E as (runs & w2 & Er & E).
  rewrite gets_bind in E. apply M_bind_ok in E as (refs & w3 & Ef & E).
  apply M_bind_ok in E as (required & w4 & Eq & E). apply M_bind_ok in E as (installed & w5 & Ei & E).
  apply M_bind_ok in E as (deployed & w6 & Ed & E). injection E as <- <-.
  exists apps, runs, required, installed, deployed, w1, w2, w3, w4, w5, w6, refs.
  do 6 (split; [done|]). pose proof (runtime_roots_spec (apps ++ running_apps i runs w2) runs required installed) as Hr.
  destruct (unused_plan_spec i (runtime_roots (apps ++ running_apps i runs w2)
    (bs_extend required (concat (map run_extension_refs runs))) installed) installed deployed) as [Hp1 Hp2].
  split.
  - intros item Hi. apply Hp1 in Hi as (name & Hn & Hp). exists name. rewrite <- Hr. auto.
  - intros r Hin Hn. apply Hp2; [done|]. by rewrite Hr.
Qed.

(** A desktop without a theme, a user who agrees, a system without mounts. *)
#[local] Instance plain_processes : ProcessWorld TreeFs := {
  capture := mret []; send_signal _ _ := mret tt; pause := mret tt; self_pid := 1%Z }.
#[local] Instance plain_recovery : RecoveryWorld TreeFs := {
  mount_command := mret ""; launcher_lookup _ _ := Ok None; launcher_probe _ _ := KillESRCH;
  metadata_identity _ _ := inl (1, 1)%N; unmount_command _ _ _ _ := mret tt;
  document_unmount_command _ _ _ _ := mret tt; to_path p := render_components p }.
#[local] Instance plain_uninstall : UninstallWorld TreeFs := {
  desktop_gtk_theme _ := None; remove_export _ _ := mret tt; remove_remote_refs _ _ _ := mret tt }.
#[local] Instance plain_terminal : Terminal TreeFs := { print _ := mret tt; read_line := mret nl }.
Definition no_facts (_ : option string) : ExtensionFacts := mkFacts [] None false [] [].

Lemma unused_plan_is_exact_witness :
  let w := mkTree (map components ["/"; "/data"; "/data/runtimes"; "/data/runtimes/p"; "/data/runtimes/p/beef";
                                   "/data/refs/apps"; "/data/refs/runtimes"; "/run/x/runs"])
    [(components "/data/runtimes/p/beef/.ostree-commit", fmt (map end_line ["runtime/org.p.Platform/x86_64/24.08"; "beef"; "42"; "flathub"]))] in
  exists plan w', plan_unused_deployment_checkouts_with_gtk_theme no_facts 5 example_installation None w = (Ok plan, w') /\
    map ur_ref_name plan = ["runtime/org.p.Platform/x86_64/24.08"] /\
    map deployment_paths plan = [["/data/runtimes/p/beef"]] /\
    exists l, forall item, item ∈ plan -> exists name, planned example_installation l item name.
Proof.
  intros w. eexists _, _. split; [vm_compute; reflexivity|]. split; [reflexivity|]. split; [reflexivity|].
  edestruct (unused_plan_is_exact no_facts 5 example_installation None w) as
    (apps & runs & required & installed & deployed & w1 & w2 & w3 & w4 & w5 & w6 & refs & _ & _ & _ & _ & _ & _ & Hp & _);
    [vm_compute; reflexivity|].
  exists (installed ++ deployed). intros item Hi. apply Hp in Hi as (name & Hp' & _). by exists name.
Defined.

Definition pinned_runtime : path := "/data/runtimes/p/beef".
(** An application is being installed: its runtime is deployed and pinned, and
    not yet recorded. *)
Definition installing : TreeFs :=
  let w := mkTree (map components ["/"; "/data"; "/data/runtimes"; "/data/runtimes/p"; pinned_runtime;
                                   "/data/refs/apps"; "/data/refs/runtimes"; "/run/x/runs"])
    [(components "/data/runtimes/p/beef/.ostree-commit", fmt (map end_line ["runtime/org.p.Platform/x86_64/24.08"; "beef"; "42"; "flathub"]))] in
  (write_checkout_pin 7%N (mret 0%N) (fun _ _ => Ok None) example_installation "org.a.App" "install-1-7" "/run/x/chroots/org.a.App/install-1-7"
     "/data/apps/org.a.App/c0ffee" pinned_runtime w).2.

