(* ===== verification/CheckoutActivation.v ===== *)
(** * CheckoutActivation: deploying commits as a transaction
    (src/src/ostree/checkout_activation.rs)

    A deployment is checked out into a staging directory next to its
    destination.  When all are staged a transaction file is published, every
    current deployment is moved to a backup and every staged one to its
    destination; whoever opens the storage next resumes a transaction that was
    interrupted.  The main theorems say that this is all or nothing: however
    often the program stops, the destinations hold their old contents as long
    as no transaction is published, and a recovery that succeeds leaves every
    destination with its new one. *)
From Stdlib Require Import Ascii String NArith ZArith Lia.
From stdpp Require Import base list strings sets gmap.
From S2P Require Import Prelude Effects Collections RustStr RustNum RustPath HostFs InstallationPaths Records.

Record Deployment := mkDeployment {
  remote : string; deployment_kind : string; ref_name : string; checksum : string;
  deployment_destination : path; force : bool }.
Record RemoteSource := mkSource { source_name : string; summary : string }.
Record Activation := mkActivation { destination : path; staging : path; backup : path }.

Definition DEPLOYMENT_MARKER : string := ".ostree-commit".
Definition TRANSACTION_FILE : string := ".storage-transaction".
Definition TAB : ascii := "009".

(** The operations of the storage that are not [std::fs]'s: flushing a
    directory, and libostree's. *)
Class StorageOps (W : Type) := {
  sync_directory : path -> W -> io_result unit * W;
  repo_pull : string -> string -> list (string * string) -> W -> io_result unit * W;
  fsck_object : string -> W -> io_result unit * W;
  checkout_at : path -> string -> W -> io_result unit * W;
  repo_installed_size : string -> W -> result Z;
}.

(** ** The transaction file *)

Definition transaction_line (a : Activation) : string :=
  fmt [destination a; String TAB ""; staging a; String TAB ""; backup a].
Definition transaction_text (activations : list Activation) : string :=
  fmt (map end_line ("1" :: map transaction_line activations)).

Definition parse_entry (line : string) : result Activation :=
  match split TAB line with
  | [d; s; b] => Ok (mkActivation d s b)
  | _ => bail "invalid storage transaction entry"
  end.
Definition parse_transaction (text : string) : result (list Activation) :=
  match lines text with
  | l :: r => if String.eqb l "1" then map_result parse_entry r
              else bail "unsupported storage transaction format"
  | [] => bail "unsupported storage transaction format"
  end.

Section Activation.
Context {W : Type} `{FileOps W} `{!StorageOps W}.

Definition remove_path_if_exists (p : path) : M W unit := fun w =>
  match symlink_kind w p with
  | inl Directory => io_step (fmt ["remove directory "; p]) (remove_dir_all p) w
  | inl _ => io_step (fmt ["remove file "; p]) (remove_file p) w
  | inr e => if bool_decide (ioe_kind e = NotFound) then (Ok tt, w)
             else (Err [fmt ["inspect "; p]; ioe_message e], w)
  end.

Definition sync_parent (p : path) : M W unit :=
  parent ← lift (ok_or "path has no parent" (parent p));
  io_step (fmt ["sync "; parent]) (sync_directory parent).

Definition write_transaction (transaction_path : path) (activations : list Activation) : M W unit :=
  let partial := with_extension transaction_path "transaction.part" in
  _ ← io_step (fmt ["create "; partial]) (write_file partial (transaction_text activations));
  _ ← io_step (fmt ["publish "; transaction_path]) (rename_file partial transaction_path);
  sync_parent transaction_path.

(** The body of the first loop of [finish_activation]. *)
Definition activate_one (a : Activation) : M W unit :=
  _ ← remove_path_if_exists (backup a);
  present ← gets (fun w : W => path_exists w (destination a));
  _ ← (if present : bool
       then io_step (fmt ["preserve current deployment "; destination a]) (rename_file (destination a) (backup a))
       else mret tt);
  _ ← io_step (fmt ["activate deployment "; destination a]) (rename_file (staging a) (destination a));
  sync_parent (destination a).

Definition finish_activation (transaction_path : path) (activations : list Activation) : M W unit :=
  _ ← for_each activate_one activations;
  _ ← for_each (fun a => remove_path_if_exists (backup a)) activations;
  _ ← io_step (fmt ["complete "; transaction_path]) (remove_file transaction_path);
  sync_parent transaction_path.

(** The body of the first loop of [recover_activation_file]. *)
Definition recover_one (a : Activation) : M W unit :=
  staged ← gets (fun w : W => path_exists w (staging a));
  present ← gets (fun w : W => path_exists w (destination a));
  saved ← gets (fun w : W => path_exists w (backup a));
  if staged : bool then
    _ ← (if present : bool
         then _ ← remove_path_if_exists (backup a);
              io_step (fmt ["preserve deployment while resuming "; destination a])
                (rename_file (destination a) (backup a))
         else mret tt);
    _ ← io_step (fmt ["resume deployment "; destination a]) (rename_file (staging a) (destination a));
    sync_parent (destination a)
  else if present : bool then mret tt
  else if saved : bool then
    _ ← io_step (fmt ["restore deployment "; destination a]) (rename_file (backup a) (destination a));
    lift (bail "deployment transaction was incomplete; restored previous deployment")
  else lift (bail (fmt ["cannot recover deployment "; destination a; "; staging and backup are missing"])).

Definition recover_activation_file (transaction_path : path) : M W unit :=
  pending ← gets (fun w : W => is_file w transaction_path);
  if negb pending then mret tt
  else
    text ← getr (fun w : W => io_context (fmt ["read "; transaction_path]) (read_to_string w transaction_path));
    activations ← lift (parse_transaction text);
    _ ← for_each recover_one activations;
    _ ← for_each (fun a => remove_path_if_exists (backup a)) activations;
    _ ← io_try (remove_file transaction_path);
    sync_parent transaction_path.

(** ** Staging *)

Definition validate_checkout (p : path) (w : W) : result unit :=
  if negb (is_file w (join_path p "metadata")) || negb (is_dir w (join_path p "files"))
  then bail (fmt ["incomplete OSTree checkout at "; p]) else Ok tt.

Definition checkout_matches (w : W) (d : path) (sum : string) : bool :=
  if is_ok (validate_checkout d w) then
    match read_to_string w (join_path d DEPLOYMENT_MARKER) with
    | inl marker => bool_decide (lines marker !! 1 = Some sum)
    | inr _ => false
    end
  else false.

Definition marker_text (d : Deployment) (size : Z) : string :=
  fmt (map end_line [ref_name d; checksum d; show_Z size; remote d]).

Definition stage_checkout (d : Deployment) : M W Activation :=
  name ← lift (ok_or "checkout destination has no UTF-8 file name" (file_name_of (deployment_destination d)));
  let short_commit := substring 0 12 (checksum d) in
  let staging := with_file_name (deployment_destination d) (fmt ["."; name; ".ostree-"; short_commit; ".staging"]) in
  let backup := with_file_name (deployment_destination d) (fmt ["."; name; ".ostree-previous"]) in
  _ ← remove_path_if_exists staging;
  dir ← lift (ok_or "checkout destination has no parent" (parent staging));
  _ ← io_try (make_dirs dir);
  checked_out ← catch (io_step (fmt ["checkout "; ref_name d; " at "; deployment_destination d])
                         (checkout_at staging (checksum d)));
  _ ← match checked_out with
      | Ok _ => mret tt
      | Err e => _ ← catch (remove_path_if_exists staging); fail e
      end;
  _ ← getr (validate_checkout staging);
  size ← getr (repo_installed_size (checksum d));
  let marker_path := join_path staging DEPLOYMENT_MARKER in
  _ ← io_step (fmt ["create "; marker_path]) (write_file marker_path (marker_text d size));
  mret (mkActivation (deployment_destination d) staging backup).

(** ** Deploying *)

Definition pull_exact (name : string) (data : string) (refs : list (string * string)) : M W unit :=
  _ ← io_step (fmt ["pull verified refs from "; name; " with libostree"]) (repo_pull name data refs);
  for_each (fun commit => io_step (fmt ["fsck commit "; commit]) (fsck_object commit)) refs.*2.

Definition stage_all (pending : list Deployment) : M W (list Activation) :=
  fold_each (fun activations d => a ← stage_checkout d; mret (activations ++ [a])) pending [].

Definition deploy_from_sources (transaction_path : path) (sources : list RemoteSource)
    (deployments : list Deployment) : M W unit :=
  pending ← gets (fun w : W =>
    List.filter (fun d => force d || negb (checkout_matches w (deployment_destination d) (checksum d))) deployments);
  if bool_decide (pending = []) then mret tt
  else
    _ ← for_each (fun source =>
          let refs := map (fun d => (ref_name d, checksum d))
                        (List.filter (fun d => String.eqb (remote d) (source_name source)) pending) in
          if bool_decide (refs = []) then mret tt
          else pull_exact (source_name source) (summary source) refs) sources;
    if existsb (fun d => negb (existsb (fun source => String.eqb (source_name source) (remote d)) sources)) pending
    then lift (bail "deployment transaction is missing remote summary data")
    else
      activations ← stage_all pending;
      _ ← write_transaction transaction_path activations;
      finish_activation transaction_path activations.

Definition deploy (transaction_path : path) (data : string) (deployments : list Deployment) : M W unit :=
  first ← lift (ok_or "deployment list is empty" (head deployments));
  deploy_from_sources transaction_path [mkSource (remote first) data] deployments.
End Activation.

(** ** What the file system promises

    [content w p] stands for the file or directory tree at [p].  The laws hold
    of a file system of files and directories without symbolic links at these
    paths: a rename is atomic, a removal that fails may have removed a part,
    and an operation leaves paths alone that neither contain its own paths nor
    lie below them. *)

Class ContentFs (W T : Type) `{FileOps W} `{!StorageOps W} := {
  content : W -> path -> option T;
  exists_content : forall w p, path_exists w p = true <-> is_Some (content w p);
  kind_content : forall w p, match symlink_kind w p with
    | inl _ => is_Some (content w p)
    | inr e => ioe_kind e = NotFound -> content w p = None
    end;
  content_reads : forall w w' p q, content w p = content w' q ->
    read_to_string w p = read_to_string w' q /\ is_file w p = is_file w' q;
  no_content_no_file : forall w p, content w p = None -> is_file w p = false;
  rename_content : forall w p q w', apart p q -> rename_file p q w = (inl tt, w') ->
    content w' q = content w p /\ content w' p = None /\ is_Some (content w p) /\
    forall r, apart r p -> apart r q -> content w' r = content w r;
  rename_fails : forall w p q e w' r, rename_file p q w = (inr e, w') -> content w' r = content w r;
  remove_dir_content : forall w p r w', remove_dir_all p w = (r, w') ->
    (r = inl tt -> content w' p = None) /\ forall q, apart q p -> content w' q = content w q;
  remove_file_content : forall w p r w', remove_file p w = (r, w') ->
    (r = inl tt -> content w' p = None) /\ (forall e, r = inr e -> content w' p = content w p) /\
    forall q, apart q p -> content w' q = content w q;
  write_content : forall w p d r w', write_file p d w = (r, w') ->
    (r = inl tt -> is_file w' p = true /\ read_to_string w' p = inl d) /\
    forall q, apart q p -> content w' q = content w q;
  sync_content : forall w p r w' q, sync_directory p w = (r, w') -> content w' q = content w q;
}.

Definition paths_of (a : Activation) : list path := [destination a; staging a; backup a].

(** The paths of a transaction do not contain one another. *)
Definition transaction_paths_ok (tx : path) (activations : list Activation) : Prop :=
  Forall (fun a => apart (destination a) (staging a) /\ apart (destination a) (backup a) /\
                   apart (staging a) (backup a)) activations /\
  ForallOrdPairs (fun a b => forall p q, p ∈ paths_of a -> q ∈ paths_of b -> apart p q) activations /\
  Forall (fun a => forall p, p ∈ paths_of a -> apart p tx /\ apart p (with_extension tx "transaction.part")) activations /\
  apart (with_extension tx "transaction.part") tx.

Section Crash.
Context {W T : Type} `{ContentFs W T}.

(** ** Lemmas: the operations' effects *)

Definition same_at (w w' : W) (p : path) : Prop := content (T := T) w' p = content w p.

Lemma same_at_trans w1 w2 w3 p : same_at w1 w2 p -> same_at w2 w3 p -> same_at w1 w3 p.
Proof. unfold same_at. congruence. Qed.

Lemma remove_path_effect p w r w' :
  remove_path_if_exists p w = (r, w') ->
  (r = Ok tt -> content w' p = None) /\ forall q, apart q p -> same_at w w' q.
Proof.
  unfold remove_path_if_exists. pose proof (kind_content w p) as Hk.
  destruct (symlink_kind w p) as [k|e].
  - assert (forall msg op, (op = remove_dir_all p \/ op = remove_file p) -> io_step msg op w = (r, w') ->
      (r = Ok tt -> content w' p = None) /\ forall q, apart q p -> same_at w w' q) as Hop.
    { intros msg op Hop E. unfold io_step in E. destruct (op w) as [o w1] eqn:Eo.
      assert ((o = inl tt -> content w1 p = None) /\ forall q, apart q p -> content w1 q = content w q) as [Hg Hs].
      { destruct Hop as [-> | ->]; [by apply remove_dir_content in Eo|].
        apply remove_file_content in Eo as (? & _ & ?). done. }
      injection E as <- <-. split; [|done]. destruct o as [u|e]; [|done]. intros _. apply Hg. by destruct u. }
    destruct k; eauto.
  - case_bool_decide; intros [= <- <-]; (split; [|done]); [by intros _; apply Hk|done].
Qed.

Lemma rename_effect msg p q w r w' :
  apart p q -> io_step msg (rename_file p q) w = (r, w') ->
  (forall u, apart u p -> apart u q -> same_at w w' u) /\
  (r = Ok tt /\ content (T := T) w' q = content w p /\ content (T := T) w' p = None \/
   (exists e, r = Err e) /\ forall u, same_at w w' u).
Proof.
  intros Ha. unfold io_step. destruct (rename_file p q w) as [[u|e] w1] eqn:E; intros [= <- <-].
  - destruct u. destruct (rename_content _ _ _ _ Ha E) as (Hq & Hp & _ & Hs). split; [done|]. by left.
  - split; [intros u _ _|right; split; [by eexists|intros u]]; by apply (rename_fails _ _ _ _ _ _ E).
Qed.

Lemma sync_parent_effect p w r w' : sync_parent p w = (r, w') -> forall q, same_at w w' q.
Proof.
  unfold sync_parent, lift, mbind, M_bind. destruct (parent p) as [d|]; cbn [ok_or].
  - unfold io_step. destruct (sync_directory d w) as [o w1] eqn:E. intros Hr q. injection Hr as <- <-.
    by apply (sync_content _ _ _ _ q E).
  - intros Hr q. by injection Hr as <- <-.
Qed.

(** ** Lemmas: one activation *)

Context (new : Activation -> T).

(** The new deployment is still staged, or has reached its destination. *)
Definition settled (w : W) (a : Activation) : Prop :=
  content w (staging a) = Some (new a) \/
  content w (staging a) = None /\ content w (destination a) = Some (new a).
Definition landed (w : W) (a : Activation) : Prop :=
  content w (staging a) = None /\ content w (destination a) = Some (new a).

Definition framed (a : Activation) (w w' : W) : Prop :=
  forall q, (forall p, p ∈ paths_of a -> apart q p) -> same_at w w' q.

Definition activation_ok (a : Activation) : Prop :=
  apart (destination a) (staging a) /\ apart (destination a) (backup a) /\ apart (staging a) (backup a).

(** The end both loops share: the staged deployment moves to its destination. *)
Lemma move_in_place a msg w r w' :
  activation_ok a -> content w (staging a) = Some (new a) ->
  (_ ← io_step msg (rename_file (staging a) (destination a)); sync_parent (destination a)) w = (r, w') ->
  (forall q, apart q (staging a) -> apart q (destination a) -> same_at w w' q) /\
  settled w' a /\ (r = Ok tt -> landed w' a).
Proof.
  intros (Hds & _ & _) Hst Hr. apply M_bind_cases in Hr as (o & w1 & Hm & Hr).
  destruct (rename_effect _ _ _ _ _ _ (apart_sym _ _ Hds) Hm) as [Hf [(-> & Hd & Hs)|[[e ->] Hsame]]].
  - destruct Hr as [([] & _ & Hr)|(e & [=] & _)]. pose proof (sync_parent_effect _ _ _ _ Hr) as Hsync.
    unfold same_at in Hsync. assert (landed w' a) as Hl by (unfold landed; rewrite !Hsync, Hd; done).
    split; [|split; [by right|done]]. intros q Hq1 Hq2. eapply same_at_trans; [by apply Hf|apply Hsync].
  - destruct Hr as [(a' & [=] & _)|(e' & _ & -> & ->)].
    split; [by intros q _ _|]. split; [|done]. left. unfold same_at in Hsame. by rewrite Hsame.
Qed.

(** A current deployment is moved out of the way. *)
Lemma move_aside a (present : bool) msg w o w1 :
  activation_ok a ->
  (if present then io_step msg (rename_file (destination a) (backup a)) else mret tt) w = (o, w1) ->
  forall q, apart q (destination a) -> apart q (backup a) -> same_at w w1 q.
Proof.
  intros (_ & Hdb & _) Hm. destruct present; [|by injection Hm as <- <-].
  by apply (rename_effect _ _ _ _ _ _ Hdb) in Hm as [Hf _].
Qed.

Lemma framed_of a w w' :
  (forall q, apart q (destination a) -> apart q (staging a) -> apart q (backup a) -> same_at w w' q) -> framed a w w'.
Proof. intros Hf q Hq. apply Hf; apply Hq; unfold paths_of; set_solver. Qed.

Lemma framed_trans a w1 w2 w3 : framed a w1 w2 -> framed a w2 w3 -> framed a w1 w3.
Proof. intros Hf Hg q Hq. eapply same_at_trans; [by apply Hf|by apply Hg]. Qed.

Lemma remove_backup_effect a w o w1 :
  activation_ok a -> remove_path_if_exists (backup a) w = (o, w1) ->
  framed a w w1 /\ same_at w w1 (staging a) /\ same_at w w1 (destination a) /\ (o = Ok tt -> content w1 (backup a) = None).
Proof.
  intros (_ & Hdb & Hsb) Hr. destruct (remove_path_effect _ _ _ _ Hr) as [Hn Hs].
  split; [apply framed_of; auto|]. auto.
Qed.

Lemma activate_one_effect a w r w' :
  activation_ok a -> content w (staging a) = Some (new a) -> activate_one a w = (r, w') ->
  framed a w w' /\ settled w' a /\ (r = Ok tt -> landed w' a).
Proof.
  intros Hok Hst Hr. unfold activate_one in Hr.
  apply M_bind_cases in Hr as (o & w1 & Hm & Hr).
  destruct (remove_backup_effect _ _ _ _ Hok Hm) as (Hf1 & Hs1 & _).
  unfold same_at in Hs1. rewrite Hst in Hs1.
  destruct Hr as [([] & -> & Hr)|(e & -> & -> & ->)]; [|by split; [|split; [left|]]].
  rewrite gets_bind in Hr.
  apply M_bind_cases in Hr as (o & w2 & Hm2 & Hr).
  pose proof (move_aside _ _ _ _ _ _ Hok Hm2) as Hf2.
  assert (content w2 (staging a) = Some (new a)) as Hs2.
  { rewrite <- Hs1. apply Hf2; [apply apart_sym|]; apply Hok. }
  assert (framed a w1 w2) as Hf2' by (apply framed_of; auto).
  destruct Hr as [([] & -> & Hr)|(e & -> & -> & ->)].
  - destruct (move_in_place _ _ _ _ _ Hok Hs2 Hr) as (Hf3 & Hset & Hland). split; [|done].
    eapply framed_trans; [exact Hf1|]. eapply framed_trans; [exact Hf2'|]. apply framed_of; auto.
  - split; [by eapply framed_trans|]. split; [by left|done].
Qed.

Lemma not_exists w p : path_exists w p = false <-> content w p = None.
Proof.
  rewrite <- not_true_iff_false, exists_content. by rewrite <- eq_None_not_Some.
Qed.

Lemma recover_one_effect a w r w' :
  activation_ok a -> settled w a -> recover_one a w = (r, w') ->
  framed a w w' /\ settled w' a /\ (r = Ok tt -> landed w' a).
Proof.
  intros Hok Hset Hr. unfold recover_one in Hr. rewrite !gets_bind in Hr.
  destruct (path_exists w (staging a)) eqn:Hst.
  - assert (content w (staging a) = Some (new a)) as Hs.
    { destruct Hset as [?|[Hn _]]; [done|]. apply not_exists in Hn. congruence. }
    apply M_bind_cases in Hr as (o & w1 & Hm & Hr).
    assert (framed a w w1 /\ content w1 (staging a) = Some (new a)) as [Hf1 Hs1].
    { destruct (path_exists w (destination a)); [|by injection Hm as <- <-].
      apply M_bind_cases in Hm as (o' & w2 & Hm1 & Hm).
      destruct (remove_backup_effect _ _ _ _ Hok Hm1) as (Hf & Hs2 & _). unfold same_at in Hs2. rewrite Hs in Hs2.
      destruct Hm as [([] & -> & Hm)|(e & -> & -> & ->)]; [|done].
      pose proof (move_aside a true _ _ _ _ Hok Hm) as Hf2. split.
      - eapply framed_trans; [exact Hf|apply framed_of; auto].
      - rewrite <- Hs2. apply Hf2; [apply apart_sym|]; apply Hok. }
    destruct Hr as [([] & -> & Hr)|(e & -> & -> & ->)]; [|by split; [|split; [left|]]].
    destruct (move_in_place _ _ _ _ _ Hok Hs1 Hr) as (Hf3 & Hset' & Hland). split; [|done].
    eapply framed_trans; [exact Hf1|]. apply framed_of; auto.
  - apply not_exists in Hst. destruct Hset as [?|Hl]; [congruence|].
    rewrite (proj2 (exists_content w (destination a))) in Hr by (rewrite (proj2 Hl); eauto).
    injection Hr as <- <-. split; [by intros q _|]. split; [by right|done].
Qed.

(** ** Lemmas: all activations *)

Lemma framed_settled a b w w' :
  (forall p q, p ∈ paths_of b -> q ∈ paths_of a -> apart p q) -> framed a w w' ->
  forall p, p ∈ paths_of b -> same_at w w' p.
Proof. intros Hap Hf p Hp. apply Hf. auto. Qed.

(** A loop over the activations whose body does its part of the work. *)
Lemma for_each_effect (f : Activation -> M W unit) (pre mid post : W -> Activation -> Prop) l w r w' :
  (forall a w w', pre w a -> (forall p, p ∈ paths_of a -> same_at w w' p) -> pre w' a) ->
  (forall a w w', mid w a -> (forall p, p ∈ paths_of a -> same_at w w' p) -> mid w' a) ->
  (forall a w w', post w a -> (forall p, p ∈ paths_of a -> same_at w w' p) -> post w' a) ->
  (forall w a, pre w a -> mid w a) ->
  (forall a w r w', activation_ok a -> pre w a -> f a w = (r, w') ->
     framed a w w' /\ mid w' a /\ (r = Ok tt -> post w' a)) ->
  Forall activation_ok l ->
  ForallOrdPairs (fun a b => forall p q, p ∈ paths_of a -> q ∈ paths_of b -> apart p q) l ->
  Forall (pre w) l -> for_each f l w = (r, w') ->
  Forall (mid w') l /\ (r = Ok tt -> Forall (post w') l) /\
  forall q, Forall (fun a => forall p, p ∈ paths_of a -> apart q p) l -> same_at w w' q.
Proof.
  intros Hpre Hmid Hpost Hpm Hf. revert w. induction l as [|a l IH]; intros w Hok Hpairs Hall Hr.
  - injection Hr as <- <-. split; [constructor|]. by split; [constructor|].
  - cbn [for_each] in Hr. apply Forall_cons in Hok as [Ha Hok]. inversion Hpairs as [|? ? Hap Hpairs']; subst.
    apply Forall_cons in Hall as [Hpa Hall]. apply M_bind_cases in Hr as (o & w1 & Hm & Hr).
    destruct (Hf _ _ _ _ Ha Hpa Hm) as (Hfr & Hma & Hpo).
    rewrite List.Forall_forall in Hap. setoid_rewrite <- list_elem_of_In in Hap.
    assert (forall b p, b ∈ l -> p ∈ paths_of b -> same_at w w1 p) as Hsame.
    { intros b p Hb Hp. apply Hfr. intros q Hq. apply apart_sym. by apply (Hap b). }
    assert (Forall (pre w1) l) as Hall1.
    { rewrite Forall_forall in *. intros b Hb. eapply Hpre; [by apply Hall|]. eauto. }
    destruct Hr as [([] & -> & Hr)|(e & -> & -> & ->)].
    + destruct (IH _ Hok Hpairs' Hall1 Hr) as (Hmids & Hposts & Hframe).
      assert (forall p, p ∈ paths_of a -> same_at w1 w' p) as Hsame'.
      { intros p Hp. apply Hframe, Forall_forall. intros b Hb q Hq. by apply (Hap b). }
      split; [constructor; [by eapply Hmid|done]|]. split.
      * intros ->. constructor; [eapply Hpost; [by apply Hpo|done]|auto].
      * intros q Hq. apply Forall_cons in Hq as [Hq1 Hq2]. eapply same_at_trans; [by apply Hfr|by apply Hframe].
    + split; [constructor; [done|]|].
      { rewrite Forall_forall in *. intros b Hb. by apply Hpm, Hall1. }
      split; [done|]. intros q Hq. apply Forall_cons in Hq as [Hq1 _]. by apply Hfr.
Qed.

Lemma same_at_settled a w w' : settled w a -> (forall p, p ∈ paths_of a -> same_at w w' p) -> settled w' a.
Proof. unfold settled, same_at, paths_of. intros Hs E. rewrite !E by set_solver. done. Qed.
Lemma same_at_landed a w w' : landed w a -> (forall p, p ∈ paths_of a -> same_at w w' p) -> landed w' a.
Proof. unfold landed, same_at, paths_of. intros Hs E. rewrite !E by set_solver. done. Qed.

(** The deployment is in place and nothing else is left of the transaction. *)
Definition in_place (w : W) (a : Activation) : Prop := landed w a /\ content w (backup a) = None.

Lemma same_at_in_place a w w' : in_place w a -> (forall p, p ∈ paths_of a -> same_at w w' p) -> in_place w' a.
Proof.
  intros [Hl Hb] E. split; [by eapply same_at_landed|]. rewrite E; [done|]. unfold paths_of. set_solver.
Qed.

Lemma remove_backup_step a w r w' :
  activation_ok a -> landed w a -> remove_path_if_exists (backup a) w = (r, w') ->
  framed a w w' /\ landed w' a /\ (r = Ok tt -> in_place w' a).
Proof.
  intros Hok [Hs Hd] Hr. destruct (remove_backup_effect _ _ _ _ Hok Hr) as (Hf & Hss & Hsd & Hb).
  assert (landed w' a) as Hl by (unfold landed; by rewrite Hss, Hsd).
  split; [done|]. split; [done|]. intros ->. by split; [|apply Hb].
Qed.

(** ** Lemmas: the transaction *)

Context (tx : path) (activations : list Activation).
Context (Hpaths : transaction_paths_ok tx activations).
Context (Hparse : parse_transaction (transaction_text activations) = Ok activations).

(** The transaction is published; none is; it waits to be resumed; it is done. *)
Definition published (w : W) : Prop := is_file w tx = true /\ read_to_string w tx = inl (transaction_text activations).
Definition unpublished (w : W) : Prop := is_file w tx = false.
Definition pending (w : W) : Prop := published w /\ Forall (settled w) activations.
Definition finished (w : W) : Prop := unpublished w /\ Forall (in_place w) activations.

Lemma published_same w w' : same_at w w' tx -> published w -> published w'.
Proof. intros E%content_reads [H2 H3]. unfold published. destruct E as [-> ->]. done. Qed.

Lemma tx_apart : Forall (fun a => forall p, p ∈ paths_of a -> apart tx p) activations.
Proof.
  destruct Hpaths as (_ & _ & Ht & _). eapply Forall_impl; [exact Ht|]. intros a Ha p Hp. apply apart_sym, Ha, Hp.
Qed.

Lemma same_at_all (P : W -> Activation -> Prop) w w' l :
  (forall a w w', P w a -> (forall p, p ∈ paths_of a -> same_at w w' p) -> P w' a) ->
  (forall a p, a ∈ l -> p ∈ paths_of a -> same_at w w' p) ->
  Forall (P w) l -> Forall (P w') l.
Proof.
  intros HP E Hall. rewrite Forall_forall in *. intros a Ha. eapply HP; [by apply Hall|]. intros p. by apply E.
Qed.

(** Both [finish_activation] and the recovery end in this way. *)
Definition complete (remove_transaction : M W unit) : M W unit :=
  _ ← for_each (fun a => remove_path_if_exists (backup a)) activations;
  _ ← remove_transaction;
  sync_parent tx.

Lemma complete_effect (rm : M W unit) w r w' :
  (forall w r w', rm w = (r, w') -> exists o, remove_file tx w = (o, w') /\ (r = Ok tt <-> o = inl tt)) ->
  published w -> Forall (landed w) activations -> complete rm w = (r, w') ->
  (r = Ok tt -> finished w') /\ (pending w' \/ finished w').
Proof.
  intros Hrm Hpub Hl Hr. unfold complete in Hr. apply M_bind_cases in Hr as (o & w1 & Hm & Hr).
  pose proof Hpaths as (Hok & Hpairs & Htx & _).
  destruct (for_each_effect (fun a => remove_path_if_exists (backup a)) landed landed in_place _ _ _ _
    same_at_landed same_at_landed same_at_in_place (fun _ _ p => p) remove_backup_step Hok Hpairs Hl Hm)
    as (Hl1 & Hdone & Hframe).
  assert (published w1) as Hpub1 by (eapply published_same; [apply Hframe, tx_apart|done]).
  assert (forall w, Forall (landed w) activations -> Forall (settled w) activations) as Hset
    by (intros w0 Hw0; eapply Forall_impl; [exact Hw0|by right]).
  destruct Hr as [([] & -> & Hr)|(e & -> & -> & ->)]; [|split; [done|left; split; auto]].
  specialize (Hdone eq_refl). apply M_bind_cases in Hr as (o & w2 & Hm2 & Hr).
  destruct (Hrm _ _ _ Hm2) as (o2 & Erm & Ho). destruct (remove_file_content _ _ _ _ Erm) as (Hgone & Hkept & Hothers).
  assert (forall a p, a ∈ activations -> p ∈ paths_of a -> same_at w1 w2 p) as Hsame2.
  { intros a p Ha Hp. apply Hothers. rewrite Forall_forall in Htx. by apply (Htx a). }
  destruct Hr as [(u & -> & Hr)|(e & -> & -> & ->)].
  - destruct u. assert (o2 = inl tt) as -> by by apply Ho.
    pose proof (sync_parent_effect _ _ _ _ Hr) as Hsync.
    assert (finished w') as Hfin; [|by split; [|right]]. split.
    + apply (no_content_no_file w' tx). rewrite Hsync. by apply Hgone.
    + eapply (same_at_all in_place); [apply same_at_in_place|intros a p _ _; apply Hsync|].
      eapply (same_at_all in_place); [apply same_at_in_place|exact Hsame2|done].
  - split; [done|]. left. destruct o2 as [[]|e2]; [by discriminate (proj2 Ho eq_refl)|]. split.
    + eapply published_same; [|exact Hpub1]. by apply (Hkept e2).
    + apply Hset. eapply (same_at_all landed); [apply same_at_landed|exact Hsame2|done].
Qed.

Lemma io_step_remove msg w r w' :
  io_step msg (remove_file tx) w = (r, w') -> exists o, remove_file tx w = (o, w') /\ (r = Ok tt <-> o = inl tt).
Proof.
  unfold io_step. destruct (remove_file tx w) as [[[]|e] w1]; intros Hr; injection Hr as <- <-; by eexists.
Qed.
Lemma io_try_remove w r w' :
  io_try (remove_file tx) w = (r, w') -> exists o, remove_file tx w = (o, w') /\ (r = Ok tt <-> o = inl tt).
Proof.
  unfold io_try. destruct (remove_file tx w) as [[[]|e] w1]; intros Hr; injection Hr as <- <-; by eexists.
Qed.

Definition fresh (w : W) (a : Activation) : Prop := content w (staging a) = Some (new a).
Lemma same_at_fresh a w w' : fresh w a -> (forall p, p ∈ paths_of a -> same_at w w' p) -> fresh w' a.
Proof. unfold fresh, same_at, paths_of. intros Hs E. rewrite E by set_solver. done. Qed.

Lemma finish_effect w r w' :
  published w -> Forall (fresh w) activations ->
  finish_activation tx activations w = (r, w') ->
  (r = Ok tt -> finished w') /\ (pending w' \/ finished w').
Proof.
  intros Hpub Hst Hr. unfold finish_activation in Hr. apply M_bind_cases in Hr as (o & w1 & Hm & Hr).
  pose proof Hpaths as (Hok & Hpairs & _).
  destruct (for_each_effect activate_one fresh settled landed _ _ _ _
    same_at_fresh same_at_settled same_at_landed ltac:(by left) activate_one_effect Hok Hpairs Hst Hm) as (Hset & Hland & Hframe).
  assert (published w1) as Hpub1 by (eapply published_same; [apply Hframe, tx_apart|done]).
  destruct Hr as [([] & -> & Hr)|(e & -> & -> & ->)]; [|by split; [|left]].
  eapply (complete_effect (io_step _ (remove_file tx))); [apply io_step_remove|exact Hpub1|by apply Hland|exact Hr].
Qed.

Lemma recover_effect w r w' :
  pending w -> recover_activation_file tx w = (r, w') ->
  (r = Ok tt -> finished w') /\ (pending w' \/ finished w').
Proof.
  intros [Hpub Hset] Hr. unfold recover_activation_file in Hr. rewrite gets_bind in Hr.
  pose proof Hpub as [Hfile Hread]. rewrite Hfile in Hr. cbn [negb] in Hr.
  unfold getr, lift in Hr. unfold mbind at 1, M_bind at 1 in Hr. rewrite Hread in Hr. cbn [io_context] in Hr.
  unfold mbind at 1, M_bind at 1 in Hr. rewrite Hparse in Hr.
  apply M_bind_cases in Hr as (o & w1 & Hm & Hr). pose proof Hpaths as (Hok & Hpairs & _).
  destruct (for_each_effect recover_one settled settled landed _ _ _ _
    same_at_settled same_at_settled same_at_landed (fun _ _ p => p) recover_one_effect Hok Hpairs Hset Hm) as (Hset1 & Hland & Hframe).
  assert (published w1) as Hpub1 by (eapply published_same; [apply Hframe, tx_apart|done]).
  destruct Hr as [([] & -> & Hr)|(e & -> & -> & ->)]; [|by split; [|left]].
  eapply (complete_effect (io_try (remove_file tx))); [apply io_try_remove|exact Hpub1|by apply Hland|exact Hr].
Qed.

Lemma recover_unpublished w : unpublished w -> recover_activation_file tx w = (Ok tt, w).
Proof. intros E. unfold recover_activation_file. rewrite gets_bind, E. done. Qed.

(** ** Lemmas: publishing *)

(** Nothing happened to the destinations, and no transaction is published. *)
Definition untouched (w0 w : W) : Prop :=
  unpublished w /\ Forall (fun a => same_at w0 w (destination a)) activations.

Definition publish_and_finish : M W unit :=
  _ ← write_transaction tx activations; finish_activation tx activations.

Lemma unpublished_same w w' : same_at w w' tx -> unpublished w -> unpublished w'.
Proof. intros E%content_reads. unfold unpublished. by destruct E as [_ ->]. Qed.

Lemma publish_effect w0 r w :
  unpublished w0 -> Forall (fresh w0) activations -> publish_and_finish w0 = (r, w) ->
  (r = Ok tt -> finished w) /\ (untouched w0 w \/ pending w \/ finished w).
Proof.
  intros Hun Hfresh Hr. pose proof Hpaths as (_ & _ & Htx & Hpt).
  set (partial := with_extension tx "transaction.part") in *.
  assert (forall w w', (forall q, apart q partial -> apart q tx -> same_at w w' q) ->
    forall a p, a ∈ activations -> p ∈ paths_of a -> same_at w w' p) as Hout.
  { intros w1 w2 Hs a p Ha Hp. rewrite Forall_forall in Htx. destruct (Htx _ Ha _ Hp). by apply Hs. }
  assert (forall w', (forall q, apart q partial -> apart q tx -> same_at w0 w' q) -> same_at w0 w' tx -> untouched w0 w') as Hun'.
  { intros w' Hs Ht. split; [by eapply unpublished_same|]. apply Forall_forall. intros a Ha.
    eapply Hout; [exact Hs|exact Ha|left]. }
  apply M_bind_cases in Hr as (o & w1 & Hm & Hr). unfold write_transaction in Hm. fold partial in Hm.
  apply M_bind_cases in Hm as (o1 & w2 & Hw & Hm). unfold io_step in Hw.
  destruct (write_file partial (transaction_text activations) w0) as [ow w3] eqn:Ew.
  destruct (write_content _ _ _ _ _ Ew) as [Hwritten Hframe]. injection Hw as <- <-.
  assert (untouched w0 w3) as Hu3 by (apply Hun'; [intros q Hq _; by apply Hframe|apply Hframe; by apply apart_sym]).
  destruct ow as [[]|ew]; cbn [io_context] in Hm; destruct Hm as [(? & [=] & Hm)|(e & [=] & -> & ->)].
  2: { destruct Hr as [(? & [=] & _)|(e' & _ & -> & ->)]. by split; [|left]. }
  destruct (Hwritten eq_refl) as [Hfile Hread]. apply M_bind_cases in Hm as (o2 & w4 & Hren & Hm).
  destruct (rename_effect _ _ _ _ _ _ Hpt Hren) as [Hf [(-> & Hc & _)|[[e ->] Hsame]]].
  - destruct Hm as [(? & _ & Hm)|(e & [=] & _)]. pose proof (sync_parent_effect _ _ _ _ Hm) as Hsync.
    assert (published w1) as Hpub.
    { apply (published_same w4); [apply Hsync|]. apply content_reads in Hc as [Hr1 Hr2]. unfold published. by rewrite Hr1, Hr2. }
    assert (Forall (fresh w1) activations) as Hfr.
    { eapply (same_at_all fresh); [apply same_at_fresh|intros a p _ _; apply Hsync|].
      eapply (same_at_all fresh); [apply same_at_fresh|apply Hout; exact Hf|].
      eapply (same_at_all fresh); [apply same_at_fresh|apply Hout; intros q Hq _; by apply Hframe|exact Hfresh]. }
    destruct Hr as [([] & -> & Hr)|(e & -> & -> & ->)].
    + destruct (finish_effect _ _ _ Hpub Hfr Hr). tauto.
    + split; [done|]. right. left. split; [done|]. eapply Forall_impl; [exact Hfr|by left].
  - destruct Hm as [(? & [=] & _)|(e' & _ & -> & ->)]. destruct Hr as [(? & [=] & _)|(e'' & _ & -> & ->)].
    split; [done|]. left. apply Hun'.
    + intros q Hq1 Hq2. eapply same_at_trans; [by apply Hframe|apply Hsame].
    + eapply same_at_trans; [apply Hframe; by apply apart_sym|apply Hsame].
Qed.

(** The states that publishing and any number of recoveries leave behind,
    each of which may have stopped anywhere. *)
Inductive after_stops (w0 : W) : W -> Prop :=
| stopped r w : publish_and_finish w0 = (r, w) -> after_stops w0 w
| stopped_again r w w' : after_stops w0 w -> recover_activation_file tx w = (r, w') -> after_stops w0 w'.

Lemma after_stops_states w0 w :
  unpublished w0 -> Forall (fresh w0) activations -> after_stops w0 w ->
  untouched w0 w \/ pending w \/ finished w.
Proof.
  intros Hun Hfresh Hw. induction Hw as [r w Hr|r w w' _ IH Hr].
  - by apply publish_effect in Hr as [_ ?].
  - destruct IH as [Hu|[Hp|Hf]].
    + rewrite recover_unpublished in Hr by apply Hu. injection Hr as _ <-. by left.
    + apply recover_effect in Hr as [_ ?]; [|done]. tauto.
    + rewrite recover_unpublished in Hr by apply Hf. injection Hr as _ <-. by right; right.
Qed.

(** ** Lemmas: recovery makes progress *)

(** The operations fail only on what is not there, or in the way. *)
Record reliable : Prop := {
  rename_works : forall w p q, is_Some (content w p) -> content w q = None -> exists w', rename_file p q w = (inl tt, w');
  remove_works : forall w p, match symlink_kind w p with
    | inl Directory => exists w', remove_dir_all p w = (inl tt, w')
    | inl _ => exists w', remove_file p w = (inl tt, w')
    | inr e => ioe_kind e = NotFound
    end;
  remove_file_works : forall w p, is_file w p = true -> exists w', remove_file p w = (inl tt, w');
  sync_works : forall w p, exists w', sync_directory p w = (inl tt, w');
}.

Context (Hreliable : reliable).

Lemma remove_path_works p w : exists w', remove_path_if_exists p w = (Ok tt, w').
Proof.
  unfold remove_path_if_exists. pose proof (remove_works Hreliable w p) as Hrm.
  destruct (symlink_kind w p) as [[]|e]; [..|rewrite bool_decide_true by done; by eexists];
    destruct Hrm as [w' E]; exists w'; unfold io_step; by rewrite E.
Qed.

Lemma sync_parent_works p w : parent p <> None -> exists w', sync_parent p w = (Ok tt, w').
Proof.
  unfold sync_parent, lift, mbind, M_bind. intros Hp. destruct (parent p) as [d|]; [|done]. cbn [ok_or].
  destruct (sync_works Hreliable w d) as [w' E]. exists w'. unfold io_step. by rewrite E.
Qed.

Lemma M_bind_works {A B} (m : M W A) (f : A -> M W B) w a w1 b w2 :
  m w = (Ok a, w1) -> f a w1 = (Ok b, w2) -> (m ≫= f) w = (Ok b, w2).
Proof. intros Hm Hf. unfold mbind, M_bind. by rewrite Hm. Qed.

Lemma rename_step_works msg p q w :
  is_Some (content w p) -> content w q = None -> exists w', io_step msg (rename_file p q) w = (Ok tt, w').
Proof.
  intros Hp Hq. destruct (rename_works Hreliable w p q Hp Hq) as [w' E]. exists w'. unfold io_step. by rewrite E.
Qed.

Lemma recover_one_works a w :
  activation_ok a -> parent (destination a) <> None -> settled w a -> exists w', recover_one a w = (Ok tt, w').
Proof.
  intros Hok Hpar Hset. unfold recover_one. rewrite !gets_bind.
  destruct (path_exists w (staging a)) eqn:Hst.
  - assert (content w (staging a) = Some (new a)) as Hs.
    { destruct Hset as [?|[Hn _]]; [done|]. apply not_exists in Hn. congruence. }
    assert (exists w1, (if path_exists w (destination a)
        then _ ← remove_path_if_exists (backup a);
             io_step (fmt ["preserve deployment while resuming "; destination a]) (rename_file (destination a) (backup a))
        else mret tt) w = (Ok tt, w1) /\ content w1 (destination a) = None /\ content w1 (staging a) = Some (new a)) as (w1 & E1 & Hd1 & Hs1).
    { destruct (path_exists w (destination a)) eqn:Hd; [|exists w; split; [done|]; by apply not_exists in Hd].
      destruct (remove_path_works (backup a) w) as [w2 E2].
      destruct (remove_backup_effect _ _ _ _ Hok E2) as (_ & Hs2 & Hd2 & Hb2). specialize (Hb2 eq_refl).
      unfold same_at in Hs2, Hd2. apply exists_content in Hd.
      destruct (rename_step_works (fmt ["preserve deployment while resuming "; destination a]) (destination a) (backup a) w2)
        as [w3 E3]; [by rewrite Hd2|done|].
      exists w3. split; [by eapply M_bind_works|].
      destruct (rename_effect _ _ _ _ _ _ (proj1 (proj2 Hok)) E3) as [Hf [(_ & _ & Hn)|[[e [=]] _]]].
      split; [done|]. unfold same_at in Hf. rewrite Hf; [by rewrite Hs2|apply apart_sym, Hok|apply Hok]. }
    destruct (rename_step_works (fmt ["resume deployment "; destination a]) (staging a) (destination a) w1) as [w2 E2];
      [rewrite Hs1; eauto|done|].
    destruct (sync_parent_works (destination a) w2 Hpar) as [w3 E3].
    exists w3. eapply M_bind_works; [exact E1|]. eapply M_bind_works; [exact E2|exact E3].
  - apply not_exists in Hst. destruct Hset as [?|Hl]; [congruence|].
    rewrite (proj2 (exists_content w (destination a))) by (rewrite (proj2 Hl); eauto). by exists w.
Qed.

(** A loop whose body always gets through, from states the others' frames keep. *)
Lemma for_each_works (f : Activation -> M W unit) (pre mid post : W -> Activation -> Prop) l w :
  (forall a w w', pre w a -> (forall p, p ∈ paths_of a -> same_at w w' p) -> pre w' a) ->
  (forall a w r w', activation_ok a -> pre w a -> f a w = (r, w') -> framed a w w' /\ mid w' a /\ (r = Ok tt -> post w' a)) ->
  (forall a w, a ∈ l -> activation_ok a -> pre w a -> exists w', f a w = (Ok tt, w')) ->
  Forall activation_ok l ->
  ForallOrdPairs (fun a b => forall p q, p ∈ paths_of a -> q ∈ paths_of b -> apart p q) l ->
  Forall (pre w) l -> exists w', for_each f l w = (Ok tt, w').
Proof.
  intros Hpre Hf. revert w. induction l as [|a l IH]; intros w Hworks Hok Hpairs Hall; [by exists w|].
  apply Forall_cons in Hok as [Ha Hok]. inversion Hpairs as [|? ? Hap Hpairs']; subst.
  apply Forall_cons in Hall as [Hpa Hall]. destruct (Hworks a w ltac:(left) Ha Hpa) as [w1 E1].
  destruct (Hf _ _ _ _ Ha Hpa E1) as (Hfr & _).
  rewrite List.Forall_forall in Hap. setoid_rewrite <- list_elem_of_In in Hap.
  destruct (IH w1) as [w2 E2]; [intros b w0 Hb; apply Hworks; by right|done|done| |].
  - rewrite Forall_forall in *. intros b Hb. eapply Hpre; [by apply Hall|]. intros p Hp. apply Hfr.
    intros q Hq. apply apart_sym. by apply (Hap b).
  - exists w2. cbn [for_each]. by eapply M_bind_works.
Qed.

Lemma recover_works w :
  Forall (fun a => parent (destination a) <> None) activations -> parent tx <> None ->
  pending w -> exists w', recover_activation_file tx w = (Ok tt, w').
Proof.
  intros Hpar Htxp [Hpub Hset]. pose proof Hpaths as (Hok & Hpairs & Htx & _). pose proof Hpub as [Hfile Hread].
  rewrite Forall_forall in Hpar.
  destruct (for_each_works recover_one settled settled landed activations w) as [w1 E1];
    [apply same_at_settled|apply recover_one_effect|intros a w0 Ha Hoka; apply recover_one_works; auto|done|done|done|].
  destruct (for_each_effect recover_one settled settled landed _ _ _ _
    same_at_settled same_at_settled same_at_landed (fun _ _ p => p) recover_one_effect Hok Hpairs Hset E1) as (_ & Hland & Hframe1).
  specialize (Hland eq_refl).
  destruct (for_each_works (fun a => remove_path_if_exists (backup a)) landed landed in_place activations w1) as [w2 E2];
    [apply same_at_landed|apply remove_backup_step|intros a w0 _ _ _; apply remove_path_works|done|done|done|].
  destruct (for_each_effect (fun a => remove_path_if_exists (backup a)) landed landed in_place _ _ _ _
    same_at_landed same_at_landed same_at_in_place (fun _ _ p => p) remove_backup_step Hok Hpairs Hland E2) as (_ & _ & Hframe2).
  assert (published w2) as [Hfile2 _].
  { eapply published_same; [apply Hframe2, tx_apart|]. by eapply published_same; [apply Hframe1, tx_apart|]. }
  destruct (remove_file_works Hreliable w2 tx Hfile2) as [w3 E3].
  destruct (sync_parent_works tx w3 Htxp) as [w4 E4]. exists w4.
  unfold recover_activation_file. rewrite gets_bind, Hfile. cbn [negb].
  eapply (M_bind_works _ _ w (transaction_text activations) w); [unfold getr; by rewrite Hread|].
  eapply (M_bind_works _ _ w activations w); [unfold lift; by rewrite Hparse|].
  eapply M_bind_works; [exact E1|]. eapply M_bind_works; [exact E2|].
  eapply (M_bind_works _ _ w2 tt w3); [unfold io_try; by rewrite E3|exact E4].
Qed.
End Crash.

(** ** The transaction file *)

Definition plain_path (p : path) : Prop := has TAB p = false /\ has LF p = false /\ strip_cr p = p /\ p <> "".

Lemma strip_cr_app a b : b <> "" -> strip_cr b = b -> strip_cr (a +:+ b) = a +:+ b.
Proof.
  intros Hne Hb. unfold strip_cr in *. destruct (strip_suffix (String CR "") (a +:+ b)) as [r|] eqn:E; [|done].
  exfalso. apply strip_suffix_Some in E.
  assert (ends_with (String CR "") b = true) as He.
  { rewrite <- (ends_with_app_ne CR a b Hne). apply ends_with_true. eauto. }
  apply ends_with_true in He as [r' ->]. rewrite (proj2 (strip_suffix_Some (String CR "") (r' +:+ String CR "") r') eq_refl) in Hb.
  change (r' = r' +:+ String CR "") in Hb. apply (f_equal len) in Hb. rewrite len_app in Hb. cbn [len String.length] in Hb.
  change (len (String CR "")) with 1 in Hb. lia.
Qed.

Lemma parse_entry_line a :
  Forall plain_path (paths_of a) -> clean_line (transaction_line a) /\ parse_entry (transaction_line a) = Ok a.
Proof.
  intros Hp. unfold paths_of in Hp. rewrite !Forall_cons in Hp.
  destruct Hp as ((Ht1 & Hl1 & _) & (Ht2 & Hl2 & _) & (Ht3 & Hl3 & Hc3 & Hn3) & _).
  unfold transaction_line. rewrite !fmt_cons, fmt_nil, sapp_nil_r. split.
  - split.
    + rewrite !has_app, Hl1, Hl2, Hl3. done.
    + rewrite <- !sapp_assoc. by apply strip_cr_app.
  - unfold parse_entry. change (String TAB "" +:+ ?x) with (String TAB x).
    rewrite split_app_sep, (split_no_sep TAB (destination a)) by done. cbn [app].
    change (String TAB "" +:+ backup a) with (String TAB (backup a)).
    rewrite split_app_sep, (split_no_sep TAB (staging a)), (split_no_sep TAB (backup a)) by done. by destruct a.
Qed.

(** A transaction file is read back as it was written. *)
Lemma transaction_roundtrip activations :
  Forall (fun a => Forall plain_path (paths_of a)) activations ->
  parse_transaction (transaction_text activations) = Ok activations.
Proof.
  intros Hall. unfold parse_transaction, transaction_text. rewrite lines_of_lines.
  - cbn [String.eqb Ascii.eqb Bool.eqb]. induction Hall as [|a l Ha _ IH]; cbn [map map_result]; [done|].
    rewrite (proj2 (parse_entry_line a Ha)). cbn [mbind result_bind]. by rewrite IH.
  - constructor; [by split|]. induction Hall as [|a l Ha _ IH]; cbn; constructor; [by apply parse_entry_line|done].
Qed.

(** ** Correctness *)

(** C2.  Deploying is all or nothing.  Start from staged deployments and no
    published transaction, let the publication and the activation stop anywhere
    and any number of recoveries stop anywhere after it: once a recovery
    returns, either no destination was touched, or every destination holds its
    new deployment and nothing is left in the staging and backup places.  An
    activation that returns has installed everything. *)
Theorem activation_all_or_nothing `{ContentFs W T} (new : Activation -> T) tx activations (w0 : W) :
  transaction_paths_ok tx activations -> Forall (fun a => Forall plain_path (paths_of a)) activations ->
  unpublished tx w0 -> Forall (fresh new w0) activations ->
  (forall w, publish_and_finish tx activations w0 = (Ok tt, w) -> finished new tx activations w) /\
  (forall w w', after_stops tx activations w0 w -> recover_activation_file tx w = (Ok tt, w') ->
     untouched tx activations w0 w' \/ finished new tx activations w').
Proof.
  intros Hpaths Hplain Hun Hfresh. pose proof (transaction_roundtrip _ Hplain) as Hparse. split.
  - intros w Hr. eapply (publish_effect new tx activations Hpaths Hparse w0 (Ok tt) w); eauto.
  - intros w w' Hw Hr.
    destruct (after_stops_states new tx activations Hpaths Hparse w0 w Hun Hfresh Hw) as [Hu|[Hp|Hf]].
    + rewrite recover_unpublished in Hr by apply Hu. injection Hr as <-. by left.
    + right. eapply (recover_effect new tx activations Hpaths Hparse w (Ok tt) w'); eauto.
    + rewrite recover_unpublished in Hr by apply Hf. injection Hr as <-. by right.
Qed.


(** ** A file system of opaque objects *)

#[export] Instance component_countable : Countable component.
Proof.
  refine (inj_countable'
    (fun c => match c with RootDir => inl 0 | CurDir => inl 1 | ParentDir => inl 2 | Normal s => inr s end)
    (fun k => match k with inl 0 => RootDir | inl 1 => CurDir | inl _ => ParentDir | inr s => Normal s end) _).
  by intros [].
Defined.

(** Each path holds an object or nothing.  Flushing a directory fails in the
    states that [trouble] selects, so that a run can be made to stop. *)
Abbreviation Flat := (gmap (list component) string) (only parsing).
Definition flat_delete (p : path) (w : Flat) : io_result unit * Flat :=
  match w !! components p with Some _ => (inl tt, delete (components p) w) | None => (inr not_found, w) end.
Definition flat_rename (p q : path) (w : Flat) : io_result unit * Flat :=
  match w !! components p with
  | Some d => (inl tt, <[components q := d]> (delete (components p) w))
  | None => (inr not_found, w)
  end.

#[export] Instance flat_fs : HostFs Flat := {
  canonicalize w p := inl p;
  path_exists w p := bool_decide (is_Some (w !! components p));
  is_dir w p := false;
  read_dir w p := inr not_found;
  read_to_string w p := match w !! components p with Some d => inl d | None => inr not_found end;
  create_dir_all w p := inl w;
}.
#[export] Instance flat_file_ops : FileOps Flat := {
  is_file w p := bool_decide (is_Some (w !! components p));
  symlink_kind w p := match w !! components p with Some _ => inl RegularFile | None => inr not_found end;
  make_dirs p w := (inl tt, w);
  set_mode p m w := (inl tt, w);
  write_file p d w := (inl tt, <[components p := d]> w);
  rename_file := flat_rename;
  remove_file := flat_delete;
  remove_dir_all := flat_delete;
}.
Definition flat_storage (trouble : Flat -> bool) : StorageOps Flat := {|
  sync_directory p w := (if trouble w then inr not_found else inl tt, w);
  repo_pull _ _ _ w := (inl tt, w);
  fsck_object _ w := (inl tt, w);
  checkout_at p sum w := (inl tt, <[components p := sum]> w);
  repo_installed_size _ _ := Ok 0%Z |}.

Lemma apart_ne p q : apart p q -> components p <> components q.
Proof. intros [Hn _] E. apply Hn. by rewrite E. Qed.

#[export] Instance flat_content trouble : @ContentFs Flat string _ _ (flat_storage trouble).
Proof.
  unshelve refine (Build_ContentFs _ _ _ _ _ (fun w p => w !! components p) _ _ _ _ _ _ _ _ _ _); cbn.
  - intros w p. apply bool_decide_eq_true.
  - intros w p. destruct (w !! components p) eqn:E; cbn; [by eexists|done].
  - intros w w' p q ->. done.
  - intros w p ->. done.
  - intros w p q w' Ha%apart_ne. unfold flat_rename. destruct (w !! components p) eqn:E; [|done].
    intros Hr. simplify_eq. rewrite lookup_insert_eq, lookup_insert_ne, lookup_delete_eq by done.
    split; [done|]. split; [done|]. split; [by eexists|]. intros r Hr1%apart_ne Hr2%apart_ne.
    by rewrite lookup_insert_ne, lookup_delete_ne by done.
  - intros w p q e w' r. unfold flat_rename. destruct (w !! components p); [done|]. by intros [= _ <-].
  - intros w p r w'. unfold flat_delete. destruct (w !! components p) eqn:E; intros Hr; simplify_eq.
    + split; [by rewrite lookup_delete_eq|]. intros q Hq%apart_ne. by rewrite lookup_delete_ne by done.
    + by split.
  - intros w p r w'. unfold flat_delete. destruct (w !! components p) eqn:E; intros Hr; simplify_eq.
    + split; [by rewrite lookup_delete_eq|]. split; [done|]. intros q Hq%apart_ne. by rewrite lookup_delete_ne by done.
    + by split.
  - intros w p d r w' Hr. simplify_eq. rewrite lookup_insert_eq. split; [by split|].
    intros q Hq%apart_ne. by rewrite lookup_insert_ne by done.
  - intros w p r w' q Hr. by simplify_eq.
Defined.

#[export] Instance apart_dec p q : Decision (apart p q).
Proof. unfold apart. apply _. Defined.

Definition example_activation (n : string) : Activation :=
  mkActivation (fmt ["/data/apps/"; n; "/c1"]) (fmt ["/data/apps/"; n; "/.c1.ostree-c1.staging"])
    (fmt ["/data/apps/"; n; "/.c1.ostree-previous"]).
Definition example_activations : list Activation := [example_activation "a"; example_activation "b"].
Definition example_tx : path := "/data/.storage-transaction".
Definition example_new (a : Activation) : string := fmt ["new "; destination a].

(** Both deployments are staged over old ones. *)
Definition example_disk : Flat :=
  list_to_map (flat_map (fun a => [(components (staging a), example_new a);
                                   (components (destination a), fmt ["old "; destination a])]) example_activations).

(** The run stops after the first deployment was moved in place. *)
Definition example_trouble (w : Flat) : bool :=
  bool_decide (is_Some (w !! components "/data/apps/a/.c1.ostree-previous"))
  && bool_decide (w !! components "/data/apps/b/c1" = Some "old /data/apps/b/c1").
#[export] Instance example_storage : StorageOps Flat := flat_storage example_trouble.

(** Splits membership in a literal list. *)
Ltac each_elem H :=
  repeat (apply elem_of_cons in H as [-> | H]); [..|by apply elem_of_nil in H].

Lemma example_paths_ok : transaction_paths_ok example_tx example_activations.
Proof.
  unfold transaction_paths_ok, example_activations. split; [|split; [|split]].
  - repeat constructor; apply (bool_decide_unpack _); vm_compute; exact I.
  - constructor; [|by repeat constructor]. apply List.Forall_cons; [|constructor].
    intros p q Hp Hq. unfold paths_of in Hp, Hq. each_elem Hp; each_elem Hq;
      apply (bool_decide_unpack _); vm_compute; exact I.
  - apply List.Forall_forall. intros a Ha%list_elem_of_In p Hp. each_elem Ha; unfold paths_of in Hp; each_elem Hp;
      split; apply (bool_decide_unpack _); vm_compute; exact I.
  - apply (bool_decide_unpack _); vm_compute; exact I.
Qed.

Lemma example_plain : Forall (fun a => Forall plain_path (paths_of a)) example_activations.
Proof. repeat constructor; vm_compute; congruence. Qed.
Lemma example_fresh : Forall (fresh example_new example_disk) example_activations.
Proof. repeat constructor; vm_compute; reflexivity. Qed.

Lemma activation_all_or_nothing_witness :
  let stop := publish_and_finish example_tx example_activations example_disk in
  let recovery := recover_activation_file example_tx stop.2 in
  is_ok stop.1 = false /\
  stop.2 !! components "/data/apps/a/c1" = Some "new /data/apps/a/c1" /\
  stop.2 !! components "/data/apps/b/c1" = Some "old /data/apps/b/c1" /\
  recovery.1 = Ok tt /\
  (untouched example_tx example_activations example_disk recovery.2 \/
   finished example_new example_tx example_activations recovery.2).
Proof.
  intros stop recovery. assert (recovery.1 = Ok tt) as Er by (vm_compute; reflexivity).
  split; [vm_compute; reflexivity|]. split; [vm_compute; reflexivity|]. split; [vm_compute; reflexivity|].
  split; [exact Er|].
  refine (proj2 (activation_all_or_nothing example_new example_tx example_activations example_disk
    example_paths_ok example_plain _ example_fresh) stop.2 recovery.2 (stopped _ _ _ _ _ (surjective_pairing _)) _).
  - vm_compute. reflexivity.
  - rewrite <- Er. apply surjective_pairing.
Defined.

(** With flushes that succeed, the operations are reliable. *)
Lemma calm_reliable :
  @reliable Flat string _ _ (flat_storage (fun _ => false)) (flat_content (fun _ => false)).
Proof.
  split; cbn; intros w p.
  - intros q [d E] _. exists (<[components q := d]> (delete (components p) w)). unfold flat_rename. by rewrite E.
  - unfold flat_delete. destruct (w !! components p); [by eexists|done].
  - unfold flat_delete. intros [d E]%bool_decide_eq_true. rewrite E. by eexists.
  - by eexists.
Qed.

