(* ===== verification/RemoteConfig.v ===== *)
(** * RemoteConfig: the configured remotes (src/src/remotes/remote_config.rs)

    Every remote is a file of [key=value] lines named after it.  A remote's
    name is checked before it becomes a file name; its location and key are
    what the OSTree remote is configured with.  The lemmas say that a
    configuration that was written is read back, and that names and files
    correspond one to one. *)
From Stdlib Require Import Ascii String NArith ZArith Lia Sorting.Sorted.
From stdpp Require Import base list strings sets.
From S2P Require Import Prelude Effects Collections RustStr RustNum RustPath HostFs InstallationPaths Records.

Definition FLATHUB_URL : string := "https://dl.flathub.org/repo".
Definition FLATHUB_TITLE : string := "Flathub".
Definition BOOTSTRAP_MARKER : string := ".initialized-v1".

Record Remote := mkRemote {
  r_name : string;
  url : string;
  title : option string;
  enabled : bool;
  gpg_verify : bool;
  gpg_key : option string;
}.

(** The key file compiled into the program is a parameter. *)
Definition flathub (key_base64 : string) : Remote :=
  mkRemote DEFAULT_REMOTE FLATHUB_URL (Some FLATHUB_TITLE) true true (Some (trim key_base64)).

(** ** Validation *)

Fixpoint any_whitespace (l : list ascii) : bool :=
  match l with
  | [] => false
  | a :: r =>
      ws1 a
      || match r with
         | b :: r2 => ws2 a b || match r2 with c :: _ => ws3 a b c | [] => false end
         | [] => false
         end
      || any_whitespace r
  end.

Definition validate_name (n : string) : result unit :=
  if is_empty n || String.eqb n "." || String.eqb n ".."
     || negb (forallb (ascii_char (fun a => is_alnum a || Ascii.eqb a "." || Ascii.eqb a "-" || Ascii.eqb a "_")) (chars n))
  then bail (fmt ["invalid remote name: "; debug_str n]) else Ok tt.

Definition validate_url (u : string) : result unit :=
  if any_whitespace (list_ascii_of_string u)
  then bail (fmt ["remote URL must not contain whitespace: "; debug_str u])
  else if negb (starts_with "https://" u || starts_with "http://" u || starts_with "file://" u)
  then bail (fmt ["remote location must be an http, https, or file URL: "; u])
  else Ok tt.

Definition validate_remote (r : Remote) : result unit :=
  _ ← validate_name (r_name r);
  if match title r with Some t => has LF t || has CR t | None => false end
  then bail "remote title must be a single line"
  else validate_url (url r).

Definition normalize_url (u : string) : string := trim_end_matches "/" u.

(** ** The configuration files *)

Definition config_path (i : Installation) (n : string) : path := join_path (remote_configs i) (fmt [n; ".conf"]).

Definition remote_entries (r : Remote) : list (string * string) :=
  [("name", r_name r); ("url", url r); ("title", default "" (title r)); ("enabled", show_bool (enabled r));
   ("gpg_verify", show_bool (gpg_verify r)); ("gpg_key", default "" (gpg_key r))].

Definition insert_line (m : values) (l : string) : values :=
  match split_once "=" l with None => m | Some (k, v) => bm_insert k v m end.

Definition nonempty (s : string) : option string := if is_empty s then None else Some s.

(** What [read_path] makes of the text of a file. *)
Definition parse_remote (data : string) : result Remote :=
  let m := foldl insert_line [] (lines data) in
  let value key := ok_or (fmt ["remote configuration missing "; key]) (bm_get key m) in
  on ← (s ← value "enabled"; ok_or "parse remote enabled setting" (parse_bool s));
  verify ← (s ← value "gpg_verify"; ok_or "parse remote gpg_verify setting" (parse_bool s));
  t ← value "title";
  key ← value "gpg_key";
  n ← value "name";
  u ← value "url";
  Ok (mkRemote n u (nonempty t) on verify (nonempty key)).

(** [Path::extension]. *)
Definition extension (n : string) : option string :=
  '(stem, ext) ← rsplit_once "." n; if is_empty stem then None else Some ext.

(** The operations of the OSTree repository on its remotes. *)
Class RemoteStorage (W : Type) := {
  open_storage : W -> result unit * W;
  configure_remote_definition : Remote -> W -> result unit * W;
  import_remote_gpg_key : Remote -> W -> result unit * W;
  storage_delete_remote : string -> W -> result unit * W;
}.

Section Remotes.
Context {W : Type} `{FileOps W} `{!RemoteStorage W} (pid : N) (next_sequence : M W N).

Definition configure_remote (r : Remote) : M W unit :=
  _ ← configure_remote_definition r; import_remote_gpg_key r.

Definition write (i : Installation) (r : Remote) : M W unit :=
  _ ← io_try (make_dirs (remote_configs i));
  write_atomic pid next_sequence (config_path i (r_name r)) (kv (remote_entries r)).

Definition read_path (p : path) (w : W) : result Remote :=
  data ← io_context (fmt ["read "; p]) (read_to_string w p);
  parse_remote data.

Definition list_remotes (i : Installation) (w : W) : result (list Remote) :=
  let root := remote_configs i in
  if negb (is_dir w root) then Ok []
  else
    entries ← dir_entries (fmt ["read "; root]) root w;
    remotes ← fold_result (fun remotes e =>
        kind ← io_plain (entry_kind e);
        if bool_decide (kind = RegularFile) && bool_decide (extension (file_name e) = Some "conf")
        then r ← read_path (join_path root (file_name e)) w; Ok (remotes ++ [r])
        else Ok remotes) entries [];
    Ok (sort_by (on r_name) remotes).

Definition enabled_remotes (i : Installation) (w : W) : result (list Remote) :=
  remotes ← list_remotes i w; Ok (List.filter enabled remotes).

Definition get_remote (i : Installation) (n : string) (w : W) : result Remote :=
  _ ← validate_name n;
  with_context (fmt ["remote is not configured: "; n]) (read_path (config_path i n) w).

Definition initialize (flathub_key : string) (i : Installation) : M W unit :=
  _ ← io_step "create remote configuration directory" (make_dirs (remote_configs i));
  let marker := join_path (remote_configs i) BOOTSTRAP_MARKER in
  present ← gets (fun w : W => path_exists w marker);
  _ ← (if present : bool then mret tt
       else
         remotes ← getr (list_remotes i);
         _ ← (if bool_decide (length remotes = 0) then write i (flathub flathub_key) else mret tt);
         io_step (fmt ["write "; marker]) (write_file marker ("1" +:+ nl)));
  remotes ← getr (list_remotes i);
  _ ← open_storage;
  for_each configure_remote remotes.

(** [Storage::open] takes an exclusive lock through a descriptor of its own, so
    it waits for as long as another [Storage] of the same program is alive: for
    ever, when the program waits here with one ([held]). [None] says that the
    call never returns. *)
Definition open_locked (held : bool) : M W (option unit) :=
  if held then mret None else _ ← open_storage; mret (Some tt).

(** [None] says that the call never returns.  The storage that the condition
    of the [if let] opened lives until the end of its body. *)
Definition add_remote (i : Installation) (r : Remote) (if_not_exists : bool) : M W (option bool) :=
  _ ← lift (validate_remote r);
  let p := config_path i (r_name r) in
  present ← gets (fun w : W => path_exists w p);
  if present : bool then
    if if_not_exists then mret (Some false) else lift (bail (fmt ["remote already exists: "; r_name r]))
  else
    _ ← write i r;
    _ ← open_storage;
    configured ← catch (configure_remote r);
    match configured with
    | Ok _ => mret (Some true)
    | Err e =>
        _ ← catch (io_try (remove_file p));
        opened ← catch (open_locked true);
        match opened with
        | Ok None => mret None
        | Ok (Some _) => _ ← catch (storage_delete_remote (r_name r)); fail e
        | Err _ => fail e
        end
    end.

Definition remove_cache (msg : string -> string) (i : Installation) (n : string) : M W unit :=
  let cache := remote_metadata i n in
  present ← gets (fun w : W => path_exists w cache);
  if present : bool then io_step (msg cache) (remove_dir_all cache) else mret tt.

Definition modify_remote (i : Installation) (r : Remote) : M W unit :=
  previous ← getr (get_remote i (r_name r));
  _ ← lift (validate_remote r);
  _ ← write i r;
  _ ← open_storage;
  configured ← catch (configure_remote r);
  match configured with
  | Err e => _ ← catch (write i previous); fail e
  | Ok _ =>
      if negb (String.eqb (url previous) (url r)) || negb (Bool.eqb (gpg_verify previous) (gpg_verify r))
         || negb (bool_decide (gpg_key previous = gpg_key r))
      then remove_cache (fun cache => fmt ["invalidate metadata cache "; cache]) i (r_name r)
      else mret tt
  end.

Definition delete_remote (i : Installation) (n : string) : M W unit :=
  _ ← getr (get_remote i n);
  _ ← open_storage;
  _ ← storage_delete_remote n;
  _ ← io_step (fmt ["delete remote "; n]) (remove_file (config_path i n));
  remove_cache (fun _ => fmt ["remove metadata cache for "; n]) i n.

(** ** Locations *)

(** [read_location] reads a file or fetches a location; [String::from_utf8]
    of its bytes, and base64, are parameters. *)
Context (read_location : string -> string -> M W string).
Context (from_utf8 : string -> result string) (base64_encode : string -> string).

Definition repo_line (st : bool * values) (raw : string) : bool * values :=
  let (in_group, m) := st in
  let line := trim raw in
  if is_empty line || starts_with "#" line || starts_with ";" line then st
  else if starts_with "[" line && ends_with "]" line then (String.eqb line "[Flatpak Repo]", m)
  else if in_group then
    match split_once "=" line with
    | Some (k, v) => (in_group, bm_insert (trim k) (trim v) m)
    | None => st
    end
  else st.

Definition parse_flatpakrepo (text : string) : result values :=
  let m := (foldl repo_line (false, []) (lines text)).2 in
  if bool_decide (length m = 0) then bail "invalid .flatpakrepo file: missing [Flatpak Repo] group" else Ok m.

Definition nonempty_entry (key : string) (m : values) : option string := bm_get key m ≫= nonempty.

Definition from_flatpakrepo (n location : string) : M W Remote :=
  data ← read_location location "Flatpak repository file";
  lift (text ← with_context "Flatpak repository file is not UTF-8" (from_utf8 data);
        m ← parse_flatpakrepo text;
        u ← ok_or "Flatpak repository file has no Url" (bm_get "Url" m);
        _ ← validate_url u;
        let key := nonempty_entry "GPGKey" m in
        Ok (mkRemote n (normalize_url u) (nonempty_entry "Title" m) true (bool_decide (is_Some key)) key)).

Definition from_location (n location : string) : M W Remote :=
  _ ← lift (validate_name n);
  if ends_with ".flatpakrepo" location then from_flatpakrepo n location
  else
    _ ← lift (validate_url location);
    mret (mkRemote n (normalize_url location) None true true None).

Definition read_gpg_key (location : string) : M W string :=
  data ← read_location location "GPG key";
  mret (base64_encode data).
End Remotes.

(** ** Lemmas: names and files *)

Lemma validate_name_ok n u :
  validate_name n = Ok u -> n <> "" /\ n <> "." /\ n <> ".." /\ all_bytes safe_byte n = true.
Proof.
  unfold validate_name. destruct (is_empty n) eqn:E1; [done|]. destruct (String.eqb_spec n "."); [done|].
  destruct (String.eqb_spec n ".."); [done|]. cbn [orb].
  destruct (forallb _ (chars n)) eqn:E2; [|done]. intros _.
  apply is_empty_false in E1. do 3 (split; [done|]). apply chars_ascii. exact E2.
Qed.

Lemma safe_no n c : all_bytes safe_byte n = true -> safe_byte c = false -> has c n = false.
Proof. intros Hn Hc. by eapply all_bytes_has. Qed.

(** ** Lemmas: what is written is read back *)

Lemma any_whitespace_lf u : any_whitespace (list_ascii_of_string u) = false -> has LF u = false /\ has CR u = false.
Proof.
  induction u as [|a u IH]; [by split|]. cbn [list_ascii_of_string any_whitespace has].
  intros [[Ha _]%orb_false_iff Hr]%orb_false_iff. destruct (IH Hr) as [-> ->].
  destruct (Ascii.eqb_spec a LF) as [->|]; [by vm_compute in Ha|].
  destruct (Ascii.eqb_spec a CR) as [->|]; [by vm_compute in Ha|]. done.
Qed.

Lemma strip_cr_none s : has CR s = false -> strip_cr s = s.
Proof.
  intros Hs. unfold strip_cr. destruct (strip_suffix (String CR "") s) as [r|] eqn:E; [|done].
  apply strip_suffix_Some in E as ->. rewrite has_app in Hs. apply orb_false_iff in Hs as [_ Hs]. done.
Qed.

(** The lines of a file of entries whose values have no line end. *)
Definition entry_clean (e : string * string) : Prop :=
  has "=" e.1 = false /\ has LF e.1 = false /\ has CR e.1 = false /\ has LF e.2 = false /\ has CR e.2 = false.

Lemma lines_kv l : Forall entry_clean l -> lines (kv l) = map (fun e => e.1 +:+ "=" +:+ e.2) l.
Proof.
  intros Hl. assert (kv l = fmt (map end_line (map (fun e => e.1 +:+ "=" +:+ e.2) l))) as ->.
  { unfold kv. f_equal. rewrite map_map. apply map_ext. intros [k v]. unfold end_line.
    by rewrite !fmt_cons, fmt_nil, sapp_nil_r, !sapp_assoc. }
  apply lines_of_lines. apply Forall_fmap. eapply Forall_impl; [exact Hl|].
  intros [k v] (_ & H1 & H2 & H3 & H4). cbn [fst snd compose] in *. split; [|apply strip_cr_none];
    by rewrite !has_app, ?H1, ?H2, ?H3, ?H4.
Qed.

Lemma insert_lines l m :
  Forall entry_clean l ->
  foldl insert_line m (map (fun e => e.1 +:+ "=" +:+ e.2) l) = foldl (fun m e => bm_insert e.1 e.2 m) m l.
Proof.
  intros Hl. revert m. induction Hl as [|[k v] l (Hk & _) _ IH]; intros m; [done|]. cbn [map foldl fst snd].
  rewrite <- IH. f_equal. unfold insert_line. change ("=" +:+ v) with (String "=" v).
  by rewrite (proj2 (split_once_Some "=" _ k v)).
Qed.

(** A key in base64 is one line. *)
Definition remote_ok (r : Remote) : Prop :=
  validate_remote r = Ok tt /\ title r <> Some "" /\
  match gpg_key r with Some k => k <> "" /\ has LF k = false /\ has CR k = false | None => True end.

Lemma nonempty_default (o : option string) : o <> Some "" -> nonempty (default "" o) = o.
Proof. unfold nonempty. destruct o as [s|]; [|done]. cbn. intros Hs. destruct (is_empty s) eqn:E; [|done]. apply is_empty_true in E as ->. done. Qed.

Lemma remote_entries_clean r : remote_ok r -> Forall entry_clean (remote_entries r).
Proof.
  intros (Hv & _ & Hkey). unfold validate_remote in Hv. inv_ok.
  apply validate_name_ok in Hr as (_ & _ & _ & Hn).
  destruct (match title r with Some t => has LF t || has CR t | None => false end) eqn:Ht; [done|].
  unfold validate_url in Hv. destruct (any_whitespace _) eqn:Hu; [done|]. apply any_whitespace_lf in Hu as [Hu1 Hu2].
  unfold remote_entries. repeat (apply Forall_cons; split); [..|done]; unfold entry_clean; cbn [fst snd];
    (split; [done|split; [done|split; [done|]]]).
  - split; by apply (safe_no (r_name r)).
  - done.
  - destruct (title r); [by apply orb_false_iff|done].
  - by destruct (enabled r).
  - by destruct (gpg_verify r).
  - destruct (gpg_key r); [by destruct Hkey as (_ & ? & ?)|done].
Qed.

Lemma parse_remote_entries r : remote_ok r -> parse_remote (kv (remote_entries r)) = Ok r.
Proof.
  intros Hr. pose proof (remote_entries_clean r Hr) as Hc. destruct Hr as (_ & Ht & Hk).
  unfold parse_remote. rewrite lines_kv, insert_lines by done.
  assert (forall k v, (k, v) ∈ remote_entries r ->
    bm_get k (foldl (fun m e => bm_insert e.1 e.2 m) [] (remote_entries r)) = Some v) as Hg.
  { intros k v. unfold remote_entries. rewrite !elem_of_cons.
    intros Hin. repeat destruct Hin as [[= -> ->]|Hin]; try reflexivity. by apply not_elem_of_nil in Hin. }
  rewrite (Hg "enabled" (show_bool (enabled r))), (Hg "gpg_verify" (show_bool (gpg_verify r))),
    (Hg "title" (default "" (title r))), (Hg "gpg_key" (default "" (gpg_key r))),
    (Hg "name" (r_name r)), (Hg "url" (url r)) by find_elem.
  cbn [ok_or mbind result_bind]. rewrite !parse_bool_show. cbn [ok_or mbind result_bind].
  rewrite !nonempty_default; [by destruct r| |done].
  destruct (gpg_key r); [|done]. intros [= ->]. by destruct Hk.
Qed.

(** ** Properties *)

(** A remote's configuration that was written is what [get] reads under
    its name, for validated remotes with a one-line key. *)
Theorem remote_config_roundtrip `{FileOpsLaws W} pid next_sequence i r (w w' : W) :
  remote_ok r -> write pid next_sequence i r w = (Ok tt, w') -> get_remote i (r_name r) w' = Ok r.
Proof.
  intros Hr Hw. unfold write in Hw. apply M_bind_ok in Hw as (? & w1 & _ & Hw).
  apply write_atomic_read in Hw. unfold get_remote. pose proof Hr as (Hv & _). unfold validate_remote in Hv.
  inv_ok. rewrite Hr0. cbn [mbind result_bind]. unfold read_path. rewrite Hw. cbn [io_context mbind result_bind].
  by rewrite parse_remote_entries.
Qed.

Definition example_remote : Remote :=
  mkRemote "my-repo" "https://example.org/repo" (Some "My = repo ") true false (Some "AAAA").

Lemma remote_config_roundtrip_witness :
  match write 7 (mret 3%N) example_installation example_remote (mkTree [] []) with
  | (Ok _, w') => get_remote example_installation "my-repo" w' = Ok example_remote
  | _ => False
  end.
Proof.
  destruct (write 7 (mret 3%N) example_installation example_remote (mkTree [] [])) as [[[]|e] w'] eqn:E.
  - apply (remote_config_roundtrip 7 (mret 3%N) example_installation example_remote (mkTree [] []) w' ltac:(vm_compute; split; [reflexivity|split; [discriminate|split; [discriminate|split; reflexivity]]]) E).
  - vm_compute in E. discriminate E.
Defined.

Lemma conf_name_ok n : all_bytes safe_byte n = true -> name_ok (fmt [n; ".conf"]).
Proof.
  intros Hn. assert (all_bytes safe_byte (fmt [n; ".conf"]) = true) as Ha
    by (by rewrite !fmt_cons, fmt_nil, !all_bytes_app, Hn).
  assert (5 <= len (fmt [n; ".conf"])) as Hlen by (rewrite !fmt_cons, fmt_nil, !len_app; cbn; lia).
  split; [by eapply safe_no|]. split.
  - unfold skipped. apply orb_false_iff. rewrite is_empty_false, String.eqb_neq. split; intros E; rewrite E in Hlen; cbn in Hlen; lia.
  - intros E. rewrite E in Hlen. cbn in Hlen. lia.
Qed.

(** The file of a remote with a valid name lies directly in the directory
    of the configurations, has the extension the listing looks for, and is no
    other remote's. *)
Theorem remote_files_are_distinct i n m u v :
  validate_name n = Ok u -> validate_name m = Ok v ->
  components (config_path i n) = components (remote_configs i) ++ [Normal (fmt [n; ".conf"])] /\
  extension (fmt [n; ".conf"]) = Some "conf" /\
  (config_path i n = config_path i m -> n = m).
Proof.
  intros (Hn & _ & _ & Hns)%validate_name_ok (_ & _ & _ & Hms)%validate_name_ok.
  assert (remote_configs i <> "") as Hd.
  { unfold remote_configs, join_path. cbn [is_absolute starts_with].
    destruct (is_empty (data_root i) || _); [by destruct (data_root i)|]. by destruct (data_root i). }
  assert (forall k, all_bytes safe_byte k = true ->
    components (config_path i k) = components (remote_configs i) ++ [Normal (fmt [k; ".conf"])]) as Hc.
  { intros k Hk. apply components_join_name; [done|]. by apply conf_name_ok. }
  split; [by apply Hc|]. split.
  - unfold extension. rewrite !fmt_cons, fmt_nil, sapp_nil_r.
    rewrite (proj2 (rsplit_once_Some "." (n +:+ ".conf") n "conf")) by (by split).
    cbn [mbind option_bind]. by rewrite (proj2 (is_empty_false n)).
  - intros E. apply (f_equal components) in E. rewrite !Hc in E by done. apply app_inv_head in E.
    injection E as E. change (n +:+ ".conf" = m +:+ ".conf") in E. by apply sapp_inv_tail in E.
Qed.

Lemma remote_files_are_distinct_witness :
  components (config_path example_installation "flathub") =
  components (remote_configs example_installation) ++ [Normal "flathub.conf"].
Proof. exact (proj1 (remote_files_are_distinct example_installation "flathub" "beta" tt tt eq_refl eq_refl)). Defined.

(** When the OSTree remote cannot be configured, adding a remote does not
    report the error: it waits for a lock that it holds itself. *)
Theorem failed_add_never_returns `{FileOps W} `{!RemoteStorage W} pid next_sequence i r if_not_exists (w w1 w2 : W) e :
  validate_remote r = Ok tt -> path_exists w (config_path i (r_name r)) = false ->
  (_ ← write pid next_sequence i r; open_storage) w = (Ok tt, w1) -> configure_remote r w1 = (Err e, w2) ->
  exists w3, add_remote pid next_sequence i r if_not_exists w = (Ok None, w3).
Proof.
  intros Hv Hp Hw Hc. apply M_bind_ok in Hw as ([] & w0 & Hw & Ho).
  destruct (io_try (remove_file (config_path i (r_name r))) w2) as [o w3] eqn:Er.
  exists w3. unfold add_remote. unfold lift, mbind at 1, M_bind at 1. rewrite Hv.
  rewrite gets_bind, Hp. unfold mbind, M_bind. rewrite Hw, Ho. unfold catch. by rewrite Hc, Er.
Qed.

Definition refusing_storage : RemoteStorage TreeFs := {|
  open_storage w := (Ok tt, w);
  configure_remote_definition r w := (Err ["configure private OSTree remote"], w);
  import_remote_gpg_key r w := (Ok tt, w);
  storage_delete_remote n w := (Ok tt, w) |}.

Lemma failed_add_never_returns_witness :
  exists w3, @add_remote TreeFs _ _ refusing_storage 7 (mret 3%N) example_installation example_remote false (mkTree [] []) = (Ok None, w3).
Proof.
  eapply (@failed_add_never_returns TreeFs _ _ refusing_storage); [reflexivity|reflexivity|vm_compute; reflexivity|reflexivity].
Defined.
