(* ===== verification/MetadataLock.v ===== *)
(** * MetadataLock: the lock of the metadata cache
    (src/src/remotes/metadata_cache.rs: MetadataLock, stale_metadata_lock)

    A lock is a file that its holder created and that names the holder's
    process; a lock whose process is gone is removed by whoever waits for it.
    First the loop of [acquire] with the time it waits, then the processes that
    compete for one lock as a step relation: holders exclude one another if the
    judgement on a stale lock and its removal are one step, which in the code
    they are not. *)
From Stdlib Require Import Ascii String NArith ZArith Lia.
From stdpp Require Import base list strings gmap.
From S2P Require Import Prelude Effects RustStr RustNum RustPath HostFs Records RunRecords.

(** [OpenOptions::create_new], [writeln!] to the file just created, and the
    process's view of itself, of others and of time (milliseconds). *)
Class LockWorld (W : Type) `{FileOps W} := {
  create_new : path -> W -> io_result unit * W;
  write_created : path -> string -> W -> io_result unit * W;
  kill_null : Z -> W -> kill_probe;
  process_id : W -> N;
  instant : W -> Z;
  sleep : Z -> W -> W;
}.

Section Lock.
Context {W : Type} `{LockWorld W}.

Definition attempt {A} (op : W -> io_result A * W) : M W (io_result A) := fun w =>
  let (r, w') := op w in (Ok r, w').
Definition pause_for (ms : Z) : M W unit := fun w => (Ok tt, sleep ms w).

Definition stale_metadata_lock (p : path) (w : W) : bool :=
  match read_to_string w p with
  | inr _ => false
  | inl text =>
      match parse_i32 (trim text) with
      | None => false
      | Some pid => match kill_null pid w with KillOk | KillEPERM => false | _ => true end
      end
  end.

(** [None]: still at it after so many attempts. *)
Fixpoint acquire_from (fuel : nat) (started : Z) (p : path) : M W (option unit) :=
  match fuel with
  | 0 => mret None
  | S fuel =>
      created ← attempt (create_new p);
      match created with
      | inl _ =>
          pid ← gets process_id;
          _ ← io_try (write_created p (fmt [show_N pid; nl]));
          mret (Some tt)
      | inr e =>
          if bool_decide (ioe_kind e = AlreadyExists) then
            stale ← gets (stale_metadata_lock p);
            if stale : bool then
              _ ← attempt (remove_file p);
              acquire_from fuel started p
            else
              now ← gets instant;
              if (now - started >? 300000)%Z
              then lift (bail (fmt ["timed out waiting for metadata refresh lock "; p]))
              else _ ← pause_for 100; acquire_from fuel started p
          else lift (Err [fmt ["create "; p]; ioe_message e])
      end
  end.

Definition acquire (fuel : nat) (p : path) : M W (option unit) :=
  started ← gets instant; acquire_from fuel started p.

(** [Drop for MetadataLock]. *)
Definition drop_lock (p : path) : M W unit := _ ← attempt (remove_file p); mret tt.

(** The rest of the function runs while the lock is held, which is dropped on
    every way out. *)
Definition with_lock {A} (fuel : nat) (p : path) (body : M W (option A)) : M W (option A) :=
  held ← acquire fuel p;
  match held with
  | None => mret None
  | Some _ =>
      r ← catch body;
      match r with
      | Ok None => mret None
      | Ok (Some a) => _ ← drop_lock p; mret (Some a)
      | Err e => _ ← drop_lock p; fail e
      end
  end.
End Lock.

(** ** Lemmas: how long [acquire] waits *)

(** Time does not run backwards and a sleep takes its time; [debris] bounds how
    many stale locks there are still to be removed. *)
Class LockClock (W : Type) `{LockWorld W} (debris : W -> nat) := {
  create_instant : forall p w, (instant w <= instant (create_new p w).2)%Z;
  remove_instant : forall p w, (instant w <= instant (remove_file p w).2)%Z;
  sleep_instant : forall ms w, (instant w + ms <= instant (sleep ms w))%Z;
  create_debris : forall p w e w', create_new p w = (inr e, w') -> debris w' <= debris w;
  sleep_debris : forall ms w, debris (sleep ms w) <= debris w;
  remove_debris : forall p w, stale_metadata_lock p w = true -> S (debris (remove_file p w).2) <= debris w;
}.

(** The sleeps that are left before the wait times out. *)
Definition sleeps_left (started now : Z) : nat := Z.to_nat ((300000 - (now - started)) / 100 + 1).

Lemma sleeps_left_less started now now' :
  (now - started <= 300000)%Z -> (now + 100 <= now')%Z -> S (sleeps_left started now') <= sleeps_left started now.
Proof.
  intros Hn Hl. unfold sleeps_left.
  assert ((300000 - (now' - started)) / 100 + 1 <= (300000 - (now - started)) / 100)%Z.
  { apply Z.div_le_lower_bound; [lia|]. pose proof (Z.mul_div_le (300000 - (now' - started)) 100 ltac:(lia)). lia. }
  assert (0 <= (300000 - (now - started)) / 100)%Z by (apply Z.div_pos; lia). lia.
Qed.

Lemma sleeps_left_mono started now now' : (now <= now')%Z -> sleeps_left started now' <= sleeps_left started now.
Proof.
  intros Hl. unfold sleeps_left.
  assert ((300000 - (now' - started)) / 100 <= (300000 - (now - started)) / 100)%Z by (apply Z.div_le_mono; lia). lia.
Qed.

Section Waiting.
Context {W : Type} `{LockClock W debris}.

Lemma acquire_from_ends started p fuel w :
  debris w + sleeps_left started (instant w) < fuel -> forall w', acquire_from fuel started p w <> (Ok None, w').
Proof.
  revert w. induction fuel as [|fuel IH]; intros w Hf w' E; [lia|]. cbn [acquire_from] in E.
  unfold mbind, M_bind, attempt, gets in E.
  pose proof (create_instant p w) as I1. destruct (create_new p w) as [[u|e] w1] eqn:Ec; cbn [snd] in I1.
  - unfold io_try in E. destruct (write_created _ _ w1) as [[[]|e] w2]; cbn in E; by inversion E.
  - apply create_debris in Ec as D1. pose proof (sleeps_left_mono started _ _ I1) as L1.
    case_bool_decide; [|done]. destruct (stale_metadata_lock p w1) eqn:Es.
    + pose proof (remove_instant p w1) as I2. pose proof (remove_debris p w1 Es) as D2.
      destruct (remove_file p w1) as [r w2]. cbn [snd] in I2, D2.
      pose proof (sleeps_left_mono started _ _ I2). apply (IH w2 ltac:(lia) w' E).
    + destruct (Z.gtb_spec (instant w1 - started) 300000) as [|Hle]; [by cbn in E|]. unfold pause_for in E.
      pose proof (sleep_instant 100 w1) as I2. pose proof (sleep_debris 100 w1) as D2.
      pose proof (sleeps_left_less started (instant w1) _ Hle I2). apply (IH (sleep 100 w1) ltac:(lia) w' E).
Qed.
End Waiting.

(** ** The processes that compete for a lock *)

Inductive phase :=
  | Waiting      (* in the loop of [acquire], or not there yet *)
  | Judged       (* has found the lock stale, is about to remove it *)
  | Created      (* has created the file, is about to write to it *)
  | Holding
  | Dead.
#[export] Instance phase_eq_dec : EqDecision phase.
Proof. solve_decision. Defined.

(** The file as its creator left it: who that was, and whether the creator's
    number has been written. *)
Record LockFile := mkLockFile { created_by : nat; written : bool }.
Record Competition := mkCompetition { lock_file : option LockFile; phase_of : nat -> phase }.

Definition moves (p : nat) (to : phase) (s : Competition) (file : option LockFile) : Competition :=
  mkCompetition file (fun q => if decide (q = p) then to else phase_of s q).

(** One step of a process.  A removal takes whatever file has the lock's name.
    With [atomic] the judgement and the removal are one step; in the code they
    are two. *)
Inductive lock_step (atomic : bool) (s : Competition) : Competition -> Prop :=
  | step_create p : phase_of s p = Waiting -> lock_file s = None ->
      lock_step atomic s (moves p Created s (Some (mkLockFile p false)))
  | step_write p : phase_of s p = Created ->
      lock_step atomic s (moves p Holding s
        (match lock_file s with
         | Some f => if decide (created_by f = p) then Some (mkLockFile p true) else Some f
         | None => None
         end))
  | step_judge p f : phase_of s p = Waiting -> lock_file s = Some f -> written f = true ->
      phase_of s (created_by f) = Dead ->
      lock_step atomic s (if atomic then moves p Waiting s None else moves p Judged s (lock_file s))
  | step_remove p : phase_of s p = Judged -> lock_step atomic s (moves p Waiting s None)
  | step_release p : phase_of s p = Holding -> lock_step atomic s (moves p Waiting s None)
  | step_die p : lock_step atomic s (moves p Dead s (lock_file s)).

Definition initial : Competition := mkCompetition None (fun _ => Waiting).
Definition reachable (atomic : bool) (s : Competition) : Prop := rtc (lock_step atomic) initial s.

Definition inside (s : Competition) (p : nat) : Prop := phase_of s p = Created \/ phase_of s p = Holding.

(** Whoever is inside made the file that is there. *)
Record owned (s : Competition) : Prop := {
  owner_created : forall p, inside s p -> exists b, lock_file s = Some (mkLockFile p b);
  nobody_judged : forall p, phase_of s p <> Judged;
}.

Lemma owned_step s s' : lock_step true s s' -> owned s -> owned s'.
Proof.
  intros Hs [Ho Hj]. unfold inside in *.
  destruct Hs as [p Hp Hf|p Hp|p f Hp Hf Hw Hd|p Hp|p Hp|p]; try (by destruct (Hj p)).
  - split; unfold inside; cbn; intros q; case_decide; subst; [eauto| |done|apply Hj].
    intros Hq. destruct (Ho q Hq) as [b E]. congruence.
  - destruct (Ho p (or_introl Hp)) as [b E].
    rewrite E. cbn [created_by]. destruct (decide (p = p)); [|done].
    split; unfold inside; cbn; intros q; case_decide; subst; [eauto| |done|apply Hj].
    intros Hq. destruct (Ho q Hq) as [b' E']. congruence.
  - split; unfold inside; cbn; intros q; case_decide; subst; [by intros []| |done|apply Hj].
    intros Hq. destruct (Ho q Hq) as [b E]. rewrite E in Hf. injection Hf as <-. cbn in Hd.
    rewrite Hd in Hq. by destruct Hq.
  - destruct (Ho p (or_intror Hp)) as [b E].
    split; unfold inside; cbn; intros q; case_decide; subst; [by intros []| |done|apply Hj].
    intros Hq. destruct (Ho q Hq) as [b' E']. congruence.
  - split; unfold inside; cbn; intros q; case_decide; subst; [by intros []|apply Ho|done|apply Hj].
Qed.

Lemma owned_reachable s : reachable true s -> owned s.
Proof.
  intros Hr. unfold reachable in Hr. apply (rtc_ind_r owned initial) in Hr; [done| |].
  - split; unfold inside; cbn; [by intros p []|done].
  - intros x y _ Hs Hx. by apply (owned_step x).
Qed.

(** ** A concrete world *)

(** A file system with a clock and a web of files to fetch.  Only process 1 is
    alive. *)
Record Cabinet := mkCabinet {
  cab_files : TreeFs;
  cab_clock : Z;
  cab_web : list (string * string);
}.
Definition set_cabinet (t : TreeFs) (c : Cabinet) : Cabinet := mkCabinet t (cab_clock c) (cab_web c).
Definition on_files {A} (op : TreeFs -> A * TreeFs) (c : Cabinet) : A * Cabinet :=
  let (a, t) := op (cab_files c) in (a, set_cabinet t c).

#[export] Instance cabinet_fs : HostFs Cabinet := {
  canonicalize c p := canonicalize (cab_files c) p;
  path_exists c p := path_exists (cab_files c) p;
  is_dir c p := is_dir (cab_files c) p;
  read_dir c p := read_dir (cab_files c) p;
  read_to_string c p := read_to_string (cab_files c) p;
  create_dir_all c p := match create_dir_all (cab_files c) p with inl t => inl (set_cabinet t c) | inr e => inr e end;
}.
#[export] Instance cabinet_ops : FileOps Cabinet := {
  is_file c p := is_file (cab_files c) p;
  symlink_kind c p := symlink_kind (cab_files c) p;
  make_dirs p := on_files (make_dirs p);
  set_mode p m := on_files (set_mode p m);
  write_file p d := on_files (write_file p d);
  rename_file p q := on_files (rename_file p q);
  remove_file p := on_files (remove_file p);
  remove_dir_all p := on_files (remove_dir_all p);
}.
Definition file_exists : io_error := mkIoError AlreadyExists "File exists (os error 17)".
(** The same on a file system that is read-only. *)
Definition read_only : io_error := mkIoError OtherKind "Read-only file system (os error 30)".
Definition frozen_ops : FileOps Cabinet := {|
  is_file c p := is_file (cab_files c) p;
  symlink_kind c p := symlink_kind (cab_files c) p;
  make_dirs _ c := (inr read_only, c);
  set_mode _ _ c := (inr read_only, c);
  write_file _ _ c := (inr read_only, c);
  rename_file _ _ c := (inr read_only, c);
  remove_file _ c := (inr read_only, c);
  remove_dir_all _ c := (inr read_only, c) |}.
Definition lock_on (O : FileOps Cabinet) : LockWorld Cabinet := {|
  create_new p c := if path_exists c p then (inr file_exists, c) else write_file p "" c;
  write_created p d := write_file p d;
  kill_null pid c := if bool_decide (pid = 1%Z) then KillOk else KillESRCH;
  process_id c := 1%N;
  instant := cab_clock;
  sleep ms c := mkCabinet (cab_files c) (cab_clock c + Z.max 0 ms) (cab_web c) |}.
#[export] Instance cabinet_lock : LockWorld Cabinet := lock_on _.

(** Stale locks are files. *)
Definition cabinet_debris (c : Cabinet) : nat := length (files (cab_files c)).

Lemma filter_shorter {A} (f : A -> bool) l x : x ∈ l -> f x = false -> length (List.filter f l) < length l.
Proof.
  intros Hx Hf. induction l as [|y l IH]; [by apply not_elem_of_nil in Hx|].
  apply elem_of_cons in Hx as [->|Hx]; cbn; [rewrite Hf|destruct (f y); cbn; specialize (IH Hx); lia].
  apply Nat.lt_succ_r, List.filter_length_le.
Qed.

#[export] Instance cabinet_clock : LockClock Cabinet cabinet_debris.
Proof.
  split; cbn.
  - intros p c. destruct (tree_has _ _); cbn; lia.
  - intros p c. unfold on_files. cbn. case_bool_decide; cbn; lia.
  - intros ms c. lia.
  - intros p c e c'. destruct (tree_has _ _); [by intros [= _ <-]|done].
  - done.
  - intros p c Hs. unfold stale_metadata_lock in Hs. cbn in Hs. unfold on_files, cabinet_debris. cbn.
    destruct (List.find _ (files (cab_files c))) as [f|] eqn:E; [|done].
    apply find_some in E as [Hin Hf%bool_decide_eq_true]. apply list_elem_of_In in Hin.
    rewrite bool_decide_true by (apply list_elem_of_fmap; by exists f). cbn.
    apply filter_shorter with f; [done|]. by rewrite bool_decide_true.
Qed.

(** ** Properties *)

(** When the clock runs and the stale locks that are still to come can be
    counted, [acquire] comes back: with the lock, or with an error once it has
    waited for five minutes. *)
Theorem lock_wait_is_bounded `{LockClock W debris} fuel p (w w' : W) :
  debris w + 3002 <= fuel -> acquire fuel p w <> (Ok None, w').
Proof.
  intros Hf. unfold acquire. rewrite gets_bind. apply acquire_from_ends.
  unfold sleeps_left. rewrite Z.sub_diag. change (Z.to_nat _) with 3001. lia.
Qed.

(** A stale lock that cannot be removed (on a read-only file system, say) is
    tried again at once and for ever: the branch neither sleeps nor looks at the
    time, so [acquire] never comes back. *)
Theorem stale_lock_spins `{LockWorld W} fuel p (w : W) e e' :
  create_new p w = (inr e, w) -> ioe_kind e = AlreadyExists ->
  stale_metadata_lock p w = true -> remove_file p w = (inr e', w) ->
  acquire fuel p w = (Ok None, w).
Proof.
  intros Hc Hk Hs Hr. unfold acquire. rewrite gets_bind. generalize (instant w) as started. intros started.
  induction fuel as [|fuel IH]; [done|]. cbn [acquire_from].
  unfold mbind, M_bind, attempt, gets in *. rewrite Hc, bool_decide_true, Hs, Hr by done. exact IH.
Qed.

(** C20.  A process may be inside while another one is: both waited for the lock
    of a process that died, and the second removed the lock that the first had
    just created.  One step for the judgement and the removal would exclude it:
    then two processes that are inside are the same, however many of them there
    are and whenever they die. *)
Theorem stale_removal_breaks_exclusion :
  (exists s p q, reachable false s /\ p <> q /\ phase_of s p = Holding /\ phase_of s q = Holding) /\
  (forall s p q, reachable true s -> inside s p -> inside s q -> p = q).
Proof.
  split.
  - eexists. exists 1, 2. split; [|split; [done|]].
    + eapply rtc_l; [apply (step_create _ _ 0); reflexivity|].
      eapply rtc_l; [apply (step_write _ _ 0); reflexivity|].
      eapply rtc_l; [apply (step_die _ _ 0)|].
      eapply rtc_l; [apply (step_judge _ _ 1 (mkLockFile 0 true)); reflexivity|].
      eapply rtc_l; [apply (step_judge _ _ 2 (mkLockFile 0 true)); reflexivity|].
      eapply rtc_l; [apply (step_remove _ _ 1); reflexivity|].
      eapply rtc_l; [apply (step_create _ _ 1); reflexivity|].
      eapply rtc_l; [apply (step_write _ _ 1); reflexivity|].
      eapply rtc_l; [apply (step_remove _ _ 2); reflexivity|].
      eapply rtc_l; [apply (step_create _ _ 2); reflexivity|].
      eapply rtc_l; [apply (step_write _ _ 2); reflexivity|]. apply rtc_refl.
    + split; reflexivity.
  - intros s p q Hr Hp Hq. apply owned_reachable in Hr as [Ho _].
    destruct (Ho p Hp) as [b E]. destruct (Ho q Hq) as [b' E']. congruence.
Qed.

Definition lock_path : path := "/cache/remotes/flathub/summary.idx.lock".
(** The lock of a process that has died. *)
Definition littered : Cabinet := mkCabinet (mkTree [components "/cache/remotes/flathub"] [(components lock_path, "42" +:+ nl)]) 0 [].

Lemma lock_wait_is_bounded_witness :
  cabinet_debris littered + 3002 <= 3003 /\
  (forall w', acquire 3003 lock_path littered <> (Ok None, w')) /\
  exists w', acquire 3003 lock_path littered = (Ok (Some tt), w') /\ read_to_string w' lock_path = inl ("1" +:+ nl).
Proof.
  split; [apply Nat.leb_le; reflexivity|]. split.
  - intros w'. apply (lock_wait_is_bounded (debris := cabinet_debris) 3003 lock_path littered w').
    apply Nat.leb_le. reflexivity.
  - eexists. split; reflexivity.
Defined.

Lemma stale_lock_spins_witness :
  let O := frozen_ops in let L := lock_on O in
  @stale_metadata_lock Cabinet _ O L lock_path littered = true /\
  @acquire Cabinet _ O L 1000 lock_path littered = (Ok None, littered).
Proof.
  intros O L. split; [reflexivity|].
  apply (@stale_lock_spins Cabinet _ O L 1000 lock_path littered file_exists read_only); reflexivity.
Defined.
