(* ===== verification/RefResolution.v ===== *)
(** * RefResolution: finding refs in the remotes' summaries
    (src/src/remotes/ref_resolution.rs and the types of src/src/remotes/mod.rs)

    A request names an application or runtime in part; the summaries of the
    enabled remotes say which refs exist.  The lemmas say which ref a partial
    request selects, that the chain of renamed applications is followed to its
    end or refused, and which commit a prefix means. *)
From Stdlib Require Import Ascii String NArith ZArith Lia Sorting.Sorted.
From stdpp Require Import base list strings sets relations.
From S2P Require Import Prelude Effects Collections RustStr RustNum RustPath HostFs FlatpakMetadata FlatpakRef InstallationPaths Records RemoteConfig.

(** ** Data *)

Record RemoteRef := mkRemoteRef {
  rr_name : string;
  rr_checksum : string;
  rr_metadata : option string;
  rr_download_size : option Z;
  rr_installed_size : option Z;
}.

Record RemoteMetadata := mkMetadata {
  md_remote : Remote;
  md_arch : string;
  md_refs : list RemoteRef;
  md_remote_dir : path;
  md_summary_path : path;
  md_collection_id : option string;
}.

Record RemoteRuntime := mkRemoteRuntime {
  rt_remote : string; rt_id : string; rt_ref : string; rt_commit : string; rt_arch : string; rt_branch : string }.

Record RemoteApp := mkRemoteApp {
  ra_origin : string; ra_runtime_origin : string; ra_app_id : string; ra_app_ref : string;
  ra_app_commit : string; ra_arch : string; ra_branch : string; ra_runtime_ref : string;
  ra_runtime_commit : string; ra_sdk_ref : option string; ra_download_size : option Z;
  ra_installed_size : option Z; ra_command : string }.

Inductive ResolvedRemoteRef := ResolvedApp (a : RemoteApp) | ResolvedRuntime (r : RemoteRuntime).

Record RemoteRefInfo := mkRefInfo { ri_remote : string; ri_ref_name : string; ri_arch : string; ri_branch : string }.
Record SearchResult := mkSearchResult {
  sr_remote : string; sr_app_id : string; sr_app_ref : string; sr_arch : string; sr_branch : string }.

Record CommitInfo := mkCommit {
  ci_checksum : string; ci_parent : option string; ci_timestamp : Z; ci_subject : string; ci_body : string;
  ci_metadata : option string; ci_version : option string; ci_collection_id : option string }.

Record FlatpakRefParts := mkRefParts { fp_kind : string; fp_name : string; fp_arch : string; fp_branch : string }.

Definition split_flatpak_ref (n : string) : result FlatpakRefParts :=
  let parts := splitn 4 "/" n in
  k ← ok_or "missing ref kind" (parts !! 0);
  i ← ok_or "missing ref name" (parts !! 1);
  a ← ok_or "missing ref arch" (parts !! 2);
  b ← ok_or "missing ref branch" (parts !! 3);
  Ok (mkRefParts k i a b).

Definition runtime_full_ref (r : RemoteRuntime) : string :=
  fmt ["runtime/"; rt_id r; "/"; rt_arch r; "/"; rt_branch r].

(** ** Selection *)

Definition find_ref (refs : list RemoteRef) (n : string) : option RemoteRef :=
  List.find (fun r => String.eqb (rr_name r) n) refs.

(** The filter of [select_ref]. *)
Definition candidate (partial : PartialRef) (k : RefKind) (arch' : string) (r : RemoteRef) : option (FlatpakRef * RemoteRef) :=
  match parse_ref (rr_name r) with
  | Err _ => None
  | Ok parsed =>
      if bool_decide (kind parsed = k) && String.eqb (id parsed) (p_id partial) && String.eqb (FlatpakRef.arch parsed) arch'
         && match p_branch partial with Some b => String.eqb (FlatpakRef.branch parsed) b | None => true end
      then Some (parsed, r) else None
  end.

Definition candidates (refs : list RemoteRef) (partial : PartialRef) (k : RefKind) (default_arch : string)
  : list (FlatpakRef * RemoteRef) :=
  sort_by (on (fun c => full_ref c.1)) (omap (candidate partial k (default default_arch (p_arch partial))) refs).

Definition is_stable (c : FlatpakRef * RemoteRef) : bool := String.eqb (FlatpakRef.branch c.1) "stable".

Definition select_ref (refs : list RemoteRef) (partial : PartialRef) (k : RefKind) (default_arch : string)
  : result RemoteRef :=
  let cs := candidates refs partial k default_arch in
  match (if bool_decide (p_branch partial = None) then List.find is_stable cs else None) with
  | Some c => Ok c.2
  | None =>
      match cs with
      | [] => bail (fmt ["no remote "; as_str k; " ref matches "; p_id partial; "/";
                         default default_arch (p_arch partial); "/"; default "*" (p_branch partial)])
      | [c] => Ok c.2
      | _ => bail (fmt ["multiple remote refs match "; p_id partial; ": "; join ", " (map (fun c => full_ref c.1) cs)])
      end
  end.

Definition select_history_commit (history : list CommitInfo) (requested : string) : result CommitInfo :=
  if is_empty requested || negb (all_bytes is_hexdigit requested)
  then bail (fmt ["invalid OSTree commit: "; debug_str requested])
  else
    let requested := to_ascii_lowercase requested in
    match List.filter (fun c => starts_with requested (ci_checksum c)) history with
    | [] => bail (fmt ["commit "; requested; " is not in the history of this app ref"])
    | [c] => Ok c
    | _ => bail (fmt ["commit prefix "; requested; " is ambiguous"])
    end.

(** ** Renamed applications *)

Definition app_ref_exists (refs : list RemoteRef) (app_id arch' : string) : bool :=
  existsb (fun r => match split_flatpak_ref (rr_name r) with
                    | Err _ => false
                    | Ok parts => String.eqb (fp_kind parts) "app" && String.eqb (fp_name parts) app_id
                                  && String.eqb (fp_arch parts) arch'
                    end) refs.

(** The available replacements of an application, sorted and without repetition. *)
Definition available_replacements (refs : list RemoteRef) (arch' : string) (ids : list string) : list string :=
  dedup String.eqb (sort_by (on (fun s => s)) (List.filter (fun c => app_ref_exists refs c arch') ids)).

(** The [while] loop; [None] stands for running out of fuel. *)
Fixpoint follow_replacements (fuel : nat) (refs : list RemoteRef) (replacements : list (string * list string))
    (requested arch' current : string) (seen : list string) : option (result string) :=
  match fuel with
  | 0 => None
  | S fuel =>
      if bs_contains current seen
      then Some (bail (fmt ["cycle in replacement metadata for app id "; requested]))
      else
        match bm_get current replacements with
        | None => Some (Ok current)
        | Some ids =>
            match available_replacements refs arch' ids with
            | [] => Some (Ok current)
            | [replacement] =>
                follow_replacements fuel refs replacements requested arch' replacement (bs_insert current seen)
            | available => Some (bail (fmt ["multiple replacements found for "; current; " on "; arch'; ": ";
                                            join ", " available]))
            end
        end
  end.

(** Each round adds a key of the replacements to [seen], so the number of
    keys bounds the rounds that continue. *)
Definition replacement_fuel (replacements : list (string * list string)) : nat := 2 + length replacements.

Definition resolve_current_app_id_from_replacements (refs : list RemoteRef)
    (replacements : list (string * list string)) (requested arch' : string) : result string :=
  default (bail "") (follow_replacements (replacement_fuel replacements) refs replacements requested arch' requested []).

(** ** Applications and runtimes *)

Definition remote_runtime_from_ref (r : RemoteRef) (origin : string) : result RemoteRuntime :=
  parsed ← parse_ref (rr_name r);
  if negb (bool_decide (kind parsed = Runtime)) then bail (fmt [rr_name r; " is not a runtime ref"])
  else Ok (mkRemoteRuntime origin (id parsed) (partial_ref parsed) (rr_checksum r)
             (FlatpakRef.arch parsed) (FlatpakRef.branch parsed)).

Definition remote_app_from_metadata (app : RemoteRef) (metadata : string) (runtime : RemoteRef)
    (arch' origin runtime_origin : string) : result RemoteApp :=
  parts ← split_flatpak_ref (rr_name app);
  metadata_app_id ← ok_or "remote app metadata has no Application/name" (value metadata "Application" "name");
  if negb (String.eqb metadata_app_id (fp_name parts))
  then bail (fmt ["remote metadata app id mismatch: requested "; fp_name parts; ", found "; metadata_app_id])
  else
    runtime_ref ← ok_or "remote app metadata has no Application/runtime" (value metadata "Application" "runtime");
    command ← ok_or "remote app metadata has no Application/command" (value metadata "Application" "command");
    if negb (Nat.eqb (length (split_whitespace command)) 1)
    then bail (fmt ["entry command must be a single executable: "; debug_str command])
    else Ok (mkRemoteApp origin runtime_origin (fp_name parts) (rr_name app) (rr_checksum app) arch'
               (fp_branch parts) runtime_ref (rr_checksum runtime) (value metadata "Application" "sdk")
               (rr_download_size app) (rr_installed_size app) command).

Definition runtime_of_metadata (metadata : string) : result string :=
  ok_or "remote app metadata has no Application/runtime" (value metadata "Application" "runtime").

Definition remote_app_from_ref (refs : list RemoteRef) (app : RemoteRef) (arch' origin : string) : result RemoteApp :=
  metadata ← ok_or (fmt ["remote summary has no Flatpak metadata for "; rr_name app]) (rr_metadata app);
  runtime_ref ← runtime_of_metadata metadata;
  let full := fmt ["runtime/"; runtime_ref] in
  runtime ← ok_or (fmt ["required runtime ref not found in remote summary: "; full]) (find_ref refs full);
  remote_app_from_metadata app metadata runtime arch' origin origin.

(** ** [RemoteMetadata] *)

Definition list_refs (m : RemoteMetadata) : list RemoteRefInfo :=
  sort_by (on ri_ref_name)
    (omap (fun r => match split_flatpak_ref (rr_name r) with
                    | Err _ => None
                    | Ok parts => if String.eqb (fp_arch parts) (md_arch m)
                                  then Some (mkRefInfo (r_name (md_remote m)) (rr_name r) (fp_arch parts) (fp_branch parts))
                                  else None
                    end) (md_refs m)).

Definition ref_checksum (m : RemoteMetadata) (n : string) : option string := rr_checksum <$> find_ref (md_refs m) n.

Definition resolve_runtime (m : RemoteMetadata) (requested : string) : result RemoteRuntime :=
  partial ← parse_partial requested;
  _ ← effective_kind partial (Some Runtime);
  r ← select_ref (md_refs m) partial Runtime (md_arch m);
  remote_runtime_from_ref r (r_name (md_remote m)).

Definition resolve_exact_runtime (m : RemoteMetadata) (runtime_ref : string) : result RemoteRuntime :=
  r ← ok_or (fmt ["runtime ref is no longer present in "; r_name (md_remote m); ": "; runtime_ref])
        (find_ref (md_refs m) runtime_ref);
  remote_runtime_from_ref r (r_name (md_remote m)).

Definition find_app_ref (m : RemoteMetadata) (app_ref : string) : result RemoteRef :=
  ok_or (fmt ["app ref is no longer present in "; r_name (md_remote m); ": "; app_ref]) (find_ref (md_refs m) app_ref).

Definition resolve_exact_ref (m : RemoteMetadata) (app_ref : string) : result RemoteApp :=
  r ← find_app_ref m app_ref;
  remote_app_from_ref (md_refs m) r (md_arch m) (r_name (md_remote m)).

(** ** With the remotes and the repository *)

(** What the resolution needs of the metadata cache, the AppStream data and
    the OSTree repository. *)
Class RemoteWorld (W : Type) := {
  load_arch_summary : Installation -> Remote -> W -> result (string * path * option string) * W;
  parse_summary_refs : path -> W -> result (list RemoteRef);
  fetch_appstream_replacements : Remote -> path -> string -> W -> result (list (string * list string)) * W;
  commit_history : string -> string -> string -> string -> bool -> W -> result (list CommitInfo) * W;
}.

Section Resolution.
Context {W : Type} `{FileOps W} `{!RemoteWorld W}.

Definition load_remote_metadata_for (i : Installation) (r : Remote) : M W RemoteMetadata :=
  loaded ← load_arch_summary i r;
  let '(arch', summary_path, collection_id) := loaded in
  refs ← getr (parse_summary_refs summary_path);
  mret (mkMetadata r arch' refs (remote_metadata i (r_name r)) summary_path collection_id).

Definition enabled_remote (i : Installation) (n : string) (w : W) : result Remote :=
  r ← get_remote i n w;
  if negb (enabled r) then bail (fmt ["remote is disabled: "; n]) else Ok r.

Definition load_remote_metadata (i : Installation) (n : string) : M W RemoteMetadata :=
  r ← getr (enabled_remote i n);
  load_remote_metadata_for i r.

(** The default remote first, then by name. *)
Definition remote_order (r : Remote) : bool * string := (negb (String.eqb (r_name r) DEFAULT_REMOTE), r_name r).

Definition candidate_remotes (i : Installation) (n : option string) (w : W) : result (list Remote) :=
  cs ← match n with
       | Some n => r ← enabled_remote i n w; Ok [r]
       | None => remotes ← enabled_remotes i w; Ok (sort_by (on remote_order) remotes)
       end;
  if bool_decide (length cs = 0) then bail "no enabled remotes are configured" else Ok cs.

Definition resolve_app_ref (m : RemoteMetadata) (requested : string) (replacements : bool) : M W RemoteRef :=
  partial ← lift (parse_partial requested);
  _ ← lift (effective_kind partial (Some App));
  let arch' := default (md_arch m) (p_arch partial) in
  id' ← (if replacements && negb (app_ref_exists (md_refs m) (p_id partial) arch') then
           table ← fetch_appstream_replacements (md_remote m) (md_remote_dir m) arch';
           lift (resolve_current_app_id_from_replacements (md_refs m) table (p_id partial) arch')
         else mret (p_id partial));
  lift (select_ref (md_refs m) (mkPartial (p_kind partial) id' (p_arch partial) (p_branch partial)) App (md_arch m)).

(** The runtime an installed runtime stands for: the ref of its origin, or the
    installed commit. *)
Definition installed_runtime (i : Installation) (m : RemoteMetadata) (full : string) (installed : RuntimeRecord)
  : M W RemoteRef :=
  found ← (if String.eqb (rt_origin installed) (r_name (md_remote m)) then mret (find_ref (md_refs m) full)
           else
             loaded ← catch (load_remote_metadata i (rt_origin installed));
             mret (match loaded with Ok other => find_ref (md_refs other) full | Err _ => None end));
  mret (default (mkRemoteRef full (runtime_commit installed) None None (Some (rt_installed_size installed))) found).

(** The loop over the other enabled remotes. *)
Fixpoint search_runtime (i : Installation) (m : RemoteMetadata) (full : string) (remotes : list Remote)
  : M W (option (RemoteRef * string)) :=
  match remotes with
  | [] => mret None
  | r :: rest =>
      if String.eqb (r_name r) (r_name (md_remote m)) then search_runtime i m full rest
      else
        loaded ← catch (load_remote_metadata_for i r);
        match loaded with
        | Err _ => search_runtime i m full rest
        | Ok other =>
            match find_ref (md_refs other) full with
            | Some runtime => mret (Some (runtime, r_name r))
            | None => search_runtime i m full rest
            end
        end
  end.

Definition resolve_ref_with_runtime_fallback (i : Installation) (m : RemoteMetadata) (app : RemoteRef) : M W RemoteApp :=
  metadata ← lift (ok_or (fmt [r_name (md_remote m); " summary has no Flatpak metadata for "; rr_name app]) (rr_metadata app));
  runtime_ref ← lift (runtime_of_metadata metadata);
  let full := fmt ["runtime/"; runtime_ref] in
  let made runtime origin :=
    lift (remote_app_from_metadata app metadata runtime (md_arch m) (r_name (md_remote m)) origin) in
  installed ← get_runtime i runtime_ref;
  match installed with
  | Some record => runtime ← installed_runtime i m full record; made runtime (rt_origin record)
  | None =>
      match find_ref (md_refs m) full with
      | Some runtime => made runtime (r_name (md_remote m))
      | None =>
          remotes ← getr (enabled_remotes i);
          found ← search_runtime i m full remotes;
          match found with
          | Some (runtime, origin) => made runtime origin
          | None => lift (bail (fmt ["required runtime ref not found in an enabled remote: "; full]))
          end
      end
  end.

Definition resolve_exact_ref_with_runtime (i : Installation) (m : RemoteMetadata) (app_ref : string) : M W RemoteApp :=
  app ← lift (find_app_ref m app_ref);
  resolve_ref_with_runtime_fallback i m app.

Definition resolve_app_with_runtime_fallback (i : Installation) (m : RemoteMetadata) (app_id : string) : M W RemoteApp :=
  app ← resolve_app_ref m app_id true;
  resolve_ref_with_runtime_fallback i m app.

(** *** History *)

Definition history_for_ref (m : RemoteMetadata) (n commit : string) : M W (list CommitInfo) :=
  summary ← getr (fun w : W => io_context (fmt ["read "; md_summary_path m]) (read_to_string w (md_summary_path m)));
  commit_history (r_name (md_remote m)) summary n commit (gpg_verify (md_remote m)).

Definition app_history (i : Installation) (m : RemoteMetadata) (app_id : string) : M W (RemoteApp * list CommitInfo) :=
  app ← resolve_app_with_runtime_fallback i m app_id;
  history ← history_for_ref m (ra_app_ref app) (ra_app_commit app);
  mret (app, history).

Definition app_commit (i : Installation) (m : RemoteMetadata) (app_ref requested : string) : M W (RemoteApp * CommitInfo) :=
  tip ← lift (resolve_exact_ref m app_ref);
  history ← history_for_ref m app_ref (ra_app_commit tip);
  commit ← lift (select_history_commit history requested);
  metadata ← lift (ok_or (fmt ["historical commit "; ci_checksum commit; " has no Flatpak metadata"]) (ci_metadata commit));
  app ← resolve_ref_with_runtime_fallback i m (mkRemoteRef app_ref (ci_checksum commit) (Some metadata) None None);
  mret (app, commit).

Definition resolve_app_commit (i : Installation) (m : RemoteMetadata) (app_ref requested : string) : M W RemoteApp :=
  fst <$> app_commit i m app_ref requested.

Definition resolve_runtime_commit (m : RemoteMetadata) (runtime_ref requested : string) : M W RemoteRuntime :=
  tip ← lift (resolve_exact_runtime m runtime_ref);
  history ← history_for_ref m runtime_ref (rt_commit tip);
  commit ← lift (select_history_commit history requested);
  lift (remote_runtime_from_ref (mkRemoteRef runtime_ref (ci_checksum commit) (ci_metadata commit) None None)
          (r_name (md_remote m))).

(** *** Requests *)

(** The loop over the candidate remotes.  The attempt at one remote gives a
    [result]: the first [Ok] is the answer, an [Err] is kept among the failures
    and the next remote is tried.  An attempt that fails itself is a [bail!]
    inside the loop's body, which leaves the whole function. *)
Fixpoint first_remote {A} (attempt : RemoteMetadata -> M W (result A)) (i : Installation) (requested : string)
    (failures : list string) (remotes : list Remote) : M W A :=
  match remotes with
  | [] => lift (bail (fmt ["ref "; requested; " was not found in an enabled remote ("; join "; " failures; ")"]))
  | r :: rest =>
      let failed e := first_remote attempt i requested (failures ++ [fmt [r_name r; ": "; chain e]]) rest in
      loaded ← catch (load_remote_metadata_for i r);
      match loaded with
      | Err e => failed e
      | Ok m =>
          resolved ← attempt m;
          match resolved with
          | Ok a => mret a
          | Err e => failed e
          end
      end
  end.

Definition resolve_kind (i : Installation) (requested : string) (k : option RefKind) (m : RemoteMetadata)
  : M W (result ResolvedRemoteRef) :=
  match k with
  | Some App => catch (ResolvedApp <$> resolve_app_with_runtime_fallback i m requested)
  | Some Runtime => mret (ResolvedRuntime <$> resolve_runtime m requested)
  | None =>
      app ← catch (resolve_app_with_runtime_fallback i m requested);
      match app, resolve_runtime m requested with
      | Ok app, Err _ => mret (Ok (ResolvedApp app))
      | Err _, Ok runtime => mret (Ok (ResolvedRuntime runtime))
      | Ok _, Ok _ => lift (bail (fmt [requested; " matches both an application and a runtime; use --app or --runtime"]))
      | Err app_error, Err runtime_error =>
          lift (bail (fmt ["application: "; chain app_error; "; runtime: "; chain runtime_error]))
      end
  end.

Definition resolve_remote_ref (i : Installation) (remote_name : option string) (requested : string)
    (k : option RefKind) : M W ResolvedRemoteRef :=
  partial ← lift (parse_partial requested);
  requested_kind ← lift (effective_kind partial k);
  remotes ← getr (candidate_remotes i remote_name);
  first_remote (resolve_kind i requested requested_kind) i requested [] remotes.

Definition resolve_remote_app (i : Installation) (remote_name : option string) (app_id : string) : M W RemoteApp :=
  remotes ← getr (candidate_remotes i remote_name);
  first_remote (fun m => catch (resolve_app_with_runtime_fallback i m app_id)) i app_id [] remotes.

(** *** Search *)

Definition search_metadata (query : string) (r : Remote) (m : RemoteMetadata) : list SearchResult :=
  omap (fun x => match split_flatpak_ref (rr_name x) with
                 | Err _ => None
                 | Ok parts =>
                     if String.eqb (fp_kind parts) "app" && String.eqb (fp_arch parts) (md_arch m)
                        && contains query (to_ascii_lowercase (fp_name parts))
                     then Some (mkSearchResult (r_name r) (fp_name parts) (rr_name x) (fp_arch parts) (fp_branch parts))
                     else None
                 end) (md_refs m).

(** The results, the number of remotes loaded and the failures so far. *)
Definition search_remote (query : string) (i : Installation) (acc : list SearchResult * nat * list string) (r : Remote)
  : M W (list SearchResult * nat * list string) :=
  let '(results, loaded, failures) := acc in
  metadata ← catch (load_remote_metadata_for i r);
  mret (match metadata with
        | Err e => (results, loaded, failures ++ [fmt [r_name r; ": "; chain e]])
        | Ok m => (results ++ search_metadata query r m, S loaded, failures)
        end).

Definition search_apps (i : Installation) (query : string) : M W (list SearchResult) :=
  remotes ← getr (enabled_remotes i);
  if bool_decide (length remotes = 0) then lift (bail "no enabled remotes are configured")
  else
    found ← fold_each (search_remote (to_ascii_lowercase query) i) remotes ([], 0, []);
    let '(results, loaded, failures) := found in
    if Nat.eqb loaded 0 && negb (bool_decide (length failures = 0))
    then lift (bail (fmt ["failed to load configured remotes: "; join "; " failures]))
    else mret (sort_by (on (fun r => (sr_app_id r, sr_branch r, sr_remote r))) results).
End Resolution.

(** ** Lemmas: selecting a ref *)

(** The refs a partial request of a kind matches. *)
Definition requested (partial : PartialRef) (k : RefKind) (default_arch : string) (p : FlatpakRef) : Prop :=
  kind p = k /\ id p = p_id partial /\ FlatpakRef.arch p = default default_arch (p_arch partial) /\
  forall b, p_branch partial = Some b -> FlatpakRef.branch p = b.

Lemma candidate_Some partial k arch' r c :
  candidate partial k arch' r = Some c <->
  c.2 = r /\ parse_ref (rr_name r) = Ok c.1 /\ kind c.1 = k /\ id c.1 = p_id partial /\ FlatpakRef.arch c.1 = arch' /\
  forall b, p_branch partial = Some b -> FlatpakRef.branch c.1 = b.
Proof.
  unfold candidate. destruct (parse_ref (rr_name r)) as [p|e]; [|split; [done|naive_solver]].
  destruct (_ && _) eqn:E.
  - apply andb_true_iff in E as [[[E1%bool_decide_eq_true E2%String.eqb_eq]%andb_true_iff E3%String.eqb_eq]%andb_true_iff E4].
    split.
    + intros [= <-]. cbn. do 5 (split; [done|]). intros b Hb. rewrite Hb in E4. by apply String.eqb_eq.
    + intros (Hr & [= Hp] & _). destruct c. cbn in *. by subst.
  - split; [done|]. intros (Hr & [= <-] & Hk & Hi & Ha & Hb).
    rewrite bool_decide_true, Hi, Ha, !String.eqb_refl in E by done. cbn in E.
    destruct (p_branch partial) as [b|]; [|done]. by rewrite (Hb b eq_refl), String.eqb_refl in E.
Qed.

Lemma elem_of_candidates refs partial k d c :
  c ∈ candidates refs partial k d <->
  c.2 ∈ refs /\ parse_ref (rr_name c.2) = Ok c.1 /\ requested partial k d c.1.
Proof.
  unfold candidates, requested. rewrite elem_of_sort_by, list_elem_of_omap. split.
  - intros (r & Hr & (Hc & Hp & Hrest)%candidate_Some). rewrite Hc. done.
  - intros (Hr & Hp & Hrest). exists c.2. split; [done|]. by apply candidate_Some.
Qed.

Lemma list_two_cases {A} (l : list A) : l = [] \/ (exists x, l = [x]) \/ exists x y r, l = x :: y :: r.
Proof. destruct l as [|x [|y r]]; [by left|right; left; eauto|right; right; eauto]. Qed.

Lemma find_None_forall {A} (f : A -> bool) l : List.find f l = None <-> Forall (fun x => f x = false) l.
Proof.
  induction l as [|x l IH]; cbn; [by split; [constructor|]|]. rewrite Forall_cons, <- IH. destruct (f x); naive_solver.
Qed.

(** The two ways a selection succeeds and the two ways it fails. *)
Lemma select_ref_cases refs partial k d :
  let cs := candidates refs partial k d in
  (exists c, select_ref refs partial k d = Ok c.2 /\ c ∈ cs /\
     (p_branch partial = None /\ is_stable c = true \/ cs = [c])) \/
  (exists e, select_ref refs partial k d = Err e) /\
  (cs = [] \/ exists x y r, cs = x :: y :: r) /\ (p_branch partial = None -> Forall (fun c => is_stable c = false) cs).
Proof.
  unfold select_ref. set (cs := candidates refs partial k d). cbv zeta.
  destruct (if bool_decide (p_branch partial = None) then List.find is_stable cs else None) as [c|] eqn:E.
  - left. exists c. split; [done|]. case_bool_decide; [|done]. apply find_some in E as [Hin Hs].
    split; [by apply list_elem_of_In|by left].
  - assert (p_branch partial = None -> Forall (fun c => is_stable c = false) cs) as Hns.
    { intros Hb. rewrite bool_decide_true in E by done. by apply find_None_forall. }
    destruct (list_two_cases cs) as [Ec|[[c Ec]|(x & y & r & Ec)]]; rewrite Ec.
    + right. split; [by eexists|]. split; [by left|]. by rewrite <- Ec.
    + left. exists c. split; [done|]. split; [by left|by right].
    + right. split; [by eexists|]. split; [right; eauto|]. by rewrite <- Ec.
Qed.

(** A partial request selects a ref that matches it.  Without a branch the
    stable one is taken if there is one; in all other cases the ref is the only
    one that matches.  A request fails only when nothing matches, or when
    several refs do and none may be preferred as the stable one. *)
Theorem select_ref_is_unambiguous refs partial k d :
  (forall r, select_ref refs partial k d = Ok r ->
     exists p, r ∈ refs /\ parse_ref (rr_name r) = Ok p /\ requested partial k d p /\
       (p_branch partial = None /\ FlatpakRef.branch p = "stable" \/
        forall s q, s ∈ refs -> parse_ref (rr_name s) = Ok q -> requested partial k d q -> s = r)) /\
  (forall e, select_ref refs partial k d = Err e ->
     (forall s q, s ∈ refs -> parse_ref (rr_name s) = Ok q -> ~ requested partial k d q) \/
     (2 <= length (candidates refs partial k d) /\
      (p_branch partial = None ->
       forall s q, s ∈ refs -> parse_ref (rr_name s) = Ok q -> requested partial k d q -> FlatpakRef.branch q <> "stable"))).
Proof.
  assert (forall s q, s ∈ refs -> parse_ref (rr_name s) = Ok q -> requested partial k d q -> (q, s) ∈ candidates refs partial k d) as Hin.
  { intros s q Hs Hq Hr. by apply elem_of_candidates. }
  destruct (select_ref_cases refs partial k d) as [(c & Ec & Hc & Hwhy)|([e Ee] & Hcs & Hns)]; split.
  - intros r Hr. rewrite Ec in Hr. injection Hr as <-. apply elem_of_candidates in Hc as (H1 & H2 & H3).
    exists c.1. do 3 (split; [done|]). destruct Hwhy as [[Hb Hs]|Hs]; [left; split; [done|by apply String.eqb_eq]|right].
    intros s q Hs' Hq Hr. specialize (Hin _ _ Hs' Hq Hr). rewrite Hs in Hin. apply list_elem_of_singleton in Hin. by rewrite <- Hin.
  - intros e He. congruence.
  - intros r Hr. congruence.
  - intros e' _. destruct Hcs as [Hcs|(x & y & r & Hcs)].
    + left. intros s q Hs Hq Hr. specialize (Hin _ _ Hs Hq Hr). rewrite Hcs in Hin. by apply elem_of_nil in Hin.
    + right. split; [rewrite Hcs; cbn; lia|]. intros Hb s q Hs Hq Hr E. specialize (Hns Hb). rewrite Forall_forall in Hns.
      specialize (Hns _ (Hin _ _ Hs Hq Hr)). unfold is_stable in Hns. cbn in Hns. by apply String.eqb_neq in Hns.
Qed.

(** ** Lemmas: following replacements *)

Section Replacements.
Context (refs : list RemoteRef) (replacements : list (string * list string)) (request arch' : string).

(** One renaming, and an application that is not renamed further. *)
Definition renamed (a b : string) : Prop :=
  exists ids, bm_get a replacements = Some ids /\ available_replacements refs arch' ids = [b].
Definition current_name (a : string) : Prop :=
  bm_get a replacements = None \/ exists ids, bm_get a replacements = Some ids /\ available_replacements refs arch' ids = [].

Lemma renamed_functional a b c : renamed a b -> renamed a c -> b = c.
Proof. intros (ids & E1 & E2) (ids' & E3 & E4). congruence. Qed.

Lemma current_not_renamed a b : current_name a -> ~ renamed a b.
Proof. intros [E|(ids & E1 & E2)] (ids' & E3 & E4); congruence. Qed.

(** A name that comes back to itself never reaches a current one. *)
Lemma cycle_has_no_end a b : tc renamed a a -> rtc renamed a b -> ~ current_name b.
Proof.
  intros Hc Hb. induction Hb as [a|a x b Hx Hb IH].
  - intros Hcur. inversion Hc as [? ? Hy|? y ? Hy _]; subst; by eapply current_not_renamed.
  - apply IH. assert (rtc renamed x a) as Hxa.
    { inversion Hc as [? ? Hy|? y ? Hy Hc']; subst; rewrite (renamed_functional _ _ _ Hx Hy); [done|by apply tc_rtc]. }
    eapply tc_rtc_l; [exact Hxa|]. by apply tc_once.
Qed.

Definition keys : list string := replacements.*1.

Lemma follow_result fuel current seen :
  Sorted.StronglySorted lt_of seen -> seen ⊆ keys -> (forall x, x ∈ seen -> tc renamed x current) ->
  length keys - length seen < fuel ->
  exists r, follow_replacements fuel refs replacements request arch' current seen = Some r /\
    forall id, r = Ok id <-> rtc renamed current id /\ current_name id.
Proof.
  revert current seen. induction fuel as [|fuel IH]; intros current seen Hs Hk Ht Hf; [lia|].
  cbn [follow_replacements]. destruct (bs_contains current seen) eqn:Ec.
  - apply bs_contains_true in Ec. eexists. split; [done|]. intros id. split; [done|]. intros [Hr Hcur].
    by destruct (cycle_has_no_end current id (Ht _ Ec) Hr).
  - assert (current ∉ seen) as Hnot by (rewrite <- bs_contains_true; congruence).
    destruct (bm_get current replacements) as [ids|] eqn:Eg.
    2: { eexists. split; [done|]. intros id. split; [intros [= <-]; split; [done|by left]|].
         intros [Hr _]. inversion Hr as [|? y ? (ids & E & _)]; subst; [done|congruence]. }
    assert (current ∈ keys) as Hkey by (apply bm_get_Some; by exists ids).
    destruct (list_two_cases (available_replacements refs arch' ids)) as [Ea|[[b Ea]|(b & c & r & Ea)]]; rewrite Ea.
    + eexists. split; [done|]. intros id. split; [intros [= <-]; split; [done|right; eauto]|].
      intros [Hr _]. inversion Hr as [|? y ? (ids' & E & E2)]; subst; [done|congruence].
    + assert (renamed current b) as Hb by (by exists ids).
      destruct (IH b (bs_insert current seen)) as (r & E & Hr).
      * by apply bs_insert_strict.
      * intros x [->|Hx]%elem_of_bs_insert; [done|by apply Hk].
      * intros x [->|Hx]%elem_of_bs_insert; [by apply tc_once|]. eapply tc_r; [by apply Ht|done].
      * assert (NoDup (current :: seen)) as Hnd by (constructor; [done|by apply strict_NoDup]).
        assert (length (bs_insert current seen) = S (length seen)) as ->.
        { rewrite (Permutation_length (l' := current :: seen)); [done|]. apply NoDup_Permutation; [|done|].
          - by apply strict_NoDup, bs_insert_strict.
          - intros x. by rewrite elem_of_bs_insert, elem_of_cons. }
        assert (length (current :: seen) <= length keys) as Hlen.
        { apply submseteq_length, NoDup_submseteq; [done|]. intros x [->|Hx]%elem_of_cons; [done|by apply Hk]. }
        cbn [length] in Hlen. lia.
      * exists r. split; [done|]. intros id. rewrite Hr. split; intros [Hrt Hcur]; (split; [|done]).
        -- by eapply rtc_l.
        -- inversion Hrt as [|? y ? Hy Hrt']; subst; [by destruct (current_not_renamed _ _ Hcur Hb)|].
           by rewrite (renamed_functional _ _ _ Hb Hy).
    + eexists. split; [done|]. intros id. split; [done|]. intros [Hr Hcur].
      inversion Hr as [|? y ? (ids' & E & E2)]; subst; [destruct Hcur as [?|(ids' & ? & ?)]; congruence|congruence].
Qed.
End Replacements.

(** Following the renamings of an application terminates, and finds a name
    exactly when the renamings lead to one that is not renamed further: to a
    cycle or to a choice between several replacements it answers with an
    error. *)
Theorem replacements_are_followed refs replacements request arch' :
  follow_replacements (replacement_fuel replacements) refs replacements request arch' request [] <> None /\
  forall id, resolve_current_app_id_from_replacements refs replacements request arch' = Ok id <->
    rtc (renamed refs replacements arch') request id /\ current_name refs replacements arch' id.
Proof.
  destruct (follow_result refs replacements request arch' (replacement_fuel replacements) request []) as (r & E & Hr).
  - constructor.
  - set_solver.
  - by intros x ?%elem_of_nil.
  - unfold replacement_fuel, keys. rewrite length_fmap. cbn. lia.
  - split; [by rewrite E|]. intros id. unfold resolve_current_app_id_from_replacements. by rewrite E, <- Hr.
Qed.

(** ** The order in which remotes are asked *)

Section FirstRemote.
Context {W : Type} `{FileOps W} `{!RemoteWorld W} (i : Installation).

(** The remotes before the one that decides: each could not be loaded, or its
    attempt ended in a failure that lets the loop go on. *)
Inductive passed {A} (attempt : RemoteMetadata -> M W (result A)) : list Remote -> W -> W -> Prop :=
| passed_nil w : passed attempt [] w w
| passed_unloaded r rs e w w1 w2 :
    load_remote_metadata_for i r w = (Err e, w1) -> passed attempt rs w1 w2 -> passed attempt (r :: rs) w w2
| passed_failed r rs m e w w0 w1 w2 :
    load_remote_metadata_for i r w = (Ok m, w0) -> attempt m w0 = (Ok (Err e), w1) ->
    passed attempt rs w1 w2 -> passed attempt (r :: rs) w w2.

Lemma first_remote_Ok {A} (attempt : RemoteMetadata -> M W (result A)) requested remotes failures w a w' :
  first_remote attempt i requested failures remotes w = (Ok a, w') <->
  exists before r rest m w1 w2, remotes = before ++ r :: rest /\ passed attempt before w w1 /\
    load_remote_metadata_for i r w1 = (Ok m, w2) /\ attempt m w2 = (Ok (Ok a), w').
Proof.
  revert failures w. induction remotes as [|r rs IH]; intros failures w; cbn [first_remote].
  { split; [done|]. intros (before & r & rest & ? & ? & ? & E & _). by destruct before. }
  unfold mbind at 1, M_bind at 1, catch at 1. destruct (load_remote_metadata_for i r w) as [[m|e] w0] eqn:El.
  - unfold mbind, M_bind. destruct (attempt m w0) as [[[b|e]|e] w1] eqn:Ea.
    + change (((Ok b, w1) : result A * W) = (Ok a, w') <->
        exists before r' rest m' w1' w2, r :: rs = before ++ r' :: rest /\ passed attempt before w w1' /\
          load_remote_metadata_for i r' w1' = (Ok m', w2) /\ attempt m' w2 = (Ok (Ok a), w')). split.
      * intros [= -> ->]. exists [], r, rs, m, w, w0. split; [done|]. split; [constructor|done].
      * intros (before & r' & rest & m' & w1' & w2 & E & Hp & Hl & Hat). destruct before as [|r0 before]; cbn in E; simplify_eq.
        -- inversion Hp; simplify_eq. congruence.
        -- inversion Hp; simplify_eq; congruence.
    + rewrite IH. split.
      * intros (before & r' & rest & m' & w1' & w2 & -> & Hp & Hl & Hat).
        exists (r :: before), r', rest, m', w1', w2. split; [done|]. split; [by eapply passed_failed|done].
      * intros (before & r' & rest & m' & w1' & w2 & E & Hp & Hl & Hat). destruct before as [|r0 before]; cbn in E; simplify_eq.
        -- inversion Hp; simplify_eq. congruence.
        -- exists before, r', rest, m', w1', w2. inversion Hp; simplify_eq; [congruence|].
           split; [done|]. split; [|done]. congruence.
    + split; [done|]. intros (before & r' & rest & m' & w1' & w2 & E & Hp & Hl & Hat).
      destruct before as [|r0 before]; cbn in E; simplify_eq; inversion Hp; simplify_eq; congruence.
  - cbn. rewrite IH. split.
    + intros (before & r' & rest & m' & w1' & w2 & -> & Hp & Hl & Hat).
      exists (r :: before), r', rest, m', w1', w2. split; [done|]. split; [by eapply passed_unloaded|done].
    + intros (before & r' & rest & m' & w1' & w2 & E & Hp & Hl & Hat). destruct before as [|r0 before]; cbn in E; simplify_eq.
      * inversion Hp; simplify_eq. congruence.
      * exists before, r', rest, m', w1', w2. inversion Hp; simplify_eq; [|congruence].
        split; [done|]. split; [|done]. congruence.
Qed.


(** A request without a kind is decided by the first candidate remote whose
    metadata loads: a ref that only a later remote has is not found, because the
    error of the kind-less case leaves the whole function instead of joining the
    failures.  With a kind the search goes on to the other remotes. *)
Theorem kindless_request_asks_one_remote n request partial r rest m (w w1 : W) :
  parse_partial request = Ok partial -> p_kind partial = None ->
  candidate_remotes i n w = Ok (r :: rest) -> load_remote_metadata_for i r w = (Ok m, w1) ->
  (forall x w', resolve_remote_ref i n request None w = (Ok x, w') <-> resolve_kind i request None m w1 = (Ok (Ok x), w')) /\
  (forall e, resolve_runtime m request = Err e ->
     resolve_remote_ref i n request (Some Runtime) w =
     first_remote (resolve_kind i request (Some Runtime)) i request [fmt [r_name r; ": "; chain e]] rest w1).
Proof.
  intros Hp Hk Hc Hl. assert (forall k, resolve_remote_ref i n request k w =
    first_remote (resolve_kind i request k) i request [] (r :: rest) w) as Hr.
  { intros k. unfold resolve_remote_ref, lift, getr, mbind at 1, M_bind at 1. rewrite Hp.
    unfold effective_kind. rewrite Hk. unfold mbind, M_bind. rewrite Hc. by destruct k. }
  split.
  - intros x w'. rewrite Hr. cbn [first_remote]. unfold mbind at 1, M_bind at 1, catch at 1. rewrite Hl.
    unfold mbind at 1, M_bind at 1. destruct (resolve_kind i request None m w1) as [[[y|e]|e] w2] eqn:E.
    + split; [by intros [= -> ->]|]. by intros [= -> ->].
    + exfalso. revert E. unfold resolve_kind, mbind at 1, M_bind at 1, catch.
      destruct (resolve_app_with_runtime_fallback i m request w1) as [[?|?] ?];
        destruct (resolve_runtime m request); unfold mret, M_ret, lift; naive_solver.
    + done.
  - intros e He. rewrite Hr. cbn [first_remote]. unfold mbind at 1, M_bind at 1, catch at 1. rewrite Hl.
    unfold mbind at 1, M_bind at 1.
    assert (resolve_kind i request (Some Runtime) m w1 = (Ok (Err e), w1)) as -> by (cbn; by rewrite He). done.
Qed.

(** An application comes from the first candidate remote that can resolve
    it: the remotes before it could not be loaded or have no such application. *)
Theorem app_comes_from_first_remote n app_id remotes (w w' : W) a :
  candidate_remotes i n w = Ok remotes ->
  (resolve_remote_app i n app_id w = (Ok a, w') <->
   exists before r rest m w1 w2, remotes = before ++ r :: rest /\
     passed (fun m => catch (resolve_app_with_runtime_fallback i m app_id)) before w w1 /\
     load_remote_metadata_for i r w1 = (Ok m, w2) /\ resolve_app_with_runtime_fallback i m app_id w2 = (Ok a, w')).
Proof.
  intros Hc. unfold resolve_remote_app, getr, mbind at 1, M_bind at 1. rewrite Hc, first_remote_Ok.
  split; intros (before & r & rest & m & w1 & w2 & H1 & H2 & H3 & H4);
    exists before, r, rest, m, w1, w2; (do 3 (split; [done|])).
  - unfold catch in H4. destruct (resolve_app_with_runtime_fallback i m app_id w2). naive_solver.
  - unfold catch. by rewrite H4.
Qed.

(** The search for a runtime ends at an enabled remote other than the
    application's, in whose metadata the runtime is. *)
Lemma search_runtime_Some m full remotes (w w' : W) runtime origin :
  search_runtime i m full remotes w = (Ok (Some (runtime, origin)), w') ->
  exists r other w1 w2, r ∈ remotes /\ r_name r = origin /\ origin <> r_name (md_remote m) /\
    load_remote_metadata_for i r w1 = (Ok other, w2) /\ find_ref (md_refs other) full = Some runtime.
Proof.
  revert w. induction remotes as [|r rs IH]; intros w; cbn [search_runtime]; [done|].
  assert (forall w, search_runtime i m full rs w = (Ok (Some (runtime, origin)), w') ->
    exists r0 other w1 w2, r0 ∈ r :: rs /\ r_name r0 = origin /\ origin <> r_name (md_remote m) /\
      load_remote_metadata_for i r0 w1 = (Ok other, w2) /\ find_ref (md_refs other) full = Some runtime) as Hrest.
  { intros w1 (r0 & other & w2 & w3 & Hin & Hr0)%IH. exists r0, other, w2, w3. split; [by right|done]. }
  destruct (String.eqb_spec (r_name r) (r_name (md_remote m))) as [E|E]; [apply Hrest|].
  unfold mbind, M_bind, catch. destruct (load_remote_metadata_for i r w) as [[other|e] w1] eqn:El; [|apply Hrest].
  destruct (find_ref (md_refs other) full) as [x|] eqn:Ef; [|apply Hrest]. intros [= -> <- ->].
  exists r, other, w, w'. split; [left|done].
Qed.

Lemma remote_app_from_metadata_Ok app metadata runtime arch' origin runtime_origin a :
  remote_app_from_metadata app metadata runtime arch' origin runtime_origin = Ok a ->
  runtime_of_metadata metadata = Ok (ra_runtime_ref a) /\ ra_origin a = origin /\ ra_runtime_origin a = runtime_origin /\
  ra_app_ref a = rr_name app /\ ra_app_commit a = rr_checksum app /\ ra_runtime_commit a = rr_checksum runtime.
Proof. unfold remote_app_from_metadata, runtime_of_metadata. intros Ha. inv_ok. case_match; [done|].
  apply bind_ok in Ha as (rref & -> & Ha). inv_ok. by case_match; simplify_eq.
Qed.

(** The runtime of an application that is to be installed: an installed
    runtime keeps the origin it was installed from; otherwise the application's
    own remote is preferred, and only when it lacks the runtime is it taken from
    another enabled remote. *)
Theorem runtime_origin_kept m app metadata rref installed (w w1 w' : W) a :
  rr_metadata app = Some metadata -> runtime_of_metadata metadata = Ok rref ->
  get_runtime i rref w = (Ok installed, w1) -> resolve_ref_with_runtime_fallback i m app w = (Ok a, w') ->
  ra_origin a = r_name (md_remote m) /\ ra_app_ref a = rr_name app /\ ra_runtime_ref a = rref /\
  match installed, find_ref (md_refs m) (fmt ["runtime/"; rref]) with
  | Some record, _ => ra_runtime_origin a = rt_origin record
  | None, Some runtime => ra_runtime_origin a = r_name (md_remote m) /\ ra_runtime_commit a = rr_checksum runtime
  | None, None => exists r other runtime remotes w2 w3,
      enabled_remotes i w1 = Ok remotes /\ r ∈ remotes /\ ra_runtime_origin a = r_name r /\ r_name r <> r_name (md_remote m) /\
      load_remote_metadata_for i r w2 = (Ok other, w3) /\
      find_ref (md_refs other) (fmt ["runtime/"; rref]) = Some runtime /\ ra_runtime_commit a = rr_checksum runtime
  end.
Proof.
  intros Hm Hr Hg Ha. unfold resolve_ref_with_runtime_fallback in Ha. rewrite Hm in Ha. cbn [ok_or] in Ha.
  apply M_bind_ok in Ha as (? & ? & [= <- <-] & Ha). apply M_bind_ok in Ha as (? & ? & E & Ha).
  unfold lift in E. rewrite Hr in E. injection E as <- <-.
  apply M_bind_ok in Ha as (? & ? & E & Ha). rewrite Hg in E. injection E as <- <-.
  destruct installed as [record|].
  - apply M_bind_ok in Ha as (runtime & w2 & _ & Ha). unfold lift in Ha. injection Ha as Ha _.
    apply remote_app_from_metadata_Ok in Ha as (H1 & -> & -> & -> & _). rewrite Hr in H1. by injection H1.
  - destruct (find_ref (md_refs m) (fmt ["runtime/"; rref])) as [runtime|].
    + unfold lift in Ha. injection Ha as Ha _. apply remote_app_from_metadata_Ok in Ha as (H1 & -> & -> & -> & _ & ->).
      rewrite Hr in H1. by injection H1.
    + apply M_bind_ok in Ha as (remotes & ? & E & Ha). unfold getr in E. injection E as E <-.
      apply M_bind_ok in Ha as ([[runtime origin]|] & w3 & Hs & Ha); [|done]. unfold lift in Ha. injection Ha as Ha _.
      apply remote_app_from_metadata_Ok in Ha as (H1 & -> & -> & -> & _ & ->). rewrite Hr in H1. injection H1 as <-.
      apply search_runtime_Some in Hs as (r & other & w4 & w5 & Hin & <- & Hne & Hl & Hf).
      do 3 (split; [done|]). exists r, other, runtime, remotes, w4, w5. done.
Qed.
End FirstRemote.

(** *** Examples *)

(** Two remotes; a runtime that only the second has, and an application that
    only the second has. *)
Definition two_remotes : list Remote :=
  [mkRemote "first" "https://a.example" None true false None; mkRemote "second" "https://b.example" None true false None].
Definition two_remotes_disk : TreeFs :=
  mkTree [components (remote_configs example_installation)]
    (map (fun r => (components (config_path example_installation (r_name r)), kv (remote_entries r))) two_remotes).
Definition second_refs : list RemoteRef :=
  [mkRemoteRef "runtime/org.example.Platform/x86_64/24.08" "c1" None None None;
   mkRemoteRef "app/org.example.App/x86_64/stable" "c2"
     (Some (fmt (map end_line ["[Application]"; "name=org.example.App"; "runtime=org.example.Platform/x86_64/24.08"; "command=app"])))
     None None].
#[export] Instance two_remotes_world : RemoteWorld TreeFs := {|
  load_arch_summary i r w := (Ok ("x86_64", r_name r, None), w);
  parse_summary_refs p w := if String.eqb p "second" then Ok second_refs else Ok [];
  fetch_appstream_replacements r p a w := (Ok [], w);
  commit_history a b c d e w := (Ok [], w) |}.

Lemma kindless_request_asks_one_remote_witness :
  let r := resolve_remote_ref example_installation None "org.example.Platform//24.08" in
  (forall x w', r None two_remotes_disk <> (Ok x, w')) /\
  exists x, r (Some Runtime) two_remotes_disk = (Ok (ResolvedRuntime x), two_remotes_disk) /\ rt_remote x = "second".
Proof.
  destruct (kindless_request_asks_one_remote example_installation None "org.example.Platform//24.08"
    (mkPartial None "org.example.Platform" None (Some "24.08")) (mkRemote "first" "https://a.example" None true false None)
    [mkRemote "second" "https://b.example" None true false None]
    (mkMetadata (mkRemote "first" "https://a.example" None true false None) "x86_64" [] (remote_metadata example_installation "first") "first" None)
    two_remotes_disk two_remotes_disk ltac:(vm_compute; reflexivity) eq_refl ltac:(vm_compute; reflexivity) ltac:(vm_compute; reflexivity)) as [H1 _].
  cbv zeta. split.
  - intros x w' E. apply H1 in E. vm_compute in E. discriminate E.
  - eexists. split; vm_compute; reflexivity.
Defined.

Definition second_metadata : RemoteMetadata :=
  mkMetadata (mkRemote "second" "https://b.example" None true false None) "x86_64" second_refs
    (remote_metadata example_installation "second") "second" None.
Definition second_app : RemoteApp :=
  mkRemoteApp "second" "second" "org.example.App" "app/org.example.App/x86_64/stable" "c2" "x86_64" "stable"
    "org.example.Platform/x86_64/24.08" "c1" None None None "app".

Lemma app_comes_from_first_remote_witness :
  resolve_remote_app example_installation None "org.example.App" two_remotes_disk =
  (Ok second_app, (resolve_app_with_runtime_fallback example_installation second_metadata "org.example.App" two_remotes_disk).2).
Proof.
  refine (proj2 (app_comes_from_first_remote example_installation None "org.example.App" two_remotes
    two_remotes_disk _ second_app _) _); [vm_compute; reflexivity|].
  exists [mkRemote "first" "https://a.example" None true false None], (mkRemote "second" "https://b.example" None true false None), [].
  exists second_metadata, two_remotes_disk, two_remotes_disk. split; [reflexivity|]. split.
  - eapply (passed_failed _ _ _ _ (mkMetadata (mkRemote "first" "https://a.example" None true false None) "x86_64" [] (remote_metadata example_installation "first") "first" None) _ two_remotes_disk two_remotes_disk two_remotes_disk);
      [vm_compute; reflexivity|vm_compute; reflexivity|apply passed_nil].
  - split; vm_compute; reflexivity.
Defined.

Lemma runtime_origin_kept_witness : ra_origin second_app = "second" /\ ra_app_ref second_app = "app/org.example.App/x86_64/stable".
Proof.
  set (app := mkRemoteRef "app/org.example.App/x86_64/stable" "c2"
     (Some (fmt (map end_line ["[Application]"; "name=org.example.App"; "runtime=org.example.Platform/x86_64/24.08"; "command=app"]))) None None).
  destruct (runtime_origin_kept example_installation second_metadata app
     (fmt (map end_line ["[Application]"; "name=org.example.App"; "runtime=org.example.Platform/x86_64/24.08"; "command=app"]))
     "org.example.Platform/x86_64/24.08" None two_remotes_disk
     (get_runtime example_installation "org.example.Platform/x86_64/24.08" two_remotes_disk).2
     (resolve_ref_with_runtime_fallback example_installation second_metadata app two_remotes_disk).2 second_app
     eq_refl ltac:(vm_compute; reflexivity) ltac:(vm_compute; reflexivity) ltac:(vm_compute; reflexivity)) as (H1 & H2 & _).
  by split.
Defined.

Lemma select_ref_is_unambiguous_witness :
  select_ref second_refs (mkPartial None "org.example.App" None None) App "x86_64" =
    Ok (nth 1 second_refs (mkRemoteRef "" "" None None None)) /\
  exists p, requested (mkPartial None "org.example.App" None None) App "x86_64" p.
Proof.
  split; [vm_compute; reflexivity|].
  destruct (proj1 (select_ref_is_unambiguous second_refs (mkPartial None "org.example.App" None None) App "x86_64")
    (nth 1 second_refs (mkRemoteRef "" "" None None None)) ltac:(vm_compute; reflexivity)) as (p & _ & _ & Hp & _).
  exists p. exact Hp.
Defined.
