(* ===== verification/OstreeSummary.v ===== *)
(** * OstreeSummary: what the program reads of OSTree's summaries
    (src/src/remotes/ostree_summary.rs)

    A summary, and the index of summaries, is a GVariant of a known type; its
    bytes are decoded by glib (a parameter).  What is left to the program is
    modelled: the lookups in its dictionaries, whose values may be of any type,
    the checksums, and the choice of the architecture's summary. *)
From Stdlib Require Import Ascii String NArith ZArith Lia.
From stdpp Require Import base list strings.
From S2P Require Import Prelude Effects RustStr RustNum RustPath HostFs RefResolution Gzip.

(** A value of a dictionary [a{sv}]: the kinds that the program tells apart. *)
Inductive variant :=
  | VString (s : string)
  | VU64 (z : Z)
  | VContainer (children : list variant)
  | VOther.

Abbreviation dictionary := (list (string * variant)) (only parsing).

(** The typed contents of [(a(s(taya{sv}))a{sv})] and [(a{s(ayaaya{sv})}a{sv})]. *)
Record SummaryInfo := mkInfo { info_size : Z; info_checksum : bytes; info_map : dictionary }.
Record Summary := mkSummary { summary_refs : list (string * SummaryInfo); summary_map : dictionary }.
Record IndexDetails := mkDetails { details_digest : bytes; details_history : list bytes; details_map : dictionary }.
Record SummaryIndex := mkIndex { index_entries : list (string * IndexDetails); index_map : dictionary }.

(** Decoding, and the SHA-256 digest in hexadecimal. *)
Class SummaryFormat := {
  decode_summary : string -> Summary;
  decode_index : string -> SummaryIndex;
  sha256_hex : string -> string;
}.

(** [Variant::n_children] and [child_value] panic on what is no container:
    [None]. *)
Definition n_children (v : variant) : option nat :=
  match v with VContainer c => Some (length c) | _ => None end.
Definition child_value (v : variant) (i : nat) : option variant :=
  match v with VContainer c => c !! i | _ => None end.
Definition str (v : variant) : option string := match v with VString s => Some s | _ => None end.
Definition get_u64 (v : variant) : option Z := match v with VU64 z => Some z | _ => None end.

Fixpoint lookup_variant_value (map : dictionary) (key : string) : option variant :=
  match map with
  | [] => None
  | (k, v) :: r => if String.eqb k key then Some v else lookup_variant_value r key
  end.
Definition lookup_variant_string (map : dictionary) (key : string) : option string :=
  lookup_variant_value map key ≫= str.

(** [u64::from_be] on a little-endian machine. *)
Definition from_be (z : Z) : Z :=
  foldl (fun acc i => acc * 256 + (z / 256 ^ i) mod 256)%Z 0%Z [0; 1; 2; 3; 4; 5; 6; 7]%Z.

(** The outer option is a panic. *)
Definition lookup_flatpak_metadata (map : dictionary) : option (option string) :=
  match lookup_variant_string map "xa.metadata" with
  | Some metadata => Some (Some metadata)
  | None =>
      match lookup_variant_value map "xa.data" with
      | None => Some None
      | Some data =>
          n ← n_children data;
          if negb (n =? 3)%nat then Some None
          else c ← child_value data 2; Some (str c)
      end
  end.

Definition summary_sizes (map : dictionary) : option (option Z * option Z) :=
  match lookup_variant_value map "xa.data" with
  | None => Some (None, None)
  | Some data =>
      n ← n_children data;
      if negb (n =? 3)%nat then Some (None, None)
      else
        a ← child_value data 0;
        b ← child_value data 1;
        Some (from_be <$> get_u64 a, from_be <$> get_u64 b)
  end.

(** [{b:02x}]. *)
Definition hex_byte (b : ascii) : string :=
  let d m := ascii_of_N (if (m <? 10)%N then 48 + m else 87 + m) in
  String (d (N_of_ascii b / 16)%N) (String (d (N_of_ascii b mod 16)%N) "").

Definition bytes_to_checksum (data : bytes) : result string :=
  if negb (length data =? 32)%nat
  then bail (fmt ["expected 32-byte checksum, got "; show_nat (length data)])
  else Ok (fmt (map hex_byte data)).

Definition remote_ref_from_summary_info (name : string) (info : SummaryInfo) : option (result RemoteRef) :=
  '(installed_size, download_size) ← summary_sizes (info_map info);
  match bytes_to_checksum (info_checksum info) with
  | Err e => Some (Err e)
  | Ok checksum =>
      metadata ← lookup_flatpak_metadata (info_map info);
      Some (Ok (mkRemoteRef name checksum metadata download_size installed_size))
  end.

(** The loop of [parse_summary_refs_bytes]. *)
Fixpoint remote_refs (l : list (string * SummaryInfo)) : option (result (list RemoteRef)) :=
  match l with
  | [] => Some (Ok [])
  | (name, info) :: r =>
      found ← remote_ref_from_summary_info name info;
      match found with
      | Err e => Some (Err e)
      | Ok found =>
          rest ← remote_refs r;
          Some (match rest with Ok rest => Ok (found :: rest) | Err e => Err e end)
      end
  end.

Section Parsing.
Context `{SummaryFormat}.

Definition summary_digest_matches (data expected : string) : bool :=
  eq_ignore_ascii_case (sha256_hex data) expected.

Definition parse_summary_refs_bytes (data : string) : option (result (list RemoteRef)) :=
  remote_refs (summary_refs (decode_summary data)).

Definition index_digest (data arch : string) : result string :=
  match List.find (fun e => String.eqb e.1 arch) (index_entries (decode_index data)) with
  | Some e => bytes_to_checksum (details_digest e.2)
  | None => bail (fmt ["summary index has no metadata for architecture "; arch])
  end.

(** The part of [parse_summary_index] behind the file. *)
Definition parse_index_bytes (data arch : string) : result (string * option string) :=
  let collection_id := lookup_variant_string (index_map (decode_index data)) "ostree.summary.collection-id" in
  digest ← index_digest data arch;
  Ok (digest, collection_id).

Definition summary_collection (data : string) : option string :=
  lookup_variant_string (summary_map (decode_summary data)) "ostree.summary.collection-id".
End Parsing.

(** ** Lemmas: digests *)

Lemma hex_byte_names b : exists c d, hex_byte b = String c (String d "") /\
  (is_hexdigit c = true /\ is_upper c = false) /\ (is_hexdigit d = true /\ is_upper d = false).
Proof.
  eexists _, _. split; [reflexivity|].
  destruct b as [[] [] [] [] [] [] [] []]; vm_compute; auto.
Qed.

Lemma hex_byte_inj a b : hex_byte a = hex_byte b -> a = b.
Proof.
  assert (Hd : forall b, N_of_ascii b = (let d c := let n := N_of_ascii c in if (n <? 58)%N then n - 48 else n - 87 in
            match hex_byte b with String x (String y _) => 16 * d x + d y | _ => 0 end)%N).
  { intros [[] [] [] [] [] [] [] []]; vm_compute; reflexivity. }
  intros E.
  pose proof (Hd a) as Ha. rewrite E, <- (Hd b) in Ha.
  by rewrite <- (ascii_N_embedding a), Ha, ascii_N_embedding.
Qed.

(** A digest is 64 digits, and stands for its bytes. *)
Lemma bytes_to_checksum_inj a b s : bytes_to_checksum a = Ok s -> bytes_to_checksum b = Ok s -> a = b.
Proof.
  unfold bytes_to_checksum. destruct (Nat.eqb_spec (length a) 32) as [La|]; [|done].
  destruct (Nat.eqb_spec (length b) 32) as [Lb|]; [|done]. cbn [negb]. intros [= <-] [= E].
  rewrite <- Lb in La. clear Lb. revert b La E. induction a as [|x a IH]; intros [|y b] L E; try done.
  cbn [map] in E. rewrite !fmt_cons in E. destruct (hex_byte_names x) as (c & d & Ex & _).
  destruct (hex_byte_names y) as (c' & d' & Ey & _). rewrite Ex, Ey in E. cbn in E. injection E as -> -> E.
  f_equal; [apply hex_byte_inj; congruence|]. apply IH; [by injection L|done].
Qed.

Lemma hexdigit_clean a : is_hexdigit a = true -> a <> "/"%char /\ a <> "."%char.
Proof. intros Ha. split; intros ->; done. Qed.

Lemma checksum_hex data s : bytes_to_checksum data = Ok s -> s <> "" /\ all_bytes is_hexdigit s = true.
Proof.
  unfold bytes_to_checksum. destruct (Nat.eqb_spec (length data) 32) as [L|]; [|done]. intros [= <-].
  split.
  - destruct data as [|b data]; [done|]. cbn [map]. rewrite fmt_cons.
    by destruct (hex_byte_names b) as (c & d & -> & _).
  - clear L. induction data as [|b data IH]; [done|]. cbn [map]. rewrite fmt_cons.
    destruct (hex_byte_names b) as (c & d & -> & [? _] & [? _]). cbn. by rewrite IH, andb_true_r; apply andb_true_iff.
Qed.

(** ** Lemmas: the refs *)

(** What the program looks at behind "xa.data" has parts. *)
Definition data_is_container (info : SummaryInfo) : Prop :=
  match lookup_variant_value (info_map info) "xa.data" with
  | None | Some (VContainer _) => True
  | Some _ => False
  end.

Lemma three_children c : length c = 3 -> exists a b m, VContainer c = VContainer [a; b; m].
Proof. destruct c as [|a [|b [|m [|]]]]; try done. eauto. Qed.

Lemma no_panic info : data_is_container info ->
  (exists s, summary_sizes (info_map info) = Some s) /\ exists m, lookup_flatpak_metadata (info_map info) = Some m.
Proof.
  unfold data_is_container, summary_sizes, lookup_flatpak_metadata.
  destruct (lookup_variant_value (info_map info) "xa.data") as [[| |c|]|]; try done; intros _.
  - cbn [n_children mbind option_bind]. destruct (Nat.eqb_spec (length c) 3) as [L|L]; cbn [negb].
    + apply three_children in L as (a & b & m & [= ->]). cbn. split; [eauto|].
      destruct (lookup_variant_string (info_map info) "xa.metadata"); eauto.
    + split; [eauto|]. destruct (lookup_variant_string (info_map info) "xa.metadata"); eauto.
  - split; [eauto|]. destruct (lookup_variant_string (info_map info) "xa.metadata"); eauto.
Qed.

(** ** Properties *)

(** Reading the refs of a summary does not panic as long as what its entries
    have behind "xa.data" is a container, and then what is read are the summary's
    refs in their order, each with the digits of its own checksum. *)
Theorem summary_refs_are_exact (l : list (string * SummaryInfo)) :
  Forall (fun e => data_is_container e.2) l ->
  exists r, remote_refs l = Some r /\ forall refs, r = Ok refs ->
    Forall2 (fun e f => rr_name f = e.1 /\ bytes_to_checksum (info_checksum e.2) = Ok (rr_checksum f)) l refs.
Proof.
  induction 1 as [|[name info] l Hc _ (rest & Er & IH)]; cbn [remote_refs].
  - eexists. split; [done|]. intros refs [= <-]. constructor.
  - cbn [snd] in Hc. destruct (no_panic info Hc) as [([a b] & Es) (m & Em)].
    unfold remote_ref_from_summary_info. rewrite Es, Em. cbn [mbind option_bind].
    destruct (bytes_to_checksum (info_checksum info)) as [c|e] eqn:Ec; [|eexists; by split].
    rewrite Er. eexists. split; [reflexivity|]. intros refs. destruct rest as [rest|e]; [|done].
    intros [= <-]. constructor; [done|]. by apply IH.
Qed.

Definition example_info (n : N) (v : list (string * variant)) : SummaryInfo :=
  mkInfo 1 (replicate 32 (ascii_of_N n)) v.

Lemma summary_refs_are_exact_witness :
  let l := [("app/org.a/x86_64/stable", example_info 171 [("xa.data", VContainer [VU64 (2 ^ 56); VU64 0; VString "[Application]"])]);
            ("runtime/org.r/x86_64/1", example_info 16 [("xa.metadata", VString "[Runtime]")])] in
  exists r, remote_refs l = Some r /\ forall refs, r = Ok refs ->
    Forall2 (fun e f => rr_name f = e.1 /\ bytes_to_checksum (info_checksum e.2) = Ok (rr_checksum f)) l refs.
Proof. intros l. apply (summary_refs_are_exact l). subst l. repeat constructor. Defined.

Example example_refs :
  match remote_refs [("app/org.a/x86_64/stable", example_info 171 [("xa.data", VContainer [VU64 (2 ^ 56); VU64 0; VString "m"])])] with
  | Some (Ok [f]) => rr_installed_size f = Some 1%Z /\ rr_download_size f = Some 0%Z /\ rr_metadata f = Some "m"
  | _ => False
  end.
Proof. vm_compute. auto. Qed.
