(* ===== verification/OstreeRepository.v ===== *)
(** * OstreeRepository: the storage on top of libostree
    (src/src/ostree/ostree_repository.rs, commit_history.rs)

    Opening the repository under its lock, the configuration of its remotes,
    the verification of summaries and objects, the size of a commit when it is
    installed, and the walk over the commits of a ref.  libostree and glib are
    parameters; what is proved is what the program does with them: the size is
    the sum of the rounded sizes of all regular files or an error, never a
    wrapped number, and the walk ends with the chain of stored ancestors. *)
From Stdlib Require Import Ascii String NArith ZArith Lia.
From stdpp Require Import base list strings.
From S2P Require Import Prelude Effects RustStr RustNum RustPath HostFs InstallationPaths RemoteConfig CheckoutActivation RefResolution Gzip OstreeSummary.

(** ** Sizes *)

(** What an enumeration of a directory of a commit delivers: an error ends it. *)
Inductive listing :=
  | ListEnd
  | ListError (e : string)
  | ListRegular (size : Z) (rest : listing)
  | ListDirectory (children : listing) (rest : listing)
  | ListOther (rest : listing).

Definition u64_max : Z := 2 ^ 64 - 1.
Definition checked_add (a b : Z) : option Z := if (a + b <=? u64_max)%Z then Some (a + b)%Z else None.
Definition saturating_add (a b : Z) : Z := Z.min u64_max (a + b).

(** The loop over one directory, from what it has counted so far. *)
Fixpoint collect_from (size : Z) (l : listing) : result Z :=
  match l with
  | ListEnd => Ok size
  | ListError e => Err [e]
  | ListRegular file_size rest =>
      if (file_size <? 0)%Z then bail "negative OSTree file size"
      else
        size' ← ok_or "installed size overflow" (checked_add size (saturating_add file_size 511 / 512 * 512));
        collect_from size' rest
  | ListDirectory children rest =>
      below ← collect_from 0 children;
      size' ← ok_or "installed size overflow" (checked_add size below);
      collect_from size' rest
  | ListOther rest => collect_from size rest
  end.
Definition collect_installed_size (root : listing) : result Z := collect_from 0 root.

(** ** The repository *)

(** A commit as far as the program reads it. *)
Record OstreeCommit := mkOstreeCommit {
  oc_metadata : list (string * variant); oc_subject : variant; oc_body : variant;
  oc_parent : option string; oc_timestamp : Z }.

(** How a remote is configured, and how a history is pulled. *)
Inductive remote_option := OptBool (key : string) (v : bool).
Record HistoryPull := mkPull { pull_ref : string; pull_tip : string; pull_gpg_verify : bool; pull_summary : string }.

Class Libostree (W : Type) `{FileOps W} := {
  open_lock : path -> W -> io_result unit * W;
  lock_exclusive : W -> io_result unit * W;
  repo_open : path -> W -> io_result unit * W;
  repo_create : path -> W -> io_result unit * W;
  remote_replace : string -> string -> list remote_option -> W -> io_result unit * W;
  remote_delete : string -> W -> io_result unit * W;
  gpg_import : string -> string -> W -> io_result unit * W;
  repo_verify_summary : string -> string -> string -> W -> io_result (io_result unit);
  fsck_typed_object : string -> string -> W -> io_result unit * W;
  list_objects : W -> io_result (list (string * string));
  read_commit : string -> W -> io_result listing;
  set_ref_none : string -> string -> W -> io_result unit * W;
  prune_static_deltas : W -> io_result unit * W;
  prune_objects : W -> io_result (Z * Z * Z) * W;
  pull_history : string -> HistoryPull -> W -> io_result unit * W;
  has_commit : string -> W -> io_result bool;
  load_commit : string -> W -> io_result OstreeCommit;
}.

Section Storage.
Context {W : Type} `{Libostree W} `{!StorageOps W} (base64_decode : string -> result string).

Definition storage_transaction (i : Installation) : path := join_path (data_root i) TRANSACTION_FILE.

Definition storage_open (i : Installation) : M W unit :=
  _ ← io_step (fmt ["create "; data_root i]) (make_dirs (data_root i));
  let lock_path := join_path (data_root i) ".storage.lock" in
  _ ← io_step (fmt ["open "; lock_path]) (open_lock lock_path);
  _ ← io_step (fmt ["lock "; lock_path]) lock_exclusive;
  let repo_path := repo i in
  present ← gets (fun w : W => is_file w (join_path repo_path "config"));
  _ ← (if present : bool
       then io_step (fmt ["open OSTree repository "; repo_path]) (repo_open repo_path)
       else io_step (fmt ["create OSTree repository "; repo_path]) (repo_create repo_path));
  recover_activation_file (storage_transaction i).

Definition recover_storage (i : Installation) : M W unit := storage_open i.

Definition storage_configure_definition (r : Remote) : M W unit :=
  io_step (fmt ["configure private OSTree remote "; r_name r])
    (remote_replace (r_name r) (url r)
       [OptBool "gpg-verify" (gpg_verify r); OptBool "gpg-verify-summary" (gpg_verify r); OptBool "http2" true]).

Definition storage_import_gpg_key (r : Remote) : M W unit :=
  match gpg_key r with
  | None => mret tt
  | Some encoded =>
      key ← lift (with_context (fmt ["decode GPG key for remote "; r_name r]) (base64_decode (trim encoded)));
      io_step (fmt ["import GPG key for remote "; r_name r]) (gpg_import (r_name r) key)
  end.

Definition storage_configure_remote (r : Remote) : M W unit :=
  _ ← storage_configure_definition r; storage_import_gpg_key r.

Definition storage_delete (n : string) : M W unit :=
  io_step (fmt ["delete private OSTree remote "; n]) (remote_delete n).

Definition storage_verify_summary (n data signatures : string) (w : W) : result unit :=
  verdict ← io_context (fmt ["verify "; n; " summary signature"]) (repo_verify_summary n data signatures w);
  io_context (fmt [n; " summary has no valid signature"]) verdict.

Definition fsck_commits (commits : list string) : M W unit :=
  for_each (fun commit => io_step (fmt ["fsck commit "; commit]) (fsck_typed_object "commit" commit)) commits.

Definition installed_size (checksum : string) (w : W) : result Z :=
  root ← io_context (fmt ["read OSTree commit "; checksum]) (read_commit checksum w);
  with_context (fmt ["collect installed size for commit "; checksum]) (collect_installed_size root).

Definition fsck_all : M W nat :=
  objects ← getr (fun w : W => io_context "list OSTree objects" (list_objects w));
  _ ← for_each (fun o => io_step (fmt ["fsck "; o.2; "."; o.1]) (fsck_typed_object o.1 o.2)) objects;
  mret (length objects).

Definition storage_remove_remote_refs (n : string) (refs : list string) : M W unit :=
  for_each (fun ref_name => io_step (fmt ["remove OSTree ref "; n; ":"; ref_name]) (set_ref_none n ref_name)) refs.

Definition prune : M W (Z * Z * Z) :=
  _ ← io_step "prune unused static deltas" prune_static_deltas;
  io_step "prune unreachable OSTree objects" prune_objects.

Definition repair_repo (i : Installation) : M W nat := _ ← storage_open i; fsck_all.
Definition prune_repo (i : Installation) : M W (Z * Z * Z) := _ ← storage_open i; prune.
Definition remove_remote_refs (i : Installation) (n : string) (refs : list string) : M W unit :=
  _ ← storage_open i; storage_remove_remote_refs n refs.

(** ** The history of a ref *)

Definition commit_info (current : string) (c : OstreeCommit) : CommitInfo :=
  let metadata := oc_metadata c in
  mkCommit current (oc_parent c) (oc_timestamp c) (default "" (str (oc_subject c))) (default "" (str (oc_body c)))
    (lookup_variant_string metadata "xa.metadata") (lookup_variant_string metadata "xa.version")
    (match lookup_variant_string metadata "ostree.collection-binding" with
     | Some id => Some id
     | None => lookup_variant_string metadata "xa.collection-id"
     end).

(** The walk.  [None] says that it has not come to an end. *)
Fixpoint walk_history (fuel : nat) (w : W) (history : list CommitInfo) (checksum : option string)
  : option (result (list CommitInfo)) :=
  match checksum with
  | None => Some (Ok history)
  | Some current =>
      match fuel with
      | O => None
      | S fuel =>
          match io_context (fmt ["check for OSTree commit "; current]) (has_commit current w) with
          | Err e => Some (Err e)
          | Ok false =>
              if bool_decide (history = [])
              then Some (bail (fmt ["OSTree history pull did not store tip commit "; current]))
              else Some (Ok history)
          | Ok true =>
              match io_context (fmt ["load OSTree commit "; current]) (load_commit current w) with
              | Err e => Some (Err e)
              | Ok commit => walk_history fuel w (history ++ [commit_info current commit]) (oc_parent commit)
              end
          end
      end
  end.

Definition storage_commit_history (fuel : nat) (n data ref_name tip : string) (verify : bool)
  : M W (option (list CommitInfo)) :=
  _ ← io_step (fmt ["pull OSTree history for "; ref_name]) (pull_history n (mkPull ref_name tip verify data));
  found ← gets (fun w : W => walk_history fuel w [] (Some tip));
  match found with
  | None => mret None
  | Some history => Some <$> lift history
  end.
End Storage.

(** What the other components take the storage for. *)
Definition remote_storage {W} `{Libostree W} `{!StorageOps W} (base64_decode : string -> result string) (i : Installation)
  : RemoteStorage W := {|
  open_storage := storage_open i;
  configure_remote_definition := storage_configure_definition;
  import_remote_gpg_key := storage_import_gpg_key base64_decode;
  storage_delete_remote := storage_delete;
|}.

(** ** What a commit occupies *)

Fixpoint regular_sizes (l : listing) : list Z :=
  match l with
  | ListEnd | ListError _ => []
  | ListRegular size rest => size :: regular_sizes rest
  | ListDirectory children rest => regular_sizes children ++ regular_sizes rest
  | ListOther rest => regular_sizes rest
  end.

(** Every directory was read to its end. *)
Fixpoint complete (l : listing) : bool :=
  match l with
  | ListEnd => true
  | ListError _ => false
  | ListRegular _ rest | ListOther rest => complete rest
  | ListDirectory children rest => complete children && complete rest
  end.

(** The multiple of 512 at or above a size. *)
Definition blocks (size : Z) : Z := ((size + 511) / 512 * 512)%Z.
Definition total (sizes : list Z) : Z := foldr Z.add 0%Z (map blocks sizes).

Lemma blocks_bounds s : (0 <= s -> s <= blocks s < s + 512 /\ blocks s mod 512 = 0)%Z.
Proof.
  intros Hs. unfold blocks. pose proof (Z.div_mod (s + 511) 512 ltac:(done)) as E.
  pose proof (Z.mod_pos_bound (s + 511) 512 ltac:(done)). split; [lia|]. by rewrite Z.mod_mul.
Qed.

Lemma total_app a b : total (a ++ b) = (total a + total b)%Z.
Proof. unfold total. induction a as [|x a IH]; cbn; [done|]. rewrite IH. lia. Qed.

Lemma total_nonneg a : Forall (fun s => 0 <= s)%Z a -> (0 <= total a)%Z.
Proof.
  unfold total. induction 1 as [|s a Hs _ IH]; cbn; [done|]. pose proof (blocks_bounds s Hs). lia.
Qed.

Lemma rounded size : (0 <= size < 2 ^ 63)%Z -> (saturating_add size 511 / 512 * 512 = blocks size)%Z.
Proof. intros Hs. unfold saturating_add, u64_max, blocks. by rewrite Z.min_r by lia. Qed.

Lemma checked_add_ok msg a b c : ok_or msg (checked_add a b) = Ok c <-> c = (a + b)%Z /\ (c <= u64_max)%Z.
Proof.
  rewrite ok_or_ok. unfold checked_add. destruct (a + b <=? u64_max)%Z eqn:E; split.
  - intros [= <-]. split; [done|lia].
  - by intros [-> _].
  - done.
  - intros [-> ?]. lia.
Qed.

Lemma collect_from_exact l : Forall (fun s => s < 2 ^ 63)%Z (regular_sizes l) -> forall size n, (0 <= size <= u64_max)%Z ->
  collect_from size l = Ok n <->
  complete l = true /\ Forall (fun s => 0 <= s)%Z (regular_sizes l) /\ n = (size + total (regular_sizes l))%Z /\ (n <= u64_max)%Z.
Proof.
  induction l as [|e|s rest IH|children IHc rest IH|rest IH]; intros Hb size n Hs; cbn [collect_from complete regular_sizes] in *.
  - unfold total; cbn. split; [intros [= <-]; split_and!; [done|constructor|lia..]|]. intros (_ & _ & -> & _). f_equal. lia.
  - split; [done|]. by intros [].
  - apply Forall_cons in Hb as [Hs1 Hb]. destruct (s <? 0)%Z eqn:Es.
    + split; [done|]. intros (_ & [? _]%Forall_cons & _). lia.
    + rewrite bind_ok. setoid_rewrite checked_add_ok. rewrite rounded by lia. pose proof (blocks_bounds s ltac:(lia)).
      change (total (s :: regular_sizes rest)) with (blocks s + total (regular_sizes rest))%Z. split.
      * intros (c & [-> ?] & (? & ? & -> & ?)%IH); [|done|lia]. split_and!; [done|constructor; [lia|done]|lia..].
      * intros (? & [_ Hf]%Forall_cons & -> & ?). pose proof (total_nonneg _ Hf). exists (size + blocks s)%Z.
        split; [lia|]. apply IH; [done|lia|]. split_and!; [done..|lia|lia].
  - apply Forall_app in Hb as [Hb1 Hb2]. rewrite bind_ok. setoid_rewrite bind_ok. setoid_rewrite checked_add_ok.
    rewrite andb_true_iff, Forall_app, total_app. assert (0 <= 0 <= u64_max)%Z as H0 by done. split.
    + intros (b & (? & ? & -> & ?)%IHc & c & [-> ?] & E); [|done..].
      pose proof (total_nonneg (regular_sizes children) ltac:(done)).
      apply IH in E as (? & ? & -> & ?); [|done|lia]. split_and!; [done..|lia|lia].
    + intros ([Hc1 Hc2] & [Hf1 Hf2] & -> & ?). pose proof (total_nonneg _ Hf1). pose proof (total_nonneg _ Hf2).
      exists (total (regular_sizes children)). split; [apply IHc; [done..|]; split_and!; [done..|lia|lia]|].
      eexists. split; [split; [reflexivity|lia]|]. apply IH; [done|lia|]. split_and!; [done..|lia|lia].
  - by apply IH.
Qed.

(** C29.  The installed size of a commit is the sum of the sizes of all its
    regular files, each rounded up to 512 bytes; the computation fails exactly
    when a directory cannot be read, a size is negative or the sum does not fit
    64 bits: no number wraps around. *)
Theorem installed_size_exact (root : listing) n :
  Forall (fun s => s < 2 ^ 63)%Z (regular_sizes root) ->
  collect_installed_size root = Ok n <->
  complete root = true /\ Forall (fun s => 0 <= s)%Z (regular_sizes root) /\ n = total (regular_sizes root) /\ (n <= u64_max)%Z.
Proof. intros Hb. by apply collect_from_exact. Qed.

Lemma installed_size_exact_witness :
  collect_installed_size (ListRegular 1 (ListDirectory (ListRegular 513 ListEnd) (ListOther ListEnd))) = Ok 1536%Z.
Proof.
  apply installed_size_exact; [repeat constructor|]. split_and!; [done|repeat constructor; lia|done|]. by unfold u64_max.
Defined.

(** ** The ancestors of a commit *)

Section History.
Context {W : Type} `{Libostree W} (w : W).

Definition stored (c : string) : Prop := has_commit c w = inl true.
Definition loads (c : string) (commit : OstreeCommit) : Prop := load_commit c w = inl commit.

(** The chain of stored commits from [c] on: it ends at a commit without a
    parent, or whose parent is not stored. *)
Inductive ancestry : string -> list CommitInfo -> Prop :=
  | ancestry_first c commit : stored c -> loads c commit -> oc_parent commit = None -> ancestry c [commit_info c commit]
  | ancestry_pruned c commit p : stored c -> loads c commit -> oc_parent commit = Some p -> has_commit p w = inl false ->
      ancestry c [commit_info c commit]
  | ancestry_older c commit p h : stored c -> loads c commit -> oc_parent commit = Some p -> ancestry p h ->
      ancestry c (commit_info c commit :: h).

(** A commit is named by a hash of its contents, of which its parent is a part:
    no commit is its own ancestor.  [age] bounds the number of ancestors. *)
Definition aged (age : string -> nat) : Prop :=
  forall c commit p, loads c commit -> oc_parent commit = Some p -> age p < age c.

Lemma walk_from age c fuel seen : aged age -> stored c -> age c < fuel ->
  exists r, walk_history fuel w seen (Some c) = Some r /\ forall h, r = Ok h <-> exists k, h = seen ++ k /\ ancestry c k.
Proof.
  intros Hage. revert c seen. induction fuel as [|fuel IH]; intros c seen Hc Hf; [lia|].
  cbn [walk_history]. unfold stored in Hc. rewrite Hc. cbn [io_context].
  destruct (load_commit c w) as [commit|e] eqn:El; cbn [io_context].
  2:{ eexists. split; [done|]. intros h. split; [done|]. intros (k & _ & Hk). inversion Hk; unfold loads in *; congruence. }
  assert (forall h, (exists k, h = seen ++ k /\ ancestry c k) <->
     (oc_parent commit = None \/ exists p, oc_parent commit = Some p /\ has_commit p w = inl false) /\ h = seen ++ [commit_info c commit] \/
     exists p k, oc_parent commit = Some p /\ h = (seen ++ [commit_info c commit]) ++ k /\ ancestry p k) as Hcases.
  { intros h. setoid_rewrite <- (assoc_L (++)). cbn [app]. split.
    - intros (k & -> & Hk). inversion Hk as [? commit' ? Hl|? commit' p ? Hl|? commit' p k' ? Hl]; subst; unfold loads in *;
        rewrite El in Hl; injection Hl as <-; eauto 10.
    - intros [[[Hp|(p & Hp & Hh)] ->]|(p & k & Hp & -> & Hk)]; eexists; (split; [reflexivity|]);
        [by apply ancestry_first|by eapply ancestry_pruned|by eapply ancestry_older]. }
  setoid_rewrite Hcases. destruct (oc_parent commit) as [p|] eqn:Ep.
  2:{ assert (walk_history fuel w (seen ++ [commit_info c commit]) None = Some (Ok (seen ++ [commit_info c commit]))) as ->
        by (by destruct fuel). eexists. split; [done|]. intros h. split; [intros [= <-]; auto|].
    intros [[_ ->]|(q & k & [=] & _)]. done. }
  pose proof (Hage c commit p El Ep) as Hlt. destruct fuel as [|fuel']; [lia|].
  destruct (has_commit p w) as [[]|e] eqn:Eh.
  - destruct (IH p (seen ++ [commit_info c commit]) Eh ltac:(lia)) as (r & -> & Hr). exists r. split; [done|].
    intros h. rewrite Hr. split; [by intros (k & -> & Hk); eauto 10|].
    intros [[[?|(q & [= <-] & Hq)] _]|(q & k & [= <-] & -> & Hk)]; [done|congruence|eauto].
  - cbn [walk_history]. rewrite Eh. cbn [io_context]. rewrite bool_decide_false by (by destruct seen).
    eexists. split; [done|]. intros h. split; [intros [= <-]; left; split; [right; by exists p|done]|].
    intros [[_ ->]|(q & k & [= <-] & _ & Hk)]; [done|]. inversion Hk; unfold stored in *; congruence.
  - cbn [walk_history]. rewrite Eh. eexists. split; [done|]. intros h. split; [done|].
    intros [[[?|(q & [= <-] & Hq)] _]|(q & k & [= <-] & _ & Hk)]; [done|congruence|inversion Hk; unfold stored in *; congruence].
Qed.

(** C31.  The walk over the history of a ref ends, and succeeds exactly with the
    chain of stored ancestors of the tip, which it must find. *)
Theorem history_is_ancestry age tip fuel : aged age -> age tip < fuel ->
  exists r, walk_history fuel w [] (Some tip) = Some r /\
    (forall h, r = Ok h <-> ancestry tip h) /\
    (has_commit tip w = inl false -> r = bail (fmt ["OSTree history pull did not store tip commit "; tip])).
Proof.
  intros Hage Hf. destruct (has_commit tip w) as [[]|e] eqn:Et.
  - destruct (walk_from age tip fuel [] Hage Et Hf) as (r & Hr & Hiff). exists r. split_and!; [done| |done].
    intros h. rewrite Hiff. split; [by intros (k & -> & Hk)|eauto].
  - destruct fuel as [|fuel]; [lia|]. cbn [walk_history]. rewrite Et. eexists. split_and!; [done| |done].
    intros h. split; [done|]. intros Ha. inversion Ha; unfold stored in *; congruence.
  - destruct fuel as [|fuel]; [lia|]. cbn [walk_history]. rewrite Et. eexists. split_and!; [done| |done].
    intros h. split; [done|]. intros Ha. inversion Ha; unfold stored in *; congruence.
Qed.
End History.

(** ** A concrete repository: two stored commits, whose parent was pruned *)

Definition example_commit (c : string) : option OstreeCommit :=
  let made subject parent time := mkOstreeCommit [("xa.version", VString "1.0")] (VString subject) (VString "") parent time in
  if String.eqb c "tip" then Some (made "newest" (Some "middle") 3%Z)
  else if String.eqb c "middle" then Some (made "older" (Some "oldest") 2%Z) else None.
#[local] Instance example_repository : Libostree TreeFs := {
  open_lock _ t := (inl tt, t);
  lock_exclusive t := (inl tt, t);
  repo_open _ t := (inl tt, t);
  repo_create _ t := (inl tt, t);
  remote_replace _ _ _ t := (inl tt, t);
  remote_delete _ t := (inl tt, t);
  gpg_import _ _ t := (inl tt, t);
  repo_verify_summary _ _ _ _ := inl (inl tt);
  fsck_typed_object _ _ t := (inl tt, t);
  list_objects _ := inl [];
  read_commit _ _ := inl ListEnd;
  set_ref_none _ _ t := (inl tt, t);
  prune_static_deltas t := (inl tt, t);
  prune_objects t := (inl (0%Z, 0%Z, 0%Z), t);
  pull_history _ _ t := (inl tt, t);
  has_commit c _ := inl (bool_decide (is_Some (example_commit c)));
  load_commit c _ := match example_commit c with Some commit => inl commit | None => inr not_found end;
}.
Definition example_age (c : string) : nat := if String.eqb c "tip" then 2 else if String.eqb c "middle" then 1 else 0.

Lemma history_is_ancestry_witness :
  let h := [mkCommit "tip" (Some "middle") 3 "newest" "" None (Some "1.0") None;
            mkCommit "middle" (Some "oldest") 2 "older" "" None (Some "1.0") None] in
  walk_history 3 (mkTree [] []) [] (Some "tip") = Some (Ok h) /\ ancestry (mkTree [] []) "tip" h.
Proof.
  intros h. split; [reflexivity|].
  destruct (history_is_ancestry (mkTree [] []) example_age "tip" 3) as (r & Hr & Hh & _).
  - intros c commit p. unfold loads. cbn. unfold example_commit, example_age.
    destruct (String.eqb_spec c "tip") as [->|]; [intros [= <-] [= <-]; cbn; lia|].
    destruct (String.eqb_spec c "middle") as [->|]; [intros [= <-] [= <-]; cbn; lia|done].
  - cbn. lia.
  - apply Hh. assert (Some r = Some (Ok h)) as E by (rewrite <- Hr; reflexivity). by injection E.
Defined.
