(* ===== verification/MetadataCache.v ===== *)
(** * MetadataCache: the cached metadata of a remote
    (src/src/remotes/metadata_cache.rs)

    The index of a remote's summaries, the summary of an architecture and the
    AppStream data are fetched into a directory per remote, kept for a while,
    and used again when a refresh fails.  What a remote that verifies
    signatures yields is authentic: its summary was signed, or is what a signed
    index lists, whichever of the operations fail and whatever the network
    delivers. *)
From Stdlib Require Import Ascii String NArith ZArith Lia.
From stdpp Require Import base list strings.
From S2P Require Import Prelude Effects RustStr RustNum RustPath HostFs InstallationPaths Records RemoteConfig MetadataLock RefResolution Gzip OstreeSummary.

(** [ExitStatus]: whether it is a success, and its text. *)
Record ExitStatus := mkExit { status_success : bool; status_text : string }.

(** What the cache uses of the system besides files and locks: bytes of files,
    the environment and the calendar (seconds), child processes, the host's
    architecture and the verification of the OSTree repository. *)
Class CacheWorld (W : Type) `{LockWorld W, !RemoteStorage W} := {
  read_bytes : W -> path -> io_result string;
  env_var : string -> W -> option string;
  since_epoch : W -> option Z;
  spawn : string -> list string -> W -> io_result Z * W;
  try_wait : Z -> W -> io_result (option ExitStatus) * W;
  host_flatpak_arch : result string;
  verify_summary : string -> string -> string -> W -> result unit;
}.

(** A step that may be at no end yet. *)
Definition ended {W A B} (m : M W (option A)) (k : A -> M W (option B)) : M W (option B) :=
  o ← m; match o with Some a => k a | None => mret None end.
Notation "x ⇐ m ; k" := (ended m (fun x => k)) (at level 20, m at level 100, k at level 200, right associativity).

Definition safe_dir_fragment (value : string) : string :=
  fmt (map (fun ch => if ascii_char (fun a => is_alnum a || Ascii.eqb a "." || Ascii.eqb a "-" || Ascii.eqb a "_") ch
                      then ch else "_") (chars value)).

(** The name under which a download is kept while it is incomplete. *)
Definition partial_path (p : path) : path :=
  with_file_name p (fmt ["."; default "metadata" (file_name_of p); ".part"]).

Definition fetch_args (partial : path) (url : string) : list string :=
  ["-a"; "-F"; "-r"; "-R"; "-q"; "-o"; partial; url].

Section Cache.
Context {W : Type} `{CacheWorld W} `{SummaryFormat} (inflate : bytes -> result bytes).
(** The attempts after which a wait is given up by the model (not by the code). *)
Context (patience : nat).
(** Whether the caller has the storage open, for whose lock this program would
    then wait for ever. *)
Context (held : bool).

Definition read_file (msg : string) (p : path) : M W string := getr (fun w => io_context msg (read_bytes w p)).
Definition unix_timestamp (w : W) : Z := default 0%Z (since_epoch w).

Definition metadata_ttl (w : W) : result Z :=
  match env_var "FREEBSD_FLATPAK_METADATA_TTL" w with
  | None => Ok 300%Z
  | Some value => ok_or "parse FREEBSD_FLATPAK_METADATA_TTL" (parse_u64 value)
  end.

Definition metadata_is_fresh (p checked : path) (w : W) : result bool :=
  if negb (is_file w p) || negb (is_file w checked) then Ok false
  else
    ttl ← metadata_ttl w;
    match io_ok (read_to_string w checked) ≫= fun value => parse_u64 (trim value) with
    | None => Ok false
    | Some timestamp => Ok (Z.max 0 (unix_timestamp w - timestamp) <? ttl)%Z
    end.

(** The loop prints the progress to a terminal, which is left out. *)
Fixpoint wait_download (fuel : nat) (label : string) (child : Z) : M W (option ExitStatus) :=
  match fuel with
  | 0 => mret None
  | S fuel =>
      status ← io_step (fmt ["wait for "; label; " download"]) (try_wait child);
      match status with
      | Some status => mret (Some status)
      | None => _ ← pause_for 150; wait_download fuel label child
      end
  end.

Definition fetch_metadata_file (u : string) (p : path) (label : string) : M W (option unit) :=
  let partial := partial_path p in
  child ← io_step (fmt ["download "; label]) (spawn "fetch" (fetch_args partial u));
  status ⇐ wait_download patience label child;
  if negb (status_success status)
  then lift (bail (fmt ["download "; label; " failed with status "; status_text status; "; partial download kept for retry"]))
  else
    _ ← io_step (fmt ["complete metadata download "; p]) (rename_file partial p);
    mret (Some tt).

(** After a refresh the time is noted; when it failed, what is cached is used. *)
Definition refreshed_or_cached (refresh : M W (option unit)) (p : path) (stamp : string -> M W unit) : M W (option path) :=
  r ← catch refresh;
  match r with
  | Ok None => mret None
  | Ok (Some _) =>
      now ← gets unix_timestamp;
      _ ← stamp (fmt [show_Z now; nl]);
      mret (Some p)
  | Err e =>
      cached ← gets (fun w : W => is_file w p);
      if cached : bool then mret (Some p) else fail e
  end.

Definition write_checked (checked : path) (text : string) : M W unit :=
  io_step (fmt ["write "; checked]) (write_file checked text).

(** ** The index of summaries *)

Definition index_is_fresh (r : Remote) (d : path) : M W bool :=
  usable ← gets (fun w : W => negb (gpg_verify r) || is_file w (join_path d "summary.idx.sig"));
  if usable : bool then getr (metadata_is_fresh (join_path d "summary.idx") (join_path d "summary.idx.checked"))
  else mret false.

Definition refresh_index (r : Remote) (d : path) : M W (option unit) :=
  let p := join_path d "summary.idx" in
  let signature_path := join_path d "summary.idx.sig" in
  let candidate := join_path d "summary.idx.candidate" in
  let signature_candidate := join_path d "summary.idx.sig.candidate" in
  _ ⇐ fetch_metadata_file (fmt [url r; "/summary.idx"]) candidate (fmt [r_name r; " metadata index"]);
  _ ⇐ (if gpg_verify r then
         _ ⇐ fetch_metadata_file (fmt [url r; "/summary.idx.sig"]) signature_candidate (fmt [r_name r; " metadata signature"]);
         summary ← read_file (fmt ["read "; candidate]) candidate;
         signatures ← read_file (fmt ["read "; signature_candidate]) signature_candidate;
         _ ⇐ open_locked held;
         _ ← getr (verify_summary (r_name r) summary signatures);
         mret (Some tt)
       else mret (Some tt));
  _ ← io_step (fmt ["activate "; p]) (rename_file candidate p);
  _ ← (if gpg_verify r then io_step (fmt ["activate "; signature_path]) (rename_file signature_candidate signature_path)
       else mret tt);
  mret (Some tt).

Definition fetch_summary_index (i : Installation) (r : Remote) : M W (option path) :=
  let d := remote_metadata i (r_name r) in
  let p := join_path d "summary.idx" in
  _ ← io_step "create remote metadata directory" (make_dirs d);
  fresh ← index_is_fresh r d;
  if fresh : bool then mret (Some p)
  else with_lock patience (join_path d "summary.idx.lock") (
    fresh ← index_is_fresh r d;
    if fresh : bool then mret (Some p)
    else refreshed_or_cached (refresh_index r d) p (write_checked (join_path d "summary.idx.checked"))).

(** ** The summary of an architecture *)

Definition fetch_subsummary (i : Installation) (r : Remote) (arch digest : string) : M W (option path) :=
  let summaries := join_path (remote_metadata i (r_name r)) "summaries" in
  _ ← io_step "create architecture summary cache" (make_dirs summaries);
  let p := join_path summaries (fmt [digest; ".gz"]) in
  present ← gets (fun w : W => is_file w p);
  if present : bool then mret (Some p)
  else with_lock patience (join_path summaries (fmt [digest; ".lock"])) (
    present ← gets (fun w : W => is_file w p);
    if present : bool then mret (Some p)
    else
      _ ⇐ fetch_metadata_file (fmt [url r; "/summaries/"; digest; ".gz"]) p (fmt [r_name r; " metadata for "; arch]);
      mret (Some p)).

(** The cached summary, if it still has its digest; one that has not is
    removed. *)
Definition cached_subsummary (p : path) (digest : string) : M W bool :=
  present ← gets (fun w : W => is_file w p);
  if negb present then mret false
  else
    data ← read_file (fmt ["read "; p]) p;
    if summary_digest_matches data digest then mret true
    else
      _ ← io_step (fmt ["remove invalid "; p]) (remove_file p);
      mret false.

Definition decompress_string (data : string) : result string :=
  string_of_list_ascii <$> decompress_gzip inflate (list_ascii_of_string data).

Definition cache_uncompressed_subsummary (i : Installation) (r : Remote) (digest : string) (compressed_path : path)
    : M W (option path) :=
  let p := join_path (join_path (remote_metadata i (r_name r)) "summaries") (fmt [digest; ".sub"]) in
  cached ← cached_subsummary p digest;
  if cached : bool then mret (Some p)
  else with_lock patience (with_extension p "sub.lock") (
    cached ← cached_subsummary p digest;
    if cached : bool then mret (Some p)
    else
      compressed ← read_file (fmt ["read "; compressed_path]) compressed_path;
      data ← lift (with_context (fmt ["decompress "; compressed_path]) (decompress_string compressed));
      if negb (summary_digest_matches data digest) then
        _ ← attempt (remove_file compressed_path);
        lift (bail (fmt ["downloaded "; r_name r; " architecture summary failed SHA-256 verification"]))
      else
        let partial := with_extension p "sub.part" in
        _ ← io_step (fmt ["write "; partial]) (write_file partial data);
        _ ← io_step (fmt ["complete summary cache "; p]) (rename_file partial p);
        mret (Some p)).

(** ** The summary of a remote without an index *)

Definition normal_is_fresh (d : path) : M W bool :=
  getr (metadata_is_fresh (join_path d "summary") (join_path d "summary.checked")).

Definition read_plain (p : path) : M W string := getr (fun w => io_plain (read_bytes w p)).

Definition refresh_normal (r : Remote) (d : path) : M W (option unit) :=
  let candidate := join_path d "summary.candidate" in
  let signature_candidate := join_path d "summary.sig.candidate" in
  _ ⇐ fetch_metadata_file (fmt [url r; "/summary"]) candidate (fmt [r_name r; " summary"]);
  _ ⇐ (if gpg_verify r then
         _ ⇐ fetch_metadata_file (fmt [url r; "/summary.sig"]) signature_candidate (fmt [r_name r; " summary signature"]);
         summary ← read_plain candidate;
         signature ← read_plain signature_candidate;
         _ ⇐ open_locked held;
         _ ← getr (verify_summary (r_name r) summary signature);
         mret (Some tt)
       else mret (Some tt));
  _ ← io_try (rename_file candidate (join_path d "summary"));
  _ ← (if gpg_verify r then io_try (rename_file signature_candidate (join_path d "summary.sig")) else mret tt);
  mret (Some tt).

Definition fetch_normal_summary (i : Installation) (r : Remote) : M W (option path) :=
  let d := remote_metadata i (r_name r) in
  _ ← io_try (make_dirs d);
  let p := join_path d "summary" in
  fresh ← normal_is_fresh d;
  if fresh : bool then mret (Some p)
  else with_lock patience (join_path d "summary.lock") (
    fresh ← normal_is_fresh d;
    if fresh : bool then mret (Some p)
    else refreshed_or_cached (refresh_normal r d) p (fun text => io_try (write_file (join_path d "summary.checked") text))).

(** ** The AppStream data *)

Definition fetch_appstream (r : Remote) (remote_dir : path) (arch : string) : M W (option path) :=
  let name end_ := join_path remote_dir (fmt ["appstream-"; safe_dir_fragment arch; end_]) in
  let p := name ".xml.gz" in
  let checked := name ".checked" in
  _ ← io_step "create remote metadata directory" (make_dirs remote_dir);
  fresh ← getr (metadata_is_fresh p checked);
  if fresh : bool then mret (Some p)
  else with_lock patience (name ".lock") (
    fresh ← getr (metadata_is_fresh p checked);
    if fresh : bool then mret (Some p)
    else refreshed_or_cached
           (fetch_metadata_file (fmt [url r; "/appstream/"; arch; "/appstream.xml.gz"]) p (fmt [r_name r; " AppStream metadata"]))
           p (write_checked checked)).

(** ** The summary that the resolution works on *)

Definition parse_summary_index (p : path) (arch : string) (w : W) : result (string * option string) :=
  data ← with_context (fmt ["parse OSTree summary index "; p]) (io_context (fmt ["read "; p]) (read_bytes w p));
  parse_index_bytes data arch.

Definition parse_summary_collection_id (p : path) (w : W) : result (option string) :=
  summary_collection <$> with_context (fmt ["parse OSTree summary "; p]) (io_context (fmt ["read "; p]) (read_bytes w p)).

Definition parse_summary_refs (p : path) (w : W) : option (result (list RemoteRef)) :=
  match io_context (fmt ["read "; p]) (read_bytes w p) with
  | Err e => Some (Err e)
  | Ok data => with_context (fmt ["parse OSTree summary "; p]) <$> parse_summary_refs_bytes data
  end.

Definition load_arch_summary (i : Installation) (r : Remote) : M W (option (string * path * option string)) :=
  arch ← lift host_flatpak_arch;
  index ← catch (fetch_summary_index i r);
  match index with
  | Ok None => mret None
  | Err _ =>
      summary_path ⇐ fetch_normal_summary i r;
      collection_id ← getr (parse_summary_collection_id summary_path);
      mret (Some (arch, summary_path, collection_id))
  | Ok (Some index_path) =>
      found ← getr (parse_summary_index index_path arch);
      let '(digest, collection_id) := found in
      compressed ⇐ fetch_subsummary i r arch digest;
      summary_path ⇐ cache_uncompressed_subsummary i r digest compressed;
      mret (Some (arch, summary_path, collection_id))
  end.
End Cache.

(** ** What the files promise *)

(** [file_data w p] is what the file at [p] holds.  An operation leaves the paths
    alone that do not contain its own and do not lie below them. *)
Class CacheFiles (W : Type) `{CacheWorld W} := {
  file_data : W -> path -> option string;
  bytes_data : forall w p d, read_bytes w p = inl d -> file_data w p = Some d;
  make_dirs_data : forall w p q, file_data (make_dirs p w).2 q = file_data w q;
  write_data : forall w p d r w', write_file p d w = (r, w') ->
    (r = inl tt -> file_data w' p = Some d) /\ forall q, apart q p -> file_data w' q = file_data w q;
  rename_data : forall w p q r w', rename_file p q w = (r, w') ->
    (r = inl tt -> file_data w' q = file_data w p) /\ (forall e u, r = inr e -> file_data w' u = file_data w u) /\
    forall u, apart u p -> apart u q -> file_data w' u = file_data w u;
  remove_data : forall w p q, apart q p -> file_data (remove_file p w).2 q = file_data w q;
  create_data : forall w p q, apart q p -> file_data (create_new p w).2 q = file_data w q;
  write_created_data : forall w p d q, apart q p -> file_data (write_created p d w).2 q = file_data w q;
}.

(** ** Lemmas: steps that keep an invariant and yield something *)

Section Gives.
Context {W : Type} (P : W -> Prop).

Definition gives {A} (Pre : W -> Prop) (m : M W A) (Q : A -> W -> Prop) : Prop :=
  forall w, Pre w -> P (m w).2 /\ forall a, (m w).1 = Ok a -> Q a (m w).2.

Lemma gives_keeps {A} (m : M W A) : gives P m (fun _ _ => True) <-> keeps P m.
Proof. split; intros H w Hw; [apply H, Hw|split; [apply H, Hw|done]]. Qed.

Lemma gives_mono {A} (Pre Pre' : W -> Prop) (m : M W A) (Q Q' : A -> W -> Prop) :
  gives Pre m Q -> (forall w, Pre' w -> Pre w) -> (forall a w, P w -> Q a w -> Q' a w) -> gives Pre' m Q'.
Proof. intros H HP HQ w Hw. destruct (H w (HP w Hw)) as [H1 H2]. split; [done|]. auto. Qed.

Lemma gives_bind {A B} Pre (m : M W A) Q1 (f : A -> M W B) Q :
  gives Pre m Q1 -> (forall a, gives (fun w => P w /\ Q1 a w) (f a) Q) -> gives Pre (m ≫= f) Q.
Proof.
  intros Hm Hf w Hw. destruct (Hm w Hw) as [H1 H2]. unfold mbind, M_bind.
  destruct (m w) as [[a|e] w1]; [|by split]. apply (Hf a). auto.
Qed.

Lemma gives_ended {A B} Pre (m : M W (option A)) Q1 (f : A -> M W (option B)) (Q : option B -> W -> Prop) :
  gives Pre m (fun o w => forall a, o = Some a -> Q1 a w) ->
  (forall a, gives (fun w => P w /\ Q1 a w) (f a) Q) -> (forall w, Q None w) -> gives Pre (ended m f) Q.
Proof.
  intros Hm Hf Hn. unfold ended. eapply gives_bind; [exact Hm|]. intros [a|].
  - eapply gives_mono; [apply (Hf a)|by naive_solver|done].
  - intros w [Hw _]. split; [done|]. by intros o [= <-].
Qed.

Lemma gives_ret {A} (Pre : W -> Prop) (a : A) (Q : A -> W -> Prop) :
  (forall w, Pre w -> P w /\ Q a w) -> gives Pre (mret a) Q.
Proof. intros H w Hw. cbn. destruct (H w Hw). split; [done|]. by intros ? [= <-]. Qed.

Lemma gives_getr {A} (Pre : W -> Prop) (f : W -> result A) :
  (forall w, Pre w -> P w) -> gives Pre (getr f) (fun a w => Pre w /\ f w = Ok a).
Proof. intros H w Hw. cbn. auto. Qed.

Lemma gives_gets {A} (Pre : W -> Prop) (f : W -> A) :
  (forall w, Pre w -> P w) -> gives Pre (gets f) (fun a w => Pre w /\ f w = a).
Proof. intros H w Hw. cbn. split; [auto|]. intros a [= <-]. auto. Qed.

Lemma gives_lift {A} (Pre : W -> Prop) (r : result A) :
  (forall w, Pre w -> P w) -> gives Pre (lift r) (fun a w => Pre w /\ r = Ok a).
Proof. intros H w Hw. cbn. auto. Qed.

Lemma gives_catch {A} Pre (m : M W A) Q : gives Pre m Q -> gives Pre (catch m) (fun r w => forall a, r = Ok a -> Q a w).
Proof.
  intros Hm w Hw. destruct (Hm w Hw) as [H1 H2]. unfold catch. destruct (m w) as [r w']. split; [done|].
  by intros ? [= <-].
Qed.

Lemma keeps_ended {A B} (m : M W (option A)) (f : A -> M W (option B)) :
  keeps P m -> (forall a, keeps P (f a)) -> keeps P (ended m f).
Proof. intros Hm Hf. apply keeps_bind; [done|]. intros [a|]; [apply Hf|apply keeps_ret]. Qed.

Lemma keeps_io_step {A} msg (op : W -> io_result A * W) : (forall w, P w -> P (op w).2) -> keeps P (io_step msg op).
Proof. intros H w Hw. unfold io_step. specialize (H w Hw). by destruct (op w). Qed.
Lemma keeps_io_try {A} (op : W -> io_result A * W) : (forall w, P w -> P (op w).2) -> keeps P (io_try op).
Proof. intros H w Hw. unfold io_try. specialize (H w Hw). by destruct (op w). Qed.
Lemma keeps_attempt {A} (op : W -> io_result A * W) : (forall w, P w -> P (op w).2) -> keeps P (attempt op).
Proof. intros H w Hw. unfold attempt. specialize (H w Hw). by destruct (op w). Qed.
End Gives.

#[export] Hint Resolve keeps_ended keeps_io_step keeps_io_try keeps_attempt : keeps.

(** ** Lemmas: what touches the cached summaries *)

Section Authentic.
Context {W : Type} `{CacheFiles W} `{SummaryFormat} (inflate : bytes -> result bytes) (patience : nat) (held : bool).
Context (i : Installation) (r : Remote) (trusted : string -> Prop).

Let d : path := remote_metadata i (r_name r).
Let index_path : path := join_path d "summary.idx".
Let normal_path : path := join_path d "summary".
Let summaries : path := join_path d "summaries".

(** Both summaries that a refresh leaves behind were signed. *)
Definition cache_authentic (w : W) : Prop :=
  forall data, file_data w index_path = Some data \/ file_data w normal_path = Some data -> trusted data.

(** The remote verifies, and libostree accepts only what was signed; the
    repository lies elsewhere; what other processes do while this one sleeps or
    waits for a download keeps the cache authentic, and so does the download
    itself, which has its own file. *)
Record honest : Prop := {
  dir_absolute : is_absolute d = true;
  remote_verifies : gpg_verify r = true;
  verify_sound : forall data signatures w, verify_summary (r_name r) data signatures w = Ok tt -> trusted data;
  storage_elsewhere : forall w p, path_starts_with p d = true -> file_data (open_storage w).2 p = file_data w p;
  sleep_authentic : forall ms w, cache_authentic w -> cache_authentic (sleep ms w);
  spawn_authentic : forall partial u w, apart index_path partial -> apart normal_path partial ->
    cache_authentic w -> cache_authentic (spawn "fetch" (fetch_args partial u) w).2;
  wait_authentic : forall child w, cache_authentic w -> cache_authentic (try_wait child w).2;
}.
Context (Hh : honest).

Definition clear (p : path) : Prop := apart index_path p /\ apart normal_path p.

Lemma same_authentic w w' : file_data w' index_path = file_data w index_path ->
  file_data w' normal_path = file_data w normal_path -> cache_authentic w -> cache_authentic w'.
Proof. unfold cache_authentic. intros -> ->. done. Qed.

Lemma name_components n : name_ok n -> components (join_path d n) = components d ++ [Normal n].
Proof. apply components_join_name, absolute_nonempty, Hh. Qed.

Lemma clear_components p n l : components p = components d ++ Normal n :: l ->
  n <> "summary.idx" -> n <> "summary" -> clear p.
Proof.
  intros E N1 N2.
  split; (eapply components_apart; [by apply name_components|exact E|]; congruence).
Qed.

Lemma clear_name n : name_ok n -> n <> "summary.idx" -> n <> "summary" -> clear (join_path d n).
Proof. intros Hn. eapply clear_components. by apply name_components. Qed.

Lemma name_partial_ok n : name_ok n -> name_ok (fmt ["."; n; ".part"]).
Proof.
  intros (Hs & _ & _). rewrite !fmt_cons, fmt_nil, sapp_nil_r. repeat split.
  - unfold no_slash in *. cbn [append has]. by rewrite has_app, Hs.
  - cbn. destruct n; done.
  - destruct n as [|? [|]]; done.
Qed.

Lemma partial_components e n : is_absolute e = true -> name_ok n ->
  components (partial_path (join_path e n)) = components e ++ [Normal (fmt ["."; n; ".part"])].
Proof.
  intros He Hn. unfold partial_path, file_name_of.
  rewrite components_join_name, last_snoc by auto using absolute_nonempty.
  apply components_with_file_name; auto using name_partial_ok.
Qed.

Lemma clear_partial n : name_ok n -> clear (partial_path (join_path d n)).
Proof.
  intros Hn. eapply clear_components; [by apply partial_components; [apply Hh|]|..]; by destruct n.
Qed.

Lemma summaries_absolute : is_absolute summaries = true.
Proof. unfold summaries. rewrite is_absolute_join by (done || apply absolute_nonempty, Hh). apply Hh. Qed.

Lemma summaries_components : components summaries = components d ++ [Normal "summaries"].
Proof. by apply name_components. Qed.

(** Everything below the directory of the architectures' summaries. *)
Lemma clear_below p l : components p = components summaries ++ l -> clear p.
Proof. rewrite summaries_components, <- app_assoc. intros E. by eapply clear_components. Qed.

(** *** The operations *)

Lemma remove_keeps p : clear p -> forall w, cache_authentic w -> cache_authentic (remove_file p w).2.
Proof. intros [? ?] w. apply same_authentic; by apply remove_data. Qed.
Lemma create_keeps p : clear p -> forall w, cache_authentic w -> cache_authentic (create_new p w).2.
Proof. intros [? ?] w. apply same_authentic; by apply create_data. Qed.
Lemma write_created_keeps p text : clear p -> forall w, cache_authentic w -> cache_authentic (write_created p text w).2.
Proof. intros [? ?] w. apply same_authentic; by apply write_created_data. Qed.
Lemma make_dirs_keeps p : forall w, cache_authentic w -> cache_authentic (make_dirs p w).2.
Proof. intros w. apply same_authentic; apply make_dirs_data. Qed.
Lemma write_keeps p text : clear p -> forall w, cache_authentic w -> cache_authentic (write_file p text w).2.
Proof.
  intros [? ?] w. destruct (write_file p text w) as [o w'] eqn:E. apply write_data in E as [_ E].
  apply same_authentic; by apply E.
Qed.
Lemma rename_keeps p q : clear p -> clear q -> forall w, cache_authentic w -> cache_authentic (rename_file p q w).2.
Proof.
  intros [? ?] [? ?] w. destruct (rename_file p q w) as [o w'] eqn:E. apply rename_data in E as (_ & _ & E).
  apply same_authentic; by apply E.
Qed.

Lemma pause_keeps ms : keeps cache_authentic (pause_for ms).
Proof. intros w. apply Hh. Qed.
Hint Resolve remove_keeps create_keeps write_created_keeps make_dirs_keeps write_keeps rename_keeps pause_keeps : keeps.

Lemma acquire_keeps fuel p : clear p -> keeps cache_authentic (acquire fuel p).
Proof.
  intros Hp. unfold acquire. apply keeps_bind; [apply keeps_gets|]. intros started.
  induction fuel as [|fuel IH]; [apply keeps_ret|]. cbn [acquire_from].
  apply keeps_bind; [eauto with keeps|]. intros [u|e]; [eauto 6 with keeps|].
  apply keeps_if; [|apply keeps_lift]. apply keeps_bind; [apply keeps_gets|]. intros stale.
  apply keeps_if; [eauto 6 with keeps|]. apply keeps_bind; [apply keeps_gets|]. intros now.
  apply keeps_if; [apply keeps_lift|]. eauto 6 with keeps.
Qed.

Lemma wait_download_keeps fuel label child : keeps cache_authentic (wait_download fuel label child).
Proof.
  induction fuel as [|fuel IH]; [apply keeps_ret|]. cbn [wait_download].
  apply keeps_bind; [apply keeps_io_step; intros w; apply Hh|]. intros [status|]; [apply keeps_ret|].
  eauto with keeps.
Qed.

Lemma fetch_keeps u p label : clear p -> clear (partial_path p) ->
  keeps cache_authentic (fetch_metadata_file patience u p label).
Proof.
  intros Hp [? ?]. unfold fetch_metadata_file.
  apply keeps_bind; [apply keeps_io_step; intros w; by apply Hh|]. intros child.
  apply keeps_ended; [apply wait_download_keeps|]. intros status. apply keeps_if; [apply keeps_lift|].
  apply keeps_bind; [|eauto with keeps]. apply keeps_io_step, rename_keeps; done || by split.
Qed.
Hint Resolve acquire_keeps fetch_keeps : keeps.

(** What holds of the data of a file holds when the lock, which is another file,
    has been dropped. *)
Lemma with_lock_gives {A} p (body : M W (option A)) (Q : A -> W -> Prop) : clear p ->
  gives cache_authentic cache_authentic body (fun o w => forall a, o = Some a -> Q a w) ->
  (forall a w w', (forall q, apart q p -> file_data w' q = file_data w q) -> Q a w -> Q a w') ->
  gives cache_authentic cache_authentic (with_lock patience p body) (fun o w => forall a, o = Some a -> Q a w).
Proof.
  intros Hp Hb HQ. unfold with_lock. eapply gives_bind; [by apply gives_keeps, acquire_keeps|]. intros [[]|].
  2: { apply gives_ret. by intros w [Hw _]. }
  eapply gives_bind; [eapply gives_mono; [by apply gives_catch, Hb|by intros w [Hw _]|intros a w _ Hq; exact Hq]|].
  cbn beta. intros [[a|]|e].
  - intros w [Hw Hq]. unfold drop_lock, mbind, M_bind, attempt.
    pose proof (remove_keeps p Hp w Hw) as Hk. pose proof (fun q => remove_data w p q) as Hs.
    destruct (remove_file p w) as [o w']. cbn in *. split; [done|]. intros o' [= <-] a' [= <-].
    apply (HQ a w w'); [exact Hs|]. by apply (Hq (Some a)).
  - apply gives_ret. by intros w [Hw _].
  - intros w [Hw _]. unfold drop_lock, mbind, M_bind, attempt.
    pose proof (remove_keeps p Hp w Hw) as Hk. by destruct (remove_file p w) as [o w'].
Qed.

Lemma with_lock_keeps {A} p (body : M W (option A)) : clear p ->
  keeps cache_authentic body -> keeps cache_authentic (with_lock patience p body).
Proof.
  intros Hp Hb. apply gives_keeps. eapply gives_mono; [apply (with_lock_gives p body (fun _ _ => True)); try done|done..].
  eapply gives_mono; [by apply gives_keeps|done..].
Qed.

(** *** A refresh verifies what it activates *)

Definition candidate_trusted (p : path) (w : W) : Prop := forall data, file_data w p = Some data -> trusted data.

Definition reads (m : M W string) (p : path) : Prop :=
  forall w, (m w).2 = w /\ forall data, (m w).1 = Ok data -> file_data w p = Some data.

Lemma read_file_reads msg p : reads (read_file msg p) p.
Proof.
  intros w. split; [done|]. cbn. intros data. unfold io_context.
  destruct (read_bytes w p) eqn:E; [|done]. intros [= <-]. by apply bytes_data.
Qed.
Lemma read_plain_reads p : reads (read_plain p) p.
Proof.
  intros w. split; [done|]. cbn. intros data. unfold io_plain.
  destruct (read_bytes w p) eqn:E; [|done]. intros [= <-]. by apply bytes_data.
Qed.

(** [open_storage] as a step of the cache. *)
Lemma open_keeps : keeps cache_authentic open_storage.
Proof.
  intros w Hw. apply (same_authentic w); [..|done]; (apply Hh, path_starts_with_join; [apply absolute_nonempty, Hh|done]).
Qed.

Lemma verified_gives (fetch : M W (option unit)) (summary signatures : M W string) (n m : string) :
  let candidate := join_path d n in is_absolute n = false ->
  keeps cache_authentic fetch -> reads summary candidate -> reads signatures (join_path d m) ->
  gives cache_authentic cache_authentic
    (_ ⇐ fetch; s ← summary; g ← signatures; _ ⇐ open_locked held; _ ← getr (verify_summary (r_name r) s g); mret (Some tt))
    (fun o w => forall u : unit, o = Some u -> candidate_trusted candidate w).
Proof.
  cbn zeta. intros Hn Hf Hs Hg. eapply gives_ended; [eapply gives_mono; [by apply gives_keeps, Hf|done|]| |done].
  { intros o w _ _ u _. exact I. }
  intros u w [Hw _]. unfold mbind, M_bind. destruct (Hs w) as [Es Ds]. destruct (summary w) as [s w1]. cbn in Es, Ds. subst w1.
  destruct s as [s|e]; [|by split]. destruct (Hg w) as [Eg _]. destruct (signatures w) as [g w1]. cbn in Eg. subst w1.
  destruct g as [g|e]; [|by split]. unfold open_locked. destruct held; [split; [done|by intros ? [= <-]]|].
  unfold ended, mbind, M_bind. pose proof (open_keeps w Hw) as Ho.
  pose proof (storage_elsewhere Hh w (join_path d n)) as Hd. destruct (open_storage w) as [[o|e] w1]; [|by split].
  cbn in *. unfold getr. destruct (verify_summary (r_name r) s g w1) as [v|e] eqn:Ev; [|by split].
  cbn. split; [done|]. intros o' [= <-] u' _ data. destruct v. apply (verify_sound Hh) in Ev.
  rewrite Hd, (Ds s eq_refl); [by intros [= <-]|]. apply path_starts_with_join; [apply absolute_nonempty, Hh|done].
Qed.

Lemma index_normal_apart : apart index_path normal_path.
Proof. eapply components_apart; [by apply name_components|by apply name_components|done]. Qed.

Lemma activate_keeps candidate p : clear candidate -> p = index_path \/ p = normal_path ->
  forall w, cache_authentic w -> candidate_trusted candidate w -> cache_authentic (rename_file candidate p w).2.
Proof.
  intros [C1 C2] Hp w Hw Ht. destruct (rename_file candidate p w) as [o w'] eqn:E.
  apply rename_data in E as (Eo & Ee & Ea). cbn. destruct o as [u|e].
  - destruct u. specialize (Eo eq_refl). pose proof index_normal_apart as Hin. pose proof (apart_sym _ _ Hin) as Hni.
    destruct Hp as [-> | ->]; intros data [Hd|Hd].
    + apply Ht. by rewrite <- Eo.
    + apply Hw. right. by rewrite <- Ea.
    + apply Hw. left. by rewrite <- Ea.
    + apply Ht. by rewrite <- Eo.
  - by apply (same_authentic w); [apply (Ee e)..|].
Qed.

(** The shape both refreshes have. *)
Lemma refresh_keeps (fetch fetch_sig : M W (option unit)) (summary signatures : M W string)
    (activate : M W unit) (finish : M W unit) (n m : string) p :
  name_ok n -> clear (join_path d n) -> p = index_path \/ p = normal_path ->
  keeps cache_authentic fetch -> keeps cache_authentic fetch_sig ->
  reads summary (join_path d n) -> reads signatures (join_path d m) ->
  (forall w, (activate w).2 = (rename_file (join_path d n) p w).2) -> keeps cache_authentic finish ->
  keeps cache_authentic
    (_ ⇐ fetch;
     _ ⇐ (if gpg_verify r then
            _ ⇐ fetch_sig; s ← summary; g ← signatures; _ ⇐ open_locked held; _ ← getr (verify_summary (r_name r) s g); mret (Some tt)
          else mret (Some tt));
     _ ← activate; _ ← finish; mret (Some tt)).
Proof.
  intros Hn Hc Hp Hf Hfs Hs Hg Ha Hfin. apply keeps_ended; [done|]. intros _. rewrite (remote_verifies Hh).
  apply gives_keeps. eapply gives_ended; [by eapply (verified_gives fetch_sig summary signatures n m); [apply name_relative|..]| |done].
  intros u. cbn beta. eapply (gives_bind _ _ _ (fun _ _ => True)).
  - intros w [Hw Ht]. split; [|done]. rewrite Ha. by apply activate_keeps.
  - intros u'. eapply gives_mono; [apply gives_keeps; apply keeps_bind; [exact Hfin|intros _; apply keeps_ret]|by intros w [Hw _]|done].
Qed.

(** What is fetched for the caller, if it comes to that. *)
Definition yields {A} (m : M W (option A)) (Q : A -> W -> Prop) : Prop :=
  gives cache_authentic cache_authentic m (fun o w => forall a, o = Some a -> Q a w).

Lemma yields_some {A} (a : A) (Q : A -> W -> Prop) : (forall w, cache_authentic w -> Q a w) -> yields (mret (Some a)) Q.
Proof. intros Hq. apply gives_ret. intros w Hw. split; [done|]. intros b [= <-]. by apply Hq. Qed.

Lemma yields_after {A B} (m : M W B) (f : B -> M W (option A)) Q :
  keeps cache_authentic m -> (forall b, yields (f b) Q) -> yields (m ≫= f) Q.
Proof.
  intros Hm Hf. eapply gives_bind; [by apply gives_keeps, Hm|]. intros b.
  eapply gives_mono; [apply (Hf b)|by intros w [Hw _]|done].
Qed.

Lemma yields_ended {A B} (m : M W (option A)) (Q1 : A -> Prop) (f : A -> M W (option B)) Q :
  yields m (fun a _ => Q1 a) -> (forall a, Q1 a -> yields (f a) Q) -> yields (ended m f) Q.
Proof.
  intros Hm Hf. unfold yields. eapply gives_ended; [exact Hm| |done].
  intros a w [Hw Ha]. by apply (Hf a Ha).
Qed.

Lemma refreshed_yields (refresh : M W (option unit)) p stamp :
  keeps cache_authentic refresh -> (forall text, keeps cache_authentic (stamp text)) ->
  yields (refreshed_or_cached refresh p stamp) (fun a _ => a = p).
Proof.
  intros Hr Hs. apply yields_after; [by apply keeps_catch|]. intros [[u|]|e].
  - apply yields_after; [apply keeps_gets|]. intros now. apply yields_after; [apply Hs|]. intros _. by apply yields_some.
  - by apply gives_ret.
  - apply yields_after; [apply keeps_gets|]. intros [|]; [by apply yields_some|].
    intros w Hw. by split.
Qed.

(** A file that is used while it is fresh and refreshed under a lock. *)
Lemma cached_file_yields (mk : M W unit) (fresh : M W bool) lock p refresh stamp :
  keeps cache_authentic mk -> keeps cache_authentic fresh -> clear lock ->
  keeps cache_authentic refresh -> (forall text, keeps cache_authentic (stamp text)) ->
  yields (_ ← mk; f ← fresh;
          if f : bool then mret (Some p)
          else with_lock patience lock (f ← fresh; if f : bool then mret (Some p) else refreshed_or_cached refresh p stamp))
    (fun a _ => a = p).
Proof.
  intros Hm Hf Hl Hr Hs. apply yields_after; [done|]. intros _. apply yields_after; [done|].
  intros []; [by apply yields_some|]. apply with_lock_gives; [done| |done].
  apply yields_after; [done|]. intros []; [by apply yields_some|]. by apply refreshed_yields.
Qed.

(** *** The operations of the cache *)

Lemma fetch_name_keeps u n label : name_ok n -> n <> "summary.idx" -> n <> "summary" ->
  keeps cache_authentic (fetch_metadata_file patience u (join_path d n) label).
Proof. intros ???. apply fetch_keeps; [by apply clear_name|by apply clear_partial]. Qed.

Lemma fetch_summary_index_yields : yields (fetch_summary_index patience held i r) (fun a _ => a = index_path).
Proof.
  apply cached_file_yields; [eauto with keeps| |by apply clear_name| |].
  - apply keeps_bind; [apply keeps_gets|]. intros []; [apply keeps_getr|apply keeps_ret].
  - apply (refresh_keeps _ _ _ _ _ _ "summary.idx.candidate" "summary.idx.sig.candidate" index_path);
      [done|by apply clear_name|by left|by apply fetch_name_keeps..|apply read_file_reads|apply read_file_reads| |].
    + intros w. unfold io_step. by destruct rename_file.
    + apply keeps_if; [|apply keeps_ret]. apply keeps_io_step, rename_keeps; by apply clear_name.
  - intros text. apply keeps_io_step, write_keeps. by apply clear_name.
Qed.

Lemma fetch_normal_summary_yields : yields (fetch_normal_summary patience held i r) (fun a _ => a = normal_path).
Proof.
  apply cached_file_yields; [eauto with keeps|apply keeps_getr|by apply clear_name| |].
  - apply (refresh_keeps _ _ _ _ _ _ "summary.candidate" "summary.sig.candidate" normal_path);
      [done|by apply clear_name|by right|by apply fetch_name_keeps..|apply read_plain_reads|apply read_plain_reads| |].
    + intros w. unfold io_try. by destruct rename_file.
    + apply keeps_if; [|apply keeps_ret]. apply keeps_io_try, rename_keeps; by apply clear_name.
  - intros text. apply keeps_io_try, write_keeps. by apply clear_name.
Qed.

(** *** The summary of an architecture *)

Definition digest_name (digest : string) : Prop := digest <> "" /\ all_bytes is_hexdigit digest = true.

Lemma digest_suffix_ok digest suffix : digest_name digest -> no_slash suffix -> name_ok (fmt [digest; suffix]).
Proof.
  intros [Hne Hd] Hs. rewrite !fmt_cons, fmt_nil, sapp_nil_r. destruct digest as [|a digest]; [done|].
  cbn in Hd. apply andb_true_iff in Hd as [Ha Hd]. pose proof (hexdigit_clean a Ha) as [_ Hdot].
  repeat split.
  - unfold no_slash in *. rewrite has_app, Hs, orb_false_r. apply (all_bytes_has is_hexdigit); [|done].
    cbn. by rewrite Ha.
  - unfold skipped. cbn. by destruct (Ascii.eqb_spec a ".").
  - cbn. intros [= -> _]. done.
Qed.

Lemma file_stem_digest digest suffix : digest_name digest -> has "." suffix = false ->
  file_stem (fmt [digest; "."; suffix]) = digest.
Proof.
  intros [Hne Hd] Hs. rewrite !fmt_cons, fmt_nil, sapp_nil_r. unfold file_stem.
  change ("." +:+ suffix) with (String "." suffix).
  rewrite (proj2 (rsplit_once_Some "." _ digest suffix)) by done. by destruct digest.
Qed.

Section Digest.
Context (digest : string) (Hdigest : digest_name digest).

Let sub_path : path := join_path summaries (fmt [digest; ".sub"]).

Lemma below_name_clear suffix : no_slash suffix -> clear (join_path summaries (fmt [digest; suffix])).
Proof.
  intros Hs. eapply clear_below.
  apply components_join_name; [apply absolute_nonempty, summaries_absolute|by apply digest_suffix_ok].
Qed.

Lemma extension_components ext : no_slash ext ->
  components (with_extension sub_path ext) = components summaries ++ [Normal (fmt [digest; "."; ext])].
Proof.
  intros He. pose proof summaries_absolute as Hs. assert (name_ok (fmt [digest; ".sub"])) as Hn by (by apply digest_suffix_ok).
  unfold with_extension, file_name_of, sub_path.
  rewrite components_join_name, last_snoc by auto using absolute_nonempty.
  rewrite (file_stem_digest digest "sub" Hdigest eq_refl : file_stem (fmt [digest; ".sub"]) = digest).
  apply components_with_file_name; [done..|].
  apply (digest_suffix_ok digest ("." +:+ ext)); [done|exact He].
Qed.

Lemma extension_clear ext : no_slash ext -> ext <> "" -> clear (with_extension sub_path ext).
Proof. intros He Hne. eapply clear_below. by apply extension_components. Qed.

Lemma extension_apart ext : no_slash ext -> ext <> "" -> ext <> "sub" -> apart sub_path (with_extension sub_path ext).
Proof.
  intros He Hne Hns. eapply (components_apart (components summaries) [] []).
  - apply components_join_name; [apply absolute_nonempty, summaries_absolute|by apply digest_suffix_ok].
  - by apply extension_components.
  - rewrite !fmt_cons. intros [= E]. apply sapp_inv_head in E. cbn in E. rewrite sapp_nil_r in E. by injection E.
Qed.

Lemma fetch_subsummary_yields arch :
  yields (fetch_subsummary patience i r arch digest) (fun a _ => a = join_path summaries (fmt [digest; ".gz"])).
Proof.
  unfold fetch_subsummary. fold d summaries.
  apply yields_after; [eauto with keeps|]. intros _. apply yields_after; [apply keeps_gets|]. intros []; [by apply yields_some|].
  apply with_lock_gives; [by apply below_name_clear| |done].
  apply yields_after; [apply keeps_gets|]. intros []; [by apply yields_some|].
  eapply (gives_ended _ _ _ (fun _ _ => True)); [| |done].
  - eapply gives_mono; [apply gives_keeps, fetch_keeps; [by apply below_name_clear|]|done|done].
    eapply clear_below, partial_components; [apply summaries_absolute|by apply digest_suffix_ok].
  - intros u. apply gives_ret. intros w [Hw _]. split; [done|]. by intros a [= <-].
Qed.

(** The file has the digest. *)
Definition matches (p : path) (w : W) : Prop :=
  exists data, file_data w p = Some data /\ summary_digest_matches data digest = true.

Lemma read_gives msg p Pre : (forall w, Pre w -> cache_authentic w) ->
  gives cache_authentic Pre (read_file msg p) (fun data w => Pre w /\ file_data w p = Some data).
Proof.
  intros Hp w Hw. destruct (read_file_reads msg p w) as [E D]. rewrite E. split; [auto|]. intros data Hd. auto.
Qed.

Lemma sub_path_clear : clear sub_path.
Proof. by apply below_name_clear. Qed.

Lemma cached_subsummary_gives :
  gives cache_authentic cache_authentic (cached_subsummary sub_path digest) (fun b w => b = true -> matches sub_path w).
Proof.
  unfold cached_subsummary. eapply gives_bind; [by apply gives_keeps, keeps_gets|]. intros []; cbn [negb].
  2: { apply gives_ret. by intros w [Hw _]. }
  eapply gives_bind; [eapply gives_mono; [by apply read_gives|by intros w [Hw _]|intros data w _ [_ Hd]; exact Hd]|].
  intros data. cbn beta. destruct (summary_digest_matches data digest) eqn:E.
  - apply gives_ret. intros w [Hw Hd]. split; [done|]. intros _. by exists data.
  - intros w [Hw _]. pose proof (remove_keeps sub_path sub_path_clear w Hw) as Hk.
    unfold mbind, M_bind, io_step. destruct (remove_file sub_path w) as [[u|e] w']; (split; [exact Hk|]); [|done].
    by intros b [= <-].
Qed.

Lemma complete_gives data msg msg' partial : clear partial -> apart sub_path partial ->
  summary_digest_matches data digest = true ->
  yields (_ ← io_step msg (write_file partial data); _ ← io_step msg' (rename_file partial sub_path); mret (Some sub_path))
    (fun a w => a = sub_path /\ matches a w).
Proof.
  intros Hp Ha Hm w Hw. unfold mbind, M_bind, io_step.
  pose proof (write_keeps partial data Hp w Hw) as K1. destruct (write_file partial data w) as [[[]|e] w1] eqn:E1; [|by split].
  apply write_data in E1 as [E1 _]. cbn in *.
  pose proof (rename_keeps partial sub_path Hp sub_path_clear w1 K1) as K2.
  destruct (rename_file partial sub_path w1) as [[[]|e] w2] eqn:E2; [|by split].
  apply rename_data in E2 as [E2 _]. cbn in *. split; [done|]. intros o [= <-] a [= <-].
  split; [done|]. exists data. by rewrite E2, E1.
Qed.

Lemma cache_uncompressed_yields compressed_path : clear compressed_path ->
  yields (cache_uncompressed_subsummary inflate patience i r digest compressed_path)
    (fun a w => a = sub_path /\ matches a w).
Proof.
  intros Hc. unfold cache_uncompressed_subsummary. fold d summaries sub_path.
  assert (forall k : bool -> M W (option path), yields (k false) (fun a w => a = sub_path /\ matches a w) ->
    k true = mret (Some sub_path) ->
    yields (c ← cached_subsummary sub_path digest; k c) (fun a w => a = sub_path /\ matches a w)) as Hk.
  { intros k Hf Ht. eapply gives_bind; [exact cached_subsummary_gives|]. intros [].
    - rewrite Ht. apply gives_ret. intros w [Hw Hm]. split; [done|]. intros a [= <-]. auto.
    - eapply gives_mono; [exact Hf|by intros w [Hw _]|done]. }
  apply (Hk (fun c => if c : bool then _ else _)); [|done].
  apply with_lock_gives; [by apply extension_clear| |].
  - apply (Hk (fun c => if c : bool then _ else _)); [|done].
    apply yields_after; [apply keeps_getr|]. intros compressed. apply yields_after; [apply keeps_lift|]. intros data.
    destruct (summary_digest_matches data digest) eqn:E; cbn [negb].
    + apply complete_gives; [by apply extension_clear|by apply extension_apart|done].
    + apply yields_after; [by apply keeps_attempt, remove_keeps|]. intros o w Hw. by split.
  - intros a w w' Hs [-> (data & Hd & Hm)]. split; [done|]. exists data. rewrite Hs; [done|by apply extension_apart].
Qed.
End Digest.

(** The data is a summary that was signed, or the one that a signed index lists
    for the architecture. *)
Definition authentic (arch data : string) : Prop :=
  trusted data \/ exists index digest, trusted index /\ index_digest index arch = Ok digest /\
    summary_digest_matches data digest = true.

Lemma index_digest_name index arch digest : index_digest index arch = Ok digest -> digest_name digest.
Proof.
  unfold index_digest. destruct (List.find _ _) as [e|]; [|done]. apply checksum_hex.
Qed.

Lemma load_arch_summary_yields :
  yields (load_arch_summary inflate patience held i r)
    (fun a w => forall data, file_data w a.1.2 = Some data -> authentic a.1.1 data).
Proof.
  unfold load_arch_summary. apply yields_after; [apply keeps_lift|]. intros arch.
  eapply gives_bind; [by apply gives_catch, fetch_summary_index_yields|]. intros [[ip|]|e]; cbn beta.
  - eapply (gives_bind _ _ _ (fun found w => digest_name found.1 /\ exists index, trusted index /\ index_digest index arch = Ok found.1)).
    { intros w [Hw Hp]. split; [done|]. intros [digest cid] Hf. cbn in Hf.
      pose proof (Hp (Some ip) eq_refl ip eq_refl) as ->. unfold parse_summary_index in Hf.
      apply bind_ok in Hf as (data & Hd & Hf). apply with_context_ok in Hd.
      unfold io_context in Hd. destruct (read_bytes w index_path) eqn:Er; [|done]. injection Hd as ->.
      apply bytes_data in Er. unfold parse_index_bytes in Hf. apply bind_ok in Hf as (digest' & Hdig & [= -> _]).
      split; [by eapply index_digest_name|]. exists data. split; [|done]. apply Hw. by left. }
    intros [digest cid]. cbn [fst]. intros w [Hw [Hdn (index & Hi & Hl)]]. revert w Hw.
    change (yields (compressed ⇐ fetch_subsummary patience i r arch digest;
                    summary_path ⇐ cache_uncompressed_subsummary inflate patience i r digest compressed;
                    mret (Some (arch, summary_path, cid)))
              (fun a w => forall data, file_data w a.1.2 = Some data -> authentic a.1.1 data)).
    apply (yields_ended _ (fun a => a = join_path summaries (fmt [digest; ".gz"]))); [by apply fetch_subsummary_yields|].
    intros compressed ->. unfold yields.
    eapply gives_ended; [apply cache_uncompressed_yields; [done|by apply below_name_clear]| |done].
    intros p. apply gives_ret. intros w [Hw [_ (data & Hd & Hm)]]. split; [done|]. intros a [= <-] data'. cbn.
    rewrite Hd. intros [= <-]. right. exists index, digest. auto.
  - apply gives_ret. intros w [Hw _]. by split.
  - assert (yields (summary_path ⇐ fetch_normal_summary patience held i r;
                    collection_id ← getr (parse_summary_collection_id summary_path);
                    mret (Some (arch, summary_path, collection_id)))
              (fun a w => forall data, file_data w a.1.2 = Some data -> authentic a.1.1 data)) as Hn.
    { apply (yields_ended _ (fun p => p = normal_path)); [apply fetch_normal_summary_yields|]. intros p ->.
      apply yields_after; [apply keeps_getr|]. intros cid. apply yields_some.
      intros w Hw data Hd. left. apply Hw. by right. }
    eapply gives_mono; [exact Hn|by intros w [Hw _]|done].
Qed.
End Authentic.

(** ** Properties *)

Lemma bind_step {W A B} (m : M W A) (f : A -> M W B) w a w1 : m w = (Ok a, w1) -> (m ≫= f) w = f a w1.
Proof. unfold mbind, M_bind. by intros ->. Qed.
Lemma catch_step {W A} (m : M W A) w r w1 : m w = (r, w1) -> catch m w = (Ok r, w1).
Proof. unfold catch. by intros ->. Qed.
Lemma ended_step {W A B} (m : M W (option A)) (k : A -> M W (option B)) w a w1 : m w = (Ok (Some a), w1) -> ended m k w = k a w1.
Proof. unfold ended, mbind, M_bind. by intros ->. Qed.
Lemma ended_never {W A B} (m : M W (option A)) (k : A -> M W (option B)) w w1 : m w = (Ok None, w1) -> ended m k w = (Ok None, w1).
Proof. unfold ended, mbind, M_bind. by intros ->. Qed.

Lemma show_Z_line t : (0 <= t)%Z -> trim (fmt [show_Z t; nl]) = show_Z t.
Proof.
  intros Ht. rewrite !fmt_cons, fmt_nil, sapp_nil_r. apply trim_end_line; [apply show_Z_nonempty|].
  eapply all_bytes_impl; [|apply number_bytes]. intros [[] [] [] [] [] [] [] []]; vm_compute; congruence.
Qed.

(** C8.  What the network delivers does not matter to a remote that verifies
    signatures: a summary that [load_arch_summary] returns was signed, or has the
    digest that a signed index lists for the architecture, and the cache is left
    with signed summaries only, whichever operation fails, also when an old
    summary is used because a refresh failed. *)
Theorem summary_is_authentic `{CacheFiles W} `{SummaryFormat} inflate patience held i r (trusted : string -> Prop) (w w' : W) res :
  honest i r trusted -> cache_authentic i r trusted w ->
  load_arch_summary inflate patience held i r w = (res, w') ->
  cache_authentic i r trusted w' /\
  forall arch p collection_id data, res = Ok (Some (arch, p, collection_id)) -> read_bytes w' p = inl data ->
    authentic trusted arch data.
Proof.
  intros Hh Hw E. destruct (load_arch_summary_yields inflate patience held i r trusted Hh w Hw) as [Hk Hq].
  rewrite E in Hk, Hq. split; [exact Hk|]. intros arch p cid data -> Hd.
  apply (Hq _ eq_refl _ eq_refl). by apply bytes_data.
Qed.


(** Metadata whose time was noted is used without asking the network again
    exactly until its time to live is over; a time to live of zero always asks,
    and a note from the future counts as one of now. *)
Theorem cached_metadata_expires `{CacheWorld W} p checked (w : W) t ttl :
  is_file w p = true -> is_file w checked = true -> (0 <= t < 2 ^ 64)%Z ->
  read_to_string w checked = inl (fmt [show_Z t; nl]) -> metadata_ttl w = Ok ttl ->
  metadata_is_fresh p checked w = Ok true <-> (unix_timestamp w < t + ttl /\ 0 < ttl)%Z.
Proof.
  intros Hp Hc Ht Hr Httl. unfold metadata_is_fresh. rewrite Hp, Hc, Httl, Hr. cbn [negb orb mbind result_bind io_ok option_bind].
  rewrite show_Z_line by lia. unfold parse_u64. rewrite parse_int_show by lia.
  destruct (Z.ltb_spec (Z.max 0 (unix_timestamp w - t)) ttl); split; intros; try done; lia.
Qed.

(** ** A concrete remote *)

(** libostree accepts one index, whose signature is known; a download that the
    web has is complete at once. *)
#[export] Instance cabinet_storage : RemoteStorage Cabinet := {
  open_storage c := (Ok tt, c);
  configure_remote_definition _ c := (Ok tt, c);
  import_remote_gpg_key _ c := (Ok tt, c);
  storage_delete_remote _ c := (Ok tt, c);
}.
Definition exit_with (b : bool) : ExitStatus := mkExit b (if b then "exit status: 0" else "exit status: 1").
Definition download (args : list string) (c : Cabinet) : io_result Z * Cabinet :=
  match args with
  | [_; _; _; _; _; _; partial; u] =>
      match List.find (fun e => String.eqb e.1 u) (cab_web c) with
      | Some e => let (_, c') := write_file partial e.2 c in (inl 0%Z, c')
      | None => (inl 1%Z, c)
      end
  | _ => (inl 1%Z, c)
  end.
#[export] Instance cabinet_cache : CacheWorld Cabinet := {
  read_bytes c p := read_to_string c p;
  env_var _ _ := None;
  since_epoch c := Some (1000000 + cab_clock c / 1000)%Z;
  spawn _ := download;
  try_wait child c := (inl (Some (exit_with (child =? 0)%Z)), c);
  host_flatpak_arch := Ok "x86_64";
  verify_summary _ data signature _ :=
    if String.eqb data "INDEX" && String.eqb signature "SIGNED" then Ok tt else bail "flathub summary has no valid signature";
}.

Lemma tree_file_put t cs d ds : tree_file (tree_put cs d t) ds = if decide (ds = cs) then Some d else tree_file t ds.
Proof.
  unfold tree_file, tree_put. cbn [files List.find]. case_bool_decide as E; cbn in E.
  - subst ds. by destruct (decide (cs = cs)).
  - destruct (decide (ds = cs)); [congruence|]. f_equal. induction (files t) as [|f l IH]; [done|]. cbn [List.filter List.find].
    case_bool_decide as Ef; cbn [negb]; [|cbn [List.find]; by rewrite IH].
    rewrite bool_decide_false by congruence. exact IH.
Qed.
Lemma tree_file_del t cs ds : ds <> cs -> tree_file (tree_del cs t) ds = tree_file t ds.
Proof.
  intros Hne. unfold tree_file, tree_del. cbn [files]. f_equal. induction (files t) as [|f l IH]; [done|]. cbn [List.filter List.find].
  case_bool_decide as Ef; cbn [negb]; [|cbn [List.find]; by rewrite IH].
  rewrite bool_decide_false by congruence. exact IH.
Qed.

Lemma apart_components p q : apart p q -> components p <> components q.
Proof. intros [Hn _] E. apply Hn. by rewrite E. Qed.

#[local] Arguments tree_file : simpl never.
#[local] Arguments tree_put : simpl never.
#[local] Arguments tree_del : simpl never.

#[export] Instance cabinet_data : CacheFiles Cabinet.
Proof.
  unshelve refine (Build_CacheFiles Cabinet _ _ _ _ _ (fun c p => tree_file (cab_files c) (components p)) _ _ _ _ _ _ _); cbn.
  - intros c p d. unfold tree_file. by destruct (List.find _ _) as [f|]; [intros [= <-]|].
  - done.
  - intros c p d r c' [= <- <-]. cbn. split; [by rewrite tree_file_put, decide_True|].
    intros q Hq%apart_components. by rewrite tree_file_put, decide_False.
  - intros c p q r c'. unfold on_files. cbn. destruct (tree_file (cab_files c) (components p)) as [d|] eqn:E; intros [= <- <-]; cbn.
    + split; [by rewrite tree_file_put, decide_True|]. split; [done|].
      intros u Hu%apart_components Hv%apart_components. by rewrite tree_file_put, decide_False, tree_file_del.
    + done.
  - intros c p q Hq%apart_components. unfold on_files. cbn. case_bool_decide; cbn; [by apply tree_file_del|done].
  - intros c p q Hq%apart_components. destruct (tree_has _ _); cbn; [done|]. by rewrite tree_file_put, decide_False.
  - intros c p d q Hq%apart_components. by rewrite tree_file_put, decide_False.
Defined.

(** One summary, listed for one architecture; a digest is 64 equal digits. *)
Definition example_digest (data : string) : string :=
  fmt (repeat (if String.eqb data "SUMMARY" then "ab" else "00") 32).
#[local] Instance example_format : SummaryFormat := {
  decode_summary _ := mkSummary [] [];
  decode_index _ := mkIndex [("aarch64", mkDetails [] [] []); ("x86_64", mkDetails (replicate 32 (ascii_of_N 171)) [] [])] [];
  sha256_hex := example_digest;
}.
Definition example_remote : Remote := mkRemote "flathub" "https://dl.example/repo" None true true None.
(** A member whose payload is the summary as it is. *)
Definition example_gz : string :=
  string_of_list_ascii (header_bytes (mkHeader (ascii_of_N 0) (replicate 6 "000"%char) None None None None)) +:+ "SUMMARY" +:+ "trailer.".
Definition example_web : list (string * string) :=
  [("https://dl.example/repo/summary.idx", "INDEX"); ("https://dl.example/repo/summary.idx.sig", "SIGNED");
   (fmt ["https://dl.example/repo/summaries/"; example_digest "SUMMARY"; ".gz"], example_gz)].
Definition example_cabinet : Cabinet := mkCabinet (mkTree [] []) 0 example_web.
Definition example_home : Installation :=
  mkInstallation "/home/u/.local/share" "/home/u/data" "/home/u/.cache" "/tmp/r" "/home/u/.var/app" "/l" "/x".
Definition example_trusted (data : string) : Prop := data = "INDEX".

Lemma example_honest : honest example_home example_remote example_trusted.
Proof.
  split; try done.
  - intros data signatures c. cbn. destruct (String.eqb_spec data "INDEX"); [done|]. done.
  - intros partial u c H1%apart_components H2%apart_components Hc. cbn.
    destruct (List.find _ (cab_web c)) as [e|]; [|done].
    intros data. cbn. rewrite !tree_file_put. rewrite !decide_False; [apply Hc|exact H2|exact H1].
Qed.

Lemma summary_is_authentic_witness :
  let sub := fmt ["/home/u/.cache/remotes/flathub/summaries/"; example_digest "SUMMARY"; ".sub"] in
  exists w', load_arch_summary Ok 10 false example_home example_remote example_cabinet = (Ok (Some ("x86_64", sub, None)), w') /\
    read_bytes w' sub = inl "SUMMARY" /\ cache_authentic example_home example_remote example_trusted w' /\
    authentic example_trusted "x86_64" "SUMMARY".
Proof.
  intros sub. eexists. split; [vm_compute; reflexivity|]. split; [vm_compute; reflexivity|].
  eassert (_ /\ forall arch p cid data, _ -> _ -> authentic example_trusted arch data) as [Hc Ha].
  { eapply (summary_is_authentic Ok 10 false example_home example_remote example_trusted example_cabinet _ _ example_honest).
    - intros data. cbn. by intros [].
    - vm_compute. reflexivity. }
  split; [exact Hc|]. eapply Ha; vm_compute; reflexivity.
Defined.

Lemma cached_metadata_expires_witness :
  let c := mkCabinet (mkTree [] [(components "/m/summary", "S"); (components "/m/summary.checked", "1000000" +:+ nl)]) 299000 [] in
  metadata_is_fresh "/m/summary" "/m/summary.checked" c = Ok true <-> (unix_timestamp c < 1000000 + 300 /\ 0 < 300)%Z.
Proof.
  intros c. apply (cached_metadata_expires "/m/summary" "/m/summary.checked" c 1000000 300); try reflexivity. lia.
Defined.

