(* ===== verification/ExtraData.v ===== *)
(** * ExtraData: payloads that a deployment fetches from elsewhere
    (src/src/installation/extra_data.rs)

    The metadata of a deployment may list files, with their sizes and SHA-256
    sums, that are downloaded into a working directory and then published in
    the deployment, after a program of the deployment has processed them.  The
    main theorem says that what is processed or published was verified. *)
From Stdlib Require Import Ascii String NArith ZArith Lia.
From stdpp Require Import base list strings sets.
From S2P Require Import Prelude Effects Collections RustStr RustNum RustPath HostFs InstallationPaths FlatpakMetadata MetadataCache.

Definition EXTRA_DATA_SECTION : string := "Extra Data".
Definition APPLIED_MARKER : string := ".extra-data-applied".

Record ExtraDataSource := mkSource {
  source_file : string; source_uri : string; source_size : Z; source_checksum : string }.

(** What it uses of the system besides [std::fs]'s common operations.  An open
    file is the sequence of what [read] returns on it. *)
Class ExtraWorld (W : Type) `{FileOps W} := {
  create_dir : path -> W -> io_result unit * W;
  file_size : W -> path -> io_result Z;
  open_file : W -> path -> io_result (list (io_result string));
  flush_stdout : W -> io_result unit * W;
  command_status : string -> list string -> W -> io_result ExitStatus * W;
}.

(** ** The metadata *)

Definition validate_source_name (n : string) : result unit :=
  if is_empty n || String.eqb n "." || String.eqb n ".." || has "/" n
  then bail (fmt ["invalid extra-data filename: "; debug_str n]) else Ok tt.

Definition source_suffix (key : string) : option string :=
  suffix ← strip_prefix "name" key; if all_bytes is_digit suffix then Some suffix else None.
Definition suffix_number (suffix : string) : Z :=
  if is_empty suffix then 0%Z else default (2 ^ 64 - 1)%Z (parse_u64 suffix).

Definition source_field (entries : list (string * string)) (suffix n : string) : result string :=
  ok_or (fmt ["[Extra Data] is missing "; n; suffix]) (bm_get (fmt [n; suffix]) entries).

Definition parse_source (entries : list (string * string)) (suffix : string) : result ExtraDataSource :=
  let field := source_field entries suffix in
  n ← field "name";
  _ ← validate_source_name n;
  uri ← field "uri";
  let rest := match strip_prefix "http://" uri with Some r => Some r | None => strip_prefix "https://" uri end in
  if negb (match rest with Some r => negb (is_empty r) | None => false end)
  then bail (fmt ["unsupported extra-data URI: "; uri])
  else
    size_text ← field "size";
    size ← ok_or (fmt ["invalid extra-data size: "; size_text]) (parse_u64 size_text);
    sum ← field "checksum";
    let checksum := to_ascii_lowercase sum in
    if negb (len checksum =? 64)%nat || negb (all_bytes is_hexdigit checksum)
    then bail (fmt ["invalid extra-data SHA-256 checksum: "; checksum])
    else Ok (mkSource n uri size checksum).

Definition parse_sources (metadata : string) : result (list ExtraDataSource) :=
  if negb (has_section metadata EXTRA_DATA_SECTION) then Ok []
  else
    let entries := fold_left (fun m e => bm_insert e.1 e.2 m) (section_entries metadata EXTRA_DATA_SECTION) [] in
    let suffixes := dedup String.eqb (sort_by (on suffix_number) (omap source_suffix entries.*1)) in
    if bool_decide (suffixes = []) then bail "[Extra Data] has no data sources"
    else map_result (parse_source entries) suffixes.

(** ** Downloading *)

Section Extra.
Context {W : Type} `{ExtraWorld W} (pid : N).
(** SHA-256, of glib, and [sandbox::apply_extra::run], which runs the
    deployment's program on the working directory in a sandbox of its own. *)
Context (sha256 : string -> string) (run_apply_extra : Installation -> path -> path -> path -> bool -> M W unit).

Definition checked_directory (p : path) (w : W) : result path :=
  match symlink_kind w p with
  | inr e => Err [fmt ["inspect directory "; p]; ioe_message e]
  | inl k => if negb (bool_decide (k = Directory)) then bail (fmt ["expected a non-symlink directory at "; p]) else Ok p
  end.

Definition remove_path_if_exists (p : path) : M W unit := fun w =>
  match symlink_kind w p with
  | inl Directory => io_step (fmt ["remove "; p]) (remove_dir_all p) w
  | inl _ => io_step (fmt ["remove "; p]) (remove_file p) w
  | inr e => if bool_decide (ioe_kind e = NotFound) then (Ok tt, w)
             else (Err [fmt ["inspect "; p]; ioe_message e], w)
  end.

(** The loop that feeds the checksum. *)
Fixpoint read_all (msg acc : string) (reads : list (io_result string)) : result string :=
  match reads with
  | [] => Ok acc
  | inr e :: _ => Err [msg; ioe_message e]
  | inl chunk :: rest => if is_empty chunk then Ok acc else read_all msg (acc +:+ chunk) rest
  end.

Definition verify_download (p : path) (s : ExtraDataSource) (w : W) : result unit :=
  let n := source_file s in
  actual_size ← io_context (fmt ["inspect downloaded "; n]) (file_size w p);
  if negb (actual_size =? source_size s)%Z
  then bail (fmt ["extra data "; n; " has size "; show_Z actual_size; ", expected "; show_Z (source_size s)])
  else
    reads ← io_context (fmt ["open downloaded "; n]) (open_file w p);
    data ← read_all (fmt ["read downloaded "; n]) "" reads;
    let actual := sha256 data in
    if negb (String.eqb actual (source_checksum s))
    then bail (fmt ["extra data "; n; " has SHA-256 "; actual; ", expected "; source_checksum s])
    else Ok tt.

Definition download_args (partial uri : string) : list string := ["-a"; "-F"; "-R"; "-q"; "-o"; partial; uri].

Definition download_source (work : path) (s : ExtraDataSource) : M W unit :=
  let destination := join_path work (source_file s) in
  let partial := join_path work (fmt ["."; source_file s; ".part"]) in
  _ ← io_try flush_stdout;
  status ← io_step (fmt ["download extra data "; source_file s])
             (command_status "fetch" (download_args partial (source_uri s)));
  if negb (status_success status)
  then lift (bail (fmt ["download extra data "; source_file s; " failed with status "; status_text status]))
  else
    _ ← getr (verify_download partial s);
    io_step (fmt ["publish extra data "; destination]) (rename_file partial destination).

(** A failure removes the working directory. *)
Definition or_discard {A} (work : path) (m : M W A) : M W A :=
  r ← catch m;
  match r with Ok a => mret a | Err e => _ ← catch (remove_path_if_exists work); fail e end.

Definition applied_marker (checkout : path) : path := join_path checkout APPLIED_MARKER.
Definition extra_dir (checkout : path) : path := join_path (join_path checkout "files") "extra".
Definition work_dir (checkout : path) : result path :=
  n ← ok_or "extra-data checkout has no UTF-8 file name" (file_name_of checkout);
  dir ← ok_or "extra-data checkout has no parent" (parent checkout);
  Ok (join_path dir (fmt ["."; n; ".extra-work-"; show_N pid])).

Definition no_runtime (metadata : string) : bool :=
  match value metadata EXTRA_DATA_SECTION "NoRuntime" with
  | Some setting => eq_ignore_ascii_case setting "true" | None => false
  end.

Definition apply_extra_data (i : Installation) (checkout runtime_dir : path) : M W unit :=
  let metadata_path := join_path checkout "metadata" in
  metadata ← getr (fun w : W => io_context (fmt ["read "; metadata_path]) (read_to_string w metadata_path));
  sources ← lift (parse_sources metadata);
  if bool_decide (sources = []) then mret tt
  else
    applied ← gets (fun w : W => is_file w (applied_marker checkout));
    if applied : bool then mret tt
    else
      _ ← getr (checked_directory (join_path checkout "files"));
      let extra := extra_dir checkout in
      _ ← remove_path_if_exists extra;
      _ ← io_step (fmt ["create "; extra]) (create_dir extra);
      work ← lift (work_dir checkout);
      _ ← remove_path_if_exists work;
      _ ← io_step (fmt ["create "; work]) (create_dir work);
      _ ← or_discard work (for_each (download_source work) sources);
      program ← gets (fun w : W => is_file w (join_path checkout "files/bin/apply_extra"));
      _ ← (if program : bool
           then or_discard work (in_context "run Flatpak apply_extra"
                  (run_apply_extra i checkout runtime_dir work (negb (no_runtime metadata))))
           else mret tt);
      _ ← remove_path_if_exists extra;
      _ ← io_step (fmt ["publish applied extra data "; work; " to "; extra]) (rename_file work extra);
      io_step (fmt ["mark extra data applied at "; applied_marker checkout])
        (write_file (applied_marker checkout) ("1" +:+ nl)).
End Extra.

(** ** What the files promise *)

(** [file_data w p] is what the file at [p] holds.  An operation leaves the
    paths alone that neither contain its own nor lie below them; a rename takes
    along what lies below; [fetch] writes the file it is told to. *)
Class ExtraFiles (W : Type) `{ExtraWorld W} := {
  file_data : W -> path -> option string;
  size_data : forall w p d n, file_size w p = inl n -> file_data w p = Some d -> n = Z.of_nat (len d);
  open_data : forall w p reads msg d, open_file w p = inl reads -> read_all msg "" reads = Ok d -> file_data w p = Some d;
  create_dir_data : forall w p q, apart q p -> file_data (create_dir p w).2 q = file_data w q;
  flush_data : forall w q, file_data (flush_stdout w).2 q = file_data w q;
  fetch_data : forall w partial uri q, apart q partial ->
    file_data (command_status "fetch" (download_args partial uri) w).2 q = file_data w q;
  write_data : forall w p d q, apart q p -> file_data (write_file p d w).2 q = file_data w q;
  remove_file_data : forall w p q, apart q p -> file_data (remove_file p w).2 q = file_data w q;
  remove_dir_data : forall w p q, apart q p -> file_data (remove_dir_all p w).2 q = file_data w q;
  rename_data : forall w p q w', apart p q -> rename_file p q w = (inl tt, w') ->
    (forall u v l, components u = components p ++ l -> components v = components q ++ l -> file_data w' v = file_data w u) /\
    (forall l u, components u = components p ++ l -> file_data w' u = None) /\
    forall u, apart u p -> apart u q -> file_data w' u = file_data w u;
}.

Section Verified.
Context {W : Type} `{ExtraFiles W} (pid : N).
Context (sha256 : string -> string) (run_apply_extra : Installation -> path -> path -> path -> bool -> M W unit).

(** The file of a source in [dir] has the size and the sum the metadata lists. *)
Definition verified (dir : path) (w : W) (s : ExtraDataSource) : Prop :=
  exists d, file_data w (join_path dir (source_file s)) = Some d /\
    Z.of_nat (len d) = source_size s /\ sha256 d = source_checksum s.

(** No two sources use the same path while they are downloaded. *)
Definition partial_name (s : ExtraDataSource) : string := fmt ["."; source_file s; ".part"].
Definition no_collisions (sources : list ExtraDataSource) : Prop :=
  NoDup (map source_file sources) /\
  forall s t, s ∈ sources -> t ∈ sources -> source_file s <> partial_name t.

(** ** Lemmas: downloads *)

Lemma validated_name n : validate_source_name n = Ok tt -> name_ok n.
Proof.
  unfold validate_source_name, name_ok, no_slash, skipped. intros E.
  destruct (is_empty n), (String.eqb_spec n "."), (String.eqb_spec n ".."), (has "/" n); done.
Qed.

Lemma parsed_source entries suffix s : parse_source entries suffix = Ok s -> name_ok (source_file s).
Proof.
  unfold parse_source. intros (n & _ & E)%bind_ok. apply bind_ok in E as ([] & Hn & E).
  apply bind_ok in E as (uri & _ & E). destruct (negb _); [done|].
  do 3 apply bind_ok in E as (? & _ & E). destruct (_ || _); [done|]. injection E as <-. by apply validated_name.
Qed.

Lemma parsed_sources metadata sources s : parse_sources metadata = Ok sources -> s ∈ sources -> name_ok (source_file s).
Proof.
  unfold parse_sources. destruct (negb _); [by intros [= <-] ?%not_elem_of_nil|]. case_bool_decide; [done|].
  intros E Hs. apply (elem_of_map_result _ _ _ _ E) in Hs as (? & _ & ?). by eapply parsed_source.
Qed.
Lemma partial_name_ok s : name_ok (source_file s) -> name_ok (partial_name s).
Proof.
  intros (Hs & _ & _). unfold name_ok, no_slash, partial_name. cbn [fmt foldr]. rewrite !has_app, Hs. split_and!; [done| |].
  - unfold skipped. destruct (source_file s); done.
  - by destruct (source_file s) as [|? []].
Qed.

Lemma partial_name_other s : partial_name s <> source_file s.
Proof. intros E%(f_equal len). unfold partial_name in E. cbn [fmt foldr] in E. rewrite !len_app in E. cbn in E. lia. Qed.

(** Files of one directory with different names. *)
Lemma siblings_apart dir n m : dir <> "" -> name_ok n -> name_ok m -> n <> m -> apart (join_path dir n) (join_path dir m).
Proof.
  intros Hd Hn Hm Hne. eapply (components_apart (components dir) [] [] (Normal n) (Normal m)).
  - by apply components_join_name.
  - by apply components_join_name.
  - congruence.
Qed.

Lemma verify_download_data p s w d : verify_download sha256 p s w = Ok tt -> file_data w p = Some d ->
  Z.of_nat (len d) = source_size s /\ sha256 d = source_checksum s.
Proof.
  unfold verify_download. intros (n & Hn & E)%bind_ok Hd. destruct (n =? source_size s)%Z eqn:En; [|done]. cbn [negb] in E.
  apply bind_ok in E as (reads & Hr & E). apply bind_ok in E as (d' & Hd' & E).
  destruct (String.eqb_spec (sha256 d') (source_checksum s)); [|done].
  unfold io_context in Hn, Hr. destruct (file_size w p) as [n'|] eqn:Ef; [injection Hn as ->|done].
  destruct (open_file w p) as [reads'|] eqn:Eo; [injection Hr as ->|done].
  pose proof (open_data _ _ _ _ _ Eo Hd') as Hd2. rewrite Hd in Hd2. injection Hd2 as ->.
  pose proof (size_data _ _ _ _ Ef Hd). split; [lia|done].
Qed.

Lemma verify_download_file p s w : verify_download sha256 p s w = Ok tt -> is_Some (file_data w p).
Proof.
  unfold verify_download. intros (n & Hn & E)%bind_ok. destruct (negb _); [done|].
  apply bind_ok in E as (reads & Hr & E). apply bind_ok in E as (d' & Hd' & E).
  unfold io_context in Hr. destruct (open_file w p) as [reads'|] eqn:Eo; [injection Hr as ->|done].
  eexists. by eapply open_data.
Qed.

Lemma download_verified work s w w' :
  work <> "" -> name_ok (source_file s) -> download_source sha256 work s w = (Ok tt, w') ->
  verified work w' s /\
  forall u, apart u (join_path work (source_file s)) -> apart u (join_path work (partial_name s)) -> file_data w' u = file_data w u.
Proof.
  intros Hw Hn E. pose proof (partial_name_ok s Hn) as Hp. unfold download_source in E. fold (partial_name s) in E.
  apply M_bind_ok in E as ([] & w1 & E1 & E). apply M_bind_ok in E as (status & w2 & E2%io_step_ok & E).
  destruct (negb _); [done|]. apply M_bind_ok in E as ([] & w3 & [= Hv <-] & E%io_step_ok).
  assert (forall u, file_data w1 u = file_data w u) as F1.
  { intros u. unfold io_try in E1. pose proof (flush_data w u). destruct (flush_stdout w) as [[v|e] w0]; [by injection E1 as _ <-|done]. }
  assert (forall u, apart u (join_path work (partial_name s)) -> file_data w2 u = file_data w1 u) as F2.
  { intros u Hu. by rewrite <- (fetch_data w1 _ (source_uri s) _ Hu), E2. }
  destruct (verify_download_file _ _ _ Hv) as [d Hd]. pose proof (verify_download_data _ _ _ _ Hv Hd) as [Hsize Hsum].
  pose proof (siblings_apart work _ _ Hw Hp Hn (partial_name_other s)) as Ha.
  destruct (rename_data _ _ _ _ Ha E) as (Hmove & _ & Hframe). split.
  - exists d. split; [|done]. rewrite (Hmove (join_path work (partial_name s)) _ []); [done|by rewrite app_nil_r..].
  - intros u Hu1 Hu2. by rewrite (Hframe u Hu2 Hu1), F2, F1.
Qed.

Lemma downloads_verified work sources w w' :
  work <> "" -> Forall (fun s => name_ok (source_file s)) sources -> no_collisions sources ->
  for_each (download_source sha256 work) sources w = (Ok tt, w') ->
  Forall (verified work w') sources /\
  forall u, (forall s, s ∈ sources -> apart u (join_path work (source_file s)) /\ apart u (join_path work (partial_name s))) ->
    file_data w' u = file_data w u.
Proof.
  intros Hw. revert w. induction sources as [|s l IH]; intros w Hn Hc E; cbn [for_each] in E; [by injection E as <-|].
  apply Forall_cons in Hn as [Hs Hn]. destruct Hc as [Hd Hc]. apply NoDup_cons in Hd as [Hd1 Hd2].
  apply M_bind_ok in E as ([] & w1 & E1 & E). destruct (download_verified _ _ _ _ Hw Hs E1) as [Hv F1].
  destruct (IH w1 Hn) as [Hl F2]; [split; [done|]; intros a b Ha Hb; apply Hc; by right|exact E|]. split.
  - apply Forall_cons. split; [|done]. destruct Hv as (d & Hfd & Hrest). exists d. split; [|done]. rewrite F2; [done|].
    intros t Ht. rewrite Forall_forall in Hn. split; apply siblings_apart; auto using partial_name_ok.
    + intros E2. apply Hd1. rewrite E2. apply list_elem_of_fmap. by exists t.
    + apply Hc; [left|by right].
  - intros u Hu. rewrite F2, F1; [done|apply Hu; left..|]. intros t Ht. apply Hu. by right.
Qed.
(** ** Lemmas: the directories of a deployment *)

Lemma checkout_components checkout n : is_absolute checkout = true -> file_name_of checkout = Some n ->
  exists dir l, parent checkout = Some dir /\ dir <> "" /\ components dir = RootDir :: l /\
    components checkout = components dir ++ [Normal n] /\ name_ok n.
Proof.
  intros Ha Hn. unfold file_name_of in Hn. pose proof (components_absolute _ Ha) as Ec.
  destruct (last (components checkout)) as [c|] eqn:El; [|done]. destruct c; try done. injection Hn as ->.
  apply last_Some in El as [k Ek]. assert (exists l, k = RootDir :: l) as [l ->].
  { rewrite Ek in Ec. destruct k as [|c l]; [by injection Ec|]. cbn in Ec. injection Ec as -> _. by exists l. }
  destruct (parent_components checkout l (Normal n) Ha Ek) as (dir & Hp & Hda & Hd). exists dir, l.
  split_and!; [done|by apply absolute_nonempty|done|by rewrite Ek, Hd|].
  apply (components_names checkout). rewrite Ek. apply elem_of_app. right. by left.
Qed.

Lemma work_name_ok n : name_ok n -> name_ok (fmt ["."; n; ".extra-work-"; show_N pid]).
Proof.
  intros (Hs & _ & _). unfold name_ok, no_slash. cbn [fmt foldr]. rewrite !has_app, Hs.
  rewrite (all_bytes_has is_digit "/" (show_N pid)) by (done || apply show_N_digits).
  split_and!; [done| |].
  - unfold skipped. destruct n; done.
  - by destruct n as [|? []].
Qed.

Lemma work_apart checkout work : is_absolute checkout = true -> work_dir pid checkout = Ok work ->
  work <> "" /\ forall p q l k, components p = components work ++ l -> components q = components checkout ++ k -> apart p q.
Proof.
  unfold work_dir. intros Ha (n & Hn%ok_or_ok & E)%bind_ok. apply bind_ok in E as (dir & Hd%ok_or_ok & E). injection E as <-.
  destruct (checkout_components _ _ Ha Hn) as (dir' & l' & Hd' & Hne & Edir & Ec & Hok).
  rewrite Hd in Hd'. injection Hd' as <-. pose proof (work_name_ok n Hok) as Hwok. split.
  - intros E. pose proof (eq_trans (eq_sym (components_join_name dir _ Hne Hwok)) (f_equal components E)) as E2.
    by rewrite Edir in E2.
  - intros p q l k Hp Hq. rewrite components_join_name, <- app_assoc in Hp by done. rewrite Ec, <- app_assoc in Hq.
    eapply components_apart; [exact Hp|exact Hq|]. intros [= E]. apply (f_equal len) in E.
    change (S (len (n +:+ ".extra-work-" +:+ show_N pid +:+ "")) = len n) in E. rewrite len_app in E. lia.
Qed.

(** Removing what is not there, or something else. *)
Lemma remove_path_data p u w r w' : apart u p -> remove_path_if_exists p w = (r, w') -> file_data w' u = file_data w u.
Proof.
  intros Hu. unfold remove_path_if_exists, io_step.
  destruct (symlink_kind w p) as [[]|e]; [| | | |case_bool_decide; by intros [= _ <-]];
    match goal with |- context [?op p w] => destruct (op p w) as [o w1] eqn:E end; intros [= _ <-];
    first [by rewrite <- (remove_file_data w p u Hu), E | by rewrite <- (remove_dir_data w p u Hu), E].
Qed.

Lemma or_discard_ok {A} work (m : M W A) w a w' : or_discard work m w = (Ok a, w') -> m w = (Ok a, w').
Proof.
  unfold or_discard, catch, mbind, M_bind. destruct (m w) as [[b|e] w1]; [by intros [= -> ->]|].
  by destruct (remove_path_if_exists work w1).
Qed.
Lemma in_context_ok {A} msg (m : M W A) w a w' : in_context msg m w = (Ok a, w') -> m w = (Ok a, w').
Proof. unfold in_context. destruct (m w) as [[b|e] w1]; by intros [= -> ->]. Qed.

Lemma below_checkout checkout a n : is_absolute checkout = true -> name_ok a -> name_ok n ->
  components (join_path (join_path checkout a) n) = components checkout ++ [Normal a; Normal n].
Proof.
  intros Ha Hok Hn. assert (join_path checkout a <> "") as Hne.
  { intros E%(f_equal components). rewrite components_join_name in E by auto using absolute_nonempty.
    rewrite (components_absolute _ Ha) in E. done. }
  rewrite components_join_name by done. rewrite components_join_name by auto using absolute_nonempty. by rewrite <- app_assoc.
Qed.

Lemma extra_components checkout : is_absolute checkout = true ->
  extra_dir checkout <> "" /\ components (extra_dir checkout) = components checkout ++ [Normal "files"; Normal "extra"].
Proof.
  intros Ha. pose proof (below_checkout checkout "files" "extra" Ha ltac:(done) ltac:(done)) as Ex. split; [|exact Ex].
  intros E. change (components (extra_dir checkout) = components checkout ++ [Normal "files"; Normal "extra"]) in Ex.
  rewrite E in Ex. by destruct (components checkout).
Qed.

(** C14.  What is published in the deployment was verified: the files of all sources
    when the deployment has no program to process them, and otherwise what that
    program made of the working directory with those files. *)
Theorem extra_data_is_verified i checkout runtime_dir w w' metadata sources :
  is_absolute checkout = true ->
  apply_extra_data pid sha256 run_apply_extra i checkout runtime_dir w = (Ok tt, w') ->
  read_to_string w (join_path checkout "metadata") = inl metadata -> parse_sources metadata = Ok sources ->
  sources <> [] -> is_file w (applied_marker checkout) = false -> no_collisions sources ->
  exists work w1 w2, work_dir pid checkout = Ok work /\ Forall (verified work w1) sources /\
    (if is_file w1 (join_path checkout "files/bin/apply_extra")
     then run_apply_extra i checkout runtime_dir work (negb (no_runtime metadata)) w1 = (Ok tt, w2)
     else w2 = w1 /\ Forall (verified (extra_dir checkout) w') sources) /\
    forall n, name_ok n -> file_data w' (join_path (extra_dir checkout) n) = file_data w2 (join_path work n).
Proof.
  intros Ha E Hm Hs Hne Hmark Hc. unfold apply_extra_data in E.
  apply M_bind_ok in E as (m & w0 & E0 & E). unfold getr in E0. rewrite Hm in E0. injection E0 as <- <-.
  rewrite Hs in E. apply M_bind_ok in E as (ss & w0 & [= <- <-] & E). rewrite bool_decide_false in E by done.
  rewrite gets_bind, Hmark in E.
  do 3 apply M_bind_ok in E as (? & ? & _ & E). apply M_bind_ok in E as (work & w3 & [= Hw ->] & E).
  do 2 apply M_bind_ok in E as (? & ? & _ & E). apply M_bind_ok in E as ([] & w1 & Hdl%or_discard_ok & E).
  rewrite gets_bind in E. apply M_bind_ok in E as ([] & w2 & Hrun & E).
  apply M_bind_ok in E as ([] & w4 & Hrm & E). apply M_bind_ok in E as ([] & w5 & Hmv%io_step_ok & Hwr%io_step_ok).
  destruct (work_apart _ _ Ha Hw) as [Hwne Hap].
  assert (forall s, s ∈ sources -> name_ok (source_file s)) as Hok by (intros s; by apply (parsed_sources metadata)).
  destruct (downloads_verified work sources _ _ Hwne ltac:(by apply Forall_forall) Hc Hdl) as [Hv _].
  assert (forall n, name_ok n -> file_data w' (join_path (extra_dir checkout) n) = file_data w2 (join_path work n)) as Hpub.
  { intros n Hn. assert (name_ok APPLIED_MARKER) as Hk by done.
    pose proof (extra_components checkout Ha) as [Hxne Ex].
    pose proof (components_join_name (extra_dir checkout) n Hxne Hn) as Exn. rewrite Ex in Exn.
    pose proof (components_join_name work n Hwne Hn) as Ewn.
    pose proof (components_join_name checkout APPLIED_MARKER (absolute_nonempty _ Ha) Hk) as Ek.
    assert (apart (join_path work n) (extra_dir checkout)) as Hap1 by (by eapply Hap).
    assert (apart work (extra_dir checkout)) as Hap2 by (eapply Hap; [by rewrite app_nil_r|exact Ex]).
    destruct (rename_data _ _ _ _ Hap2 Hmv) as (Hmove & _ & _).
    transitivity (file_data w5 (join_path (extra_dir checkout) n)).
    - pose proof (write_data w5 (applied_marker checkout) ("1" +:+ nl) (join_path (extra_dir checkout) n)) as Hd.
      rewrite Hwr in Hd. apply Hd. eapply (components_apart (components checkout)); [by rewrite Exn, <- app_assoc|exact Ek|done].
    - rewrite (Hmove (join_path work n) _ [Normal n]); [|done|by rewrite Exn, Ex].
      exact (remove_path_data _ _ _ _ _ Hap1 Hrm). }
  exists work, w1, w2. split_and!; [done|done| |done]. destruct (is_file w1 _) eqn:Eprog.
  - by apply or_discard_ok, in_context_ok in Hrun.
  - injection Hrun as <-. split; [done|]. rewrite Forall_forall in Hv |- *. intros s Hs'.
    destruct (Hv s Hs') as (d & Hd & Hrest). exists d. split; [|done]. rewrite Hpub by auto. done.
Qed.

(** A source whose name is the partial name of a later one is lost, although its
    download succeeded: the later download uses the same path. *)
Theorem colliding_source_is_lost work s t w w' :
  work <> "" -> name_ok (source_file t) -> source_file s = partial_name t ->
  download_source sha256 work t w = (Ok tt, w') -> file_data w' (join_path work (source_file s)) = None.
Proof.
  intros Hw Hn -> E. unfold download_source in E. fold (partial_name t) in E.
  apply M_bind_ok in E as ([] & w1 & _ & E). apply M_bind_ok in E as (status & w2 & _ & E).
  destruct (negb _); [done|]. apply M_bind_ok in E as ([] & w3 & _ & E%io_step_ok).
  pose proof (siblings_apart work _ _ Hw (partial_name_ok t Hn) Hn (partial_name_other t)) as Ha.
  destruct (rename_data _ _ _ _ Ha E) as (_ & Hgone & _). by apply (Hgone []), eq_sym, app_nil_r.
Qed.
End Verified.

(** ** A concrete deployment *)

(** Files and directories by their components; a web that [fetch] reads. *)
Record Bench := mkBench { bench_dirs : pathbuf -> bool; bench_files : pathbuf -> option string; bench_web : string -> option string }.
Definition bench_missing : io_error := mkIoError NotFound "No such file or directory (os error 2)".
Definition bench_has (b : Bench) (u : pathbuf) : bool := bench_dirs b u || bool_decide (is_Some (bench_files b u)).
Definition bench_put (u : pathbuf) (d : string) (b : Bench) : Bench :=
  mkBench (bench_dirs b) (fun v => if decide (v = u) then Some d else bench_files b v) (bench_web b).
Definition bench_mkdir (u : pathbuf) (b : Bench) : Bench :=
  mkBench (fun v => bool_decide (v = u) || bench_dirs b v) (bench_files b) (bench_web b).
Definition bench_delete (u : pathbuf) (b : Bench) : Bench :=
  mkBench (fun v => negb (bool_decide (u `prefix_of` v)) && bench_dirs b v)
    (fun v => if decide (u `prefix_of` v) then None else bench_files b v) (bench_web b).
Definition bench_move (u v : pathbuf) (b : Bench) : Bench :=
  let moved {A} (f : pathbuf -> A) (none : A) x :=
    if decide (v `prefix_of` x) then f (u ++ drop (length v) x) else if decide (u `prefix_of` x) then none else f x in
  mkBench (moved (bench_dirs b) false) (moved (bench_files b) None) (bench_web b).

#[export] Instance bench_host : HostFs Bench := {
  canonicalize _ p := inl p;
  path_exists b p := bench_has b (components p);
  is_dir b p := bench_dirs b (components p);
  read_dir _ _ := inl [];
  read_to_string b p := match bench_files b (components p) with Some d => inl d | None => inr bench_missing end;
  create_dir_all b p := inl (bench_mkdir (components p) b);
}.
#[export] Instance bench_ops : FileOps Bench := {
  is_file b p := bool_decide (is_Some (bench_files b (components p)));
  symlink_kind b p := if bench_dirs b (components p) then inl Directory
    else match bench_files b (components p) with Some _ => inl RegularFile | None => inr bench_missing end;
  make_dirs p b := (inl tt, bench_mkdir (components p) b);
  set_mode _ _ b := (inl tt, b);
  write_file p d b := (inl tt, bench_put (components p) d b);
  rename_file p q b := if bench_has b (components p) then (inl tt, bench_move (components p) (components q) b) else (inr bench_missing, b);
  remove_file p b := (inl tt, bench_delete (components p) b);
  remove_dir_all p b := (inl tt, bench_delete (components p) b);
}.
Definition bench_fetch (args : list string) (b : Bench) : io_result ExitStatus * Bench :=
  match args with
  | [_; _; _; _; _; partial; uri] =>
      match bench_web b uri with
      | Some d => (inl (mkExit true "exit status: 0"), bench_put (components partial) d b)
      | None => (inl (mkExit false "exit status: 1"), b)
      end
  | _ => (inl (mkExit false "exit status: 2"), b)
  end.
#[export] Instance bench_extra : ExtraWorld Bench := {
  create_dir p b := (inl tt, bench_mkdir (components p) b);
  file_size b p := match bench_files b (components p) with Some d => inl (Z.of_nat (len d)) | None => inr bench_missing end;
  open_file b p := match bench_files b (components p) with Some d => inl [inl d; inl ""] | None => inr bench_missing end;
  flush_stdout b := (inl tt, b);
  command_status _ := bench_fetch;
}.

Lemma bench_delete_apart p b q : apart q p -> bench_files (bench_delete (components p) b) (components q) = bench_files b (components q).
Proof. intros [_ Hn]. cbn. by destruct (decide _). Qed.
Lemma bench_put_apart p d b q : apart q p -> bench_files (bench_put (components p) d b) (components q) = bench_files b (components q).
Proof. intros Ha%apart_components. cbn. by destruct (decide _). Qed.

#[export] Instance bench_laws : ExtraFiles Bench.
Proof.
  unshelve refine (Build_ExtraFiles Bench _ _ _ (fun b p => bench_files b (components p)) _ _ _ _ _ _ _ _ _); cbn [
    file_size open_file create_dir flush_stdout command_status write_file remove_file remove_dir_all rename_file bench_extra bench_ops].
  - intros b p d n. destruct (bench_files b (components p)); [|done]. by intros [= <-] [= ->].
  - intros b p reads msg d. destruct (bench_files b (components p)) as [x|]; [|done]. intros [= <-]. cbn.
    destruct x; cbn; intros [= <-]; [done|by f_equal].
  - done.
  - done.
  - intros b partial uri q Ha. cbn. destruct (bench_web b uri); [by apply bench_put_apart|done].
  - intros. by apply bench_put_apart.
  - intros. by apply bench_delete_apart.
  - intros. by apply bench_delete_apart.
  - intros b p q b' [Hn1 Hn2]. destruct (bench_has b _); [|done]. intros [= <-]. cbn. split_and!.
    + intros u v l -> ->. rewrite decide_True by apply prefix_app_r, reflexivity.
      by rewrite drop_app_length.
    + intros l u E. rewrite decide_False, decide_True; [done| |]; rewrite E; [by apply prefix_app_r|].
      intros Hp. destruct (prefix_weak_total _ _ _ Hp (prefix_app_r (components p) (components p) l ltac:(done))); done.
    + intros u [_ Hu1] [_ Hu2]. by rewrite !decide_False.
Defined.

Definition example_sum (d : string) : string := fmt (replicate 64 (if String.eqb d "PAYLOAD" then "a" else "0")).
Definition example_metadata : string :=
  fmt (map end_line ["[Application]"; "name=org.example.App"; "[Extra Data]"; "name=payload.bin";
    "uri=https://example.com/payload"; "size=7"; fmt ["checksum="; example_sum "PAYLOAD"]]).
Definition example_bench : Bench :=
  mkBench (fun u => bool_decide (u = components "/d/app/c" \/ u = components "/d/app/c/files"))
    (fun u => if decide (u = components "/d/app/c/metadata") then Some example_metadata else None)
    (fun u => if String.eqb u "https://example.com/payload" then Some "PAYLOAD" else None).
Definition example_installation : Installation := mkInstallation "/s" "/d" "/c" "/r" "/v" "/l" "/x".
Definition example_payload : ExtraDataSource := mkSource "payload.bin" "https://example.com/payload" 7 (example_sum "PAYLOAD").

Lemma extra_data_is_verified_witness :
  let run (_ : Installation) (_ _ _ : path) (_ : bool) : M Bench unit := mret tt in
  exists w', apply_extra_data 7 example_sum run example_installation "/d/app/c" "/d/rt" example_bench = (Ok tt, w') /\
    file_data w' "/d/app/c/files/extra/payload.bin" = Some "PAYLOAD" /\
    exists work w1 w2, work_dir 7 "/d/app/c" = Ok work /\ Forall (verified example_sum work w1) [example_payload] /\
      (if is_file w1 "/d/app/c/files/bin/apply_extra"
       then run example_installation "/d/app/c" "/d/rt" work (negb (no_runtime example_metadata)) w1 = (Ok tt, w2)
       else w2 = w1 /\ Forall (verified example_sum (extra_dir "/d/app/c") w') [example_payload]) /\
      forall n, name_ok n -> file_data w' (join_path (extra_dir "/d/app/c") n) = file_data w2 (join_path work n).
Proof.
  intros run. eexists. split; [vm_compute; reflexivity|]. split; [vm_compute; reflexivity|].
  eapply (extra_data_is_verified 7 example_sum run example_installation "/d/app/c" "/d/rt" example_bench); try (vm_compute; reflexivity).
  - done.
  - split; [apply NoDup_singleton|]. by intros s t ->%list_elem_of_singleton ->%list_elem_of_singleton.
Defined.
