(* ===== verification/ApplicationInstallation.v ===== *)
(** * ApplicationInstallation: deploying an application or a runtime
    (src/src/installation/application_installation.rs)

    The directory of a deployment, the deployment itself, its extra data under
    a pin, and the record of a runtime.  The theorems say that the search for a
    directory ends and that a forced repair takes a fresh one, so that the
    deployments that sandboxes may have pinned are not touched. *)
From Stdlib Require Import Ascii String NArith ZArith Lia.
From stdpp Require Import base list strings sets gmap.
From S2P Require Import Prelude Effects Collections Gzip RustStr RustNum RustPath HostFs InstallationPaths Records Processes RunRecords ExtensionPoints RemoteConfig ExtraData CheckoutActivation RefResolution OstreeSummary OstreeRepository MetadataLock MetadataCache.

Record InstalledApp := mkInstalled {
  ia_origin : string; ia_runtime_origin : string; ia_app_id : string; ia_app_ref : string; ia_app_commit : string;
  ia_installed_size : Z; ia_app_dir : path; ia_arch : string; ia_branch : string; ia_runtime_ref : string;
  ia_runtime_commit : string; ia_runtime_installed_size : Z; ia_runtime_dir : path; ia_command : string }.

(** ** The directory of a deployment *)

Section Directory.
Context {W : Type} `{HostFs W} (pid : N) (w : W).

Definition repair_dir (base commit : string) (sequence : N) : path :=
  join_path base (fmt [commit; ".repair-"; show_N pid; "-"; show_N sequence]).

(** The loop over the numbers from [sequence] on: [None] when it is at no end. *)
Fixpoint first_free (fuel : nat) (base commit : string) (sequence : N) : option path :=
  match fuel with
  | O => None
  | S fuel =>
      let candidate := repair_dir base commit sequence in
      if negb (path_exists w candidate) then Some candidate else first_free fuel base commit (N.succ sequence)
  end.

Definition generation_checkout_dir (fuel : nat) (base : path) (commit : string) (force : bool) : option path :=
  let ordinary := join_path base commit in
  if negb force || negb (path_exists w ordinary) then Some ordinary else first_free fuel base commit 0.
End Directory.

(** ** Installing *)

Section Install.
Context {W : Type} `{CacheWorld W} `{!Libostree W} `{!StorageOps W} `{!ExtraWorld W} `{SummaryFormat}.
Context (pid : N) (next_sequence : M W N) (process_lookup : W -> Z -> result (option ProcessIdentity)).
(** Decompression, the clock, SHA-256 and the sandbox of the extra data are
    parameters; [fuel] bounds the search for a directory, and [patience] the
    waits of the metadata cache. *)
Context (inflate : bytes -> result bytes) (patience : nat) (now_nanos : W -> N) (sha256 : string -> string)
  (run_apply_extra : Installation -> path -> path -> path -> bool -> M W unit) (fuel : nat).

Definition checkout_dir (base commit : string) (force : bool) : M W (option path) :=
  gets (fun w => generation_checkout_dir pid w fuel base commit force).

Definition runtime_base (i : Installation) (rref : string) : path := join_path (runtimes i) (runtime_checkout_dir rref).

(** The bytes of a remote's summary; [held] says whether the storage is open. *)
Definition remote_summary (held : bool) (i : Installation) (origin : string) : M W (option string) :=
  configured ← getr (get_remote i origin);
  loaded ⇐ load_arch_summary inflate patience held i configured;
  let summary_path := loaded.1.2 in
  summary ← read_file (fmt ["read "; summary_path]) summary_path;
  mret (Some summary).

(** A recorded runtime with the same commit is used where it is. *)
Definition runtime_destination_for (i : Installation) (existing : option RuntimeRecord) (rref commit : string) (force : bool)
  : M W (option path) :=
  match existing with
  | Some record =>
      if negb force && String.eqb (runtime_commit record) commit
      then mret (Some (absolute_data_path i (runtime_dir record)))
      else checkout_dir (runtime_base i rref) commit force
  | None => checkout_dir (runtime_base i rref) commit force
  end.

Definition pin_id (nanos : N) : string := fmt ["install-"; lower_hex nanos; "-"; show_N pid].

(** Extra data is applied while a pin protects the deployments. *)
Definition apply_pinned (i : Installation) (id : string) (app_dir runtime_dir : path) : M W unit :=
  nanos ← gets now_nanos;
  let pin_root := join_path (join_path (chroots i) id) (pin_id nanos) in
  pin ← write_checkout_pin pid next_sequence process_lookup i id (pin_id nanos) pin_root app_dir runtime_dir;
  extra_result ← catch (apply_extra_data pid sha256 run_apply_extra i app_dir runtime_dir);
  unpin_result ← catch (remove_run_record pin);
  _ ← lift extra_result;
  lift unpin_result.

(** [None] says that the call does not return. *)
Definition checkout_remote_app (i : Installation) (r : RemoteApp) (force_app force_runtime : bool)
  : M W (option InstalledApp) :=
  dir ← checkout_dir (app i (ra_app_id r)) (ra_app_commit r) force_app;
  existing ← get_runtime i (ra_runtime_ref r);
  rdir ← runtime_destination_for i existing (ra_runtime_ref r) (ra_runtime_commit r) force_runtime;
  match dir, rdir with
  | Some app_dir, Some runtime_dir =>
      summary ⇐ remote_summary false i (ra_origin r);
      let runtime_full_ref := fmt ["runtime/"; ra_runtime_ref r] in
      let deployments :=
        [mkDeployment (ra_origin r) "application" (ra_app_ref r) (ra_app_commit r) app_dir force_app;
         mkDeployment (ra_runtime_origin r) "runtime" runtime_full_ref (ra_runtime_commit r) runtime_dir force_runtime] in
      _ ← storage_open i;
      _ ⇐ (if String.eqb (ra_origin r) (ra_runtime_origin r)
           then Some <$> deploy (storage_transaction i) summary deployments
           else
             runtime_summary ⇐ remote_summary true i (ra_runtime_origin r);
             Some <$> deploy_from_sources (storage_transaction i)
               [mkSource (ra_origin r) summary; mkSource (ra_runtime_origin r) runtime_summary] deployments);
      size ← getr (installed_size (ra_app_commit r));
      runtime_size ← getr (installed_size (ra_runtime_commit r));
      _ ← apply_pinned i (ra_app_id r) app_dir runtime_dir;
      mret (Some (mkInstalled (ra_origin r) (ra_runtime_origin r) (ra_app_id r) (ra_app_ref r) (ra_app_commit r) size
        app_dir (ra_arch r) (ra_branch r) (ra_runtime_ref r) (ra_runtime_commit r) runtime_size runtime_dir (ra_command r)))
  | _, _ => mret None
  end.

Definition update_app (i : Installation) (r : RemoteApp) (force_app force_runtime : bool) : M W (option InstalledApp) :=
  checkout_remote_app i r force_app force_runtime.

Definition update_runtime (i : Installation) (r : RemoteRuntime) (force explicit : bool) : M W (option RuntimeRecord) :=
  existing ← get_runtime i (rt_ref r);
  let force := force || match existing with Some record => negb (String.eqb (rt_origin record) (rt_remote r)) | None => false end in
  rdir ← runtime_destination_for i existing (rt_ref r) (rt_commit r) force;
  match rdir with
  | None => mret None
  | Some dir =>
      summary ⇐ remote_summary false i (rt_remote r);
      let full_ref := fmt ["runtime/"; rt_ref r] in
      _ ← storage_open i;
      _ ← deploy (storage_transaction i) summary
            [mkDeployment (rt_remote r) "runtime" full_ref (rt_commit r) dir force];
      size ← getr (installed_size (rt_commit r));
      relative ← lift (relative_data_path i dir);
      let record := mkRuntime (rt_remote r) (rt_ref r) (rt_commit r) size
        (explicit || match existing with Some record => explicitly_installed record | None => false end) relative in
      _ ← write_runtime pid next_sequence i record;
      _ ← reconcile_runtime_bindings pid next_sequence i;
      _ ← (match existing with
           | Some old => if String.eqb (rt_origin old) (rt_remote r) then mret tt else remove_remote_refs i (rt_origin old) [full_ref]
           | None => mret tt
           end);
      mret (Some record)
  end.

(** [record_install] of application_records.rs: the runtime's record is written
    before the application's. *)
Definition record_install (i : Installation) (a : InstalledApp) : M W AppRecord :=
  _ ← ensure_layout i;
  dir ← lift (relative_data_path i (ia_app_dir a));
  rdir ← lift (relative_data_path i (ia_runtime_dir a));
  let record := mkApp (ia_origin a) (ia_runtime_origin a) (ia_app_id a) (ia_app_ref a) (ia_app_commit a) (ia_installed_size a)
    dir (ia_arch a) (ia_branch a) (ia_runtime_ref a) (ia_runtime_commit a) rdir (ia_command a) in
  existing ← get_runtime i (ia_runtime_ref a);
  _ ← write_runtime pid next_sequence i
        (mkRuntime (ia_runtime_origin a) (ia_runtime_ref a) (ia_runtime_commit a) (ia_runtime_installed_size a)
           (match existing with Some old => explicitly_installed old | None => false end) rdir);
  _ ← write_app pid next_sequence i record;
  _ ← reconcile_runtime_bindings pid next_sequence i;
  _ ← (match existing with
       | Some old =>
           if String.eqb (rt_origin old) (ia_runtime_origin a) then mret tt
           else remove_remote_refs i (rt_origin old) [fmt ["runtime/"; ia_runtime_ref a]]
       | None => mret tt
       end);
  mret record.

(** An application whose runtime comes from another remote waits for itself: the
    summary of the runtime's remote is loaded while the storage is open, and a
    refresh of it opens the storage again ([held_storage_blocks_refresh]). *)
Theorem cross_remote_install_waits_for_itself i r force_app force_runtime app_dir rdir existing summary configured
    (w0 w1 w2 w3 w4 w5 : W) :
  generation_checkout_dir pid w0 fuel (app i (ra_app_id r)) (ra_app_commit r) force_app = Some app_dir ->
  get_runtime i (ra_runtime_ref r) w0 = (Ok existing, w1) ->
  runtime_destination_for i existing (ra_runtime_ref r) (ra_runtime_commit r) force_runtime w1 = (Ok (Some rdir), w2) ->
  remote_summary false i (ra_origin r) w2 = (Ok (Some summary), w3) ->
  storage_open i w3 = (Ok tt, w4) ->
  ra_origin r <> ra_runtime_origin r -> get_remote i (ra_runtime_origin r) w4 = Ok configured ->
  load_arch_summary inflate patience true i configured w4 = (Ok None, w5) ->
  checkout_remote_app i r force_app force_runtime w0 = (Ok None, w5).
Proof.
  intros Hdir Hrt Hrd Hsum Hopen Hne Hconf Hload. unfold checkout_remote_app.
  rewrite (bind_step _ _ _ (Some app_dir) w0) by (unfold checkout_dir, gets; by rewrite Hdir).
  rewrite (bind_step _ _ _ _ _ Hrt), (bind_step _ _ _ _ _ Hrd), (ended_step _ _ _ _ _ Hsum), (bind_step _ _ _ _ _ Hopen).
  apply ended_never. apply String.eqb_neq in Hne as ->. apply ended_never. unfold remote_summary.
  rewrite (bind_step _ _ _ configured w4) by (unfold getr; by rewrite Hconf). by apply ended_never.
Qed.
End Install.

(** ** The directory is found and, for a repair, fresh *)

Lemma long_name_ok s : has "/" s = false -> 2 < len s -> name_ok s.
Proof.
  intros Hs Hl. split; [done|]. destruct s as [|a [|b [|c s]]]; cbn in Hl; [lia..|]. split; [|done].
  unfold skipped. cbn. by destruct (Ascii.eqb a ".").
Qed.

Lemma repair_name_ok pid commit n : name_ok commit -> name_ok (fmt [commit; ".repair-"; show_N pid; "-"; show_N n]).
Proof.
  intros (Hs & _ & _). apply long_name_ok.
  - by rewrite !fmt_cons, !has_app, Hs,
      (all_bytes_has is_digit "/" (show_N pid)), (all_bytes_has is_digit "/" (show_N n)) by (done || apply show_N_digits).
  - rewrite !fmt_cons, !len_app. change (len ".repair-") with 8. lia.
Qed.

Section Fresh.
Context {W : Type} `{HostFs W} (pid : N) (w : W) (base commit : string).

Lemma repair_dir_inj m n : base <> "" -> name_ok commit ->
  components (repair_dir pid base commit m) = components (repair_dir pid base commit n) -> m = n.
Proof.
  intros Hb Hc. unfold repair_dir. rewrite !components_join_name by auto using repair_name_ok. intros E.
  apply app_inv_head in E. assert (fmt [commit; ".repair-"; show_N pid; "-"; show_N m] = fmt [commit; ".repair-"; show_N pid; "-"; show_N n])
    as E' by congruence. rewrite !fmt_cons in E'. do 4 apply sapp_inv_head in E'. rewrite !fmt_nil, !sapp_nil_r in E'.
  by apply pretty.pretty_N_inj in E'.
Qed.

(** It is found, or none of the names tried is free. *)
Lemma first_free_cases fuel n :
  (exists k, first_free pid w fuel base commit n = Some (repair_dir pid base commit k) /\
     path_exists w (repair_dir pid base commit k) = false) \/
  first_free pid w fuel base commit n = None /\
  forall k, k < fuel -> path_exists w (repair_dir pid base commit (n + N.of_nat k)) = true.
Proof.
  revert n. induction fuel as [|fuel IH]; intros n; cbn [first_free]; [right; split; [done|lia]|].
  destruct (path_exists w (repair_dir pid base commit n)) eqn:E; cbn [negb]; [|left; by exists n].
  destruct (IH (N.succ n)) as [?|[Hn Ht]]; [by left|]. right. split; [done|]. intros [|k] Hk; [by rewrite N.add_0_r|].
  replace (n + N.of_nat (S k))%N with (N.succ n + N.of_nat k)%N by lia. apply Ht. lia.
Qed.

(** The directory of a deployment is always found, with as many attempts
    as there are paths that exist; an ordinary installation takes the commit's own
    name, and a forced one a directory below the same family that does not exist. *)
Theorem deployment_dir_is_fresh fuel (taken : list pathbuf) force : base <> "" -> name_ok commit ->
  (forall p, path_exists w p = true -> components p ∈ taken) -> length taken < fuel ->
  exists p, generation_checkout_dir pid w fuel base commit force = Some p /\
    (force = false -> p = join_path base commit) /\ (force = true -> path_exists w p = false) /\
    exists n, p = join_path base n /\ starts_with commit n = true /\ name_ok n.
Proof.
  intros Hb Hc Ht Hl. unfold generation_checkout_dir.
  assert (starts_with commit commit = true) as Hself by (apply starts_with_true; exists ""; by rewrite sapp_nil_r).
  destruct force; cbn [negb orb]; [|exists (join_path base commit); split_and!; [done|done|done|by exists commit]].
  destruct (path_exists w (join_path base commit)) eqn:E; cbn [negb];
    [|exists (join_path base commit); split_and!; [done|done|done|by exists commit]].
  destruct (first_free_cases fuel 0) as [(k & -> & Hk)|[_ Hall]].
  - eexists. split_and!; [done..|]. eexists. split_and!; [reflexivity| |by apply repair_name_ok].
    rewrite fmt_cons. apply starts_with_app.
  - exfalso. set (names := map (fun k => components (repair_dir pid base commit (0 + N.of_nat k))) (seq 0 fuel)).
    assert (NoDup names) as Hnd.
    { apply (NoDup_fmap_2_strong _ (seq 0 fuel)); [|apply NoDup_seq]. intros x y _ _ Hxy.
      apply repair_dir_inj in Hxy; [lia|done..]. }
    assert (names ⊆ taken) as Hsub.
    { intros p (x & -> & Hx%elem_of_seq)%list_elem_of_fmap. apply Ht, Hall. lia. }
    pose proof (submseteq_length _ _ (NoDup_submseteq _ _ Hnd Hsub)) as Hlen.
    unfold names in Hlen. rewrite length_map, length_seq in Hlen. lia.
Qed.
End Fresh.

(** ** What a deployment leaves alone *)

(** The repository lies outside of the deployments; a checkout writes below the
    directory it is told; making directories changes nothing that is there. *)
Class DeployFiles (W T : Type) `{ContentFs W T} := {
  outside_repo : path -> Prop;
  pull_content : forall n data refs w p, outside_repo p -> content (repo_pull n data refs w).2 p = content w p;
  fsck_content : forall sum w p, outside_repo p -> content (fsck_object sum w).2 p = content w p;
  checkout_content : forall p sum w q, apart q p -> content (checkout_at p sum w).2 q = content w q;
  dirs_content : forall p w q, ~ components q `prefix_of` components p -> is_Some (content w q) ->
    content (make_dirs p w).2 q = content w q;
}.

Section Spared.
Context {W T : Type} `{DeployFiles W T} (u : path) (t : T).

Definition in_place (w : W) : Prop := content w u = Some t.

(** [u] is neither the directory of a deployment nor one of the hidden ones next
    to it that the deployment uses. *)
Definition spares (d : Deployment) : Prop :=
  exists base n, is_absolute base = true /\ name_ok n /\ deployment_destination d = join_path base n /\
    has "/" (checksum d) = false /\
    forall m q, m = n \/ starts_with "." m = true -> components q = components base ++ [Normal m] -> apart u q.

Lemma has_substring c k s : has c s = false -> has c (substring 0 k s) = false.
Proof.
  revert k. induction s as [|a s IH]; intros [|k]; cbn; [done..|]. intros [Ha Hs]%orb_false_iff.
  by rewrite Ha, IH.
Qed.

Lemma hidden_name_ok n rest : name_ok n -> has "/" (fmt rest) = false -> name_ok (fmt ("." :: n :: rest)).
Proof.
  intros (Hs & Hk & _) Hr. unfold name_ok, no_slash. rewrite !fmt_cons, !has_app, Hs, Hr.
  split_and!; [done|by destruct n|]. destruct n as [|a [|b n]]; [done| |done]. intros [= -> _]. done.
Qed.

Lemma in_place_remove p : apart u p -> keeps in_place (remove_path_if_exists (W := W) p).
Proof.
  intros Hp w Hw. destruct (remove_path_if_exists p w) as [r w'] eqn:E. unfold in_place.
  by rewrite (proj2 (remove_path_effect _ _ _ _ E) u Hp).
Qed.
Lemma in_place_rename msg p q : apart p q -> apart u p -> apart u q -> keeps in_place (io_step (W := W) msg (rename_file p q)).
Proof.
  intros Hpq Hp Hq w Hw. destruct (io_step _ _ w) as [r w'] eqn:E. unfold in_place.
  by rewrite (proj1 (rename_effect _ _ _ _ _ _ Hpq E) u Hp Hq).
Qed.
Lemma in_place_sync p : keeps in_place (sync_parent (W := W) p).
Proof.
  intros w Hw. destruct (sync_parent p w) as [r w'] eqn:E. unfold in_place. by rewrite (sync_parent_effect _ _ _ _ E).
Qed.
Lemma in_place_write msg p data : apart u p -> keeps in_place (io_step (W := W) msg (write_file p data)).
Proof.
  intros Hp. apply keeps_io_step. intros w Hw. destruct (write_file p data w) as [r w'] eqn:E.
  unfold in_place. cbn. by rewrite (proj2 (write_content _ _ _ _ _ E) u Hp).
Qed.
Lemma in_place_remove_file p : apart u p -> forall w : W, in_place w -> in_place (remove_file p w).2.
Proof.
  intros Hp w Hw. destruct (remove_file p w) as [r w'] eqn:E. unfold in_place. cbn.
  by rewrite (proj2 (proj2 (remove_file_content _ _ _ _ E)) u Hp).
Qed.

(** *** The paths of a deployment *)

Lemma destination_name base n : is_absolute base = true -> name_ok n -> file_name_of (join_path base n) = Some n.
Proof.
  intros Hb Hn. unfold file_name_of. by rewrite components_join_name, last_snoc by auto using absolute_nonempty.
Qed.

Lemma root_absolute q : RootDir ∈ components q -> is_absolute q = true.
Proof.
  intros Hr. apply not_false_iff_true. intros Hq. rewrite components_front, front_relative in Hr by done.
  apply elem_of_app in Hr as [Hr|Hr]; [|by apply body_no_root in Hr as []].
  case_bool_decide; cbn in Hr; [by apply list_elem_of_singleton in Hr|by apply elem_of_nil in Hr].
Qed.

Lemma hidden_sibling base n rest : is_absolute base = true -> name_ok n -> has "/" (fmt rest) = false ->
  let q := with_file_name (join_path base n) (fmt ("." :: n :: rest)) in
  components q = components base ++ [Normal (fmt ("." :: n :: rest))] /\
  exists dir, parent q = Some dir /\ components dir = components base.
Proof.
  intros Hb Hn Hr q. pose proof (hidden_name_ok n rest Hn Hr) as Hok.
  pose proof (components_with_file_name base n _ Hb Hn Hok) as Ec. split; [exact Ec|].
  pose proof (components_absolute base Hb) as Eb. rewrite Eb in Ec.
  assert (is_absolute q = true) as Ha by (apply root_absolute; unfold q; rewrite Ec; left).
  destruct (parent_components q _ _ Ha Ec) as (dir & Hp & _ & Hd). exists dir. by rewrite Eb.
Qed.
Lemma apart_below p q l : apart u p -> components q = components p ++ l -> apart u q.
Proof.
  unfold apart. intros [Hn Hn'] ->. split; intros Hp.
  - destruct (prefix_weak_total _ _ _ Hp (prefix_app_r (components p) (components p) l ltac:(done))); done.
  - apply Hn'. etransitivity; [|exact Hp]. by apply prefix_app_r.
Qed.

Definition act_spares (a : Activation) : Prop :=
  apart u (destination a) /\ apart u (staging a) /\ apart u (backup a) /\
  apart (staging a) (destination a) /\ apart (destination a) (backup a).

(** What [stage_checkout] computes from a deployment. *)
Lemma spared_paths d : spares d -> exists n staging backup dir,
  file_name_of (deployment_destination d) = Some n /\
  with_file_name (deployment_destination d) (fmt ["."; n; ".ostree-"; substring 0 12 (checksum d); ".staging"]) = staging /\
  with_file_name (deployment_destination d) (fmt ["."; n; ".ostree-previous"]) = backup /\
  act_spares (mkActivation (deployment_destination d) staging backup) /\
  parent staging = Some dir /\ ~ components u `prefix_of` components dir /\
  apart u (join_path staging DEPLOYMENT_MARKER).
Proof.
  intros (base & n & Hb & Hn & Hd & Hc & Hu). rewrite Hd.
  assert (has "/" (fmt [".ostree-"; substring 0 12 (checksum d); ".staging"]) = false) as Hs
    by (rewrite !fmt_cons, !has_app, has_substring by done; done).
  destruct (hidden_sibling base n _ Hb Hn Hs) as (Es & dir & Hp & Edir).
  destruct (hidden_sibling base n [".ostree-previous"] Hb Hn eq_refl) as (Eb & _).
  pose proof (components_join_name base n (absolute_nonempty _ Hb) Hn) as En.
  assert (apart u (join_path base n)) as Hu1 by (apply (Hu n); [by left|done]).
  exists n. do 2 eexists. exists dir. split; [by apply destination_name|]. split; [reflexivity|]. split; [reflexivity|].
  assert (forall rest, Normal (fmt ("." :: n :: rest)) <> Normal n) as Hne.
  { intros rest E0. assert (fmt ("." :: n :: rest) = n) as E%(f_equal len) by congruence. rewrite !fmt_cons, !len_app in E. change (len ".") with 1 in E. lia. }
  assert (apart u (with_file_name (join_path base n) (fmt ["."; n; ".ostree-"; substring 0 12 (checksum d); ".staging"]))) as Hu2
    by (eapply Hu; [|exact Es]; by right).
  split; [|split; [exact Hp|split]].
  - split; [done|]. split; [done|]. split; [by eapply Hu; [|exact Eb]; right|]. cbn [staging destination backup]. split.
    + eapply components_apart; [exact Es|exact En|apply Hne].
    + eapply components_apart; [exact En|exact Eb|apply not_eq_sym, Hne].
  - rewrite Edir. intros Hpre. apply (proj1 Hu1). rewrite En. by apply prefix_app_r.
  - eapply (apart_below _ _ [Normal DEPLOYMENT_MARKER]); [exact Hu2|]. apply components_join_name; [|done].
    intros E. rewrite E in Es. symmetry in Es. by apply app_nil in Es as [].
Qed.

(** *** The steps of a deployment *)

Lemma stage_gives d : spares d -> gives in_place in_place (stage_checkout d) (fun a _ => act_spares a).
Proof.
  intros Hd. destruct (spared_paths d Hd) as (n & st & bk & dir & Hn & Hst & Hbk & Ha & Hp & Hdir & Hm).
  pose proof Ha as (Hud & Hus & Hub & _). cbn [destination staging backup] in Hud, Hus, Hub.
  assert (keeps in_place (io_step (W := W) (fmt ["checkout "; ref_name d; " at "; deployment_destination d])
     (checkout_at st (checksum d)))) as Hco.
  { apply keeps_io_step. intros w Hw. unfold in_place. by rewrite checkout_content. }
  assert (keeps in_place (io_try (W := W) (make_dirs dir))) as Hmk.
  { apply keeps_io_try. intros w Hw. unfold in_place. rewrite dirs_content; [done..|]. by eexists. }
  assert (forall w : W, stage_checkout d w =
    (_ ← remove_path_if_exists st;
     _ ← io_try (make_dirs dir);
     checked_out ← catch (io_step (fmt ["checkout "; ref_name d; " at "; deployment_destination d]) (checkout_at st (checksum d)));
     _ ← match checked_out with Ok _ => mret tt | Err e => _ ← catch (remove_path_if_exists st); fail e end;
     _ ← getr (validate_checkout st);
     size ← getr (repo_installed_size (checksum d));
     _ ← io_step (fmt ["create "; join_path st DEPLOYMENT_MARKER]) (write_file (join_path st DEPLOYMENT_MARKER) (marker_text d size));
     mret (mkActivation (deployment_destination d) st bk)) w) as Heq.
  { intros w. unfold stage_checkout. rewrite (bind_step _ _ _ n w) by (unfold lift; by rewrite Hn).
    cbv zeta. rewrite Hst, Hbk. unfold mbind at 1 10, M_bind at 1 10. destruct (remove_path_if_exists st w) as [[]]; [|done].
    by rewrite Hp. }
  intros w Hw. rewrite Heq. split.
  - revert w Hw. pose proof (in_place_remove st Hus). apply keeps_bind; [done|]. intros _. apply keeps_bind; [done|]. intros _.
    apply keeps_bind; [by apply keeps_catch|]. intros checked. apply keeps_bind; [destruct checked; eauto with keeps|]. intros _.
    do 2 (apply keeps_bind; [apply keeps_getr|]; intros ?). apply keeps_bind; [by apply in_place_write|]. intros _. apply keeps_ret.
  - match goal with |- forall a, ?x.1 = _ -> _ => destruct x as [r w'] eqn:Ew end. cbn. intros a ->.
    do 7 apply M_bind_ok in Ew as (? & ? & _ & Ew). by injection Ew as <- _.
Qed.

Lemma stage_all_gives pending acts : Forall spares pending -> Forall act_spares acts ->
  gives in_place in_place
    (fold_each (fun activations d => a ← stage_checkout d; mret (activations ++ [a])) pending acts) (fun l _ => Forall act_spares l).
Proof.
  intros Hd. revert acts. induction Hd as [|d l Hd _ IH]; intros acts Ha; cbn [fold_each]; [by apply gives_ret|].
  eapply (gives_bind _ _ _ (fun l _ => Forall act_spares l)).
  - eapply gives_bind; [by apply stage_gives|]. intros a. apply gives_ret. intros w [Hw Hs]. split; [done|].
    by apply Forall_app_2; [|apply Forall_singleton].
  - intros acts' w [Hw Ha']. by apply IH.
Qed.

Lemma activate_one_keeps a : act_spares a -> keeps in_place (activate_one (W := W) a).
Proof.
  intros (Hd & Hs & Hb & Hsd & Hdb). unfold activate_one. apply keeps_bind; [by apply in_place_remove|]. intros _.
  apply keeps_bind; [apply keeps_gets|]. intros []; (apply keeps_bind; [|intros _; apply keeps_bind; [by apply in_place_rename|]];
    [by first [apply in_place_rename|apply keeps_ret]|intros _; apply in_place_sync]).
Qed.

Context (tx : path) (Htx : apart u tx) (Hpart : apart u (with_extension tx "transaction.part")).
Context (Htp : apart (with_extension tx "transaction.part") tx).

Lemma activation_keeps acts : Forall act_spares acts ->
  keeps in_place (_ ← write_transaction (W := W) tx acts; finish_activation tx acts).
Proof.
  intros Ha. assert (forall a, a ∈ acts -> act_spares a) as Hall by by apply Forall_forall.
  unfold write_transaction, finish_activation. apply keeps_bind; [|intros _].
  - apply keeps_bind; [by apply in_place_write|]. intros _. apply keeps_bind; [by apply in_place_rename|]. intros _. apply in_place_sync.
  - apply keeps_bind; [apply keeps_for_each; intros a Hin; by apply activate_one_keeps, Hall|]. intros _.
    apply keeps_bind; [apply keeps_for_each; intros a Hin; apply in_place_remove; by apply Hall|]. intros _.
    apply keeps_bind; [apply keeps_io_step; by apply in_place_remove_file|]. intros _. apply in_place_sync.
Qed.

Lemma deploy_keeps sources ds w : outside_repo u -> in_place w ->
  (forall d, d ∈ ds -> force d || negb (checkout_matches w (deployment_destination d) (checksum d)) = true -> spares d) ->
  in_place (deploy_from_sources tx sources ds w).2.
Proof.
  intros Hrepo Hw Hds. unfold deploy_from_sources. rewrite gets_bind.
  set (pending := List.filter _ ds).
  assert (Forall spares pending) as Hp.
  { apply Forall_forall. intros d (Hin & Hf)%list_elem_of_In%filter_In. by apply Hds; [apply list_elem_of_In|]. }
  clearbody pending. clear Hds. revert w Hw. case_bool_decide; [apply keeps_ret|].
  apply keeps_bind.
  { apply keeps_for_each. intros source _. apply keeps_if; [apply keeps_ret|]. unfold pull_exact. apply keeps_bind.
    - apply keeps_io_step. intros w Hw. unfold in_place. by rewrite pull_content.
    - intros _. apply keeps_for_each. intros sum _. apply keeps_io_step. intros w Hw. unfold in_place. by rewrite fsck_content. }
  intros _. apply keeps_if; [apply keeps_lift|]. apply gives_keeps. eapply gives_bind; [by apply stage_all_gives|].
  intros acts w [Hw Ha]. split; [by apply activation_keeps|done].
Qed.
End Spared.

Lemma forced_dir_is_fresh `{HostFs W} pid (w : W) fuel base commit p : name_ok commit ->
  generation_checkout_dir pid w fuel base commit true = Some p ->
  path_exists w p = false /\ exists n, name_ok n /\ p = join_path base n.
Proof.
  intros Hc. unfold generation_checkout_dir. cbn [negb orb]. destruct (path_exists w (join_path base commit)) eqn:E; cbn [negb].
  - destruct (first_free_cases pid w base commit fuel 0) as [(k & -> & Hk)|[-> _]]; [|done]. intros [= <-].
    split; [done|]. eexists. split; [by apply repair_name_ok|done].
  - intros [= <-]. split; [done|]. by exists commit.
Qed.

(** C15.  A forced repair leaves every deployment alone: whatever becomes of it,
    a deployment that was there keeps its contents, in the family that is
    repaired as in any other, when each of the deployments goes to the directory
    that was found for a repair, or is there and complete already. *)
Theorem repair_spares_deployments `{DeployFiles W T} pid fuel tx sources ds u (t : T) (w w' : W) r :
  content w u = Some t -> outside_repo u -> apart u tx ->
  apart u (with_extension tx "transaction.part") -> apart (with_extension tx "transaction.part") tx ->
  Forall (fun d => has "/" (checksum d) = false /\
    (force d = false /\ checkout_matches w (deployment_destination d) (checksum d) = true \/
     exists base commit, is_absolute base = true /\ name_ok commit /\
       generation_checkout_dir pid w fuel base commit true = Some (deployment_destination d) /\
       (apart u base \/ exists n, name_ok n /\ starts_with "." n = false /\ u = join_path base n))) ds ->
  deploy_from_sources tx sources ds w = (r, w') -> content w' u = Some t.
Proof.
  intros Hu Hrepo Htx Hpart Htp Hds E. pose proof (deploy_keeps u t tx Htx Hpart Htp sources ds w Hrepo Hu) as Hk.
  rewrite E in Hk. apply Hk. clear E Hk. intros d Hin Hpend. rewrite Forall_forall in Hds.
  destruct (Hds d Hin) as (Hc & [[Hf Hm]|(base & commit & Hb & Hok & Hdir & Hwhere)]); [by rewrite Hf, Hm in Hpend|].
  destruct (forced_dir_is_fresh _ _ _ _ _ _ Hok Hdir) as (Hfresh & n & Hn & Hd).
  exists base, n. split_and!; [done..|]. intros m q Hm Hq. destruct Hwhere as [Ha|(k & Hk & Hhid & ->)].
  - by eapply apart_below.
  - pose proof (components_join_name base k (absolute_nonempty _ Hb) Hk) as Ek.
    eapply components_apart; [exact Ek|exact Hq|]. intros [= ->]. destruct Hm as [->|Hm]; [|congruence].
    rewrite Hd in Hfresh. assert (path_exists w (join_path base n) = true) as He by (apply exists_content; by eexists). congruence.
Qed.

(** ** A concrete repair: the commit's own directory is taken *)

Definition example_family : path := "/data/apps/org.example.App".
Definition taken_disk : Flat := {[components "/data/apps/org.example.App/c1" := "pinned"]}.

Lemma deployment_dir_is_fresh_witness :
  exists p, generation_checkout_dir 7 taken_disk 2 example_family "c1" true = Some p /\
    p = "/data/apps/org.example.App/c1.repair-7-0" /\ path_exists taken_disk p = false.
Proof.
  destruct (deployment_dir_is_fresh 7 taken_disk example_family "c1" 2 [components "/data/apps/org.example.App/c1"] true)
    as (p & Hp & _ & Hf & _); [done|done| |cbn; lia|].
  - intros p Hp%bool_decide_eq_true. destruct (decide (components p = components "/data/apps/org.example.App/c1")) as [->|Hne]; [left|].
    unfold taken_disk in Hp. rewrite lookup_singleton_ne in Hp by done. by destruct Hp.
  - exists p. split; [done|]. split; [|by apply Hf]. vm_compute in Hp. by injection Hp.
Defined.

#[export] Instance flat_deploys : @DeployFiles Flat string _ _ example_storage (flat_content example_trouble).
Proof.
  unshelve refine (Build_DeployFiles _ _ _ _ _ _ (fun _ => True) _ _ _ _); cbn; try done.
  intros p sum w q Hq%apart_ne. by rewrite lookup_insert_ne.
Defined.

Lemma repair_spares_deployments_witness :
  let d := mkDeployment "flathub" "application" "app/org.example.App/x86_64/stable" "c1"
             "/data/apps/org.example.App/c1.repair-7-0" true in
  exists r w', deploy_from_sources example_tx [mkSource "flathub" "SUMMARY"] [d] taken_disk = (r, w') /\
    w' !! components "/data/apps/org.example.App/c1" = Some "pinned".
Proof.
  intros d. destruct (deploy_from_sources example_tx [mkSource "flathub" "SUMMARY"] [d] taken_disk) as [r w'] eqn:E.
  exists r, w'. split; [done|].
  refine (repair_spares_deployments (H1 := flat_content example_trouble) 7 2 example_tx [mkSource "flathub" "SUMMARY"] [d]
    "/data/apps/org.example.App/c1" "pinned" taken_disk w' r _ _ _ _ _ _ E).
  - vm_compute. reflexivity.
  - exact I.
  - apply (bool_decide_unpack _). vm_compute. exact I.
  - apply (bool_decide_unpack _). vm_compute. exact I.
  - apply (bool_decide_unpack _). vm_compute. exact I.
  - constructor; [|constructor]. split; [done|]. right. exists example_family, "c1". split_and!; [done|done|vm_compute; reflexivity|].
    right. exists "c1". done.
Defined.
