(* ===== verification/Reconciliation.v ===== *)
(** * Reconciliation: the extensions that the installed applications require
    (src/src/extensions/reconciliation.rs)

    From the metadata of each application and of its runtime follow the
    extensions it requires; each is deployed from the remote it came from, or
    else from the preferred or the first remote that lists it.  The theorems say
    which extensions are required, that the choice of a remote is the first in
    that order, and that every deployment names a remote whose summary goes
    along with what that remote lists. *)
From Stdlib Require Import Ascii String NArith ZArith Lia Sorted.
From stdpp Require Import base list strings sets.
From S2P Require Import Prelude Effects Collections RustStr RustPath HostFs InstallationPaths Records ExtensionPoints RemoteConfig CheckoutActivation RefResolution OstreeRepository MetadataLock MetadataCache ApplicationInstallation.

Record RequiredExtension := mkRequired { re_ref : string; re_preferred_origin : string; re_optional : bool }.
Record CachedRemote := mkCached { cr_metadata : RemoteMetadata; cr_summary : string }.
Record ResolvedExtension := mkResolved {
  rx_requirement : RequiredExtension; rx_origin : string; rx_checksum : string; rx_destination : path;
  rx_explicitly_installed : bool }.

(** ** What is required *)

Definition autodownload_enabled (p : ExtensionPoint) (ref_name : string) (facts : ExtensionFacts) : bool :=
  let n := match strip_prefix "runtime/" ref_name with
           | Some partial => default "" (head (split "/" partial))
           | None => ""
           end in
  if ends_with ".Debug" (name p) then false
  else if ends_with ".Locale" (name p) then true
  else if negb (bool_decide (download_if p = [])) then matches_any facts (download_if p) n
  else negb (no_autodownload p).

Definition validate_declaration (p : ExtensionPoint) : result unit :=
  match directory p with
  | None => Ok tt
  | Some d =>
      if negb (valid_relative_extension_path d) then bail (fmt ["invalid extension directory: "; debug_str d])
      else
        _ ← match subdirectory_suffix p with
            | Some suffix =>
                if negb (valid_relative_extension_path suffix)
                then bail (fmt ["invalid extension subdirectory suffix: "; debug_str suffix]) else Ok tt
            | None => Ok tt
            end;
        fold_result (fun _ merge_dir =>
          if negb (valid_relative_extension_path merge_dir)
          then bail (fmt ["invalid extension merge directory: "; debug_str merge_dir]) else Ok tt) (merge_dirs p) tt
  end.

Definition by_ref (l : list RequiredExtension) : list RequiredExtension :=
  dedup (fun l r => String.eqb (re_ref l) (re_ref r)) (sort_by (on re_ref) l).

Section Metadata.
Context (facts : ExtensionFacts) (available installed : list string).

(** The body of the loop over the refs of the extension points. *)
Definition require_ref (points : list ExtensionPoint) (parent : ExtensionParent) (preferred_origin : string)
    (requirements : list RequiredExtension) (ref_name : string) : result (list RequiredExtension) :=
  match point_for_ref points parent ref_name with
  | None => Ok requirements
  | Some p =>
      if negb (bs_contains ref_name installed) && negb (autodownload_enabled p ref_name facts) then Ok requirements
      else
        _ ← validate_declaration p;
        Ok (requirements ++ [mkRequired ref_name preferred_origin (negb (bool_decide (download_if p = [])) || no_autodownload p)])
  end.

Definition required_from_metadata (metadata : string) (parent : ExtensionParent) (preferred_origin : string)
  : result (list RequiredExtension) :=
  let points := parse_extension_points metadata in
  requirements ← fold_result (require_ref points parent preferred_origin) (resolve_extension_refs points parent available) [];
  Ok (by_ref requirements).
End Metadata.

(** ** Which remote *)

(** [origins.retain(|origin| seen.insert(origin))]. *)
Definition candidate_origins (existing : option RuntimeRecord) (preferred : string) (enabled_names : list string) : list string :=
  dedup_seen [] (option_list (rt_origin <$> existing) ++ preferred :: enabled_names).

(** [find_map] over the origins. *)
Fixpoint select_origin (cache : list (string * CachedRemote)) (ref_name : string) (origins : list string)
  : option (string * string) :=
  match origins with
  | [] => None
  | origin :: rest =>
      match bm_get origin cache ≫= fun r => ref_checksum (cr_metadata r) ref_name with
      | Some checksum => Some (origin, checksum)
      | None => select_origin cache ref_name rest
      end
  end.

Definition unavailable_message (unavailable : list (string * string)) (ref_name : string) : string :=
  let failures := join "; " (map (fun f => fmt [f.1; ": "; f.2]) unavailable) in
  if is_empty failures then fmt ["ref is not present in an enabled remote: "; ref_name]
  else fmt ["ref is not present in available remote metadata: "; ref_name; " ("; failures; ")"].

Definition runtime_of_ref (ref_name : string) : option string := strip_prefix "runtime/" ref_name.

Section Reconcile.
Context {W : Type} `{CacheWorld W} `{!RemoteWorld W} `{!Libostree W} `{!StorageOps W}.
Context (pid : N) (next_sequence : M W N) (fuel : nat).
(** [ExtensionFacts::detect] with the desktop's theme. *)
Context (detect_facts : W -> ExtensionFacts).

Definition required_for_app (i : Installation) (a : AppRecord) (available : list string) (facts : ExtensionFacts)
    (installed : list string) : M W (list RequiredExtension) :=
  let dir := absolute_data_path i (app_dir a) in
  runtime ← get_runtime i (app_runtime_ref a);
  let rdir := match runtime with
              | Some r => absolute_data_path i (runtime_dir r)
              | None => absolute_data_path i (app_runtime_dir a)
              end in
  let runtime_metadata_path := join_path rdir "metadata" in
  runtime_metadata ← getr (fun w : W =>
    io_context (fmt ["read runtime metadata "; runtime_metadata_path]) (read_to_string w runtime_metadata_path));
  runtime_parent ← lift (parent_from_ref (app_runtime_ref a));
  of_runtime ← lift (required_from_metadata facts available installed runtime_metadata runtime_parent (runtime_origin a));
  let app_metadata_path := join_path dir "metadata" in
  app_metadata ← getr (fun w : W =>
    io_context (fmt ["read app metadata "; app_metadata_path]) (read_to_string w app_metadata_path));
  app_parent ← lift (parent_from_ref (app_ref a));
  of_app ← lift (required_from_metadata facts available installed app_metadata app_parent (app_origin a));
  mret (by_ref (of_runtime ++ of_app)).

Definition runtime_checkout_is_valid (i : Installation) (r : RuntimeRecord) (w : W) : bool :=
  let d := absolute_data_path i (runtime_dir r) in is_dir w d && is_dir w (join_path d "files").

(** [None]: the ref is no runtime's (the code panics) or the search for a
    directory is at no end. *)
Definition runtime_destination (i : Installation) (ref_name origin checksum : string) (existing : option RuntimeRecord)
    (force : bool) (w : W) : option (path * bool) :=
  let fresh :=
    partial_ref ← runtime_of_ref ref_name;
    dir ← generation_checkout_dir pid w fuel (join_path (runtimes i) (runtime_checkout_dir partial_ref)) checksum force;
    Some (dir, match existing with Some r => explicitly_installed r | None => false end) in
  match existing with
  | Some r =>
      if String.eqb (rt_origin r) origin && String.eqb (runtime_commit r) checksum && runtime_checkout_is_valid i r w
      then Some (absolute_data_path i (runtime_dir r), explicitly_installed r)
      else fresh
  | None => fresh
  end.

(** The body of the loop over the requirements. *)
Definition resolve_requirement (i : Installation) (force : bool) (enabled_names : list string)
    (cache : list (string * CachedRemote)) (unavailable : list (string * string))
    (installed_by_ref : list (string * RuntimeRecord)) (w : W)
    (resolved : list ResolvedExtension) (requirement : RequiredExtension) : result (option (list ResolvedExtension)) :=
  let existing := bm_get (re_ref requirement) installed_by_ref in
  let origins := candidate_origins existing (re_preferred_origin requirement) enabled_names in
  match select_origin cache (re_ref requirement) origins with
  | None =>
      if match existing with Some r => runtime_checkout_is_valid i r w | None => false end || re_optional requirement
      then Ok (Some resolved)
      else bail (unavailable_message unavailable (re_ref requirement))
  | Some (origin, checksum) =>
      match runtime_destination i (re_ref requirement) origin checksum existing force w with
      | None => Ok None
      | Some (destination, explicit) =>
          Ok (Some (resolved ++ [mkResolved requirement origin checksum destination explicit]))
      end
  end.
Fixpoint resolve_requirements (i : Installation) (force : bool) (enabled_names : list string)
    (cache : list (string * CachedRemote)) (unavailable : list (string * string))
    (installed_by_ref : list (string * RuntimeRecord)) (w : W)
    (resolved : list ResolvedExtension) (l : list RequiredExtension) : result (option (list ResolvedExtension)) :=
  match l with
  | [] => Ok (Some resolved)
  | r :: rest =>
      found ← resolve_requirement i force enabled_names cache unavailable installed_by_ref w resolved r;
      match found with
      | None => Ok None
      | Some resolved => resolve_requirements i force enabled_names cache unavailable installed_by_ref w resolved rest
      end
  end.

Definition load_cached (load : M W RemoteMetadata) : M W CachedRemote :=
  metadata ← load;
  summary ← read_file (fmt ["read "; md_summary_path metadata]) (md_summary_path metadata);
  mret (mkCached metadata summary).

(** The loop over the enabled remotes: what is cached, and why a remote is not. *)
Definition load_remote (i : Installation) (st : list (string * CachedRemote) * list (string * string)) (origin : string)
  : M W (list (string * CachedRemote) * list (string * string)) :=
  let (cache, unavailable) := st in
  match bm_get origin cache with
  | Some _ => mret (cache, unavailable)
  | None =>
      loaded ← catch (load_cached (load_remote_metadata i origin));
      mret (match loaded with
            | Ok remote => (bm_insert origin remote cache, unavailable)
            | Err e => (cache, bm_insert origin (chain e) unavailable)
            end)
  end.

Definition runtime_ref_of (r : RuntimeRecord) : string := fmt ["runtime/"; runtime_ref r].
Definition available_refs (cache : list (string * CachedRemote)) (installed : list RuntimeRecord) : list string :=
  bs_extend
    (bs_of_list (List.filter (starts_with "runtime/")
       (flat_map (fun c => map ri_ref_name (list_refs (cr_metadata c.2))) cache)))
    (map runtime_ref_of installed).

(** [entry(ref).or_insert(requirement)] for the requirements of an application. *)
Definition add_requirements (m : list (string * RequiredExtension)) (l : list RequiredExtension)
  : list (string * RequiredExtension) :=
  fold_left (fun m r => match bm_get (re_ref r) m with Some _ => m | None => bm_insert (re_ref r) r m end) l m.

Definition extension_sources (cache : list (string * CachedRemote)) (resolved : list ResolvedExtension) : list RemoteSource :=
  omap (fun origin => (fun c => mkSource origin (cr_summary c)) <$> bm_get origin cache) (bs_of_list (map rx_origin resolved)).
Definition extension_deployment (force : bool) (x : ResolvedExtension) : Deployment :=
  mkDeployment (rx_origin x) "runtime" (re_ref (rx_requirement x)) (rx_checksum x) (rx_destination x) force.

Definition record_extension (i : Installation) (x : ResolvedExtension) : M W unit :=
  partial_ref ← lift (ok_or "extension payload is a runtime ref" (runtime_of_ref (re_ref (rx_requirement x))));
  size ← getr (installed_size (rx_checksum x));
  relative ← lift (relative_data_path i (rx_destination x));
  write_runtime pid next_sequence i
    (mkRuntime (rx_origin x) partial_ref (rx_checksum x) size (rx_explicitly_installed x) relative).

(** Deploying and recording what was resolved. *)
Definition install_resolved (i : Installation) (force : bool) (cache : list (string * CachedRemote))
    (resolved : list ResolvedExtension) : M W unit :=
  _ ← storage_open i;
  _ ← deploy_from_sources (storage_transaction i) (extension_sources cache resolved) (map (extension_deployment force) resolved);
  _ ← for_each (record_extension i) resolved;
  reconcile_runtime_bindings pid next_sequence i.

Definition reconcile_extensions_with_metadata (i : Installation) (apps : list AppRecord) (force : bool)
    (preloaded : list RemoteMetadata) : M W (option unit) :=
  if bool_decide (apps = []) then mret (Some tt)
  else
    remotes ← getr (enabled_remotes i);
    let enabled_names := map r_name (sort_by (on remote_order) remotes) in
    cache ← fold_each (fun cache metadata =>
              cached ← load_cached (mret metadata);
              mret (bm_insert (r_name (md_remote metadata)) cached cache)) preloaded [];
    loaded ← fold_each (load_remote i) enabled_names (cache, []);
    let cache := loaded.1 in let unavailable := loaded.2 in
    installed ← list_runtimes i;
    let available := available_refs cache installed in
    facts ← gets detect_facts;
    let installed_refs := bs_of_list (map runtime_ref_of installed) in
    requirements ← fold_each (fun m a =>
        l ← required_for_app i a available facts installed_refs; mret (add_requirements m l)) apps [];
    if bool_decide (requirements = []) then mret (Some tt)
    else
      let installed_by_ref := fold_left (fun m r => bm_insert (runtime_ref_of r) r m) installed [] in
      resolved ← getr (fun w =>
        resolve_requirements i force enabled_names cache unavailable installed_by_ref w [] requirements.*2);
      match resolved with
      | None => mret None
      | Some resolved =>
          if bool_decide (resolved = []) then mret (Some tt)
          else Some <$> install_resolved i force cache resolved
      end.

Definition reconcile_extensions (i : Installation) (apps : list AppRecord) (force : bool) : M W (option unit) :=
  reconcile_extensions_with_metadata i apps force [].
End Reconcile.

(** ** What is required, exactly *)

Lemma string_eqb_of (a b : string) : String.eqb a b = eqb_of a b.
Proof.
  destruct (eqb_of a b) eqn:E; [apply eqb_of_true in E as ->; apply String.eqb_refl|].
  apply String.eqb_neq. intros ->. by rewrite (proj2 (eqb_of_true b b)) in E.
Qed.

Lemma by_ref_eq l : by_ref l = dedup (fun a b => eqb_of (re_ref a) (re_ref b)) (sort_by (on re_ref) l).
Proof. apply dedup_ext. intros a b. apply string_eqb_of. Qed.

Lemma by_ref_strict l : StronglySorted lt_of (map re_ref (by_ref l)).
Proof. rewrite by_ref_eq. apply dedup_key_strict. Qed.

Lemma elem_of_by_ref l r : (forall a b, a ∈ l -> b ∈ l -> re_ref a = re_ref b -> a = b) -> r ∈ by_ref l <-> r ∈ l.
Proof.
  intros Hinj. rewrite by_ref_eq. split.
  - intros Hr%elem_of_dedup_1. by apply elem_of_sort_by in Hr.
  - intros Hr. pose proof (proj2 (elem_of_sort_by (on re_ref) r l) Hr) as Hs.
    destruct (elem_of_dedup_key re_ref _ _ Hs) as (s & Hs2 & E). replace r with s; [done|].
    apply Hinj; [|done|done]. apply elem_of_dedup_1 in Hs2. by apply elem_of_sort_by in Hs2.
Qed.

Section Exact.
Context (facts : ExtensionFacts) (available installed : list string).

Definition is_optional (p : ExtensionPoint) : bool := negb (bool_decide (download_if p = [])) || no_autodownload p.

(** A ref is wanted when it is installed or the point that owns it downloads it. *)
Definition wanted (points : list ExtensionPoint) (parent : ExtensionParent) (preferred ref_name : string)
    (r : RequiredExtension) : Prop :=
  exists p, point_for_ref points parent ref_name = Some p /\ validate_declaration p = Ok tt /\
    (ref_name ∈ installed \/ autodownload_enabled p ref_name facts = true) /\
    r = mkRequired ref_name preferred (is_optional p).

Lemma require_ref_adds points parent preferred s ref_name s' :
  require_ref facts installed points parent preferred s ref_name = Ok s' ->
  forall r, r ∈ s' <-> r ∈ s \/ wanted points parent preferred ref_name r.
Proof.
  unfold require_ref, wanted. destruct (point_for_ref points parent ref_name) as [p|] eqn:Ep.
  2:{ intros [= <-] r. split; [by left|]. by intros [?|(p & [=] & _)]. }
  destruct (negb (bs_contains ref_name installed) && _) eqn:Ew.
  - intros [= <-] r. split; [by left|]. intros [?|(q & [= <-] & _ & Hw & _)]; [done|].
    apply andb_true_iff in Ew as [Hi%negb_true_iff Ha%negb_true_iff].
    destruct Hw as [Hw%bs_contains_true|Hw]; congruence.
  - intros ([] & Hv & E)%bind_ok r. injection E as <-. rewrite elem_of_app, list_elem_of_singleton.
    assert (ref_name ∈ installed \/ autodownload_enabled p ref_name facts = true) as Hw.
    { rewrite <- bs_contains_true. destruct (bs_contains ref_name installed); [by left|].
      destruct (autodownload_enabled p ref_name facts); [by right|done]. }
    split; (intros [Hr|Hr]; [by left|right]).
    + by exists p.
    + by destruct Hr as (q & [= <-] & _ & _ & ->).
Qed.

(** C30.  The extensions that the metadata of an application or runtime requires
    are exactly the refs its extension points resolve to that are installed
    already or that their point wants downloaded; each occurs once, in order, with
    the preferred origin, is optional exactly when the point's download is
    conditional or not automatic, and its point's declaration is valid. *)
Theorem requirements_are_exact metadata parent preferred reqs :
  required_from_metadata facts available installed metadata parent preferred = Ok reqs ->
  let points := parse_extension_points metadata in
  StronglySorted lt_of (map re_ref reqs) /\
  forall r, r ∈ reqs <-> re_ref r ∈ resolve_extension_refs points parent available /\ wanted points parent preferred (re_ref r) r.
Proof.
  intros E points. unfold required_from_metadata in E. fold points in E. apply bind_ok in E as (l & Hl & [= <-]). split; [apply by_ref_strict|].
  assert (forall r, r ∈ l <-> False \/ exists n, n ∈ resolve_extension_refs points parent available /\
    wanted points parent preferred n r) as Hc.
  { eapply (fold_result_collect (fun s P => forall r, r ∈ s <-> P r) (wanted points parent preferred)); [| | |exact Hl].
    - intros s P Q HPQ HP r. etransitivity; [apply HP|apply HPQ].
    - intros s n s' P _ HP Es r. rewrite (require_ref_adds _ _ _ _ _ _ Es). specialize (HP r). tauto.
    - intros r. split; [by intros ?%elem_of_nil|done]. }
  assert (forall n r, wanted points parent preferred n r -> n = re_ref r) as Href by (intros n r (p & _ & _ & _ & ->); done).
  intros r. rewrite elem_of_by_ref.
  - rewrite Hc. split; [intros [[]|(n & Hn & Hw)]|intros [Hn Hw]; right; eauto]. by rewrite <- (Href _ _ Hw).
  - intros a b [[]|(n & _ & Ha)]%Hc [[]|(m & _ & Hb)]%Hc E.
    pose proof (Href _ _ Ha). pose proof (Href _ _ Hb). destruct Ha as (p & Hp & _ & _ & ->), Hb as (q & Hq & _ & _ & ->).
    cbn in *. subst m. congruence.
Qed.
End Exact.

(** ** The choice of a remote *)

Section Choice.
Context (cache : list (string * CachedRemote)).

Definition lists (origin ref_name checksum : string) : Prop :=
  exists r, bm_get origin cache = Some r /\ ref_checksum (cr_metadata r) ref_name = Some checksum.

Lemma lists_step origin ref_name checksum :
  (bm_get origin cache ≫= fun r => ref_checksum (cr_metadata r) ref_name) = Some checksum <-> lists origin ref_name checksum.
Proof.
  unfold lists. destruct (bm_get origin cache) as [r|]; cbn; split; eauto; [by intros (r' & [= <-] & ?)|done|by intros (? & ? & _)].
Qed.

Lemma select_origin_Some ref_name origins o c :
  select_origin cache ref_name origins = Some (o, c) <->
  exists l1 l2, origins = l1 ++ o :: l2 /\ lists o ref_name c /\ Forall (fun o' => forall c', ~ lists o' ref_name c') l1.
Proof.
  induction origins as [|o' rest IH]; cbn [select_origin].
  - split; [done|]. by intros ([|] & ? & ? & _).
  - destruct (_ ≫= _) as [c'|] eqn:E.
    + apply lists_step in E. split.
      * intros [= <- <-]. exists [], rest. by split_and!.
      * intros ([|x l1] & l2 & [= -> ->] & Hl & Hf).
        -- apply lists_step in E, Hl. by rewrite E in Hl; injection Hl as <-.
        -- apply Forall_cons in Hf as [Hf _]. by apply Hf in E.
    + rewrite IH. assert (forall c', ~ lists o' ref_name c') as Hn by (intros c' Hl%lists_step; congruence). split.
      * intros (l1 & l2 & -> & Hl & Hf). exists (o' :: l1), l2. split_and!; [done..|by constructor].
      * intros ([|x l1] & l2 & [= -> ->] & Hl & Hf); [by apply Hn in Hl|]. apply Forall_cons in Hf as [_ Hf]. eauto.
Qed.

Lemma select_origin_None ref_name origins :
  select_origin cache ref_name origins = None <-> Forall (fun o => forall c, ~ lists o ref_name c) origins.
Proof.
  induction origins as [|o rest IH]; cbn [select_origin]; [by split|]. destruct (_ ≫= _) as [c|] eqn:E.
  - apply lists_step in E. split; [done|]. intros [Hf _]%Forall_cons. by apply Hf in E.
  - rewrite IH, Forall_cons. split; [|by intros []]. intros Hf. split; [|done]. intros c Hl%lists_step. congruence.
Qed.

(** Removing the origins that repeat does not change the choice. *)
Lemma select_origin_dedup ref_name seen l : (forall o c, o ∈ seen -> ~ lists o ref_name c) ->
  select_origin cache ref_name (dedup_seen seen l) = select_origin cache ref_name l.
Proof.
  revert seen. induction l as [|o l IH]; intros seen Hs; cbn [dedup_seen select_origin]; [done|].
  destruct (bs_contains o seen) eqn:Eo.
  - apply bs_contains_true in Eo. destruct (_ ≫= _) as [c|] eqn:E; [by apply lists_step, (Hs _ _ Eo) in E|by apply IH].
  - cbn [select_origin]. destruct (_ ≫= _) as [c|] eqn:E; [done|]. apply IH. intros o' c [->|Ho]%elem_of_bs_insert; [|by apply Hs].
    intros Hl%lists_step. congruence.
Qed.

(** ** What is deployed *)

Context {W : Type} `{CacheWorld W} `{!RemoteWorld W} (pid : N) (fuel : nat).
Context (i : Installation) (force : bool) (enabled_names : list string) (unavailable : list (string * string))
  (installed_by_ref : list (string * RuntimeRecord)) (w : W).

(** The order in which remotes are asked for a requirement. *)
Definition preference (r : RequiredExtension) : list string :=
  option_list (rt_origin <$> bm_get (re_ref r) installed_by_ref) ++ re_preferred_origin r :: enabled_names.

(** Nothing is to be done for it: no remote lists it, and it is there or optional. *)
Definition left_out (r : RequiredExtension) : Prop :=
  Forall (fun o => forall c, ~ lists o (re_ref r) c) (preference r) /\
  (re_optional r = true \/ exists old, bm_get (re_ref r) installed_by_ref = Some old /\ runtime_checkout_is_valid i old w = true).

(** It is deployed from the first remote that lists it, as that remote lists it. *)
Definition resolved_as (r : RequiredExtension) (x : ResolvedExtension) : Prop :=
  rx_requirement x = r /\
  (exists l1 l2, preference r = l1 ++ rx_origin x :: l2 /\ lists (rx_origin x) (re_ref r) (rx_checksum x) /\
     Forall (fun o => forall c, ~ lists o (re_ref r) c) l1) /\
  rx_explicitly_installed x = match bm_get (re_ref r) installed_by_ref with Some old => explicitly_installed old | None => false end /\
  (forall old, bm_get (re_ref r) installed_by_ref = Some old -> rt_origin old = rx_origin x -> runtime_commit old = rx_checksum x ->
     runtime_checkout_is_valid i old w = true -> rx_destination x = absolute_data_path i (runtime_dir old)).

Lemma select_preference r o c :
  select_origin cache (re_ref r) (candidate_origins (bm_get (re_ref r) installed_by_ref) (re_preferred_origin r) enabled_names) = Some (o, c) <->
  select_origin cache (re_ref r) (preference r) = Some (o, c).
Proof. unfold candidate_origins. by rewrite select_origin_dedup by (by intros ?? ?%elem_of_nil). Qed.

Lemma destination_cases ref_name o c existing d e :
  runtime_destination pid fuel i ref_name o c existing force w = Some (d, e) ->
  e = match existing with Some old => explicitly_installed old | None => false end /\
  (forall old, existing = Some old -> rt_origin old = o -> runtime_commit old = c -> runtime_checkout_is_valid i old w = true ->
     d = absolute_data_path i (runtime_dir old)).
Proof.
  unfold runtime_destination. intros E.
  assert (forall fresh, (exists k, fresh = Some (k, match existing with Some old => explicitly_installed old | None => false end)) \/ fresh = None ->
     fresh = Some (d, e) -> e = match existing with Some old => explicitly_installed old | None => false end) as Hfresh
    by (intros fresh [[k ->]| ->] Ef; [by injection Ef|done]).
  assert (forall f : path -> path * bool, (exists k, (partial_ref ← runtime_of_ref ref_name; dir ← generation_checkout_dir pid w fuel
     (join_path (runtimes i) (runtime_checkout_dir partial_ref)) c force; Some (f dir)) = Some (f k)) \/
     (partial_ref ← runtime_of_ref ref_name; dir ← generation_checkout_dir pid w fuel
     (join_path (runtimes i) (runtime_checkout_dir partial_ref)) c force; Some (f dir)) = None) as Hf.
  { intros f. destruct (runtime_of_ref ref_name) as [pr|]; [|by right]. cbn [mbind option_bind].
    destruct (generation_checkout_dir _ _ _ _ _ _) as [k|]; [left; by exists k|by right]. }
  destruct existing as [old|].
  - destruct (String.eqb (rt_origin old) o && String.eqb (runtime_commit old) c && runtime_checkout_is_valid i old w) eqn:Et.
    + injection E as <- <-. split; [done|]. by intros ? [= <-].
    + split; [eapply Hfresh; [|exact E]; apply (Hf (fun dir => (dir, explicitly_installed old)))|].
      intros ? [= <-] <- <- Hv. by rewrite !String.eqb_refl, Hv in Et.
  - split; [|done]. eapply Hfresh; [|exact E]. apply (Hf (fun dir => (dir, false))).
Qed.

Lemma resolve_requirement_spec resolved r resolved' :
  resolve_requirement pid fuel i force enabled_names cache unavailable installed_by_ref w resolved r = Ok (Some resolved') ->
  left_out r /\ resolved' = resolved \/ exists x, resolved' = resolved ++ [x] /\ resolved_as r x.
Proof.
  unfold resolve_requirement.
  destruct (select_origin _ _ (candidate_origins _ _ _)) as [[o c]|] eqn:Es.
  - apply select_preference, select_origin_Some in Es.
    destruct (runtime_destination _ _ _ _ _ _ _ _ _) as [[d e]|] eqn:Ed; [|done]. intros [= <-].
    apply destination_cases in Ed as [-> Hd]. right. eexists. split; [reflexivity|]. by repeat split.
  - assert (Forall (fun o => forall c, ~ lists o (re_ref r) c) (preference r)) as Hnone.
    { apply select_origin_None. destruct (select_origin cache (re_ref r) (preference r)) as [[o c]|] eqn:E; [|done].
      apply select_preference in E. congruence. }
    destruct (_ || re_optional r) eqn:Eo; [|done]. intros [= <-]. left. split; [|done]. split; [done|].
    apply orb_true_iff in Eo as [Eo|Eo]; [right|by left]. destruct (bm_get _ installed_by_ref) as [old|]; [by exists old|done].
Qed.

Lemma resolve_requirements_spec l resolved resolved' :
  resolve_requirements pid fuel i force enabled_names cache unavailable installed_by_ref w resolved l = Ok (Some resolved') ->
  (forall r, r ∈ l -> left_out r \/ exists x, x ∈ resolved' /\ resolved_as r x) /\
  (forall x, x ∈ resolved' -> x ∈ resolved \/ exists r, r ∈ l /\ resolved_as r x) /\
  resolved ⊆ resolved'.
Proof.
  revert resolved. induction l as [|r l IH]; intros resolved; cbn [resolve_requirements].
  - intros [= <-]. split; [by intros r ?%elem_of_nil|]. split; [by left|done].
  - intros (o & Ho & E)%bind_ok. destruct o as [mid|]; [|done].
    apply IH in E as (Hl & Hx & Hsub). apply resolve_requirement_spec in Ho as [[Hout ->]|(x & -> & Hr)].
    + split; [|split; [|done]].
      * intros r' [->|Hr']%elem_of_cons; [by left|by apply Hl].
      * intros y Hy. destruct (Hx y Hy) as [?|(r' & ? & ?)]; [by left|right]. exists r'. split; [by right|done].
    + assert (x ∈ resolved') as Hin by (apply Hsub, elem_of_app; right; by left). split; [|split].
      * intros r' [->|Hr']%elem_of_cons; [right; by exists x|by apply Hl].
      * intros y Hy. destruct (Hx y Hy) as [[?| ->%list_elem_of_singleton]%elem_of_app|(r' & ? & ?)]; [by left| |].
        -- right. exists r. split; [left|done].
        -- right. exists r'. split; [by right|done].
      * intros y Hy. apply Hsub, elem_of_app. by left.
Qed.

(** C25.  Nothing that is required is dropped silently and nothing else is
    deployed: each requirement is deployed from the first remote that lists it
    (the one it came from, the preferred one, then the enabled ones), with the
    commit that remote lists, unless no remote lists it and it is optional or
    there already; what was installed explicitly stays so, what has not changed
    stays where it is, and the summary of every remote that is used goes along. *)
Theorem reconciliation_follows_preference l resolved :
  resolve_requirements pid fuel i force enabled_names cache unavailable installed_by_ref w [] l = Ok (Some resolved) ->
  (forall r, r ∈ l -> left_out r \/ exists x, x ∈ resolved /\ resolved_as r x) /\
  (forall x, x ∈ resolved -> exists r c, r ∈ l /\ resolved_as r x /\
     bm_get (rx_origin x) cache = Some c /\ mkSource (rx_origin x) (cr_summary c) ∈ extension_sources cache resolved).
Proof.
  intros (Hl & Hx & _)%resolve_requirements_spec. split; [exact Hl|]. intros x Hin.
  destruct (Hx x Hin) as [?%elem_of_nil|(r & Hr & Has)]; [done|].
  pose proof Has as (_ & (l1 & l2 & _ & (c & Hc & _) & _) & _). exists r, c. split_and!; [done..|].
  unfold extension_sources. apply list_elem_of_omap. exists (rx_origin x). split; [|by rewrite Hc].
  apply elem_of_bs_of_list, list_elem_of_fmap. by exists x.
Qed.
End Choice.

(** ** A concrete runtime, and two remotes *)

Definition example_parent : ExtensionParent := mkParent "x86_64" "24.08".
Definition locale_ref : string := "runtime/org.example.Platform.Locale/x86_64/24.08".
Definition codec_ref : string := "runtime/org.example.Codec/x86_64/24.08".
Definition example_points : string := fmt (map end_line
  ["[Runtime]"; "name=org.example.Platform"; "[Extension org.example.Platform.Locale]"; "directory=share/locale";
   "[Extension org.example.Codec]"; "directory=lib/codec"; "no-autodownload=true";
   "[Extension org.example.Other]"; "directory=lib/other"; "no-autodownload=true"]).
Definition plain_facts : ExtensionFacts := mkFacts [] None false [] [].

Lemma requirements_are_exact_witness :
  let available := bs_of_list [locale_ref; codec_ref; "runtime/org.example.Other/x86_64/24.08"] in
  let reqs := [mkRequired codec_ref "flathub" true; mkRequired locale_ref "flathub" false] in
  required_from_metadata plain_facts available [codec_ref] example_points example_parent "flathub" = Ok reqs /\
  forall r, r ∈ reqs <->
    re_ref r ∈ resolve_extension_refs (parse_extension_points example_points) example_parent available /\
    wanted plain_facts [codec_ref] (parse_extension_points example_points) example_parent "flathub" (re_ref r) r.
Proof.
  intros available reqs. assert (required_from_metadata plain_facts available [codec_ref] example_points example_parent "flathub" = Ok reqs)
    as E by (vm_compute; reflexivity). split; [exact E|]. exact (proj2 (requirements_are_exact _ _ _ _ _ _ _ E)).
Defined.

(** The installed extension came from a remote that no longer lists it. *)
Definition listing_remote (n : string) (refs : list (string * string)) : CachedRemote :=
  mkCached (mkMetadata (mkRemote n "https://dl.example" None true true None) "x86_64"
    (map (fun r => mkRemoteRef r.1 r.2 None None None) refs) "/c" "/c/summary" None) (fmt ["SUMMARY of "; n]).
Definition example_cache : list (string * CachedRemote) :=
  [("beta", listing_remote "beta" []); ("flathub", listing_remote "flathub" [(locale_ref, "c2")])].
Definition example_old : RuntimeRecord := mkRuntime "beta" "org.example.Platform.Locale/x86_64/24.08" "c1" 0 true "runtimes/l/c1".

Lemma reconciliation_follows_preference_witness :
  let r := mkRequired locale_ref "flathub" false in
  let x := mkResolved r "flathub" "c2" "/d/runtimes/org.example.Platform.Locale-x86_64-24.08/c2" true in
  let i := mkInstallation "/s" "/d" "/c" "/r" "/v" "/l" "/x" in
  resolve_requirements 7 1 i false ["flathub"; "beta"] example_cache [] [(locale_ref, example_old)] (mkTree [] []) [] [r] = Ok (Some [x]) /\
  exists r' c, r' ∈ [r] /\
    resolved_as example_cache i ["flathub"; "beta"] [(locale_ref, example_old)] (mkTree [] []) r' x /\
    bm_get (rx_origin x) example_cache = Some c /\ mkSource (rx_origin x) (cr_summary c) ∈ extension_sources example_cache [x].
Proof.
  intros r x i. assert (resolve_requirements 7 1 i false ["flathub"; "beta"] example_cache [] [(locale_ref, example_old)]
    (mkTree [] []) [] [r] = Ok (Some [x])) as E by (vm_compute; reflexivity). split; [exact E|].
  apply (proj2 (reconciliation_follows_preference _ _ _ _ _ _ _ _ _ _ _ E)). by left.
Defined.
