(* ===== verification/LaunchRequest.v ===== *)
(** * LaunchRequest: what the setuid launcher is asked to do
    (src/src/secure_launch.rs: the request, its text and its wire form)

    The unprivileged program describes a launch on the command line of the
    helper; the nested client forwards the same request to a root daemon as one
    packet.  The lemmas say that a request that is accepted lies within the
    limits of the program, that the helper and the daemon see the request that
    was meant, and that the packet decoder never reads outside the packet. *)
From Stdlib Require Import Ascii String NArith ZArith Lia Sorting.Sorted.
From stdpp Require Import base list strings sets pretty.
From S2P Require Import Prelude Effects Collections RustStr RustNum RustPath HostFs.

Definition HELPER_PATH : string := "/usr/local/libexec/freebsd-flatpak/secure-launch".
Definition NESTED_CLIENT_PATH : string := "/usr/local/libexec/freebsd-flatpak/secure-launch-client".
Definition MAX_MAPPED_FDS : nat := 32.
Definition MAX_TARGET_FD : Z := 65535.
Definition MAX_ARGUMENTS : nat := 1024.
Definition MAX_ENVIRONMENT : nat := 512.
Definition MAX_NESTED_PACKET : N := 65536.

(** ** The request *)

Inductive JailMode := Direct | Sandbox | NoNetwork.
#[export] Instance jail_mode_eq_dec : EqDecision JailMode.
Proof. solve_decision. Defined.

Record Request := mkRequest {
  rq_root : path;
  rq_runtime_root : path;
  rq_root_device : Z;
  rq_root_inode : Z;
  rq_uid : Z;
  rq_gid : Z;
  rq_groups : list Z;
  rq_cwd : option string;
  rq_jail_mode : JailMode;
  rq_mapped_fds : list Z;
  rq_environment : list string;
  rq_argv : list string;
}.

(** The arguments still to be read are the state of the parser. *)
Abbreviation args_parser := (M (list string)) (only parsing).

Definition next_arg : args_parser (option string) := fun args =>
  match args with [] => (Ok None, []) | a :: r => (Ok (Some a), r) end.
Definition required (label : string) : args_parser string :=
  a ← next_arg; lift (ok_or (fmt ["missing "; label]) a).

(** [to_str], then [str::parse] of an integer type; the error of the standard
    library below the label is left out of the chain. *)
Definition parse_number (parse : string -> option Z) (label v : string) : result Z :=
  s ← ok_or (fmt [label; " is not UTF-8"]) (from_utf8 v);
  ok_or (fmt ["invalid "; label]) (parse s).

Definition parse_jail_mode (v : string) : result JailMode :=
  if String.eqb v "direct" then Ok Direct
  else if String.eqb v "sandbox" then Ok Sandbox
  else if String.eqb v "no-network" then Ok NoNetwork
  else bail "invalid launch isolation mode".

(** The values seen so far are the [HashSet] of the loop. *)
Fixpoint group_list (seen : list Z) (l : list string) : result (list Z) :=
  match l with
  | [] => Ok []
  | s :: r =>
      g ← ok_or "invalid supplementary group" (parse_u32 s);
      if bool_decide (g ∈ seen) then bail "duplicate supplementary group"
      else gs ← group_list (g :: seen) r; Ok (g :: gs)
  end.

Definition parse_groups (v : string) : result (list Z) :=
  s ← ok_or "supplementary groups are not UTF-8" (from_utf8 v);
  if is_empty s then Ok [] else group_list [] (split "," s).

Fixpoint any_bad_fd (seen fds : list Z) : bool :=
  match fds with
  | [] => false
  | fd :: r =>
      negb ((0 <=? fd)%Z && (fd <=? MAX_TARGET_FD)%Z) || bool_decide (fd ∈ seen) || any_bad_fd (fd :: seen) r
  end.

Definition parse_mapped_fds (v : string) : result (list Z) :=
  s ← ok_or "mapped file descriptors are not UTF-8" (from_utf8 v);
  if is_empty s then Ok []
  else
    fds ← map_result (fun fd => ok_or "invalid mapped file descriptor" (parse_i32 fd)) (split "," s);
    if (MAX_MAPPED_FDS <? length fds)%nat || any_bad_fd [] fds then bail "invalid mapped file descriptors" else Ok fds.

Definition validate_environment (entry : string) : result unit :=
  if starts_with "=" entry || negb (has "=" entry) then bail "invalid launch environment entry" else Ok tt.

Definition split_environment (entry : string) : option (string * string) := split_once "=" entry.

(** The loop that reads the environment's entries. *)
Fixpoint read_environment (n : nat) : args_parser (list string) :=
  match n with
  | O => mret []
  | S n =>
      entry ← required "environment entry";
      _ ← lift (validate_environment entry);
      rest ← read_environment n;
      mret (entry :: rest)
  end.

(** The rest of the arguments, which ends the reading. *)
Definition rest_args : args_parser (list string) := fun args => (Ok args, []).

Definition cwd_of_arg (v : string) : option string := if String.eqb v "-" then None else Some v.

Definition parse_args : args_parser Request :=
  _ ← next_arg;
  root ← required "sandbox root";
  runtime_root ← required "runtime root";
  root_device ← (v ← required "sandbox root device"; lift (parse_number parse_u64 "sandbox root device" v));
  root_inode ← (v ← required "sandbox root inode"; lift (parse_number parse_u64 "sandbox root inode" v));
  uid ← (v ← required "uid"; lift (parse_number parse_u32 "uid" v));
  gid ← (v ← required "gid"; lift (parse_number parse_u32 "gid" v));
  groups ← (v ← required "supplementary groups"; lift (parse_groups v));
  cwd ← required "working directory";
  jail_mode ← (v ← required "launch isolation mode"; lift (parse_jail_mode v));
  mapped_fds ← (v ← required "mapped file descriptors"; lift (parse_mapped_fds v));
  environment_count ← (v ← required "environment count"; lift (parse_number parse_u64 "environment count" v));
  if (Z.of_nat MAX_ENVIRONMENT <? environment_count)%Z then lift (bail "too many launch environment entries")
  else
    environment ← read_environment (Z.to_nat environment_count);
    separator ← next_arg;
    if negb (bool_decide (separator = Some "--")) then lift (bail "secure launch request is missing argument separator")
    else
      argv ← rest_args;
      if Nat.eqb (length argv) 0 || (MAX_ARGUMENTS <? length argv)%nat
      then lift (bail "invalid secure launch program arguments")
      else mret (mkRequest root runtime_root root_device root_inode uid gid groups (cwd_of_arg cwd) jail_mode
                   mapped_fds environment argv).

(** [Request::parse]. *)
Definition parse (args : list string) : result Request := (parse_args args).1.

(** ** Writing a request *)

Definition jail_mode_name (m : JailMode) : string :=
  match m with Direct => "direct" | Sandbox => "sandbox" | NoNetwork => "no-network" end.

Definition joined (l : list Z) : string := join "," (map show_Z l).

(** The arguments [command] and [Request::wire_arguments] both write. *)
Definition request_arguments (root runtime_root : path) (device inode uid gid : Z) (groups : list Z)
    (cwd : option string) (mode : JailMode) (fds : list Z) (environment argv : list string) : list string :=
  [root; runtime_root; show_Z device; show_Z inode; show_Z uid; show_Z gid; joined groups; default "-" cwd;
   jail_mode_name mode; joined fds; show_nat (length environment)] ++ environment ++ ["--"] ++ argv.

Definition wire_arguments (r : Request) : list string :=
  "secure-launch" :: request_arguments (rq_root r) (rq_runtime_root r) (rq_root_device r) (rq_root_inode r)
    (rq_uid r) (rq_gid r) (rq_groups r) (rq_cwd r) (rq_jail_mode r) (rq_mapped_fds r) (rq_environment r) (rq_argv r).

(** [LaunchRequest], without the descriptor that reports the start. *)
Record LaunchRequest := mkLaunchRequest {
  lr_root : path;
  lr_runtime_root : path;
  lr_uid : Z;
  lr_gid : Z;
  lr_groups : list Z;
  lr_mapped_fds : list Z;
  lr_cwd : option string;
  lr_nested_sandbox : bool;
  lr_no_network : bool;
  lr_environment : list (string * string);
  lr_argv : list string;
}.

Definition NUL : ascii := "000".

Definition environment_entry (e : string * string) : result string :=
  if is_empty e.1 || has "=" e.1 || has NUL e.1 || has NUL e.2 then bail "invalid launch environment entry"
  else Ok (fmt [e.1; "="; e.2]).

Definition mode_of (r : LaunchRequest) : JailMode :=
  if lr_no_network r then NoNetwork else if lr_nested_sandbox r then Sandbox else Direct.

(** [command]: the program and its arguments.  The identity of the sandbox root
    (device and inode) is read from the file system. *)
Definition command {W} `{HostFs W} (file_identity : W -> path -> result (Z * Z)) (r : LaunchRequest) (w : W)
  : result (string * list string) :=
  if Nat.eqb (length (lr_argv r)) 0 || (MAX_ARGUMENTS <? length (lr_argv r))%nat
     || (MAX_ENVIRONMENT <? length (lr_environment r))%nat || (MAX_MAPPED_FDS <? length (lr_mapped_fds r))%nat
  then bail "invalid secure launch request size"
  else
    root ← io_context (fmt ["canonicalize "; lr_root r]) (canonicalize w (lr_root r));
    runtime_root ← io_context (fmt ["canonicalize "; lr_runtime_root r]) (canonicalize w (lr_runtime_root r));
    identity ← file_identity w root;
    environment ← map_result environment_entry (lr_environment r);
    Ok (if lr_nested_sandbox r || lr_no_network r then NESTED_CLIENT_PATH else HELPER_PATH,
        request_arguments root runtime_root identity.1 identity.2 (lr_uid r) (lr_gid r) (lr_groups r) (lr_cwd r)
          (mode_of r) (lr_mapped_fds r) environment (lr_argv r)).

(** ** The packet *)

Abbreviation bytes := (list ascii) (only parsing).

(** [u32::to_be_bytes] and [u32::from_be_bytes]. *)
Definition to_be_bytes (n : N) : bytes :=
  [ascii_of_N (n / 16777216 mod 256); ascii_of_N (n / 65536 mod 256); ascii_of_N (n / 256 mod 256); ascii_of_N (n mod 256)].
Definition from_be_bytes (l : bytes) : N := fold_left (fun acc a => acc * 256 + N_of_ascii a)%N l 0%N.

(** [usize::checked_add] and [slice::get] of a range. *)
Definition checked_add (a b : N) : option N := if (a + b <? 2 ^ 64)%N then Some (a + b)%N else None.
Definition get_bytes (l : bytes) (from upto : N) : option bytes :=
  if (from <=? upto)%N && (upto <=? N.of_nat (length l))%N
  then Some (take (N.to_nat (upto - from)) (drop (N.to_nat from) l)) else None.

Definition take_wire_u32 (payload : bytes) (offset : N) : result (N * N) :=
  upto ← ok_or "nested request overflow" (checked_add offset 4);
  b ← ok_or "truncated nested request" (get_bytes payload offset upto);
  Ok (from_be_bytes b, upto).

(** The loop over the arguments of the packet. *)
Fixpoint take_arguments (n : nat) (payload : bytes) (offset : N) : result (list string * N) :=
  match n with
  | O => Ok ([], offset)
  | S n =>
      length_off ← take_wire_u32 payload offset;
      upto ← ok_or "nested argument overflow" (checked_add length_off.2 length_off.1);
      v ← ok_or "truncated nested argument" (get_bytes payload length_off.2 upto);
      if bool_decide (NUL ∈ v) then bail "invalid nested argument"
      else rest ← take_arguments n payload upto; Ok (string_of_list_ascii v :: rest.1, rest.2)
  end.

Definition MAGIC : N := 0x46534C4A.
Definition MAX_WIRE_ARGUMENTS : nat := MAX_ARGUMENTS + MAX_ENVIRONMENT + 16.

(** The part of [receive_nested_request] that reads the payload. *)
Definition decode_request (payload : bytes) : result (list string) :=
  magic ← take_wire_u32 payload 0;
  if negb (magic.1 =? MAGIC)%N then bail "invalid nested request"
  else
    count ← take_wire_u32 payload magic.2;
    if (count.1 =? 0)%N || (N.of_nat MAX_WIRE_ARGUMENTS <? count.1)%N then bail "invalid nested argument count"
    else
      args ← take_arguments (N.to_nat count.1) payload count.2;
      if negb (args.2 =? N.of_nat (length payload))%N then bail "trailing nested request data" else Ok args.1.

(** An argument of the packet, behind its length ([as u32] wraps). *)
Definition argument_bytes (a : string) : result bytes :=
  let v := list_ascii_of_string a in
  if bool_decide (NUL ∈ v) || (2 ^ 32 - 1 <? N.of_nat (length v))%N then bail "invalid nested argument"
  else Ok (to_be_bytes (N.of_nat (length v) mod 2 ^ 32) ++ v).

Definition nested_payload (args : list string) : result bytes :=
  ps ← map_result argument_bytes args;
  let payload := to_be_bytes MAGIC ++ to_be_bytes (N.of_nat (length args) mod 2 ^ 32) ++ concat ps in
  if (MAX_NESTED_PACKET <? N.of_nat (length payload))%N then bail "nested request too large" else Ok payload.

(** ** Lemmas: the packet *)

Lemma N_ascii_lt a : (N_of_ascii a < 256)%N.
Proof. apply N_ascii_bounded. Qed.

Lemma from_to_be n : (n < 2 ^ 32)%N -> from_be_bytes (to_be_bytes n) = n.
Proof.
  intros Hn. unfold from_be_bytes, to_be_bytes. cbn [fold_left].
  rewrite !N_ascii_embedding by (apply N.mod_lt; done). zify. Z.div_mod_to_equations. lia.
Qed.

Lemma to_from_be l : length l = 4%nat -> to_be_bytes (from_be_bytes l) = l /\ (from_be_bytes l < 2 ^ 32)%N.
Proof.
  destruct l as [|a [|b [|c [|d [|? ?]]]]]; try done. intros _. unfold from_be_bytes, to_be_bytes. cbn [fold_left].
  pose proof (N_ascii_lt a). pose proof (N_ascii_lt b). pose proof (N_ascii_lt c). pose proof (N_ascii_lt d).
  set (na := N_of_ascii a) in *. set (nb := N_of_ascii b) in *. set (nc := N_of_ascii c) in *. set (nd := N_of_ascii d) in *.
  set (v := ((((0 * 256 + na) * 256 + nb) * 256 + nc) * 256 + nd)%N).
  assert (v / 16777216 mod 256 = na)%N as ->. { subst v. zify. Z.div_mod_to_equations. lia. }
  assert (v / 65536 mod 256 = nb)%N as ->. { subst v. zify. Z.div_mod_to_equations. lia. }
  assert (v / 256 mod 256 = nc)%N as ->. { subst v. zify. Z.div_mod_to_equations. lia. }
  assert (v mod 256 = nd)%N as ->. { subst v. zify. Z.div_mod_to_equations. lia. }
  subst na nb nc nd. rewrite !ascii_N_embedding. split; [done|]. subst v. lia.
Qed.

(** The bytes between two offsets. *)
Definition reads (payload : bytes) (from : N) (v : bytes) (upto : N) : Prop :=
  upto = (from + N.of_nat (length v))%N /\ (upto <= N.of_nat (length payload))%N /\
  drop (N.to_nat from) payload = v ++ drop (N.to_nat upto) payload.

Lemma get_bytes_reads payload from upto v : get_bytes payload from upto = Some v <-> reads payload from v upto.
Proof.
  unfold get_bytes, reads. destruct (_ && _) eqn:E.
  - apply andb_true_iff in E as [E1%N.leb_le E2%N.leb_le]. split.
    + intros [= <-]. rewrite length_take, length_drop. split; [lia|]. split; [done|].
      rewrite <- (take_drop (N.to_nat (upto - from)) (drop (N.to_nat from) payload)) at 1. f_equal.
      rewrite drop_drop. f_equal. lia.
    + intros (H1 & H2 & H3). f_equal. rewrite H3. replace (N.to_nat (upto - from)) with (length v) by lia.
      by rewrite take_app_length.
  - split; [done|]. intros (H1 & H2 & H3). apply andb_false_iff in E as [E%N.leb_gt|E%N.leb_gt]; lia.
Qed.

Lemma reads_app payload a u b v c : reads payload a u b -> reads payload b v c -> reads payload a (u ++ v) c.
Proof.
  intros (H1 & H2 & H3) (H4 & H5 & H6). split; [rewrite length_app; lia|]. split; [done|].
  by rewrite H3, H6, app_assoc.
Qed.

Lemma reads_split payload a u v c :
  reads payload a (u ++ v) c -> reads payload a u (a + N.of_nat (length u)) /\ reads payload (a + N.of_nat (length u)) v c.
Proof.
  intros (H1 & H2 & H3). rewrite length_app in H1.
  assert (drop (N.to_nat (a + N.of_nat (length u))) payload = v ++ drop (N.to_nat c) payload) as Hd.
  { replace (N.to_nat (a + N.of_nat (length u))) with (N.to_nat a + length u)%nat by lia.
    rewrite <- drop_drop, H3, <- app_assoc. by rewrite drop_app_length. }
  split; (split; [lia|split; [lia|]]); [|done]. by rewrite Hd, H3, app_assoc.
Qed.

Lemma argument_bytes_Ok a p :
  argument_bytes a = Ok p <->
  NUL ∉ list_ascii_of_string a /\ (N.of_nat (length (list_ascii_of_string a)) < 2 ^ 32)%N /\
  p = to_be_bytes (N.of_nat (length (list_ascii_of_string a))) ++ list_ascii_of_string a.
Proof.
  unfold argument_bytes. set (v := list_ascii_of_string a). case_bool_decide as E; cbn [orb].
  - split; [done|]. by intros [? _].
  - destruct (N.ltb_spec (2 ^ 32 - 1) (N.of_nat (length v))).
    + split; [done|]. lia.
    + rewrite N.mod_small by lia. split; [intros [= <-]|intros (_ & _ & ->)]; auto with lia.
Qed.

Section Packet.
Context (payload : bytes) (small : (N.of_nat (length payload) < 2 ^ 64)%N).

Lemma checked_add_reads a v b : reads payload a v b -> checked_add a (N.of_nat (length v)) = Some b.
Proof. intros (-> & H & _). unfold checked_add. by rewrite (proj2 (N.ltb_lt _ _)) by lia. Qed.

Lemma take_wire_u32_Ok from n upto :
  take_wire_u32 payload from = Ok (n, upto) <-> (n < 2 ^ 32)%N /\ reads payload from (to_be_bytes n) upto.
Proof.
  unfold take_wire_u32. split.
  - intros Hr. inv_ok. apply get_bytes_reads in Hr1. simplify_eq.
    assert (length r0 = 4)%nat as Hl.
    { unfold checked_add in Hr0. destruct (_ <? _)%N; [|done]. destruct Hr1 as (H1 & _). simplify_eq. lia. }
    destruct (to_from_be r0 Hl) as [-> ?]. done.
  - intros [Hn Hr]. pose proof (checked_add_reads _ _ _ Hr) as Hc.
    change (N.of_nat (length (to_be_bytes n))) with 4%N in Hc. rewrite Hc. cbn [ok_or mbind result_bind].
    apply get_bytes_reads in Hr as ->. cbn [ok_or mbind result_bind]. by rewrite from_to_be.
Qed.

Lemma take_arguments_Ok n from args upto :
  (from <= N.of_nat (length payload))%N ->
  (take_arguments n payload from = Ok (args, upto) <->
   exists ps, map_result argument_bytes args = Ok ps /\ length args = n /\ reads payload from (concat ps) upto).
Proof.
  revert from args upto. induction n as [|n IH]; intros from args upto Hf; cbn [take_arguments].
  - split.
    + intros [= <- <-]. exists []. split; [done|]. split; [done|]. unfold reads. cbn. split; [lia|]. by split.
    + intros (ps & Hm & Hl & Hr). destruct args; [|done]. injection Hm as <-. destruct Hr as (-> & _). cbn. do 2 f_equal. lia.
  - split.
    + intros Hr. inv_ok. destruct r as [l off]. apply take_wire_u32_Ok in Hr0 as [Hl Hoff]. cbn [fst snd] in *.
      case_bool_decide as En; [done|]. apply bind_ok in Hr as (rest & Hrest & Hr). injection Hr as <- <-.
      destruct rest as [args upto']. apply get_bytes_reads in Hr2. cbn [fst snd].
      assert (N.of_nat (length r1) = l) as Hlen.
      { unfold checked_add in Hr1. destruct (_ <? _)%N; [|done]. destruct Hr2 as (H1 & _). simplify_eq. lia. }
      apply IH in Hrest as (ps & Hm & Hn & Hps); [|by destruct Hr2 as (_ & ? & _)].
      assert (argument_bytes (string_of_list_ascii r1) = Ok (to_be_bytes l ++ r1)) as Ha.
      { apply argument_bytes_Ok. rewrite list_ascii_of_string_of_list_ascii, Hlen. done. }
      exists ((to_be_bytes l ++ r1) :: ps). cbn [map_result]. rewrite Ha. cbn [mbind result_bind]. rewrite Hm.
      split; [done|]. split; [cbn; by rewrite Hn|]. cbn [concat]. rewrite <- app_assoc.
      eapply reads_app; [exact Hoff|]. eapply reads_app; [exact Hr2|done].
    + intros (ps & Hm & Hn & Hps). destruct args as [|a args]; [done|]. cbn [map_result] in Hm. inv_ok. subst ps.
      apply argument_bytes_Ok in Hr as (Hnul & Hl & ->). cbn [concat] in Hps. rewrite <- app_assoc in Hps.
      apply reads_split in Hps as [H1 H2]. apply reads_split in H2 as [H2 H3]. set (l := N.of_nat (length (list_ascii_of_string a))) in *.
      rewrite (proj2 (take_wire_u32_Ok _ _ _) (conj Hl H1)). cbn [mbind result_bind fst snd].
      pose proof (checked_add_reads _ _ _ H2) as Hc. fold l in Hc. rewrite Hc. cbn [ok_or mbind result_bind].
      rewrite (proj2 (get_bytes_reads _ _ _ _) H2). cbn [ok_or mbind result_bind]. rewrite bool_decide_false by done.
      rewrite (proj2 (IH _ args upto ltac:(by destruct H2 as (_ & ? & _)))); [|exists r0; split; [done|]; split; [by injection Hn|done]].
      cbn [mbind result_bind fst snd]. by rewrite string_of_list_ascii_of_string.
Qed.
End Packet.

Lemma nested_payload_Ok args payload :
  nested_payload args = Ok payload <->
  exists ps, map_result argument_bytes args = Ok ps /\ (N.of_nat (length payload) <= MAX_NESTED_PACKET)%N /\
    payload = to_be_bytes MAGIC ++ to_be_bytes (N.of_nat (length args) mod 2 ^ 32) ++ concat ps.
Proof.
  unfold nested_payload. split.
  - intros H. apply bind_ok in H as (ps & Hps & H). cbv zeta in H. destruct (N.ltb_spec MAX_NESTED_PACKET (N.of_nat (length
      (to_be_bytes MAGIC ++ to_be_bytes (N.of_nat (length args) mod 2 ^ 32) ++ concat ps)))); [done|].
    apply Ok_inj in H as <-. by exists ps.
  - intros (ps & Hps & Hl & ->). rewrite Hps. cbn [mbind result_bind]. by rewrite (proj2 (N.ltb_ge _ _)).
Qed.

(** Each argument takes four bytes of the packet at least. *)
Lemma arguments_length args ps : map_result argument_bytes args = Ok ps -> (4 * length args <= length (concat ps))%nat.
Proof.
  revert ps. induction args as [|a args IH]; intros ps H; cbn [map_result] in H.
  - by injection H as <-.
  - inv_ok. subst ps. apply argument_bytes_Ok in Hr as (_ & _ & ->). cbn [concat].
    rewrite !length_app. change (length (to_be_bytes _)) with 4%nat. specialize (IH _ Hr0). cbn [length]. lia.
Qed.

Lemma decode_request_Ok payload args :
  (N.of_nat (length payload) < 2 ^ 64)%N ->
  (decode_request payload = Ok args <->
   (1 <= length args <= MAX_WIRE_ARGUMENTS)%nat /\ exists ps, map_result argument_bytes args = Ok ps /\
     payload = to_be_bytes MAGIC ++ to_be_bytes (N.of_nat (length args)) ++ concat ps).
Proof.
  intros Hs. unfold decode_request. set (total := N.of_nat (length payload)). split.
  - intros H. apply bind_ok in H as ([magic o1] & Hm & H). apply (take_wire_u32_Ok payload Hs) in Hm as [_ Hm]. cbn [fst snd] in H.
    destruct (N.eqb_spec magic MAGIC) as [->|]; [|done]. cbn [negb] in H.
    apply bind_ok in H as ([count o2] & Hc & H). apply (take_wire_u32_Ok payload Hs) in Hc as [_ Hc]. cbn [fst snd] in H.
    destruct (N.eqb_spec count 0); [done|]. cbn [orb] in H.
    destruct (N.ltb_spec (N.of_nat MAX_WIRE_ARGUMENTS) count); [done|].
    apply bind_ok in H as ([l o3] & Ha & H). cbn [fst snd] in H. destruct (N.eqb_spec o3 total) as [->|]; [|done].
    apply Ok_inj in H as ->. apply (take_arguments_Ok payload Hs) in Ha as (ps & Hps & Hl & Hr); [|by destruct Hc as (_ & ? & _)].
    split; [lia|]. exists ps. split; [done|].
    pose proof (reads_app _ _ _ _ _ _ Hm (reads_app _ _ _ _ _ _ Hc Hr)) as (_ & _ & E).
    rewrite drop_0 in E. rewrite E. subst total. rewrite Nat2N.id, drop_all, app_nil_r. by replace (N.of_nat (length args)) with count by lia.
  - intros (Hl & ps & Hps & ->).
    assert (length (concat ps) < N.to_nat (2 ^ 64))%nat as Hb by (rewrite !length_app in Hs; lia).
    assert (N.of_nat (length args) < 2 ^ 32)%N as Hn by (unfold MAX_WIRE_ARGUMENTS, MAX_ARGUMENTS, MAX_ENVIRONMENT in Hl; lia).
    set (payload := to_be_bytes MAGIC ++ to_be_bytes (N.of_nat (length args)) ++ concat ps) in *.
    assert (reads payload 0 payload total) as Hall.
    { split; [done|]. split; [done|]. subst total. by rewrite Nat2N.id, drop_all, drop_0, app_nil_r. }
    apply reads_split in Hall as [H1 Hall]. apply reads_split in Hall as [H2 H3].
    rewrite (proj2 (take_wire_u32_Ok payload Hs 0 MAGIC _) (conj eq_refl H1)). cbn [mbind result_bind fst snd]. rewrite N.eqb_refl. cbn [negb].
    rewrite (proj2 (take_wire_u32_Ok payload Hs _ (N.of_nat (length args)) _) (conj Hn H2)). cbn [mbind result_bind fst snd].
    destruct (N.eqb_spec (N.of_nat (length args)) 0); [lia|]. rewrite (proj2 (N.ltb_ge _ _)) by lia. cbn [orb].
    rewrite (proj2 (take_arguments_Ok payload Hs _ _ args total ltac:(by destruct H2 as (_ & ? & _)))); [|exists ps; split; [done|]; split; [lia|done]].
    cbn [mbind result_bind fst snd]. by rewrite N.eqb_refl.
Qed.

(** ** Properties: the packet *)

(** Encoding and decoding of a request packet are inverse to each other: a
    packet of at most [MAX_NESTED_PACKET] bytes decodes to a list of arguments
    exactly when it is the encoding of that list and the list's length is
    within the decoder's bounds. *)
Theorem packet_codec payload args :
  (N.of_nat (length payload) <= MAX_NESTED_PACKET)%N ->
  (decode_request payload = Ok args <->
   nested_payload args = Ok payload /\ (1 <= length args <= MAX_WIRE_ARGUMENTS)%nat).
Proof.
  intros Hs. rewrite decode_request_Ok by (unfold MAX_NESTED_PACKET in Hs; lia). rewrite nested_payload_Ok. split.
  - intros (Hl & ps & Hps & Hp). split; [|done]. exists ps. split; [done|]. split; [done|].
    rewrite N.mod_small by (unfold MAX_WIRE_ARGUMENTS, MAX_ARGUMENTS, MAX_ENVIRONMENT in Hl; lia). done.
  - intros ((ps & Hps & _ & Hp) & Hl). split; [done|]. exists ps. split; [done|].
    rewrite N.mod_small in Hp by (unfold MAX_WIRE_ARGUMENTS, MAX_ARGUMENTS, MAX_ENVIRONMENT in Hl; lia). done.
Qed.

Lemma packet_codec_witness :
  match nested_payload ["a"; ""; "--"] with Ok p => decode_request p = Ok ["a"; ""; "--"] | Err _ => False end.
Proof.
  destruct (nested_payload ["a"; ""; "--"]) as [p|e] eqn:E; [|discriminate E].
  assert (N.of_nat (length p) <= MAX_NESTED_PACKET)%N as Hl by (vm_compute in E; injection E as <-; vm_compute; discriminate).
  apply (packet_codec p ["a"; ""; "--"] Hl). split; [exact E|]. unfold MAX_WIRE_ARGUMENTS. cbn [length]. lia.
Defined.

(** ** Lemmas: the text of numbers *)

Lemma parse_number_show lo hi label z : (lo <= z <= hi)%Z -> parse_number (parse_int lo hi) label (show_Z z) = Ok z.
Proof. intros Hz. unfold parse_number. rewrite from_utf8_number. cbn [ok_or mbind result_bind]. by rewrite parse_int_show. Qed.

Lemma joined_cons z r : joined (z :: r) = show_Z z +:+ (if decide (r = []) then "" else "," +:+ joined r).
Proof. unfold joined. destruct r; [by rewrite sapp_nil_r|done]. Qed.

Lemma from_utf8_joined l : from_utf8 (joined l) = Some (joined l).
Proof.
  apply from_utf8_low. induction l as [|z r IH]; [done|]. rewrite joined_cons, all_bytes_app.
  apply andb_true_iff. split; [eapply all_bytes_impl; [|apply number_bytes]; apply number_byte_low|].
  destruct (decide (r = [])); [done|]. by rewrite all_bytes_app, IH.
Qed.

Lemma joined_empty l : is_empty (joined l) = bool_decide (l = []).
Proof.
  destruct l as [|z r]; [done|]. rewrite bool_decide_false by done. apply is_empty_false. rewrite joined_cons.
  intros [H _]%sapp_eq_nil. by apply show_Z_nonempty in H.
Qed.

Lemma split_joined l : l <> [] -> split "," (joined l) = map show_Z l.
Proof.
  intros Hl. unfold joined. apply split_join; [by destruct l|]. apply Forall_map, Forall_forall. intros z _.
  eapply all_bytes_has; [apply number_bytes|done].
Qed.

(** ** Lemmas: the fields of a request *)

Lemma group_list_range l seen gs :
  group_list seen l = Ok gs -> NoDup gs /\ Forall (fun g => g ∉ seen /\ (0 <= g < 2 ^ 32)%Z) gs.
Proof.
  revert seen gs. induction l as [|s l IH]; intros seen gs H; cbn [group_list] in H.
  - injection H as <-. split; constructor.
  - inv_ok. case_bool_decide as Hs; [done|]. inv_ok. subst gs. apply IH in Hr0 as [Hnd Hf].
    apply parse_int_range in Hr. split.
    + constructor; [|done]. intros Hin. rewrite Forall_forall in Hf. apply Hf in Hin as [Hin _]. apply Hin. left.
    + constructor; [split; [done|lia]|]. eapply Forall_impl; [exact Hf|]. cbn. intros g [Hg ?]. split; [|done].
      intros ?. apply Hg. by right.
Qed.

Lemma group_list_show gs seen :
  NoDup gs -> Forall (fun g => g ∉ seen /\ (0 <= g < 2 ^ 32)%Z) gs -> group_list seen (map show_Z gs) = Ok gs.
Proof.
  revert seen. induction gs as [|g gs IH]; intros seen Hnd Hf; [done|]. cbn [map group_list].
  apply NoDup_cons in Hnd as [Hg Hnd]. apply Forall_cons in Hf as [[Hs Hr] Hf].
  unfold parse_u32. rewrite parse_int_show by lia. cbn [ok_or mbind result_bind]. rewrite bool_decide_false by done.
  rewrite IH; [done|done|]. rewrite Forall_forall in *. intros x Hx. destruct (Hf x Hx) as [Hxs Hxr].
  split; [|done]. intros [->|?]%elem_of_cons; [by apply Hg|done].
Qed.

Lemma parse_groups_range v gs : parse_groups v = Ok gs -> NoDup gs /\ Forall (fun g => (0 <= g < 2 ^ 32)%Z) gs.
Proof.
  unfold parse_groups. intros H. inv_ok. destruct (is_empty r); [injection H as <-; split; constructor|].
  apply group_list_range in H as [Hnd Hf]. split; [done|]. eapply Forall_impl; [exact Hf|]. by intros g [_ ?].
Qed.

Lemma parse_groups_joined gs : NoDup gs -> Forall (fun g => (0 <= g < 2 ^ 32)%Z) gs -> parse_groups (joined gs) = Ok gs.
Proof.
  intros Hnd Hf. unfold parse_groups. rewrite from_utf8_joined. cbn [ok_or mbind result_bind]. rewrite joined_empty.
  case_bool_decide as E; [by rewrite E|]. rewrite split_joined by done. apply group_list_show; [done|].
  eapply Forall_impl; [exact Hf|]. intros g Hg. split; [by apply not_elem_of_nil|done].
Qed.

Lemma any_bad_fd_false fds seen :
  any_bad_fd seen fds = false <-> NoDup fds /\ Forall (fun fd => fd ∉ seen /\ (0 <= fd <= MAX_TARGET_FD)%Z) fds.
Proof.
  revert seen. induction fds as [|fd fds IH]; intros seen; cbn [any_bad_fd]; [split; [split; constructor|done]|].
  rewrite !orb_false_iff, negb_false_iff, andb_true_iff, !Z.leb_le, bool_decide_eq_false, IH, NoDup_cons, !Forall_cons. split.
  - intros [[H1 H2] [H3 H4]]. rewrite Forall_forall in H4. split; [split; [|done]|split; [done|]].
    + intros Hin. destruct (H4 _ Hin) as [Hn _]. apply Hn. left.
    + rewrite Forall_forall. intros x Hx. destruct (H4 _ Hx) as [Hn ?]. split; [|done]. intros ?. apply Hn. by right.
  - intros [[H1 H2] [[H3 H4] H5]]. do 2 (split; [done|]). rewrite Forall_forall in *. intros x Hx.
    destruct (H5 _ Hx) as [Hn ?]. split; [|done]. intros [->|?]%elem_of_cons; [by apply H1|done].
Qed.

Definition fds_ok (fds : list Z) : Prop :=
  (length fds <= MAX_MAPPED_FDS)%nat /\ NoDup fds /\ Forall (fun fd => (0 <= fd <= MAX_TARGET_FD)%Z) fds.

Lemma bad_fd_ok fds : fds_ok fds <-> (MAX_MAPPED_FDS <? length fds)%nat || any_bad_fd [] fds = false.
Proof.
  unfold fds_ok. rewrite orb_false_iff, any_bad_fd_false, Nat.ltb_ge. split; intros (H1 & H2 & H3); (do 2 (split; [done|]));
    (eapply Forall_impl; [exact H3|]); cbn; intros fd; set_solver.
Qed.

Lemma parse_mapped_fds_range v fds : parse_mapped_fds v = Ok fds -> fds_ok fds.
Proof.
  unfold parse_mapped_fds. intros H. inv_ok. destruct (is_empty r).
  - injection H as <-. split; [cbn; lia|]. split; constructor.
  - inv_ok. destruct (_ || _) eqn:E; [done|]. injection H as <-. by apply bad_fd_ok.
Qed.

Lemma map_result_show lo hi msg l :
  Forall (fun z => (lo <= z <= hi)%Z) l -> map_result (fun s => ok_or msg (parse_int lo hi s)) (map show_Z l) = Ok l.
Proof.
  induction 1 as [|z l Hz Hl IH]; [done|]. cbn [map map_result]. rewrite parse_int_show by done. cbn [ok_or mbind result_bind].
  by rewrite IH.
Qed.

Lemma parse_mapped_fds_joined fds : fds_ok fds -> parse_mapped_fds (joined fds) = Ok fds.
Proof.
  intros Hok. unfold parse_mapped_fds. rewrite from_utf8_joined. cbn [ok_or mbind result_bind]. rewrite joined_empty.
  case_bool_decide as E; [by rewrite E|]. rewrite split_joined by done. unfold parse_i32. rewrite map_result_show.
  - cbn [mbind result_bind]. by apply bad_fd_ok in Hok as ->.
  - destruct Hok as (_ & _ & Hf). eapply Forall_impl; [exact Hf|]. unfold MAX_TARGET_FD. cbn. lia.
Qed.

Lemma parse_jail_mode_name m : parse_jail_mode (jail_mode_name m) = Ok m.
Proof. by destruct m. Qed.

(** ** Lemmas: reading the arguments *)

Lemma M_bind_step {W A B} (m : M W A) (f : A -> M W B) w a w' : m w = (Ok a, w') -> (m ≫= f) w = f a w'.
Proof. intros E. unfold mbind, M_bind. by rewrite E. Qed.

Lemma required_Ok label args v rest : required label args = (Ok v, rest) <-> args = v :: rest.
Proof. unfold required, next_arg, mbind, M_bind, lift. destruct args; cbn; split; congruence. Qed.

Lemma required_number {A} label (f : string -> result A) v rest z :
  f v = Ok z -> (v' ← required label; lift (f v')) (v :: rest) = (Ok z, rest).
Proof. intros Hf. erewrite M_bind_step; [|by apply required_Ok]. unfold lift. by rewrite Hf. Qed.

Lemma required_number_inv {A} label (f : string -> result A) args rest z :
  (v ← required label; lift (f v)) args = (Ok z, rest) -> exists v, args = v :: rest /\ f v = Ok z.
Proof.
  intros (v & w & H1 & H2)%M_bind_ok. apply required_Ok in H1 as ->. unfold lift in H2. exists v. by simplify_eq.
Qed.

Lemma read_environment_Ok n args env rest :
  read_environment n args = (Ok env, rest) <->
  args = env ++ rest /\ length env = n /\ Forall (fun e => validate_environment e = Ok tt) env.
Proof.
  revert args env rest. induction n as [|n IH]; intros args env rest; cbn [read_environment].
  - split; [intros [= <- <-]; done|]. intros (-> & Hl & _). by destruct env.
  - split.
    + intros (e & w & H1 & H)%M_bind_ok. apply required_Ok in H1 as ->. apply M_bind_ok in H as ([] & w1 & H2 & H).
      unfold lift in H2. injection H2 as H2 <-. apply M_bind_ok in H as (env' & w2 & H3 & H). injection H as <- <-.
      apply IH in H3 as (-> & <- & Hf). split; [done|]. split; [done|]. by constructor.
    + intros (-> & Hl & Hf). destruct env as [|e env]; [done|]. apply Forall_cons in Hf as [He Hf]. injection Hl as Hl.
      erewrite M_bind_step; [|by apply required_Ok]. erewrite M_bind_step; [|unfold lift; by rewrite He].
      erewrite M_bind_step; [|by apply IH]. done.
Qed.

(** A request within the limits. *)
Definition request_ok (r : Request) : Prop :=
  (0 <= rq_root_device r < 2 ^ 64)%Z /\ (0 <= rq_root_inode r < 2 ^ 64)%Z /\
  (0 <= rq_uid r < 2 ^ 32)%Z /\ (0 <= rq_gid r < 2 ^ 32)%Z /\
  NoDup (rq_groups r) /\ Forall (fun g => (0 <= g < 2 ^ 32)%Z) (rq_groups r) /\
  rq_cwd r <> Some "-" /\ fds_ok (rq_mapped_fds r) /\
  (length (rq_environment r) <= MAX_ENVIRONMENT)%nat /\
  Forall (fun e => validate_environment e = Ok tt) (rq_environment r) /\
  (1 <= length (rq_argv r) <= MAX_ARGUMENTS)%nat.

Lemma parse_number_range lo hi label v z : parse_number (parse_int lo hi) label v = Ok z -> (lo <= z <= hi)%Z.
Proof. unfold parse_number. intros H. inv_ok. by eapply parse_int_range. Qed.

Lemma cwd_of_arg_ne v : cwd_of_arg v <> Some "-".
Proof. unfold cwd_of_arg. destruct (String.eqb_spec v "-"); congruence. Qed.

Lemma cwd_of_arg_default c : c <> Some "-" -> cwd_of_arg (default "-" c) = c.
Proof.
  destruct c as [c|]; [|done]. intros Hc. unfold cwd_of_arg. change (default "-" (Some c)) with c.
  destruct (String.eqb_spec c "-") as [E|]; [|done]. subst c. by destruct Hc.
Qed.

Lemma cwd_default c : default "-" (cwd_of_arg (default "-" c)) = default "-" c.
Proof.
  destruct c as [c|]; [|done]. unfold cwd_of_arg. change (default "-" (Some c)) with c.
  destruct (String.eqb_spec c "-") as [E|]; [by subst c|done].
Qed.

(** The steps of the parser, from a successful end. *)
Ltac read_step H :=
  let a := fresh "a" in let w := fresh "w" in let E := fresh "E" in apply M_bind_ok in H as (a & w & E & H).

Lemma parse_ok args r : parse args = Ok r -> request_ok r.
Proof.
  unfold parse. destruct (parse_args args) as [o st] eqn:H. cbn [fst]. intros ->. unfold parse_args in H.
  do 12 read_step H. apply required_number_inv in E2 as (? & _ & E2), E3 as (? & _ & E3), E4 as (? & _ & E4), E5 as (? & _ & E5),
    E6 as (? & _ & E6), E8 as (? & _ & E8), E9 as (? & _ & E9), E10 as (? & _ & E10).
  apply parse_number_range in E2, E3, E4, E5, E10. apply parse_groups_range in E6 as [Hg1 Hg2].
  apply parse_mapped_fds_range in E9.
  destruct (Z.ltb_spec (Z.of_nat MAX_ENVIRONMENT) a10) as [|He]; [done|].
  apply M_bind_ok in H as (env & w' & Henv & H). read_step H. apply read_environment_Ok in Henv as (_ & Hl & Hf). case_bool_decide; [|done]. cbn [negb] in H. read_step H.
  destruct (_ || _) eqn:Ha; [done|]. injection H as <- <-.
  apply orb_false_iff in Ha as [Ha1%Nat.eqb_neq Ha2%Nat.ltb_ge].
  unfold request_ok. cbn. do 4 (split; [lia|]). do 2 (split; [done|]). split; [apply cwd_of_arg_ne|].
  split; [done|]. split; [lia|]. split; [done|]. lia.
Qed.

Lemma show_nat_Z n : show_nat n = show_Z (Z.of_nat n).
Proof.
  unfold show_nat, show_Z. rewrite (proj2 (Z.ltb_ge _ _)) by lia. unfold show_N, pretty, pretty_nat. do 2 f_equal. lia.
Qed.

Lemma parse_arguments program r : request_ok r ->
  parse (program :: request_arguments (rq_root r) (rq_runtime_root r) (rq_root_device r) (rq_root_inode r)
    (rq_uid r) (rq_gid r) (rq_groups r) (rq_cwd r) (rq_jail_mode r) (rq_mapped_fds r) (rq_environment r) (rq_argv r)) = Ok r.
Proof.
  intros (H1 & H2 & H3 & H4 & H5 & H6 & H7 & H8 & H9 & H10 & H11). unfold parse, parse_args, request_arguments.
  erewrite M_bind_step by reflexivity. rewrite show_nat_Z. cbn [app].
  do 2 (erewrite M_bind_step; [|by apply required_Ok]).
  do 2 (erewrite M_bind_step; [|apply required_number, parse_number_show; lia]).
  do 2 (erewrite M_bind_step; [|apply required_number, parse_number_show; lia]).
  erewrite M_bind_step; [|by apply required_number, parse_groups_joined].
  erewrite M_bind_step; [|by apply required_Ok].
  erewrite M_bind_step; [|apply required_number, parse_jail_mode_name].
  erewrite M_bind_step; [|by apply required_number, parse_mapped_fds_joined].
  assert (Z.of_nat (length (rq_environment r)) < 2 ^ 64)%Z by (unfold MAX_ENVIRONMENT in H9; lia).
  erewrite M_bind_step; [|apply required_number, parse_number_show; lia].
  rewrite (proj2 (Z.ltb_ge _ _)) by lia. rewrite Nat2Z.id.
  erewrite M_bind_step; [|by apply read_environment_Ok].
  erewrite M_bind_step by reflexivity. rewrite bool_decide_true by done. cbn [negb app].
  erewrite M_bind_step by reflexivity.
  destruct (Nat.eqb_spec (length (rq_argv r)) 0); [lia|]. rewrite (proj2 (Nat.ltb_ge _ _)) by lia. cbn [orb].
  rewrite cwd_of_arg_default by done. by destruct r.
Qed.

Lemma environment_entry_Ok e s : environment_entry e = Ok s ->
  validate_environment s = Ok tt /\ split_environment s = Some e.
Proof.
  unfold environment_entry. destruct (_ || _ || _ || _) eqn:E; [done|]. intros Hs. apply Ok_inj in Hs as <-.
  rewrite !orb_false_iff in E. destruct E as [[[Hk Heq] _] _]. destruct e as [k v]. cbn [fst snd] in *.
  rewrite !fmt_cons, fmt_nil, sapp_nil_r. change ("=" +:+ v) with (String "=" v). split.
  - unfold validate_environment. rewrite has_app. cbn [has]. rewrite Ascii.eqb_refl, orb_true_r. cbn [negb].
    rewrite orb_false_r. destruct k as [|a k]; [done|]. change (starts_with "=" (String a k +:+ String "=" v)) with (starts_with "=" (String a (k +:+ String "=" v))).
    destruct (starts_with "=" _) eqn:Es; [|done]. apply starts_with_true in Es as [r Es]. injection Es as -> _. cbn in Heq. done.
  - unfold split_environment. by apply split_once_Some.
Qed.

Lemma environment_entries_Ok es ss : map_result environment_entry es = Ok ss ->
  length ss = length es /\ Forall (fun s => validate_environment s = Ok tt) ss /\ omap split_environment ss = es.
Proof.
  revert ss. induction es as [|e es IH]; intros ss H; cbn [map_result] in H.
  - injection H as <-. split; [done|]. split; [constructor|done].
  - inv_ok. subst ss. apply environment_entry_Ok in Hr as [Hv Hs]. destruct (IH _ Hr0) as (H1 & H2 & H3).
    split; [cbn; by rewrite H1|]. split; [by constructor|]. cbn. by rewrite Hs, H3.
Qed.

(** ** Properties: the request *)

(** C40.  Every request the helper or the daemon accepts is within the limits of
    the program: identifiers fit their machine types, groups and descriptor
    numbers are distinct and in range, and the numbers of descriptors,
    environment entries and arguments are bounded. *)
Theorem request_within_limits args r : parse args = Ok r -> request_ok r.
Proof. apply parse_ok. Qed.

Definition example_args : list string :=
  ["secure-launch"; "/run/chroots/a/1"; "/run"; "7"; "42"; "1001"; "1001"; "0,5"; "-"; "sandbox"; "3,4"; "1"; "HOME=/home/u"; "--"; "/bin/sh"].

Lemma request_within_limits_witness :
  match parse example_args with Ok r => request_ok r | Err _ => False end.
Proof. destruct (parse example_args) as [r|e] eqn:E; [exact (request_within_limits _ _ E)|discriminate E]. Defined.

(** The daemon sees the request the nested client accepted: whatever
    request was parsed from the client's arguments, if it can be encoded then
    the packet decodes, its arguments are within the decoder's bounds, and they
    parse as the same request. *)
Theorem request_survives_wire args r payload :
  parse args = Ok r -> nested_payload (wire_arguments r) = Ok payload ->
  (decode_request payload ≫= parse) = Ok r.
Proof.
  intros Hr Hp. apply parse_ok in Hr. assert (decode_request payload = Ok (wire_arguments r)) as ->; [|by apply parse_arguments].
  pose proof Hp as (ps & Hps & Hl & E)%nested_payload_Ok.
  assert (1 <= length (wire_arguments r) <= MAX_WIRE_ARGUMENTS)%nat as Hb.
  { destruct Hr as (_ & _ & _ & _ & _ & _ & _ & _ & He & _ & Ha). unfold wire_arguments, request_arguments.
    unfold MAX_WIRE_ARGUMENTS. cbn [length app]. rewrite !length_app. cbn [length]. lia. }
  apply decode_request_Ok; [unfold MAX_NESTED_PACKET in Hl; lia|]. split; [done|]. exists ps. split; [done|].
  rewrite E, N.mod_small; [done|]. unfold MAX_WIRE_ARGUMENTS, MAX_ARGUMENTS, MAX_ENVIRONMENT in Hb. lia.
Qed.

Lemma request_survives_wire_witness :
  match parse example_args with
  | Ok r => match nested_payload (wire_arguments r) with Ok p => (decode_request p ≫= parse) = Ok r | Err _ => False end
  | Err _ => False
  end.
Proof.
  destruct (parse example_args) as [r|e] eqn:E; [|discriminate E].
  destruct (nested_payload (wire_arguments r)) as [p|e] eqn:Ep.
  - exact (request_survives_wire _ _ _ E Ep).
  - vm_compute in E. injection E as <-. vm_compute in Ep. discriminate Ep.
Defined.

(** C35.  The launcher's side and the helper's side of the command line agree:
    for a launch whose numbers fit their types and whose descriptor numbers
    and groups are distinct, the helper parses the arguments [command] wrote as
    exactly that launch, with the canonical roots, the environment it was
    given, and the isolation that was asked for. *)
Theorem launch_request_reaches_helper {W} `{HostFs W} file_identity lr (w : W) program args :
  command file_identity lr w = Ok (program, args) ->
  (0 <= lr_uid lr < 2 ^ 32)%Z -> (0 <= lr_gid lr < 2 ^ 32)%Z ->
  NoDup (lr_groups lr) -> Forall (fun g => (0 <= g < 2 ^ 32)%Z) (lr_groups lr) -> fds_ok (lr_mapped_fds lr) ->
  (forall p d n, file_identity w p = Ok (d, n) -> (0 <= d < 2 ^ 64)%Z /\ (0 <= n < 2 ^ 64)%Z) ->
  exists root runtime_root device inode environment,
    canonicalize w (lr_root lr) = inl root /\ canonicalize w (lr_runtime_root lr) = inl runtime_root /\
    file_identity w root = Ok (device, inode) /\ omap split_environment environment = lr_environment lr /\
    (program = HELPER_PATH <-> mode_of lr = Direct) /\
    parse (program :: args) = Ok (mkRequest root runtime_root device inode (lr_uid lr) (lr_gid lr) (lr_groups lr)
      (cwd_of_arg (default "-" (lr_cwd lr))) (mode_of lr) (lr_mapped_fds lr) environment (lr_argv lr)).
Proof.
  intros Hc Hu Hg Hnd Hgr Hfd Hid. unfold command in Hc. destruct (_ || _ || _ || _) eqn:Hsize; [done|].
  rewrite !orb_false_iff, Nat.eqb_neq, !Nat.ltb_ge in Hsize. destruct Hsize as [[[Ha1 Ha2] He] Hf].
  apply bind_ok in Hc as (root & Hroot & Hc). apply bind_ok in Hc as (runtime_root & Hrt & Hc).
  apply bind_ok in Hc as ([device inode] & Hi & Hc). apply bind_ok in Hc as (environment & Henv & Hc).
  injection Hc as Hp Hargs. destruct (Hid _ _ _ Hi) as [Hd Hn].
  destruct (environment_entries_Ok _ _ Henv) as (Hel & Hev & Hes).
  exists root, runtime_root, device, inode, environment.
  split; [destruct (canonicalize w (lr_root lr)); [by injection Hroot as ->|done]|].
  split; [destruct (canonicalize w (lr_runtime_root lr)); [by injection Hrt as ->|done]|]. do 2 (split; [done|]). split.
  - subst program. unfold mode_of. by destruct (lr_nested_sandbox lr), (lr_no_network lr).
  - set (r := mkRequest root runtime_root device inode (lr_uid lr) (lr_gid lr) (lr_groups lr)
      (cwd_of_arg (default "-" (lr_cwd lr))) (mode_of lr) (lr_mapped_fds lr) environment (lr_argv lr)).
    assert (request_ok r) as Hr.
    { unfold request_ok, r. cbn. do 6 (split; [done|]). split; [apply cwd_of_arg_ne|]. do 3 (split; [first [done|lia]|]). lia. }
    rewrite <- Hargs. rewrite <- (parse_arguments program r Hr). unfold r, request_arguments.
    cbn [rq_root rq_runtime_root rq_root_device rq_root_inode rq_uid rq_gid rq_groups rq_cwd rq_jail_mode rq_mapped_fds
      rq_environment rq_argv]. by rewrite cwd_default.
Qed.

Definition example_launch_request : LaunchRequest :=
  mkLaunchRequest "/run/chroots/a/1" "/run" 1001 1001 [0; 5]%Z [3; 4]%Z None true false [("HOME", "/home/u")] ["/bin/sh"].
Definition example_launch_tree : TreeFs :=
  mkTree (map components ["/run"; "/run/chroots/a/1"]) [].

Lemma launch_request_reaches_helper_witness :
  exists environment, omap split_environment environment = [("HOME", "/home/u")] /\
  match command (fun _ _ => Ok (7, 42)%Z) example_launch_request example_launch_tree with
  | Ok (program, args) => parse (program :: args) = Ok (mkRequest "/run/chroots/a/1" "/run" 7 42 1001 1001 [0; 5]%Z None Sandbox [3; 4]%Z environment ["/bin/sh"])
  | Err _ => False
  end.
Proof.
  destruct (command (fun _ _ => Ok (7, 42)%Z) example_launch_request example_launch_tree) as [[program args]|e] eqn:E; [|discriminate E].
  destruct (launch_request_reaches_helper _ _ _ _ _ E) as (root & rt & d & n & env & H1 & H2 & H3 & H4 & _ & H5).
  - cbn. lia.
  - cbn. lia.
  - apply (bool_decide_unpack _). reflexivity.
  - cbn. repeat constructor; lia.
  - split; [unfold MAX_MAPPED_FDS; cbn; lia|]. split; [apply (bool_decide_unpack _); reflexivity|].
    unfold MAX_TARGET_FD. cbn. repeat constructor; lia.
  - intros p d n [= <- <-]. lia.
  - exists env. split; [exact H4|]. vm_compute in H1, H2, H3. injection H1 as <-. injection H2 as <-. injection H3 as <- <-. exact H5.
Defined.
