(* ===== verification/LaunchExec.v ===== *)
(** * LaunchExec: running a program inside a sandbox root
    (src/src/secure_launch.rs: validation of a request and its execution)

    The helper runs with the user identifier of root.  It checks that a request
    is for a sandbox root of the caller, enters that root (by [chroot], or
    through a jail when the launch is isolated), installs the descriptors the
    request maps, drops its privileges and replaces itself by the program.

    The operating system is the interface [Kernel]; [KernelLaws] states what the
    documentation of the calls promises about the process that makes them.  The
    files that paths name may change between any two calls: nothing is assumed
    of them but what a call reports.  The lemmas say that a program is only ever
    run with the caller's identity inside the directory that was validated. *)
From Stdlib Require Import Ascii String NArith ZArith Lia.
From stdpp Require Import base list strings sets gmap.
From S2P Require Import Prelude Effects Collections RustStr RustNum RustPath HostFs LaunchRequest.

(** ** The process and the kernel *)

(** What [fstat] tells of a file; a file is known by its device and inode. *)
Record Stat := mkStat { st_dev : Z; st_ino : Z; st_uid : Z; st_mode : Z }.
Definition file : Type := Z * Z.
Definition identity_of (s : Stat) : file := (st_dev s, st_ino s).

(** The real, effective and saved identifiers. *)
Record Ids := mkIds { real : Z; effective : Z; saved : Z }.
Definition all_ids (n : Z) : Ids := mkIds n n n.

(** The program a process has been replaced by, with what it starts with. *)
Record Image := mkImage {
  im_argv : list string;
  im_environment : list (string * string);
  im_uids : Ids;
  im_gids : Ids;
  im_groups : list Z;
  im_root : file;
  im_jail : option (Z * bool);       (* the jail, and whether it has no network *)
  im_fds : gmap Z file;
}.

Record Process := mkProcess {
  uids : Ids;
  gids : Ids;
  groups_of : list Z;
  root_dir : file;
  cwd_dir : file;
  jail_of : option (Z * bool);
  fds : gmap Z (file * bool);       (* the open file, and whether it is closed on exec *)
  image : option Image;
}.

(** Updates of one field. *)
Definition with_uids (u : Ids) (p : Process) : Process :=
  mkProcess u (gids p) (groups_of p) (root_dir p) (cwd_dir p) (jail_of p) (fds p) (image p).
Definition with_gids (g : Ids) (p : Process) : Process :=
  mkProcess (uids p) g (groups_of p) (root_dir p) (cwd_dir p) (jail_of p) (fds p) (image p).
Definition with_groups (l : list Z) (p : Process) : Process :=
  mkProcess (uids p) (gids p) l (root_dir p) (cwd_dir p) (jail_of p) (fds p) (image p).
Definition with_root (f : file) (p : Process) : Process :=
  mkProcess (uids p) (gids p) (groups_of p) f (cwd_dir p) (jail_of p) (fds p) (image p).
Definition with_cwd (f : file) (p : Process) : Process :=
  mkProcess (uids p) (gids p) (groups_of p) (root_dir p) f (jail_of p) (fds p) (image p).
Definition with_jail (j : option (Z * bool)) (p : Process) : Process :=
  mkProcess (uids p) (gids p) (groups_of p) (root_dir p) (cwd_dir p) j (fds p) (image p).
Definition with_fds (m : gmap Z (file * bool)) (p : Process) : Process :=
  mkProcess (uids p) (gids p) (groups_of p) (root_dir p) (cwd_dir p) (jail_of p) m (image p).
Definition with_image (i : option Image) (p : Process) : Process :=
  mkProcess (uids p) (gids p) (groups_of p) (root_dir p) (cwd_dir p) (jail_of p) (fds p) i.

Definition inherited (m : gmap Z (file * bool)) : gmap Z file :=
  omap (fun e : file * bool => if e.2 then None else Some e.1) m.

Definition image_of (argv : list string) (env : list (string * string)) (p : Process) : Image :=
  mkImage argv env (uids p) (gids p) (groups_of p) (root_dir p) (jail_of p) (inherited (fds p)).

(** The calls the launcher makes.  [jail_create] stands for the [jailparam]
    calls of [create_nested_jail] with the path "." and the network either
    disabled or inherited; [program_exec] for [Command::exec] with a cleared
    environment, which only returns when it fails. *)
Class Kernel (W : Type) := {
  process : W -> Process;
  path_metadata : path -> W -> io_result Stat;
  open_dir : path -> W -> io_result Z * W;
  open_at : Z -> string -> W -> io_result Z * W;
  fstat : Z -> W -> io_result Stat;
  close_fd : Z -> W -> W;
  fchdir : Z -> W -> io_result unit * W;
  chroot_dot : W -> io_result unit * W;
  chdir : string -> W -> io_result unit * W;
  setgroups : list Z -> W -> io_result unit * W;
  setgid : Z -> W -> io_result unit * W;
  setuid : Z -> W -> io_result unit * W;
  dup_above : Z -> Z -> W -> io_result Z * W;
  dup2 : Z -> Z -> W -> io_result unit * W;
  clear_cloexec : Z -> W -> io_result unit * W;
  jail_create : bool -> W -> io_result (Z * Z) * W;
  jail_root : Z -> W -> option (file * bool);
  jail_attach : Z -> W -> io_result unit * W;
  jail_remove : Z -> W -> W;
  send_jail : Z -> Z -> Z -> W -> io_result unit * W;
  read_byte : Z -> W -> io_result (option Z) * W;
  send_byte : Z -> Z -> W -> io_result unit * W;
  sent_bytes : W -> list (file * Z);
  report_started : W -> io_result unit * W;
  program_exec : list string -> list (string * string) -> W -> io_result unit * W;
}.

Section Launch.
Context {W : Type} `{HostFs W} `{!Kernel W}.

(** ** Calls *)

(** A call whose failure is reported with a message, and the drop of an
    [OwnedFd].  (Where the function fails the process is about to end, and the
    descriptors it still owns are not closed in the model.) *)
Definition sys {A} (msg : string) (m : W -> io_result A * W) : M W A := fun w =>
  let (o, w') := m w in (io_context msg o, w').

Definition release (fd : Z) : M W unit := fun w => (Ok tt, close_fd fd w).

(** ** Validation *)

Definition open_directory (p : path) : M W Z := sys "open sandbox root" (open_dir p).
Definition file_identity_fd (fd : Z) (w : W) : result file := identity_of <$> io_context "fstat" (fstat fd w).

(** The bits of a mode: the permissions of others than the owner, and the type. *)
Definition shared_bits (mode : Z) : Z := Z.land mode 63.
Definition is_regular (mode : Z) : bool := (Z.land mode 61440 =? 32768)%Z.

Definition validate_sandbox_root (root runtime_root : path) (device inode uid : Z) : M W unit :=
  root ← getr (fun w => io_context (fmt ["canonicalize sandbox root "; root]) (canonicalize w root));
  runtime_root ← getr (fun w => io_context (fmt ["canonicalize runtime root "; runtime_root]) (canonicalize w runtime_root));
  metadata ← getr (fun w => io_context "inspect sandbox runtime root" (path_metadata runtime_root w));
  if negb (st_uid metadata =? uid)%Z || negb (shared_bits (st_mode metadata) =? 0)%Z
  then lift (bail "sandbox runtime root is not private to caller")
  else
    relative ← lift (ok_or "sandbox root is outside freebsd-flatpak chroots"
                       (strip_path_prefix root (join_path runtime_root "chroots")));
    let parts := components relative in
    if negb (Nat.eqb (length parts) 2) || existsb (fun c => negb (normal c)) parts
    then lift (bail "sandbox root is not a freebsd-flatpak instance")
    else
      root_fd ← open_directory root;
      id ← getr (file_identity_fd root_fd);
      if negb (bool_decide (id = (device, inode))) then lift (bail "sandbox root identity does not match request")
      else
        info ← sys "open sandbox .flatpak-info" (open_at root_fd ".flatpak-info");
        root_stat ← getr (fun w => io_context "fstat" (fstat root_fd w));
        info_stat ← getr (fun w => io_context "fstat" (fstat info w));
        if negb (st_uid root_stat =? uid)%Z || negb (st_uid info_stat =? uid)%Z || negb (is_regular (st_mode info_stat))
        then lift (bail "sandbox root or .flatpak-info is not caller-owned and regular")
        else _ ← release info; release root_fd.

(** A working directory is an absolute path without [..]. *)
Definition cwd_allowed (cwd : option string) : bool :=
  match cwd with None => true | Some c => is_absolute c && forallb rooted (components c) end.

(** [Request::validate] and [Request::validate_for_peer]: they differ in the
    source of the allowed groups and in their messages. *)
Definition validate (allowed_groups : W -> result (list Z)) (r : Request) (uid gid : Z) : M W unit :=
  if negb (rq_uid r =? uid)%Z || negb (rq_gid r =? gid)%Z
  then lift (bail "secure launch credentials do not match caller")
  else
    allowed ← getr allowed_groups;
    if existsb (fun g => negb (bool_decide (g ∈ allowed))) (rq_groups r)
    then lift (bail "secure launch requested a group not held by caller")
    else
      _ ← validate_sandbox_root (rq_root r) (rq_runtime_root r) (rq_root_device r) (rq_root_inode r) uid;
      if negb (cwd_allowed (rq_cwd r))
      then lift (bail "secure launch working directory must be an absolute normalized sandbox path")
      else mret tt.

Definition caller_groups (real_gid : Z) (w : W) : result (list Z) := Ok (real_gid :: groups_of (process w)).

(** ** Execution *)

(** The lowest number for the temporary duplicates; [checked_add] of an i32. *)
Definition minimum_duplicate (targets : list Z) : Z :=
  match targets with
  | [] => 3
  | t :: r => let m := fold_left Z.max r t in if (m <? 2 ^ 31 - 1)%Z then Z.max (m + 1) 3 else 3
  end.

Fixpoint duplicate_all (minimum : Z) (sources : list Z) : M W (list Z) :=
  match sources with
  | [] => mret []
  | s :: r =>
      d ← sys "duplicate nested mapped descriptor" (dup_above s minimum);
      ds ← duplicate_all minimum r;
      mret (d :: ds)
  end.

(** One mapping; the duplicate is closed at the end of the iteration. *)
Definition map_one (e : Z * Z) : M W unit :=
  _ ← sys "map nested descriptor" (dup2 e.2 e.1);
  _ ← sys "map nested descriptor" (clear_cloexec e.1);
  release e.2.

Definition map_nested_fds (targets sources : list Z) : M W unit :=
  duplicates ← duplicate_all (minimum_duplicate targets) sources;
  for_each map_one (zip targets duplicates).

(** Attaching the process to a jail of its own: the jail is made while the
    working directory is the validated root, and the supervisor has to approve. *)
Definition enter_jail (root_fd lifecycle : Z) (no_network : bool) : M W unit :=
  let root_creds := "adopt root credentials for nested sandbox jail" in
  _ ← sys root_creds (setuid 0); _ ← sys root_creds (setgroups []); _ ← sys root_creds (setgid 0);
  _ ← sys "anchor nested jail root" (fchdir root_fd);
  made ← sys "create nested sandbox jail" (jail_create no_network);
  let '(jail, owner) := made in
  _ ← release root_fd;
  attached ← catch (sys "attach nested sandbox jail" (jail_attach jail));
  match attached with
  | Err e => fun w => (Err e, jail_remove jail w)
  | Ok _ =>
      _ ← sys "send nested jail lifecycle" (send_jail lifecycle jail owner);
      approved ← sys "read nested jail lifecycle" (read_byte lifecycle);
      match approved with
      | None => lift (bail "nested jail lifecycle closed unexpectedly")
      | Some b => if (b =? 1)%Z then release owner
                  else lift (bail "nested jail supervisor rejected launch")
      end
  end.

Definition enter_chroot (root_fd : Z) : M W unit :=
  _ ← sys "enter sandbox chroot" (fchdir root_fd);
  _ ← sys "enter sandbox chroot" chroot_dot;
  _ ← sys "enter sandbox root" (chdir "/");
  release root_fd.

Definition drop_credentials (r : Request) (real_uid real_gid : Z) : M W unit :=
  let msg := "drop secure launch credentials" in
  _ ← sys msg (setgroups (rq_groups r)); _ ← sys msg (setgid real_gid); _ ← sys msg (setuid real_uid);
  p ← gets process;
  if negb (effective (uids p) =? real_uid)%Z || negb (effective (gids p) =? real_gid)%Z
  then lift (bail "secure launch could not drop privilege") else mret tt.

(** [execute_with_mappings].  When the program runs the function does not
    return; [Ok] stands for that. *)
Definition execute_with_mappings (r : Request) (real_uid real_gid : Z) (targets sources : list Z)
    (jail_lifecycle : option Z) : M W unit :=
  root_fd ← open_directory (rq_root r);
  id ← getr (file_identity_fd root_fd);
  if negb (bool_decide (id = (rq_root_device r, rq_root_inode r)))
  then lift (bail "sandbox root changed while preparing secure launch")
  else
    _ ← (if bool_decide (rq_jail_mode r = Direct) then enter_chroot root_fd
         else
           lifecycle ← lift (ok_or "nested jail requires daemon supervision" jail_lifecycle);
           enter_jail root_fd lifecycle (bool_decide (rq_jail_mode r = NoNetwork)));
    _ ← (match rq_cwd r with
         | Some c => sys "change sandbox working directory" (chdir c)
         | None => mret tt
         end);
    _ ← map_nested_fds targets sources;
    _ ← drop_credentials r real_uid real_gid;
    _ ← (match jail_lifecycle with
         | Some l => sys "write nested jail lifecycle" (send_byte l 2)
         | None => sys "notify launch readiness" report_started
         end);
    sys "execute sandbox program" (program_exec (rq_argv r) (omap split_environment (rq_environment r))).

Definition execute (r : Request) (real_uid real_gid : Z) : M W unit :=
  execute_with_mappings r real_uid real_gid [] [] None.

(** [run_helper]: the setuid program. *)
Definition run_helper (args : list string) : M W unit :=
  p ← gets process;
  if negb (effective (uids p) =? 0)%Z then lift (bail "secure launch helper must run set-user-ID root")
  else if (real (uids p) =? 0)%Z then lift (bail "secure launch helper does not accept root callers")
  else
    r ← lift (parse args);
    _ ← validate (caller_groups (real (gids p))) r (real (uids p)) (real (gids p));
    execute r (real (uids p)) (real (gids p)).
End Launch.

(** ** What is relied on *)

(** A call that fails leaves the process as it is. *)
Definition outcome {W A} `{Kernel W} (w w' : W) (r : io_result A) (ok : A -> Process -> Prop) : Prop :=
  match r with inl a => ok a (process w') | inr _ => process w' = process w end.

Class KernelLaws (W : Type) `{Kernel W} := {
  close_law fd w : process (close_fd fd w) = with_fds (delete fd (fds (process w))) (process w);
  open_dir_law p w r w' : open_dir p w = (r, w') -> outcome w w' r (fun fd q =>
    fds (process w) !! fd = None /\ exists f, q = with_fds (<[fd := (f, true)]> (fds (process w))) (process w));
  open_at_law d n w r w' : open_at d n w = (r, w') -> outcome w w' r (fun fd q =>
    fds (process w) !! fd = None /\ exists f, q = with_fds (<[fd := (f, true)]> (fds (process w))) (process w));
  fstat_law fd w st : fstat fd w = inl st -> exists c, fds (process w) !! fd = Some (identity_of st, c);
  fchdir_law fd w r w' : fchdir fd w = (r, w') -> outcome w w' r (fun _ q =>
    exists f c, fds (process w) !! fd = Some (f, c) /\ q = with_cwd f (process w));
  chroot_law w r w' : chroot_dot w = (r, w') -> outcome w w' r (fun _ q =>
    q = with_root (cwd_dir (process w)) (process w));
  chdir_law p w r w' : chdir p w = (r, w') -> outcome w w' r (fun _ q => exists f, q = with_cwd f (process w));
  setgroups_law l w r w' : setgroups l w = (r, w') -> outcome w w' r (fun _ q => q = with_groups l (process w));
  setgid_law g w r w' : setgid g w = (r, w') -> outcome w w' r (fun _ q =>
    exists i, q = with_gids i (process w) /\ (effective (uids (process w)) = 0%Z -> i = all_ids g));
  setuid_law u w r w' : setuid u w = (r, w') -> outcome w w' r (fun _ q =>
    exists i, q = with_uids i (process w) /\ (effective (uids (process w)) = 0%Z -> i = all_ids u));
  dup_above_law s m w r w' : dup_above s m w = (r, w') -> outcome w w' r (fun d q =>
    (m <= d)%Z /\ fds (process w) !! d = None /\ exists f c, fds (process w) !! s = Some (f, c) /\
    q = with_fds (<[d := (f, true)]> (fds (process w))) (process w));
  dup2_law s t w r w' : dup2 s t w = (r, w') -> outcome w w' r (fun _ q =>
    exists f c c', fds (process w) !! s = Some (f, c) /\ q = with_fds (<[t := (f, c')]> (fds (process w))) (process w));
  clear_cloexec_law t w r w' : clear_cloexec t w = (r, w') -> outcome w w' r (fun _ q =>
    exists f c, fds (process w) !! t = Some (f, c) /\ q = with_fds (<[t := (f, false)]> (fds (process w))) (process w));
  jail_create_law n w r w' : jail_create n w = (r, w') -> outcome w w' r (fun made q =>
    fds (process w) !! made.2 = None /\
    (exists f c, q = with_fds (<[made.2 := (f, c)]> (fds (process w))) (process w)) /\
    forall fd, fd <> made.2 -> jail_root made.1 (close_fd fd w') = Some (cwd_dir (process w), n));
  jail_attach_law j w r w' : jail_attach j w = (r, w') -> outcome w w' r (fun _ q =>
    exists f n, jail_root j w = Some (f, n) /\ q = with_jail (Some (j, n)) (with_root f (with_cwd f (process w))));
  jail_remove_law j w : process (jail_remove j w) = process w;
  send_jail_law fd j o w : process (send_jail fd j o w).2 = process w;
  read_byte_law fd w : process (read_byte fd w).2 = process w;
  send_byte_law fd b w r w' : send_byte fd b w = (r, w') -> process w' = process w /\
    match r with
    | inl _ => exists f c, fds (process w) !! fd = Some (f, c) /\ sent_bytes w' = sent_bytes w ++ [(f, b)]
    | inr _ => True
    end;
  report_started_law (w : W) : process (report_started w).2 = process w;
  program_exec_law argv env w r w' : program_exec argv env w = (r, w') -> sent_bytes w' = sent_bytes w /\
    outcome w w' r (fun _ q => q = with_image (Some (image_of argv env (process w))) (process w));
}.

Section Confinement.
Context {W : Type} `{HostFs W} `{KW : !Kernel W} `{!KernelLaws W}.

(** ** Lemmas: single calls *)

Lemma sys_cases {A} msg (m : W -> io_result A * W) w r w' :
  sys msg m w = (r, w') -> (exists e e', r = Err e /\ m w = (inr e', w')) \/ (exists a, r = Ok a /\ m w = (inl a, w')).
Proof. unfold sys. destruct (m w) as [[a|e] w1]; intros [= <- <-]; [right|left]; eauto. Qed.

Lemma sys_bind {A B} msg (m : W -> io_result A * W) (f : A -> M W B) w r w' :
  (sys msg m ≫= f) w = (r, w') ->
  (exists e e', r = Err e /\ m w = (inr e', w')) \/ (exists a w1, m w = (inl a, w1) /\ f a w1 = (r, w')).
Proof.
  intros (o & w1 & E & Hr)%M_bind_cases. apply sys_cases in E as [(e & e' & -> & E)|(a & -> & E)].
  - destruct Hr as [(? & ? & _)|(? & ? & -> & ->)]; [done|]. left. eauto.
  - destruct Hr as [(? & [= <-] & Hr)|(? & ? & _)]; [|done]. right. eauto.
Qed.

Lemma release_bind {B} fd (f : unit -> M W B) w : (release fd ≫= f) w = f tt (close_fd fd w).
Proof. done. Qed.

(** Either the rest of a computation ran from a state that [Q] describes, or
    the process still runs the launcher. *)
Definition ends {A} (r : result A) (w' : W) (Q : A -> Prop) : Prop :=
  match r with Ok a => Q a | Err _ => image (process w') = None end.

Lemma ends_bind {A B} (m : M W A) (f : A -> M W B) (P : W -> Prop) (Q : A -> W -> Prop) w r w' (R : B -> Prop) :
  P w -> (forall w r w', P w -> m w = (r, w') -> ends r w' (fun a => Q a w')) ->
  (m ≫= f) w = (r, w') -> (forall a w1, Q a w1 -> f a w1 = (r, w') -> ends r w' R) -> ends r w' R.
Proof.
  intros HP Hm (o & w1 & E & Hr)%M_bind_cases Hf. specialize (Hm _ _ _ HP E).
  destruct Hr as [(a & -> & Hr)|(e & -> & -> & ->)]; [by eapply Hf|done].
Qed.
(** One call of a sequence: its failure ends the proof, its success gives what
    the law says.  [E] is the equation of the rest of the sequence. *)
Ltac call E a w L law :=
  apply sys_bind in E as [(? & ? & -> & L)|(a & w & L & E)];
    [apply law in L; cbn [outcome] in L; cbn [ends]; rewrite L; assumption|apply law in L; cbn [outcome] in L].

(** ** Lemmas: the mapped descriptors *)

(** [m] has duplicates of the open files of [sources] at [ds], above the
    minimum, and is [m0] elsewhere. *)
Definition duplicated (minimum : Z) (m0 m : gmap Z (file * bool)) (sources ds : list Z) : Prop :=
  Forall2 (fun s d => exists f c, m0 !! s = Some (f, c) /\ m !! d = Some (f, true)) sources ds /\
  Forall (fun d => (minimum <= d)%Z /\ m0 !! d = None) ds /\ NoDup ds /\ forall fd, fd ∉ ds -> m !! fd = m0 !! fd.

Lemma with_fds_fds m p : fds (with_fds m p) = m.
Proof. done. Qed.
Lemma with_fds_with_fds m m' p : with_fds m (with_fds m' p) = with_fds m p.
Proof. done. Qed.
Lemma with_fds_id p : with_fds (fds p) p = p.
Proof. by destruct p. Qed.

Lemma duplicate_all_ends minimum sources (w w' : W) r :
  image (process w) = None -> Forall (fun s => is_Some (fds (process w) !! s)) sources ->
  duplicate_all minimum sources w = (r, w') ->
  ends r w' (fun ds => exists m, process w' = with_fds m (process w) /\ duplicated minimum (fds (process w)) m sources ds).
Proof.
  revert w r w'. induction sources as [|s ss IH]; intros w r w' Hi Hs E; cbn [duplicate_all] in E.
  - injection E as <- <-. exists (fds (process w)). split; [by rewrite with_fds_id|].
    split; [constructor|]. split; [constructor|]. split; [constructor|done].
  - apply Forall_cons in Hs as [[[f0 c0] Hs0] Hs]. call E d w1 L dup_above_law.
    destruct L as (Hmin & Hfree & f & c & Hsf & Hp). apply M_bind_cases in E as (o & w2 & E & Hr).
    apply IH in E; [|by rewrite Hp|].
    2: { rewrite Hp, with_fds_fds. eapply Forall_impl; [exact Hs|]. cbn. intros y [e He]. destruct (decide (y = d)) as [->|Hne].
         - by rewrite lookup_insert_eq. - rewrite lookup_insert_ne by done. by exists e. }
    destruct Hr as [(ds & -> & Hr)|(e & -> & -> & ->)]; [|exact E]. injection Hr as <- <-.
    destruct E as (m & Hm & Hf2 & Hfree2 & Hnd & Hsame). cbn [ends]. exists m. rewrite Hp in Hm. split; [by rewrite Hm|].
    rewrite Hp, with_fds_fds in Hf2, Hfree2, Hsame.
    assert (d ∉ ds) as Hd.
    { intros Hin. rewrite Forall_forall in Hfree2. destruct (Hfree2 _ Hin) as [_ Hn]. by rewrite lookup_insert_eq in Hn. }
    split; [|split; [|split; [by constructor|]]].
    + constructor.
      * exists f, c. split; [done|]. rewrite Hsame by done. by rewrite lookup_insert_eq.
      * clear -Hf2 Hs Hfree. induction Hf2 as [|y d' ss ds (g & c' & Hy & Hd) Hf2 IH]; constructor.
        -- apply Forall_cons in Hs as [[e He] _]. exists g. rewrite lookup_insert_ne in Hy by (intros <-; congruence). eauto.
        -- apply IH. by apply Forall_cons in Hs as [_ ?].
    + constructor; [done|]. eapply Forall_impl; [exact Hfree2|]. cbn. intros y [Hy Hn]. split; [done|].
      by destruct (decide (y = d)) as [->|Hne]; [|rewrite lookup_insert_ne in Hn].
    + intros fd Hfd. apply not_elem_of_cons in Hfd as [Hne Hfd]. rewrite Hsame by done. by rewrite lookup_insert_ne.
Qed.

(** [m'] has the files of [ds] at [targets] and nothing at [ds]. *)
Definition mapped (m m' : gmap Z (file * bool)) (targets ds : list Z) : Prop :=
  Forall2 (fun t d => exists f c, m !! d = Some (f, c) /\ m' !! t = Some (f, false)) targets ds /\
  (forall d, d ∈ ds -> m' !! d = None) /\ forall fd, fd ∉ targets -> fd ∉ ds -> m' !! fd = m !! fd.

Lemma map_all_ends targets ds (w w' : W) r :
  image (process w) = None -> length targets = length ds -> NoDup targets -> NoDup ds -> (forall d, d ∈ ds -> d ∉ targets) ->
  for_each map_one (zip targets ds) w = (r, w') ->
  ends r w' (fun _ => exists m, process w' = with_fds m (process w) /\ mapped (fds (process w)) m targets ds).
Proof.
  revert ds w r w'. induction targets as [|t ts IH]; intros [|d ds] w r w' Hi Hl Ht Hd Hdt E; try done; cbn [zip zip_with for_each] in E.
  - injection E as <- <-. exists (fds (process w)). split; [by rewrite with_fds_id|]. split; [constructor|]. split; [|done].
    by intros d ?%elem_of_nil.
  - apply NoDup_cons in Ht as [Hnt Ht]. apply NoDup_cons in Hd as [Hnd Hd].
    apply M_bind_cases in E as (o & w1 & E1 & Hr). unfold map_one in E1. cbn [fst snd] in E1.
    assert (ends o w1 (fun _ => exists f c, fds (process w) !! d = Some (f, c) /\
      process w1 = with_fds (delete d (<[t := (f, false)]> (fds (process w)))) (process w))) as Ho.
    { call E1 u2 w2 L dup2_law. destruct L as (f & c & c' & Hf & Hp). assert (image (process w2) = None) as Hi2 by by rewrite Hp.
      call E1 u3 w3 L2 clear_cloexec_law. destruct L2 as (f2 & c2 & Hf2 & Hp2). injection E1 as <- <-. cbn [ends].
      exists f, c. split; [done|]. rewrite close_law, Hp2, Hp, !with_fds_with_fds, !with_fds_fds.
      rewrite Hp, with_fds_fds, lookup_insert_eq in Hf2. injection Hf2 as <- <-. by rewrite insert_insert_eq. }
    destruct Hr as [(u & -> & Hr)|(e & -> & -> & ->)]; [|exact Ho]. destruct Ho as (f & c & Hf & Hp).
    apply IH in Hr; [|by rewrite Hp|by injection Hl|done|done|intros d' Hd' Hin; apply (Hdt d'); by right].
    destruct r as [u'|e]; [|exact Hr]. destruct Hr as (m & Hm & Hf2 & Hgone & Hsame). cbn [ends].
    assert (d <> t) as Hdt' by (intros ->; apply (Hdt t); left).
    exists m. rewrite Hp in Hm. split; [by rewrite Hm|]. rewrite Hp, with_fds_fds in Hf2, Hsame. split; [|split].
    + constructor.
      * exists f, c. split; [done|]. rewrite Hsame; [by rewrite lookup_delete_ne, lookup_insert_eq|done|].
        intros Hin. apply (Hdt t); [by right|left].
      * assert (forall d', d' ∈ ds -> d' <> t) as Ht' by (intros d' Hd' ->; apply (Hdt t); [by right|left]).
        clear -Hf2 Hnd Ht'. induction Hf2 as [|t2 d2 ts ds (f2 & c2 & H1 & H2) Hf2 IH]; constructor.
        -- exists f2, c2. split; [|done]. apply lookup_delete_Some in H1 as [_ H1].
           rewrite lookup_insert_ne in H1 by (intros <-; apply (Ht' t); [left|done]). done.
        -- apply IH; [by intros ?; apply Hnd; right|]. intros d' ?. apply Ht'. by right.
    + intros d' [->|Hd']%elem_of_cons; [|by apply Hgone]. rewrite Hsame; [by rewrite lookup_delete_eq| |done].
      intros Hin. apply (Hdt d); [left|by right].
    + intros fd Hfd Hfd2. apply not_elem_of_cons in Hfd as [? Hfd], Hfd2 as [? Hfd2].
      rewrite Hsame by done. by rewrite lookup_delete_ne, lookup_insert_ne.
Qed.

(** The targets are below the temporary duplicates. *)
Lemma fold_max_ge l a : (a <= fold_left Z.max l a)%Z /\ forall x, x ∈ l -> (x <= fold_left Z.max l a)%Z.
Proof.
  revert a. induction l as [|b l IH]; intros a; cbn; [split; [lia|by intros x ?%elem_of_nil]|].
  destruct (IH (Z.max a b)) as [H1 H2]. split; [lia|]. intros x [->|Hx]%elem_of_cons; [lia|by apply H2].
Qed.

Lemma fold_max_le l a b : (a <= b)%Z -> Forall (fun x => (x <= b)%Z) l -> (fold_left Z.max l a <= b)%Z.
Proof.
  revert a. induction l as [|x l IH]; intros a Ha Hl; cbn; [done|]. apply Forall_cons in Hl as [Hx Hl]. apply IH; [lia|done].
Qed.

Lemma minimum_above targets t :
  Forall (fun t => (0 <= t <= MAX_TARGET_FD)%Z) targets -> t ∈ targets -> (t < minimum_duplicate targets)%Z.
Proof.
  intros Hf Ht. destruct targets as [|a l]; [by apply elem_of_nil in Ht|]. unfold minimum_duplicate.
  apply Forall_cons in Hf as [Ha Hl]. set (m := fold_left Z.max l a).
  assert (m <= MAX_TARGET_FD)%Z as Hm.
  { apply fold_max_le; [lia|]. eapply Forall_impl; [exact Hl|]. cbn. lia. }
  assert (t <= m)%Z by (destruct (fold_max_ge l a) as [H1 H2]; apply elem_of_cons in Ht as [->|Ht]; [done|by apply H2]).
  rewrite (proj2 (Z.ltb_lt _ _)) by (unfold MAX_TARGET_FD in Hm; lia). lia.
Qed.

(** The descriptors after the mapping. *)
Definition remapped (m m' : gmap Z (file * bool)) (targets sources : list Z) : Prop :=
  (forall i t s, targets !! i = Some t -> sources !! i = Some s ->
     exists f c, m !! s = Some (f, c) /\ m' !! t = Some (f, false)) /\
  (forall fd, fd ∉ targets -> m' !! fd = m !! fd).

Lemma map_nested_fds_ends targets sources (w w' : W) r :
  image (process w) = None -> length targets = length sources -> fds_ok targets ->
  Forall (fun s => is_Some (fds (process w) !! s)) sources ->
  map_nested_fds targets sources w = (r, w') ->
  ends r w' (fun _ => exists m, process w' = with_fds m (process w) /\ remapped (fds (process w)) m targets sources).
Proof.
  intros Hi Hl (_ & Hnd & Hrange) Hs E. unfold map_nested_fds in E.
  apply M_bind_cases in E as (o & w1 & E1 & Hr). apply duplicate_all_ends in E1; [|done|done].
  destruct Hr as [(ds & -> & Hr)|(e & -> & -> & ->)]; [|exact E1]. destruct E1 as (m & Hm & Hf & Hmin & Hndd & Hsame).
  assert (forall d, d ∈ ds -> d ∉ targets) as Hdt.
  { intros d Hd Ht. rewrite Forall_forall in Hmin. destruct (Hmin _ Hd) as [Hge _].
    pose proof (minimum_above _ _ Hrange Ht). lia. }
  apply map_all_ends in Hr; [|by rewrite Hm|by rewrite Hl; eapply Forall2_length|done|done|done].
  destruct r as [u|e]; [|exact Hr]. destruct Hr as (m' & Hm' & Hmap & Hgone & Hrest).
  exists m'. rewrite Hm in Hm'. split; [by rewrite Hm'|]. rewrite Hm, with_fds_fds in Hmap, Hrest. split.
  - intros i t s Ht Hsi. destruct (Forall2_lookup_l _ _ _ _ _ Hmap Ht) as (d & Hd & f & c & Hmd & Hmt).
    destruct (Forall2_lookup_lr _ _ _ _ _ _ Hf Hsi Hd) as (f' & c' & Hms & Hmd'). rewrite Hmd in Hmd'. injection Hmd' as <- ->.
    by exists f, c'.
  - intros fd Hfd. destruct (decide (fd ∈ ds)) as [Hd|Hd].
    + rewrite Hgone by done. rewrite Forall_forall in Hmin. by destruct (Hmin _ Hd) as [_ ->].
    + rewrite Hrest by done. by apply Hsame.
Qed.

(** ** Lemmas: entering the root *)

(** The process inside the root [f]: still privileged, with the descriptors it
    had before the root was opened, and in a jail if the launch is isolated. *)
Definition in_jail (mode : JailMode) (before after : option (Z * bool)) : Prop :=
  match mode with
  | Direct => after = before
  | Sandbox => exists j, after = Some (j, false)
  | NoNetwork => exists j, after = Some (j, true)
  end.

Definition entered (mode : JailMode) (f : file) (q p : Process) : Prop :=
  image p = None /\ effective (uids p) = 0%Z /\ root_dir p = f /\ fds p = fds q /\ in_jail mode (jail_of q) (jail_of p).

(** The root is open at [root_fd], a number that was free. *)
Definition anchored (root_fd : Z) (f : file) (q p : Process) : Prop :=
  fds q !! root_fd = None /\ p = with_fds (<[root_fd := (f, true)]> (fds q)) q.

Lemma enter_chroot_ends root_fd f q (w w' : W) r :
  image q = None -> effective (uids q) = 0%Z -> anchored root_fd f q (process w) ->
  enter_chroot root_fd w = (r, w') -> ends r w' (fun _ => entered Direct f q (process w')).
Proof.
  intros Hi He [Hfree Hp] E. unfold enter_chroot in E.
  assert (image (process w) = None) as Hi0 by by rewrite Hp. call E u1 w1 L1 fchdir_law.
  destruct L1 as (f1 & c1 & Hf1 & Hp1). rewrite Hp, with_fds_fds, lookup_insert_eq in Hf1. injection Hf1 as <- <-.
  assert (image (process w1) = None) as Hi1 by by rewrite Hp1. call E u2 w2 L2 chroot_law.
  assert (image (process w2) = None) as Hi2 by by rewrite L2. call E u3 w3 L3 chdir_law. destruct L3 as [d L3].
  injection E as <- <-. cbn [ends]. rewrite close_law, L3, L2, Hp1, Hp. unfold entered. cbn.
  split; [done|]. split; [done|]. split; [done|]. split; [by apply delete_insert_id|done].
Qed.

Lemma read_byte_process fd (w : W) r w' : read_byte fd w = (r, w') -> process w' = process w.
Proof. intros E. pose proof (read_byte_law fd w) as L. by rewrite E in L. Qed.
Lemma send_jail_process fd j o (w : W) r w' : send_jail fd j o w = (r, w') -> process w' = process w.
Proof. intros E. pose proof (send_jail_law fd j o w) as L. by rewrite E in L. Qed.
Lemma report_started_process (w : W) r w' : report_started w = (r, w') -> process w' = process w.
Proof. intros E. pose proof (report_started_law w) as L. by rewrite E in L. Qed.

(** A call that does not change the process. *)
Lemma silent_call {A B} msg (m : W -> io_result A * W) (f : A -> M W B) (w : W) r w' (R : B -> Prop) :
  image (process w) = None -> (forall r w', m w = (r, w') -> process w' = process w) -> (sys msg m ≫= f) w = (r, w') ->
  (forall a w1, process w1 = process w -> f a w1 = (r, w') -> ends r w' R) -> ends r w' R.
Proof.
  intros Hi Hm E Hf. apply sys_bind in E as [(e & e' & -> & E)|(a & w1 & E & Hr)].
  - cbn [ends]. by rewrite (Hm _ _ E).
  - by apply (Hf a w1); [apply (Hm _ _ E)|].
Qed.

Lemma enter_jail_ends root_fd lifecycle no_network f q (w w' : W) r :
  image q = None -> effective (uids q) = 0%Z -> anchored root_fd f q (process w) ->
  enter_jail root_fd lifecycle no_network w = (r, w') ->
  ends r w' (fun _ => entered (if no_network then NoNetwork else Sandbox) f q (process w')).
Proof.
  intros Hi He [Hfree Hp] E. unfold enter_jail in E. assert (image (process w) = None) as Hi0 by by rewrite Hp.
  call E u1 w1 L1 setuid_law. destruct L1 as (i1 & Hp1 & L1). rewrite L1 in Hp1 by by rewrite Hp.
  assert (image (process w1) = None) as Hi1 by by rewrite Hp1. call E u2 w2 Hp2 setgroups_law.
  assert (image (process w2) = None) as Hi2 by by rewrite Hp2. call E u3 w3 L3 setgid_law. destruct L3 as (i3 & Hp3 & _).
  assert (image (process w3) = None) as Hi3 by by rewrite Hp3. call E u4 w4 L4 fchdir_law. destruct L4 as (f4 & c4 & Hf4 & Hp4).
  assert (fds (process w3) = <[root_fd := (f, true)]> (fds q)) as Hfd3 by by rewrite Hp3, Hp2, Hp1, Hp.
  rewrite Hfd3, lookup_insert_eq in Hf4. injection Hf4 as <- <-.
  assert (image (process w4) = None) as Hi4 by by rewrite Hp4.
  call E made w5 L5 jail_create_law. destruct L5 as (Hofree & (fo & co & Hp5) & Hroot). destruct made as [jail owner]. cbn [fst snd] in *.
  rewrite release_bind in E. assert (fds (process w4) = <[root_fd := (f, true)]> (fds q)) as Hfd4 by by rewrite Hp4.
  assert (root_fd <> owner) as Hne by (intros ->; rewrite Hfd4, lookup_insert_eq in Hofree; done).
  specialize (Hroot _ Hne). set (w6 := close_fd root_fd w5) in *.
  assert (process w6 = with_fds (<[owner := (fo, co)]> (fds q)) (process w4)) as Hp6.
  { subst w6. rewrite close_law, Hp5, with_fds_with_fds, with_fds_fds, Hfd4. f_equal. rewrite delete_insert_ne by done.
    by rewrite delete_insert_id. }
  unfold catch in E. unfold mbind at 1, M_bind at 1 in E.
  destruct (sys "attach nested sandbox jail" (jail_attach jail) w6) as [o w7] eqn:Ea.
  apply sys_cases in Ea as [(e & e' & -> & Ea)|(u & -> & Ea)].
  { injection E as <- <-. cbn [ends]. apply jail_attach_law in Ea. cbn [outcome] in Ea. by rewrite jail_remove_law, Ea, Hp6. }
  apply jail_attach_law in Ea as (f7 & n7 & Hr7 & Hp7). rewrite Hroot in Hr7. injection Hr7 as <- <-.
  assert (image (process w7) = None) as Hi7 by by rewrite Hp7, Hp6.
  eapply silent_call; [exact Hi7|intros; by eapply send_jail_process|exact E|]. clear E. intros u8 w8 Hp8 E.
  eapply silent_call; [by rewrite Hp8|intros; by eapply read_byte_process|exact E|]. clear E. intros [b|] w9 Hp9 E.
  2: { injection E as <- <-. cbn. by rewrite Hp9, Hp8. }
  destruct (Z.eqb_spec b 1) as [->|]; [|injection E as <- <-; cbn; by rewrite Hp9, Hp8].
  injection E as <- <-. cbn [ends]. rewrite close_law, Hp9, Hp8, Hp7, Hp6, Hp4, Hp3, Hp2, Hp1, Hp. unfold entered. cbn.
  split; [done|]. split; [done|]. split; [done|]. split; [|by destruct no_network; exists jail].
  apply delete_insert_id. rewrite Hfd4 in Hofree. by apply lookup_insert_None in Hofree as [? _].
Qed.

(** ** Lemmas: the whole execution *)

(** The process before it is replaced. *)
Definition ready (r : Request) (real_uid real_gid : Z) (targets sources : list Z) (q p : Process) : Prop :=
  image p = None /\ uids p = all_ids real_uid /\ gids p = all_ids real_gid /\ groups_of p = rq_groups r /\
  root_dir p = (rq_root_device r, rq_root_inode r) /\ in_jail (rq_jail_mode r) (jail_of q) (jail_of p) /\
  remapped (fds q) (fds p) targets sources.

Lemma drop_credentials_ends r real_uid real_gid (w w' : W) o :
  image (process w) = None -> effective (uids (process w)) = 0%Z ->
  drop_credentials r real_uid real_gid w = (o, w') ->
  ends o w' (fun _ => process w' =
    with_uids (all_ids real_uid) (with_gids (all_ids real_gid) (with_groups (rq_groups r) (process w)))).
Proof.
  intros Hi He E. unfold drop_credentials in E. call E u1 w1 Hp1 setgroups_law.
  assert (image (process w1) = None) as Hi1 by by rewrite Hp1. call E u2 w2 L2 setgid_law. destruct L2 as (i2 & Hp2 & L2).
  rewrite L2 in Hp2 by by rewrite Hp1. assert (image (process w2) = None) as Hi2 by by rewrite Hp2.
  call E u3 w3 L3 setuid_law. destruct L3 as (i3 & Hp3 & L3). rewrite L3 in Hp3 by by rewrite Hp2, Hp1.
  rewrite gets_bind in E. assert (process w3 = with_uids (all_ids real_uid) (with_gids (all_ids real_gid)
    (with_groups (rq_groups r) (process w)))) as Hp by by rewrite Hp3, Hp2, Hp1.
  destruct (_ || _); injection E as <- <-; cbn; [by rewrite Hp|exact Hp].
Qed.

(** The end of [execute_with_mappings], from a process that is ready. *)
Definition started (r : Request) (lifecycle : option Z) (w w' : W) : Prop :=
  exists w1, process w1 = process w /\
    (forall l, lifecycle = Some l -> exists u, send_byte l 2 w = (inl u, w1)) /\
    exists u, program_exec (rq_argv r) (omap split_environment (rq_environment r)) w1 = (inl u, w').

Lemma execute_ends r real_uid real_gid targets sources lifecycle (w w' : W) o :
  effective (uids (process w)) = 0%Z -> image (process w) = None -> fds_ok targets -> length targets = length sources ->
  Forall (fun s => is_Some (fds (process w) !! s)) sources ->
  execute_with_mappings r real_uid real_gid targets sources lifecycle w = (o, w') ->
  ends o w' (fun _ => exists w1, ready r real_uid real_gid targets sources (process w) (process w1) /\ started r lifecycle w1 w').
Proof.
  intros He Hi Hok Hl Hs E. unfold execute_with_mappings, open_directory in E. call E root_fd w1 L1 open_dir_law.
  destruct L1 as (Hfree & f & Hp1). assert (image (process w1) = None) as Hi1 by by rewrite Hp1.
  apply M_bind_cases in E as (oid & w2 & Eid & E). unfold getr in Eid. injection Eid as Eid <-.
  destruct E as [(id & -> & E)|(e & -> & -> & ->)]; [|exact Hi1].
  destruct (bool_decide _) eqn:Hid; [|injection E as <- <-; exact Hi1]. apply bool_decide_eq_true in Hid. cbn [negb] in E.
  assert (f = (rq_root_device r, rq_root_inode r)) as ->.
  { unfold file_identity_fd in Eid. apply fmap_ok in Eid as (st & Est & ->). rewrite <- Hid.
    destruct (fstat root_fd w1) as [st'|] eqn:Ef; [|done]. injection Est as ->. apply fstat_law in Ef as [c Ef].
    rewrite Hp1, with_fds_fds, lookup_insert_eq in Ef. by injection Ef. }
  assert (anchored root_fd (rq_root_device r, rq_root_inode r) (process w) (process w1)) as Hanch by by split.
  eapply (ends_bind _ _ (fun v => v = w1) (fun _ v => entered (rq_jail_mode r) (rq_root_device r, rq_root_inode r) (process w) (process v)));
    [reflexivity| |exact E|].
  { intros w0 o0 w0' -> E0. case_bool_decide as Hm.
    - rewrite Hm. by eapply enter_chroot_ends.
    - apply M_bind_cases in E0 as (ol & w3 & El & E0). unfold lift in El. injection El as El <-.
      destruct E0 as [(l & -> & E0)|(e & -> & -> & ->)]; [|exact Hi1]. apply enter_jail_ends with (q := process w) (f := (rq_root_device r, rq_root_inode r)) in E0; [|done..].
      destruct o0; [|exact E0]. cbn [ends] in *. by destruct (rq_jail_mode r). }
  clear E. intros u2 w2 Hent E.
  eapply (ends_bind _ _ (fun v => v = w2) (fun _ v => entered (rq_jail_mode r) (rq_root_device r, rq_root_inode r) (process w) (process v)));
    [reflexivity| |exact E|].
  { intros w0 o0 w0' -> E0. destruct (rq_cwd r) as [c|]; [|by injection E0 as <- <-].
    destruct Hent as (H1 & H2 & H3 & H4 & H5). apply sys_cases in E0 as [(e & e' & -> & E0)|(u & -> & E0)]; apply chdir_law in E0; cbn [outcome] in E0.
    - cbn [ends]. by rewrite E0.
    - destruct E0 as [d E0]. cbn [ends]. rewrite E0. by unfold entered. }
  clear E. intros u3 w3 (H1 & H2 & H3 & H4 & H5) E.
  apply M_bind_cases in E as (om & w4 & Em & E). apply map_nested_fds_ends in Em; [|done|done|done|by rewrite H4].
  destruct E as [(u4 & -> & E)|(e & -> & -> & ->)]; [|exact Em]. destruct Em as (m & Hp4 & Hm). rewrite H4 in Hm.
  apply M_bind_cases in E as (od & w5 & Ed & E). apply drop_credentials_ends in Ed; [|by rewrite Hp4|by rewrite Hp4].
  destruct E as [(u5 & -> & E)|(e & -> & -> & ->)]; [|exact Ed]. cbn [ends] in Ed.
  assert (ready r real_uid real_gid targets sources (process w) (process w5)) as Hready.
  { rewrite Ed, Hp4. unfold ready. cbn. done. }
  assert (image (process w5) = None) as Hi5 by apply Hready.
  assert (forall w6 o', process w6 = process w5 -> (forall l, lifecycle = Some l -> exists u, send_byte l 2 w5 = (inl u, w6)) ->
    sys "execute sandbox program" (program_exec (rq_argv r) (omap split_environment (rq_environment r))) w6 = (o', w') ->
    ends o' w' (fun _ => exists w1, ready r real_uid real_gid targets sources (process w) (process w1) /\ started r lifecycle w1 w')) as Hend.
  { intros w6 o' Hp6 Hsend Ex. apply sys_cases in Ex as [(e & e' & -> & Ex)|(u & -> & Ex)].
    - apply program_exec_law in Ex as [_ Ex]. cbn in *. by rewrite Ex, Hp6.
    - cbn [ends]. exists w5. split; [done|]. exists w6. split; [done|]. split; [done|]. by exists u. }
  destruct lifecycle as [l|].
  - apply sys_bind in E as [(e & e' & -> & E)|(u & w6 & E6 & E)].
    + apply send_byte_law in E as [Hp _]. cbn [ends]. by rewrite Hp.
    + apply (Hend w6); [by apply send_byte_law in E6 as [? _]| |done]. intros l' [= <-]. by exists u.
  - eapply silent_call; [done|intros; by eapply report_started_process|exact E|]. clear E. intros u6 w6 Hp6 E. by apply (Hend w6).
Qed.

(** ** Lemmas: validation *)

(** A validated root, as it was found: the canonical paths, the private runtime
    root, and what [fstat] told of the directory and of its [.flatpak-info]. *)
Definition validated (w : W) (root runtime_root : path) (id : file) (uid : Z) : Prop :=
  (exists root' rt a b rt_stat,
    canonicalize w root = inl root' /\ canonicalize w runtime_root = inl rt /\
    components root' = components (join_path rt "chroots") ++ [Normal a; Normal b] /\
    path_metadata rt w = inl rt_stat /\ st_uid rt_stat = uid /\ Z.land (st_mode rt_stat) 63 = 0%Z) /\
  exists w1 root_fd info st1 st2,
    fstat root_fd w1 = inl st1 /\ identity_of st1 = id /\ st_uid st1 = uid /\
    fstat info w1 = inl st2 /\ st_uid st2 = uid /\ is_regular (st_mode st2) = true.

Lemma chroots_components p : components (join_path p "chroots") <> [].
Proof.
  destruct (string_nil_dec p) as [->|Hp]; [done|]. rewrite components_join_name; [by destruct (components p)|done|].
  by split.
Qed.

Lemma two_names parts : length parts = 2%nat -> existsb (fun c => negb (normal c)) parts = false ->
  exists a b, parts = [Normal a; Normal b].
Proof. destruct parts as [|[] [|[] [|]]]; try done. eauto. Qed.

Lemma open_at_process d n (w w' : W) r : open_at d n w = (r, w') -> image (process w) = None -> image (process w') = None.
Proof. intros E Hi. apply open_at_law in E. destruct r; cbn [outcome] in E; [|by rewrite E]. by destruct E as (_ & f & ->). Qed.

(** Validation keeps everything of the process but its descriptors, and of
    these only new ones are touched. *)
Lemma validate_root_ends root runtime_root device inode uid (w w' : W) o :
  image (process w) = None -> validate_sandbox_root root runtime_root device inode uid w = (o, w') ->
  ends o w' (fun _ => process w' = process w /\ validated w root runtime_root (device, inode) uid).
Proof.
  intros Hi E. unfold validate_sandbox_root in E.
  apply M_bind_cases in E as (o1 & w1 & E1 & E). unfold getr in E1. injection E1 as E1 <-.
  destruct E as [(root' & -> & E)|(e & -> & -> & ->)]; [|exact Hi].
  apply M_bind_cases in E as (o2 & w2 & E2 & E). unfold getr in E2. injection E2 as E2 <-.
  destruct E as [(rt & -> & E)|(e & -> & -> & ->)]; [|exact Hi].
  apply M_bind_cases in E as (o3 & w3 & E3 & E). unfold getr in E3. injection E3 as E3 <-.
  destruct E as [(st & -> & E)|(e & -> & -> & ->)]; [|exact Hi].
  destruct (_ || _) eqn:Hp; [injection E as <- <-; exact Hi|]. apply orb_false_iff in Hp as [Hp1%negb_false_iff%Z.eqb_eq Hp2%negb_false_iff%Z.eqb_eq].
  apply M_bind_cases in E as (o4 & w4 & E4 & E). unfold lift in E4. injection E4 as E4 <-.
  destruct E as [(rel & -> & E)|(e & -> & -> & ->)]; [|exact Hi]. cbv zeta in E.
  destruct (negb (Nat.eqb (length (components rel)) 2) || _) eqn:Hparts; [injection E as <- <-; exact Hi|].
  apply orb_false_iff in Hparts as [Hlen%negb_false_iff%Nat.eqb_eq Hnorm]. destruct (two_names _ Hlen Hnorm) as (a & b & Hab).
  call E root_fd w5 L5 open_dir_law. destruct L5 as (Hfree & f & Hp5).
  assert (image (process w5) = None) as Hi5 by by rewrite Hp5.
  apply M_bind_cases in E as (o6 & w6 & E6 & E). unfold getr in E6. injection E6 as E6 <-.
  destruct E as [(id & -> & E)|(e & -> & -> & ->)]; [|exact Hi5].
  destruct (bool_decide _) eqn:Hid; [|injection E as <- <-; exact Hi5]. apply bool_decide_eq_true in Hid. cbn [negb] in E.
  call E info w7 L7 open_at_law. destruct L7 as (Hfree7 & f7 & Hp7). assert (image (process w7) = None) as Hi7 by by rewrite Hp7.
  apply M_bind_cases in E as (o8 & w8 & E8 & E). unfold getr in E8. injection E8 as E8 <-.
  destruct E as [(st1 & -> & E)|(e & -> & -> & ->)]; [|exact Hi7].
  apply M_bind_cases in E as (o9 & w9 & E9 & E). unfold getr in E9. injection E9 as E9 <-.
  destruct E as [(st2 & -> & E)|(e & -> & -> & ->)]; [|exact Hi7].
  destruct (_ || _ || _) eqn:Hst; [injection E as <- <-; exact Hi7|]. injection E as <- <-. cbn [ends].
  apply orb_false_iff in Hst as [[Hst1%negb_false_iff%Z.eqb_eq Hst2%negb_false_iff%Z.eqb_eq]%orb_false_iff Hst3%negb_false_iff].
  assert (fds (process w5) !! root_fd = Some (f, true)) as Hroot by by rewrite Hp5, with_fds_fds, lookup_insert_eq.
  split; [|split].
  - rewrite !close_law, Hp7, Hp5, !with_fds_with_fds, !with_fds_fds.
    rewrite delete_insert_id by (by rewrite Hp5, with_fds_fds in Hfree7). rewrite delete_insert_id by done. apply with_fds_id.
  - exists root', rt, a, b, st. destruct (canonicalize w root); [|done]. injection E1 as ->.
    destruct (canonicalize w runtime_root); [|done]. injection E2 as ->.
    destruct (path_metadata rt w); [|done]. injection E3 as ->. apply ok_or_ok in E4.
    destruct (strip_path_prefix_components _ _ _ (chroots_components rt) E4) as [E5 _]. by rewrite <- Hab.
  - unfold file_identity_fd in E6. apply fmap_ok in E6 as (st6 & E6 & ->).
    destruct (fstat root_fd w5) as [st5|] eqn:F5; [|done]. injection E6 as <-. apply fstat_law in F5 as [c F5].
    rewrite Hroot in F5. injection F5 as Hf _. rewrite Hid in Hf. exists w7, root_fd, info, st1, st2.
    destruct (fstat root_fd w7) as [s1|] eqn:F1; [|done]. injection E8 as ->. apply fstat_law in F1 as [c1 F1].
    destruct (fstat info w7) as [s2|] eqn:F2; [|done]. injection E9 as ->.
    rewrite Hp7, with_fds_fds, lookup_insert_ne in F1 by (intros ->; congruence).
    rewrite Hroot in F1. injection F1 as F1 _. rewrite <- F1, Hf. done.
Qed.

Lemma validate_ends allowed r uid gid (w w' : W) o :
  image (process w) = None -> validate allowed r uid gid w = (o, w') ->
  ends o w' (fun _ => process w' = process w /\ rq_uid r = uid /\ rq_gid r = gid /\
    validated w (rq_root r) (rq_runtime_root r) (rq_root_device r, rq_root_inode r) uid /\
    (exists gs, allowed w = Ok gs /\ Forall (fun g => g ∈ gs) (rq_groups r)) /\ cwd_allowed (rq_cwd r) = true).
Proof.
  intros Hi E. unfold validate in E. destruct (_ || _) eqn:Hid; [injection E as <- <-; exact Hi|].
  apply orb_false_iff in Hid as [Hu%negb_false_iff%Z.eqb_eq Hg%negb_false_iff%Z.eqb_eq].
  apply M_bind_cases in E as (o1 & w1 & E1 & E). unfold getr in E1. injection E1 as E1 <-.
  destruct E as [(gs & -> & E)|(e & -> & -> & ->)]; [|exact Hi].
  destruct (existsb _ _) eqn:Hgs; [injection E as <- <-; exact Hi|].
  apply M_bind_cases in E as (o2 & w2 & E2 & E). apply validate_root_ends in E2; [|done].
  destruct E as [(u & -> & E)|(e & -> & -> & ->)]; [|exact E2]. destruct E2 as [Hp2 Hv].
  destruct (cwd_allowed (rq_cwd r)) eqn:Hc; injection E as <- <-; cbn; [|by rewrite Hp2].
  do 4 (split; [done|]). split; [|done].
  exists gs. split; [done|]. apply Forall_forall. intros g Hin. destruct (decide (g ∈ gs)) as [|Hn]; [done|].
  assert (existsb (fun g => negb (bool_decide (g ∈ gs))) (rq_groups r) = true) as Ht; [|congruence].
  apply existsb_exists. exists g. split; [by apply list_elem_of_In|]. by rewrite bool_decide_false.
Qed.

(** ** Properties *)

(** The program that runs: with the identity and the groups of the request, in
    the directory whose identity the request states, in a jail of its own when
    the launch is isolated, with the descriptors that were mapped and otherwise
    those the launcher was started with. *)
Definition confined (r : Request) (real_uid real_gid : Z) (targets sources : list Z) (q : Process) (i : Image) : Prop :=
  im_argv i = rq_argv r /\ im_environment i = omap split_environment (rq_environment r) /\
  im_uids i = all_ids real_uid /\ im_gids i = all_ids real_gid /\ im_groups i = rq_groups r /\
  im_root i = (rq_root_device r, rq_root_inode r) /\ in_jail (rq_jail_mode r) (jail_of q) (im_jail i) /\
  (forall k t s, targets !! k = Some t -> sources !! k = Some s ->
     exists f c, fds q !! s = Some (f, c) /\ im_fds i !! t = Some f) /\
  (forall fd, fd ∉ targets -> im_fds i !! fd = inherited (fds q) !! fd).

Lemma ready_confined r ru rg targets sources q p :
  ready r ru rg targets sources q p ->
  confined r ru rg targets sources q (image_of (rq_argv r) (omap split_environment (rq_environment r)) p).
Proof.
  intros (_ & H1 & H2 & H3 & H4 & H5 & H6 & H7). unfold confined, image_of. cbn.
  do 2 (split; [done|]). do 5 (split; [done|]). split.
  - intros k t s Ht Hs. destruct (H6 _ _ _ Ht Hs) as (f & c & Hf & Hm). exists f, c. split; [done|].
    unfold inherited. by rewrite lookup_omap, Hm.
  - intros fd Hfd. unfold inherited. by rewrite !lookup_omap, H7.
Qed.

Lemma started_image r lifecycle (w w' : W) : started r lifecycle w w' ->
  image (process w') = Some (image_of (rq_argv r) (omap split_environment (rq_environment r)) (process w)).
Proof. intros (w1 & Hp & _ & u & E). apply program_exec_law in E as [_ E]. cbn in E. by rewrite E, Hp. Qed.

(** C1.  Whatever the calls of the kernel answer and whatever happens to the
    file system meanwhile, a privileged execution of a request either fails
    without running anything, or runs the requested program confined: with the
    requested identity only, in the validated directory, with exactly the
    mapped descriptors beside the inherited ones. *)
Theorem execution_is_confined r real_uid real_gid targets sources lifecycle (w w' : W) o :
  effective (uids (process w)) = 0%Z -> image (process w) = None -> fds_ok targets -> length targets = length sources ->
  Forall (fun s => is_Some (fds (process w) !! s)) sources ->
  execute_with_mappings r real_uid real_gid targets sources lifecycle w = (o, w') ->
  match o with
  | Ok _ => exists i, image (process w') = Some i /\ confined r real_uid real_gid targets sources (process w) i
  | Err _ => image (process w') = None
  end.
Proof.
  intros He Hi Hok Hl Hs E. apply execute_ends in E; [|done..]. destruct o as [u|e]; [|exact E].
  destruct E as (w1 & Hr & Hst). eexists. split; [by eapply started_image|]. by apply ready_confined.
Qed.

(** C3.  The setuid helper runs a program only for its caller: with the
    caller's identifiers, groups the caller has, in a directory that lies two
    names below [chroots] in a runtime root that is the caller's and private. *)
Theorem helper_runs_for_caller args (w w' : W) o :
  image (process w) = None -> run_helper args w = (o, w') ->
  match o with
  | Ok _ => exists r i, parse args = Ok r /\ image (process w') = Some i /\
      confined r (real (uids (process w))) (real (gids (process w))) [] [] (process w) i /\
      real (uids (process w)) <> 0%Z /\ 
      validated w (rq_root r) (rq_runtime_root r) (rq_root_device r, rq_root_inode r) (real (uids (process w))) /\
      Forall (fun g => g = real (gids (process w)) \/ g ∈ groups_of (process w)) (rq_groups r)
  | Err _ => image (process w') = None
  end.
Proof.
  intros Hi E. unfold run_helper in E. rewrite gets_bind in E.
  destruct (Z.eqb_spec (effective (uids (process w))) 0) as [He|]; [cbn [negb] in E|injection E as <- <-; exact Hi].
  destruct (Z.eqb_spec (real (uids (process w))) 0) as [|Hne]; [injection E as <- <-; exact Hi|].
  apply M_bind_cases in E as (o1 & w1 & E1 & E). unfold lift in E1. injection E1 as E1 <-.
  destruct E as [(r & -> & E)|(e & -> & -> & ->)]; [|exact Hi].
  apply M_bind_cases in E as (o2 & w2 & E2 & E). apply validate_ends in E2; [|done].
  destruct E as [(u & -> & E)|(e & -> & -> & ->)]; [|exact E2].
  destruct E2 as (Hp & Hu & Hg & Hv & (gs & Hgs & Hin) & Hc). unfold execute in E.
  apply execute_ends in E; [|by rewrite Hp..|split; [cbn; lia|split; constructor]|done|constructor].
  destruct o as [u'|e]; [|exact E]. destruct E as (w3 & Hr & Hst). exists r. eexists. split; [done|].
  split; [by eapply started_image|]. split; [by rewrite Hp in Hr; apply ready_confined|]. do 2 (split; [done|]).
  injection Hgs as <-. eapply Forall_impl; [exact Hin|]. cbn. intros g [->|?]%elem_of_cons; auto.
Qed.

(** When a request maps the number that the child's end of the lifecycle
    socket has, the byte that tells the supervisor the program is ready is
    written to the caller's file instead. *)
Theorem readiness_byte_goes_to_mapped_file r real_uid real_gid targets sources k l s (w w' : W) :
  effective (uids (process w)) = 0%Z -> image (process w) = None -> fds_ok targets -> length targets = length sources ->
  Forall (fun s => is_Some (fds (process w) !! s)) sources -> targets !! k = Some l -> sources !! k = Some s ->
  execute_with_mappings r real_uid real_gid targets sources (Some l) w = (Ok tt, w') ->
  exists f c before, fds (process w) !! s = Some (f, c) /\ sent_bytes w' = before ++ [(f, 2%Z)].
Proof.
  intros He Hi Hok Hl Hs Ht Hk E. apply execute_ends in E; [|done..].
  destruct E as (w1 & (_ & _ & _ & _ & _ & _ & Hm & _) & (w2 & _ & Hsend & u & Ex)).
  destruct (Hsend l eq_refl) as (v & E2). destruct (Hm _ _ _ Ht Hk) as (f & c & Hf & Hm1).
  apply send_byte_law in E2 as (_ & f' & c' & Hf' & Hsent). rewrite Hm1 in Hf'. injection Hf' as <- <-.
  exists f, c, (sent_bytes w1). split; [done|]. apply program_exec_law in Ex as [-> _]. done.
Qed.
End Confinement.

(** ** A concrete kernel *)

(** The files that paths name, the jails, and the next free number. *)
Record Machine := mkMachine {
  m_process : Process;
  m_tree : TreeFs;
  m_paths : list (path * Stat);
  m_info : Stat;
  m_jails : list (Z * (file * bool));
  m_next : Z;
  m_sent : list (file * Z);
}.
Definition set_process (p : Process) (w : Machine) : Machine :=
  mkMachine p (m_tree w) (m_paths w) (m_info w) (m_jails w) (m_next w) (m_sent w).
Definition denied : io_error := mkIoError OtherKind "Operation not permitted (os error 1)".
Definition done_with {A} (a : A) (p : Process) (w : Machine) : io_result A * Machine := (inl a, set_process p w).
Definition refused {A} (w : Machine) : io_result A * Machine := (inr denied, w).

(** A new descriptor at [fd], if the number is free. *)
Definition allocate (fd : Z) (f : file) (w : Machine) : io_result Z * Machine :=
  match fds (m_process w) !! fd with
  | Some _ => refused w
  | None => (inl fd, mkMachine (with_fds (<[fd := (f, true)]> (fds (m_process w))) (m_process w)) (m_tree w) (m_paths w)
                       (m_info w) (m_jails w) (fd + 1) (m_sent w))
  end.
Definition stat_of_path (p : path) (w : Machine) : option Stat :=
  snd <$> List.find (fun e : path * Stat => String.eqb e.1 p) (m_paths w).
Definition on_file {A} (fd : Z) (w : Machine) (k : file -> bool -> io_result A * Machine) : io_result A * Machine :=
  match fds (m_process w) !! fd with Some (f, c) => k f c | None => refused w end.
Definition as_root {A} (w : Machine) (k : io_result A * Machine) : io_result A * Machine :=
  if (effective (uids (m_process w)) =? 0)%Z then k else refused w.

#[export] Instance machine_fs : HostFs Machine := {
  canonicalize w := canonicalize (m_tree w);
  path_exists w := path_exists (m_tree w);
  is_dir w := is_dir (m_tree w);
  read_dir w := read_dir (m_tree w);
  read_to_string w := read_to_string (m_tree w);
  create_dir_all w p := inl w;
}.

#[export] Instance machine_kernel : Kernel Machine := {
  process := m_process;
  path_metadata p w := match stat_of_path p w with Some s => inl s | None => inr denied end;
  open_dir p w := match stat_of_path p w with Some s => allocate (m_next w) (identity_of s) w | None => refused w end;
  open_at d n w := allocate (m_next w) (identity_of (m_info w)) w;
  fstat fd w :=
    match fds (m_process w) !! fd with
    | Some (f, _) =>
        match List.find (fun s => bool_decide (identity_of s = f)) (m_info w :: map snd (m_paths w)) with
        | Some s => if bool_decide (identity_of s = f) then inl s else inr denied
        | None => inr denied
        end
    | None => inr denied
    end;
  close_fd fd w := set_process (with_fds (delete fd (fds (m_process w))) (m_process w)) w;
  fchdir fd w := on_file fd w (fun f _ => done_with tt (with_cwd f (m_process w)) w);
  chroot_dot w := as_root w (done_with tt (with_root (cwd_dir (m_process w)) (m_process w)) w);
  chdir p w := done_with tt (with_cwd (root_dir (m_process w)) (m_process w)) w;
  setgroups l w := as_root w (done_with tt (with_groups l (m_process w)) w);
  setgid g w := as_root w (done_with tt (with_gids (all_ids g) (m_process w)) w);
  setuid u w := as_root w (done_with tt (with_uids (all_ids u) (m_process w)) w);
  dup_above s m w := on_file s w (fun f _ => allocate (Z.max m (m_next w)) f w);
  dup2 s t w := on_file s w (fun f _ => done_with tt (with_fds (<[t := (f, false)]> (fds (m_process w))) (m_process w)) w);
  clear_cloexec t w := on_file t w (fun f _ => done_with tt (with_fds (<[t := (f, false)]> (fds (m_process w))) (m_process w)) w);
  jail_create n w :=
    match allocate (m_next w) (0, m_next w)%Z w with
    | (inl owner, w1) =>
        (inl (m_next w, owner), mkMachine (m_process w1) (m_tree w1) (m_paths w1) (m_info w1)
           ((m_next w, (cwd_dir (m_process w), n)) :: m_jails w1) (m_next w1) (m_sent w1))
    | (inr e, w1) => (inr e, w1)
    end;
  jail_root j w := snd <$> List.find (fun e => Z.eqb e.1 j) (m_jails w);
  jail_attach j w :=
    match snd <$> List.find (fun e => Z.eqb e.1 j) (m_jails w) with
    | Some (f, n) => done_with tt (with_jail (Some (j, n)) (with_root f (with_cwd f (m_process w)))) w
    | None => refused w
    end;
  jail_remove j w := w;
  send_jail fd j o w := (inl tt, w);
  read_byte fd w := (inl (Some 1%Z), w);
  send_byte fd b w := on_file fd w (fun f _ => (inl tt, mkMachine (m_process w) (m_tree w) (m_paths w) (m_info w) (m_jails w)
                                                  (m_next w) (m_sent w ++ [(f, b)])));
  sent_bytes := m_sent;
  report_started w := (inl tt, w);
  program_exec argv env w := done_with tt (with_image (Some (image_of argv env (m_process w))) (m_process w)) w;
}.

Lemma allocate_law fd f (w w' : Machine) r : allocate fd f w = (r, w') -> outcome w w' r (fun d q =>
  d = fd /\ fds (m_process w) !! d = None /\ q = with_fds (<[d := (f, true)]> (fds (m_process w))) (m_process w)).
Proof. unfold allocate, refused, outcome. destruct (fds (m_process w) !! fd) eqn:E; intros [= <- <-]; done. Qed.

Lemma on_file_cases {A} fd (w w' : Machine) (k : file -> bool -> io_result A * Machine) r :
  on_file fd w k = (r, w') ->
  (exists f c, fds (m_process w) !! fd = Some (f, c) /\ k f c = (r, w')) \/ (exists e, r = inr e /\ w' = w).
Proof.
  unfold on_file. destruct (fds (m_process w) !! fd) as [[f c]|]; [left; eauto|]. intros [= <- <-]. right. eauto.
Qed.

Lemma as_root_cases {A} (w w' : Machine) (k : io_result A * Machine) r :
  as_root w k = (r, w') -> (effective (uids (m_process w)) = 0%Z /\ k = (r, w')) \/ (exists e, r = inr e /\ w' = w).
Proof.
  unfold as_root. destruct (Z.eqb_spec (effective (uids (m_process w))) 0); [by left|]. intros [= <- <-]. right. eauto.
Qed.

Ltac machine_cases E :=
  first [apply on_file_cases in E as [(? & ? & ? & E)|(? & -> & ->)]
        |apply as_root_cases in E as [[? E]|(? & -> & ->)]]; [unfold done_with in E; injection E as <- <-; cbn|done].

#[export] Instance machine_laws : KernelLaws Machine.
Proof.
  split; unfold outcome; cbn.
  - done.
  - intros p w r w' E. destruct (stat_of_path p w); [|by injection E as <- <-].
    apply allocate_law in E. destruct r; [|done]. destruct E as (-> & ? & ?). eauto.
  - intros d n w r w' E. apply allocate_law in E. destruct r; [|done]. destruct E as (-> & ? & ?). eauto.
  - intros fd w st E. destruct (fds (m_process w) !! fd) as [[f c]|]; [|done]. exists c.
    repeat case_match; simplify_eq;
      repeat match goal with E : bool_decide _ = true |- _ => apply bool_decide_eq_true in E end; congruence.
  - intros fd w r w' E. machine_cases E. do 2 eexists. split; [eassumption|reflexivity].
  - intros w r w' E. by machine_cases E.
  - intros p w r w' [= <- <-]. cbn. eauto.
  - intros l w r w' E. by machine_cases E.
  - intros g w r w' E. machine_cases E. eauto.
  - intros u w r w' E. machine_cases E. eauto.
  - intros s m w r w' E. apply on_file_cases in E as [(f & c & Hf & E)|(? & -> & ->)]; [|done].
    apply allocate_law in E. destruct r; [|done]. destruct E as (-> & ? & ?). split; [lia|]. split; [done|]. eauto.
  - intros s t w r w' E. machine_cases E. do 3 eexists. split; [eassumption|reflexivity].
  - intros t w r w' E. machine_cases E. do 2 eexists. split; [eassumption|reflexivity].
  - intros n w r w' E. destruct (allocate (m_next w) _ w) as [[owner|e] w1] eqn:Ea; apply allocate_law in Ea.
    + injection E as <- <-. destruct Ea as (-> & Hfree & Hp). cbn in *. split; [done|]. split; [by do 2 eexists|].
      intros fd _. by rewrite Z.eqb_refl.
    + by injection E as <- <-.
  - intros j w r w' E. destruct (snd <$> _) as [[f n]|] eqn:Ej; injection E as <- <-; [cbn; eauto|done].
  - done.
  - done.
  - done.
  - intros fd b w r w' E. machine_cases E. split; [done|]. do 2 eexists. split; [eassumption|reflexivity].
  - done.
  - by intros argv env w r w' [= <- <-].
Qed.

(** *** Examples *)

Definition example_process : Process :=
  mkProcess (mkIds 1001 0 0) (all_ids 1001) [5]%Z (1, 2)%Z (1, 2)%Z None
    (list_to_map [(0, ((9, 0), false)); (1, ((9, 1), false)); (4, ((8, 8), true)); (6, ((8, 9), true))])%Z None.
Definition example_machine : Machine :=
  mkMachine example_process example_launch_tree
    [("/run", mkStat 7 1 1001 16832); ("/run/chroots/a/1", mkStat 7 42 1001 16877)] (mkStat 7 43 1001 33188) [] 10 [].
Definition direct_args : list string :=
  ["secure-launch"; "/run/chroots/a/1"; "/run"; "7"; "42"; "1001"; "1001"; "5"; "/app"; "direct"; ""; "1"; "HOME=/home/u"; "--"; "/bin/sh"].

Lemma helper_runs_for_caller_witness :
  exists r i, parse direct_args = Ok r /\ image (m_process (run_helper direct_args example_machine).2) = Some i /\
    im_uids i = all_ids 1001 /\ im_root i = (7, 42)%Z.
Proof.
  destruct (run_helper direct_args example_machine) as [o w'] eqn:E.
  pose proof (helper_runs_for_caller direct_args example_machine w' o eq_refl E) as Hr.
  destruct o as [u|e]; [|vm_compute in E; discriminate E].
  destruct Hr as (r & i & Hp & Hi & (_ & _ & Hu & _ & _ & Hroot & _) & _). exists r, i.
  split; [exact Hp|]. split; [exact Hi|]. split; [exact Hu|]. vm_compute in Hp. injection Hp as <-. exact Hroot.
Defined.

Definition nested_request : Request :=
  mkRequest "/run/chroots/a/1" "/run" 7 42 1001 1001 [5]%Z None NoNetwork [6; 0]%Z ["HOME=/home/u"] ["/bin/sh"].
Definition daemon_child : Machine :=
  set_process (with_uids (all_ids 0) (with_gids (all_ids 0) example_process)) example_machine.

Lemma execution_is_confined_witness :
  exists i, image (m_process (execute_with_mappings nested_request 1001 1001 [6; 0]%Z [4; 6]%Z (Some 1%Z) daemon_child).2) = Some i /\
    im_fds i !! 6%Z = Some (8, 8)%Z /\ im_fds i !! 0%Z = Some (8, 9)%Z.
Proof.
  destruct (execute_with_mappings nested_request 1001 1001 [6; 0]%Z [4; 6]%Z (Some 1%Z) daemon_child) as [o w'] eqn:E.
  assert (fds_ok [6; 0]%Z) as Hok.
  { split; [unfold MAX_MAPPED_FDS; cbn; lia|]. split; [apply (bool_decide_unpack _); reflexivity|].
    unfold MAX_TARGET_FD. repeat constructor; lia. }
  pose proof (execution_is_confined nested_request 1001 1001 [6; 0]%Z [4; 6]%Z (Some 1%Z) daemon_child w' o eq_refl eq_refl Hok eq_refl
    ltac:(repeat constructor; eexists; reflexivity) E) as Hr.
  destruct o as [u|e]; [|vm_compute in E; discriminate E].
  destruct Hr as (i & Hi & (_ & _ & _ & _ & _ & _ & _ & Hm & _)). exists i. split; [exact Hi|].
  destruct (Hm 0%nat 6%Z 4%Z eq_refl eq_refl) as (f & c & Hf & H6). destruct (Hm 1%nat 0%Z 6%Z eq_refl eq_refl) as (g & d & Hg & H0).
  vm_compute in Hf, Hg. injection Hf as <- <-. injection Hg as <- <-. by split.
Defined.

(** The child's end of the socket is number 6, which the request maps. *)
Lemma readiness_byte_goes_to_mapped_file_witness :
  exists before, m_sent (execute_with_mappings nested_request 1001 1001 [6; 0]%Z [4; 6]%Z (Some 6%Z) daemon_child).2 =
    before ++ [((8, 8), 2)%Z].
Proof.
  destruct (execute_with_mappings nested_request 1001 1001 [6; 0]%Z [4; 6]%Z (Some 6%Z) daemon_child) as [o w'] eqn:E.
  assert (fds_ok [6; 0]%Z) as Hok.
  { split; [unfold MAX_MAPPED_FDS; cbn; lia|]. split; [apply (bool_decide_unpack _); reflexivity|].
    unfold MAX_TARGET_FD. repeat constructor; lia. }
  destruct o as [[]|e]; [|vm_compute in E; discriminate E].
  destruct (readiness_byte_goes_to_mapped_file nested_request 1001 1001 [6; 0]%Z [4; 6]%Z 0 6%Z 4%Z daemon_child w')
    as (f & c & before & Hf & Hs); [reflexivity|reflexivity|exact Hok|reflexivity|repeat constructor; eexists; reflexivity
    |reflexivity|reflexivity|exact E|].
  vm_compute in Hf. injection Hf as <- <-. exists before. exact Hs.
Defined.
