(* ===== verification/LaunchSupervisor.v ===== *)
(** * LaunchSupervisor: the daemon's side of an isolated launch
    (src/src/secure_launch.rs: serve_nested_request and what it calls)

    A worker of the root daemon receives one request, forks the child that
    executes it, and supervises it: it takes the ownership of the jail the child
    makes, approves the launch, reports the start, and waits for the child's end
    or for the client to disconnect or to ask for a signal.

    The lemmas are about the sequence of calls the supervisor makes: every call
    is recorded with its outcome, and nothing is assumed of the outcomes. *)
From Stdlib Require Import Ascii String NArith ZArith Lia.
From stdpp Require Import base list strings sets.
From S2P Require Import Prelude Effects RustStr LaunchRequest.

Definition SIGINT : Z := 2.
Definition SIGKILL : Z := 9.
Definition SIGTERM : Z := 15.

(** ** Waiting for the child or its client *)

(** What one iteration of the loop observes: [waitpid], [poll] with the flags
    it returned, the byte received from the client, and the clock in
    milliseconds when the deadline is set or compared. *)
Inductive Waited := Exited (status : Z) | WaitFailed | StillRunning.
Inductive Polled := PollFailed (interrupted : bool) | Ready (readable disconnected : bool).
Record Observation := mkObservation { ob_wait : Waited; ob_poll : Polled; ob_byte : option Z; ob_now : Z }.

Definition GRACE : Z := 2000.

(** The client asks for one of two signals. *)
Definition requested_signal (o : Observation) : option Z :=
  match ob_poll o with
  | Ready true _ => match ob_byte o with
                    | Some b => if (b =? SIGINT)%Z || (b =? SIGTERM)%Z then Some b else None
                    | None => None
                    end
  | _ => None
  end.
Definition client_gone (o : Observation) : bool := match ob_poll o with Ready _ gone => gone | PollFailed _ => false end.

(** One iteration: the end of the loop, or the new deadline and the signal that
    is sent to the child's process group. *)
Definition watch_step (deadline : option Z) (o : Observation) : result Z + option Z * option Z :=
  match ob_wait o with
  | Exited status => inl (Ok status)
  | WaitFailed => inl (bail "wait nested sandbox child")
  | StillRunning =>
      match ob_poll o with
      | PollFailed false => inl (bail "watch nested launch client")
      | _ =>
          match deadline with
          | None =>
              if bool_decide (is_Some (requested_signal o)) || client_gone o
              then inr (Some (ob_now o + GRACE)%Z, Some (default SIGTERM (requested_signal o)))
              else inr (None, None)
          | Some d => inr (Some d, if (d <=? ob_now o)%Z then Some SIGKILL else None)
          end
      end
  end.

(** The loop over the observations of its iterations: the result, if it ended,
    and the signals sent, each with the time it was sent. *)
Fixpoint wait_for_nested_child_or_client (deadline : option Z) (l : list Observation) : option (result Z) * list (Z * Z) :=
  match l with
  | [] => (None, [])
  | o :: r =>
      match watch_step deadline o with
      | inl res => (Some res, [])
      | inr (d, s) =>
          let '(res, signals) := wait_for_nested_child_or_client d r in
          (res, match s with Some s => (ob_now o, s) :: signals | None => signals end)
      end
  end.

(** ** Serving a request *)

(** The calls the supervisor makes for the child and its jail. *)
Inductive Call :=
| Fork | IsolateGroup (child : Z) | ReceiveJail | ClearPersistence (jail : Z) | Approve | AwaitReady
| ReportStart (child : Z) | Watch (child : Z) | ReportStatus (status : Z)
| RemoveJail (jail : Z) | Kill (child : Z) | Reap (child : Z).
#[export] Instance call_eq_dec : EqDecision Call.
Proof. solve_decision. Defined.

(** The rest of the system: the socket, the checks of the request, and the
    calls, whose outcomes it chooses. *)
Class Supervised (W : Type) := {
  peer_credentials : W -> result (Z * Z) * W;
  receive_nested_request : W -> result (list string * list Z) * W;
  validate_for_peer : Request -> Z -> Z -> W -> result unit * W;
  lifecycle_socket : W -> result unit * W;
  fork_child : W -> result Z * W;
  isolate_group : Z -> W -> result unit * W;   (* a failure with EACCES does not count *)
  receive_jail : W -> result Z * W;
  clear_persistence : Z -> W -> result unit * W;
  approve : W -> result unit * W;
  await_ready : W -> result Z * W;
  report_start : Z -> W -> result unit * W;
  watch_child : Z -> W -> result Z * W;
  report_status : Z -> W -> result unit * W;
}.

Section Serve.
Context {W : Type} `{!Supervised W}.

(** The calls made so far, with whether they succeeded. *)
Definition traced : Type := W * list (Call * bool).
Definition quiet {A} (m : W -> result A * W) : M traced A := fun s => let (r, w) := m s.1 in (r, (w, s.2)).
Definition call {A} (c : Call) (m : W -> result A * W) : M traced A := fun s =>
  let (r, w) := m s.1 in (r, (w, s.2 ++ [(c, is_ok r)])).
(** A call whose failure is ignored. *)
Definition note (c : Call) : M traced unit := fun s => (Ok tt, (s.1, s.2 ++ [(c, true)])).

Definition or_remove_jail (jail : Z) (m : M traced unit) : M traced unit :=
  r ← catch m;
  match r with Ok u => mret u | Err e => _ ← note (RemoveJail jail); fail e end.

(** The closure that hands the launch over, up to the point where the child is
    waited for. *)
Definition hand_over (child : Z) : M traced unit :=
  jail ← call ReceiveJail receive_jail;
  _ ← or_remove_jail jail (call (ClearPersistence jail) (clear_persistence jail));
  _ ← or_remove_jail jail (call Approve approve);
  ready ← call AwaitReady await_ready;
  if negb (ready =? 2)%Z then lift (bail "nested sandbox child returned invalid readiness response")
  else call (ReportStart child) (report_start child).

(** [status as u32]. *)
Definition as_u32 (z : Z) : Z := z mod 2 ^ 32.
Definition as_i32 (z : Z) : Z := if (z mod 2 ^ 32 <? 2 ^ 31)%Z then z mod 2 ^ 32 else z mod 2 ^ 32 - 2 ^ 32.

Definition kill_and_reap (child : Z) : M traced unit := _ ← note (Kill child); note (Reap child).

(** The parent's part of [serve_nested_request] after the fork. *)
Definition supervise (child : Z) : M traced unit :=
  isolated ← catch (call (IsolateGroup child) (isolate_group child));
  match isolated with
  | Err e => _ ← kill_and_reap child; fail e
  | Ok _ =>
      handed ← catch (hand_over child);
      match handed with
      | Err e => _ ← kill_and_reap child; fail e
      | Ok _ =>
          status ← call (Watch child) (watch_child child);
          call (ReportStatus (as_u32 status)) (report_status (as_u32 status))
      end
  end.

Definition serve_nested_request : M traced unit :=
  peer ← quiet peer_credentials;
  received ← quiet receive_nested_request;
  request ← lift (parse received.1);
  if bool_decide (rq_jail_mode request = Direct) then lift (bail "nested daemon refused direct launch request")
  else
    _ ← quiet (validate_for_peer request peer.1 peer.2);
    if negb (Nat.eqb (length (rq_mapped_fds request)) (length received.2))
    then lift (bail "nested request descriptor count does not match mappings")
    else
      _ ← quiet lifecycle_socket;
      child ← call Fork fork_child;
      supervise child.
End Serve.

(** ** The protocol *)

(** The supervision of a child as an automaton over the calls and their
    outcomes: the abstract specification. *)
Inductive Phase :=
| Forked | Grouped | Owning | Cleared (jail : Z) | Approved | Answered | Watching | Ended
| Condemned (jail : Z) | Doomed | Killed | Reaped | Served | Unreported.

Definition phase_step (child : Z) (p : Phase) (e : Call * bool) : option Phase :=
  match p, e with
  | Forked, (IsolateGroup c, ok) => if (c =? child)%Z then Some (if ok then Grouped else Doomed) else None
  | Grouped, (ReceiveJail, ok) => Some (if ok then Owning else Doomed)
  | Owning, (ClearPersistence j, ok) => Some (if ok then Cleared j else Condemned j)
  | Cleared j, (Approve, ok) => Some (if ok then Approved else Condemned j)
  | Condemned j, (RemoveJail j', _) => if (j' =? j)%Z then Some Doomed else None
  | Approved, (AwaitReady, ok) => Some (if ok then Answered else Doomed)
  | Answered, (ReportStart c, ok) => if (c =? child)%Z then Some (if ok then Watching else Doomed) else None
  | Watching, (Watch c, ok) => if (c =? child)%Z then Some (if ok then Ended else Unreported) else None
  | Ended, (ReportStatus _, ok) => Some (if ok then Served else Unreported)
  | Answered, (Kill c, _) | Doomed, (Kill c, _) => if (c =? child)%Z then Some Killed else None
  | Killed, (Reap c, _) => if (c =? child)%Z then Some Reaped else None
  | _, _ => None
  end.

Fixpoint phases (child : Z) (p : Phase) (t : list (Call * bool)) : option Phase :=
  match t with
  | [] => Some p
  | e :: r => match phase_step child p e with Some p' => phases child p' r | None => None end
  end.

Lemma phases_app child p t u q r : phases child p t = Some q -> phases child q u = Some r -> phases child p (t ++ u) = Some r.
Proof.
  revert p. induction t as [|e t IH]; intros p; cbn; [by intros [= ->]|]. destruct (phase_step child p e); [|done]. apply IH.
Qed.

Section Protocol.
Context {W : Type} `{!Supervised W} (child : Z).

(** A computation takes the automaton from [p] to a phase that its result
    determines. *)
Definition moves {A} (p : Phase) (m : M (@traced W) A) (Q : result A -> Phase -> Prop) : Prop :=
  forall s, exists t q, (m s).2.2 = s.2 ++ t /\ phases child p t = Some q /\ Q (m s).1 q.

Lemma moves_bind {A B} p (m : M (@traced W) A) (f : A -> M (@traced W) B) (Q : result A -> Phase -> Prop) R :
  moves p m Q -> (forall a q, Q (Ok a) q -> moves q (f a) R) -> (forall e q, Q (Err e) q -> R (Err e) q) ->
  moves p (m ≫= f) R.
Proof.
  intros Hm Hf He s. destruct (Hm s) as (t & q & Ht & Hp & HQ). unfold mbind, M_bind.
  destruct (m s) as [[a|e] s1]; cbn in *; [|by exists t, q; auto].
  destruct (Hf a q HQ s1) as (u & r & Hu & Hr & HR). exists (t ++ u), r. rewrite Hu, Ht, app_assoc.
  split; [done|]. split; [by eapply phases_app|done].
Qed.

Lemma moves_catch {A} p (m : M (@traced W) A) (Q : result A -> Phase -> Prop) :
  moves p m Q -> moves p (catch m) (fun r q => match r with Ok o => Q o q | Err _ => False end).
Proof.
  intros Hm s. destruct (Hm s) as (t & q & Ht & Hp & HQ). exists t, q. unfold catch.
  destruct (m s) as [r s1]. by cbn in *.
Qed.

(** One call: the automaton follows whether it succeeds. *)
Lemma moves_call {A} p c (m : W -> result A * W) ok_phase err_phase :
  phase_step child p (c, true) = Some ok_phase -> phase_step child p (c, false) = Some err_phase ->
  moves p (call c m) (fun r q => q = if is_ok r then ok_phase else err_phase).
Proof.
  intros H1 H2 s. exists [(c, is_ok (m s.1).1)], (if is_ok (m s.1).1 then ok_phase else err_phase). unfold call.
  destruct (m s.1) as [[a|e] w]; cbn -[phase_step]; rewrite ?H1, ?H2; done.
Qed.

Lemma moves_note p c q : phase_step child p (c, true) = Some q -> moves p (note c) (fun r q' => q' = q /\ is_ok r = true).
Proof. intros Hq s. exists [(c, true)], q. cbn -[phase_step]. by rewrite Hq. Qed.

Lemma moves_pure {A} p (r : result A) : moves p (lift r) (fun r' q => r' = r /\ q = p).
Proof. intros s. exists [], p. cbn. by rewrite app_nil_r. Qed.

Lemma moves_impl {A} p (m : M (@traced W) A) (Q R : result A -> Phase -> Prop) :
  (forall r q, Q r q -> R r q) -> moves p m Q -> moves p m R.
Proof. intros HQR Hm s. destruct (Hm s) as (t & q & ? & ? & ?). exists t, q. auto. Qed.

Definition failed_at {A} (p : Phase) (r : result A) (q : Phase) : Prop := is_ok r = false /\ q = p.

Lemma kill_and_reap_moves {A} p (e : error) : phase_step child p (Kill child, true) = Some Killed ->
  moves p (_ ← kill_and_reap child; fail e) (@failed_at A Reaped).
Proof.
  intros Hk. eapply moves_bind; [eapply moves_bind|..].
  - by apply moves_note.
  - intros u q [-> _]. apply moves_note. cbn. by rewrite Z.eqb_refl.
  - by intros ? ? [_ ?].
  - intros u q [-> _] s. exists [], Reaped. cbn. by rewrite app_nil_r.
  - by intros ? ? [_ ?].
Qed.

Lemma or_remove_jail_moves p c j q (m : W -> result unit * W) :
  phase_step child p (c, true) = Some q -> phase_step child p (c, false) = Some (Condemned j) ->
  moves p (or_remove_jail j (call c m)) (fun r q' => if is_ok r then q' = q else q' = Doomed).
Proof.
  intros H1 H2. unfold or_remove_jail. eapply moves_bind; [apply moves_catch, (moves_call _ _ _ _ _ H1 H2)| |done].
  intros [u|e] q' Hq; cbn in Hq; subst q'.
  - intros s. exists [], q. cbn. by rewrite app_nil_r.
  - eapply moves_bind; [apply moves_note; cbn; by rewrite Z.eqb_refl| |by intros ? ? [_ ?]].
    intros ? ? [-> _] s. exists [], Doomed. cbn. by rewrite app_nil_r.
Qed.

Lemma hand_over_moves : moves Grouped (hand_over child) (fun r q =>
  if is_ok r then q = Watching else q = Doomed \/ q = Answered).
Proof.
  unfold hand_over. eapply moves_bind; [apply moves_call; reflexivity| |by intros ? ? ->; left]. intros jail ? ->. cbn.
  eapply moves_bind; [apply (or_remove_jail_moves _ _ jail (Cleared jail)); reflexivity| |by intros ? ? ->; left]. intros ? ? ->.
  eapply moves_bind; [apply (or_remove_jail_moves _ _ jail Approved); reflexivity| |by intros ? ? ->; left]. intros ? ? ->.
  eapply moves_bind; [apply moves_call; reflexivity| |by intros ? ? ->; left]. intros ready ? ->. cbn.
  destruct (negb _); [eapply moves_impl; [|apply moves_pure]; by intros ? ? [-> ->]; right|].
  eapply moves_impl; [|apply (moves_call Answered (ReportStart child) (report_start child) Watching Doomed); cbn; by rewrite Z.eqb_refl].
  intros [?|?] ? ->; cbn; auto.
Qed.

(** C18.  The supervisor's calls follow the protocol whatever their outcomes: a
    launch is approved only after its jail has been made non-persistent, the
    client hears of the start only after the child reported it; a launch that
    is served was watched to its end, and one that fails before it is watched
    ends with the child killed and reaped, its jail removed first if the
    handover failed while the supervisor could no longer rely on the child. *)
Theorem supervision_follows_protocol s :
  exists t q, (supervise child s).2.2 = s.2 ++ t /\ phases child Forked t = Some q /\
    match (supervise child s).1 with Ok _ => q = Served | Err _ => q = Reaped \/ q = Unreported end.
Proof.
  assert (moves Forked (supervise child) (fun r q => match r with Ok _ => q = Served | Err _ => q = Reaped \/ q = Unreported end)) as Hm; [|apply Hm].
  unfold supervise. eapply moves_bind; [apply moves_catch, (moves_call Forked (IsolateGroup child) (isolate_group child) Grouped Doomed); cbn; by rewrite Z.eqb_refl| |done].
  intros [u|e] ? ->; cbn.
  - eapply moves_bind; [apply moves_catch, hand_over_moves| |done]. intros [v|e] q Hq; cbn in Hq.
    + subst q. eapply moves_bind; [apply (moves_call Watching (Watch child) (watch_child child) Ended Unreported); cbn; by rewrite Z.eqb_refl| |by intros ? ? ->; right].
      intros status ? ->. cbn. eapply moves_impl; [|by apply moves_call]. intros [?|?] ? ->; cbn; auto.
    + assert (phase_step child q (Kill child, true) = Some Killed) as Hk by (destruct Hq as [-> | ->]; cbn; by rewrite Z.eqb_refl).
      eapply moves_impl; [|by apply kill_and_reap_moves]. intros [?|?] ? [Hr ->]; [done|by left].
  - eapply moves_impl; [|apply kill_and_reap_moves; cbn; by rewrite Z.eqb_refl]. intros [?|?] ? [Hr ->]; [done|by left].
Qed.
End Protocol.

(** ** Lemmas and properties: the wait *)

(** Once a deadline is set only the final signal is sent, not before it. *)
Lemma watch_after_deadline d l : Forall (fun e => e.2 = SIGKILL /\ (d <= e.1)%Z) (wait_for_nested_child_or_client (Some d) l).2.
Proof.
  induction l as [|o l IH]; cbn; [constructor|]. unfold watch_step.
  destruct (ob_wait o); [constructor..|].
  destruct (ob_poll o) as [[]|]; [|constructor|];
    (destruct (wait_for_nested_child_or_client (Some d) l) as [res signals]; cbn;
     destruct (Z.leb_spec d (ob_now o)); [constructor; [done|exact IH]|exact IH]).
Qed.

Definition wants_end (o : Observation) : bool := bool_decide (is_Some (requested_signal o)) || client_gone o.

Lemma wants_end_signal o : default SIGTERM (requested_signal o) = SIGINT \/ default SIGTERM (requested_signal o) = SIGTERM.
Proof.
  unfold requested_signal. destruct (ob_poll o) as [|[] ?]; auto. destruct (ob_byte o) as [b|]; auto.
  destruct (_ || _) eqn:E; auto. apply orb_true_iff in E as [E%Z.eqb_eq|E%Z.eqb_eq]; subst b; auto.
Qed.

Lemma watch_unwatched o d s : watch_step None o = inr (d, s) ->
  (wants_end o = true /\ d = Some (ob_now o + GRACE)%Z /\ s = Some (default SIGTERM (requested_signal o))) \/
  (wants_end o = false /\ d = None /\ s = None).
Proof.
  unfold watch_step, wants_end. destruct (ob_wait o); [done..|].
  destruct (ob_poll o) as [[]|] eqn:Ep; [|done|]; destruct (_ || _) eqn:E; intros [= <- <-]; auto.
Qed.

(** The child's group is left alone until the client asks for a signal or
    disconnects.  It is then sent that signal, or SIGTERM, and nothing but
    SIGKILL afterwards, not before the grace period has passed; and a status is
    only reported when the child has ended with it. *)
Theorem watch_escalates l :
  let '(res, signals) := wait_for_nested_child_or_client None l in
  (forall status, res = Some (Ok status) -> exists o, o ∈ l /\ ob_wait o = Exited status) /\
  (Forall (fun o => wants_end o = false) l -> signals = []) /\
  match signals with
  | [] => True
  | (t, s) :: later => (s = SIGINT \/ s = SIGTERM) /\ Forall (fun e => e.2 = SIGKILL /\ (t + GRACE <= e.1)%Z) later
  end.
Proof.
  assert (forall d l res signals, wait_for_nested_child_or_client d l = (res, signals) ->
    forall status, res = Some (Ok status) -> exists o, o ∈ l /\ ob_wait o = Exited status) as Hres.
  { clear l. intros d l. revert d. induction l as [|o l IH]; intros d res signals H status ->; cbn in H; [done|].
    destruct (watch_step d o) as [r|[d' s]] eqn:E.
    - injection H as -> <-. exists o. split; [left|]. revert E. unfold watch_step. destruct (ob_wait o); [by intros [= ->]|done|].
      destruct (ob_poll o) as [[]|]; [|done|]; destruct d; try done; by destruct (_ || _).
    - destruct (wait_for_nested_child_or_client d' l) as [res' sg] eqn:Ew. injection H as -> <-.
      destruct (IH _ _ _ Ew _ eq_refl) as (o' & Ho & ?). exists o'. split; [by right|done]. }
  destruct (wait_for_nested_child_or_client None l) as [res signals] eqn:H. split; [by eapply Hres|]. clear Hres.
  revert res signals H. induction l as [|o l IH]; intros res signals H; cbn in H; [by injection H as <- <-|].
  destruct (watch_step None o) as [r|[d s]] eqn:E; [by injection H as <- <-|].
  apply watch_unwatched in E as [(Hw & -> & ->)|(Hw & -> & ->)].
  - pose proof (watch_after_deadline (ob_now o + GRACE) l) as Hl.
    destruct (wait_for_nested_child_or_client (Some _) l) as [res' sg]. injection H as -> <-. split.
    + intros Hf. apply Forall_cons in Hf as [Hf _]. congruence.
    + split; [apply wants_end_signal|exact Hl].
  - destruct (wait_for_nested_child_or_client None l) as [res' sg]. injection H as -> <-.
    destruct (IH _ _ eq_refl) as [H1 H2]. split; [|done]. intros Hf. apply Forall_cons in Hf as [_ Hf]. auto.
Qed.

(** An iteration that goes on. *)
Definition goes_on (o : Observation) : Prop := ob_wait o = StillRunning /\ ob_poll o <> PollFailed false.

Lemma goes_on_some d o : goes_on o -> watch_step (Some d) o = inr (Some d, if (d <=? ob_now o)%Z then Some SIGKILL else None).
Proof. intros [Hw Hp]. unfold watch_step. rewrite Hw. by destruct (ob_poll o) as [[]|]. Qed.

Lemma killed_after_deadline d l1 o l2 :
  Forall goes_on (l1 ++ [o]) -> (d <= ob_now o)%Z -> (ob_now o, SIGKILL) ∈ (wait_for_nested_child_or_client (Some d) (l1 ++ o :: l2)).2.
Proof.
  intros Hg Hd. induction l1 as [|o1 l1 IH]; cbn [app wait_for_nested_child_or_client] in *.
  - apply Forall_cons in Hg as [Ho _]. rewrite goes_on_some by exact Ho. rewrite (proj2 (Z.leb_le _ _)) by done.
    destruct (wait_for_nested_child_or_client (Some d) l2). cbn. left.
  - apply Forall_cons in Hg as [H1 Hg]. rewrite goes_on_some by done. specialize (IH Hg).
    destruct (wait_for_nested_child_or_client (Some d) (l1 ++ o :: l2)). cbn in *. destruct (d <=? ob_now o1)%Z; [by right|done].
Qed.

(** A child does not outlive its client for long: when the client has asked
    for the end or has gone and the grace period has passed on a clock that
    does not run backwards, a child that still runs is killed. *)
Theorem disconnected_child_is_killed l1 o1 l2 o2 l3 :
  Forall goes_on (l1 ++ o1 :: l2 ++ [o2]) -> wants_end o1 = true -> Forall (fun o => (ob_now o <= ob_now o1)%Z) l1 ->
  (ob_now o1 + GRACE <= ob_now o2)%Z ->
  (ob_now o2, SIGKILL) ∈ (wait_for_nested_child_or_client None (l1 ++ o1 :: l2 ++ o2 :: l3)).2.
Proof.
  intros Hg Hw Ht Hn. induction l1 as [|o l1 IH]; cbn [app wait_for_nested_child_or_client] in *.
  - apply Forall_cons in Hg as [[H1 H2] Hg]. destruct (watch_step None o1) as [r|[d s]] eqn:E.
    + exfalso. revert E. unfold watch_step. rewrite H1. unfold wants_end in Hw. rewrite Hw. by destruct (ob_poll o1) as [[]|].
    + apply watch_unwatched in E as [(_ & -> & ->)|(? & _)]; [|congruence].
      pose proof (killed_after_deadline _ _ _ l3 Hg Hn) as Hk.
      destruct (wait_for_nested_child_or_client (Some (ob_now o1 + GRACE)%Z) (l2 ++ o2 :: l3)). cbn in *. by right.
  - apply Forall_cons in Hg as [[H1 H2] Hg]. apply Forall_cons in Ht as [Ht1 Ht]. specialize (IH Hg Ht).
    destruct (watch_step None o) as [r|[d s]] eqn:E.
    + exfalso. revert E. unfold watch_step. rewrite H1. destruct (ob_poll o) as [[]|]; try done; by destruct (_ || _).
    + apply watch_unwatched in E as [(_ & -> & ->)|(_ & -> & ->)].
      * assert (Forall goes_on ((l1 ++ o1 :: l2) ++ [o2])) as Hg' by by rewrite <- app_assoc.
        pose proof (killed_after_deadline (ob_now o + GRACE)%Z (l1 ++ o1 :: l2) o2 l3 Hg' ltac:(lia)) as Hk.
        rewrite <- app_assoc in Hk. cbn [app] in Hk.
        destruct (wait_for_nested_child_or_client (Some (ob_now o + GRACE)%Z) (l1 ++ o1 :: l2 ++ o2 :: l3)). cbn in *. by right.
      * destruct (wait_for_nested_child_or_client None (l1 ++ o1 :: l2 ++ o2 :: l3)). exact IH.
Qed.

Definition quiet_client (t : Z) : Observation := mkObservation StillRunning (Ready false false) None t.
Definition gone_client (t : Z) : Observation := mkObservation StillRunning (Ready false true) None t.

Lemma disconnected_child_is_killed_witness :
  (2500, SIGKILL)%Z ∈ (wait_for_nested_child_or_client None [quiet_client 100; gone_client 200; gone_client 300; gone_client 2500]).2.
Proof.
  apply (disconnected_child_is_killed [quiet_client 100] (gone_client 200) [gone_client 300] (gone_client 2500) []);
    [repeat constructor; done|reflexivity|repeat constructor; cbn; lia|unfold GRACE; cbn; lia].
Defined.

(** The status crosses the socket as an unsigned word and is read back. *)
Lemma status_word z : (- 2 ^ 31 <= z < 2 ^ 31)%Z -> as_i32 (as_u32 z) = z.
Proof.
  intros Hz. unfold as_i32, as_u32. rewrite Z.mod_mod by lia.
  destruct (Z.ltb_spec (z mod 2 ^ 32) (2 ^ 31)); Z.div_mod_to_equations; lia.
Qed.
