(* ===== verification/BrokerProtocol.v ===== *)
(** * BrokerProtocol: what the spawn broker and its client say to each other
    (src/src/sandbox/spawn_broker.rs: frames, Spawn requests and what they mean;
    src/compatibility_helpers/portal_bridge/flatpak_spawn_portal.c: the client)

    A sandboxed program asks a D-Bus portal to start another program; the portal
    bridge, in C, sends the request as one packet to the broker of the launcher.
    The lemmas say that the broker accepts exactly the well-formed packets, that
    what the bridge builds from a D-Bus call is one of them and is decoded as
    that call, and what environment and instance file the new program gets. *)
From Stdlib Require Import Ascii String NArith ZArith Lia.
From stdpp Require Import base list strings sets.
From S2P Require Import Prelude RustStr RustNum RustPath LaunchRequest InstallationPaths.

Definition MAGIC : N := 0x46534250.
Definition VERSION : N := 1.
Definition HEADER_SIZE : nat := 20.
Definition MAX_PAYLOAD : N := 4096.
Definition MAX_FDS : nat := 32.
Definition PING : N := 1.
Definition PONG : N := 2.
Definition FD_TEST : N := 3.
Definition FD_OK : N := 4.
Definition LIFECYCLE_TEST_START : N := 5.
Definition LIFECYCLE_TEST_ACCEPTED : N := 6.
Definition LIFECYCLE_TEST_EXITED : N := 7.
Definition SPAWN : N := 8.
Definition SPAWN_ACCEPTED : N := 9.
Definition SPAWN_EXITED : N := 10.
Definition SPAWN_STARTED : N := 12.
Definition SPAWN_TERMINATE : N := 11.
Definition MAX_TARGET_FD : Z := 65535.
Definition SPAWN_WATCH_BUS : N := N.shiftl 1 4.
Definition SPAWN_EXPOSE_PIDS : N := N.shiftl 1 5.
Definition SPAWN_NOTIFY_START : N := N.shiftl 1 6.
Definition SPAWN_SUPPORTED_FLAGS : N := N.lor (N.lor 0x1f SPAWN_EXPOSE_PIDS) SPAWN_NOTIFY_START.

Abbreviation bytes := (list ascii) (only parsing).

(** ** Frames *)

(** [u16::to_be_bytes]; a slice [l[a..b]] of a list that is long enough. *)
Definition u16_to_be_bytes (n : N) : bytes := [ascii_of_N (n / 256 mod 256); ascii_of_N (n mod 256)].
Definition slice (a b : nat) (l : bytes) : bytes := take (b - a) (drop a l).

(** The length is cast with [as u32]. *)
Definition frame (message request : N) (payload : bytes) (fds : N) : bytes :=
  to_be_bytes MAGIC ++ u16_to_be_bytes VERSION ++ u16_to_be_bytes message ++ to_be_bytes request
  ++ to_be_bytes (N.of_nat (length payload) mod 2 ^ 32) ++ to_be_bytes fds.

Definition parse_frame (packet : bytes) : option (N * N * N * N) :=
  if (length packet <? HEADER_SIZE)%nat then None
  else
    let magic := from_be_bytes (slice 0 4 packet) in
    let version := from_be_bytes (slice 4 6 packet) in
    let kind := from_be_bytes (slice 6 8 packet) in
    let request := from_be_bytes (slice 8 12 packet) in
    let len := from_be_bytes (slice 12 16 packet) in
    let fds := from_be_bytes (slice 16 20 packet) in
    if negb (magic =? MAGIC)%N || negb (version =? VERSION)%N || (MAX_PAYLOAD <? len)%N
       || negb (N.of_nat (length packet) =? N.of_nat HEADER_SIZE + len)%N
    then None else Some (kind, request, len, fds).

(** ** Spawn requests *)

(** A descriptor stands for the open file. *)
Record SpawnRequest := mkSpawn {
  sp_cwd : option bytes;
  sp_flags : N;
  sp_argv : list bytes;
  sp_caller_pid : N;
  sp_environment : list (bytes * bytes);
  sp_mappings : list (Z * Z);
}.

Definition decode_u32 (payload : bytes) (offset : N) : option (N * N) :=
  upto ← checked_add offset 4;
  b ← get_bytes payload offset upto;
  Some (from_be_bytes b, upto).

Definition decode_bytes (payload : bytes) (allow_empty : bool) (offset : N) : option (bytes * N) :=
  '(len, offset) ← decode_u32 payload offset;
  upto ← checked_add offset len;
  v ← get_bytes payload offset upto;
  if (negb allow_empty && Nat.eqb (length v) 0) || bool_decide (NUL ∈ v) then None else Some (v, upto).

(** A [for] loop that decodes one item in each round. *)
Fixpoint decode_items {A} (item : N -> result (A * N)) (n : nat) (offset : N) : result (list A * N) :=
  match n with
  | 0 => Ok ([], offset)
  | S n =>
      a ← item offset;
      rest ← decode_items item n a.2;
      Ok (a.1 :: rest.1, rest.2)
  end.

Definition decode_argument (payload : bytes) (offset : N) : result (bytes * N) :=
  ok_or "invalid argument" (decode_bytes payload false offset).

Definition decode_variable (payload : bytes) (offset : N) : result (bytes * bytes * N) :=
  key ← ok_or "invalid environment key" (decode_bytes payload false offset);
  if bool_decide ("="%char ∈ key.1) then bail "invalid environment key"
  else
    v ← ok_or "invalid environment value" (decode_bytes payload true key.2);
    Ok (key.1, v.1, v.2).

(** [i32::try_from] of a [u32]. *)
Definition to_i32 (n : N) : option Z := if (n <? 2 ^ 31)%N then Some (Z.of_N n) else None.

(** The loop over the descriptors; [targets] is the [HashSet]. *)
Fixpoint decode_mappings (payload : bytes) (targets : list Z) (fds : list Z) (offset : N) : result (list (Z * Z) * N) :=
  match fds with
  | [] => Ok ([], offset)
  | source :: r =>
      raw ← ok_or "missing fd target" (decode_u32 payload offset);
      target ← ok_or "invalid fd target" (to_i32 raw.1);
      if negb ((0 <=? target)%Z && (target <=? MAX_TARGET_FD)%Z) then bail "invalid fd target"
      else if bool_decide (target ∈ targets) then bail "duplicate fd target"
      else
        rest ← decode_mappings payload (target :: targets) r raw.2;
        Ok ((target, source) :: rest.1, rest.2)
  end.

Definition parse_spawn (payload : bytes) (fds : list Z) : result SpawnRequest :=
  cwd ← ok_or "invalid cwd" (decode_bytes payload true 0);
  argc ← ok_or "missing argument count" (decode_u32 payload cwd.2);
  envc ← ok_or "missing environment count" (decode_u32 payload argc.2);
  mapping_count ← ok_or "missing fd mapping count" (decode_u32 payload envc.2);
  flags ← ok_or "missing flags" (decode_u32 payload mapping_count.2);
  if (argc.1 =? 0)%N || (256 <? argc.1)%N then bail "invalid argument count"
  else if (256 <? envc.1)%N then bail "invalid environment count"
  else if negb (mapping_count.1 =? N.of_nat (length fds))%N then bail "fd mapping count mismatch"
  else
    argv ← decode_items (decode_argument payload) (N.to_nat argc.1) flags.2;
    environment ← decode_items (decode_variable payload) (N.to_nat envc.1) argv.2;
    mappings ← decode_mappings payload [] fds environment.2;
    caller_pid ← ok_or "missing caller process id" (decode_u32 payload mappings.2);
    if negb (caller_pid.2 =? N.of_nat (length payload))%N then bail "trailing payload bytes"
    else Ok (mkSpawn (if Nat.eqb (length cwd.1) 0 then None else Some cwd.1) flags.1 argv.1 caller_pid.1
               environment.1 mappings.1).

(** ** The client: what the portal bridge sends *)

(** The arguments of the D-Bus call: byte arrays, strings, file handles. *)
Record SpawnCall := mkCall {
  sc_cwd : bytes;
  sc_argv : list bytes;
  sc_fd_map : list (N * Z);
  sc_envs : list (bytes * bytes);
  sc_flags : N;
}.

Definition append_u32 (v : N) : bytes := to_be_bytes v.

(** One NUL at the end of a byte string is left out. *)
Definition without_nul (v : bytes) : bytes :=
  match rev v with a :: r => if Ascii.eqb a NUL then rev r else v | [] => v end.

Definition append_byte_string (v : bytes) (allow_empty : bool) : result bytes :=
  let v := without_nul v in
  if (negb allow_empty && Nat.eqb (length v) 0) || bool_decide (NUL ∈ v) || (2 ^ 32 - 1 <? N.of_nat (length v))%N
  then bail "Invalid Spawn byte string"
  else Ok (append_u32 (N.of_nat (length v)) ++ v).

(** [strlen] as a [guint32]. *)
Definition append_string (s : bytes) : bytes := append_u32 (N.of_nat (length s) mod 2 ^ 32) ++ s.

Definition append_variable (e : bytes * bytes) : result bytes :=
  if Nat.eqb (length e.1) 0 || bool_decide ("="%char ∈ e.1) then bail "Invalid Spawn environment key"
  else Ok (append_string e.1 ++ append_string e.2).

(** The descriptors of the message, if it has any; a handle without descriptor
    is an error of the library. *)
Definition fd_list : Type := option (Z -> option Z).

Fixpoint append_mappings (fds : Z -> option Z) (seen : list N) (l : list (N * Z)) : result (bytes * list Z) :=
  match l with
  | [] => Ok ([], [])
  | (target, handle) :: r =>
      if (Z.to_N MAX_TARGET_FD <? target)%N then bail "Invalid Spawn target file descriptor"
      else if bool_decide (target ∈ seen) then bail "Duplicate Spawn target file descriptor"
      else
        source ← ok_or "fd list index" (fds handle);
        rest ← append_mappings fds (target :: seen) r;
        Ok (append_u32 target ++ rest.1, source :: rest.2)
  end.

Definition build_spawn_payload (c : SpawnCall) (fds : fd_list) : result (bytes * list Z) :=
  let argc := length (sc_argv c) in
  let envc := length (sc_envs c) in
  let mappings := length (sc_fd_map c) in
  if Nat.eqb argc 0 || (256 <? argc)%nat || (256 <? envc)%nat || (MAX_FDS <? mappings)%nat
     || (negb (Nat.eqb mappings 0) && negb (bool_decide (is_Some fds)))
  then bail "Invalid Spawn argument counts or fd list"
  else
    cwd ← append_byte_string (sc_cwd c) true;
    argv ← map_result (fun a => append_byte_string a false) (sc_argv c);
    envs ← map_result append_variable (sc_envs c);
    maps ← append_mappings (default (fun _ => None) fds) [] (sc_fd_map c);
    let payload := cwd ++ append_u32 (N.of_nat argc) ++ append_u32 (N.of_nat envc) ++ append_u32 (N.of_nat mappings)
                   ++ append_u32 (sc_flags c) ++ concat argv ++ concat envs ++ maps.1 in
    if (MAX_PAYLOAD - 4 <? N.of_nat (length payload))%N then bail "Spawn request is too large"
    else Ok (payload, maps.2).

(** [broker_send_packet]: the packet, if it is sent. *)
Definition broker_send_packet (type request : N) (payload : bytes) (fds : list Z) : option (bytes * list Z) :=
  if (MAX_PAYLOAD <? N.of_nat (length payload))%N || (MAX_FDS <? length fds)%nat then None
  else Some (frame type request payload (N.of_nat (length fds)) ++ payload, fds).

(** The part of [call] that makes the request. *)
Definition send_spawn (c : SpawnCall) (fds : fd_list) (sender_pid : N) : result (option (bytes * list Z)) :=
  built ← build_spawn_payload c fds;
  Ok (broker_send_packet 8 1 (built.1 ++ append_u32 sender_pid) built.2).

(** ** What a request means *)

Definition string_of (b : bytes) : string := string_of_list_ascii b.

(** The first variable of the name is changed, or a variable is added. *)
Fixpoint set_variable (key value : string) (environment : list (string * string)) : list (string * string) :=
  match environment with
  | [] => [(key, value)]
  | (name, v) :: r => if String.eqb name key then (name, value) :: r else (name, v) :: set_variable key value r
  end.

Fixpoint merge_environment (inherited : list (string * string)) (additions : list (bytes * bytes))
  : option (list (string * string)) :=
  match additions with
  | [] => Some inherited
  | (key, value) :: r =>
      key ← from_utf8 (string_of key);
      value ← from_utf8 (string_of value);
      merge_environment (set_variable key value inherited) r
  end.

(** The lines of the output, and whether the mark was inserted. *)
Fixpoint restricted_lines (inserted : bool) (l : list string) : string * bool :=
  match l with
  | [] => ("", inserted)
  | line :: r =>
      let here := negb inserted && String.eqb (trim line) "[Instance]" in
      let rest := restricted_lines (inserted || here) r in
      (end_line line +:+ (if here then end_line "sandbox=true" else "") +:+ rest.1, rest.2)
  end.

Definition restricted_flatpak_info (info : string) : string :=
  if existsb (fun line => String.eqb (trim line) "sandbox=true") (lines info) then info
  else
    let output := restricted_lines false (lines info) in
    if output.2 then output.1 else output.1 +:+ end_line "[Instance]" +:+ end_line "sandbox=true".

(** [flags & !SPAWN_SUPPORTED_FLAGS], of 32 bits. *)
Definition spawn_flags_supported (flags : N) : bool :=
  (N.land flags (N.lxor SPAWN_SUPPORTED_FLAGS (2 ^ 32 - 1)) =? 0)%N.

Definition spawn_started_payload (pid relative_pid : N) : bytes := to_be_bytes pid ++ to_be_bytes relative_pid.
Definition spawn_started_relative_pid (expose_pids : bool) (started_pid : N) : N :=
  if expose_pids then started_pid else 0.

(** The lowest descriptor for the copies of the passed ones: above every target. *)
Definition minimum_source (mappings : list (Z * Z)) : Z :=
  Z.max (match mappings with
         | [] => 3
         | m :: r => let greatest := foldl Z.max m.1 (map fst r) in
                     if (greatest <? 2 ^ 31 - 1)%Z then greatest + 1 else 3
         end) 3.

Definition NESTED_MOUNT_STAGING : string := ".freebsd-flatpak-mount-sources".
Definition is_internal_mount_staging (target : path) : bool := path_starts_with target NESTED_MOUNT_STAGING.

Definition broker_path (i : Installation) (root : path) : result path :=
  relative ← ok_or "broker root is outside chroots" (strip_path_prefix root (chroots i));
  match components relative with
  | [] => bail "broker root has no app id"
  | [_] => bail "broker root has no instance id"
  | _ :: instance :: rest =>
      if negb (Nat.eqb (length rest) 0) || is_empty (os_str_of instance) then bail "broker root is not an instance root"
      else Ok (with_extension (join_path (spawn_brokers i) (os_str_of instance)) "sock")
  end.
Definition resolve_watch_bus_owner {W A} (watch_bus : bool) (caller_pid : N)
    (resolve : N -> W -> result (option A) * W) (w : W) : result (option A) * W :=
  if negb watch_bus then (Ok None, w)
  else if (caller_pid =? 0)%N then (bail "WATCH_BUS caller has no authenticated process id", w)
  else
    let (r, w) := resolve caller_pid w in
    (o ← r;
     a ← ok_or (fmt ["WATCH_BUS caller pid "; show_N caller_pid; " has no current reaper subtree"]) o;
     Ok (Some a), w).

(** ** Lemmas: decoding a request *)

(** A byte string behind its length. *)
Definition wire_bytes (v : bytes) : bytes := to_be_bytes (N.of_nat (length v)) ++ v.
Definition wire_variable (e : bytes * bytes) : bytes := wire_bytes e.1 ++ wire_bytes e.2.
Definition clean (v : bytes) : Prop := NUL ∉ v /\ (N.of_nat (length v) < 2 ^ 32)%N.
Definition name_clean (v : bytes) : Prop := v <> [] /\ clean v.
Definition variable_clean (e : bytes * bytes) : Prop := name_clean e.1 /\ "="%char ∉ e.1 /\ clean e.2.

(** The layout of the payload of a request. *)
Definition wire_request (cwd : bytes) (flags : N) (argv : list bytes) (environment : list (bytes * bytes))
    (targets : list N) (caller_pid : N) : bytes :=
  wire_bytes cwd ++ to_be_bytes (N.of_nat (length argv)) ++ to_be_bytes (N.of_nat (length environment))
  ++ to_be_bytes (N.of_nat (length targets)) ++ to_be_bytes flags ++ concat (map wire_bytes argv)
  ++ concat (map wire_variable environment) ++ concat (map to_be_bytes targets) ++ to_be_bytes caller_pid.

Section Decoding.
Context (payload : bytes) (small : (N.of_nat (length payload) < 2 ^ 64)%N).

Lemma decode_u32_Some from n upto :
  decode_u32 payload from = Some (n, upto) <-> (n < 2 ^ 32)%N /\ reads payload from (to_be_bytes n) upto.
Proof using small.
  rewrite <- (take_wire_u32_Ok payload small). unfold decode_u32, take_wire_u32.
  destruct (checked_add from 4) as [u|]; cbn; [|done]. destruct (get_bytes payload from u); cbn; [|done].
  split; intros E; injection E as <- <-; done.
Qed.

Lemma decode_bytes_Some allow_empty from v upto :
  decode_bytes payload allow_empty from = Some (v, upto) <->
  clean v /\ (allow_empty = false -> v <> []) /\ reads payload from (wire_bytes v) upto.
Proof using small.
  unfold decode_bytes, clean. split.
  - intros E. destruct (decode_u32 payload from) as [[l off]|] eqn:E1; cbn in E; [|done].
    destruct (checked_add off l) as [u|] eqn:E2; cbn in E; [|done]. destruct (get_bytes payload off u) as [w|] eqn:E3; cbn in E; [|done].
    destruct (negb allow_empty && _) eqn:E4; cbn in E; [done|]. case_bool_decide as Hn; [done|]. injection E as <- <-.
    apply decode_u32_Some in E1 as [Hl H1]. apply get_bytes_reads in E3.
    assert (N.of_nat (length w) = l) as <-.
    { unfold checked_add in E2. destruct (_ <? _)%N; [|done]. destruct E3 as (H2 & _). simplify_eq. lia. }
    split; [done|]. split; [|by eapply reads_app]. intros -> ->. by cbn in E4.
  - intros ([Hn Hl] & He & Hr). apply reads_split in Hr as [H1 H2].
    rewrite (proj2 (decode_u32_Some _ _ _) (conj Hl H1)). cbn [mbind option_bind].
    rewrite (checked_add_reads payload small _ _ _ H2). cbn [mbind option_bind].
    rewrite (proj2 (get_bytes_reads _ _ _ _) H2). cbn [mbind option_bind]. rewrite bool_decide_false by done.
    destruct allow_empty; cbn; [done|]. destruct v; [by destruct (He eq_refl)|done].
Qed.

Lemma decode_argument_Ok from v upto :
  decode_argument payload from = Ok (v, upto) <-> name_clean v /\ reads payload from (wire_bytes v) upto.
Proof using small.
  unfold decode_argument. rewrite ok_or_ok, decode_bytes_Some. unfold name_clean. naive_solver.
Qed.

Lemma decode_variable_Ok from e upto :
  decode_variable payload from = Ok (e, upto) <-> variable_clean e /\ reads payload from (wire_variable e) upto.
Proof using small.
  unfold decode_variable, variable_clean, wire_variable. split.
  - intros E. apply bind_ok in E as ([k off] & E1 & E). apply ok_or_ok, decode_bytes_Some in E1 as (H1 & H2 & H3).
    cbn [fst snd] in E. case_bool_decide; [done|]. apply bind_ok in E as ([v off2] & E2 & E).
    apply ok_or_ok, decode_bytes_Some in E2 as (H4 & _ & H5). injection E as <- <-.
    split; [split_and!; [by split; [apply H2|]|done|done]|]. by eapply reads_app.
  - intros (([H1 H2] & H3 & H4) & Hr). apply reads_split in Hr as [H5 H6]. destruct e as [k v]. cbn [fst snd] in *.
    rewrite (proj2 (decode_bytes_Some false _ k _) (conj H2 (conj (fun _ => H1) H5))). cbn [ok_or mbind result_bind fst snd].
    rewrite bool_decide_false by done.
    rewrite (proj2 (decode_bytes_Some true _ v _) (conj H4 (conj (fun e => match diff_true_false e with end) H6))). done.
Qed.

Lemma decode_items_Ok {A} (item : N -> result (A * N)) (P : A -> Prop) (enc : A -> bytes) :
  (forall from a upto, item from = Ok (a, upto) <-> P a /\ reads payload from (enc a) upto) ->
  forall n from l upto, (from <= N.of_nat (length payload))%N ->
  (decode_items item n from = Ok (l, upto) <->
   length l = n /\ Forall P l /\ reads payload from (concat (map enc l)) upto).
Proof using small.
  intros Hi. induction n as [|n IH]; intros from l upto Hf; cbn [decode_items].
  - split.
    + intros [= <- <-]. split; [done|]. split; [constructor|]. unfold reads. cbn. split; [lia|]. by split.
    + intros (Hl & _ & Hr). destruct l; [|done]. destruct Hr as (-> & _). cbn. do 2 f_equal. lia.
  - split.
    + intros E. apply bind_ok in E as ([a off] & E1 & E). apply Hi in E1 as [H1 H2]. cbn [fst snd] in E.
      apply bind_ok in E as ([l' u] & E2 & E). injection E as <- <-. cbn [fst snd].
      apply IH in E2 as (H3 & H4 & H5); [|by destruct H2 as (_ & ? & _)]. cbn [map concat length].
      split; [lia|]. split; [by constructor|]. by eapply reads_app.
    + intros (Hl & HP & Hr). destruct l as [|a l]; [done|]. cbn [map concat] in Hr. apply reads_split in Hr as [H1 H2].
      inversion HP as [|? ? Ha Hl']; subst. rewrite (proj2 (Hi _ _ _) (conj Ha H1)). cbn [mbind result_bind fst snd].
      rewrite (proj2 (IH _ l upto ltac:(by destruct H1 as (_ & ? & _)))); [done|]. split; [by injection Hl|done].
Qed.

Lemma decode_mappings_Ok : forall fds targets from maps upto, (from <= N.of_nat (length payload))%N ->
  (decode_mappings payload targets fds from = Ok (maps, upto) <->
   map snd maps = fds /\ Forall (fun m => (0 <= m.1 <= MAX_TARGET_FD)%Z /\ m.1 ∉ targets) maps /\ NoDup (map fst maps) /\
   reads payload from (concat (map (fun m => to_be_bytes (Z.to_N m.1)) maps)) upto).
Proof using small.
  induction fds as [|source fds IH]; intros targets from maps upto Hf; cbn [decode_mappings].
  - split.
    + intros [= <- <-]. split; [done|]. split; [constructor|]. split; [constructor|]. unfold reads. cbn. split; [lia|]. by split.
    + intros (Hl & _ & _ & Hr). destruct maps; [|done]. destruct Hr as (-> & _). cbn. do 2 f_equal. lia.
  - split.
    + intros E. apply bind_ok in E as ([raw off] & E1 & E). apply ok_or_ok, decode_u32_Some in E1 as [H1 H2].
      apply bind_ok in E as (t & E2 & E). apply ok_or_ok in E2. unfold to_i32 in E2. cbn [fst snd] in *.
      destruct (N.ltb_spec raw (2 ^ 31)); [|done]. injection E2 as <-.
      destruct (negb _) eqn:E3; [done|]. apply negb_false_iff, andb_true_iff in E3 as [H3%Z.leb_le H4%Z.leb_le].
      case_bool_decide as Hin; [done|]. apply bind_ok in E as ([maps' u] & E4 & E). injection E as <- <-. cbn [fst snd].
      apply IH in E4 as (H5 & H6 & H7 & H8); [|by destruct H2 as (_ & ? & _)]. cbn [map concat fst snd].
      split; [by rewrite H5|]. split; [constructor; [done|]; eapply Forall_impl; [exact H6|]; intros m [? Hm]; split; [done|set_solver]|].
      split; [|rewrite N2Z.id; by eapply reads_app]. constructor; [|done]. intros (m & Hm1 & Hm2)%list_elem_of_fmap.
      apply (proj1 (Forall_forall _ _) H6) in Hm2 as [_ Hm2]. apply Hm2. rewrite <- Hm1. by left.
    + intros (Hs & HP & Hd & Hr). destruct maps as [|[t s] maps]; [done|]. cbn [map concat fst snd] in *. injection Hs as -> Hs.
      apply reads_split in Hr as [H1 H2]. inversion HP as [|? ? [Hr Hn] HP']; subst. inversion Hd as [|? ? Hnd Hd']; subst. cbn [fst] in *.
      assert (Z.to_N t < 2 ^ 32)%N as Hb by (unfold MAX_TARGET_FD in *; lia).
      rewrite (proj2 (decode_u32_Some _ _ _) (conj Hb H1)). cbn [ok_or mbind result_bind fst snd]. unfold to_i32.
      rewrite (proj2 (N.ltb_lt _ _)) by (unfold MAX_TARGET_FD in *; lia). cbn [ok_or mbind result_bind]. rewrite Z2N.id by lia.
      rewrite (proj2 (Z.leb_le 0 t)), (proj2 (Z.leb_le t MAX_TARGET_FD)) by lia. cbn [andb negb]. rewrite bool_decide_false by done.
      rewrite (proj2 (IH (t :: targets) _ maps upto ltac:(by destruct H1 as (_ & ? & _)))); [done|].
      split_and!; [done| |done|done]. apply Forall_forall. intros m Hm. apply (proj1 (Forall_forall _ _) HP') in Hm as Hm'.
      split; [by apply Hm'|]. intros [Ht|?]%elem_of_cons; [|by destruct Hm']. apply Hnd. rewrite <- Ht. apply list_elem_of_fmap. by exists m.
Qed.
End Decoding.

(** ** Lemmas: whole requests *)

Lemma reads_all payload : reads payload 0 payload (N.of_nat (length payload)).
Proof. split; [done|]. split; [done|]. by rewrite Nat2N.id, drop_all, drop_0, app_nil_r. Qed.
Lemma reads_whole payload v : reads payload 0 v (N.of_nat (length payload)) <-> v = payload.
Proof.
  split; [|intros ->; apply reads_all]. intros (_ & _ & E). by rewrite drop_0, Nat2N.id, drop_all, app_nil_r in E.
Qed.

Definition request_ok (r : SpawnRequest) : Prop :=
  match sp_cwd r with Some v => name_clean v | None => True end /\
  (sp_flags r < 2 ^ 32)%N /\ (sp_caller_pid r < 2 ^ 32)%N /\
  (1 <= length (sp_argv r) <= 256)%nat /\ Forall name_clean (sp_argv r) /\
  (length (sp_environment r) <= 256)%nat /\ Forall variable_clean (sp_environment r) /\
  Forall (fun m => 0 <= m.1 <= MAX_TARGET_FD)%Z (sp_mappings r) /\ NoDup (map fst (sp_mappings r)).

Definition targets_of (r : SpawnRequest) : list N := map (fun m => Z.to_N m.1) (sp_mappings r).
Definition payload_of (r : SpawnRequest) : bytes :=
  wire_request (default [] (sp_cwd r)) (sp_flags r) (sp_argv r) (sp_environment r) (targets_of r) (sp_caller_pid r).

Lemma cwd_of_bytes v : clean v ->
  match (if Nat.eqb (length v) 0 then None else Some v) with Some v => name_clean v | None => True end /\
  default [] (if Nat.eqb (length v) 0 then None else Some v) = v.
Proof. intros Hv. destruct v; cbn; [done|]. split; [|done]. by split. Qed.
Lemma clean_nil : clean [].
Proof. split; [apply not_elem_of_nil|done]. Qed.

Section Request.
Context (payload : bytes) (small : (N.of_nat (length payload) < 2 ^ 64)%N).

Lemma parse_spawn_sound fds r : parse_spawn payload fds = Ok r ->
  request_ok r /\ map snd (sp_mappings r) = fds /\ payload = payload_of r.
Proof using small.
  intros E. apply bind_ok in E as ([cwd o1] & H1 & E). apply ok_or_ok, (decode_bytes_Some _ small) in H1 as (H1 & _ & R1). cbn [fst snd] in *.
  apply bind_ok in E as ([argc o2] & H2 & E). apply ok_or_ok, (decode_u32_Some _ small) in H2 as [_ R2]. cbn [fst snd] in *.
  apply bind_ok in E as ([envc o3] & H3 & E). apply ok_or_ok, (decode_u32_Some _ small) in H3 as [_ R3]. cbn [fst snd] in *.
  apply bind_ok in E as ([mapc o4] & H4 & E). apply ok_or_ok, (decode_u32_Some _ small) in H4 as [_ R4]. cbn [fst snd] in *.
  apply bind_ok in E as ([flags o5] & H5 & E). apply ok_or_ok, (decode_u32_Some _ small) in H5 as [H5 R5]. cbn [fst snd] in *.
  destruct (N.eqb_spec argc 0); [done|]. destruct (N.ltb_spec 256 argc); [done|]. cbn [orb] in E.
  destruct (N.ltb_spec 256 envc); [done|]. destruct (N.eqb_spec mapc (N.of_nat (length fds))) as [->|]; [|done]. cbn [negb] in E.
  apply bind_ok in E as ([argv o6] & H6 & E).
  apply (decode_items_Ok payload small _ name_clean wire_bytes (decode_argument_Ok payload small)) in H6 as (L6 & H6 & R6); [|by destruct R5 as (_ & ? & _)].
  cbn [fst snd] in *. apply bind_ok in E as ([env o7] & H7 & E).
  apply (decode_items_Ok payload small _ variable_clean wire_variable (decode_variable_Ok payload small)) in H7 as (L7 & H7 & R7); [|by destruct R6 as (_ & ? & _)].
  cbn [fst snd] in *. apply bind_ok in E as ([maps o8] & H8 & E).
  apply (decode_mappings_Ok payload small) in H8 as (L8 & H8 & N8 & R8); [|by destruct R7 as (_ & ? & _)].
  cbn [fst snd] in *. apply bind_ok in E as ([pid o9] & H9 & E). apply ok_or_ok, (decode_u32_Some _ small) in H9 as [H9 R9]. cbn [fst snd] in *.
  destruct (N.eqb_spec o9 (N.of_nat (length payload))) as [->|]; [|done]. injection E as <-.
  destruct (cwd_of_bytes cwd H1) as [Hc1 Hc2]. split; [|split; [done|]].
  - unfold request_ok. cbn. split_and!; [done..|lia|lia|done|lia|done|eapply Forall_impl; [exact H8|]; by intros m [? _]|done].
  - unfold payload_of, wire_request, targets_of. cbn [sp_cwd sp_flags sp_argv sp_environment sp_mappings sp_caller_pid].
    assert (length maps = length fds) as Lm by (by rewrite <- L8, length_map).
    rewrite Hc2, L6, L7, length_map, map_map, Lm, !N2Nat.id. symmetry. apply reads_whole.
    repeat (eapply reads_app; [eassumption|]). done.
Qed.

Lemma parse_spawn_complete r : request_ok r -> (length (sp_mappings r) <= MAX_FDS)%nat -> payload = payload_of r ->
  parse_spawn payload (map snd (sp_mappings r)) = Ok r.
Proof using small.
  intros (C1 & C2 & C3 & C4 & C5 & C6 & C7 & C8 & C9) Hm Hp. pose proof (reads_all payload) as R. rewrite Hp in R at 2.
  unfold payload_of, wire_request in R.
  assert (length (targets_of r) = length (sp_mappings r)) as Lt by apply length_map. rewrite Lt in R. unfold targets_of in R. rewrite map_map in R.
  apply reads_split in R as [R1 R]. apply reads_split in R as [R2 R]. apply reads_split in R as [R3 R]. apply reads_split in R as [R4 R].
  apply reads_split in R as [R5 R]. apply reads_split in R as [R6 R]. apply reads_split in R as [R7 R]. apply reads_split in R as [R8 R9].
  assert (N.of_nat (length (sp_argv r)) < 2 ^ 32)%N as A2 by lia.
  assert (N.of_nat (length (sp_environment r)) < 2 ^ 32)%N as A3 by lia.
  assert (N.of_nat (length (sp_mappings r)) < 2 ^ 32)%N as A4 by (unfold MAX_FDS in Hm; lia).
  unfold parse_spawn. assert (clean (default [] (sp_cwd r))) as Hc by (destruct (sp_cwd r); [apply C1|apply clean_nil]).
  assert (Forall (fun m => (0 <= m.1 <= MAX_TARGET_FD)%Z /\ m.1 ∉ []) (sp_mappings r)) as A8.
  { eapply Forall_impl; [exact C8|]. intros m Hx. split; [done|apply not_elem_of_nil]. }
  apply bind_ok. eexists (_, _). split; [apply ok_or_ok, (decode_bytes_Some _ small); split; [exact Hc|]; split; [done|exact R1]|].
  apply bind_ok. eexists (_, _). split; [apply ok_or_ok, (decode_u32_Some _ small); split; [exact A2|exact R2]|].
  apply bind_ok. eexists (_, _). split; [apply ok_or_ok, (decode_u32_Some _ small); split; [exact A3|exact R3]|].
  apply bind_ok. eexists (_, _). split; [apply ok_or_ok, (decode_u32_Some _ small); split; [exact A4|exact R4]|].
  apply bind_ok. eexists (_, _). split; [apply ok_or_ok, (decode_u32_Some _ small); split; [exact C2|exact R5]|].
  cbn [fst snd]. destruct (N.eqb_spec (N.of_nat (length (sp_argv r))) 0); [lia|]. rewrite (proj2 (N.ltb_ge 256 _)) by lia. cbn [orb].
  rewrite (proj2 (N.ltb_ge 256 _)) by lia. rewrite length_map, N.eqb_refl, !Nat2N.id. cbn [negb].
  apply bind_ok. eexists (_, _). split.
  { apply (decode_items_Ok payload small _ name_clean wire_bytes (decode_argument_Ok payload small));
      [by destruct R5 as (_ & ? & _)|split; [done|split; [exact C5|exact R6]]]. }
  apply bind_ok. eexists (_, _). split.
  { apply (decode_items_Ok payload small _ variable_clean wire_variable (decode_variable_Ok payload small));
      [by destruct R6 as (_ & ? & _)|split; [done|split; [exact C7|exact R7]]]. }
  apply bind_ok. eexists (_, _). split.
  { apply (decode_mappings_Ok payload small); [by destruct R7 as (_ & ? & _)|split; [done|split; [exact A8|split; [exact C9|exact R8]]]]. }
  apply bind_ok. eexists (_, _). split; [apply ok_or_ok, (decode_u32_Some _ small); split; [exact C3|exact R9]|].
  cbn [fst snd]. rewrite N.eqb_refl. cbn [negb]. f_equal.
  destruct r as [[v|] ? ? ? ? ?]; cbn in *; [|done]. destruct C1 as [Hne _]. by destruct v.
Qed.
End Request.

(** ** Lemmas: frames *)

Lemma from_to_be16 n : (n < 2 ^ 16)%N -> from_be_bytes (u16_to_be_bytes n) = n.
Proof.
  intros Hn. unfold from_be_bytes, u16_to_be_bytes. cbn [fold_left].
  rewrite !N_ascii_embedding by (apply N.mod_lt; done). zify. Z.div_mod_to_equations. lia.
Qed.
Lemma to_from_be16 l : length l = 2%nat -> u16_to_be_bytes (from_be_bytes l) = l /\ (from_be_bytes l < 2 ^ 16)%N.
Proof.
  destruct l as [|a [|b [|? ?]]]; try done. intros _. unfold from_be_bytes, u16_to_be_bytes. cbn [fold_left].
  pose proof (N_ascii_lt a). pose proof (N_ascii_lt b). set (na := N_of_ascii a) in *. set (nb := N_of_ascii b) in *.
  set (v := ((0 * 256 + na) * 256 + nb)%N).
  assert (v / 256 mod 256 = na)%N as ->. { subst v. zify. Z.div_mod_to_equations. lia. }
  assert (v mod 256 = nb)%N as ->. { subst v. zify. Z.div_mod_to_equations. lia. }
  subst na nb. rewrite !ascii_N_embedding. split; [done|]. subst v. lia.
Qed.

(** The fields of a packet. *)
Lemma packet_fields packet : (HEADER_SIZE <= length packet)%nat ->
  packet = slice 0 4 packet ++ slice 4 6 packet ++ slice 6 8 packet ++ slice 8 12 packet ++ slice 12 16 packet ++ slice 16 20 packet
           ++ drop 20 packet.
Proof.
  intros Hl. unfold slice. rewrite drop_0.
  assert (forall a b, a <= b -> drop a packet = take (b - a) (drop a packet) ++ drop b packet) as Hd.
  { intros a b Hab. rewrite <- (take_drop (b - a) (drop a packet)) at 1. rewrite drop_drop. do 2 f_equal. lia. }
  rewrite <- (Hd 16 20), <- (Hd 12 16), <- (Hd 8 12), <- (Hd 6 8), <- (Hd 4 6) by lia. symmetry. apply (take_drop 4).
Qed.
Lemma slice_length a b packet : (a <= b <= length packet)%nat -> length (slice a b packet) = (b - a)%nat.
Proof. intros Hab. unfold slice. rewrite length_take, length_drop. lia. Qed.

(** The fields of a frame. *)
Lemma frame_slices kind request payload fds : let p := frame kind request payload fds ++ payload in
  slice 0 4 p = to_be_bytes MAGIC /\ slice 4 6 p = u16_to_be_bytes VERSION /\ slice 6 8 p = u16_to_be_bytes kind /\
  slice 8 12 p = to_be_bytes request /\ slice 12 16 p = to_be_bytes (N.of_nat (length payload) mod 2 ^ 32) /\
  slice 16 20 p = to_be_bytes fds /\ drop 20 p = payload /\ length p = (20 + length payload)%nat.
Proof. cbv zeta. unfold slice, frame, to_be_bytes, u16_to_be_bytes. cbn [app take drop Nat.sub length Nat.add]. done. Qed.

(** ** Lemmas: the client *)

Lemma without_nul_length v : (length (without_nul v) <= length v)%nat.
Proof.
  unfold without_nul. destruct (rev v) as [|a r] eqn:E; [done|]. rewrite <- (length_rev v), E.
  destruct (Ascii.eqb a NUL); [by rewrite length_rev; cbn; lia|]. rewrite <- (length_rev v), E. done.
Qed.
Lemma append_byte_string_Ok v allow_empty b : append_byte_string v allow_empty = Ok b ->
  b = wire_bytes (without_nul v) /\ clean (without_nul v) /\ (allow_empty = false -> without_nul v <> []).
Proof.
  unfold append_byte_string. set (w := without_nul v). destruct (_ || _ || _) eqn:E; [done|]. intros [= <-].
  apply orb_false_iff in E as [[E1 E2]%orb_false_iff E3%N.ltb_ge]. apply bool_decide_eq_false in E2.
  split; [done|]. split; [split; [done|lia]|]. intros -> Hw. by rewrite Hw in E1.
Qed.

Lemma byte_strings_Ok l bs : map_result (fun a => append_byte_string a false) l = Ok bs ->
  bs = map wire_bytes (map without_nul l) /\ Forall name_clean (map without_nul l).
Proof.
  revert bs. induction l as [|a l IH]; intros bs E; cbn [map_result] in E; [by injection E as <-|].
  apply bind_ok in E as (b & E1 & E). apply bind_ok in E as (bs' & E2 & E). injection E as <-.
  apply append_byte_string_Ok in E1 as (-> & H1 & H2). destruct (IH _ E2) as [-> ?]. cbn [map]. split; [done|].
  constructor; [split; [by apply H2|done]|done].
Qed.

(** D-Bus strings have no NUL, and four gigabytes at most. *)
Definition dbus_strings (c : SpawnCall) : Prop := Forall (fun e => clean e.1 /\ clean e.2) (sc_envs c).

Lemma variables_Ok l bs : Forall (fun e => clean e.1 /\ clean e.2) l -> map_result append_variable l = Ok bs ->
  bs = map wire_variable l /\ Forall variable_clean l.
Proof.
  intros Hl. revert bs. induction Hl as [|e l [H1 H2] Hl IH]; intros bs E; cbn [map_result] in E; [by injection E as <-|].
  apply bind_ok in E as (b & E1 & E). apply bind_ok in E as (bs' & E2 & E). injection E as <-. destruct (IH _ E2) as [-> ?].
  unfold append_variable in E1. destruct (_ || _) eqn:Eb; [done|]. injection E1 as <-.
  apply orb_false_iff in Eb as [E3 E4%bool_decide_eq_false]. cbn [map]. split.
  - f_equal. unfold wire_variable, append_string, wire_bytes, append_u32.
    by rewrite (N.mod_small (N.of_nat (length e.1))), (N.mod_small (N.of_nat (length e.2))) by first [apply H1|apply H2].
  - constructor; [|done]. split; [|by split]. split; [by intros Hn; rewrite Hn in E3|done].
Qed.

Lemma mappings_Ok fds l : forall seen b sources, append_mappings fds seen l = Ok (b, sources) ->
  b = concat (map to_be_bytes (map fst l)) /\ length sources = length l /\
  Forall (fun m => (m.1 <= Z.to_N MAX_TARGET_FD)%N /\ m.1 ∉ seen) l /\ NoDup (map fst l) /\ Forall2 (fun m s => fds m.2 = Some s) l sources.
Proof.
  induction l as [|[t h] l IH]; intros seen b sources E; cbn [append_mappings] in E.
  - injection E as <- <-. split_and!; done || constructor.
  - destruct (N.ltb_spec (Z.to_N MAX_TARGET_FD) t); [done|]. case_bool_decide as Hs; [done|].
    apply bind_ok in E as (s & E1 & E). apply ok_or_ok in E1. apply bind_ok in E as ([b' ss] & E2 & E). injection E as <- <-.
    apply IH in E2 as (-> & H1 & H2 & H3 & H4). cbn [map concat fst snd length]. split_and!; [done|lia| | |by constructor].
    + constructor; [done|]. eapply Forall_impl; [exact H2|]. intros m [? ?]. split; [done|set_solver].
    + constructor; [|done]. intros (m & Hm1 & Hm2)%list_elem_of_fmap. apply (proj1 (Forall_forall _ _) H2) in Hm2 as [_ Hm2].
      apply Hm2. rewrite <- Hm1. by left.
Qed.

(** ** Lemmas: the environment *)

Definition variable (name : string) (environment : list (string * string)) : option string :=
  snd <$> List.find (fun e => String.eqb e.1 name) environment.

Lemma variable_set name key value env :
  variable name (set_variable key value env) = if String.eqb key name then Some value else variable name env.
Proof.
  unfold variable. induction env as [|[k v] env IH]; cbn [set_variable].
  - cbn. by destruct (String.eqb key name).
  - destruct (String.eqb_spec k key) as [->|Hk]; cbn [List.find fst].
    + by destruct (String.eqb key name).
    + destruct (String.eqb_spec k name) as [->|]; cbn; [|exact IH].
      by rewrite (proj2 (String.eqb_neq key name)) by congruence.
Qed.
Lemma names_set key value env : map fst env `prefix_of` map fst (set_variable key value env).
Proof.
  induction env as [|[k v] env IH]; cbn [set_variable map fst]; [by eexists|].
  destruct (String.eqb k key); [by apply prefix_cons|by apply prefix_cons].
Qed.

(** The last value an addition gives a name. *)
Fixpoint last_addition (name : string) (additions : list (bytes * bytes)) : option string :=
  match additions with
  | [] => None
  | e :: r => match last_addition name r with
              | Some v => Some v
              | None => if String.eqb (string_of e.1) name then Some (string_of e.2) else None
              end
  end.
Definition unreadable (e : bytes * bytes) : Prop := valid_utf8 (string_of e.1) = false \/ valid_utf8 (string_of e.2) = false.

Lemma from_utf8_Some s t : from_utf8 s = Some t <-> t = s /\ valid_utf8 s = true.
Proof. unfold from_utf8. destruct (valid_utf8 s); naive_solver. Qed.

Lemma merge_environment_spec additions : forall inherited env, merge_environment inherited additions = Some env ->
  map fst inherited `prefix_of` map fst env /\
  forall name, variable name env = match last_addition name additions with Some v => Some v | None => variable name inherited end.
Proof.
  induction additions as [|e r IH]; intros inh env E; cbn [merge_environment last_addition] in *.
  - by injection E as <-.
  - destruct e as [k v]. cbn [fst snd] in *. destruct (from_utf8 (string_of k)) as [k'|] eqn:E1; cbn in E; [|done].
    destruct (from_utf8 (string_of v)) as [v'|] eqn:E2; cbn in E; [|done].
    apply from_utf8_Some in E1 as [-> _], E2 as [-> _]. apply IH in E as [H1 H2].
    split; [etrans; [apply names_set|exact H1]|]. intros name. rewrite H2, variable_set.
    destruct (last_addition name r); [done|]. by destruct (String.eqb (string_of k) name).
Qed.
Lemma merge_environment_None additions : forall inherited, merge_environment inherited additions = None <-> Exists unreadable additions.
Proof.
  induction additions as [|[k v] r IH]; intros inh; cbn [merge_environment]; [by rewrite Exists_nil|].
  rewrite Exists_cons. unfold unreadable at 1. cbn [fst snd]. unfold from_utf8.
  destruct (valid_utf8 (string_of k)); cbn; [|naive_solver]. destruct (valid_utf8 (string_of v)); cbn; [|naive_solver].
  rewrite IH. naive_solver.
Qed.

(** ** Lemmas: the instance file *)

Definition marked (l : string) : Prop := trim l = "sandbox=true".
Definition instance_header (l : string) : Prop := trim l = "[Instance]".

Lemma fmt_end_lines_cons l ls : fmt (map end_line (l :: ls)) = end_line l +:+ fmt (map end_line ls).
Proof. done. Qed.

Lemma restricted_true ls : restricted_lines true ls = (fmt (map end_line ls), true).
Proof. induction ls as [|l ls IH]; [done|]. cbn [restricted_lines negb orb andb]. rewrite IH. done. Qed.

(** The mark follows the first header of the instance group. *)
Lemma restricted_spec ls :
  (Forall (fun l => ~ instance_header l) ls /\ restricted_lines false ls = (fmt (map end_line ls), false)) \/
  exists pre h post, ls = pre ++ h :: post /\ Forall (fun l => ~ instance_header l) pre /\ instance_header h /\
    restricted_lines false ls = (fmt (map end_line (pre ++ h :: "sandbox=true" :: post)), true).
Proof.
  induction ls as [|l ls IH]; [by left|]. cbn [restricted_lines negb orb andb]. unfold instance_header in *.
  destruct (String.eqb_spec (trim l) "[Instance]") as [Hl|Hl].
  - right. exists [], l, ls. split; [done|]. split; [constructor|]. split; [done|]. rewrite restricted_true. cbn [fst snd app].
    done.
  - destruct IH as [[H1 H2]|(pre & h & post & -> & H1 & H2 & H3)].
    + left. split; [by constructor|]. by rewrite H2.
    + right. exists (l :: pre), h, post. split; [done|]. split; [by constructor|]. split; [done|]. by rewrite H3.
Qed.

Lemma lines_end_lines ls : Forall (fun l => has LF l = false) ls -> lines (fmt (map end_line ls)) = map strip_cr ls.
Proof.
  induction 1 as [|l ls Hl Hls IH]; [done|]. rewrite fmt_end_lines_cons. change (end_line l) with (l +:+ nl).
  rewrite sapp_assoc, lines_cons by done. cbn [map]. by rewrite IH.
Qed.
Lemma is_marked info : existsb (fun line => String.eqb (trim line) "sandbox=true") (lines info) = true <-> Exists marked (lines info).
Proof.
  rewrite existsb_exists, Exists_exists. unfold marked. setoid_rewrite String.eqb_eq. setoid_rewrite list_elem_of_In. done.
Qed.

(** ** Lemmas: from the client to the broker *)

(** The request a D-Bus call stands for. *)
Definition request_of (c : SpawnCall) (sources : list Z) (sender_pid : N) : SpawnRequest :=
  mkSpawn (if Nat.eqb (length (without_nul (sc_cwd c))) 0 then None else Some (without_nul (sc_cwd c))) (sc_flags c)
    (map without_nul (sc_argv c)) sender_pid (sc_envs c) (zip (map (fun m => Z.of_N m.1) (sc_fd_map c)) sources).

Lemma zip_fst {A B} (l : list A) (k : list B) : length l = length k -> map fst (zip l k) = l.
Proof. revert k. induction l as [|a l IH]; intros [|b k] Hl; try done. cbn. by rewrite IH by (by injection Hl). Qed.
Lemma zip_snd {A B} (l : list A) (k : list B) : length l = length k -> map snd (zip l k) = k.
Proof. revert k. induction l as [|a l IH]; intros [|b k] Hl; try done. cbn. by rewrite IH by (by injection Hl). Qed.

(** What is built describes the request. *)
Lemma build_spawn_payload_Ok c fds sender_pid payload sources :
  dbus_strings c -> (sc_flags c < 2 ^ 32)%N -> (sender_pid < 2 ^ 32)%N ->
  build_spawn_payload c fds = Ok (payload, sources) ->
  let r := request_of c sources sender_pid in
  payload ++ append_u32 sender_pid = payload_of r /\ request_ok r /\ map snd (sp_mappings r) = sources /\
  (length sources <= MAX_FDS)%nat /\ (N.of_nat (length payload) <= MAX_PAYLOAD - 4)%N /\
  Forall2 (fun m s => default (fun _ => None) fds m.2 = Some s) (sc_fd_map c) sources.
Proof.
  intros Hd Hf Hs E. unfold build_spawn_payload in E. destruct (_ || _) eqn:Eb in E; [done|].
  apply orb_false_iff in Eb as [[[[B1 B2]%orb_false_iff B3]%orb_false_iff B4]%orb_false_iff _].
  apply Nat.eqb_neq in B1. apply Nat.ltb_ge in B2, B3, B4.
  apply bind_ok in E as (cwd & E1 & E). apply append_byte_string_Ok in E1 as (-> & C1 & _).
  apply bind_ok in E as (argv & E2 & E). apply byte_strings_Ok in E2 as [-> C2].
  apply bind_ok in E as (envs & E3 & E). apply variables_Ok in E3 as [-> C3]; [|done].
  apply bind_ok in E as ([b ss] & E4 & E). apply mappings_Ok in E4 as (-> & L & C4 & C5 & C6). cbn [fst snd] in E.
  destruct (N.ltb_spec (MAX_PAYLOAD - 4) (N.of_nat (length
    (wire_bytes (without_nul (sc_cwd c)) ++ append_u32 (N.of_nat (length (sc_argv c))) ++ append_u32 (N.of_nat (length (sc_envs c))) ++
     append_u32 (N.of_nat (length (sc_fd_map c))) ++ append_u32 (sc_flags c) ++ concat (map wire_bytes (map without_nul (sc_argv c))) ++
     concat (map wire_variable (sc_envs c)) ++ concat (map to_be_bytes (map fst (sc_fd_map c))))))) as [|Hl]; [done|].
  apply Ok_inj, pair_eq in E as [<- <-]. intros r. assert (length (map (fun m => Z.of_N m.1) (sc_fd_map c)) = length ss) as Lz by (by rewrite length_map).
  destruct (cwd_of_bytes _ C1) as [W1 W2]. split_and!; [| |by apply zip_snd|lia|exact Hl|exact C6].
  - assert (targets_of r = map fst (sc_fd_map c)) as Ht.
    { unfold targets_of. transitivity (map Z.to_N (map fst (sp_mappings r))); [by rewrite map_map|].
      cbn [r request_of sp_mappings]. rewrite zip_fst by done. rewrite map_map. apply map_ext. intros m. apply N2Z.id. }
    unfold payload_of, wire_request. rewrite Ht. cbn [r request_of sp_cwd sp_flags sp_argv sp_environment sp_caller_pid].
    rewrite W2, !length_map. unfold append_u32.
    by rewrite <- !app_assoc.
  - unfold request_ok. cbn [r request_of sp_cwd sp_flags sp_argv sp_environment sp_caller_pid sp_mappings].
    rewrite length_map. split_and!; [done..|lia|lia|done|lia|done| |].
    + apply Forall_forall. intros [t f] (x & -> & Hx)%elem_of_zip_l%list_elem_of_fmap.
      apply (proj1 (Forall_forall _ _) C4) in Hx as [Hx _]. cbn [fst]. unfold MAX_TARGET_FD in *. lia.
    + rewrite zip_fst by done. apply (NoDup_fmap_2 Z.of_N) in C5. by rewrite <- list_fmap_compose in C5.
Qed.

(** ** Theorems *)

(** A packet is taken for a frame exactly if it is the frame of its payload:
    the magic number and the version, fields within their width, the length of
    the payload, at most 4096 bytes, and nothing behind it. *)
Theorem frame_codec packet kind request len fds :
  parse_frame packet = Some (kind, request, len, fds) <->
  exists payload, packet = frame kind request payload fds ++ payload /\ len = N.of_nat (length payload) /\
    (len <= MAX_PAYLOAD)%N /\ (kind < 2 ^ 16)%N /\ (request < 2 ^ 32)%N /\ (fds < 2 ^ 32)%N.
Proof.
  unfold parse_frame. split.
  - destruct (Nat.ltb_spec (length packet) HEADER_SIZE) as [|Hl]; [done|]. cbv zeta. destruct (_ || _) eqn:E; [done|].
    intros [= <- <- <- <-]. apply orb_false_iff in E as [[[E1 E2]%orb_false_iff E3%N.ltb_ge]%orb_false_iff E4].
    apply negb_false_iff, N.eqb_eq in E1, E2, E4. exists (drop 20 packet). unfold HEADER_SIZE in *.
    destruct (to_from_be (slice 0 4 packet)) as [F1 _]; [by apply slice_length; lia|].
    destruct (to_from_be16 (slice 4 6 packet)) as [F2 _]; [by apply slice_length; lia|].
    destruct (to_from_be16 (slice 6 8 packet)) as [F3 B3]; [by apply slice_length; lia|].
    destruct (to_from_be (slice 8 12 packet)) as [F4 B4]; [by apply slice_length; lia|].
    destruct (to_from_be (slice 12 16 packet)) as [F5 B5]; [by apply slice_length; lia|].
    destruct (to_from_be (slice 16 20 packet)) as [F6 B6]; [by apply slice_length; lia|].
    assert (N.of_nat (length (drop 20 packet)) = from_be_bytes (slice 12 16 packet)) as Hd by (rewrite length_drop; lia).
    split; [|by split_and!]. unfold frame. rewrite Hd, N.mod_small by done. rewrite <- E1, <- E2, F1, F2, F3, F4, F5, F6, <- !app_assoc.
    apply packet_fields, Hl.
  - intros (payload & -> & -> & H1 & H2 & H3 & H4).
    destruct (frame_slices kind request payload fds) as (-> & -> & -> & -> & -> & -> & _ & ->).
    rewrite (proj2 (Nat.ltb_ge _ _)) by (unfold HEADER_SIZE; lia).
    assert (N.of_nat (length payload) < 2 ^ 32)%N by (unfold MAX_PAYLOAD in *; lia).
    rewrite !from_to_be16, !from_to_be by (done || (apply N.mod_lt; done)). rewrite N.mod_small by done.
    rewrite !N.eqb_refl, (proj2 (N.ltb_ge MAX_PAYLOAD _)) by done. cbn [negb orb].
    rewrite (proj2 (N.eqb_eq _ _)) by (unfold HEADER_SIZE; lia). done.
Qed.

(** The broker accepts exactly the payloads that describe a request within
    the limits (one to 256 arguments, at most 256 variables, distinct target
    descriptors up to 65535, no NUL bytes, non-empty arguments and names), with
    as many descriptors as mappings and no byte left over; the request is the
    one that is described. *)
Theorem spawn_codec payload fds r :
  (N.of_nat (length payload) <= MAX_PAYLOAD)%N -> (length fds <= MAX_FDS)%nat ->
  (parse_spawn payload fds = Ok r <->
   request_ok r /\ map snd (sp_mappings r) = fds /\ payload = payload_of r).
Proof.
  intros Hp Hf. assert (N.of_nat (length payload) < 2 ^ 64)%N as Hs by (unfold MAX_PAYLOAD in Hp; lia). split.
  - by apply parse_spawn_sound.
  - intros (H1 & <- & H2). apply parse_spawn_complete; [done..| |done]. by rewrite length_map in Hf.
Qed.

(** C9.  What the portal bridge builds from a D-Bus call is always sent, and the
    broker takes it for the request the call stands for: the packet is a Spawn
    frame with as many descriptors as announced, and its payload is decoded as
    the call's directory, arguments (each without the NUL at its end),
    environment, flags and caller, with each descriptor of the message mapped to
    its target. *)
Theorem bridge_request_reaches_broker c fds sender_pid sent :
  dbus_strings c -> (sc_flags c < 2 ^ 32)%N -> (sender_pid < 2 ^ 32)%N ->
  send_spawn c fds sender_pid = Ok sent ->
  exists packet sources, sent = Some (packet, sources) /\
    Forall2 (fun m s => default (fun _ => None) fds m.2 = Some s) (sc_fd_map c) sources /\
    parse_frame packet = Some (SPAWN, 1%N, N.of_nat (length (drop HEADER_SIZE packet)), N.of_nat (length sources)) /\
    parse_spawn (drop HEADER_SIZE packet) sources = Ok (request_of c sources sender_pid).
Proof.
  intros Hd Hf Hs E. apply bind_ok in E as ([payload sources] & E1 & E). apply Ok_inj in E as <-. cbn [fst snd].
  destruct (build_spawn_payload_Ok c fds sender_pid payload sources Hd Hf Hs E1) as (P1 & P2 & P3 & P4 & P5 & P6).
  assert (length (payload ++ append_u32 sender_pid) = length payload + 4)%nat as Hl by apply length_app.
  unfold broker_send_packet. set (whole := payload ++ append_u32 sender_pid) in *.
  rewrite (proj2 (N.ltb_ge _ _)), (proj2 (Nat.ltb_ge _ _)) by (unfold MAX_PAYLOAD in *; lia). cbn [orb].
  eexists _, _. split; [done|]. split; [done|].
  assert (drop HEADER_SIZE (frame 8 1 whole (N.of_nat (length sources)) ++ whole) = whole) as Hw.
  { by destruct (frame_slices 8 1 whole (N.of_nat (length sources))) as (_ & _ & _ & _ & _ & _ & Hd' & _). }
  rewrite Hw. split.
  - unfold parse_frame. destruct (frame_slices 8 1 whole (N.of_nat (length sources))) as (-> & -> & -> & -> & -> & -> & _ & ->).
    rewrite (proj2 (Nat.ltb_ge _ _)) by (unfold HEADER_SIZE; lia). unfold MAX_PAYLOAD, MAX_FDS in *.
    rewrite !from_to_be16, !from_to_be by (done || (apply N.mod_lt; done) || lia). rewrite N.mod_small by lia.
    rewrite !N.eqb_refl, (proj2 (N.ltb_ge _ _)) by lia. cbn [negb orb].
    rewrite (proj2 (N.eqb_eq _ _)) by (unfold HEADER_SIZE; lia). done.
  - rewrite <- P3 at 1. apply parse_spawn_complete; [unfold MAX_PAYLOAD in *; lia|done|rewrite <- P3, length_map in P4; exact P4|done].
Qed.

(** The environment of the new program: it is refused exactly if a name or a
    value added is not UTF-8; otherwise the variables inherited keep their
    places, each variable has the last value added for it, and the others the
    value inherited. *)
Theorem environment_is_merged inherited additions :
  (merge_environment inherited additions = None <-> Exists unreadable additions) /\
  forall env, merge_environment inherited additions = Some env ->
    map fst inherited `prefix_of` map fst env /\
    forall name, variable name env = match last_addition name additions with Some v => Some v | None => variable name inherited end.
Proof. split; [apply merge_environment_None|apply merge_environment_spec]. Qed.

(** The instance file of a nested sandbox is marked as sandboxed: a file that
    is marked stays as it is; otherwise the mark follows the first header of the
    instance group, or a group with the mark is added at the end, and every other
    line stays.  Either way the result is marked, so that marking it again
    changes nothing. *)
Theorem nested_instance_is_marked info :
  Exists marked (lines (restricted_flatpak_info info)) /\
  restricted_flatpak_info (restricted_flatpak_info info) = restricted_flatpak_info info /\
  (Exists marked (lines info) /\ restricted_flatpak_info info = info \/
   (exists pre h post, lines info = pre ++ h :: post /\ Forall (fun l => ~ instance_header l) pre /\ instance_header h /\
      restricted_flatpak_info info = fmt (map end_line (pre ++ h :: "sandbox=true" :: post))) \/
   Forall (fun l => ~ instance_header l) (lines info) /\
   restricted_flatpak_info info = fmt (map end_line (lines info ++ ["[Instance]"; "sandbox=true"]))).
Proof.
  assert (forall ls, Forall (fun l => has LF l = false) ls -> "sandbox=true" ∈ ls -> Exists marked (lines (fmt (map end_line ls)))) as Hm.
  { intros ls Hls Hin. rewrite lines_end_lines by done. apply Exists_exists. exists (strip_cr "sandbox=true"). split; [|done].
    apply list_elem_of_fmap. by exists "sandbox=true". }
  assert (Exists marked (lines (restricted_flatpak_info info)) /\
    (Exists marked (lines info) /\ restricted_flatpak_info info = info \/
     (exists pre h post, lines info = pre ++ h :: post /\ Forall (fun l => ~ instance_header l) pre /\ instance_header h /\
        restricted_flatpak_info info = fmt (map end_line (pre ++ h :: "sandbox=true" :: post))) \/
     Forall (fun l => ~ instance_header l) (lines info) /\
     restricted_flatpak_info info = fmt (map end_line (lines info ++ ["[Instance]"; "sandbox=true"])))) as [H1 H2].
  { pose proof (lines_no_lf info) as Hl. unfold restricted_flatpak_info.
    destruct (existsb _ (lines info)) eqn:E; [apply is_marked in E; by split; [|left]|].
    destruct (restricted_spec (lines info)) as [[H1 H2]|(pre & h & post & H0 & H1 & H2 & H3)].
    - rewrite H2. cbn [fst snd].
      assert (fmt (map end_line (lines info)) +:+ end_line "[Instance]" +:+ end_line "sandbox=true" =
        fmt (map end_line (lines info ++ ["[Instance]"; "sandbox=true"]))) as ->.
      { rewrite map_app, fmt_app. cbn [map]. by rewrite !fmt_cons, fmt_nil, sapp_nil_r. }
      split; [|by right; right]. apply Hm; [apply Forall_app; by repeat constructor|]. apply elem_of_app. right. right. by left.
    - rewrite H3. cbn [fst snd]. split; [|right; left; by exists pre, h, post]. rewrite H0 in Hl. apply Forall_app in Hl as [L1 L2].
      inversion L2; subst. apply Hm; [apply Forall_app; by repeat constructor|]. apply elem_of_app. right. right. by left. }
  split; [done|]. split; [|done]. unfold restricted_flatpak_info at 1. by rewrite (proj2 (is_marked _) H1).
Qed.

Definition example_call : SpawnCall :=
  mkCall (list_ascii_of_string "/tmp") [list_ascii_of_string "sh" ++ [NUL]; list_ascii_of_string "-c"] [(1%N, 0%Z); (9%N, 1%Z)]
    [(list_ascii_of_string "LANG", list_ascii_of_string "C")] 1.
Definition example_fds : fd_list := Some (fun h => if (h <? 2)%Z then Some (h + 40)%Z else None).
Definition example_packet : bytes * list Z :=
  match send_spawn example_call example_fds 77 with Ok (Some p) => p | _ => ([], []) end.
Definition example_request : SpawnRequest := request_of example_call [40; 41]%Z 77.

Lemma clean_dec (v : bytes) : bool_decide (NUL ∈ v) = false -> (N.of_nat (length v) <? 2 ^ 32)%N = true -> clean v.
Proof. intros H1%bool_decide_eq_false H2%N.ltb_lt. done. Qed.

Lemma spawn_codec_witness :
  parse_spawn (drop HEADER_SIZE example_packet.1) [40; 41]%Z = Ok example_request /\
  request_ok example_request /\ map snd (sp_mappings example_request) = [40; 41]%Z /\
  drop HEADER_SIZE example_packet.1 = payload_of example_request.
Proof.
  split; [vm_compute; reflexivity|]. apply (spawn_codec (drop HEADER_SIZE example_packet.1) [40; 41]%Z example_request).
  - apply N.leb_le. vm_compute. reflexivity.
  - apply Nat.leb_le. vm_compute. reflexivity.
  - vm_compute. reflexivity.
Defined.

Lemma bridge_request_reaches_broker_witness :
  send_spawn example_call example_fds 77 = Ok (Some example_packet) /\
  exists packet sources, Some example_packet = Some (packet, sources) /\
    Forall2 (fun m s => default (fun _ => None) example_fds m.2 = Some s) (sc_fd_map example_call) sources /\
    parse_frame packet = Some (SPAWN, 1%N, N.of_nat (length (drop HEADER_SIZE packet)), N.of_nat (length sources)) /\
    parse_spawn (drop HEADER_SIZE packet) sources = Ok (request_of example_call sources 77).
Proof.
  split; [vm_compute; reflexivity|]. apply (bridge_request_reaches_broker example_call example_fds 77).
  - apply Forall_cons. split; [split; apply clean_dec; vm_compute; reflexivity|constructor].
  - reflexivity.
  - reflexivity.
  - vm_compute. reflexivity.
Defined.

Lemma environment_is_merged_witness :
  merge_environment [("LANG", "C"); ("HOME", "/h")] [(list_ascii_of_string "HOME", list_ascii_of_string "/n")] = Some [("LANG", "C"); ("HOME", "/n")] /\
  forall name, variable name [("LANG", "C"); ("HOME", "/n")] =
    match last_addition name [(list_ascii_of_string "HOME", list_ascii_of_string "/n")] with
    | Some v => Some v | None => variable name [("LANG", "C"); ("HOME", "/h")] end.
Proof.
  split; [reflexivity|]. apply (environment_is_merged [("LANG", "C"); ("HOME", "/h")] [(list_ascii_of_string "HOME", list_ascii_of_string "/n")]). reflexivity.
Defined.
