(* ===== verification/BrokerShutdown.v ===== *)
(** * BrokerShutdown: the threads of the spawn broker
    (src/src/sandbox/spawn_broker.rs: BrokerConnections, broker_loop and the drop
    of SpawnBroker)

    One thread accepts connections, one thread serves each of them, and the
    thread that drops the broker stops them all.  What they share is a flag, the
    descriptors of the connections, and the workers.  Every access to the shared
    state is one step of a relation, so that all interleavings are considered;
    what the clients do are steps as well. *)
From Stdlib Require Import ZArith Lia.
From stdpp Require Import base list sets relations.
From S2P Require Import Prelude.

(** ** The shared state and its operations *)

(** [Vec::swap_remove] of the first occurrence. *)
Fixpoint position (fd : Z) (l : list Z) : option nat :=
  match l with [] => None | x :: r => if (x =? fd)%Z then Some 0 else S <$> position fd r end.
Definition swap_remove (i : nat) (l : list Z) : list Z :=
  match last l with
  | None => l
  | Some x => if Nat.eqb (S i) (length l) then removelast l else <[i := x]> (removelast l)
  end.

Definition retain (fd : Z) (fds : list Z) : list Z := fds ++ [fd].
Definition release (fd : Z) (fds : list Z) : list Z :=
  match position fd fds with Some i => swap_remove i fds | None => fds end.

(** ** The threads *)

(** The accepting thread: in [accept4]; with a connection, before the flag is
    read, before the peer is compared, before it is retained, and before its
    worker is started; at its end. *)
Inductive acceptor := Accepting | Checking (fd : Z) | Admitting (fd : Z) | Retaining (fd : Z) | Spawning (fd : Z) | AcceptorDone.

(** A worker: in [recvmsg], after it has returned, after the release, and after
    the connection is closed. *)
Inductive worker_phase := Receiving | Serving | Released | Finished.

(** The thread that drops the broker. *)
Inductive dropper := Running | Flagged | Stopped | ListenerDown | AcceptorJoined | Dropped.

#[export] Instance worker_phase_eq_dec : EqDecision worker_phase.
Proof. solve_decision. Defined.
#[export] Instance dropper_eq_dec : EqDecision dropper.
Proof. solve_decision. Defined.

Record State := mkState {
  stopping : bool;
  retained_fds : list Z;
  workers : list (Z * worker_phase);
  accepting : acceptor;
  dropping : dropper;
  open_fds : list Z;       (* the connections that are open in this process *)
  shut_down : list Z;      (* those of them on which receiving has ended *)
}.

Definition close (fd : Z) (l : list Z) : list Z := List.filter (fun x => negb (x =? fd)%Z) l.

Definition set_acceptor (s : State) (a : acceptor) : State :=
  mkState (stopping s) (retained_fds s) (workers s) a (dropping s) (open_fds s) (shut_down s).
(** The accepting thread closes a connection it has not handed on. *)
Definition close_connection (s : State) (fd : Z) (a : acceptor) : State :=
  mkState (stopping s) (retained_fds s) (workers s) a (dropping s) (close fd (open_fds s)) (close fd (shut_down s)).
Definition set_worker (s : State) (i : nat) (fd : Z) (p : worker_phase) : State :=
  mkState (stopping s) (retained_fds s) (<[i := (fd, p)]> (workers s)) (accepting s) (dropping s) (open_fds s) (shut_down s).
Definition set_dropper (s : State) (d : dropper) : State :=
  mkState (stopping s) (retained_fds s) (workers s) (accepting s) d (open_fds s) (shut_down s).

(** [BrokerConnections::stop], after the flag: receiving ends on every retained
    connection. *)
Definition shutdown_retained (s : State) : State :=
  mkState (stopping s) (retained_fds s) (workers s) (accepting s) Stopped (open_fds s) (shut_down s ++ retained_fds s).

(** Who makes a step: a thread of the broker, or a client. *)
Inductive who := Own | Client.

Inductive step : who -> State -> State -> Prop :=
(* the accepting thread: broker_loop *)
| accept_connection s fd : accepting s = Accepting -> fd ∉ open_fds s ->
    step Client s (mkState (stopping s) (retained_fds s) (workers s) (Checking fd) (dropping s) (fd :: open_fds s) (shut_down s))
| accept_fails s : accepting s = Accepting -> step Own s (set_acceptor s AcceptorDone)
| check_stopping s fd : accepting s = Checking fd ->
    step Own s (if stopping s then close_connection s fd AcceptorDone else set_acceptor s (Admitting fd))
| peer_matches s fd : accepting s = Admitting fd -> step Own s (set_acceptor s (Retaining fd))
| peer_differs s fd : accepting s = Admitting fd -> step Own s (close_connection s fd Accepting)
| retain_connection s fd : accepting s = Retaining fd ->
    step Own s (mkState (stopping s) (retain fd (retained_fds s)) (workers s) (Spawning fd) (dropping s) (open_fds s) (shut_down s))
| spawn_worker s fd : accepting s = Spawning fd ->
    step Own s (mkState (stopping s) (retained_fds s) (workers s ++ [(fd, Receiving)]) Accepting (dropping s) (open_fds s) (shut_down s))
(* the workers: handle_connection, as far as the shared state is concerned *)
| client_acts s i fd : workers s !! i = Some (fd, Receiving) -> step Client s (set_worker s i fd Serving)
| receive_ends s i fd : workers s !! i = Some (fd, Receiving) -> fd ∈ shut_down s -> step Own s (set_worker s i fd Serving)
| release_connection s i fd : workers s !! i = Some (fd, Serving) ->
    step Own s (mkState (stopping s) (release fd (retained_fds s)) (<[i := (fd, Released)]> (workers s)) (accepting s) (dropping s)
              (open_fds s) (shut_down s))
| close_worker s i fd : workers s !! i = Some (fd, Released) ->
    step Own s (mkState (stopping s) (retained_fds s) (<[i := (fd, Finished)]> (workers s)) (accepting s) (dropping s)
              (close fd (open_fds s)) (close fd (shut_down s)))
(* the drop of the broker *)
| set_flag s : dropping s = Running ->
    step Own s (mkState true (retained_fds s) (workers s) (accepting s) Flagged (open_fds s) (shut_down s))
| stop_connections s : dropping s = Flagged -> step Own s (shutdown_retained s)
| shutdown_listener s : dropping s = Stopped -> step Own s (set_dropper s ListenerDown)
| join_acceptor s : dropping s = ListenerDown -> accepting s = AcceptorDone -> step Own s (set_dropper s AcceptorJoined)
| join_workers s : dropping s = AcceptorJoined -> Forall (fun w => w.2 = Finished) (workers s) -> step Own s (set_dropper s Dropped).

Definition initial : State := mkState false [] [] Accepting Running [] [].
Definition reachable (s : State) : Prop := rtc (fun s s' => exists w, step w s s') initial s.

(** ** Lemmas: the list of the connections *)

Lemma position_Some fd l i : position fd l = Some i -> exists a b, l = a ++ fd :: b /\ i = length a.
Proof.
  revert i. induction l as [|x l IH]; intros i; [done|]. cbn [position]. destruct (Z.eqb_spec x fd) as [->|].
  - intros [= <-]. by exists [], l.
  - destruct (position fd l) as [j|]; [|done]. intros [= <-]. destruct (IH j eq_refl) as (a & b & -> & ->). by exists (x :: a), b.
Qed.
Lemma position_None fd l : position fd l = None -> fd ∉ l.
Proof.
  induction l as [|x l IH]; [set_solver|]. cbn [position]. destruct (Z.eqb_spec x fd); [done|].
  destruct (position fd l); [done|]. intros _. specialize (IH eq_refl). set_solver.
Qed.

Lemma swap_remove_perm a fd b : swap_remove (length a) (a ++ fd :: b) ≡ₚ a ++ b.
Proof.
  unfold swap_remove. destruct (last (a ++ fd :: b)) as [x|] eqn:E; [|by apply last_None in E; destruct a].
  destruct (decide (b = [])) as [->|Hb].
  - rewrite length_app, Nat.add_1_r, Nat.eqb_refl, removelast_last, app_nil_r. done.
  - destruct (exists_last Hb) as (b' & y & ->). rewrite app_comm_cons, app_assoc, last_snoc in E. injection E as <-.
    rewrite length_app. cbn [length]. rewrite length_app. cbn [length]. rewrite (proj2 (Nat.eqb_neq _ _)) by lia.
    rewrite app_comm_cons, app_assoc, removelast_last, insert_app_r_alt, Nat.sub_diag by lia. cbn.
    rewrite <- (Permutation_cons_append b' y). done.
Qed.

Lemma release_spec fd l : NoDup l -> NoDup (release fd l) /\ forall x, x ∈ release fd l <-> x ∈ l /\ x <> fd.
Proof.
  intros Hl. unfold release. destruct (position fd l) as [i|] eqn:E.
  - apply position_Some in E as (a & b & -> & ->). pose proof (swap_remove_perm a fd b) as Hp.
    assert (fd :: a ++ b ≡ₚ a ++ fd :: b) as Hq by apply Permutation_middle.
    rewrite <- Hq in Hl. apply NoDup_cons in Hl as [Hn Hl]. split; [by rewrite Hp|]. intros x. rewrite Hp, <- Hq.
    rewrite elem_of_cons. split; [|by intros [[->|?] ?]]. intros Hx. split; [by right|]. by intros ->.
  - apply position_None in E. split; [done|]. intros x. split; [|by intros []]. intros Hx. split; [done|]. by intros ->.
Qed.

Lemma elem_of_close x fd l : x ∈ close fd l <-> x ∈ l /\ x <> fd.
Proof.
  unfold close. rewrite list_elem_of_In, filter_In, <- list_elem_of_In, negb_true_iff, Z.eqb_neq. done.
Qed.

(** ** Lemmas: the invariant *)

Definition in_flight (a : acceptor) : option Z :=
  match a with Checking fd | Admitting fd | Retaining fd | Spawning fd => Some fd | _ => None end.
Definition live (p : worker_phase) : Prop := p <> Finished.
Definition serving (p : worker_phase) : Prop := p = Receiving \/ p = Serving.

(** A connection that is not shut down and may still be waited on. *)
Definition escaped (s : State) (fd : Z) : Prop :=
  accepting s = Admitting fd \/ accepting s = Retaining fd \/
  (fd ∉ shut_down s /\ (accepting s = Spawning fd \/ exists i, workers s !! i = Some (fd, Receiving))).

Record invariant (s : State) : Prop := {
  distinct_workers : forall i j fd p q, workers s !! i = Some (fd, p) -> workers s !! j = Some (fd, q) -> live p -> live q -> i = j;
  acceptor_alone : forall i fd p, in_flight (accepting s) = Some fd -> workers s !! i = Some (fd, p) -> p = Finished;
  acceptor_open : forall fd, in_flight (accepting s) = Some fd -> fd ∈ open_fds s;
  workers_open : forall i fd p, workers s !! i = Some (fd, p) -> live p -> fd ∈ open_fds s;
  retained_distinct : NoDup (retained_fds s);
  retained_exact : forall fd, fd ∈ retained_fds s <->
    accepting s = Spawning fd \/ exists i p, workers s !! i = Some (fd, p) /\ serving p;
  shut_down_open : forall fd, fd ∈ shut_down s -> fd ∈ open_fds s;
  flag_set : stopping s = bool_decide (dropping s <> Running);
  one_escapes : dropping s <> Running -> dropping s <> Flagged -> forall f g, escaped s f -> escaped s g -> f = g;
}.

Lemma worker_set (l : list (Z * worker_phase)) i fd p q j x :
  l !! i = Some (fd, p) -> <[i := (fd, q)]> l !! j = Some x <-> (j = i /\ x = (fd, q)) \/ (j <> i /\ l !! j = Some x).
Proof.
  intros Hi. rewrite list_lookup_insert_Some. assert (i < length l)%nat by (by eapply lookup_lt_Some). naive_solver.
Qed.
Lemma worker_added (l : list (Z * worker_phase)) w j x :
  (l ++ [w]) !! j = Some x <-> l !! j = Some x \/ (j = length l /\ x = w).
Proof.
  rewrite lookup_app_Some, list_lookup_singleton_Some. split.
  - intros [?|(? & ? & <-)]; [by left|right]. split; [lia|done].
  - intros [?|[-> ->]]; [by left|right]. split; [lia|]. split; [lia|done].
Qed.

(** Steps of the accepting thread that leave the rest of the state alone. *)
Lemma acceptor_moves s a : invariant s ->
  (in_flight a = None \/ in_flight a = in_flight (accepting s)) -> (forall fd, a <> Spawning fd) -> (forall fd, accepting s <> Spawning fd) ->
  (forall fd, a = Admitting fd \/ a = Retaining fd -> escaped s fd \/ dropping s = Running \/ dropping s = Flagged) ->
  invariant (set_acceptor s a).
Proof.
  intros [I1 I2 I3 I4 I5 I6 I7 I8 I9] Ha Hs Hs' He. split; cbn; try done.
  - intros i fd p Hf. apply I2. by destruct Ha as [Ha|<-]; [congruence|].
  - intros fd Hf. apply I3. by destruct Ha as [Ha|<-]; [congruence|].
  - intros fd. rewrite I6. naive_solver.
  - intros H1 H2. enough (forall f, escaped (set_acceptor s a) f -> escaped s f) as Hx by (intros f g Hf Hg; apply (I9 H1 H2); by apply Hx).
    intros f [E|[E|(E1 & [E|E])]]; cbn in E; [destruct (He f) as [?|[?|?]]; [by left| done..]|destruct (He f) as [?|[?|?]]; [by right|done..]|by destruct (Hs f)|].
    right. right. by split; [|right].
Qed.

(** Closing a connection nobody else has. *)
Lemma closed_elsewhere s fd : (forall i p, workers s !! i = Some (fd, p) -> p = Finished) ->
  (forall i fd' p, workers s !! i = Some (fd', p) -> live p -> fd' ∈ open_fds s) ->
  forall i fd' p, workers s !! i = Some (fd', p) -> live p -> fd' ∈ close fd (open_fds s).
Proof. intros H1 H2 i fd' p Hi Hp. apply elem_of_close. split; [by eapply H2|]. intros ->. by apply Hp, (H1 i). Qed.

Lemma acceptor_closes s fd a : invariant s -> in_flight (accepting s) = Some fd -> (forall fd, accepting s <> Spawning fd) ->
  in_flight a = None -> invariant (close_connection s fd a).
Proof.
  intros [I1 I2 I3 I4 I5 I6 I7 I8 I9] Hf Hs Ha. split; cbn; try done.
  - intros i fd' p Hn. congruence.
  - intros fd' Hn. congruence.
  - intros i fd' p Hi Hp. eapply closed_elsewhere; [by intros; eapply I2|exact I4|exact Hi|exact Hp].
  - intros fd'. rewrite I6. split; intros [?|?]; auto; [by destruct (Hs fd')|congruence || (subst; done)].
  - intros fd'. rewrite !elem_of_close. intros [? ?]. split; [by apply I7|done].
  - intros H1 H2. enough (forall f, escaped (close_connection s fd a) f -> escaped s f) as Hx by (intros f g Hf' Hg'; apply (I9 H1 H2); by apply Hx).
    intros f [E|[E|(E1 & [E|(i & E)])]]; cbn in *; try (by subst a). right. right. split; [|right; by exists i].
    intros Hin. apply E1, elem_of_close. split; [done|]. intros ->. by apply (I2 i fd Receiving) in Hf.
Qed.

Lemma accept_keeps s fd : invariant s -> accepting s = Accepting -> fd ∉ open_fds s ->
  invariant (mkState (stopping s) (retained_fds s) (workers s) (Checking fd) (dropping s) (fd :: open_fds s) (shut_down s)).
Proof.
  intros [I1 I2 I3 I4 I5 I6 I7 I8 I9] Ha Hn. split; cbn; try done.
  - intros i fd' p [= <-] Hi. destruct (decide (p = Finished)) as [|Hp]; [done|]. by destruct Hn; eapply I4.
  - intros fd' [= <-]. by left.
  - intros i fd' p Hi Hp. right. by eapply I4.
  - intros fd'. rewrite I6, Ha. naive_solver.
  - intros fd' Hf. right. by apply I7.
  - intros H1 H2 f g [E|[E|(E1 & [E|E])]] [E'|[E'|(E1' & [E'|E'])]]; cbn in *; try done. apply (I9 H1 H2); right; right; auto.
Qed.

Lemma retain_keeps s fd : invariant s -> accepting s = Retaining fd ->
  invariant (mkState (stopping s) (retain fd (retained_fds s)) (workers s) (Spawning fd) (dropping s) (open_fds s) (shut_down s)).
Proof.
  intros [I1 I2 I3 I4 I5 I6 I7 I8 I9] Ha. rewrite Ha in I2, I3. split; cbn; try done.
  - unfold retain. apply NoDup_app. split; [done|]. split; [|apply NoDup_singleton]. intros x Hx ->%list_elem_of_singleton.
    apply I6 in Hx as [?|(i & p & Hi & Hp)]; [congruence|]. specialize (I2 i fd p eq_refl Hi). by destruct Hp; subst.
  - intros fd'. unfold retain. rewrite elem_of_app, list_elem_of_singleton, I6, Ha. naive_solver.
  - intros H1 H2. enough (forall f, escaped (mkState (stopping s) (retain fd (retained_fds s)) (workers s) (Spawning fd) (dropping s)
      (open_fds s) (shut_down s)) f -> escaped s f) as Hx by (intros f g Hf Hg; apply (I9 H1 H2); by apply Hx).
    intros f [E|[E|(E1 & [E|E])]]; cbn in *; try done; [right; left; congruence|right; right; auto].
Qed.

Lemma spawn_keeps s fd : invariant s -> accepting s = Spawning fd ->
  invariant (mkState (stopping s) (retained_fds s) (workers s ++ [(fd, Receiving)]) Accepting (dropping s) (open_fds s) (shut_down s)).
Proof.
  intros [I1 I2 I3 I4 I5 I6 I7 I8 I9] Ha. rewrite Ha in I2, I3. split; cbn; try done.
  - intros i j fd' p q. rewrite !worker_added. intros [Hi|[-> Ei]] [Hj|[-> Ej]] Hp Hq; simplify_eq; try done.
    + by eapply I1.
    + by destruct Hp; eapply I2.
    + by destruct Hq; eapply I2.
  - intros i fd' p. rewrite worker_added. intros [Hi|[-> [= -> ->]]] Hp; [by eapply I4|by apply I3].
  - intros fd'. rewrite I6, Ha. split.
    + intros [[= ->]|(i & p & Hi & Hp)]; right; [exists (length (workers s)), Receiving|exists i, p]; rewrite worker_added;
        (split; [by auto|done || by left]).
    + intros [?|(i & p & Hi & Hp)]; [done|]. rewrite worker_added in Hi. destruct Hi as [Hi|[-> [= -> ->]]]; [right; by exists i, p|by left].
  - intros H1 H2. enough (forall f, escaped (mkState (stopping s) (retained_fds s) (workers s ++ [(fd, Receiving)]) Accepting (dropping s)
      (open_fds s) (shut_down s)) f -> escaped s f) as Hx by (intros f g Hf Hg; apply (I9 H1 H2); by apply Hx).
    intros f [E|[E|(E1 & [E|(i & E)])]]; cbn in *; try done. rewrite worker_added in E. right. right. split; [done|].
    destruct E as [E|[-> [= ->]]]; [right; by exists i|by left].
Qed.

(** A worker that goes on: it is receiving no more. *)
Lemma worker_keeps s i fd p q retained : invariant s -> workers s !! i = Some (fd, p) -> live p -> live q -> q <> Receiving ->
  NoDup retained ->
  (forall x, x ∈ retained <-> x ∈ retained_fds s /\ (x = fd -> serving q)) -> (serving q -> serving p) ->
  invariant (mkState (stopping s) retained (<[i := (fd, q)]> (workers s)) (accepting s) (dropping s) (open_fds s) (shut_down s)).
Proof.
  intros [I1 I2 I3 I4 I5 I6 I7 I8 I9] Hi Hp Hq Hr Hn Hx Hqp. split; cbn; try done.
  - intros j k fd' p1 p2. rewrite !(worker_set _ i fd p) by done. intros [[-> Ei]|[Hj Ej]] [[-> Ek]|[Hk Ek]] L1 L2; simplify_eq; try done.
    + symmetry. by eapply I1.
    + by eapply I1.
    + by eapply I1.
  - intros j fd' p1 Hf. rewrite (worker_set _ i fd p) by done. intros [[-> [= -> ->]]|[Hj Ej]]; [|by eapply I2].
    by destruct Hp; eapply I2.
  - intros j fd' p1. rewrite (worker_set _ i fd p) by done. intros [[-> [= -> ->]]|[Hj Ej]] L; by eapply I4.
  - intros x. rewrite Hx, I6. split.
    + intros [[Ha|(j & p1 & Ej & Hs)] Hxf]; [by left|right]. destruct (decide (j = i)) as [->|Hj].
      * rewrite Hi in Ej. injection Ej as <- <-. exists i, q. rewrite (worker_set _ i fd p) by done. split; [by left|by apply Hxf].
      * exists j, p1. rewrite (worker_set _ i fd p) by done. split; [by right|done].
    + intros [Ha|(j & p1 & Ej & Hs)].
      * split; [by left|]. intros ->. destruct Hp. eapply I2; [by rewrite Ha|exact Hi].
      * rewrite (worker_set _ i fd p) in Ej by done. destruct Ej as [[-> [= -> ->]]|[Hj Ej]].
        -- split; [right; exists i, p; split; [done|by apply Hqp]|done].
        -- split; [right; by exists j, p1|]. intros ->. destruct Hj. eapply I1; [exact Ej|exact Hi| |done]. by destruct Hs; subst.
  - intros H1 H2. enough (forall f, escaped (mkState (stopping s) retained (<[i := (fd, q)]> (workers s)) (accepting s) (dropping s)
      (open_fds s) (shut_down s)) f -> escaped s f) as He by (intros f g Hf Hg; apply (I9 H1 H2); by apply He).
    intros f [E|[E|(E1 & [E|(j & E)])]]; cbn in *; [by left|by right; left|right; right; by split; [|left]|].
    rewrite (worker_set _ i fd p) in E by done. destruct E as [[-> [= _ ?]]|[_ E]]; [by subst q|]. right. right. split; [done|]. right. by exists j.
Qed.

Lemma close_keeps s i fd : invariant s -> workers s !! i = Some (fd, Released) ->
  invariant (mkState (stopping s) (retained_fds s) (<[i := (fd, Finished)]> (workers s)) (accepting s) (dropping s)
    (close fd (open_fds s)) (close fd (shut_down s))).
Proof.
  intros [I1 I2 I3 I4 I5 I6 I7 I8 I9] Hi. split; cbn; try done.
  - intros j k fd' p1 p2. rewrite !(worker_set _ i fd Released) by done. intros [[-> Ei]|[Hj Ej]] [[-> Ek]|[Hk Ek]] L1 L2; simplify_eq; try done.
    by eapply I1.
  - intros j fd' p1 Hf. rewrite (worker_set _ i fd Released) by done. intros [[-> [= -> ->]]|[Hj Ej]]; [done|by eapply I2].
  - intros fd' Hf. apply elem_of_close. split; [by apply I3|]. intros ->. by apply (I2 i fd Released) in Hf.
  - intros j fd' p1. rewrite (worker_set _ i fd Released) by done. intros [[-> [= -> ->]]|[Hj Ej]] L; [done|].
    apply elem_of_close. split; [by eapply I4|]. intros ->. apply Hj. by eapply I1.
  - intros x. rewrite I6. split; (intros [Ha|(j & p1 & Ej & Hs)]; [by left|right; exists j, p1; split; [|done]]).
    + rewrite (worker_set _ i fd Released) by done. right. split; [|done]. intros ->. rewrite Hi in Ej. injection Ej as <- <-. by destruct Hs.
    + rewrite (worker_set _ i fd Released) in Ej by done. destruct Ej as [[-> [= -> ->]]|[_ ?]]; [by destruct Hs|done].
  - intros x. rewrite !elem_of_close. intros [? ?]. split; [by apply I7|done].
  - intros H1 H2. enough (forall f, escaped (mkState (stopping s) (retained_fds s) (<[i := (fd, Finished)]> (workers s)) (accepting s)
      (dropping s) (close fd (open_fds s)) (close fd (shut_down s))) f -> escaped s f) as He by (intros f g Hf Hg; apply (I9 H1 H2); by apply He).
    intros f [E|[E|(E1 & E)]]; cbn in *; [by left|by right; left|]. right. right.
    assert (f <> fd /\ (accepting s = Spawning f \/ (exists j, workers s !! j = Some (f, Receiving)))) as [Hf E'].
    { destruct E as [E|(j & E)].
      - split; [|by left]. intros ->. pose proof (I2 i fd Released ltac:(by rewrite E) Hi). done.
      - rewrite (worker_set _ i fd Released) in E by done. destruct E as [[-> [= _ ?]]|[Hj E]]. split; [|right; by exists j].
        intros ->. apply Hj. by eapply I1. }
    split; [|done]. intros Hin. apply E1, elem_of_close. done.
Qed.

Lemma stop_keeps s : invariant s -> dropping s = Flagged -> invariant (shutdown_retained s).
Proof.
  intros [I1 I2 I3 I4 I5 I6 I7 I8 I9] Hd. split; cbn; try done.
  - intros fd [Hf|Hf]%elem_of_app; [by apply I7|]. apply I6 in Hf as [Ha|(i & p & Hi & Hp)]; [apply I3; by rewrite Ha|].
    eapply I4; [exact Hi|]. by destruct Hp; subst.
  - by rewrite I8, Hd.
  - intros _ _. enough (forall f, escaped (shutdown_retained s) f -> accepting s = Admitting f \/ accepting s = Retaining f) as He.
    { intros f g [Hf|Hf]%He [Hg|Hg]%He; congruence. }
    intros f [E|[E|(E1 & E)]]; cbn in *; [by left|by right|]. destruct E1. apply elem_of_app. right. apply I6.
    destruct E as [E|(i & E)]; [by left|]. right. exists i, Receiving. split; [done|by left].
Qed.
Lemma dropper_keeps s d : invariant s -> dropping s <> Running -> dropping s <> Flagged -> d <> Running -> d <> Flagged ->
  invariant (set_dropper s d).
Proof.
  intros [I1 I2 I3 I4 I5 I6 I7 I8 I9] H1 H2 H3 H4. split; cbn; try done.
  - rewrite I8. by rewrite !bool_decide_true.
  - intros _ _ f g Hf Hg. by apply I9.
Qed.

Lemma step_keeps w s s' : invariant s -> step w s s' -> invariant s'.
Proof.
  intros Hi Hs. destruct Hs as [s fd Ha Hn|s Ha|s fd Ha|s fd Ha|s fd Ha|s fd Ha|s fd Ha|s i fd Hw|s i fd Hw Hd|s i fd Hw|s i fd Hw|s Hd|s Hd|s Hd|s Hd Ha|s Hd Hw].
  - by apply accept_keeps.
  - apply acceptor_moves; try done; [by left|by rewrite Ha|by intros ? [?|?]].
  - destruct (stopping s) eqn:E; [apply acceptor_closes; try done; by rewrite Ha|]. rewrite (flag_set _ Hi) in E.
    apply bool_decide_eq_false, dec_stable in E. apply acceptor_moves; try done; [right; by rewrite Ha|by rewrite Ha|]. intros. by right; left.
  - apply acceptor_moves; try done; [right; by rewrite Ha|by rewrite Ha|]. intros fd' [?|[= <-]]; [done|]. left. by left.
  - apply acceptor_closes; try done; by rewrite Ha.
  - by apply retain_keeps.
  - by apply spawn_keeps.
  - eapply worker_keeps; try done; [by apply retained_distinct| |by left]. intros x. split; [|by intros []]. intros. split; [done|by right].
  - eapply worker_keeps; try done; [by apply retained_distinct| |by left]. intros x. split; [|by intros []]. intros. split; [done|by right].
  - destruct (release_spec fd (retained_fds s)) as [H1 H2]; [by apply retained_distinct|].
    eapply worker_keeps; try done; [|by intros [?|?]]. intros x. rewrite H2. split; (intros [? Hx]; split; [done|]).
    + intros ->. done.
    + intros ->. by destruct (Hx eq_refl).
  - by apply close_keeps.
  - destruct Hi as [I1 I2 I3 I4 I5 I6 I7 I8 I9]. by split.
  - by apply stop_keeps.
  - apply dropper_keeps; try done; by rewrite Hd.
  - apply dropper_keeps; try done; by rewrite Hd.
  - apply dropper_keeps; try done; by rewrite Hd.
Qed.

Lemma reachable_invariant s : reachable s -> invariant s.
Proof.
  revert s. apply rtc_ind_r; [|by intros s s' _ [w Hs] Hi; eapply step_keeps].
  split; cbn; try done; try set_solver. constructor.
Qed.

(** ** Lemmas: the broker's own steps end *)

Definition acceptor_left (a : acceptor) : nat :=
  match a with AcceptorDone => 0 | Accepting => 1 | Spawning _ => 5 | Retaining _ => 6 | Admitting _ => 7 | Checking _ => 8 end.
Definition worker_left (w : Z * worker_phase) : nat :=
  match w.2 with Finished => 0 | Released => 1 | Serving => 2 | Receiving => 3 end.
Definition dropper_left (d : dropper) : nat :=
  match d with Dropped => 0 | AcceptorJoined => 1 | ListenerDown => 2 | Stopped => 3 | Flagged => 4 | Running => 5 end.
Definition left (s : State) : nat :=
  acceptor_left (accepting s) + sum_list_with worker_left (workers s) + dropper_left (dropping s).

Lemma sum_set i fd p q (l : list (Z * worker_phase)) : l !! i = Some (fd, p) -> (worker_left (fd, q) < worker_left (fd, p))%nat ->
  (sum_list_with worker_left (<[i := (fd, q)]> l) < sum_list_with worker_left l)%nat.
Proof.
  revert i. induction l as [|x l IH]; intros [|i] Hi Hl; try done; cbn in *.
  - injection Hi as ->. lia.
  - apply Nat.add_lt_mono_l. by apply IH.
Qed.

Lemma own_step_left s s' : step Own s s' -> (left s' < left s)%nat.
Proof.
  intros Hs. inversion Hs as [|? Ha|? fd Ha|? fd Ha|? fd Ha|? fd Ha|? fd Ha| |? i fd Hw Hd|? i fd Hw|? i fd Hw|? Hd|? Hd|? Hd|? Hd Ha|? Hd Hw];
    subst; unfold left; cbn; try (rewrite Ha; cbn; lia); try (rewrite Hd; cbn; lia).
  - rewrite Ha. destruct (stopping s); cbn; lia.
  - rewrite Ha. rewrite sum_list_with_app. cbn. lia.
  - pose proof (sum_set i fd Receiving Serving _ Hw ltac:(cbn; lia)). lia.
  - pose proof (sum_set i fd Serving Released _ Hw ltac:(cbn; lia)). lia.
  - pose proof (sum_set i fd Released Finished _ Hw ltac:(cbn; lia)). lia.
Qed.

(** Where the broker cannot go on by itself. *)
Definition waits (s : State) : Prop := forall s', ~ step Own s s'.

Lemma waits_for s : waits s ->
  dropping s = Dropped \/
  (dropping s = AcceptorJoined /\ exists i fd, workers s !! i = Some (fd, Receiving) /\ fd ∉ shut_down s).
Proof.
  intros Hw. destruct (dropping s) eqn:Hd; [by edestruct Hw; apply set_flag|by edestruct Hw; apply stop_connections|
    by edestruct Hw; apply shutdown_listener| | |by left].
  - exfalso. destruct (accepting s) as [|fd|fd|fd|fd|] eqn:Ha; edestruct Hw;
      [by apply accept_fails|by eapply check_stopping|by eapply peer_matches|by eapply retain_connection|by eapply spawn_worker|by eapply join_acceptor].
  - right. split; [done|]. destruct (decide (Forall (fun w => w.2 = Finished) (workers s))) as [Hf|Hf].
    + edestruct Hw. by apply join_workers.
    + apply not_Forall_Exists in Hf; [|intros w; apply _]. apply Exists_exists in Hf as ([fd p] & (i & Hi)%list_elem_of_lookup & Hp). cbn in Hp.
      exists i, fd. destruct p; [|by edestruct Hw; eapply release_connection|by edestruct Hw; eapply close_worker|by destruct Hp].
      split; [done|]. intros Hin. edestruct Hw. by eapply receive_ends.
Qed.

(** ** Theorems *)

(** The list of the retained connections is exact at every moment: without
    repetition, the connection whose worker is about to be started and those a
    worker serves; all of them are open, so that stopping the broker never shuts
    down a descriptor that has been closed and used again. *)
Theorem retained_connections_are_open s : reachable s ->
  NoDup (retained_fds s) /\ (forall fd, fd ∈ retained_fds s \/ fd ∈ shut_down s -> fd ∈ open_fds s) /\
  forall fd, fd ∈ retained_fds s <-> accepting s = Spawning fd \/ exists i p, workers s !! i = Some (fd, p) /\ serving p.
Proof.
  intros [I1 I2 I3 I4 I5 I6 I7 _ _]%reachable_invariant. split; [done|]. split; [|done]. intros fd [Hf|Hf]; [|by apply I7].
  apply I6 in Hf as [Ha|(i & p & Hi & Hp)]; [apply I3; by rewrite Ha|]. eapply I4; [exact Hi|]. by destruct Hp; subst.
Qed.

(** C22.  Stopping reaches all connections but one: once the retained connections
    are shut down, at most one worker waits on a connection that is not, the one
    the accepting thread was about to retain. *)
Theorem stop_misses_one_connection_at_most s i j f g : reachable s -> dropping s <> Running -> dropping s <> Flagged ->
  workers s !! i = Some (f, Receiving) -> f ∉ shut_down s ->
  workers s !! j = Some (g, Receiving) -> g ∉ shut_down s -> i = j.
Proof.
  intros Hi%reachable_invariant H1 H2 Hf Sf Hg Sg. assert (f = g) as <-.
  { apply (one_escapes s Hi H1 H2); right; right; (split; [done|]); right; [by exists i|by exists j]. }
  by apply (distinct_workers s Hi i j f Receiving Receiving).
Qed.

(** The broker's own steps come to an end, and where they do, the broker is
    dropped, unless it waits to join the worker of the one connection that was
    missed, whose client neither sends nor disconnects. *)
Theorem drop_completes s : reachable s ->
  (forall s', step Own s s' -> (left s' < left s)%nat) /\
  (waits s -> dropping s = Dropped \/
   dropping s = AcceptorJoined /\ exists i fd, workers s !! i = Some (fd, Receiving) /\ fd ∉ shut_down s /\
     forall j g, workers s !! j = Some (g, Receiving) -> g ∉ shut_down s -> j = i).
Proof.
  intros Hr. split; [apply own_step_left|]. intros Hw. destruct (waits_for s Hw) as [?|(Hd & i & fd & Hi & Hs)]; [by left|right].
  split; [done|]. exists i, fd. split; [done|]. split; [done|]. intros j g Hj Hg. apply reachable_invariant in Hr as Hinv.
  assert (fd = g) as <-.
  { apply (one_escapes s Hinv); [by rewrite Hd|by rewrite Hd| |]; right; right; (split; [done|]); right; [by exists i|by exists j]. }
  by apply (distinct_workers s Hinv j i fd Receiving Receiving).
Qed.

(** The state in which a connection was missed: its descriptor was retained
    after the others had been shut down. *)
Definition missed : State := mkState true [5%Z] [(5%Z, Receiving)] AcceptorDone AcceptorJoined [5%Z] [].

Lemma missed_reachable : reachable missed.
Proof.
  eapply rtc_l; [exists Client; apply (accept_connection _ 5); [done|set_solver]|].
  eapply rtc_l; [exists Own; by eapply check_stopping|]. cbn.
  eapply rtc_l; [exists Own; by eapply peer_matches|]. cbn.
  eapply rtc_l; [exists Own; by apply set_flag|]. cbn.
  eapply rtc_l; [exists Own; by apply stop_connections|]. cbn.
  eapply rtc_l; [exists Own; by eapply retain_connection|]. cbn.
  eapply rtc_l; [exists Own; by eapply spawn_worker|]. cbn.
  eapply rtc_l; [exists Own; by apply shutdown_listener|]. cbn.
  eapply rtc_l; [exists Own; by apply accept_fails|]. cbn.
  eapply rtc_l; [exists Own; by apply join_acceptor|]. cbn.
  apply rtc_refl.
Qed.

(** C33.  The drop of the broker can hang: there is an interleaving after which it
    waits for a worker that waits for its client, and no step of the broker is
    left.  The connection was compared with the flag before the flag was set,
    and retained after the retained ones were shut down. *)
Theorem drop_can_wait_for_a_client : exists s, reachable s /\ waits s /\ dropping s <> Dropped.
Proof.
  exists missed. split; [apply missed_reachable|]. split; [|done].
  intros s' Hs. inversion Hs as [|? Ha|? fd Ha|? fd Ha|? fd Ha|? fd Ha|? fd Ha| |? i fd Hw Hd|? i fd Hw|? i fd Hw|? Hd|? Hd|? Hd|? Hd Ha|? Hd Hw];
    subst; cbn in *; try done.
  - set_solver.
  - by destruct i as [|[|i]].
  - by destruct i as [|[|i]].
  - by apply Forall_cons in Hw as [Hw _].
Qed.

Lemma retained_connections_are_open_witness :
  reachable missed /\ NoDup (retained_fds missed) /\
  (forall fd, fd ∈ retained_fds missed \/ fd ∈ shut_down missed -> fd ∈ open_fds missed) /\
  forall fd, fd ∈ retained_fds missed <->
    accepting missed = Spawning fd \/ exists i p, workers missed !! i = Some (fd, p) /\ serving p.
Proof. split; [apply missed_reachable|]. apply (retained_connections_are_open missed), missed_reachable. Defined.
Lemma stop_misses_one_connection_at_most_witness :
  reachable missed /\ workers missed !! 0 = Some (5%Z, Receiving) /\ 0 = 0.
Proof.
  split; [apply missed_reachable|]. split; [reflexivity|].
  apply (stop_misses_one_connection_at_most missed 0 0 5 5); [apply missed_reachable|done|done|reflexivity|apply not_elem_of_nil|reflexivity|apply not_elem_of_nil].
Defined.
Lemma drop_completes_witness :
  reachable missed /\ (forall s', step Own missed s' -> (left s' < left missed)%nat).
Proof. split; [apply missed_reachable|]. apply (drop_completes missed), missed_reachable. Defined.
