(* ===== verification/MountCalls.v ===== *)
(** * MountCalls: the system calls of the privileged mount helper
    (src/src/secure_mount.rs: descriptors, identities and the [nmount] vector)

    The helper is a short program that only makes system calls.  Its world is
    the trace of the calls it has made, each with the kernel's answer; the
    answers come from [System], an arbitrary function of the trace so far, so
    that whatever else runs at the same time may influence them.  Nothing is
    assumed of the answers.

    A descriptor in the trace stands for an open file, not for its number: the
    numbers the kernel uses again after a close are told apart.  Closing is
    recorded where the code closes explicitly, as it matters to the mounts. *)
From Stdlib Require Import Ascii String NArith ZArith Lia.
From stdpp Require Import base list strings.
From S2P Require Import Prelude Effects RustStr RustNum RustPath.

(** ** Calls and their answers *)

(** A value or the number of an error. *)
Definition answer (A : Type) : Type := (A + Z)%type.
Definition ENOENT : Z := 2.
Definition EEXIST : Z := 17.
Definition EROFS : Z := 30.

(** [struct stat] and [struct statfs], as far as they are read. *)
Record FileStat := mkFileStat { sf_device : Z; sf_inode : Z; sf_uid : Z; sf_gid : Z; sf_mode : Z }.
Record StatFs := mkStatFs { f_mntonname : string; f_fstypename : string; f_fsid : Z * Z; f_flags : Z }.

Inductive OpenFlag :=
| O_RDONLY | O_RDWR | O_CREAT | O_EXCL | O_DIRECTORY | O_CLOEXEC | O_NOFOLLOW | O_RESOLVE_BENEATH.
#[export] Instance open_flag_eq_dec : EqDecision OpenFlag.
Proof. solve_decision. Defined.

Inductive Event :=
| EGeteuid (r : Z)
| EGetuid (r : Z)
| ECanonicalize (p : path) (r : answer path)
| EMetadata (p : path) (r : answer FileStat)
| EOpen (p : path) (flags : list OpenFlag) (r : answer Z)
| EOpenAt (d : Z) (name : string) (flags : list OpenFlag) (mode : Z) (r : answer Z)
| EDup (d : Z) (r : answer Z)
| EFstat (d : Z) (r : answer FileStat)
| EFstatfs (d : Z) (r : answer StatFs)
| EGetmntinfo (r : (Z * option (list StatFs)) * Z)     (* the count, the table and [errno] *)
| EClose (d : Z)
| EMkdirAt (d : Z) (name : string) (mode : Z) (r : answer unit)
| EFchownAt (d : Z) (name : string) (uid gid : Z) (r : answer unit)    (* with AT_SYMLINK_NOFOLLOW *)
| EFchown (d : Z) (uid gid : Z) (r : answer unit)
| EFchmod (d : Z) (mode : Z) (r : answer unit)
| EFchdir (d : Z) (r : answer unit)
| ENmount (iov : list (option string)) (read_only : bool) (r : answer unit)
| EUnmount (target : string) (by_fsid force : bool) (r : answer unit)
| EWarn (message : string).

Abbreviation trace := (list Event) (only parsing).

(** What answers. *)
Class System := {
  strerror : Z -> string;
  a_geteuid : trace -> Z;
  a_getuid : trace -> Z;
  a_canonicalize : path -> trace -> answer path;
  a_metadata : path -> trace -> answer FileStat;
  a_open : path -> list OpenFlag -> trace -> answer Z;
  a_openat : Z -> string -> list OpenFlag -> Z -> trace -> answer Z;
  a_dup : Z -> trace -> answer Z;
  a_fstat : Z -> trace -> answer FileStat;
  a_fstatfs : Z -> trace -> answer StatFs;
  a_getmntinfo : trace -> (Z * option (list StatFs)) * Z;
  a_mkdirat : Z -> string -> Z -> trace -> answer unit;
  a_fchownat : Z -> string -> Z -> Z -> trace -> answer unit;
  a_fchown : Z -> Z -> Z -> trace -> answer unit;
  a_fchmod : Z -> Z -> trace -> answer unit;
  a_fchdir : Z -> trace -> answer unit;
  a_nmount : list (option string) -> bool -> trace -> answer unit;
  a_unmount : string -> bool -> bool -> trace -> answer unit;
}.

(** ** The vector of [nmount] *)

Definition NUL : ascii := "000".
Definition bytes_with_nul (s : string) : string := s +:+ String NUL "".

Fixpoint nul_position (s : string) : option nat :=
  match s with
  | EmptyString => None
  | String a r => if Ascii.eqb a NUL then Some 0 else Datatypes.S <$> nul_position r
  end.

(** [CString::new], and [c_string]. *)
Definition cstring (s : string) : result string :=
  match nul_position s with
  | None => Ok s
  | Some i => bail (fmt ["nul byte found in provided data at position: "; show_nat i])
  end.
Definition c_string (s : string) : result string := with_context "path contains a NUL byte" (cstring s).

Record MountOptions := mkMountOptions { mo_strings : list string; mo_pairs : list (nat * option nat) }.

Module Options.
Definition new : MountOptions := mkMountOptions [] [].

Definition flag (name : string) (o : MountOptions) : result MountOptions :=
  name ← cstring name;
  let name_index := length (mo_strings o) in
  Ok (mkMountOptions (mo_strings o ++ [name]) (mo_pairs o ++ [(name_index, None)])).

Definition value_cstr (name value : string) (o : MountOptions) : MountOptions :=
  let name_index := length (mo_strings o) in
  let strings := mo_strings o ++ [name] in
  let value_index := length strings in
  mkMountOptions (strings ++ [value]) (mo_pairs o ++ [(name_index, Some value_index)]).

Definition value (name v : string) (o : MountOptions) : result MountOptions :=
  name ← cstring name; v ← cstring v; Ok (value_cstr name v o).

(** The vector: names and values, each with its NUL; a flag has no value.  An
    index out of range would panic: [None]. *)
Definition entry (o : MountOptions) (p : nat * option nat) : option (list (option string)) :=
  n ← mo_strings o !! p.1;
  match p.2 with
  | Some i => v ← mo_strings o !! i; Some [Some (bytes_with_nul n); Some (bytes_with_nul v)]
  | None => Some [Some (bytes_with_nul n); None]
  end.
Definition iov (o : MountOptions) : option (list (option string)) := mjoin <$> mapM (entry o) (mo_pairs o).
End Options.

(** ** Calls as effects *)

Section Calls.
Context `{System}.

(** [io::Error::last_os_error] as text, and [context] on a call's answer. *)
Definition os_error (n : Z) : string := fmt [strerror n; " (os error "; show_Z n; ")"].
Definition os_context {A} (msg : string) (r : answer A) : result A :=
  match r with inl a => Ok a | inr n => Err [msg; os_error n] end.

(** Whether an error of the chain is the operating system's [n]. *)
Definition caused_by (n : Z) (e : error) : bool := existsb (String.eqb (os_error n)) e.

(** A call: the answer, recorded; and a call whose failure is an error. *)
Definition ask {A} (a : trace -> A) (event : A -> Event) : M trace A := fun t => (Ok (a t), t ++ [event (a t)]).
Definition checked_call {A} (msg : string) (a : trace -> answer A) (event : answer A -> Event) : M trace A :=
  r ← ask a event; lift (os_context msg r).
Definition record (e : Event) : M trace unit := fun t => (Ok tt, t ++ [e]).

Definition geteuid : M trace Z := ask a_geteuid EGeteuid.
Definition getuid : M trace Z := ask a_getuid EGetuid.
Definition canonicalize_path (msg : string) (p : path) : M trace path :=
  checked_call msg (a_canonicalize p) (ECanonicalize p).
Definition path_metadata (msg : string) (p : path) : M trace FileStat := checked_call msg (a_metadata p) (EMetadata p).
Definition openat (msg : string) (d : Z) (name : string) (flags : list OpenFlag) : M trace Z :=
  checked_call msg (a_openat d name flags 0) (EOpenAt d name flags 0).
Definition fstat (msg : string) (d : Z) : M trace FileStat := checked_call msg (a_fstat d) (EFstat d).
Definition fstatfs (msg : string) (d : Z) : M trace StatFs := checked_call msg (a_fstatfs d) (EFstatfs d).
Definition fchownat (msg : string) (d : Z) (name : string) (uid gid : Z) : M trace unit :=
  checked_call msg (a_fchownat d name uid gid) (EFchownAt d name uid gid).
Definition fchdir (msg : string) (d : Z) : M trace unit := checked_call msg (a_fchdir d) (EFchdir d).
Definition unmount (msg target : string) (by_fsid force : bool) : M trace unit :=
  checked_call msg (a_unmount target by_fsid force) (EUnmount target by_fsid force).
Definition close (d : Z) : M trace unit := record (EClose d).

(** ** Descriptors *)

Definition ROOT_FLAGS : list OpenFlag := [O_RDONLY; O_DIRECTORY; O_CLOEXEC].
Definition DIR_FLAGS : list OpenFlag := [O_RDONLY; O_DIRECTORY; O_CLOEXEC; O_NOFOLLOW; O_RESOLVE_BENEATH].
Definition ENTRY_FLAGS : list OpenFlag := [O_RDONLY; O_CLOEXEC; O_NOFOLLOW; O_RESOLVE_BENEATH].
Definition CREATE_FLAGS : list OpenFlag := [O_RDWR; O_CREAT; O_EXCL; O_CLOEXEC; O_NOFOLLOW; O_RESOLVE_BENEATH].

Definition validate_relative (p : path) : result unit :=
  if is_empty p || existsb (fun c => negb (normal c)) (components p)
  then bail "mount target must be a non-empty normalized relative path" else Ok tt.

Definition open_child_dir_cstr (parent : Z) (name : string) : M trace Z :=
  openat "openat directory component" parent name DIR_FLAGS.
Definition open_child_dir (parent : Z) (name : string) : M trace Z :=
  name ← lift (c_string name); open_child_dir_cstr parent name.
Definition open_child_entry_cstr (parent : Z) (name : string) : M trace Z :=
  openat "openat mount target final component" parent name ENTRY_FLAGS.
Definition open_child_entry (parent : Z) (name : string) : M trace Z :=
  name ← lift (c_string name); open_child_entry_cstr parent name.

Definition open_absolute_dir (p : path) : M trace Z :=
  if negb (is_absolute p) then lift (bail "descriptor-anchored path must be absolute")
  else
    slash ← lift (c_string "/");
    root ← checked_call "open filesystem root" (a_open slash ROOT_FLAGS) (EOpen slash ROOT_FLAGS);
    fold_each (fun current c => match c with
                                | RootDir => mret current
                                | Normal name => open_child_dir current name
                                | _ => lift (bail "absolute path is not normalized")
                                end) (components p) root.

Definition duplicate_dir (d : Z) : M trace Z := checked_call "duplicate directory descriptor" (a_dup d) (EDup d).

Definition open_relative_dir (start : Z) (p : path) : M trace Z :=
  _ ← lift (validate_relative p);
  current ← duplicate_dir start;
  fold_each (fun current c => match c with
                              | Normal name => open_child_dir current name
                              | _ => lift (bail "mount target is not normalized")
                              end) (components p) current.

(** One directory of the target: made if it is missing, and opened. *)
Definition mkdir_child (mode uid gid : Z) (current : Z) (c : component) : M trace Z :=
  match c with
  | Normal name =>
      name ← lift (c_string name);
      made ← ask (a_mkdirat current name mode) (EMkdirAt current name mode);
      _ ← match made with
          | inl _ => fchownat "chown mount target" current name uid gid
          | inr n => if (n =? EEXIST)%Z then mret tt else lift (os_context "mkdirat mount target" (inr n))
          end;
      open_child_dir_cstr current name
  | _ => lift (bail "mount target is not normalized")
  end.

Definition chase_and_mkdir (start : Z) (p : path) (mode uid gid : Z) : M trace Z :=
  _ ← lift (validate_relative p);
  current ← duplicate_dir start;
  fold_each (mkdir_child mode uid gid) (components p) current.

Definition open_absolute_entry (p : path) : M trace Z :=
  if negb (is_absolute p) then lift (bail "descriptor-anchored path must be absolute")
  else
    parent ← lift (ok_or "absolute path has no parent" (parent p));
    name ← lift (ok_or "absolute path has no final component" (file_name_of p));
    parent ← open_absolute_dir parent;
    open_child_entry parent name.

(** The type bits of a mode. *)
Definition S_IFMT : Z := 61440.
Definition S_IFDIR : Z := 16384.
Definition S_IFREG : Z := 32768.
Definition type_of_mode (mode : Z) : Z := Z.land mode S_IFMT.
Definition file_type (d : Z) : M trace Z := (fun s => type_of_mode (sf_mode s)) <$> fstat "fstat mount path" d.

(** ** Identities *)

Record FileIdentity := mkIdentity { id_device : Z; id_inode : Z; id_uid : Z; id_gid : Z }.

Definition from_fd (d : Z) : M trace FileIdentity :=
  (fun s => mkIdentity (sf_device s) (sf_inode s) (sf_uid s) (sf_gid s)) <$> fstat "fstat" d.

Definition parse_u64_arg (label v : string) : result Z :=
  s ← ok_or (fmt [label; " is not UTF-8"]) (from_utf8 v);
  ok_or (fmt ["invalid "; label]) (parse_u64 s).
Definition parse_file_identity (device inode : string) : result FileIdentity :=
  device ← parse_u64_arg "device" device;
  inode ← parse_u64_arg "inode" inode;
  Ok (mkIdentity device inode 0 0).

Definition verify (expected : FileIdentity) (d : Z) (label : string) : M trace unit :=
  actual ← from_fd d;
  if negb (id_device expected =? id_device actual)%Z || negb (id_inode expected =? id_inode actual)%Z
  then lift (bail (fmt [label; " changed while preparing the mount"])) else mret tt.
End Calls.

(** ** Lemmas: the vector has the options that were added, in their order *)

(** The vector of [nmount] for a list of options. *)
Definition vector (l : list (string * option string)) : list (option string) :=
  l ≫= fun o => [Some (bytes_with_nul o.1); bytes_with_nul <$> o.2].


(** [o] stands for the options [l]. *)
Definition stands_for (o : MountOptions) (l : list (string * option string)) : Prop := Options.iov o = Some (vector l).

Lemma entry_more o k ps p x :
  Options.entry o p = Some x -> Options.entry (mkMountOptions (mo_strings o ++ k) ps) p = Some x.
Proof.
  unfold Options.entry. cbn [mo_strings]. intros (n & Hn & Hx)%bind_Some. rewrite (lookup_app_l_Some _ _ _ _ Hn). cbn.
  destruct p.2 as [i|]; [|done]. apply bind_Some in Hx as (v & Hv & Hx). by rewrite (lookup_app_l_Some _ _ _ _ Hv).
Qed.

Lemma stands_for_new : stands_for Options.new [].
Proof. done. Qed.

Lemma vector_snoc l o : vector (l ++ [o]) = vector l ++ [Some (bytes_with_nul o.1); bytes_with_nul <$> o.2].
Proof. unfold vector. by rewrite bind_app, bind_singleton. Qed.

(** The entries so far, and the entry of a new pair. *)
Lemma stands_for_snoc o l k p x :
  stands_for o l -> Options.entry (mkMountOptions (mo_strings o ++ k) (mo_pairs o ++ [p])) p = Some [Some (bytes_with_nul x.1); bytes_with_nul <$> x.2] ->
  stands_for (mkMountOptions (mo_strings o ++ k) (mo_pairs o ++ [p])) (l ++ [x]).
Proof.
  unfold stands_for, Options.iov. intros (es & Hes & Hv)%fmap_Some Hp. cbn [mo_pairs].
  set (o' := mkMountOptions _ _) in *.
  assert (mapM (Options.entry o') (mo_pairs o ++ [p]) = Some (es ++ [[Some (bytes_with_nul x.1); bytes_with_nul <$> x.2]])) as ->.
  { apply mapM_Some. apply Forall2_app; [|by repeat constructor].
    apply mapM_Some in Hes. eapply Forall2_impl; [exact Hes|]. intros q e. apply entry_more. }
  cbn. by rewrite vector_snoc, Hv, join_app.
Qed.

Lemma flag_stands n o o' l : Options.flag n o = Ok o' -> stands_for o l -> stands_for o' (l ++ [(n, None)]).
Proof.
  unfold Options.flag, cstring. destruct (nul_position n); [done|]. intros [= <-] Hl. apply stands_for_snoc; [done|].
  unfold Options.entry. cbn [mo_strings fst snd]. by rewrite list_lookup_middle.
Qed.

Lemma value_cstr_stands n v o l : stands_for o l -> stands_for (Options.value_cstr n v o) (l ++ [(n, Some v)]).
Proof.
  intros Hl. unfold Options.value_cstr. rewrite <- app_assoc. apply stands_for_snoc; [done|].
  unfold Options.entry. cbn [mo_strings fst snd].
  assert ((mo_strings o ++ [n] ++ [v]) !! length (mo_strings o) = Some n) as -> by by apply list_lookup_middle.
  cbn [mbind option_bind]. rewrite app_assoc. by rewrite list_lookup_middle.
Qed.

Lemma value_stands n v o o' l : Options.value n v o = Ok o' -> stands_for o l -> stands_for o' (l ++ [(n, Some v)]).
Proof.
  unfold Options.value, cstring. destruct (nul_position n), (nul_position v); try done. intros [= <-]. apply value_cstr_stands.
Qed.

(** Adding options one by one. *)
Definition add_option (o : MountOptions) (x : string * option string) : result MountOptions :=
  match x.2 with Some v => Options.value x.1 v o | None => Options.flag x.1 o end.

(** The vector handed to [nmount] never refers to a string that is not there,
    and has exactly the names and values that were added, in their order. *)
Theorem mount_vector_exact l o : fold_result add_option l Options.new = Ok o -> Options.iov o = Some (vector l).
Proof.
  enough (forall l k o o', stands_for o k -> fold_result add_option l o = Ok o' -> stands_for o' (k ++ l)) as Hl
    by (intros E; by apply (Hl l [] _ _ stands_for_new)).
  clear. induction l as [|[n v] l IH]; intros k o o' Hk E; cbn [fold_result] in E.
  - injection E as <-. by rewrite app_nil_r.
  - apply bind_ok in E as (o1 & E1 & E2). change ((n, v) :: l) with ([(n, v)] ++ l). rewrite app_assoc. eapply IH; [|exact E2].
    unfold add_option in E1. cbn [fst snd] in E1. destruct v as [v|]; [by eapply value_stands|by eapply flag_stands].
Qed.

Lemma mount_vector_exact_witness : exists o,
  fold_result add_option [("fstype", Some "nullfs"); ("nocover", None)] Options.new = Ok o /\
  Options.iov o = Some [Some (bytes_with_nul "fstype"); Some (bytes_with_nul "nullfs"); Some (bytes_with_nul "nocover"); None].
Proof.
  eexists. split; [reflexivity|].
  exact (mount_vector_exact [("fstype", Some "nullfs"); ("nocover", None)] _ eq_refl).
Defined.

(** ** A concrete system *)

(** Everything is a directory of user 1001, but [.flatpak-info] and [doc.txt],
    which are files of that user; every call succeeds. *)
Module SampleSystem.
Definition stat_of (d : Z) : FileStat :=
  if (d =? 1000)%Z then mkFileStat 1 2 1001 1001 33152 else mkFileStat 1 9 1001 1001 16832.
#[export] Instance sample : System := {
  strerror _ := "error";
  a_geteuid _ := 0%Z; a_getuid _ := 1001%Z;
  a_canonicalize p _ := inl p;
  a_metadata _ _ := inl (mkFileStat 1 5 1001 1001 16832);
  a_open _ _ _ := inl 3%Z;
  a_openat _ n _ _ t :=
    if String.eqb n ".flatpak-info" || String.eqb n "doc.txt" then inl 1000%Z else inl (Z.of_nat (length t) + 4)%Z;
  a_dup _ t := inl (Z.of_nat (length t) + 4)%Z;
  a_fstat d _ := inl (stat_of d);
  a_fstatfs _ _ := inl (mkStatFs "/" "ufs" (1, 2)%Z 0);
  a_getmntinfo _ := ((0%Z, None), 5%Z);
  a_mkdirat _ _ _ _ := inl tt; a_fchownat _ _ _ _ _ := inl tt; a_fchown _ _ _ _ := inl tt; a_fchmod _ _ _ := inl tt;
  a_fchdir _ _ := inl tt; a_nmount _ _ _ := inl tt; a_unmount _ _ _ _ := inl tt;
}.
End SampleSystem.
