(* ===== verification/SecureMount.v ===== *)
(** * SecureMount: the privileged mount helper
    (src/src/secure_mount.rs and src/src/bin/freebsd-flatpak-secure-mount.rs)

    The launcher runs as an ordinary user and leaves its mounts to a setuid
    helper, which performs one narrowly defined operation per run.  The first
    part builds the helper's command lines, the second is the helper.  A target
    is reached from the sandbox root by descriptors, one component at a time and
    never through a symbolic link; the root has to be a private sandbox instance
    of the caller.

    Lemmas here: what a command line asks for is what the helper does; the
    protection of the directory that holds a file mount is undone; no file mount
    survives a reported failure.  The confinement of all calls is in
    MountConfinement. *)
From Stdlib Require Import Ascii String NArith ZArith Lia.
From stdpp Require Import base list strings.
From S2P Require Import Prelude Effects RustStr RustNum RustPath MountCalls.

Definition HELPER_PATH : string := "/usr/local/libexec/freebsd-flatpak/secure-mount".
Definition PRIVATE_SOURCE_ROOT : string := ".freebsd-flatpak-mount-sources".

(** ** Command lines *)

(** A [Command]: the program and its arguments. *)
Abbreviation command := (list string) (only parsing).

Definition privileged_helper_command (args : list string) : command := HELPER_PATH :: args.

Definition nullfs_command (root : path) (root_identity : Z * Z) (source : path)
    (source_identity : option (Z * Z)) (target_relative : path) (read_only : bool) : result command :=
  _ ← validate_relative target_relative;
  let '(source_device, source_inode) :=
    match source_identity with Some i => (show_Z i.1, show_Z i.2) | None => ("-", "-") end in
  Ok (privileged_helper_command
        ["nullfs"; root; show_Z root_identity.1; show_Z root_identity.2; target_relative; source;
         source_device; source_inode; if read_only then "ro" else "rw"]).

Definition tmpfs_command (root : path) (root_identity : Z * Z) (target_relative : path) (options : string) : result command :=
  _ ← validate_relative target_relative;
  Ok (privileged_helper_command
        ["tmpfs"; root; show_Z root_identity.1; show_Z root_identity.2; target_relative; options]).

Definition special_command (root : path) (root_identity : Z * Z) (target_relative : path) (fs_type source : string)
    : result command :=
  _ ← validate_relative target_relative;
  Ok (privileged_helper_command
        ["special"; root; show_Z root_identity.1; show_Z root_identity.2; target_relative; fs_type; source]).

Definition unmount_command (root : path) (root_identity : Z * Z) (target_relative : path) (force : bool) : result command :=
  _ ← validate_relative target_relative;
  Ok (privileged_helper_command
        ["unmount"; root; show_Z root_identity.1; show_Z root_identity.2; target_relative;
         if force then "force" else "normal"]).

Definition recover_orphaned_document_unmount_command (chroots : path) (chroots_identity : Z * Z) (mountpoint : path)
    (force : bool) : result command :=
  if negb (is_absolute mountpoint) then bail "orphaned document mountpoint must be absolute"
  else Ok (privileged_helper_command
        ["recover-orphaned-document-unmount"; chroots; show_Z chroots_identity.1; show_Z chroots_identity.2; mountpoint;
         if force then "force" else "normal"]).

Section Helper.
Context `{System}.

(** ** Validation of the sandbox root *)

Definition is_private (runtime : FileStat) (owner caller_uid : Z) : bool :=
  (sf_uid runtime =? caller_uid)%Z && (Z.land (sf_mode runtime) 63 =? 0)%Z && (owner =? caller_uid)%Z.

Definition validate_sandbox_root (root : path) (root_fd caller_uid : Z) : M trace unit :=
  canonical_root ← canonicalize_path (fmt ["canonicalize sandbox root "; root]) root;
  app ← lift (ok_or "sandbox root has no app parent" (parent canonical_root));
  chroots ← lift (ok_or "sandbox root has no chroots parent" (parent app));
  runtime ← lift (ok_or "sandbox root has no runtime parent" (parent chroots));
  if negb (bool_decide (file_name_of chroots = Some "chroots"))
     || bool_decide (file_name_of canonical_root = None) || bool_decide (file_name_of app = None)
  then lift (bail "sandbox root is not a freebsd-flatpak instance")
  else
    runtime_metadata ← path_metadata "inspect sandbox runtime root" runtime;
    root_identity ← from_fd root_fd;
    if negb (is_private runtime_metadata (id_uid root_identity) caller_uid)
    then lift (bail "sandbox root is not private to caller")
    else
      info ← lift (c_string ".flatpak-info");
      info ← openat "open sandbox .flatpak-info" root_fd info [O_RDONLY; O_CLOEXEC; O_NOFOLLOW];
      identity ← from_fd info;
      stat ← fstat "inspect sandbox .flatpak-info" info;
      if negb (type_of_mode (sf_mode stat) =? S_IFREG)%Z || negb (id_uid identity =? caller_uid)%Z
      then lift (bail "sandbox .flatpak-info is not a caller-owned regular file")
      else mret tt.

(** ** Mounting *)

Definition mount (o : MountOptions) (read_only : bool) : M trace unit :=
  match Options.iov o with
  | Some iov => checked_call "nmount" (a_nmount iov read_only) (ENmount iov read_only)
  | None => lift (bail "index out of bounds")
  end.

Definition anchor_mount_target (target : Z) : M trace unit := fchdir "fchdir mount target" target.

Definition nmount_nullfs (source : path) (target_parent : Z) (target_name : string) (read_only : bool) : M trace unit :=
  _ ← anchor_mount_target target_parent;
  source_path ← lift (c_string source);
  options ← lift (
    o ← Options.value "fstype" "nullfs" Options.new;
    fspath ← cstring "fspath";
    let o := Options.value_cstr fspath target_name o in
    target ← cstring "target";
    let o := Options.value_cstr target source_path o in
    Options.flag "nocover" o);
  mount options read_only.

Definition nmount_special (target : Z) (fs_type source : string) : M trace unit :=
  _ ← anchor_mount_target target;
  options ← lift (
    o ← Options.value "fstype" fs_type Options.new;
    o ← Options.value "fspath" "." o;
    Options.value "from" source o);
  mount options false.

(** [u32::from_str_radix(_, 8)] and the conversion to [mode_t]. *)
Definition octal_step (acc : option Z) (a : ascii) : option Z :=
  n ← acc;
  let d := (Z.of_N (N_of_ascii a) - 48)%Z in
  if (0 <=? d)%Z && (d <? 8)%Z then let v := (n * 8 + d)%Z in if (v <? 2 ^ 32)%Z then Some v else None else None.
Definition parse_octal_u32 (s : string) : option Z :=
  let digits := default s (strip_prefix "+" s) in
  if is_empty digits then None else fold_left octal_step (list_ascii_of_string digits) (Some 0%Z).
Definition to_mode_t (n : Z) : option Z := if (n <? 2 ^ 16)%Z then Some n else None.

Record TmpfsRequest := mkTmpfs { tr_options : MountOptions; tr_mode : option Z; tr_uid : option Z; tr_gid : option Z }.

(** One option of the list. *)
Definition tmpfs_option (s : TmpfsRequest) (option : string) : result TmpfsRequest :=
  nv ← ok_or "tmpfs option requires a value" (split_once "=" option);
  let '(name, value) := nv in
  s ← (if String.eqb name "mode" then
         mode ← ok_or "invalid tmpfs mode" (parse_octal_u32 value);
         mode ← ok_or "tmpfs mode is out of range" (to_mode_t mode);
         Ok (mkTmpfs (tr_options s) (Some mode) (tr_uid s) (tr_gid s))
       else if String.eqb name "uid" || String.eqb name "gid" then
         id ← ok_or "invalid tmpfs owner" (parse_u32 value);
         Ok (if String.eqb name "uid" then mkTmpfs (tr_options s) (tr_mode s) (Some id) (tr_gid s)
             else mkTmpfs (tr_options s) (tr_mode s) (tr_uid s) (Some id))
       else bail "unsupported tmpfs option");
  o ← Options.value name value (tr_options s);
  Ok (mkTmpfs o (tr_mode s) (tr_uid s) (tr_gid s)).

Definition tmpfs_request (options : string) : result TmpfsRequest :=
  o ← Options.value "fstype" "tmpfs" Options.new;
  o ← Options.value "fspath" "." o;
  o ← Options.value "from" "tmpfs" o;
  o ← Options.flag "nocover" o;
  options ← ok_or "tmpfs options are not UTF-8" (from_utf8 options);
  fold_result tmpfs_option (List.filter (fun option => negb (is_empty option)) (split "," options)) (mkTmpfs o None None None).

(** [!0] of a u32. *)
Definition KEEP_ID : Z := 2 ^ 32 - 1.

Definition nmount_tmpfs (root : Z) (target_relative : path) (target : Z) (options : string) : M trace unit :=
  _ ← anchor_mount_target target;
  r ← lift (tmpfs_request options);
  _ ← mount (tr_options r) false;
  mounted_root ← open_relative_dir root target_relative;
  _ ← match tr_mode r with
      | Some mode => checked_call "chmod tmpfs root" (a_fchmod mounted_root mode) (EFchmod mounted_root mode)
      | None => mret tt
      end;
  if bool_decide (is_Some (tr_uid r)) || bool_decide (is_Some (tr_gid r))
  then let uid := default KEEP_ID (tr_uid r) in let gid := default KEEP_ID (tr_gid r) in
       checked_call "chown tmpfs root" (a_fchown mounted_root uid gid) (EFchown mounted_root uid gid)
  else mret tt.

(** ** Mounting a regular file *)

Definition prepare_nullfs_parent (root : Z) (target_relative : path) (uid gid : Z) : M trace (Z * string) :=
  _ ← lift (validate_relative target_relative);
  name ← lift (ok_or "mount target has no final component" (file_name_of target_relative));
  name ← lift (c_string name);
  parent ← match parent target_relative with
           | Some parent => if negb (is_empty parent) then chase_and_mkdir root parent 493 uid gid else duplicate_dir root
           | None => duplicate_dir root
           end;
  mret (parent, name).

Definition open_or_create_regular_file (parent : Z) (name : string) (uid gid : Z) : M trace Z :=
  fd ← ask (a_openat parent name CREATE_FLAGS 384) (EOpenAt parent name CREATE_FLAGS 384);
  match fd with
  | inl entry => _ ← fchownat "chown mount target" parent name uid gid; mret entry
  | inr n =>
      if negb (n =? EEXIST)%Z then lift (os_context "create regular-file mount target" (inr n))
      else
        entry ← open_child_entry_cstr parent name;
        t ← file_type entry;
        if negb (t =? S_IFREG)%Z then lift (bail "mount target final component is not a regular file")
        else mret entry
  end.

Record DirectoryAttributes := mkAttributes { at_mode : Z; at_uid : Z; at_gid : Z }.
Inductive RegularFileParentProtection := ReadOnly | Locked (a : DirectoryAttributes).

Definition directory_attributes (d : Z) : M trace DirectoryAttributes :=
  t ← file_type d;
  if negb (t =? S_IFDIR)%Z then lift (bail "mount target parent is not a directory")
  else
    s ← fstat "fstat mount target parent" d;
    mret (mkAttributes (Z.land (sf_mode s) 4095) (sf_uid s) (sf_gid s)).

Definition set_directory_mode (d mode : Z) : M trace unit :=
  checked_call "chmod mount target parent" (a_fchmod d mode) (EFchmod d mode).

Definition restore_directory_attributes (parent : Z) (a : DirectoryAttributes) : M trace unit :=
  _ ← checked_call "restore regular-file mount parent owner" (a_fchown parent (at_uid a) (at_gid a))
        (EFchown parent (at_uid a) (at_gid a));
  set_directory_mode parent (at_mode a).

Definition mount_is_read_only (d : Z) : M trace bool :=
  (fun s => Z.odd (f_flags s)) <$> fstatfs "fstatfs mount target parent" d.

Definition protect_regular_file_parent (parent : Z) : M trace RegularFileParentProtection :=
  attributes ← directory_attributes parent;
  owned ← ask (a_fchown parent 0 0) (EFchown parent 0 0);
  match owned with
  | inr n =>
      read_only ← (if (n =? EROFS)%Z then mount_is_read_only parent else mret false);
      if (read_only : bool) then mret ReadOnly else lift (os_context "chown regular-file mount parent" (inr n))
  | inl _ =>
      locked ← catch (set_directory_mode parent (Z.ldiff (at_mode attributes) 146));
      match locked with
      | Err lock_error =>
          restored ← catch (restore_directory_attributes parent attributes);
          match restored with
          | Ok _ => fail ("lock regular-file mount parent" :: lock_error)
          | Err restore_error =>
              fail (fmt ["lock regular-file mount parent; restoration also failed: "; chain restore_error] :: lock_error)
          end
      | Ok _ => mret (Locked attributes)
      end
  end.

Definition restore (protection : RegularFileParentProtection) (parent : Z) : M trace unit :=
  match protection with Locked a => restore_directory_attributes parent a | ReadOnly => mret tt end.

Inductive RegularFileMountCompletion := Clean | NeedsTrackedCleanup (details : string).

Definition describe_result (r : result unit) : string :=
  match r with Ok _ => "ok" | Err e => chain e end.

(** The text after a semicolon: the source has an escaped backslash there, then
    the line break and the indentation of the next line. *)
Definition BACKSLASH_BREAK (indent : string) : string := "\" +:+ nl +:+ indent.

Definition finish_regular_file_mount (mount_result : M trace unit) (restore rollback : M trace unit)
    : M trace RegularFileMountCompletion :=
  mounted ← catch mount_result;
  match mounted with
  | Err mount_error =>
      r ← catch restore;
      match r with
      | Ok _ => fail mount_error
      | Err restore_error =>
          fail (fmt ["regular-file mount failed and parent restoration also failed: "; chain restore_error] :: mount_error)
      end
  | Ok _ =>
      r ← catch restore;
      match r with
      | Ok _ => mret Clean
      | Err restore_error =>
          rollback_result ← catch rollback;
          final_restore ← catch restore;
          match rollback_result, final_restore with
          | Ok _, Ok _ => fail ("parent restoration failed after regular-file mount; mount was rolled back" :: restore_error)
          | Err rollback_error, final_restore =>
              mret (NeedsTrackedCleanup
                (fmt ["parent restoration failed after regular-file mount: "; chain restore_error; "; ";
                      BACKSLASH_BREAK "                             "; "rollback failed: "; chain rollback_error;
                      "; final parent restoration result: "; describe_result final_restore]))
          | Ok _, Err final_restore =>
              lift (bail (fmt ["parent restoration failed after regular-file mount; mount was rolled back; ";
                      BACKSLASH_BREAK "                         "; "final parent restoration result: ";
                      chain final_restore]))
          end
      end
  end.

(** ** Unmounting *)

Record MountedFilesystem := mkMounted { mf_fsid : Z * Z; mf_type : string }.

Definition mounted_filesystem (target : Z) (expected_mountpoint : path) : M trace MountedFilesystem :=
  stat ← fstatfs "fstatfs mount target" target;
  if negb (String.eqb (f_mntonname stat) expected_mountpoint) then lift (bail "mount target is not an exact mountpoint")
  else mret (mkMounted (f_fsid stat) (f_fstypename stat)).

(** The table that [getmntinfo] returned, once it is known to be one. *)
Definition getmntinfo_mounts (r : (Z * option (list StatFs)) * Z) : result (list StatFs) :=
  if (r.1.1 <=? 0)%Z then os_context "getmntinfo" (inr r.2)
  else match r.1.2 with
       | None => bail "getmntinfo returned a null mount table"
       | Some mounts => Ok (take (Z.to_nat r.1.1) mounts)
       end.

Definition mounted_filesystem_named (expected_mountpoint : path) : M trace MountedFilesystem :=
  table ← ask a_getmntinfo EGetmntinfo;
  mounts ← lift (getmntinfo_mounts table);
  stat ← lift (ok_or "orphaned document mount is no longer present"
                 (List.find (fun s => String.eqb (f_mntonname s) expected_mountpoint) mounts));
  mret (mkMounted (f_fsid stat) (f_fstypename stat)).

Definition fsid_name (fsid : Z * Z) : string := fmt ["FSID:"; show_Z fsid.1; ":"; show_Z fsid.2].
Definition unmount_filesystem (fsid : Z * Z) (force : bool) : M trace unit :=
  name ← lift (cstring (fsid_name fsid));
  unmount "unmount by filesystem ID" name true force.

Definition unmount_regular_file_target (target : Z) (expected_mountpoint : path) (force : bool) : M trace unit :=
  filesystem ← mounted_filesystem target expected_mountpoint;
  _ ← close target;
  unmount_filesystem (mf_fsid filesystem) force.

Definition unmount_directory_target (root : Z) (target_relative : path) (force : bool) : M trace unit :=
  _ ← lift (validate_relative target_relative);
  _ ← fchdir "fchdir sandbox root for unmount" root;
  p ← lift (c_string target_relative);
  unmount "unmount" p false force.

Definition rollback_regular_file_mount (parent : Z) (name : string) (expected_mountpoint : path) : M trace unit :=
  target ← in_context "open regular-file mount for rollback" (open_child_entry_cstr parent name);
  in_context "rollback regular-file mount" (unmount_regular_file_target target expected_mountpoint true).

(** The mount of a file, while its parent is protected. *)
Definition mount_regular_file (source : path) (parent : Z) (name : string) (uid gid : Z) (read_only : bool) : M trace unit :=
  target ← open_or_create_regular_file parent name uid gid;
  t ← file_type target;
  if negb (t =? S_IFREG)%Z then lift (bail "mount target final component is not a regular file")
  else
    _ ← close target;
    nmount_nullfs source parent name read_only.

Definition nmount_regular_file_nullfs (source root_path : path) (root : Z) (target_relative : path) (uid gid : Z)
    (read_only : bool) : M trace unit :=
  pn ← prepare_nullfs_parent root target_relative uid gid;
  let '(parent, name) := pn in
  protection ← protect_regular_file_parent parent;
  let expected_mountpoint := join_path root_path target_relative in
  completion ← finish_regular_file_mount (mount_regular_file source parent name uid gid read_only)
                 (restore protection parent) (rollback_regular_file_mount parent name expected_mountpoint);
  match completion with
  | Clean => mret tt
  | NeedsTrackedCleanup details =>
      record (EWarn (fmt ["secure-mount: regular-file mount needs tracked cleanup after parent restoration failed: "; details]))
  end.

Definition validate_relative_mount_target (start : Z) (p : path) : M trace Z :=
  _ ← lift (validate_relative p);
  parent ← match parent p with
           | Some parent => if negb (is_empty parent) then open_relative_dir start parent else duplicate_dir start
           | None => duplicate_dir start
           end;
  name ← lift (ok_or "mount target has no final component" (file_name_of p));
  target ← open_child_entry parent name;
  t ← file_type target;
  if (t =? S_IFDIR)%Z || (t =? S_IFREG)%Z then mret target
  else lift (bail "mount target final component is not a regular file or directory").

(** ** The operations *)

Definition prepare_context (target_relative : path) : string := fmt ["prepare mount target "; target_relative].

Definition required_arg (label : string) (args : list string) : result (string * list string) :=
  match args with a :: r => Ok (a, r) | [] => bail (fmt ["missing "; label]) end.
Definition reject_extra_args (args : list string) : result unit :=
  match args with [] => Ok tt | _ => bail "unexpected secure mount helper argument" end.

(** The identity the source has to have; a source of the launcher's own staging
    directory needs none. *)
Definition expected_source (root source : path) (device inode : string) : result (option FileIdentity) :=
  if String.eqb device "-" && String.eqb inode "-" then
    if negb (path_starts_with source (join_path root PRIVATE_SOURCE_ROOT))
    then bail "unverified nullfs source is outside private mount staging" else Ok None
  else Some <$> parse_file_identity device inode.

Definition parse_access (v : string) : result bool :=
  if String.eqb v "ro" then Ok true else if String.eqb v "rw" then Ok false else bail "invalid nullfs access mode".
Definition parse_unmount_mode (v : string) : result bool :=
  if String.eqb v "normal" then Ok false else if String.eqb v "force" then Ok true else bail "invalid secure unmount mode".

Definition mount_nullfs (root : path) (root_fd : Z) (root_identity : FileIdentity) (target_relative source : path)
    (expected : option FileIdentity) (read_only : bool) : M trace unit :=
  source_fd ← in_context (fmt ["open nullfs source "; source]) (open_absolute_entry source);
  _ ← match expected with Some e => verify e source_fd "nullfs source" | None => mret tt end;
  source_type ← file_type source_fd;
  if (source_type =? S_IFDIR)%Z then
    target ← in_context (prepare_context target_relative)
               (chase_and_mkdir root_fd target_relative 493 (id_uid root_identity) (id_gid root_identity));
    name ← lift (cstring ".");
    nmount_nullfs source target name read_only
  else if negb (source_type =? S_IFREG)%Z then lift (bail "nullfs source is not a regular file or directory")
  else
    in_context (prepare_context target_relative)
      (nmount_regular_file_nullfs source root root_fd target_relative (id_uid root_identity) (id_gid root_identity) read_only).

Definition mount_tmpfs (root_fd : Z) (root_identity : FileIdentity) (target_relative : path) (options : string) : M trace unit :=
  target ← in_context (prepare_context target_relative)
             (chase_and_mkdir root_fd target_relative 493 (id_uid root_identity) (id_gid root_identity));
  nmount_tmpfs root_fd target_relative target options.

Definition special_allowed (fs_type source : string) : bool :=
  existsb (fun t => String.eqb fs_type t && String.eqb source t) ["devfs"; "fdescfs"; "linprocfs"; "linsysfs"].

Definition mount_special (root_fd : Z) (root_identity : FileIdentity) (target_relative : path) (fs_type source : string)
    : M trace unit :=
  if negb (special_allowed fs_type source) then lift (bail "unsupported secure special mount")
  else
    target ← in_context (prepare_context target_relative)
               (chase_and_mkdir root_fd target_relative 493 (id_uid root_identity) (id_gid root_identity));
    nmount_special target fs_type source.

Definition unmount_target (root : path) (root_fd : Z) (target_relative : path) (force : bool) : M trace unit :=
  target ← in_context (prepare_context target_relative) (validate_relative_mount_target root_fd target_relative);
  t ← file_type target;
  if (t =? S_IFREG)%Z then unmount_regular_file_target target (join_path root target_relative) force
  else if (t =? S_IFDIR)%Z then _ ← close target; unmount_directory_target root_fd target_relative force
  else lift (bail "internal error: entered unreachable code: mount target was validated as a file or directory").

(** ** Recovery of an orphaned document mount *)

Definition document_parts (relative : path) : result (string * string * string) :=
  match components relative with
  | [Normal app; Normal instance; Normal run; Normal user; Normal uid; Normal doc; Normal _; Normal _] =>
      if negb (String.eqb run "run") || negb (String.eqb user "user") || negb (String.eqb doc "doc")
      then bail "orphaned mountpoint is not a caller document grant"
      else Ok (app, instance, uid)
  | _ => bail "orphaned mountpoint is not a regular-file document grant"
  end.

Definition validate_orphaned_document_mountpoint (chroots : path) (chroots_fd : Z) (mountpoint : path) (caller_uid : Z)
    : M trace unit :=
  canonical_chroots ← canonicalize_path (fmt ["canonicalize chroots root "; chroots]) chroots;
  if negb (bool_decide (file_name_of canonical_chroots = Some "chroots"))
  then lift (bail "chroots root is not a freebsd-flatpak chroots directory")
  else
    runtime ← lift (ok_or "chroots root has no runtime parent" (parent canonical_chroots));
    runtime_metadata ← path_metadata "inspect sandbox runtime root" runtime;
    chroots_identity ← from_fd chroots_fd;
    if negb (is_private runtime_metadata (id_uid chroots_identity) caller_uid)
    then lift (bail "chroots root is not private to caller")
    else if negb (is_absolute mountpoint) || existsb (fun c => negb (rooted c)) (components mountpoint)
    then lift (bail "orphaned document mountpoint is not an absolute normalized path")
    else
      relative ← lift (ok_or "orphaned document mountpoint is outside chroots root"
                         (strip_path_prefix mountpoint canonical_chroots));
      parts ← lift (document_parts relative);
      let '(app, instance, uid) := parts in
      if negb (bool_decide ((from_utf8 uid ≫= parse_u32) = Some caller_uid))
      then lift (bail "orphaned mountpoint is not a caller document grant")
      else
        opened ← catch (open_relative_dir chroots_fd (join_path app instance));
        match opened with
        | Ok _ => lift (bail "refusing recovery for an existing sandbox instance")
        | Err e => if caused_by ENOENT e then mret tt else fail ("inspect orphaned sandbox instance" :: e)
        end.

Definition recover_document (chroots : path) (expected_chroots : FileIdentity) (mountpoint : path) (force : bool)
    (caller_uid : Z) : M trace unit :=
  chroots_fd ← in_context (fmt ["open chroots root "; chroots]) (open_absolute_dir chroots);
  _ ← verify expected_chroots chroots_fd "chroots root";
  _ ← validate_orphaned_document_mountpoint chroots chroots_fd mountpoint caller_uid;
  filesystem ← mounted_filesystem_named mountpoint;
  if negb (String.eqb (mf_type filesystem) "nullfs") then lift (bail "orphaned document mount is not nullfs")
  else unmount_filesystem (mf_fsid filesystem) force.

Definition recover_orphaned_document_unmount (args : list string) (caller_uid : Z) : M trace unit :=
  '(chroots, args) ← lift (required_arg "chroots root" args);
  '(device, args) ← lift (required_arg "chroots root device" args);
  '(inode, args) ← lift (required_arg "chroots root inode" args);
  expected_chroots ← lift (parse_file_identity device inode);
  '(mountpoint, args) ← lift (required_arg "orphaned document mountpoint" args);
  '(mode, args) ← lift (required_arg "unmount mode" args);
  force ← lift (parse_unmount_mode mode);
  _ ← lift (reject_extra_args args);
  recover_document chroots expected_chroots mountpoint force caller_uid.

(** ** The helper *)

(** What follows the validation of the root, by the operation's name. *)
Definition dispatch (operation : string) (root : path) (root_fd : Z) (root_identity : FileIdentity)
    (target_relative : path) (args : list string) : M trace unit :=
  if String.eqb operation "nullfs" then
    '(source, args) ← lift (required_arg "nullfs source" args);
    '(source_device, args) ← lift (required_arg "nullfs source device" args);
    '(source_inode, args) ← lift (required_arg "nullfs source inode" args);
    expected ← lift (expected_source root source source_device source_inode);
    '(access, args) ← lift (required_arg "nullfs access mode" args);
    read_only ← lift (parse_access access);
    _ ← lift (reject_extra_args args);
    mount_nullfs root root_fd root_identity target_relative source expected read_only
  else if String.eqb operation "tmpfs" then
    '(options, args) ← lift (required_arg "tmpfs options" args);
    _ ← lift (reject_extra_args args);
    mount_tmpfs root_fd root_identity target_relative options
  else if String.eqb operation "special" then
    '(fs_type, args) ← lift (required_arg "special filesystem type" args);
    '(source, args) ← lift (required_arg "special filesystem source" args);
    _ ← lift (reject_extra_args args);
    mount_special root_fd root_identity target_relative fs_type source
  else if String.eqb operation "unmount" then
    '(mode, args) ← lift (required_arg "unmount mode" args);
    force ← lift (parse_unmount_mode mode);
    _ ← lift (reject_extra_args args);
    unmount_target root root_fd target_relative force
  else lift (bail "unsupported secure mount operation").

(** The descriptor of a root that has the expected identity and is a private
    instance of the caller, with its owner. *)
Definition open_sandbox_root (root : path) (expected_root : FileIdentity) (caller_uid : Z) : M trace (Z * FileIdentity) :=
  root_fd ← in_context (fmt ["open sandbox root "; root]) (open_absolute_dir root);
  _ ← verify expected_root root_fd "sandbox root";
  root_identity ← from_fd root_fd;
  _ ← validate_sandbox_root root root_fd caller_uid;
  mret (root_fd, root_identity).

(** The caller's real identifier; the helper is set-user-ID root. *)
Definition caller : M trace Z :=
  effective ← geteuid;
  if negb (effective =? 0)%Z then lift (bail "secure mount helper must run as root")
  else
    caller_uid ← getuid;
    if (caller_uid =? 0)%Z then lift (bail "secure mount helper does not accept root callers") else mret caller_uid.

(** [args] are the arguments after the program's name. *)
Definition run_helper (args : list string) : M trace unit :=
  caller_uid ← caller;
  '(operation, args) ← lift (required_arg "mount operation" args);
  if String.eqb operation "recover-orphaned-document-unmount" then recover_orphaned_document_unmount args caller_uid
  else
    '(root, args) ← lift (required_arg "sandbox root" args);
    '(device, args) ← lift (required_arg "sandbox root device" args);
    '(inode, args) ← lift (required_arg "sandbox root inode" args);
    expected_root ← lift (parse_file_identity device inode);
    '(target_relative, args) ← lift (required_arg "sandbox-relative target" args);
    opened ← open_sandbox_root root expected_root caller_uid;
    let '(root_fd, root_identity) := opened in
    dispatch operation root root_fd root_identity target_relative args.
End Helper.

(** ** Lemmas: what a command line asks for *)

(** An operation below a sandbox root. *)
Inductive MountRequest :=
| Nullfs (source : path) (source_identity : option (Z * Z)) (read_only : bool)
| Tmpfs (options : string)
| Special (fs_type source : string)
| Unmount (force : bool).

Definition command_of (root : path) (root_identity : Z * Z) (target_relative : path) (r : MountRequest) : result command :=
  match r with
  | Nullfs source source_identity read_only => nullfs_command root root_identity source source_identity target_relative read_only
  | Tmpfs options => tmpfs_command root root_identity target_relative options
  | Special fs_type source => special_command root root_identity target_relative fs_type source
  | Unmount force => unmount_command root root_identity target_relative force
  end.

Definition expects (i : Z * Z) : FileIdentity := mkIdentity i.1 i.2 0 0.
Definition is_identity (i : Z * Z) : Prop := (0 <= i.1 < 2 ^ 64)%Z /\ (0 <= i.2 < 2 ^ 64)%Z.

(** A source without identity is one of the launcher's staging directory. *)
Definition well_formed (root : path) (r : MountRequest) : Prop :=
  match r with
  | Nullfs source (Some i) _ => is_identity i
  | Nullfs source None _ => path_starts_with source (join_path root PRIVATE_SOURCE_ROOT) = true
  | _ => True
  end.

Section Commands.
Context `{System}.

(** What the helper is for, without its command line. *)
Definition serve (root : path) (root_identity : Z * Z) (target_relative : path) (r : MountRequest) : M trace unit :=
  caller_uid ← caller;
  opened ← open_sandbox_root root (expects root_identity) caller_uid;
  let '(root_fd, identity) := opened in
  match r with
  | Nullfs source source_identity read_only =>
      mount_nullfs root root_fd identity target_relative source (expects <$> source_identity) read_only
  | Tmpfs options => mount_tmpfs root_fd identity target_relative options
  | Special fs_type source => mount_special root_fd identity target_relative fs_type source
  | Unmount force => unmount_target root root_fd target_relative force
  end.

Lemma parse_u64_arg_show label z : (0 <= z < 2 ^ 64)%Z -> parse_u64_arg label (show_Z z) = Ok z.
Proof.
  intros Hz. unfold parse_u64_arg. rewrite from_utf8_number. cbn [ok_or mbind result_bind].
  unfold parse_u64. by rewrite parse_int_show by lia.
Qed.

Lemma parse_identity_show i : is_identity i -> parse_file_identity (show_Z i.1) (show_Z i.2) = Ok (expects i).
Proof. intros [? ?]. unfold parse_file_identity. by rewrite !parse_u64_arg_show. Qed.

Lemma show_Z_not_dash z : (0 <= z)%Z -> String.eqb (show_Z z) "-" = false.
Proof.
  intros Hz. apply String.eqb_neq. unfold show_Z. rewrite (proj2 (Z.ltb_ge _ _)) by done.
  destruct (show_N_head (Z.to_N z)) as (a & r & -> & Ha). intros [= -> ->]. by vm_compute in Ha.
Qed.

Lemma expected_source_command root source si ro :
  well_formed root (Nullfs source si ro) ->
  expected_source root source (match si with Some i => show_Z i.1 | None => "-" end)
    (match si with Some i => show_Z i.2 | None => "-" end) = Ok (expects <$> si).
Proof.
  unfold expected_source. destruct si as [i|]; cbn [well_formed].
  - intros Hi. pose proof Hi as [[? _] _]. rewrite show_Z_not_dash by done. cbn [andb]. by rewrite parse_identity_show.
  - intros Hs. rewrite String.eqb_refl. cbn [andb]. by rewrite Hs.
Qed.

Lemma lift_ok_bind {W A B} (a : A) (f : A -> M W B) w : (lift (Ok a) ≫= f) w = f a w.
Proof. done. Qed.

Lemma M_bind_ext {W A B} (m : M W A) (f g : A -> M W B) w :
  (forall a w, f a w = g a w) -> (m ≫= f) w = (m ≫= g) w.
Proof. intros E. unfold mbind, M_bind. destruct (m w) as [[a|e] w']; [apply E|done]. Qed.

Local Ltac step := cbn [required_arg]; rewrite lift_ok_bind; cbn beta iota.

(** The helper run on a command line does what the command was built for. *)
Theorem helper_serves_command root root_identity target r program args t :
  is_identity root_identity -> well_formed root r ->
  command_of root root_identity target r = Ok (program :: args) ->
  program = HELPER_PATH /\ run_helper args t = serve root root_identity target r t.
Proof.
  intros Hi Hr E.
  assert (exists operation rest, program = HELPER_PATH /\
    args = operation :: root :: show_Z root_identity.1 :: show_Z root_identity.2 :: target :: rest /\
    String.eqb operation "recover-orphaned-document-unmount" = false /\
    forall root_fd identity t', dispatch operation root root_fd identity target rest t' =
      match r with
      | Nullfs source si read_only => mount_nullfs root root_fd identity target source (expects <$> si) read_only
      | Tmpfs options => mount_tmpfs root_fd identity target options
      | Special fs_type source => mount_special root_fd identity target fs_type source
      | Unmount force => unmount_target root root_fd target force
      end t') as (operation & rest & -> & -> & Hop & Hd).
  { destruct r as [source si ro|options|fs_type source|force]; cbn [command_of] in E;
      unfold nullfs_command, tmpfs_command, special_command, unmount_command in E;
      apply bind_ok in E as (u & _ & E).
    - pose proof (expected_source_command root source si ro Hr) as Hs.
      destruct si as [i|]; injection E as <- <-; eexists _, _; (split_and!; [done..|]); intros root_fd identity t';
        unfold dispatch; rewrite String.eqb_refl; do 3 step; rewrite Hs; do 2 step; by destruct ro.
    - injection E as <- <-. by eexists _, _.
    - injection E as <- <-. by eexists _, _.
    - injection E as <- <-. eexists _, _. split_and!; [done..|]. by destruct force. }
  split; [done|]. unfold run_helper, serve. apply M_bind_ext. intros uid t1.
  step. rewrite Hop. do 3 step. rewrite parse_identity_show by done. do 2 step. apply M_bind_ext. intros [root_fd identity] t2. apply Hd.
Qed.
End Commands.

(** ** Lemmas: the calls around a file mount *)

(** Calls that change neither a directory's attributes nor the mounts. *)
Definition plain (e : Event) : bool :=
  match e with EFchown _ _ _ _ | EFchmod _ _ _ | ENmount _ _ _ | EUnmount _ _ _ _ => false | _ => true end.

Section Plain.
Context `{System} (P : trace -> Prop) (HP : forall t e, plain e = true -> P t -> P (t ++ [e])).

Lemma plain_ask {A} (a : trace -> A) event : (forall r, plain (event r) = true) -> keeps P (ask a event).
Proof using HP. intros He t Ht. by apply HP. Qed.
Lemma plain_checked {A} msg (a : trace -> answer A) event : (forall r, plain (event r) = true) -> keeps P (checked_call msg a event).
Proof using HP. intros He. apply keeps_bind; [by apply plain_ask|]. intros r. apply keeps_lift. Qed.
Lemma plain_record e : plain e = true -> keeps P (record e).
Proof using HP. intros He t Ht. by apply HP. Qed.
Lemma plain_file_type d : keeps P (file_type d).
Proof using HP. apply keeps_fmap. by apply plain_checked. Qed.
Lemma plain_mkdir_child mode u g d c : keeps P (mkdir_child mode u g d c).
Proof using HP.
  destruct c; cbn [mkdir_child]; try apply keeps_lift. apply keeps_bind; [apply keeps_lift|]. intros n.
  apply keeps_bind; [by apply plain_ask|]. intros r. apply keeps_bind; [|intros; by apply plain_checked].
  destruct r; [by apply plain_checked|]. apply keeps_if; [apply keeps_ret|apply keeps_lift].
Qed.
Lemma plain_chase d p mode u g : keeps P (chase_and_mkdir d p mode u g).
Proof using HP.
  apply keeps_bind; [apply keeps_lift|]. intros x. apply keeps_bind; [by apply plain_checked|]. intros c.
  apply keeps_fold_each. intros. apply plain_mkdir_child.
Qed.
Lemma plain_open_entry d n : keeps P (open_child_entry_cstr d n).
Proof using HP. by apply plain_checked. Qed.
Lemma plain_prepare root p u g : keeps P (prepare_nullfs_parent root p u g).
Proof using HP.
  apply keeps_bind; [apply keeps_lift|]. intros x. apply keeps_bind; [apply keeps_lift|]. intros n.
  apply keeps_bind; [apply keeps_lift|]. intros n'. apply keeps_bind; [|intros; apply keeps_ret].
  destruct (parent p) as [q|]; [|by apply plain_checked]. apply keeps_if; [apply plain_chase|by apply plain_checked].
Qed.
Lemma plain_open_or_create d n u g : keeps P (open_or_create_regular_file d n u g).
Proof using HP.
  apply keeps_bind; [by apply plain_ask|]. intros [e|e].
  - apply keeps_bind; [by apply plain_checked|]. intros; apply keeps_ret.
  - apply keeps_if; [apply keeps_lift|]. apply keeps_bind; [apply plain_open_entry|]. intros f.
    apply keeps_bind; [apply plain_file_type|]. intros ty. apply keeps_if; [apply keeps_lift|apply keeps_ret].
Qed.
Lemma plain_mounted_filesystem f p : keeps P (mounted_filesystem f p).
Proof using HP.
  apply keeps_bind; [by apply plain_checked|]. intros st. apply keeps_if; [apply keeps_lift|apply keeps_ret].
Qed.
End Plain.

Section Outcome.
Context `{System}.

(** What a computation adds to the trace. *)
Definition adds {A} (m : M trace A) (Q : result A -> list Event -> Prop) : Prop :=
  forall t r t', m t = (r, t') -> exists ev, t' = t ++ ev /\ Q r ev.
Definition all_plain (ev : list Event) : Prop := Forall (fun e => plain e = true) ev.

Lemma adds_plain {A} (m : M trace A) :
  (forall P, (forall t e, plain e = true -> P t -> P (t ++ [e])) -> keeps P m) -> adds m (fun _ ev => all_plain ev).
Proof.
  intros Hm t r t' E. specialize (Hm (fun t' => exists ev, t' = t ++ ev /\ all_plain ev)).
  enough ((fun t' => exists ev, t' = t ++ ev /\ all_plain ev) (m t).2) as Hq by by rewrite E in Hq.
  apply Hm; [|exists []; split; [by rewrite app_nil_r|constructor]].
  intros t1 e He (ev & -> & Hev). exists (ev ++ [e]). split; [by rewrite app_assoc|]. apply Forall_app. split; [done|by constructor].
Qed.

Lemma adds_bind {A B} (m : M trace A) (f : A -> M trace B) Q R :
  adds m Q -> (forall a ev1, Q (Ok a) ev1 -> adds (f a) (fun r ev2 => R r (ev1 ++ ev2))) ->
  (forall e ev, Q (Err e) ev -> R (Err e) ev) -> adds (m ≫= f) R.
Proof.
  intros Hm Hf He t r t' (o & t1 & E & Hr)%M_bind_cases. destruct (Hm _ _ _ E) as (ev1 & -> & HQ).
  destruct Hr as [(a & -> & Hr)|(e & -> & -> & ->)]; [|by exists ev1; split; [|apply He]].
  destruct (Hf _ _ HQ _ _ _ Hr) as (ev2 & -> & HR). exists (ev1 ++ ev2). by rewrite app_assoc.
Qed.
Lemma adds_ret {A} (a : A) (Q : result A -> list Event -> Prop) : Q (Ok a) [] -> adds (mret a) Q.
Proof. intros HQ t r t' [= <- <-]. exists []. by rewrite app_nil_r. Qed.
Lemma adds_lift {A} (x : result A) (Q : result A -> list Event -> Prop) : Q x [] -> adds (lift x) Q.
Proof. intros HQ t r t' [= <- <-]. exists []. by rewrite app_nil_r. Qed.
Lemma adds_fail {A} e (Q : result A -> list Event -> Prop) : Q (Err e) [] -> adds (fail e) Q.
Proof. intros HQ t r t' [= <- <-]. exists []. by rewrite app_nil_r. Qed.
Lemma adds_record e (Q : result unit -> list Event -> Prop) : Q (Ok tt) [e] -> adds (record e) Q.
Proof. intros HQ t r t' [= <- <-]. by exists [e]. Qed.
Lemma adds_ask {A} (a : trace -> A) event : adds (ask a event) (fun r ev => exists x, r = Ok x /\ ev = [event x]).
Proof. intros t r t' [= <- <-]. exists [event (a t)]. split; [done|]. by exists (a t). Qed.
Lemma adds_checked {A} msg (a : trace -> answer A) event : adds (checked_call msg a event) (fun r ev =>
  match r with Ok x => ev = [event (inl x)] | Err _ => exists n, ev = [event (inr n)] end).
Proof.
  intros t r t' E. unfold checked_call, ask, lift, mbind, M_bind in E. injection E as <- <-. exists [event (a t)]. split; [done|].
  destruct (a t) as [x|n]; cbn; [done|by exists n].
Qed.
Lemma adds_catch {A} (m : M trace A) Q : adds m Q -> adds (catch m) (fun r ev => exists o, r = Ok o /\ Q o ev).
Proof.
  intros Hm t r t' E. unfold catch in E. destruct (m t) as [o t1] eqn:Em. injection E as <- <-.
  destruct (Hm _ _ _ Em) as (ev & -> & HQ). exists ev. split; [done|]. by exists o.
Qed.
Lemma adds_context {A} msg (m : M trace A) Q : adds m Q ->
  adds (in_context msg m) (fun r ev => exists o, r = with_context msg o /\ Q o ev).
Proof.
  intros Hm t r t' E. unfold in_context in E. destruct (m t) as [o t1] eqn:Em. injection E as <- <-.
  destruct (Hm _ _ _ Em) as (ev & -> & HQ). exists ev. split; [done|]. by exists o.
Qed.
Lemma adds_mono {A} (m : M trace A) (Q R : result A -> list Event -> Prop) :
  adds m Q -> (forall r ev, Q r ev -> R r ev) -> adds m R.
Proof. intros Hm HR t r t' E. destruct (Hm _ _ _ E) as (ev & -> & HQ). exists ev. split; [done|]. by apply HR. Qed.

(** *** Mounts that were made and undone *)

Definition made (e : Event) : bool := match e with ENmount _ _ (inl _) => true | _ => false end.
Definition no_mount (ev : list Event) : Prop := Forall (fun e => made e = false) ev.

(** Every mount made is undone by a forced unmount. *)
Definition undone (ev : list Event) : Prop :=
  no_mount ev \/ exists ev1 iov ro ev2 name ev3, no_mount ev1 /\ no_mount ev2 /\ no_mount ev3 /\
    ev = ev1 ++ [ENmount iov ro (inl tt)] ++ ev2 ++ [EUnmount name true true (inl tt)] ++ ev3.

(** *** The attributes of a directory *)

Definition attributes_of (s : FileStat) : DirectoryAttributes := mkAttributes (Z.land (sf_mode s) 4095) (sf_uid s) (sf_gid s).

(** The attributes of [d] after the calls [ev]; [kept] is what a change of the
    owner leaves of the mode. *)
Context (kept : Z -> Z) (d : Z).
Definition attributes_step (a : DirectoryAttributes) (e : Event) : DirectoryAttributes :=
  match e with
  | EFchown d' u g (inl _) => if (d' =? d)%Z then mkAttributes (kept (at_mode a)) u g else a
  | EFchmod d' m (inl _) => if (d' =? d)%Z then mkAttributes m (at_uid a) (at_gid a) else a
  | _ => a
  end.
Definition attributes_after (a : DirectoryAttributes) (ev : list Event) : DirectoryAttributes := fold_left attributes_step ev a.

Definition failed_change (ev : list Event) : Prop :=
  exists n, (exists u g, EFchown d u g (inr n) ∈ ev) \/ (exists m, EFchmod d m (inr n) ∈ ev).

Lemma attributes_app a ev1 ev2 : attributes_after a (ev1 ++ ev2) = attributes_after (attributes_after a ev1) ev2.
Proof. apply fold_left_app. Qed.

(** Events that neither change attributes nor make a mount. *)
Definition calm (ev : list Event) : Prop := no_mount ev /\ forall a, attributes_after a ev = a.
Lemma calm_nil : calm [].
Proof. split; [constructor|done]. Qed.
Lemma calm_app ev1 ev2 : calm ev1 -> calm ev2 -> calm (ev1 ++ ev2).
Proof. intros [H1 H2] [H3 H4]. split; [by apply Forall_app|]. intros a. by rewrite attributes_app, H2, H4. Qed.
Lemma plain_calm ev : all_plain ev -> calm ev.
Proof.
  intros Hp. split; [eapply Forall_impl; [exact Hp|]; by intros []|].
  unfold attributes_after. induction Hp as [|e ev He Hp IH]; intros a; [done|]. cbn. by destruct e.
Qed.

(** A postcondition to which plain calls in front make no difference. *)
Definition absorbs {A} (R : result A -> list Event -> Prop) : Prop :=
  (forall e ev, all_plain ev -> R (Err e) ev) /\ forall r ev1 ev2, all_plain ev1 -> R r ev2 -> R r (ev1 ++ ev2).

Lemma plain_bind_adds {A B} (m : M trace A) (f : A -> M trace B) R :
  (forall P, (forall t e, plain e = true -> P t -> P (t ++ [e])) -> keeps P m) -> absorbs R ->
  (forall a, adds (f a) R) -> adds (m ≫= f) R.
Proof.
  intros Hm [HR1 HR2] Hf. eapply adds_bind; [by apply adds_plain| |by apply HR1].
  intros a ev1 H1. eapply adds_mono; [apply Hf|]. intros r ev2. by apply HR2.
Qed.
Lemma lift_bind_adds {A B} (x : result A) (f : A -> M trace B) R :
  absorbs R -> (forall a, x = Ok a -> adds (f a) R) -> adds (lift x ≫= f) R.
Proof.
  intros [HR1 _] Hf t r t' E. destruct x as [a|e]; [by apply (Hf a eq_refl t)|].
  injection E as <- <-. exists []. rewrite app_nil_r. split; [done|]. apply HR1. constructor.
Qed.
Lemma calm_absorbs {A} (Q : A -> list Event -> Prop) :
  (forall a ev1 ev2, all_plain ev1 -> Q a ev2 -> Q a (ev1 ++ ev2)) ->
  absorbs (fun r ev => match r with Ok a => Q a ev | Err _ => calm ev end).
Proof.
  intros HQ. split; [by intros; apply plain_calm|]. intros [a|e] ev1 ev2 H1; [by apply HQ|].
  intros H2. apply calm_app; [by apply plain_calm|done].
Qed.

Lemma checked_calm {A} msg (a : trace -> answer A) event (Q : A -> list Event -> Prop) :
  (forall n, made (event (inr n)) = false) -> (forall x n, attributes_step x (event (inr n)) = x) ->
  (forall x, Q x [event (inl x)]) ->
  adds (checked_call msg a event) (fun r ev => match r with Ok x => Q x ev | Err _ => calm ev end).
Proof.
  intros H1 H2 HQ. eapply adds_mono; [apply adds_checked|]. intros [x|e] ev; [by intros ->|]. intros [n ->].
  split; [by constructor|]. intros y. apply H2.
Qed.

(** A file is mounted by the last call, and only if nothing fails. *)
Lemma mount_regular_file_adds source parent name u g ro :
  adds (mount_regular_file source parent name u g ro) (fun r ev =>
    match r with
    | Ok _ => exists ev1 iov, all_plain ev1 /\ ev = ev1 ++ [ENmount iov ro (inl tt)]
    | Err _ => calm ev
    end).
Proof.
  set (Q := fun (_ : unit) ev => exists ev1 iov, all_plain ev1 /\ ev = ev1 ++ [ENmount iov ro (inl tt)]).
  assert (absorbs (fun r ev => match r with Ok a => Q a ev | Err _ => calm ev end)) as HA.
  { apply calm_absorbs. intros [] ev1 ev2 H1 (ev3 & iov & H3 & ->). exists (ev1 ++ ev3), iov.
    split; [by apply Forall_app|by rewrite app_assoc]. }
  apply plain_bind_adds; [intros; by apply plain_open_or_create|done|]. intros f.
  apply plain_bind_adds; [intros; by apply plain_file_type|done|]. intros ty.
  destruct (negb _); [apply adds_lift, calm_nil|].
  apply plain_bind_adds; [intros; by apply plain_record|done|]. intros [].
  apply plain_bind_adds; [intros; by apply plain_checked|done|]. intros [].
  apply lift_bind_adds; [done|]. intros sp _. apply lift_bind_adds; [done|]. intros o _. unfold mount.
  destruct (Options.iov o) as [iov|]; [|apply adds_lift, calm_nil].
  apply checked_calm; [done..|]. intros []. exists [], iov. split; [constructor|done].
Qed.

(** The mount is undone by the last call of a rollback that succeeds. *)
Lemma rollback_adds parent name p : adds (rollback_regular_file_mount parent name p) (fun r ev =>
  match r with
  | Ok _ => exists ev1 n, all_plain ev1 /\ ev = ev1 ++ [EUnmount n true true (inl tt)]
  | Err _ => calm ev
  end).
Proof.
  set (Q := fun (_ : unit) ev => exists ev1 n, all_plain ev1 /\ ev = ev1 ++ [EUnmount n true true (inl tt)]).
  assert (absorbs (fun r ev => match r with Ok a => Q a ev | Err _ => calm ev end)) as HA.
  { apply calm_absorbs. intros [] ev1 ev2 H1 (ev3 & n & H3 & ->). exists (ev1 ++ ev3), n.
    split; [by apply Forall_app|by rewrite app_assoc]. }
  apply plain_bind_adds; [|done|].
  { intros P HP. apply keeps_context. by apply plain_open_entry. }
  intros f. eapply adds_mono; [apply (adds_context _ _ (fun r ev => match r with Ok a => Q a ev | Err _ => calm ev end))|].
  - apply plain_bind_adds; [intros; by apply plain_mounted_filesystem|done|]. intros m.
    apply plain_bind_adds; [intros; by apply plain_record|done|]. intros [].
    apply lift_bind_adds; [done|]. intros n _. apply checked_calm; [done..|]. intros []. exists [], n. split; [constructor|done].
  - intros r ev (o & -> & Ho). by destruct o.
Qed.

(** *** Protection and restoration *)

(** Nothing is mounted, and only [parent] is changed. *)
Definition only_parent (parent : Z) (ev : list Event) : Prop :=
  no_mount ev /\ (d <> parent -> forall a, attributes_after a ev = a).
Lemma only_parent_app parent ev1 ev2 : only_parent parent ev1 -> only_parent parent ev2 -> only_parent parent (ev1 ++ ev2).
Proof.
  intros [H1 H2] [H3 H4]. split; [by apply Forall_app|]. intros Hd a. by rewrite attributes_app, H2, H4.
Qed.
Lemma calm_only parent ev : calm ev -> only_parent parent ev.
Proof. intros [H1 H2]. by split. Qed.

(** A change of an owner or a mode, by its outcome. *)
Lemma chown_adds msg parent u g : adds (checked_call msg (a_fchown parent u g) (EFchown parent u g)) (fun r ev =>
  only_parent parent ev /\ (d = parent -> match r with
    | Ok _ => forall a, attributes_after a ev = mkAttributes (kept (at_mode a)) u g
    | Err _ => failed_change ev /\ calm ev end)).
Proof.
  eapply adds_mono; [apply adds_checked|]. intros [[]|e] ev.
  - intros ->. split; [|intros <-; intros a; cbn; by rewrite Z.eqb_refl].
    split; [by repeat constructor|]. intros Hd a. cbn. by destruct (Z.eqb_spec parent d).
  - intros [n ->]. assert (calm [EFchown parent u g (inr n)]) as Hc by by split; [repeat constructor|].
    split; [by apply calm_only|]. intros <-. split; [|done]. exists n. left. exists u, g. left.
Qed.
Lemma chmod_adds msg parent m : adds (checked_call msg (a_fchmod parent m) (EFchmod parent m)) (fun r ev =>
  only_parent parent ev /\ (d = parent -> match r with
    | Ok _ => forall a, attributes_after a ev = mkAttributes m (at_uid a) (at_gid a)
    | Err _ => failed_change ev /\ calm ev end)).
Proof.
  eapply adds_mono; [apply adds_checked|]. intros [[]|e] ev.
  - intros ->. split; [|intros <-; intros a; cbn; by rewrite Z.eqb_refl].
    split; [by repeat constructor|]. intros Hd a. cbn. by destruct (Z.eqb_spec parent d).
  - intros [n ->]. assert (calm [EFchmod parent m (inr n)]) as Hc by by split; [repeat constructor|].
    split; [by apply calm_only|]. intros <-. split; [|done]. exists n. right. exists m. left.
Qed.

Lemma failed_app_l ev1 ev2 : failed_change ev1 -> failed_change (ev1 ++ ev2).
Proof.
  intros [n [(u & g & H1)|(m & H1)]]; exists n; [left; exists u, g|right; exists m]; apply elem_of_app; by left.
Qed.
Lemma failed_app_r ev1 ev2 : failed_change ev2 -> failed_change (ev1 ++ ev2).
Proof.
  intros [n [(u & g & H1)|(m & H1)]]; exists n; [left; exists u, g|right; exists m]; apply elem_of_app; by right.
Qed.

(** The owner is given back first, so that the mode that is set last stays. *)
Lemma restore_attributes_adds parent a0 : adds (restore_directory_attributes parent a0) (fun r ev =>
  only_parent parent ev /\ (d = parent -> match r with
    | Ok _ => forall a, attributes_after a ev = a0 | Err _ => failed_change ev end)).
Proof.
  eapply adds_bind; [apply chown_adds| |].
  - intros [] ev1 [Ho1 H1]. eapply adds_mono; [apply chmod_adds|]. intros r ev2 [Ho2 H2].
    split; [by apply only_parent_app|]. intros Hd. specialize (H1 Hd). specialize (H2 Hd). destruct r as [[]|e].
    + intros a. rewrite attributes_app, H1, H2. by destruct a0.
    + apply failed_app_r, H2.
  - intros e ev [Ho H1]. split; [done|]. intros Hd. by apply H1.
Qed.

(** A restoration gives back the saved attributes, or a call of it failed. *)
Definition gives_back (p : RegularFileParentProtection) (r : result unit) (ev : list Event) : Prop :=
  match r with
  | Ok _ => forall a, attributes_after a ev = match p with ReadOnly => a | Locked a0 => a0 end
  | Err _ => failed_change ev
  end.

Lemma restore_adds p parent : adds (restore p parent) (fun r ev =>
  only_parent parent ev /\ (d = parent -> gives_back p r ev)).
Proof.
  destruct p as [|a0]; [|apply restore_attributes_adds]. apply adds_ret. split; [apply calm_only, calm_nil|done].
Qed.

(** [fstat] reports the attributes [a] of [d]. *)
Definition reported (a : DirectoryAttributes) (ev : list Event) : Prop :=
  forall st, EFstat d (inl st) ∈ ev -> attributes_of st = a.
Lemma reported_app a ev1 ev2 : reported a (ev1 ++ ev2) -> reported a ev1 /\ reported a ev2.
Proof. intros Hr. split; intros st Hst; apply Hr, elem_of_app; [by left|by right]. Qed.

Lemma reported_front a ev1 ev2 ev3 : reported a (ev1 ++ ev2 ++ ev3) -> reported a (ev1 ++ ev2).
Proof. rewrite app_assoc. by intros [? _]%reported_app. Qed.

Lemma directory_attributes_adds parent : adds (directory_attributes parent) (fun r ev =>
  calm ev /\ match r with Ok a0 => forall a, d = parent -> reported a ev -> a0 = a | Err _ => True end).
Proof.
  eapply adds_bind; [apply adds_plain; intros; by apply plain_file_type| |intros e ev H1; split; [by apply plain_calm|done]].
  intros ty ev1 H1%plain_calm. destruct (negb _); [apply adds_lift; rewrite app_nil_r; by split|].
  eapply adds_bind; [apply adds_checked| |].
  - intros st ev2 ->. apply adds_ret. rewrite app_nil_r. split; [apply calm_app; [done|]; by split; [repeat constructor|]|].
    intros a Hd Hr. subst parent. apply (Hr st), elem_of_app. right. by left.
  - intros e ev2 [n ->]. split; [|done]. apply calm_app; [done|]. by split; [repeat constructor|].
Qed.

Lemma protect_adds parent : adds (protect_regular_file_parent parent) (fun r ev =>
  only_parent parent ev /\ forall a, d = parent -> reported a ev -> match r with
    | Ok ReadOnly => attributes_after a ev = a
    | Ok (Locked a0) => a0 = a
    | Err _ => attributes_after a ev = a \/ failed_change ev
    end).
Proof.
  eapply adds_bind; [apply directory_attributes_adds| |intros e ev [H1 _]; split; [by apply calm_only|left; by apply H1]].
  intros a0 ev1 [H1 H1']. eapply adds_bind; [apply adds_ask| |by intros e ev (x & [=] & _)].
  intros x ev2 (x' & [= <-] & ->). destruct x as [[]|n].
  - eapply adds_bind; [apply adds_catch, chmod_adds| |by intros e ev (o & [=] & _)].
    intros o ev3 (o' & [= <-] & Ho3 & H3).
    assert (only_parent parent [EFchown parent 0 0 (inl tt)]) as Ho2.
    { split; [by repeat constructor|]. intros Hd a. cbn. by destruct (Z.eqb_spec parent d). }
    destruct o as [[]|le].
    + apply adds_ret. rewrite app_nil_r. split; [by repeat apply only_parent_app; [apply calm_only|..]|].
      intros a Hd [Hr _]%reported_app. by apply H1'.
    + eapply adds_bind; [apply adds_catch, restore_attributes_adds| |by intros e ev (o & [=] & _)].
      intros o4 ev4 (o' & [= <-] & Ho4 & H4).
      assert (only_parent parent (ev1 ++ [EFchown parent 0 0 (inl tt)] ++ ev3 ++ ev4)) as Hall
        by (repeat apply only_parent_app; [by apply calm_only|done..]).
      destruct o4; apply adds_fail; rewrite app_nil_r; (split; [done|]); intros b Hd [Hr _]%reported_app; right;
        apply failed_app_r, failed_app_r, failed_app_l; by apply H3.
  - assert (calm [EFchown parent 0 0 (inr n)]) as H2 by by split; [repeat constructor|].
    eapply adds_bind; [apply (adds_plain (if (n =? EROFS)%Z then mount_is_read_only parent else mret false))| |].
    + intros P HP. apply keeps_if; [|apply keeps_ret]. apply keeps_fmap. by apply plain_checked.
    + intros b ev3 H3%plain_calm. assert (calm (ev1 ++ [EFchown parent 0 0 (inr n)] ++ ev3)) as Hall by by repeat apply calm_app.
      destruct b; [apply adds_ret|apply adds_lift]; rewrite app_nil_r; (split; [by apply calm_only|]); intros a Hd _; [|left]; apply Hall.
    + intros e ev3 H3%plain_calm. assert (calm (ev1 ++ [EFchown parent 0 0 (inr n)] ++ ev3)) as Hall by by repeat apply calm_app.
      split; [by apply calm_only|]. intros a Hd _. left. apply Hall.
Qed.

(** *** The whole of a file mount *)

(** The attributes [x] before the restoration are to become [a]. *)
Definition to_restore (p : RegularFileParentProtection) (parent : Z) (x a : DirectoryAttributes) : Prop :=
  (d <> parent -> x = a) /\ (d = parent -> match p with ReadOnly => x = a | Locked a0 => a0 = a end).

Lemma restored p parent r ev x a :
  only_parent parent ev -> (d = parent -> gives_back p r ev) ->
  to_restore p parent x a -> attributes_after x ev = a \/ (failed_change ev /\ exists e : error, r = Err (A := unit) e).
Proof.
  intros [_ Ho] Hr [H1 H2]. destruct (decide (d = parent)) as [Hd|Hd].
  - specialize (Hr Hd). specialize (H2 Hd). destruct r as [[]|e]; [left|eauto]. rewrite Hr. by destruct p.
  - left. by rewrite Ho, H1.
Qed.

Definition tracked (r : result RegularFileMountCompletion) : Prop := match r with Ok Clean => False | _ => True end.

Lemma finish_adds m p parent rollback :
  adds m (fun r ev => match r with
    | Ok _ => exists ev1 iov ro, all_plain ev1 /\ ev = ev1 ++ [ENmount iov ro (inl tt)] | Err _ => calm ev end) ->
  adds rollback (fun r ev => match r with
    | Ok _ => exists ev1 n, all_plain ev1 /\ ev = ev1 ++ [EUnmount n true true (inl tt)] | Err _ => calm ev end) ->
  adds (finish_regular_file_mount m (restore p parent) rollback) (fun r ev =>
    (match r with Ok _ => exists e, e ∈ ev /\ made e = true | Err _ => undone ev end) /\
    forall x a, to_restore p parent x a -> attributes_after x ev = a \/ (failed_change ev /\ tracked r)).
Proof.
  intros Hm Hb. eapply adds_bind; [by apply adds_catch| |by intros e ev (o & [=] & _)].
  intros o1 ev1 (o & [= <-] & H1). destruct o1 as [[]|me].
  - destruct H1 as (ev0 & iov & ro & Hp & ->). assert (forall y, attributes_after y (ev0 ++ [ENmount iov ro (inl tt)]) = y) as Hsame.
    { intros y. rewrite attributes_app. cbn. by apply plain_calm. }
    eapply adds_bind; [apply adds_catch, restore_adds| |by intros e ev (o & [=] & _)].
    intros o2 ev2 (o & [= <-] & Ho2 & H2). destruct o2 as [[]|re].
    { apply adds_ret. rewrite app_nil_r. split.
      - eexists. split; [apply elem_of_app; left; apply elem_of_app; right; by left|done].
      - intros x a Hx. rewrite attributes_app, Hsame. destruct (restored p parent (Ok tt) _ _ _ Ho2 H2 Hx) as [?|(_ & e & [=])]; by left. }
    eapply adds_bind; [by apply adds_catch| |by intros e ev (o & [=] & _)]. intros o3 ev3 (o & [= <-] & H3).
    eapply adds_bind; [apply adds_catch, restore_adds| |by intros e ev (o & [=] & _)]. intros o4 ev4 (o & [= <-] & Ho4 & H4).
    assert (forall x a r, to_restore p parent x a -> tracked r ->
      attributes_after x ((ev0 ++ [ENmount iov ro (inl tt)]) ++ ev2 ++ ev3 ++ ev4) = a \/
      (failed_change ((ev0 ++ [ENmount iov ro (inl tt)]) ++ ev2 ++ ev3 ++ ev4) /\ tracked r)) as Hattr.
    { intros x a r Hx Ht. destruct (decide (d = parent)) as [Hd|Hd].
      - right. split; [|done]. apply failed_app_r, failed_app_l. by apply H2.
      - left. rewrite attributes_app, Hsame, !attributes_app. rewrite (proj2 Ho2 Hd), (proj2 Ho4 Hd).
        assert (forall y, attributes_after y ev3 = y) as ->; [|by apply Hx].
        intros y. destruct o3; [|by apply H3]. destruct H3 as (ev5 & n & H5 & ->). rewrite attributes_app. cbn. by apply plain_calm. }
    assert (exists e, e ∈ (ev0 ++ [ENmount iov ro (inl tt)]) ++ ev2 ++ ev3 ++ ev4 /\ made e = true) as Hmade.
    { eexists. split; [apply elem_of_app; left; apply elem_of_app; right; by left|done]. }
    destruct o3 as [[]|be]; [|apply adds_ret; rewrite app_nil_r; split; [done|intros; by apply Hattr]].
    destruct H3 as (ev5 & n & H5 & ->).
    assert (undone ((ev0 ++ [ENmount iov ro (inl tt)]) ++ ev2 ++ (ev5 ++ [EUnmount n true true (inl tt)]) ++ ev4)) as Hun.
    { right. exists ev0, iov, ro, (ev2 ++ ev5), n, ev4. split_and!; [by apply plain_calm| |apply Ho4|by rewrite <- !app_assoc].
      apply Forall_app. split; [apply Ho2|by apply plain_calm]. }
    destruct o4 as [[]|fe]; [apply adds_fail|apply adds_lift]; rewrite app_nil_r; (split; [done|]); intros; by apply Hattr.
  - eapply adds_bind; [apply adds_catch, restore_adds| |by intros e ev (o & [=] & _)].
    intros o2 ev2 (o & [= <-] & Ho2 & H2). destruct H1 as [H1 H1'].
    assert (forall x a, to_restore p parent x a -> attributes_after x (ev1 ++ ev2) = a \/ failed_change (ev1 ++ ev2)) as Hattr.
    { intros x a Hx. rewrite attributes_app, H1'. destruct (restored p parent o2 _ _ _ Ho2 H2 Hx) as [?|[? _]]; auto using failed_app_r. }
    destruct o2 as [[]|re]; apply adds_fail; rewrite app_nil_r; (split; [left; apply Forall_app; split; [done|apply Ho2]|]);
      intros x a Hx; (destruct (Hattr x a Hx); [by left|right; by split]).
Qed.

Lemma file_mount_adds source root_path root target u g ro :
  adds (nmount_regular_file_nullfs source root_path root target u g ro) (fun r ev =>
    (match r with Ok _ => exists e, e ∈ ev /\ made e = true | Err _ => undone ev end) /\
    forall a, reported a ev -> attributes_after a ev = a \/
      (failed_change ev /\ match r with Ok _ => exists m, EWarn m ∈ ev | Err _ => True end)).
Proof.
  eapply adds_bind; [apply adds_plain; intros; by apply plain_prepare| |].
  2: { intros e ev H1%plain_calm. split; [left; apply H1|]. intros a _. left. apply H1. }
  intros [parent name] ev1 H1%plain_calm. eapply adds_bind; [apply protect_adds| |].
  2: { intros e ev2 [Ho2 H2]. split; [left; apply Forall_app; split; [apply H1|apply Ho2]|]. intros a [_ Hr]%reported_app.
       rewrite attributes_app, (proj2 H1). destruct (decide (d = parent)) as [Hd|Hd]; [|left; by apply Ho2].
       destruct (H2 a Hd Hr); [by left|right]. split; [by apply failed_app_r|done]. }
  intros p ev2 [Ho2 H2]. eapply adds_bind; [apply finish_adds; [|apply rollback_adds]| |].
  { eapply adds_mono; [apply mount_regular_file_adds|]. intros [[]|e] ev; [|done]. intros (ev0 & iov & ? & ->). by exists ev0, iov, ro. }
  - intros c ev3 [(e & He & Hm) H3].
    assert (forall a, reported a (ev1 ++ ev2) -> attributes_after a (ev1 ++ ev2 ++ ev3) = a \/ (failed_change (ev1 ++ ev2 ++ ev3) /\ tracked (Ok c))) as Hattr.
    { intros a [_ Hr]%reported_app. rewrite !attributes_app, (proj2 H1). destruct (H3 (attributes_after a ev2) a) as [?|[? ?]].
      - split; [intros; by apply Ho2|]. intros Hd. by specialize (H2 a Hd Hr).
      - by left.
      - right. split; [by do 2 apply failed_app_r|done]. }
    assert (e ∈ ev1 ++ ev2 ++ ev3) as He' by (do 2 (apply elem_of_app; right); done).
    destruct c as [|details].
    + apply adds_ret. rewrite app_nil_r. split; [by exists e|]. intros a Hr.
      destruct (Hattr a (reported_front _ _ _ _ Hr)) as [?|[_ []]]; by left.
    + apply adds_record. split.
      * exists e. split; [|done]. do 2 (apply elem_of_app; right). apply elem_of_app. by left.
      * intros a Hr%reported_front. rewrite (app_assoc ev2), (app_assoc ev1), attributes_app.
        cbn [attributes_after fold_left attributes_step].
        destruct (Hattr a Hr) as [?|[? _]]; [by left|]. right. split; [by apply failed_app_l|].
        eexists. apply elem_of_app. right. by left.
  - intros e ev3 [Hun H3]. split.
    + destruct Hun as [Hn|(e1 & iov & ro' & e2 & n & e3 & Hn1 & Hn2 & Hn3 & ->)].
      * left. repeat (apply Forall_app; split); [apply H1|apply Ho2|done].
      * right. exists (ev1 ++ ev2 ++ e1), iov, ro', e2, n, e3. split_and!; [|done..|by rewrite <- !app_assoc].
        repeat (apply Forall_app; split); [apply H1|apply Ho2|done].
    + intros a [_ Hr]%reported_front%reported_app. rewrite !attributes_app, (proj2 H1).
      destruct (H3 (attributes_after a ev2) a) as [?|[? _]].
      * split; [intros; by apply Ho2|]. intros Hd. by specialize (H2 a Hd Hr).
      * by left.
      * right. split; [by do 2 apply failed_app_r|done].
Qed.
End Outcome.

(** ** Properties: a file mount *)

Section FileMount.
Context `{System} (source root_path : path) (root : Z) (target : path) (u g : Z) (ro : bool).

(** When the helper reports success for a file, the file has been mounted; when
    it reports a failure, no mount is left: either none was made, or it has been
    unmounted again.  So every mount that exists is one the launcher tracks. *)
Theorem file_mount_is_tracked t r ev :
  nmount_regular_file_nullfs source root_path root target u g ro t = (r, t ++ ev) ->
  match r with Ok _ => exists e, e ∈ ev /\ made e = true | Err _ => undone ev end.
Proof.
  intros E. destruct (file_mount_adds (fun m => m) 0 source root_path root target u g ro _ _ _ E) as (ev' & E' & Hq & _).
  by apply app_inv_head in E' as ->.
Qed.

(** C36.  The directory of the mount gets back exactly the owner, group and mode that
    [fstat] reported, whatever a change of the owner does to the mode; unless a
    call that changes them fails, and then the helper fails or prints a
    warning. *)
Theorem parent_attributes_restored (kept : Z -> Z) d a t r ev :
  nmount_regular_file_nullfs source root_path root target u g ro t = (r, t ++ ev) -> reported d a ev ->
  attributes_after kept d a ev = a \/
  (failed_change d ev /\ match r with Ok _ => exists m, EWarn m ∈ ev | Err _ => True end).
Proof.
  intros E Hr. destruct (file_mount_adds kept d source root_path root target u g ro _ _ _ E) as (ev' & E' & _ & Hq).
  apply app_inv_head in E' as ->. by apply Hq.
Qed.
End FileMount.

(** ** Witnesses *)

Import SampleSystem.

Lemma helper_serves_command_witness :
  let r := Nullfs "/home/doc.txt" (Some (1, 2)%Z) true in
  let args := ["nullfs"; "/run/ff/chroots/app/1"; "1"; "9"; "tmp/doc.txt"; "/home/doc.txt"; "1"; "2"; "ro"] in
  (run_helper args []).1 = Ok tt /\ run_helper args [] = serve "/run/ff/chroots/app/1" (1, 9)%Z "tmp/doc.txt" r [].
Proof.
  split; [vm_compute; reflexivity|].
  refine (proj2 (helper_serves_command "/run/ff/chroots/app/1" (1, 9)%Z "tmp/doc.txt"
    (Nullfs "/home/doc.txt" (Some (1, 2)%Z) true) HELPER_PATH _ [] _ _ _)).
  - unfold is_identity. cbn. lia.
  - cbn. unfold is_identity. cbn. lia.
  - vm_compute. reflexivity.
Defined.

Definition sample_mount := nmount_regular_file_nullfs "/home/doc.txt" "/r" 3 "tmp/doc.txt" 1001 1001 true [].

Lemma file_mount_is_tracked_witness : sample_mount.1 = Ok tt /\ exists e, e ∈ sample_mount.2 /\ made e = true.
Proof.
  split; [vm_compute; reflexivity|].
  apply (file_mount_is_tracked "/home/doc.txt" "/r" 3 "tmp/doc.txt" 1001 1001 true [] (Ok tt) sample_mount.2).
  vm_compute. reflexivity.
Defined.

(** The parent is the descriptor 7 here. *)
Lemma parent_attributes_restored_witness :
  attributes_after (fun m => Z.land m 511) 7 (mkAttributes 448 1001 1001) sample_mount.2 = mkAttributes 448 1001 1001 \/
  (failed_change 7 sample_mount.2 /\ exists m, EWarn m ∈ sample_mount.2).
Proof.
  apply (parent_attributes_restored "/home/doc.txt" "/r" 3 "tmp/doc.txt" 1001 1001 true
    (fun m => Z.land m 511) 7 (mkAttributes 448 1001 1001) [] (Ok tt) sample_mount.2).
  - vm_compute. reflexivity.
  - intros st Hst. vm_compute in Hst.
    repeat (apply elem_of_cons in Hst as [E|Hst]; [first [discriminate E | injection E as ->; vm_compute; reflexivity]|]).
    by apply not_elem_of_nil in Hst.
Defined.
