(* ===== verification/MountConfinement.v ===== *)
(** * MountConfinement: the mount helper's calls are confined

    Every call of the helper of SecureMount that changes something (makes a
    directory or a file, changes an owner or a mode, mounts or unmounts) acts on
    a place that was reached by descriptors from the sandbox root named in its
    arguments, along the components of the target and never through a symbolic
    link, after that root was found to be a private sandbox instance of the
    caller; and the mount itself is one of four kinds.  Nothing is assumed of
    the kernel's answers. *)
From Stdlib Require Import Ascii String NArith ZArith Lia.
From stdpp Require Import base list strings.
From S2P Require Import Prelude Effects RustStr RustNum RustPath MountCalls SecureMount.

(** ** What a call has to be justified by *)

Definition name_of (c : component) : option string := match c with Normal n => Some n | _ => None end.
Definition names (p : path) : list string := omap name_of (components p).

(** The flags of [openat] that fail on a symbolic link and stay beneath the
    directory: for a directory, for anything, and for a file that must not exist. *)
Definition no_link_dir : list OpenFlag := [O_RDONLY; O_DIRECTORY; O_CLOEXEC; O_NOFOLLOW; O_RESOLVE_BENEATH].
Definition no_link_entry : list OpenFlag := [O_RDONLY; O_CLOEXEC; O_NOFOLLOW; O_RESOLVE_BENEATH].
Definition new_file : list OpenFlag := [O_RDWR; O_CREAT; O_EXCL; O_CLOEXEC; O_NOFOLLOW; O_RESOLVE_BENEATH].

(** [d] was opened from [d0] by one call per name, each of which fails on a
    symbolic link and on anything but a directory. *)
Inductive walked (t : trace) (d0 : Z) : list string -> Z -> Prop :=
| walk_here : walked t d0 [] d0
| walk_dup l d d' : walked t d0 l d -> EDup d (inl d') ∈ t -> walked t d0 l d'
| walk_step l d n d' : walked t d0 l d -> EOpenAt d n no_link_dir 0 (inl d') ∈ t -> walked t d0 (l ++ [n]) d'.

(** [d] was opened from the root of the file system, along an absolute path. *)
Definition opened_dir (t : trace) (p : path) (d : Z) : Prop :=
  is_absolute p = true /\ exists s, EOpen "/" [O_RDONLY; O_DIRECTORY; O_CLOEXEC] (inl s) ∈ t /\ walked t s (names p) d.

(** The working directory. *)
Definition cwd_step (c : option Z) (e : Event) : option Z :=
  match e with EFchdir d (inl _) => Some d | _ => c end.
Definition cwd (t : trace) : option Z := fold_left cwd_step t None.

(** The helper runs as root for [uid]. *)
Definition called_by (t : trace) (uid : Z) : Prop := EGeteuid 0 ∈ t /\ EGetuid uid ∈ t /\ uid <> 0%Z.

(** [fd] is the directory [p], which has the expected identity; its canonical
    form has the directory [runtime] above it, by which nobody but [uid] gets
    to it. *)
Definition identified (t : trace) (fd : Z) (device inode : string) : Prop :=
  exists i st, parse_file_identity device inode = Ok i /\ EFstat fd (inl st) ∈ t /\
    sf_device st = id_device i /\ sf_inode st = id_inode i.
Definition private_dir (t : trace) (runtime : path) (fd uid : Z) : Prop :=
  exists m st, EMetadata runtime (inl m) ∈ t /\ sf_uid m = uid /\ Z.land (sf_mode m) 63 = 0%Z /\
    EFstat fd (inl st) ∈ t /\ sf_uid st = uid.

Definition sandbox_root (t : trace) (root device inode : string) (uid fd : Z) : Prop :=
  called_by t uid /\ opened_dir t root fd /\ identified t fd device inode /\
  (exists canonical app chroots runtime, ECanonicalize root (inl canonical) ∈ t /\ parent canonical = Some app /\
     parent app = Some chroots /\ parent chroots = Some runtime /\ file_name_of chroots = Some "chroots" /\
     private_dir t runtime fd uid) /\
  exists info st st', EOpenAt fd ".flatpak-info" [O_RDONLY; O_CLOEXEC; O_NOFOLLOW] 0 (inl info) ∈ t /\
    EFstat info (inl st) ∈ t /\ sf_uid st = uid /\ EFstat info (inl st') ∈ t /\ type_of_mode (sf_mode st') = S_IFREG.

(** The source of a nullfs mount was opened without following a symbolic link,
    and has the expected identity unless it is in the staging directory. *)
Definition source_checked (t : trace) (root : path) (source device inode : string) : Prop :=
  exists q n dir d, parent source = Some q /\ file_name_of source = Some n /\ opened_dir t q dir /\
    EOpenAt dir n no_link_entry 0 (inl d) ∈ t /\
    (path_starts_with source (join_path root PRIVATE_SOURCE_ROOT) = true \/ identified t d device inode).

(** The owner and the mode that the helper last gave a directory. *)
Definition owner_step (d : Z) (o : option (Z * Z)) (e : Event) : option (Z * Z) :=
  match e with EFchown d' u g (inl _) => if (d' =? d)%Z then Some (u, g) else o | _ => o end.
Definition mode_step (d : Z) (o : option Z) (e : Event) : option Z :=
  match e with EFchmod d' m (inl _) => if (d' =? d)%Z then Some m else o | _ => o end.
Definition owner_given (d : Z) (t : trace) : option (Z * Z) := fold_left (owner_step d) t None.
Definition mode_given (d : Z) (t : trace) : option Z := fold_left (mode_step d) t None.

(** Nobody but root changes the entries of [d]: it is root's and nobody may
    write to it, or it is on a read-only file system. *)
Definition locked (d : Z) (t : trace) : Prop :=
  (owner_given d t = Some (0, 0)%Z /\ exists m, mode_given d t = Some m /\ Z.land m 146 = 0%Z) \/
  (EFchown d 0 0 (inr EROFS) ∈ t /\ exists s, EFstatfs d (inl s) ∈ t /\ Z.odd (f_flags s) = true).

Definition nullfs_vector (source : path) (name : string) : list (option string) :=
  vector [("fstype", Some "nullfs"); ("fspath", Some name); ("target", Some source); ("nocover", None)].

(** The mounts an operation with the arguments [rest] may make in [d], which was
    reached from the root by [l]. *)
Inductive mount_allowed (t : trace) (root : path) (target l : list string) (d : Z) :
    string -> list string -> list (option string) -> bool -> Prop :=
| allow_nullfs_dir source device inode (ro : bool) :
    source_checked t root source device inode -> l = target ->
    mount_allowed t root target l d "nullfs" [source; device; inode; if ro then "ro" else "rw"] (nullfs_vector source ".") ro
| allow_nullfs_file source device inode (ro : bool) n :
    source_checked t root source device inode -> l ++ [n] = target -> locked d t ->
    mount_allowed t root target l d "nullfs" [source; device; inode; if ro then "ro" else "rw"] (nullfs_vector source n) ro
| allow_tmpfs options opts :
    l = target -> Forall (fun o => o.1 = "mode" \/ o.1 = "uid" \/ o.1 = "gid") opts ->
    mount_allowed t root target l d "tmpfs" [options]
      (vector ([("fstype", Some "tmpfs"); ("fspath", Some "."); ("from", Some "tmpfs"); ("nocover", None)] ++ opts)) false
| allow_special fs :
    l = target -> fs ∈ ["devfs"; "fdescfs"; "linprocfs"; "linsysfs"] ->
    mount_allowed t root target l d "special" [fs; fs]
      (vector [("fstype", Some fs); ("fspath", Some "."); ("from", Some fs)]) false.

(** Unmounting: the file system that is mounted exactly at the target, or the
    directory of that name, relative to the root. *)
Definition unmount_allowed (t : trace) (root target : path) (l : list string) (d : Z) (name : string) (by_fsid : bool) : Prop :=
  if by_fsid
  then exists n f st, l ++ [n] = names target /\ EOpenAt d n no_link_entry 0 (inl f) ∈ t /\ EFstatfs f (inl st) ∈ t /\
         f_mntonname st = join_path root target /\ name = fsid_name (f_fsid st)
  else l = [] /\ cwd t = Some d /\ name = target /\ components target = Normal <$> names target.

Definition confined (operation root device inode target : string) (rest : list string) (t : trace) (e : Event) : Prop :=
  exists uid fd l d, sandbox_root t root device inode uid fd /\ walked t fd l d /\
  match e with
  | EMkdirAt d' n mode _ => d' = d /\ mode = 493%Z /\ l ++ [n] `prefix_of` names target
  | EFchownAt d' n u g _ => d' = d /\ l ++ [n] `prefix_of` names target /\
      (EMkdirAt d n 493 (inl tt) ∈ t \/ exists f, EOpenAt d n new_file 384 (inl f) ∈ t) /\
      exists st, EFstat fd (inl st) ∈ t /\ u = sf_uid st /\ g = sf_gid st
  | EOpenAt d' n flags mode _ => d' = d /\ flags = new_file /\ mode = 384%Z /\ l ++ [n] = names target
  | EFchown d' _ _ _ | EFchmod d' _ _ => d' = d /\ (l = names target \/ exists n, l ++ [n] = names target)
  | ENmount iov ro _ => cwd t = Some d /\ mount_allowed t root (names target) l d operation rest iov ro
  | EUnmount name by_fsid _ _ => unmount_allowed t root target l d name by_fsid
  | _ => False
  end.

(** The one call of the recovery: the mount of a document of a sandbox instance
    that is gone. *)
Definition instance_missing (t : trace) (fd : Z) (app instance : string) : Prop :=
  EDup fd (inr ENOENT) ∈ t \/
  exists l d n, walked t fd l d /\ l ++ [n] `prefix_of` names (join_path app instance) /\
    EOpenAt d n no_link_dir 0 (inr ENOENT) ∈ t.

Definition orphan_unmount (chroots device inode mountpoint : string) (t : trace) (e : Event) : Prop :=
  exists uid fd canonical runtime relative app instance owner table mounts st force r,
    called_by t uid /\ opened_dir t chroots fd /\ identified t fd device inode /\
    ECanonicalize chroots (inl canonical) ∈ t /\ file_name_of canonical = Some "chroots" /\
    parent canonical = Some runtime /\ private_dir t runtime fd uid /\
    strip_path_prefix mountpoint canonical = Some relative /\ document_parts relative = Ok (app, instance, owner) /\
    (from_utf8 owner ≫= parse_u32) = Some uid /\ instance_missing t fd app instance /\
    EGetmntinfo table ∈ t /\ table.1.2 = Some mounts /\ st ∈ mounts /\
    f_mntonname st = mountpoint /\ f_fstypename st = "nullfs" /\
    e = EUnmount (fsid_name (f_fsid st)) true force r.

(** Calls that change something outside of the helper. *)
Definition privileged (e : Event) : bool :=
  match e with
  | EMkdirAt _ _ _ _ | EFchownAt _ _ _ _ _ | EFchown _ _ _ _ | EFchmod _ _ _ | ENmount _ _ _ | EUnmount _ _ _ _ => true
  | EOpenAt _ _ flags _ _ => bool_decide (O_CREAT ∈ flags)
  | _ => false
  end.

Definition justified (args : list string) (t : trace) (e : Event) : Prop :=
  privileged e = true ->
  (exists operation root device inode target rest,
     args = operation :: root :: device :: inode :: target :: rest /\ confined operation root device inode target rest t e) \/
  (exists chroots device inode mountpoint mode,
     args = ["recover-orphaned-document-unmount"; chroots; device; inode; mountpoint; mode] /\
     orphan_unmount chroots device inode mountpoint t e).

(** ** Lemmas: rules for the justification of calls *)

Section Rules.
Context `{System} (G : trace -> Event -> Prop).

Definition guarded (t : trace) : Prop := forall pre e post, t = pre ++ e :: post -> G pre e.

(** From the trace [t], [m] only makes calls that [G] allows, and a value it
    returns satisfies [Q]. *)
Definition runs {A} (t : trace) (m : M trace A) (Q : A -> trace -> Prop) : Prop :=
  forall r t', guarded t -> m t = (r, t') ->
    guarded t' /\ t `prefix_of` t' /\ match r with Ok a => Q a t' | Err _ => True end.

Lemma guarded_snoc t e : guarded t -> G t e -> guarded (t ++ [e]).
Proof.
  intros Ht He pre e' post E. destruct (decide (post = [])) as [->|Hp].
  - apply app_inj_tail in E as [-> ->]. done.
  - destruct (exists_last Hp) as (post' & x & ->). rewrite app_comm_cons, app_assoc in E.
    apply app_inj_tail in E as [-> _]. by eapply Ht.
Qed.

Lemma runs_ret {A} t (a : A) Q : Q a t -> runs t (mret a) Q.
Proof. intros HQ r t' Ht [= <- <-]. done. Qed.
Lemma runs_lift {A} t (r : result A) Q : (forall a, r = Ok a -> Q a t) -> runs t (lift r) Q.
Proof. intros HQ r' t' Ht [= <- <-]. split_and!; [done..|]. destruct r; [by apply HQ|done]. Qed.
Lemma runs_fail {A} t e (Q : A -> trace -> Prop) : runs t (fail e) Q.
Proof. intros r' t' Ht [= <- <-]. done. Qed.
Lemma runs_bind {A B} t (m : M trace A) (f : A -> M trace B) Q R :
  runs t m Q -> (forall a t1, t `prefix_of` t1 -> Q a t1 -> runs t1 (f a) R) -> runs t (m ≫= f) R.
Proof.
  intros Hm Hf r t' Ht (o & t1 & E & Hr)%M_bind_cases. destruct (Hm _ _ Ht E) as (Ht1 & Hp & HQ).
  destruct Hr as [(a & -> & Hr)|(e & -> & -> & ->)]; [|done].
  destruct (Hf a t1 Hp HQ _ _ Ht1 Hr) as (? & ? & ?). split_and!; [done|by etrans|done].
Qed.
Lemma runs_fmap {A B} t (m : M trace A) (f : A -> B) Q : runs t m (fun a => Q (f a)) -> runs t (f <$> m) Q.
Proof.
  intros Hm r t' Ht E. unfold fmap, M_fmap in E. destruct (m t) as [o t1] eqn:Em.
  destruct (Hm _ _ Ht Em) as (? & ? & HQ). destruct o; injection E as <- <-; done.
Qed.
Lemma runs_mono {A} t (m : M trace A) (Q R : A -> trace -> Prop) :
  runs t m Q -> (forall a t', t `prefix_of` t' -> Q a t' -> R a t') -> runs t m R.
Proof.
  intros Hm HR r t' Ht E. destruct (Hm _ _ Ht E) as (? & ? & ?). split_and!; [done..|]. destruct r; [by apply HR|done].
Qed.
Lemma runs_context {A} t msg (m : M trace A) Q : runs t m Q -> runs t (in_context msg m) Q.
Proof.
  intros Hm r t' Ht E. unfold in_context in E. destruct (m t) as [o t1] eqn:Em.
  destruct (Hm _ _ Ht Em) as (? & ? & ?). destruct o; injection E as <- <-; done.
Qed.
Lemma runs_catch {A} t (m : M trace A) Q : runs t m Q ->
  runs t (catch m) (fun o t' => match o with Ok a => Q a t' | Err _ => True end).
Proof.
  intros Hm r t' Ht E. unfold catch in E. destruct (m t) as [o t1] eqn:Em.
  destruct (Hm _ _ Ht Em) as (? & ? & ?). injection E as <- <-; done.
Qed.
Lemma runs_ask {A} t (a : trace -> A) (event : A -> Event) Q :
  (forall r, G t (event r)) -> (forall r, Q r (t ++ [event r])) -> runs t (ask a event) Q.
Proof. intros HG HQ r t' Ht [= <- <-]. split_and!; [by apply guarded_snoc|by eexists|done]. Qed.
Lemma runs_checked {A} t msg (a : trace -> answer A) (event : answer A -> Event) Q :
  (forall r, G t (event r)) -> (forall x, Q x (t ++ [event (inl x)])) -> runs t (checked_call msg a event) Q.
Proof.
  intros HG HQ. eapply runs_bind; [apply (runs_ask _ _ _ (fun r t' => t' = t ++ [event r])); done|].
  intros r t1 _ ->. apply runs_lift. intros x Hx. destruct r as [y|n]; [|done]. injection Hx as ->. apply HQ.
Qed.
Lemma runs_record t e Q : G t e -> Q tt (t ++ [e]) -> runs t (record e) Q.
Proof. intros HG HQ r t' Ht [= <- <-]. split_and!; [by apply guarded_snoc|by eexists|done]. Qed.
Lemma runs_fold_each {A B} t (f : B -> A -> M trace B) l b (I : list A -> B -> trace -> Prop) :
  I [] b t ->
  (forall l1 a l2 b t1, l = l1 ++ a :: l2 -> t `prefix_of` t1 -> I l1 b t1 -> runs t1 (f b a) (I (l1 ++ [a]))) ->
  runs t (fold_each f l b) (I l).
Proof.
  intros Hb Hf. enough (forall l2 l1 b t1, l = l1 ++ l2 -> t `prefix_of` t1 -> I l1 b t1 ->
    runs t1 (fold_each f l2 b) (I l)) as Hl by (by apply (Hl l [])).
  induction l2 as [|a l2 IH]; intros l1 b1 t1 -> Hp HI; cbn [fold_each].
  - apply runs_ret. by rewrite app_nil_r.
  - eapply runs_bind; [by eapply Hf|]. intros b2 t2 Hp2 HI2. apply (IH (l1 ++ [a])); [by rewrite <- app_assoc|by etrans|done].
Qed.
Lemma runs_keeps {A} (P : trace -> Prop) t (m : M trace A) Q :
  keeps P m -> P t -> runs t m Q -> runs t m (fun a t' => Q a t' /\ P t').
Proof.
  intros HP Ht Hm r t' Hg E. destruct (Hm _ _ Hg E) as (? & ? & ?). specialize (HP t Ht). rewrite E in HP.
  split_and!; [done..|]. destruct r; done.
Qed.
End Rules.

(** ** Lemmas: facts about a trace stay true *)

Lemma elem_of_prefix {A} (t t' : list A) e : e ∈ t -> t `prefix_of` t' -> e ∈ t'.
Proof. intros He [k ->]. apply elem_of_app. by left. Qed.
Lemma walked_mono t t' d0 l d : walked t d0 l d -> t `prefix_of` t' -> walked t' d0 l d.
Proof.
  intros Hw Hp. induction Hw as [|l d d' Hw IH He|l d n d' Hw IH He];
    [constructor|eapply walk_dup|eapply walk_step]; eauto using elem_of_prefix.
Qed.
Lemma opened_dir_mono t t' p d : opened_dir t p d -> t `prefix_of` t' -> opened_dir t' p d.
Proof. intros (Ha & s & He & Hw) Hp. split; [done|]. exists s. eauto using elem_of_prefix, walked_mono. Qed.
Lemma called_by_mono t t' uid : called_by t uid -> t `prefix_of` t' -> called_by t' uid.
Proof. intros (H1 & H2 & H3) Hp. split_and!; eauto using elem_of_prefix. Qed.
Lemma identified_mono t t' fd device inode : identified t fd device inode -> t `prefix_of` t' -> identified t' fd device inode.
Proof. intros (i & st & H1 & H2 & H3) Hp. exists i, st. split_and!; eauto using elem_of_prefix; by apply H3. Qed.
Lemma private_dir_mono t t' runtime fd uid : private_dir t runtime fd uid -> t `prefix_of` t' -> private_dir t' runtime fd uid.
Proof. intros (m & st & H1 & H2 & H3 & H4 & H5) Hp. exists m, st. split_and!; eauto using elem_of_prefix. Qed.
Lemma sandbox_root_mono t t' root device inode uid fd :
  sandbox_root t root device inode uid fd -> t `prefix_of` t' -> sandbox_root t' root device inode uid fd.
Proof.
  intros (H1 & H2 & H3 & (c & a & ch & r & H4 & H5 & H6 & H7 & H8 & H9) & (i & st & st' & H10 & H11 & H12 & H13 & H14)) Hp.
  split_and!; eauto using called_by_mono, opened_dir_mono, identified_mono.
  - exists c, a, ch, r. split_and!; eauto using elem_of_prefix, private_dir_mono.
  - exists i, st, st'. split_and!; eauto using elem_of_prefix.
Qed.
Lemma source_checked_mono t t' root source device inode :
  source_checked t root source device inode -> t `prefix_of` t' -> source_checked t' root source device inode.
Proof.
  intros (q & n & dir & d & H1 & H2 & H3 & H4 & H5) Hp. exists q, n, dir, d.
  split_and!; eauto using elem_of_prefix, opened_dir_mono. destruct H5; eauto using identified_mono.
Qed.

(** A trace extends another through the chain of the steps in between. *)
Ltac extends :=
  lazymatch goal with
  | |- ?t `prefix_of` ?t => reflexivity
  | |- ?t `prefix_of` ?t' =>
      first [ match goal with L : t `prefix_of` ?u |- _ => etransitivity; [exact L|extends] end | eexists; reflexivity ]
  end.

Create HintDb mono.
Ltac facts := cbn beta in *; repeat match goal with |- _ /\ _ => split end; eauto with mono.
#[export] Hint Resolve elem_of_prefix walked_mono opened_dir_mono called_by_mono identified_mono private_dir_mono
  sandbox_root_mono source_checked_mono : mono.
#[export] Hint Extern 1 (_ `prefix_of` _) => extends : mono.
#[export] Hint Extern 0 (_ ∈ _ ++ [_]) => (apply elem_of_app; right; apply list_elem_of_singleton; reflexivity) : mono.

(** ** Lemmas: calls that change nothing *)

Lemma c_string_ok n n' : c_string n = Ok n' -> n' = n.
Proof. unfold c_string, cstring. destruct (nul_position n); cbn; [done|]. by intros [= <-]. Qed.
Lemma cstring_ok n n' : cstring n = Ok n' -> n' = n.
Proof. unfold cstring. destruct (nul_position n); cbn; [done|]. by intros [= <-]. Qed.

Lemma validate_relative_ok p u : validate_relative p = Ok u ->
  p <> "" /\ Forall (fun c => normal c = true) (components p) /\ components p = Normal <$> names p.
Proof.
  unfold validate_relative. destruct (is_empty p) eqn:Ee; [done|]. cbn [orb].
  destruct (existsb _ _) eqn:Ex; [done|]. intros _. apply is_empty_false in Ee. split; [done|].
  assert (Forall (fun c => normal c = true) (components p)) as Hn.
  { apply Forall_forall. intros c Hc. destruct (normal c) eqn:En; [done|]. apply not_true_iff_false in Ex. destruct Ex.
    apply existsb_exists. exists c. split; [by apply list_elem_of_In|by rewrite En]. }
  split; [done|]. unfold names. clear -Hn. induction Hn as [|c l Hc Hl IH]; [done|]. destruct c; try done. cbn. by rewrite <- IH.
Qed.

Section Queries.
Context `{System} (G : trace -> Event -> Prop) (HG : forall t e, privileged e = false -> G t e).

Local Ltac query := intros; apply HG; reflexivity.

Lemma fstat_runs t msg d : runs G t (fstat msg d) (fun st t' => EFstat d (inl st) ∈ t').
Proof using HG. apply runs_checked; [query|auto with mono]. Qed.
Lemma fstatfs_runs t msg d : runs G t (fstatfs msg d) (fun st t' => EFstatfs d (inl st) ∈ t').
Proof using HG. apply runs_checked; [query|auto with mono]. Qed.

Lemma file_type_runs t d :
  runs G t (file_type d) (fun ty t' => exists st, EFstat d (inl st) ∈ t' /\ ty = type_of_mode (sf_mode st)).
Proof using HG. apply runs_fmap. eapply runs_mono; [apply fstat_runs|]. intros st t' _ Hs. by exists st. Qed.

Lemma from_fd_runs t d : runs G t (from_fd d) (fun i t' => exists st, EFstat d (inl st) ∈ t' /\
  i = mkIdentity (sf_device st) (sf_inode st) (sf_uid st) (sf_gid st)).
Proof using HG. apply runs_fmap. eapply runs_mono; [apply fstat_runs|]. intros st t' _ Hs. by exists st. Qed.

Lemma verify_runs t i d label device inode : parse_file_identity device inode = Ok i ->
  runs G t (verify i d label) (fun _ t' => identified t' d device inode).
Proof using HG.
  intros Hi. eapply runs_bind; [apply from_fd_runs|]. intros a t1 _ (st & Hs & ->). cbn [id_device id_inode].
  destruct (_ =? _)%Z eqn:E1; [|apply runs_lift; by intros ? [=]].
  destruct (id_inode i =? _)%Z eqn:E2; cbn; [|apply runs_lift; by intros ? [=]].
  apply Z.eqb_eq in E1, E2. apply runs_ret. by exists i, st.
Qed.

Lemma open_child_dir_cstr_runs t d n :
  runs G t (open_child_dir_cstr d n) (fun d' t' => EOpenAt d n DIR_FLAGS 0 (inl d') ∈ t').
Proof using HG. apply runs_checked; [query|auto with mono]. Qed.
Lemma open_child_dir_runs t d n : runs G t (open_child_dir d n) (fun d' t' => EOpenAt d n DIR_FLAGS 0 (inl d') ∈ t').
Proof using HG.
  eapply (runs_bind _ _ _ _ (fun n' t' => n' = n)); [apply runs_lift; apply c_string_ok|].
  intros n' t1 _ ->. apply open_child_dir_cstr_runs.
Qed.
Lemma open_child_entry_cstr_runs t d n :
  runs G t (open_child_entry_cstr d n) (fun d' t' => EOpenAt d n ENTRY_FLAGS 0 (inl d') ∈ t').
Proof using HG. apply runs_checked; [query|auto with mono]. Qed.
Lemma open_child_entry_runs t d n : runs G t (open_child_entry d n) (fun d' t' => EOpenAt d n ENTRY_FLAGS 0 (inl d') ∈ t').
Proof using HG.
  eapply (runs_bind _ _ _ _ (fun n' t' => n' = n)); [apply runs_lift; apply c_string_ok|].
  intros n' t1 _ ->. apply open_child_entry_cstr_runs.
Qed.

Lemma duplicate_dir_runs t fd l d : walked t fd l d -> runs G t (duplicate_dir d) (fun d' t' => walked t' fd l d').
Proof using HG.
  intros Hw. apply runs_checked; [query|]. intros d'. eapply walk_dup; [eapply walked_mono; [done|]|]; auto with mono.
Qed.

Lemma open_absolute_dir_runs t p : runs G t (open_absolute_dir p) (fun d t' => opened_dir t' p d).
Proof using HG.
  unfold open_absolute_dir. destruct (is_absolute p) eqn:Ha; [|apply runs_lift; by intros ? [=]]. cbn [negb].
  eapply runs_bind; [apply (runs_lift _ _ _ (fun s _ => s = "/")); by intros a [= <-]|]. intros slash t0 _ ->.
  eapply (runs_bind _ _ _ _ (fun s t' => EOpen "/" ROOT_FLAGS (inl s) ∈ t')).
  { apply runs_checked; [query|auto with mono]. }
  intros s t1 _ Hs.
  eapply runs_mono; [apply (runs_fold_each _ _ _ _ _ (fun l d t' => EOpen "/" ROOT_FLAGS (inl s) ∈ t' /\ walked t' s (omap name_of l) d))|].
  - split; [done|constructor].
  - intros l1 c l2 d t2 Hl Hp (He & Hw). rewrite omap_app.
    destruct c as [| | |n]; try (apply runs_lift; by intros ? [=]).
    + apply runs_ret. cbn. by rewrite app_nil_r.
    + eapply runs_mono; [apply open_child_dir_runs|]. cbn. intros d' t3 Hp3 Hd. split; [facts|].
      eapply walk_step; eauto with mono.
  - intros d t' _ (He & Hw). split; [done|]. by exists s.
Qed.

Lemma open_relative_dir_runs t fd p : runs G t (open_relative_dir fd p) (fun d t' => walked t' fd (names p) d).
Proof using HG.
  eapply runs_bind; [apply (runs_lift _ _ _ (fun _ _ => True)); done|]. intros _ t0 _ _.
  eapply runs_bind; [apply duplicate_dir_runs; constructor|]. intros d t1 _ Hw.
  apply (runs_fold_each _ _ _ _ _ (fun l d t' => walked t' fd (omap name_of l) d)); [done|].
  intros l1 c l2 d1 t2 Hl Hp Hw1. rewrite omap_app. destruct c as [| | |n]; try (apply runs_lift; by intros ? [=]).
  eapply runs_mono; [apply open_child_dir_runs|]. cbn. intros d' t3 Hp3 Hd. eapply walk_step; eauto with mono.
Qed.

Lemma open_absolute_entry_runs t p : runs G t (open_absolute_entry p) (fun d t' =>
  exists q n dir, parent p = Some q /\ file_name_of p = Some n /\ opened_dir t' q dir /\ EOpenAt dir n ENTRY_FLAGS 0 (inl d) ∈ t').
Proof using HG.
  unfold open_absolute_entry. destruct (is_absolute p); [|apply runs_lift; by intros ? [=]]. cbn [negb].
  eapply runs_bind; [apply (runs_lift _ _ _ (fun q _ => parent p = Some q)); intros q Hq; by apply ok_or_ok in Hq|].
  intros q t1 _ Hq.
  eapply runs_bind; [apply (runs_lift _ _ _ (fun n _ => file_name_of p = Some n)); intros n Hn; by apply ok_or_ok in Hn|].
  intros n t2 _ Hn. eapply runs_bind; [apply open_absolute_dir_runs|]. intros dir t3 _ Hd.
  eapply runs_mono; [apply open_child_entry_runs|]. cbn. intros d t4 Hp He. exists q, n, dir. facts.
Qed.

Lemma lift_runs {A} t (r : result A) : runs G t (lift r) (fun a t' => t' = t /\ r = Ok a).
Proof. by apply runs_lift. Qed.

Lemma caller_runs t : runs G t caller (fun uid t' => called_by t' uid).
Proof using HG.
  eapply runs_bind; [apply (runs_ask _ _ _ _ (fun e t' => EGeteuid e ∈ t')); [query|auto with mono]|].
  intros e t1 _ He. destruct (Z.eqb_spec e 0) as [->|]; cbn [negb]; [|apply runs_lift; by intros ? [=]].
  eapply runs_bind; [apply (runs_ask _ _ _ _ (fun e t' => EGetuid e ∈ t')); [query|auto with mono]|].
  intros uid t2 Hp Hu. destruct (Z.eqb_spec uid 0) as [->|Hne]; [apply runs_lift; by intros ? [=]|].
  apply runs_ret. unfold called_by. facts.
Qed.

(** The checks of an owner and a private directory above. *)
Lemma private_runs {A} t runtime fd uid msg msg2 (k : M trace A) Q :
  (forall t1, t `prefix_of` t1 -> private_dir t1 runtime fd uid -> runs G t1 k Q) ->
  runs G t (m ← path_metadata msg runtime; i ← from_fd fd;
            if negb (is_private m (id_uid i) uid) then lift (bail msg2) else k) Q.
Proof using HG.
  intros Hk. eapply runs_bind; [apply (runs_checked _ _ _ _ _ (fun m t' => EMetadata runtime (inl m) ∈ t')); [query|auto with mono]|].
  intros m t1 Hp1 Hm. eapply runs_bind; [apply from_fd_runs|]. intros i t2 Hp2 (st & Hs & ->). cbn [id_uid].
  destruct (is_private m (sf_uid st) uid) eqn:Ep; cbn [negb]; [|apply runs_lift; by intros ? [=]].
  unfold is_private in Ep. apply andb_true_iff in Ep as [[Ha%Z.eqb_eq Hb%Z.eqb_eq]%andb_true_iff Hc%Z.eqb_eq].
  apply Hk; [by etrans|]. exists m, st. facts.
Qed.

Lemma canonicalize_runs t msg p : runs G t (canonicalize_path msg p) (fun q t' => ECanonicalize p (inl q) ∈ t').
Proof using HG. apply runs_checked; [query|auto with mono]. Qed.

(** A step that only computes. *)
Lemma lift_bind_runs {A B} t (r : result A) (k : A -> M trace B) Q :
  (forall a, r = Ok a -> runs G t (k a) Q) -> runs G t (lift r ≫= k) Q.
Proof using Type. intros Hk. eapply runs_bind; [apply lift_runs|]. intros a t1 _ [-> E]. by apply Hk. Qed.
Lemma context_bind_runs {A B} t msg (m : M trace A) (k : A -> M trace B) P Q :
  runs G t m P -> (forall a t1, t `prefix_of` t1 -> P a t1 -> runs G t1 (k a) Q) -> runs G t (in_context msg m ≫= k) Q.
Proof using Type. intros Hm Hk. eapply runs_bind; [by apply runs_context|done]. Qed.

Lemma validate_sandbox_root_runs t root fd uid : runs G t (validate_sandbox_root root fd uid) (fun _ t' =>
  (exists canonical app chroots runtime, ECanonicalize root (inl canonical) ∈ t' /\ parent canonical = Some app /\
     parent app = Some chroots /\ parent chroots = Some runtime /\ file_name_of chroots = Some "chroots" /\
     private_dir t' runtime fd uid) /\
  exists info st st', EOpenAt fd ".flatpak-info" [O_RDONLY; O_CLOEXEC; O_NOFOLLOW] 0 (inl info) ∈ t' /\
    EFstat info (inl st) ∈ t' /\ sf_uid st = uid /\ EFstat info (inl st') ∈ t' /\ type_of_mode (sf_mode st') = S_IFREG).
Proof using HG.
  unfold validate_sandbox_root. eapply runs_bind; [apply canonicalize_runs|]. intros canonical t1 _ Hc.
  apply lift_bind_runs. intros app Happ%ok_or_ok. apply lift_bind_runs. intros chroots Hch%ok_or_ok.
  apply lift_bind_runs. intros runtime Hrt%ok_or_ok.
  destruct (bool_decide (file_name_of chroots = Some "chroots")) eqn:En; cbn [negb orb]; [|apply runs_lift; by intros ? [=]].
  destruct (_ || _); [apply runs_lift; by intros ? [=]|]. apply bool_decide_eq_true in En.
  apply private_runs. intros t2 Hp2 Hpriv. apply lift_bind_runs. intros name ->%c_string_ok.
  eapply runs_bind; [apply (runs_checked _ _ _ _ _
    (fun i t' => EOpenAt fd ".flatpak-info" [O_RDONLY; O_CLOEXEC; O_NOFOLLOW] 0 (inl i) ∈ t')); [query|auto with mono]|].
  intros info t3 Hp3 Hi. eapply runs_bind; [apply from_fd_runs; exact HG|]. intros i t4 Hp4 (st & Hst & ->). cbn [id_uid].
  eapply runs_bind; [apply fstat_runs; exact HG|]. intros st' t5 Hp5 Hst'.
  destruct (Z.eqb_spec (type_of_mode (sf_mode st')) S_IFREG) as [E1|]; cbn; [|apply runs_lift; by intros ? [=]].
  destruct (Z.eqb_spec (sf_uid st) uid) as [E2|]; cbn; [|apply runs_lift; by intros ? [=]].
  apply runs_ret. split.
  - exists canonical, app, chroots, runtime. facts.
  - exists info, st, st'. facts.
Qed.

Lemma open_sandbox_root_runs t root device inode expected uid :
  called_by t uid -> parse_file_identity device inode = Ok expected ->
  runs G t (open_sandbox_root root expected uid) (fun r t' =>
    sandbox_root t' root device inode uid r.1 /\ exists st, EFstat r.1 (inl st) ∈ t' /\
    id_uid r.2 = sf_uid st /\ id_gid r.2 = sf_gid st).
Proof using HG.
  intros Hc Hi. unfold open_sandbox_root.
  eapply context_bind_runs; [by apply open_absolute_dir_runs|]. intros fd t1 Hp1 Hd.
  eapply runs_bind; [by apply verify_runs|]. intros u t2 Hp2 Hid.
  eapply runs_bind; [by apply from_fd_runs|]. intros i t3 Hp3 (st & Hst & ->).
  eapply runs_bind; [apply validate_sandbox_root_runs|]. intros u4 t4 Hp4 [H1 H2]. apply runs_ret. cbn [fst snd id_uid id_gid].
  cbn beta in *. split; [unfold sandbox_root; facts|exists st; facts].
Qed.
End Queries.

(** ** Lemmas: the operations below a sandbox root *)

Section Operations.
Context `{System} (operation root device inode target : string) (rest : list string) (uid fd : Z).

Abbreviation args := (operation :: root :: device :: inode :: target :: rest).
Abbreviation G := (justified args).
Abbreviation validated t := (sandbox_root t root device inode uid fd).

(** The owner that new entries get. *)
Definition root_owner (t : trace) (u g : Z) : Prop := exists st, EFstat fd (inl st) ∈ t /\ u = sf_uid st /\ g = sf_gid st.
Lemma root_owner_mono t t' u g : root_owner t u g -> t `prefix_of` t' -> root_owner t' u g.
Proof. intros (st & ? & ? & ?) Hp. exists st. facts. Qed.
#[local] Hint Resolve root_owner_mono : mono.

Lemma quiet_ok t e : privileged e = false -> G t e.
Proof. intros E E'. by rewrite E in E'. Qed.

Lemma justify t e : confined operation root device inode target rest t e -> G t e.
Proof. intros Hc _. left. by eexists operation, root, device, inode, target, rest. Qed.

Lemma mkdir_child_runs t u g l d n :
  validated t -> root_owner t u g -> walked t fd l d -> l ++ [n] `prefix_of` names target ->
  runs G t (mkdir_child 493 u g d (Normal n)) (fun d' t' => walked t' fd (l ++ [n]) d').
Proof.
  intros Hr Ho Hw Hn. unfold mkdir_child. apply lift_bind_runs. intros n' ->%c_string_ok.
  eapply runs_bind; [apply (runs_ask _ _ _ _ (fun r t' => EMkdirAt d n 493 r ∈ t'))|].
  - intros r. apply justify. exists uid, fd, l, d. facts.
  - auto with mono.
  - intros made t1 Hp1 Hm. eapply (runs_bind _ _ _ _ (fun _ _ => True)).
    + destruct made as [[]|e]; [|destruct (e =? EEXIST)%Z; [by apply runs_ret|by apply runs_lift]].
      apply runs_checked; [|done]. intros r. apply justify. destruct Ho as (st & Hst & ? & ?).
      exists uid, fd, l, d. facts.
    + intros u2 t2 Hp2 _. eapply runs_mono; [apply open_child_dir_cstr_runs, quiet_ok|].
      intros d' t3 Hp3 Hd. eapply walk_step; facts.
Qed.

Lemma chase_and_mkdir_runs t u g p :
  validated t -> root_owner t u g -> names p `prefix_of` names target ->
  runs G t (chase_and_mkdir fd p 493 u g) (fun d t' => walked t' fd (names p) d).
Proof.
  intros Hr Ho Hp. unfold chase_and_mkdir. apply lift_bind_runs. intros v (_ & _ & Hc)%validate_relative_ok.
  eapply runs_bind; [apply duplicate_dir_runs; [apply quiet_ok|constructor]|]. intros d t1 Hp1 Hw. rewrite Hc.
  eapply runs_mono; [apply (runs_fold_each _ _ _ _ _ (fun l d t' => walked t' fd (omap name_of l) d)); [done|]|].
  - intros l1 c l2 d1 t2 El Hp2 Hw1. apply fmap_app_inv in El as (k1 & k2 & -> & El2 & El1).
    destruct k2 as [|n k2]; [done|]. injection El2 as -> ->.
    assert (omap name_of (Normal <$> k1) = k1) as Ek by (clear; induction k1 as [|x k1 IH]; cbn; congruence).
    rewrite omap_app, Ek. cbn. rewrite Ek in Hw1. apply mkdir_child_runs; [eauto with mono..|].
    rewrite El1 in Hp. etrans; [|exact Hp]. apply prefix_app. by exists k2.
  - intros d2 t2 _. cbn. rewrite <- Hc. done.
Qed.

(** *** Mounting *)

Lemma cwd_snoc t d : cwd (t ++ [EFchdir d (inl tt)]) = Some d.
Proof. unfold cwd. by rewrite fold_left_app. Qed.

Lemma mount_runs t o l ro : stands_for o l -> (forall r, G t (ENmount (vector l) ro r)) ->
  runs G t (mount o ro) (fun _ _ => True).
Proof. intros Ho HG. unfold mount. rewrite Ho. by apply runs_checked. Qed.

(** The trace right after the working directory is [d]. *)
Abbreviation anchored t d := (t ++ [EFchdir d (inl tt)]).

Lemma anchor_bind_runs {A} t d (k : unit -> M trace A) Q :
  runs G (anchored t d) (k tt) Q -> runs G t (anchor_mount_target d ≫= k) Q.
Proof.
  intros Hk. eapply (runs_bind _ _ _ _ (fun _ t' => t' = anchored t d)).
  - apply runs_checked; [intros; by apply quiet_ok|by intros []].
  - intros [] t1 _ ->. exact Hk.
Qed.

Lemma mount_here t l d iov ro r :
  validated t -> walked t fd l d -> mount_allowed (anchored t d) root (names target) l d operation rest iov ro ->
  G (anchored t d) (ENmount iov ro r).
Proof.
  intros Hr Hw Ha. apply justify. exists uid, fd, l, d. split; [facts|]. split; [facts|]. split; [apply cwd_snoc|done].
Qed.

Lemma nmount_nullfs_runs t l d source n ro :
  validated t -> walked t fd l d -> mount_allowed (anchored t d) root (names target) l d operation rest (nullfs_vector source n) ro ->
  runs G t (nmount_nullfs source d n ro) (fun _ _ => True).
Proof.
  intros Hr Hw Ha. apply anchor_bind_runs. apply lift_bind_runs. intros s ->%c_string_ok.
  apply lift_bind_runs. intros o Ho. eapply mount_runs; [|intros r; by eapply mount_here].
  apply bind_ok in Ho as (o1 & H1 & Ho). apply bind_ok in Ho as (f & ->%cstring_ok & Ho).
  apply bind_ok in Ho as (g & ->%cstring_ok & Ho).
  exact (flag_stands _ _ _ _ Ho (value_cstr_stands _ _ _ _ (value_cstr_stands _ _ _ _ (value_stands _ _ _ _ _ H1 stands_for_new)))).
Qed.

Lemma nmount_special_runs t d fs :
  validated t -> walked t fd (names target) d -> operation = "special" -> rest = [fs; fs] -> special_allowed fs fs = true ->
  runs G t (nmount_special d fs fs) (fun _ _ => True).
Proof.
  intros Hr Hw Hop Hrest Hfs. apply anchor_bind_runs. apply lift_bind_runs. intros o Ho.
  eapply mount_runs; [|intros r; eapply mount_here; [done..|rewrite Hop, Hrest; apply allow_special; [done|]]].
  - apply bind_ok in Ho as (o1 & H1 & Ho). apply bind_ok in Ho as (o2 & H2 & Ho).
    exact (value_stands _ _ _ _ _ Ho (value_stands _ _ _ _ _ H2 (value_stands _ _ _ _ _ H1 stands_for_new))).
  - unfold special_allowed in Hfs. apply existsb_exists in Hfs as (x & Hx & [E _]%andb_true_iff).
    apply String.eqb_eq in E as ->. by apply list_elem_of_In.
Qed.

(** What a list of options adds. *)
Lemma tmpfs_request_stands options r : tmpfs_request options = Ok r ->
  exists opts, Forall (fun o => o.1 = "mode" \/ o.1 = "uid" \/ o.1 = "gid") opts /\
    stands_for (tr_options r) ([("fstype", Some "tmpfs"); ("fspath", Some "."); ("from", Some "tmpfs"); ("nocover", None)] ++ opts).
Proof.
  unfold tmpfs_request. intros E. apply bind_ok in E as (o1 & H1 & E). apply bind_ok in E as (o2 & H2 & E).
  apply bind_ok in E as (o3 & H3 & E). apply bind_ok in E as (o4 & H4 & E). apply bind_ok in E as (text & _ & E).
  set (base := [_; _; _; _]). pose (I := fun q : TmpfsRequest => exists opts, Forall (fun o => o.1 = "mode" \/ o.1 = "uid" \/ o.1 = "gid") opts /\
    stands_for (tr_options q) (base ++ opts)). change (I r). eapply fold_result_inv; [| |exact E].
  - intros q x q' _ (opts & Hf & Hs) Hx. unfold tmpfs_option in Hx. apply bind_ok in Hx as ([n v] & _ & Hx).
    apply bind_ok in Hx as (q1 & Hq & Hx). apply bind_ok in Hx as (o & Ho & Hx). injection Hx as <-.
    assert (tr_options q1 = tr_options q /\ (n = "mode" \/ n = "uid" \/ n = "gid")) as [Eq Hn].
    { destruct (String.eqb_spec n "mode") as [->|]; [inv_ok; subst; cbn; auto|].
      destruct (String.eqb_spec n "uid") as [->|]; [cbn in Hq; inv_ok; subst; cbn; auto|].
      destruct (String.eqb_spec n "gid") as [->|]; [cbn in Hq; inv_ok; subst; cbn; auto|by cbn in Hq]. }
    rewrite Eq in Ho. exists (opts ++ [(n, Some v)]). split; [by apply Forall_app; split; [|constructor]|].
    rewrite app_assoc. by apply (value_stands _ _ _ _ _ Ho).
  - exists []. split; [done|]. exact (flag_stands _ _ _ _ H4 (value_stands _ _ _ _ _ H3
      (value_stands _ _ _ _ _ H2 (value_stands _ _ _ _ _ H1 stands_for_new)))).
Qed.

(** Changes of the owner or the mode of the target or its parent. *)
Lemma chown_ok t l d u g r : validated t -> walked t fd l d -> (l = names target \/ exists n, l ++ [n] = names target) ->
  G t (EFchown d u g r).
Proof. intros Hr Hw Hl. apply justify. exists uid, fd, l, d. facts. Qed.
Lemma chmod_ok t l d m r : validated t -> walked t fd l d -> (l = names target \/ exists n, l ++ [n] = names target) ->
  G t (EFchmod d m r).
Proof. intros Hr Hw Hl. apply justify. exists uid, fd, l, d. facts. Qed.

Lemma nmount_tmpfs_runs t d options :
  validated t -> walked t fd (names target) d -> operation = "tmpfs" -> rest = [options] ->
  runs G t (nmount_tmpfs fd target d options) (fun _ _ => True).
Proof.
  intros Hr Hw Hop Hrest. apply anchor_bind_runs. apply lift_bind_runs. intros r (opts & Hf & Hs)%tmpfs_request_stands.
  eapply runs_bind; [eapply mount_runs; [exact Hs|]; intros x; eapply mount_here; [done..|rewrite Hop, Hrest; by apply allow_tmpfs]|].
  intros u1 t1 Hp1 _. assert (t `prefix_of` t1) as Hp0 by (etrans; [|exact Hp1]; by eexists).
  eapply runs_bind; [apply open_relative_dir_runs, quiet_ok|]. intros m t2 Hp2 Hm. cbn beta in Hm.
  eapply (runs_bind _ _ _ _ (fun _ _ => True)).
  { destruct (tr_mode r); [|by apply runs_ret]. apply runs_checked; [|done]. intros x. eapply chmod_ok; [facts..|by left]. }
  intros u3 t3 Hp3 _. destruct (_ || _); [|by apply runs_ret]. apply runs_checked; [|done]. intros x.
  eapply chown_ok; [facts..|by left].
Qed.

(** *** Mounting a regular file *)

(** The parent and the name of the target. *)
Lemma target_split p u : validate_relative p = Ok u ->
  exists q l n, parent p = Some q /\ file_name_of p = Some n /\ names p = l ++ [n] /\ names q = l /\ is_empty q = bool_decide (l = []).
Proof.
  intros (Hne & Hn & Hc)%validate_relative_ok. destruct (decide (names p = [])) as [E|Hl].
  - rewrite E in Hc. cbn in Hc. exfalso. destruct (normal_front p Hne Hn) as [Hf Hh]. rewrite components_front, Hf in Hc. cbn in Hc.
    pose proof (split_ne "/" p) as Hs. unfold front in Hf, Hh, Hc. destruct (is_absolute p); [done|].
    destruct (split "/" p) as [|x r]; [done|]. destruct (String.eqb x "."); [done|]. cbn in Hh, Hc.
    unfold piece_component in Hc. rewrite (Hh x eq_refl) in Hc. by destruct (String.eqb x "..").
  - destruct (exists_last Hl) as (l & n & El). rewrite El, fmap_app in Hc. change (Normal <$> [n]) with [Normal n] in Hc.
    destruct (parent_relative p (Normal <$> l) (Normal n) Hne Hn Hc) as (q & Hq & Hcq & Hemp). exists q, l, n.
    assert (names q = l) as Hnq by (unfold names; rewrite Hcq; clear; induction l as [|x l IH]; cbn; congruence).
    split_and!; [done| |done|done|].
    + unfold file_name_of. by rewrite Hc, last_snoc.
    + destruct (decide (l = [])) as [->|Hl2].
      * by rewrite bool_decide_true by done; apply is_empty_true, Hemp.
      * rewrite bool_decide_false by done. apply is_empty_false. intros E%Hemp. by apply fmap_nil_inv in E.
Qed.

Lemma parent_dir_runs t l q (make : path -> M trace Z) :
  is_empty q = bool_decide (l = []) -> (l <> [] -> runs G t (make q) (fun d t' => walked t' fd l d)) ->
  runs G t (if negb (is_empty q) then make q else duplicate_dir fd) (fun d t' => walked t' fd l d).
Proof.
  intros -> Hm. destruct (decide (l = [])) as [->|Hl].
  - rewrite bool_decide_true by done. apply duplicate_dir_runs; [apply quiet_ok|constructor].
  - rewrite bool_decide_false by done. by apply Hm.
Qed.

Lemma prepare_nullfs_parent_runs t u g : validated t -> root_owner t u g ->
  runs G t (prepare_nullfs_parent fd target u g) (fun pn t' => exists l, l ++ [pn.2] = names target /\ walked t' fd l pn.1).
Proof.
  intros Hr Ho. apply lift_bind_runs. intros v Hv. destruct (target_split _ _ Hv) as (q & l & n & Hq & Hn & Hl & Hlq & He).
  rewrite Hn. apply lift_bind_runs. intros n' [= <-]. apply lift_bind_runs. intros n' ->%c_string_ok. rewrite Hq.
  eapply runs_bind; [apply (parent_dir_runs _ l q (fun q => chase_and_mkdir fd q 493 u g)); [done|]|].
  - intros _. rewrite <- Hlq. apply chase_and_mkdir_runs; [done..|]. rewrite Hl, Hlq. by apply prefix_app_r.
  - intros d t1 _ Hw. apply runs_ret. exists l. by split.
Qed.

Lemma open_or_create_runs t u g l d n : validated t -> root_owner t u g -> walked t fd l d -> l ++ [n] = names target ->
  runs G t (open_or_create_regular_file d n u g) (fun _ _ => True).
Proof.
  intros Hr Ho Hw Hn.
  eapply (runs_bind _ _ _ _ (fun r t' => EOpenAt d n CREATE_FLAGS 384 r ∈ t')); [apply runs_ask; [|auto with mono]|].
  - intros r. apply justify. exists uid, fd, l, d. facts.
  - intros [e|e] t1 Hp1 He; cbn beta in He.
    + eapply (runs_bind _ _ _ _ (fun _ _ => True)); [|by intros; apply runs_ret]. apply runs_checked; [|done].
      intros r. apply justify. destruct Ho as (st & Hst & ? & ?). exists uid, fd, l, d. rewrite <- Hn. facts.
    + destruct (negb _); [by apply runs_lift|].
      eapply runs_bind; [apply open_child_entry_cstr_runs, quiet_ok|]. intros f t2 _ _.
      eapply runs_bind; [apply file_type_runs, quiet_ok|]. intros ty t3 _ _.
      destruct (negb _); [by apply runs_lift|by apply runs_ret].
Qed.

(** The lock stays in place. *)
Lemma locked_snoc d t e : plain e = true -> locked d t -> locked d (t ++ [e]).
Proof.
  intros He [[Ho Hm]|[H1 (s & H2 & H3)]].
  - left. unfold owner_given, mode_given. rewrite !fold_left_app. by destruct e.
  - right. split; [facts|]. exists s. facts.
Qed.

Lemma mount_regular_file_runs t u g l d n source dev ino (ro : bool) :
  validated t -> root_owner t u g -> walked t fd l d -> l ++ [n] = names target -> locked d t ->
  source_checked t root source dev ino -> operation = "nullfs" -> rest = [source; dev; ino; if ro then "ro" else "rw"] ->
  runs G t (mount_regular_file source d n u g ro) (fun _ _ => True).
Proof.
  intros Hr Ho Hw Hn Hl Hs Hop Hrest.
  eapply runs_bind; [apply (runs_keeps _ (locked d)); [apply plain_open_or_create, locked_snoc|done|by eapply open_or_create_runs]|].
  intros f t1 Hp1 [_ Hl1].
  eapply runs_bind; [apply (runs_keeps _ (locked d)); [apply plain_file_type, locked_snoc|done|apply file_type_runs, quiet_ok]|].
  intros ty t2 Hp2 [_ Hl2]. destruct (negb _); [by apply runs_lift|].
  eapply (runs_bind _ _ _ _ (fun _ t' => t' = t2 ++ [EClose f])); [by apply runs_record; [apply quiet_ok|]|].
  intros u3 t3 Hp3 ->. apply (nmount_nullfs_runs _ l); [facts|facts|]. rewrite Hop, Hrest. apply allow_nullfs_file; [|done|].
  - eapply source_checked_mono; [exact Hs|]. etrans; [exact Hp1|]. etrans; [exact Hp2|]. etrans; [exact Hp3|]. by eexists.
  - by do 2 (apply locked_snoc; [done|]).
Qed.

(** *** The protection of the parent *)

Lemma restore_attributes_runs t l d a : validated t -> walked t fd l d -> (l = names target \/ exists n, l ++ [n] = names target) ->
  runs G t (restore_directory_attributes d a) (fun _ _ => True).
Proof.
  intros Hr Hw Hl. eapply (runs_bind _ _ _ _ (fun _ _ => True)).
  - apply runs_checked; [|done]. intros r. by eapply chown_ok.
  - intros u1 t1 Hp1 _. apply runs_checked; [|done]. intros r. eapply chmod_ok; facts.
Qed.

Lemma restore_runs t l d p : validated t -> walked t fd l d -> (l = names target \/ exists n, l ++ [n] = names target) ->
  runs G t (restore p d) (fun _ _ => True).
Proof. intros Hr Hw Hl. destruct p; [by apply runs_ret|by eapply restore_attributes_runs]. Qed.

Lemma lock_mode m : Z.land (Z.ldiff m 146) 146 = 0%Z.
Proof.
  apply Z.bits_inj'. intros i Hi. rewrite Z.land_spec, Z.ldiff_spec, Z.bits_0. by destruct (Z.testbit m i), (Z.testbit 146 i).
Qed.

Lemma protect_runs t l d : validated t -> walked t fd l d -> (l = names target \/ exists n, l ++ [n] = names target) ->
  runs G t (protect_regular_file_parent d) (fun _ t' => locked d t').
Proof.
  intros Hr Hw Hl. eapply (runs_bind _ _ _ _ (fun _ _ => True)).
  { eapply runs_bind; [apply file_type_runs, quiet_ok|]. intros ty t1 _ _. destruct (negb _); [by apply runs_lift|].
    eapply runs_bind; [apply fstat_runs, quiet_ok|]. intros st t2 _ _. by apply runs_ret. }
  intros a t1 Hp1 _. eapply (runs_bind _ _ _ _ (fun r t' => t' = t1 ++ [EFchown d 0 0 r])).
  { apply runs_ask; [|done]. intros r. eapply chown_ok; facts. }
  intros [[]|e] t2 Hp2 ->.
  - eapply (runs_bind _ _ _ _ (fun o t' => match o with
       Ok _ => t' = (t1 ++ [EFchown d 0 0 (inl tt)]) ++ [EFchmod d (Z.ldiff (at_mode a) 146) (inl tt)] | Err _ => True end)).
    { apply runs_catch. apply runs_checked; [|by intros []]. intros r. eapply chmod_ok; facts. }
    intros [[]|le] t3 Hp3 E3.
    + apply runs_ret. subst t3. left. unfold owner_given, mode_given. rewrite !fold_left_app. cbn. rewrite Z.eqb_refl.
      split; [done|]. eexists. split; [done|apply lock_mode].
    + eapply runs_bind; [apply runs_catch; eapply restore_attributes_runs; facts|].
      intros [?|?] t4 _ _; apply runs_fail.
  - eapply (runs_bind _ _ _ _ (fun b t' => b = true -> locked d t')).
    { destruct (Z.eqb_spec e EROFS) as [->|]; [|by apply runs_ret]. apply runs_fmap.
      eapply runs_mono; [apply fstatfs_runs, quiet_ok|]. cbn beta. intros st t3 Hp3 Hst Hodd. right. split; [eapply elem_of_prefix; [|exact Hp3]; auto with mono|].
      exists st. split; [facts|done]. }
    intros [] t3 Hp3 Hb; [apply runs_ret; by apply Hb|by apply runs_lift].
Qed.

(** *** Unmounting *)

(** The file system mounted exactly at the target. *)
Lemma unmount_file_runs t l d n f force : validated t -> walked t fd l d -> l ++ [n] = names target ->
  EOpenAt d n ENTRY_FLAGS 0 (inl f) ∈ t ->
  runs G t (unmount_regular_file_target f (join_path root target) force) (fun _ _ => True).
Proof.
  intros Hr Hw Hn Hf.
  eapply (runs_bind _ _ _ _ (fun m t' => exists st, EFstatfs f (inl st) ∈ t' /\ f_mntonname st = join_path root target /\
    mf_fsid m = f_fsid st)).
  { eapply runs_bind; [apply fstatfs_runs, quiet_ok|]. intros st t1 Hp1 Hst. cbn beta in Hst.
    destruct (String.eqb_spec (f_mntonname st) (join_path root target)) as [E|]; cbn [negb]; [|by apply runs_lift].
    apply runs_ret. by exists st. }
  intros m t1 Hp1 (st & Hst & Hm & Hid). eapply (runs_bind _ _ _ _ (fun _ _ => True)); [by apply runs_record; [apply quiet_ok|]|].
  intros u2 t2 Hp2 _. apply lift_bind_runs. intros name ->%cstring_ok. apply runs_checked; [|done]. intros r.
  apply justify. exists uid, fd, l, d. split; [facts|]. split; [facts|]. exists n, f, st. rewrite Hid. facts.
Qed.

Lemma rollback_runs t l d n : validated t -> walked t fd l d -> l ++ [n] = names target ->
  runs G t (rollback_regular_file_mount d n (join_path root target)) (fun _ _ => True).
Proof.
  intros Hr Hw Hn. eapply context_bind_runs; [apply open_child_entry_cstr_runs, quiet_ok|]. cbn beta.
  intros f t1 Hp1 Hf. apply runs_context. eapply unmount_file_runs; facts.
Qed.

Lemma finish_runs t l d n p m : validated t -> walked t fd l d -> l ++ [n] = names target ->
  runs G t m (fun _ _ => True) ->
  runs G t (finish_regular_file_mount m (restore p d) (rollback_regular_file_mount d n (join_path root target))) (fun _ _ => True).
Proof.
  intros Hr Hw Hn Hm.
  assert (forall t', t `prefix_of` t' -> runs G t' (catch (restore p d)) (fun _ _ => True)) as Hrest.
  { intros t' Hp. eapply runs_mono; [apply runs_catch, (restore_runs _ l); facts|by intros]. }
  eapply runs_bind; [by apply runs_catch|]. intros [u1|e1] t1 Hp1 _.
  - eapply runs_bind; [by apply Hrest|]. intros [u2|e2] t2 Hp2 _; [by apply runs_ret|].
    eapply runs_bind; [eapply runs_catch, rollback_runs; facts|]. intros r3 t3 Hp3 _.
    eapply runs_bind; [apply Hrest; extends|]. intros r4 t4 Hp4 _.
    destruct r3, r4; try apply runs_fail; by apply runs_ret || apply runs_lift.
  - eapply runs_bind; [by apply Hrest|]. intros [u2|e2] t2 Hp2 _; apply runs_fail.
Qed.

Lemma nmount_regular_file_runs t u g source dev ino (ro : bool) :
  validated t -> root_owner t u g -> source_checked t root source dev ino -> operation = "nullfs" ->
  rest = [source; dev; ino; if ro then "ro" else "rw"] ->
  runs G t (nmount_regular_file_nullfs source root fd target u g ro) (fun _ _ => True).
Proof.
  intros Hr Ho Hs Hop Hrest. eapply runs_bind; [by apply prepare_nullfs_parent_runs|].
  intros [d n] t1 Hp1 (l & Hn & Hw). cbn [fst snd] in Hn, Hw.
  eapply runs_bind; [eapply (protect_runs _ l); facts|]. intros p t2 Hp2 Hl.
  eapply runs_bind; [eapply (finish_runs _ l); [facts|facts|done|]|].
  - eapply (mount_regular_file_runs _ _ _ l); facts.
  - intros [|det] t3 _ _; [by apply runs_ret|]. by apply runs_record; [apply quiet_ok|].
Qed.

(** *** The four operations *)

Lemma source_verify_runs t source dev ino e d : expected_source root source dev ino = Ok e ->
  runs G t (match e with Some i => verify i d "nullfs source" | None => mret tt end)
    (fun _ t' => path_starts_with source (join_path root PRIVATE_SOURCE_ROOT) = true \/ identified t' d dev ino).
Proof.
  unfold expected_source. intros He. destruct (_ && _).
  - destruct (path_starts_with _ _) eqn:Ep; [|done]. injection He as <-. apply runs_ret. by left.
  - apply fmap_ok in He as (i & Hi & ->). eapply runs_mono; [by apply verify_runs; [apply quiet_ok|]|]. intros ? ? _ ?. by right.
Qed.

Lemma mount_nullfs_runs t i source dev ino e (ro : bool) :
  validated t -> root_owner t (id_uid i) (id_gid i) -> expected_source root source dev ino = Ok e -> operation = "nullfs" ->
  rest = [source; dev; ino; if ro then "ro" else "rw"] ->
  runs G t (mount_nullfs root fd i target source e ro) (fun _ _ => True).
Proof.
  intros Hr Ho He Hop Hrest. unfold mount_nullfs.
  eapply context_bind_runs; [apply open_absolute_entry_runs, quiet_ok|].
  intros d t1 Hp1 (q & n & dir & Hq & Hn & Hd & Hf).
  eapply runs_bind; [by apply source_verify_runs|].
  intros u2 t2 Hp2 Hor. assert (source_checked t2 root source dev ino) as Hs by (exists q, n, dir, d; facts).
  eapply runs_bind; [apply file_type_runs, quiet_ok|]. intros ty t3 Hp3 _. destruct (ty =? S_IFDIR)%Z.
  - eapply context_bind_runs; [apply chase_and_mkdir_runs; facts|]. intros dd t4 Hp4 Hw. cbn beta in Hw.
    apply lift_bind_runs. intros name [= <-]. apply (nmount_nullfs_runs _ (names target)); [facts|facts|].
    rewrite Hop, Hrest. apply allow_nullfs_dir; [|done]. eapply source_checked_mono; [exact Hs|].
    etrans; [exact Hp3|]. etrans; [exact Hp4|]. by eexists.
  - destruct (negb _); [by apply runs_lift|]. apply runs_context. eapply nmount_regular_file_runs; facts.
Qed.

Lemma mount_tmpfs_runs t i options : validated t -> root_owner t (id_uid i) (id_gid i) -> operation = "tmpfs" -> rest = [options] ->
  runs G t (mount_tmpfs fd i target options) (fun _ _ => True).
Proof.
  intros Hr Ho Hop Hrest. eapply context_bind_runs; [apply chase_and_mkdir_runs; facts|]. cbn beta. intros d t1 Hp1 Hw.
  apply nmount_tmpfs_runs; facts.
Qed.

Lemma mount_special_runs t i fs source : validated t -> root_owner t (id_uid i) (id_gid i) -> operation = "special" -> rest = [fs; source] ->
  runs G t (mount_special fd i target fs source) (fun _ _ => True).
Proof.
  intros Hr Ho Hop Hrest. unfold mount_special. destruct (special_allowed fs source) eqn:Ef; [|by apply runs_lift]. cbn [negb].
  assert (source = fs) as ->.
  { apply existsb_exists in Ef as (x & _ & [->%String.eqb_eq ->%String.eqb_eq]%andb_true_iff). done. }
  eapply context_bind_runs; [apply chase_and_mkdir_runs; facts|]. cbn beta. intros d t1 Hp1 Hw. apply nmount_special_runs; facts.
Qed.

Lemma unmount_target_runs t force : validated t -> runs G t (unmount_target root fd target force) (fun _ _ => True).
Proof.
  intros Hr. unfold unmount_target.
  eapply (context_bind_runs _ _ _ _ _ (fun f t' => exists l n d, l ++ [n] = names target /\ walked t' fd l d /\ EOpenAt d n ENTRY_FLAGS 0 (inl f) ∈ t')).
  { apply lift_bind_runs. intros v Hv. destruct (target_split _ _ Hv) as (q & l & n & Hq & Hn & Hl & Hlq & He).
    rewrite Hn, Hq. eapply runs_bind; [apply (parent_dir_runs _ l q (open_relative_dir fd)); [done|]|].
    - intros _. rewrite <- Hlq. apply open_relative_dir_runs, quiet_ok.
    - intros d t1 Hp1 Hw. cbn beta in Hw. apply lift_bind_runs. intros n' [= <-].
      eapply runs_bind; [apply open_child_entry_runs, quiet_ok|]. cbn beta. intros f t2 Hp2 Hf.
      eapply runs_bind; [apply file_type_runs, quiet_ok|]. intros ty t3 Hp3 _. destruct (_ || _); [|by apply runs_lift].
      apply runs_ret. exists l, n, d. facts. }
  intros f t1 Hp1 (l & n & d & Hl & Hw & Hf).
  eapply runs_bind; [apply file_type_runs, quiet_ok|]. intros ty t2 Hp2 _.
  destruct (ty =? S_IFREG)%Z; [eapply (unmount_file_runs _ l d n); facts|].
  destruct (ty =? S_IFDIR)%Z; [|by apply runs_lift].
  eapply (runs_bind _ _ _ _ (fun _ _ => True)); [by apply runs_record; [apply quiet_ok|]|]. intros u3 t3 Hp3 _.
  apply lift_bind_runs. intros v (_ & _ & Hc)%validate_relative_ok.
  eapply (runs_bind _ _ _ _ (fun _ t' => t' = anchored t3 fd)); [apply runs_checked; [by intros; apply quiet_ok|by intros []]|].
  intros u4 t4 Hp4 ->. apply lift_bind_runs. intros p ->%c_string_ok. apply runs_checked; [|done]. intros r.
  apply justify. exists uid, fd, [], fd. split; [facts|]. split; [constructor|]. unfold unmount_allowed. facts. apply cwd_snoc.
Qed.

Lemma dispatch_runs t i : validated t -> root_owner t (id_uid i) (id_gid i) ->
  runs G t (dispatch operation root fd i target rest) (fun _ _ => True).
Proof.
  assert (forall label r v, required_arg label r = Ok v -> r = v.1 :: v.2) as Harg by (by intros ? [|a r] v; [|intros [= <-]]).
  assert (forall r u, reject_extra_args r = Ok u -> r = []) as Hend by by intros [|? ?] ?.
  intros Hr Ho. unfold dispatch.
  destruct (String.eqb_spec operation "nullfs") as [Hop|_]; [|destruct (String.eqb_spec operation "tmpfs") as [Hop|_];
    [|destruct (String.eqb_spec operation "special") as [Hop|_]; [|destruct (String.eqb operation "unmount"); [|by apply runs_lift]]]].
  - apply lift_bind_runs. intros [source r1] H1%Harg. apply lift_bind_runs. intros [dev r2] H2%Harg.
    apply lift_bind_runs. intros [ino r3] H3%Harg. apply lift_bind_runs. intros e He.
    apply lift_bind_runs. intros [access r4] H4%Harg. apply lift_bind_runs. intros ro Hro.
    apply lift_bind_runs. intros u Hu%Hend. cbn [fst snd] in *. eapply mount_nullfs_runs; [done..|]. rewrite H1, H2, H3, H4, Hu.
    unfold parse_access in Hro. destruct (String.eqb_spec access "ro") as [->|]; [by injection Hro as <-|].
    destruct (String.eqb_spec access "rw") as [->|]; [by injection Hro as <-|done].
  - apply lift_bind_runs. intros [options r1] H1%Harg. apply lift_bind_runs. intros u Hu%Hend. cbn [fst snd] in *.
    apply mount_tmpfs_runs; [done..|]. by rewrite H1, Hu.
  - apply lift_bind_runs. intros [fs r1] H1%Harg. apply lift_bind_runs. intros [source r2] H2%Harg.
    apply lift_bind_runs. intros u Hu%Hend. cbn [fst snd] in *. apply mount_special_runs; [done..|]. by rewrite H1, H2, Hu.
  - apply lift_bind_runs. intros [mode r1] H1%Harg. apply lift_bind_runs. intros force _.
    apply lift_bind_runs. intros u Hu%Hend. by apply unmount_target_runs.
Qed.
End Operations.

(** ** Lemmas: the recovery of an orphaned document mount *)

Section Recovery.
Context `{System}.

Lemma os_error_inj n : os_error n = os_error ENOENT -> n = ENOENT.
Proof.
  assert (forall z, has " " (show_Z z +:+ ")") = false) as Hs.
  { intros z. rewrite has_app. rewrite (all_bytes_has number_byte) by (apply number_bytes || done). done. }
  assert (forall z, rsplit_once " " (os_error z) = Some (strerror z +:+ " (os error", show_Z z +:+ ")")) as Hr.
  { intros z. apply rsplit_once_Some. split; [|apply Hs]. unfold os_error, fmt. cbn [foldr].
    by rewrite !sapp_assoc, sapp_nil_r. }
  intros E. pose proof (Hr n) as Hn. rewrite E, Hr in Hn. injection Hn as _ Hn.
  change (show_Z 2 +:+ ")" = show_Z n +:+ ")") in Hn. apply sapp_inv_tail in Hn.
  unfold ENOENT, show_Z in *. destruct (n <? 0)%Z eqn:En; [by vm_compute in Hn|]. apply Z.ltb_ge in En.
  pose proof (parse_digits_show (Z.to_N n)) as Hp. rewrite <- Hn in Hp.
  change (Some 2%N = Some (Z.to_N n)) in Hp. injection Hp as Hp. lia.
Qed.

(** A message without a parenthesis is no system error. *)
Lemma not_os_error s n : has "(" s = false -> String.eqb (os_error n) s = false.
Proof.
  intros Hs. apply String.eqb_neq. intros <-. unfold os_error in Hs. rewrite fmt_cons, has_app in Hs.
  apply orb_false_iff in Hs as [_ Hs]. done.
Qed.

Lemma c_string_error s e : c_string s = Err e -> caused_by ENOENT e = false.
Proof.
  unfold c_string, cstring. destruct (nul_position s) as [i|]; [|done]. set (m := fmt _).
  assert (has "(" m = false) as Hm.
  { unfold m. rewrite !fmt_cons, !has_app. change (show_nat i) with (show_N (N.of_nat i)).
    by rewrite (all_bytes_has is_digit "(" (show_N _)) by (apply show_N_digits || done). }
  intros [= <-]. unfold caused_by. cbn [existsb]. by rewrite !not_os_error.
Qed.

(** A call that fails with the error was answered so. *)
Lemma checked_missing {A} msg (a : trace -> answer A) event t e t' :
  has "(" msg = false -> checked_call msg a event t = (Err e, t') -> caused_by ENOENT e = true -> event (inr ENOENT) ∈ t'.
Proof.
  intros Hm E Hc. unfold checked_call, ask, lift, mbind, M_bind in E. injection E as E <-.
  destruct (a t) as [x|n]; [done|]. injection E as <-. unfold caused_by in Hc. cbn [existsb] in Hc.
  rewrite not_os_error, orb_false_r in Hc by done. cbn [orb] in Hc. apply String.eqb_eq in Hc. symmetry in Hc.
  apply os_error_inj in Hc as ->. auto with mono.
Qed.

Lemma open_child_dir_missing d n t e t' :
  open_child_dir d n t = (Err e, t') -> caused_by ENOENT e = true -> EOpenAt d n DIR_FLAGS 0 (inr ENOENT) ∈ t'.
Proof.
  intros (o & t1 & E & Hr)%M_bind_cases Hc. injection E as <- <-.
  destruct Hr as [(n' & ->%c_string_ok & Hr)|(e' & E & [= <-] & ->)].
  - by eapply checked_missing; [|exact Hr|].
  - by rewrite (c_string_error _ _ E) in Hc.
Qed.

Definition open_step (d : Z) (c : component) : M trace Z :=
  match c with Normal name => open_child_dir d name | _ => lift (bail "mount target is not normalized") end.

Lemma open_step_extends d c t r t' : open_step d c t = (r, t') -> t `prefix_of` t' /\
  match r with Ok d' => exists n, c = Normal n /\ EOpenAt d n DIR_FLAGS 0 (inl d') ∈ t' | Err _ => True end.
Proof.
  intros E. destruct c as [| | |n]; try (by injection E as <- <-).
  destruct (open_child_dir_runs (fun _ _ => True) (fun _ _ _ => I) t d n r t' (fun _ _ _ _ => I) E) as (_ & Hp & Hr).
  split; [done|]. destruct r; [|done]. by exists n.
Qed.

Lemma walk_missing fd l l1 d t e t' :
  walked t fd l1 d -> fold_each open_step l d t = (Err e, t') -> caused_by ENOENT e = true ->
  exists l2 d' n, walked t' fd l2 d' /\ l2 ++ [n] `prefix_of` l1 ++ omap name_of l /\ EOpenAt d' n DIR_FLAGS 0 (inr ENOENT) ∈ t'.
Proof.
  revert l1 d t. induction l as [|c l IH]; intros l1 d t Hw E Hc; cbn [fold_each] in E; [done|].
  apply M_bind_cases in E as (o & t1 & E & Hr). destruct (open_step_extends _ _ _ _ _ E) as [Hp Ho].
  destruct Hr as [(d1 & -> & Hr)|(e' & -> & [= <-] & ->)].
  - destruct Ho as (n & -> & Hd). destruct (IH (l1 ++ [n]) d1 t1) as (l2 & d' & n' & H1 & H2 & H3); [eapply walk_step; facts|done|done|].
    exists l2, d', n'. split_and!; [done| |done]. by rewrite <- app_assoc in H2.
  - destruct c as [| | |n]; try (injection E as <- <-; unfold caused_by in Hc; cbn [existsb] in Hc; by rewrite not_os_error in Hc).
    exists l1, d, n. split_and!; [by eapply walked_mono|cbn; apply prefix_app; by exists (omap name_of l)|by eapply open_child_dir_missing].
Qed.

Lemma open_relative_dir_missing fd app instance t e t' :
  open_relative_dir fd (join_path app instance) t = (Err e, t') -> caused_by ENOENT e = true -> instance_missing t' fd app instance.
Proof.
  intros (o & t1 & E & Hr)%M_bind_cases Hc. injection E as <- <-.
  destruct Hr as [(u & _ & Hr)|(e' & E & [= <-] & ->)].
  - apply M_bind_cases in Hr as (o & t1 & E & Hr).
    destruct Hr as [(d & -> & Hr)|(e' & -> & [= <-] & ->)]; [|left; by eapply checked_missing; [|exact E|]].
    right. eapply (walk_missing fd _ []); [|exact Hr|done].
    destruct (duplicate_dir_runs (fun _ _ => True) (fun _ _ _ => I) t fd [] fd (walk_here _ _) _ _ (fun _ _ _ _ => I) E) as (_ & _ & Hw).
    exact Hw.
  - exfalso. unfold validate_relative in E. destruct (_ || _); [|done]. injection E as <-. unfold caused_by in Hc. cbn [existsb] in Hc.
    by rewrite not_os_error in Hc.
Qed.

Context (chroots device inode mountpoint mode : string).
Abbreviation args := ["recover-orphaned-document-unmount"; chroots; device; inode; mountpoint; mode].
Abbreviation G := (justified args).

(** What the validation of the mount point finds. *)
Definition orphaned (t : trace) (uid fd : Z) : Prop :=
  exists canonical runtime relative app instance owner,
    ECanonicalize chroots (inl canonical) ∈ t /\ file_name_of canonical = Some "chroots" /\
    parent canonical = Some runtime /\ private_dir t runtime fd uid /\
    strip_path_prefix mountpoint canonical = Some relative /\ document_parts relative = Ok (app, instance, owner) /\
    (from_utf8 owner ≫= parse_u32) = Some uid /\ instance_missing t fd app instance.

Lemma instance_missing_mono t t' fd app instance :
  instance_missing t fd app instance -> t `prefix_of` t' -> instance_missing t' fd app instance.
Proof. intros [?|(l & d & n & ? & ? & ?)] Hp; [left; facts|right; exists l, d, n; facts]. Qed.
#[local] Hint Resolve instance_missing_mono : mono.

Lemma recovery_quiet t e : privileged e = false -> G t e.
Proof. intros E E'. by rewrite E in E'. Qed.

Lemma missing_runs t fd app instance :
  runs G t (opened ← catch (open_relative_dir fd (join_path app instance));
            match opened with
            | Ok _ => lift (bail "refusing recovery for an existing sandbox instance")
            | Err e => if caused_by ENOENT e then mret tt else fail ("inspect orphaned sandbox instance" :: e)
            end) (fun _ t' => instance_missing t' fd app instance).
Proof.
  intros r t' Hg E. apply M_bind_cases in E as (o & t1 & E & Hr). unfold catch in E.
  destruct (open_relative_dir fd _ t) as [o' t2] eqn:Eo. injection E as <- <-.
  destruct (open_relative_dir_runs G recovery_quiet t fd _ _ _ Hg Eo) as (Hg2 & Hp & _).
  destruct Hr as [(x & [= <-] & Hr)|(? & [=] & _)]. destruct o' as [d|e].
  - by injection Hr as <- <-.
  - destruct (caused_by ENOENT e) eqn:Ec; injection Hr as <- <-; [|done]. split_and!; [done..|].
    by eapply open_relative_dir_missing.
Qed.

Lemma validate_orphaned_runs t fd uid :
  runs G t (validate_orphaned_document_mountpoint chroots fd mountpoint uid) (fun _ t' => orphaned t' uid fd).
Proof.
  unfold validate_orphaned_document_mountpoint.
  eapply runs_bind; [apply canonicalize_runs, recovery_quiet|]. cbn beta. intros canonical t1 Hp1 Hc.
  destruct (bool_decide (file_name_of canonical = Some "chroots")) eqn:En; cbn [negb]; [|apply runs_lift; by intros ? [=]].
  apply bool_decide_eq_true in En. apply lift_bind_runs. intros runtime Hrt%ok_or_ok.
  apply private_runs; [apply recovery_quiet|]. intros t2 Hp2 Hpriv. destruct (_ || _); [apply runs_lift; by intros ? [=]|].
  apply lift_bind_runs. intros relative Hrel%ok_or_ok. apply lift_bind_runs. intros [[app instance] owner] Hparts.
  destruct (bool_decide _) eqn:Eo; cbn [negb]; [|apply runs_lift; by intros ? [=]]. apply bool_decide_eq_true in Eo.
  eapply runs_mono; [apply missing_runs|]. cbn beta. intros u3 t3 Hp3 Hm.
  exists canonical, runtime, relative, app, instance, owner. facts.
Qed.

Lemma getmntinfo_mounts_ok r mounts : getmntinfo_mounts r = Ok mounts -> exists table, r.1.2 = Some table /\ mounts `prefix_of` table.
Proof.
  unfold getmntinfo_mounts. destruct (r.1.1 <=? 0)%Z; [done|]. destruct r.1.2 as [table|]; [|done]. intros [= <-].
  exists table. split; [done|]. exists (drop (Z.to_nat r.1.1) table). by rewrite take_drop.
Qed.

Lemma recover_document_runs t uid expected force : called_by t uid -> parse_file_identity device inode = Ok expected ->
  runs G t (recover_document chroots expected mountpoint force uid) (fun _ _ => True).
Proof.
  intros Hu Hi. eapply context_bind_runs; [apply open_absolute_dir_runs, recovery_quiet|]. cbn beta. intros fd t1 Hp1 Hd.
  eapply runs_bind; [by apply verify_runs; [apply recovery_quiet|]|]. cbn beta. intros u2 t2 Hp2 Hid.
  eapply runs_bind; [apply validate_orphaned_runs|]. intros u3 t3 Hp3 (canonical & runtime & relative & app & instance & owner & Ho).
  eapply (runs_bind _ _ _ _ (fun m t' => exists table mounts st, EGetmntinfo table ∈ t' /\ table.1.2 = Some mounts /\
     st ∈ mounts /\ f_mntonname st = mountpoint /\ m = mkMounted (f_fsid st) (f_fstypename st))).
  { eapply (runs_bind _ _ _ _ (fun table t' => EGetmntinfo table ∈ t')); [apply runs_ask; [by intros; apply recovery_quiet|auto with mono]|].
    cbn beta. intros table t4 Hp4 Ht. apply lift_bind_runs. intros mounts (all & Hall & k & Hk)%getmntinfo_mounts_ok.
    apply lift_bind_runs. intros st Hst%ok_or_ok. apply find_some in Hst as [Hin Heq]. apply String.eqb_eq in Heq.
    apply runs_ret. exists table, all, st. facts. rewrite Hk. apply elem_of_app. left. by apply list_elem_of_In. }
  intros m t4 Hp4 (table & mounts & st & Ht & Hm & Hin & Hname & ->). cbn [mf_type mf_fsid].
  destruct (String.eqb_spec (f_fstypename st) "nullfs") as [Hty|]; cbn [negb]; [|by apply runs_lift].
  apply lift_bind_runs. intros name ->%cstring_ok. apply runs_checked; [|done]. intros r _. right.
  exists chroots, device, inode, mountpoint, mode. split; [done|].
  destruct Ho as (H1 & H2 & H3 & H4 & H5 & H6 & H7 & H8).
  exists uid, fd, canonical, runtime, relative, app, instance, owner, table, mounts, st, force, r. facts.
Qed.
End Recovery.

(** ** Property: every privileged call is justified *)

Section Confinement.
Context `{System}.

Lemma required_arg_ok label l v : required_arg label l = Ok v -> l = v.1 :: v.2.
Proof. destruct l; [done|]. by intros [= <-]. Qed.

Lemma run_helper_runs args : runs (justified args) [] (run_helper args) (fun _ _ => True).
Proof.
  assert (forall t e, privileged e = false -> justified args t e) as Hq by (intros t e E E'; by rewrite E in E').
  eapply runs_bind; [by apply caller_runs|]. cbn beta. intros uid t1 Hp1 Hu.
  apply lift_bind_runs. intros [operation r1] H1%required_arg_ok. cbn [fst snd] in H1.
  destruct (String.eqb_spec operation "recover-orphaned-document-unmount") as [->|Hop].
  - apply lift_bind_runs. intros [chroots r2] H2%required_arg_ok. apply lift_bind_runs. intros [device r3] H3%required_arg_ok.
    apply lift_bind_runs. intros [inode r4] H4%required_arg_ok. apply lift_bind_runs. intros expected Hi.
    apply lift_bind_runs. intros [mountpoint r5] H5%required_arg_ok. apply lift_bind_runs. intros [mode r6] H6%required_arg_ok.
    apply lift_bind_runs. intros force _. apply lift_bind_runs. intros u Hend. cbn [fst snd] in *.
    destruct r6; [|done]. subst. by apply recover_document_runs.
  - apply lift_bind_runs. intros [root r2] H2%required_arg_ok. apply lift_bind_runs. intros [device r3] H3%required_arg_ok.
    apply lift_bind_runs. intros [inode r4] H4%required_arg_ok. apply lift_bind_runs. intros expected Hi.
    apply lift_bind_runs. intros [target rest] H5%required_arg_ok. cbn [fst snd] in *. subst.
    eapply runs_bind; [by apply open_sandbox_root_runs|]. intros [fd i] t2 Hp2 (Hr & st & Hst & Hou & Hog). cbn [fst snd] in *.
    eapply dispatch_runs; [exact Hr|]. by exists st.
Qed.

(** C4.  Whatever the kernel answers, each call of the setuid helper that changes
    something is justified by the calls before it.  Below a sandbox root: the
    root was opened from [/] component by component without following a
    symbolic link, has the identity the launcher saw, is owned by the caller and
    lies in a runtime directory that only the caller can enter; the call acts on
    a directory reached from that root in the same way along the components of
    the target; new entries go to the root's owner; a mount is a nullfs mount of
    the source that was opened and checked (for a file, while its directory is
    locked), a tmpfs with no options but mode and owner, or one of four special
    file systems; an unmount names the exact mount point.  Otherwise it is the
    one unmount of a document of an instance that is gone. *)
Theorem helper_calls_justified args r t pre e post :
  run_helper args [] = (r, t) -> t = pre ++ e :: post -> justified args pre e.
Proof.
  intros E. destruct (run_helper_runs args r t) as (Hg & _); [by intros [] ? ? [=]|done|]. apply Hg.
Qed.
End Confinement.

(** A run that mounts a directory. *)
Module Sample.
Import SampleSystem.
Definition sample_args : list string :=
  ["nullfs"; "/run/ff/chroots/app/1"; "1"; "9"; "usr/lib"; "/home/lib"; "1"; "9"; "ro"].
Definition sample_trace : list Event := (run_helper sample_args []).2.
Definition mount_position : nat := length sample_trace - 1.
End Sample.

Import SampleSystem Sample.

Lemma helper_calls_justified_witness :
  (run_helper sample_args []).1 = Ok tt /\
  sample_trace !! mount_position = Some (ENmount (nullfs_vector "/home/lib" ".") true (inl tt)) /\
  justified sample_args (take mount_position sample_trace) (ENmount (nullfs_vector "/home/lib" ".") true (inl tt)).
Proof.
  split; [vm_compute; reflexivity|]. split; [vm_compute; reflexivity|].
  apply (helper_calls_justified sample_args (Ok tt) sample_trace _ _ []); vm_compute; reflexivity.
Defined.
