(* ===== verification/SandboxMounts.v ===== *)
(** * SandboxMounts: the mounts of a sandbox instance
    (src/src/sandbox/mount_operations.rs and chroot_instance.rs)

    An instance remembers what it has mounted, so that it can take all of it
    down again.  Operations run on the instance together with the system; the
    commands given to the mount helper, the unmounts and the removal of the root
    are recorded in a trace.  What the operations remember is compared with what
    the trace shows, whatever the system answers and wherever an operation
    fails. *)
From Stdlib Require Import Ascii String NArith ZArith Lia Sorting.Sorted Permutation.
From stdpp Require Import base list strings sets.
From S2P Require Import Prelude MountCalls SecureMount Effects Traces Collections RustStr RustNum RustPath HostFs Processes InstallationPaths Records RunRecords SandboxRecovery Activation.

(** ** Mounts and calls *)

(** A command line of the mount helper (see SecureMount). *)
Abbreviation helper_command := (list string) (only parsing).

Record OwnedMount := mkOwned { om_path : path; om_read_only : bool }.
Record NullfsMapping := mkMapping { nm_source : path; nm_target : path }.

#[export] Instance owned_mount_eq_dec : EqDecision OwnedMount.
Proof. solve_decision. Defined.

(** The calls that matter for what is mounted, each with its outcome. *)
Inductive MountEvent :=
| EPublish (record : result path)
| ECreateRoot (root : path) (r : io_result unit)
| EMount (c : helper_command) (r : result unit)
| EUnmount (m : OwnedMount) (r : result unit)
| ERemoveRoot (root : path) (r : result unit)
| ERemoveRecord (record : path) (r : result unit)
| ECleanup (part : string) (r : result unit).

(** What the operations use of the system beyond the recovery's: the mount
    helper run with a command, and the making of links, directories and files. *)
Class MountWorld (W : Type) `{RecoveryWorld W} := {
  run_command : helper_command -> string -> M W unit;
  read_link : W -> path -> io_result string;
  make_symlink : string -> path -> W -> io_result unit * W;
  create_dir : path -> W -> io_result unit * W;
  create_file : path -> W -> io_result unit * W;
}.

(** ** Computations on an instance and the system *)

Section Ambient.
Context {S W : Type}.
Abbreviation T A := (M (traced (S * W) MountEvent) A) (only parsing).

Definition on_world {A} (m : M W A) : M (S * W) A := fun s =>
  let (r, w) := m s.2 in (r, (s.1, w)).
(** A call that is not recorded, and views of the system and of the instance. *)
Definition world {A} (m : M W A) : T A := quiet (on_world m).
Definition ask_world {A} (f : W -> result A) : T A := world (getr f).
Definition see_world {A} (f : W -> A) : T A := world (gets f).
Definition self {A} (f : S -> A) : T A := quiet (gets (fun s => f s.1)).
Definition update (f : S -> S) : T unit := quiet (fun s => (Ok tt, (f s.1, s.2))).
Definition record_call {A} (event : result A -> MountEvent) (m : M W A) : T A := call event (on_world m).

Context `{MountWorld W}.

(** [identity]: device and inode of a file. *)
Definition identity (p : path) : T (Z * Z) :=
  ask_world (fun w => i ← io_context (fmt ["read metadata for "; p]) (metadata_identity w (components p));
                      Ok (Z.of_N i.1, Z.of_N i.2)).
Definition run_mount (c : helper_command) (action : string) : T unit := record_call (EMount c) (run_command c action).
End Ambient.

(** ** The instance *)

(** The fields of [ChrootInstance] that its mounts and its cleanup use. *)
Record ChrootInstance := mkInstance {
  ci_root : path;
  plan_mounts : list ExtensionMount;     (* extension_plan.mounts *)
  owned_mounts : list OwnedMount;
  nested_excluded_mounts : list path;
  nullfs_mounts : list NullfsMapping;
  mount_staging_ready : bool;
  next_mount_staging_id : N;
  run_record : path;
  cleaned : bool;
}.

(** [ChrootInstance::new] *)
Definition new_instance (root : path) (plan : list ExtensionMount) (record : path) : ChrootInstance :=
  mkInstance root plan [] [] [] false 0 record false.

Definition set_owned (l : list OwnedMount) (s : ChrootInstance) : ChrootInstance :=
  mkInstance (ci_root s) (plan_mounts s) l (nested_excluded_mounts s) (nullfs_mounts s) (mount_staging_ready s)
    (next_mount_staging_id s) (run_record s) (cleaned s).
Definition push_owned (m : OwnedMount) (s : ChrootInstance) : ChrootInstance := set_owned (owned_mounts s ++ [m]) s.
Definition set_mappings (l : list NullfsMapping) (s : ChrootInstance) : ChrootInstance :=
  mkInstance (ci_root s) (plan_mounts s) (owned_mounts s) (nested_excluded_mounts s) l (mount_staging_ready s)
    (next_mount_staging_id s) (run_record s) (cleaned s).
Definition push_mapping (m : NullfsMapping) (s : ChrootInstance) : ChrootInstance := set_mappings (nullfs_mounts s ++ [m]) s.
Definition push_excluded (p : path) (s : ChrootInstance) : ChrootInstance :=
  mkInstance (ci_root s) (plan_mounts s) (owned_mounts s) (nested_excluded_mounts s ++ [p]) (nullfs_mounts s)
    (mount_staging_ready s) (next_mount_staging_id s) (run_record s) (cleaned s).
Definition set_staging (ready : bool) (next : N) (s : ChrootInstance) : ChrootInstance :=
  mkInstance (ci_root s) (plan_mounts s) (owned_mounts s) (nested_excluded_mounts s) (nullfs_mounts s) ready next
    (run_record s) (cleaned s).
Definition set_cleaned (s : ChrootInstance) : ChrootInstance :=
  mkInstance (ci_root s) (plan_mounts s) (owned_mounts s) (nested_excluded_mounts s) (nullfs_mounts s)
    (mount_staging_ready s) (next_mount_staging_id s) (run_record s) true.

(** [mapping.source = source] on the last mapping, if there is one. *)
Definition set_last_source (source : path) (l : list NullfsMapping) : list NullfsMapping :=
  match last l with
  | Some m => removelast l ++ [mkMapping source (nm_target m)]
  | None => l
  end.

(** ** Where a mount would show itself *)

Definition STAGING_ROOT : string := ".freebsd-flatpak-mount-sources".

(** The mount that holds the target: of the deepest ones the last. *)
Definition covering_mount (mounts : list OwnedMount) (target : path) : option OwnedMount :=
  max_by_key (fun m => depth (om_path m))
    (List.filter (fun m => negb (path_eqb target (om_path m)) && path_starts_with target (om_path m)) mounts) None.

(** Whether the mount that holds the target shows the source at the target
    already. *)
Definition nullfs_source_aliases_parent {W} `{HostFs W} (mappings : list NullfsMapping) (mounts : list OwnedMount)
    (source target : path) (w : W) : bool :=
  match covering_mount mounts target with
  | None => false
  | Some covering =>
      match List.find (fun m => path_eqb (nm_target m) (om_path covering)) (rev mappings) with
      | None => false
      | Some mapping =>
          match strip_path_prefix target (nm_target mapping) with
          | None => false
          | Some suffix =>
              match canonicalize w (join_path (nm_source mapping) suffix) with
              | inl mapped => path_eqb mapped source
              | inr _ => false
              end
          end
      end
  end.

(** ** Mounting *)

Section Mounting.
Context {W : Type} `{MountWorld W}.
Abbreviation T A := (M (traced (ChrootInstance * W) MountEvent) A) (only parsing).

(** A command of the helper that makes a mount, which the instance then owns. *)
Definition mount_and_own (c : T helper_command) (action : string) (m : OwnedMount) : T unit :=
  c ← c;
  _ ← run_mount c action;
  update (push_owned m).

Definition mount_tmpfs (target_relative options : string) : T unit :=
  root ← self ci_root;
  let target := join_path root target_relative in
  _ ← world (ensure_mountpoint_free (components target));
  mount_and_own (i ← identity root; lift (tmpfs_command root i target_relative options))
    (fmt ["mount tmpfs "; target]) (mkOwned target false).
Definition mount_tmpfs_secure (target_relative options : string) : T unit := mount_tmpfs target_relative options.

Definition mount_special (target_relative fs_type source : string) : T unit :=
  root ← self ci_root;
  let target := join_path root target_relative in
  _ ← world (ensure_mountpoint_free (components target));
  mount_and_own (i ← identity root; lift (special_command root i target_relative fs_type source))
    (fmt ["mount "; fs_type; " "; target]) (mkOwned target false).

(** The private staging, made when it is first needed. *)
Definition prepare_staging : T unit :=
  ready ← self mount_staging_ready;
  if ready : bool then mret tt
  else
    root ← self ci_root;
    let staging_root := join_path root STAGING_ROOT in
    _ ← world (io_step (fmt ["create private mount staging root "; staging_root]) (create_dir staging_root));
    _ ← mount_tmpfs_secure STAGING_ROOT "mode=0700";
    next ← self next_mount_staging_id;
    update (set_staging true next).

(** A mount that would show itself goes through a staging mount; [None] when
    the nesting exceeds the fuel. *)
Fixpoint mount_nullfs_impl (fuel : nat) (source target_relative : path) (read_only : bool) : T (option unit) :=
  match fuel with
  | 0 => mret None
  | S fuel =>
      root ← self ci_root;
      let source_is_private := path_starts_with source (join_path root STAGING_ROOT) in
      source ← (if source_is_private then mret source
                else ask_world (fun w => io_context (fmt ["resolve nullfs source "; source]) (canonicalize w source)));
      let target := join_path root target_relative in
      _ ← world (ensure_mountpoint_free (components target));
      mappings ← self nullfs_mounts;
      mounts ← self owned_mounts;
      aliases_parent ← see_world (nullfs_source_aliases_parent mappings mounts source target);
      if aliases_parent : bool then
        _ ← prepare_staging;
        id ← self next_mount_staging_id;
        let staging_relative := join_path STAGING_ROOT (show_N id) in
        _ ← update (fun s => set_staging (mount_staging_ready s) (id + 1) s);
        staged ← mount_nullfs_impl fuel source staging_relative read_only;
        match staged with
        | None => mret None
        | Some _ =>
            mounted ← mount_nullfs_impl fuel (join_path root staging_relative) target_relative read_only;
            match mounted with
            | None => mret None
            | Some _ => Some <$> update (fun s => set_mappings (set_last_source source (nullfs_mounts s)) s)
            end
        end
      else
        _ ← mount_and_own
          (i ← identity root;
           source_identity ← (if source_is_private then mret None else Some <$> identity source);
           lift (nullfs_command root i source source_identity target_relative read_only))
          (fmt ["mount nullfs "; target]) (mkOwned target read_only);
        Some <$> update (push_mapping (mkMapping source target))
  end.

(** Two levels: the staging mount and the mount from it are direct. *)
Definition NULLFS_FUEL : nat := 2.
Definition mount_nullfs (source target_relative : path) (read_only : bool) : T unit :=
  r ← mount_nullfs_impl NULLFS_FUEL source target_relative read_only;
  lift (ok_or "nullfs mounts nested too deeply" r).
Definition mount_nullfs_secure (source target_relative : path) (read_only : bool) : T unit :=
  mount_nullfs source target_relative read_only.

Definition mount_nullfs_extra_permission (source target_relative : path) (read_only : bool) : T unit :=
  _ ← mount_nullfs source target_relative read_only;
  update (fun s => push_excluded (join_path (ci_root s) target_relative) s).

(** ** Merged extension directories *)

Definition names_of (entries : list ExtensionMergeEntry) : list string := bs_of_list (map me_name entries).

(** What of the base directory is shown beside the extensions; a directory that
    cannot be read shows nothing. *)
Definition base_sources (base : path) (hidden : list string) (w : W) : result (list (string * path)) :=
  match read_dir w base with
  | inr _ => Ok []
  | inl entries =>
      (fun read : list DirEntry =>
         omap (fun e => if bs_contains (file_name e) hidden then None
                        else Some (file_name e, join_path base (file_name e))) read)
        <$> map_result (io_context (fmt ["read merge base "; base])) entries
  end.

Definition place_source (merge_target target : path) (s : string * path) : T unit :=
  let '(name, source) := s in
  let destination := join_path target name in
  kind ← ask_world (fun w => io_context (fmt ["inspect merge source "; source]) (symlink_kind w source));
  match kind with
  | Symlink =>
      link ← ask_world (fun w => io_context (fmt ["read merge symlink "; source]) (read_link w source));
      world (io_step (fmt ["create merged symlink "; destination; " -> "; link]) (make_symlink link destination))
  | _ =>
      _ ← world (io_step (fmt ["create "; destination])
                   (if bool_decide (kind = Directory) then create_dir destination else create_file destination));
      mount_nullfs source (join_path merge_target name) true
  end.

Definition mount_extension_merge_inner (merge_target base : path) (entries : list ExtensionMergeEntry)
    (placeholders : list string) : T unit :=
  root ← self ci_root;
  let target := join_path root merge_target in
  present ← see_world (fun w => is_dir w target);
  if negb present then lift (bail (fmt ["extension merge target is missing from its deployment: "; target]))
  else
    shown ← ask_world (base_sources base (names_of entries ++ placeholders));
    let sources := sort_by (on fst) (shown ++ map (fun e => (me_name e, me_source e)) entries) in
    _ ← mount_tmpfs_secure merge_target "mode=0755";
    _ ← for_each (fun name =>
          world (io_step (fmt ["create extension placeholder "; join_path target name]) (create_dir (join_path target name))))
        placeholders;
    for_each (place_source merge_target target) sources.

(** The directory that holds exactly the entries, when the base is empty. *)
Definition direct_merge_source (base : path) (entries : list ExtensionMergeEntry) (w : W) : option path :=
  first ← head entries;
  source_dir ← parent (me_source first);
  if existsb (fun e => negb (bool_decide (components <$> parent (me_source e) = Some (components source_dir)))) entries
  then None
  else
    let base_is_empty :=
      match read_dir w base with
      | inl l => Nat.eqb (length l) 0
      | inr e => bool_decide (ioe_kind e = NotFound) || bool_decide (ioe_kind e = NotADirectory)
      end in
    if negb base_is_empty then None
    else
      listed ← io_ok (read_dir w source_dir);
      source_entries ← mapM (fun e : io_result DirEntry => file_name <$> io_ok e) listed;
      if bool_decide (names_of entries = bs_of_list source_entries) then Some source_dir else None.

Definition mount_extension_merge (merge : ExtensionMergeDirectory) : T unit :=
  if bool_decide (md_entries merge = []) then mret tt
  else
    let target := to_path (md_target merge) in
    direct ← see_world (direct_merge_source (md_base_source merge) (md_entries merge));
    match direct with
    | Some source => mount_nullfs source target true
    | None => mount_extension_merge_inner target (md_base_source merge) (md_entries merge) []
    end.

(** ** Targets of extensions *)

(** The [while] loop over the parents of the target; [None] is the error. *)
Fixpoint existing_parent (fuel : nat) (root scope overlay : path) (w : W) : option path :=
  match fuel with
  | 0 => None
  | S fuel =>
      if is_dir w (join_path root overlay) then Some overlay
      else match parent overlay with
           | None => None
           | Some overlay => if path_eqb overlay scope then None else existing_parent fuel root scope overlay w
           end
  end.

(** The names that extensions need directly below the overlay. *)
Definition placeholder_of (overlay : path) (m : ExtensionMount) : option string :=
  rest ← strip_path_prefix (target m) overlay;
  os_str_of <$> head (components rest).

Definition prepare_extension_directory (target_relative app_dir runtime_dir : path) : T unit :=
  root ← self ci_root;
  let target := join_path root target_relative in
  present ← see_world (fun w => is_dir w target);
  if present : bool then mret tt
  else
    made ← catch (world (io_try (make_dirs target)));
    match made with
    | Ok _ => mret tt
    | Err _ =>
        '(scope, deployment) ← lift (
          if path_starts_with target_relative "app" then Ok ("app", app_dir)
          else if path_starts_with target_relative "usr" then Ok ("usr", runtime_dir)
          else bail (fmt ["extension target is outside /app and /usr: "; target_relative]));
        start ← lift (ok_or "extension target has no parent" (parent target_relative));
        found ← see_world (existing_parent (S (depth start)) root scope start);
        overlay ← lift (ok_or (fmt ["extension target has no safe existing parent: "; target_relative]) found);
        (* [expect]: a panic *)
        relative ← lift (ok_or "extension overlay remains inside scope" (strip_path_prefix overlay scope));
        if path_eqb overlay scope
        then lift (bail (fmt ["refusing to overlay complete extension scope for target "; target_relative]))
        else
          plan ← self plan_mounts;
          let placeholders := bs_of_list (omap (placeholder_of overlay) plan) in
          _ ← mount_extension_merge_inner overlay (join_path (join_path deployment "files") relative) [] placeholders;
          world (io_step (fmt ["create sandbox extension target "; target]) (make_dirs target))
    end.

Definition prepare_extension_target (e : ExtensionMount) (app_dir runtime_dir : path) : T unit :=
  prepare_extension_directory (target e) app_dir runtime_dir.
Definition prepare_extension_merge_target (m : ExtensionMergeDirectory) (app_dir runtime_dir : path) : T unit :=
  prepare_extension_directory (to_path (md_target m)) app_dir runtime_dir.
End Mounting.

(** ** Taking down *)

(** The order in which mounts are taken down: by the number of components, then
    by path, the greatest first. *)
Definition deeper (a b : OwnedMount) : bool := on (fun m => depth_key (components (om_path m))) b a.

Definition owned_mount_teardown_order (root : path) (mounts : list OwnedMount) : result (list OwnedMount) :=
  match List.find (fun m => negb (path_starts_with (om_path m) root)) mounts with
  | Some m => bail (fmt ["refusing to clean mount outside sandbox root "; root; ": "; om_path m])
  | None => Ok (sort_by deeper mounts)
  end.

Definition nested_mount_plan (mounts : list OwnedMount) (excluded : list path) : list OwnedMount :=
  List.filter (fun m => negb (existsb (path_eqb (om_path m)) excluded)) mounts.

(** The host resources of the instance, as far as its cleanup calls them. *)
Class HostParts (W : Type) := {
  sandbox_doc_dir : W -> option path;
  portal_cleanup : M W unit;
  graphics_cleanup : M W unit;
  system_bus_cleanup : M W unit;
  audio_cleanup : path -> M W unit;
}.

Section Cleanup.
Context {W : Type} `{MountWorld W, !HostParts W}.
Abbreviation T A := (M (traced (ChrootInstance * W) MountEvent) A) (only parsing).

Definition skipped_mount (skip : option path) (m : OwnedMount) : bool :=
  match skip with Some doc => path_eqb (om_path m) doc | None => false end.

(** One owned mount; the errors and the mounts that remain are collected. *)
Definition take_down (skip : option path) (st : list string * list OwnedMount) (m : OwnedMount)
  : T (list string * list OwnedMount) :=
  if skipped_mount skip m then mret (st.1, st.2 ++ [m])
  else
    r ← catch (record_call (EUnmount m) (unmount_mountpoint (components (om_path m)) (om_read_only m)));
    mret (match r with Ok _ => st | Err e => (st.1 ++ [chain e], st.2 ++ [m]) end).

Definition clean_part (part : string) (m : M W unit) (errors : list string) : T (list string) :=
  r ← catch (record_call (ECleanup part) m);
  mret (match r with Ok _ => errors | Err e => errors ++ [chain e] end).

(** The generated trees are sources of mounts: they go only when every mount
    has. *)
Definition clean_parts (root : path) (errors : list string) (remaining : list OwnedMount) : T (list string) :=
  errors ← (if bool_decide (remaining = []) then clean_part "graphics" graphics_cleanup errors else mret errors);
  errors ← (if bool_decide (remaining = []) then clean_part "system bus" system_bus_cleanup errors else mret errors);
  clean_part "audio" (audio_cleanup root) errors.

Definition finish_cleanup (fuel : nat) (paths : Installation) (root : path) (errors : list string) : T unit :=
  if bool_decide (errors = []) then
    _ ← record_call (ERemoveRoot root) (remove_instance_root (components root));
    path ← self run_record;
    _ ← record_call (ERemoveRecord path) (remove_run_record path);
    _ ← world (cleanup_retired_deployments fuel paths);
    update set_cleaned
  else fail [fmt ["cleanup failed:"; nl; join nl errors]].

Definition cleanup (fuel : nat) (paths : Installation) : T unit :=
  root ← self ci_root;
  _ ← world (terminate_chroot_processes (components root));
  portal_doc_dir ← see_world sandbox_doc_dir;
  portal ← catch (record_call (ECleanup "portal") portal_cleanup);
  let errors := match portal with Ok _ => [] | Err e => [chain e] end in
  owned ← self owned_mounts;
  _ ← update (set_owned []);
  '(errors, remaining) ←
    match owned_mount_teardown_order root owned with
    | Ok mounts => fold_each (take_down (if is_ok portal then None else portal_doc_dir)) mounts (errors, [])
    | Err e => mret (errors ++ [chain e], owned)
    end;
  _ ← update (set_owned remaining);
  errors ← clean_parts root errors remaining;
  finish_cleanup fuel paths root errors.

(** [Drop]: an instance that is not cleaned is cleaned once more. *)
Definition drop_instance (fuel : nat) (paths : Installation) : T unit :=
  done ← self cleaned;
  if done : bool then mret tt else _ ← catch (cleanup fuel paths); mret tt.
End Cleanup.

(** ** What a trace says is mounted *)

(** The mount that a command of the helper makes. *)
Definition made_by (c : helper_command) : option OwnedMount :=
  match c with
  | _ :: op :: root :: _ :: _ :: target :: rest =>
      Some (mkOwned (join_path root target) (String.eqb op "nullfs" && bool_decide (last rest = Some "ro")))
  | _ => None
  end.

Definition mounted_by (e : MountEvent) : option OwnedMount :=
  match e with EMount c (Ok _) => made_by c | _ => None end.
Definition mounted (t : list MountEvent) : list OwnedMount := omap mounted_by t.

Definition unmounted_by (e : MountEvent) : option OwnedMount :=
  match e with EUnmount m (Ok _) => Some m | _ => None end.
Definition unmounted (t : list MountEvent) : list OwnedMount := omap unmounted_by t.

(** Strictly below the root. *)
Definition below (root : path) (m : OwnedMount) : Prop :=
  path_starts_with (om_path m) root = true /\ path_eqb (om_path m) root = false.

(** ** Lemmas: owning what is mounted *)

Lemma join_below root rel : root <> "" -> validate_relative rel = Ok tt -> forall ro, below root (mkOwned (join_path root rel) ro).
Proof.
  intros Hr Hv ro. unfold validate_relative in Hv. destruct (is_empty rel) eqn:Ee; [done|].
  destruct (existsb (fun c => negb (normal c)) (components rel)) eqn:En; [done|].
  assert (Forall (fun c => normal c = true) (components rel)) as Hn.
  { apply Forall_forall. intros c Hc. apply not_false_iff_true. intros Hf. apply not_true_iff_false in En. apply En.
    apply existsb_exists. exists c. split; [by apply list_elem_of_In|by rewrite Hf]. }
  apply is_empty_false in Ee. destruct (normal_relative rel Ee Hn) as (Ha & Hb & Hc).
  split; [by apply path_starts_with_join|]. apply not_true_iff_false. rewrite path_eqb_true. cbn [om_path].
  rewrite components_join, <- Hb by done. intros E. apply (f_equal length) in E. rewrite length_app in E.
  apply Hc, nil_length_inv. lia.
Qed.

Definition is_mount (e : MountEvent) : Prop := match e with EMount _ _ => True | _ => False end.

(** The instance owns exactly what the trace shows as mounted, all of it below
    its root; so far there were only mounts. *)
Record tracked {W} (root record : path) (s : traced (ChrootInstance * W) MountEvent) : Prop := {
  tracked_root : ci_root s.1.1 = root;
  tracked_record : run_record s.1.1 = record;
  tracked_owned : owned_mounts s.1.1 = mounted s.2;
  tracked_below : Forall (below root) (owned_mounts s.1.1);
  tracked_mounts : Forall is_mount s.2;
  tracked_uncleaned : cleaned s.1.1 = false;
}.

Section Tracking.
Context {W : Type} `{MountWorld W} (root record : path).
Abbreviation T A := (M (traced (ChrootInstance * W) MountEvent) A) (only parsing).
Abbreviation P := (@tracked W root record) (only parsing).

(** A step that leaves the mounts and the trace as they are. *)
Definition same_mounts (f : ChrootInstance -> ChrootInstance) : Prop :=
  forall s, ci_root (f s) = ci_root s /\ run_record (f s) = run_record s /\ owned_mounts (f s) = owned_mounts s /\
    cleaned (f s) = cleaned s.

Lemma keeps_world {A} (m : M W A) : keeps P (world m).
Proof. intros [[i w] t] []. unfold world, quiet, on_world. cbn. by destruct (m w). Qed.
Lemma keeps_self {A} (f : ChrootInstance -> A) : keeps P (self f).
Proof. by intros [[i w] t]. Qed.
Lemma keeps_update f : same_mounts f -> keeps P (update f).
Proof. intros Hf [[i w] t] []. destruct (Hf i) as (Hr & Hp & Ho & Hc). split; cbn in *; by rewrite ?Hr, ?Hp, ?Ho, ?Hc. Qed.
(** The root that is read is the root. *)
Lemma keeps_root {A} (k : path -> T A) : keeps P (k root) -> keeps P (self ci_root ≫= k).
Proof. intros Hk s Hs. destruct s as [[i w] t]. pose proof (tracked_root _ _ _ Hs) as E. cbn in E.
  change (P (k (ci_root i) ((i, w), t)).2). rewrite E. by apply Hk.
Qed.

(** The only step that mounts: the command makes the mount that is pushed. *)
Lemma keeps_mount (c : T helper_command) action m :
  keeps P c -> (forall s c' s', c s = (Ok c', s') -> made_by c' = Some m /\ below root m) ->
  keeps P (mount_and_own c action m).
Proof.
  intros Hc Hm s Hs. unfold mount_and_own, mbind, M_bind. specialize (Hc s Hs).
  destruct (c s) as [[c'|e] [[i w] t]] eqn:Ec; [|done]. destruct (Hm _ _ _ Ec) as [Hmade Hbelow].
  destruct Hc as [Hr Hrec Ho Hall Hev Hcl]. cbn in Hr, Hrec, Ho, Hall, Hev, Hcl.
  unfold run_mount, record_call, call, on_world. cbn [fst snd].
  destruct (run_command c' action w) as [[u|e] w']; split; unfold mounted; cbn; rewrite ?omap_app; cbn; try done.
  - by rewrite Hmade, Ho.
  - apply Forall_app. split; [done|by apply Forall_singleton].
  - by apply Forall_app; repeat constructor.
  - by rewrite app_nil_r.
  - by apply Forall_app; repeat constructor.
Qed.

Lemma keeps_identity p : keeps P (identity p).
Proof. apply keeps_world. Qed.
End Tracking.

#[export] Hint Resolve keeps_world keeps_self keeps_update keeps_root keeps_identity : keeps.
#[export] Hint Extern 1 (keeps _ (match ?x with _ => _ end)) => destruct x : keeps.
#[export] Hint Extern 1 (keeps _ (ask_world _)) => apply keeps_world : keeps.
#[export] Hint Extern 1 (keeps _ (see_world _)) => apply keeps_world : keeps.
#[export] Hint Extern 1 (same_mounts _) => (intros ?; by split_and!) : keeps.

Section Tracked.
Context {W : Type} `{MountWorld W} (root record : path) (rooted : root <> "").
Abbreviation T A := (M (traced (ChrootInstance * W) MountEvent) A) (only parsing).
Abbreviation P := (@tracked W root record) (only parsing).

Lemma bind_lift_ok {S A B} (m : M S A) (f : A -> result B) s b s' : (x ← m; lift (f x)) s = (Ok b, s') -> exists x, f x = Ok b.
Proof. intros (x & s1 & _ & E)%M_bind_ok. exists x. unfold lift in E. by injection E. Qed.

Lemma tmpfs_made i rel options c : tmpfs_command root i rel options = Ok c ->
  made_by c = Some (mkOwned (join_path root rel) false) /\ below root (mkOwned (join_path root rel) false).
Proof.
  unfold tmpfs_command. intros ([] & Hv & E)%bind_ok. apply Ok_inj in E as <-. split; [done|by apply join_below].
Qed.
Lemma special_made i rel fs_type source c : special_command root i rel fs_type source = Ok c ->
  made_by c = Some (mkOwned (join_path root rel) false) /\ below root (mkOwned (join_path root rel) false).
Proof.
  unfold special_command. intros ([] & Hv & E)%bind_ok. apply Ok_inj in E as <-. split; [done|by apply join_below].
Qed.
Lemma nullfs_made i source si rel ro c : nullfs_command root i source si rel ro = Ok c ->
  made_by c = Some (mkOwned (join_path root rel) ro) /\ below root (mkOwned (join_path root rel) ro).
Proof.
  unfold nullfs_command. intros ([] & Hv & E)%bind_ok. destruct si as [si|]; cbn in E; apply Ok_inj in E as <-;
    (split; [by destruct ro|by apply join_below]).
Qed.

Lemma keeps_mount_tmpfs rel options : keeps P (mount_tmpfs rel options).
Proof.
  unfold mount_tmpfs. apply keeps_root. cbn beta zeta. apply keeps_bind; [auto with keeps|]. intros _.
  apply keeps_mount; [eauto with keeps|]. intros s c' s' (i & E)%bind_lift_ok. by eapply tmpfs_made.
Qed.
Lemma keeps_mount_special rel fs_type source : keeps P (mount_special rel fs_type source).
Proof.
  unfold mount_special. apply keeps_root. cbn beta zeta. apply keeps_bind; [auto with keeps|]. intros _.
  apply keeps_mount; [eauto with keeps|]. intros s c' s' (i & E)%bind_lift_ok. by eapply special_made.
Qed.
Lemma keeps_prepare_staging : keeps P prepare_staging.
Proof.
  unfold prepare_staging, mount_tmpfs_secure. apply keeps_bind; [auto with keeps|]. intros [|]; [auto with keeps|].
  apply keeps_root. cbn beta zeta. apply keeps_bind; [auto with keeps|]. intros _.
  apply keeps_bind; [apply keeps_mount_tmpfs|]. auto with keeps.
Qed.
#[local] Hint Resolve keeps_mount_tmpfs keeps_mount_special keeps_prepare_staging : keeps.

Lemma keeps_mount_nullfs_impl fuel source rel ro : keeps P (mount_nullfs_impl fuel source rel ro).
Proof.
  revert source rel ro. induction fuel as [|fuel IH]; intros source rel ro; cbn [mount_nullfs_impl]; [auto with keeps|].
  apply keeps_root. cbn beta zeta. apply keeps_bind; [auto with keeps|]. intros source'.
  apply keeps_bind; [auto with keeps|]. intros _. apply keeps_bind; [auto with keeps|]. intros mappings.
  apply keeps_bind; [auto with keeps|]. intros mounts. apply keeps_bind; [auto with keeps|]. intros [|].
  - apply keeps_bind; [auto with keeps|]. intros _. apply keeps_bind; [auto with keeps|]. intros id.
    apply keeps_bind; [auto with keeps|]. intros _. apply keeps_bind; [apply IH|]. intros [|]; [|auto with keeps].
    apply keeps_bind; [apply IH|]. intros [|]; auto with keeps.
  - apply keeps_bind; [|auto with keeps]. apply keeps_mount.
    + apply keeps_bind; [auto with keeps|]. intros i. apply keeps_bind; [|auto with keeps].
      destruct (path_starts_with _ _); auto with keeps.
    + intros s c' s' (i & s1 & _ & (si & E)%bind_lift_ok)%M_bind_ok. by eapply nullfs_made.
Qed.
Lemma keeps_mount_nullfs source rel ro : keeps P (mount_nullfs source rel ro).
Proof. apply keeps_bind; [apply keeps_mount_nullfs_impl|]. auto with keeps. Qed.
#[local] Hint Resolve keeps_mount_nullfs : keeps.

Lemma keeps_mount_nullfs_extra source rel ro : keeps P (mount_nullfs_extra_permission source rel ro).
Proof. unfold mount_nullfs_extra_permission. auto with keeps. Qed.

Lemma keeps_place_source merge_target target s : keeps P (place_source merge_target target s).
Proof.
  destruct s as [name source]. unfold place_source. cbn beta zeta. apply keeps_bind; [auto with keeps|]. intros kind.
  assert (forall m : T unit, keeps P m -> keeps P (_ ← m; mount_nullfs source (join_path merge_target name) true)) as Hm.
  { intros m Hk. apply keeps_bind; [done|]. auto with keeps. }
  destruct kind; [apply Hm; auto with keeps..| |apply Hm; auto with keeps]. auto with keeps.
Qed.
Lemma keeps_merge_inner merge_target base entries placeholders :
  keeps P (mount_extension_merge_inner merge_target base entries placeholders).
Proof.
  unfold mount_extension_merge_inner, mount_tmpfs_secure. apply keeps_root. cbn beta zeta.
  apply keeps_bind; [auto with keeps|]. intros [|]; cbn [negb]; [|auto with keeps].
  apply keeps_bind; [auto with keeps|]. intros shown. apply keeps_bind; [auto with keeps|]. intros _.
  apply keeps_bind; [apply keeps_for_each; auto with keeps|]. intros _. apply keeps_for_each. intros. apply keeps_place_source.
Qed.
#[local] Hint Resolve keeps_merge_inner : keeps.

Lemma keeps_mount_extension_merge merge : keeps P (mount_extension_merge merge).
Proof. unfold mount_extension_merge. case_bool_decide; auto with keeps. Qed.

Lemma keeps_prepare_directory rel app_dir runtime_dir : keeps P (prepare_extension_directory rel app_dir runtime_dir).
Proof.
  unfold prepare_extension_directory. apply keeps_root. cbn beta zeta. apply keeps_bind; [auto with keeps|]. intros [|]; [auto with keeps|].
  apply keeps_bind; [auto with keeps|]. intros [|]; [auto with keeps|]. apply keeps_bind; [auto with keeps|]. intros [scope deployment].
  apply keeps_bind; [auto with keeps|]. intros start. apply keeps_bind; [auto with keeps|]. intros found.
  apply keeps_bind; [auto with keeps|]. intros overlay. apply keeps_bind; [auto with keeps|]. intros relative.
  destruct (path_eqb _ _); [auto with keeps|]. apply keeps_bind; [auto with keeps|]. intros plan.
  apply keeps_bind; auto with keeps.
Qed.
End Tracked.

(** ** Lemmas: one step at a time *)

Section Steps.
Context {S W : Type}.
Abbreviation T A := (M (traced (S * W) MountEvent) A) (only parsing).

Lemma world_runs {A} (m : M W A) (s : traced (S * W) MountEvent) r s' :
  world m s = (r, s') -> s'.1.1 = s.1.1 /\ s'.2 = s.2.
Proof. unfold world, quiet, on_world. destruct s as [[i w] t]. cbn. destruct (m w). by intros [= <- <-]. Qed.
Lemma record_runs {A} event (m : M W A) (s : traced (S * W) MountEvent) r s' :
  record_call event m s = (r, s') -> s'.1.1 = s.1.1 /\ s'.2 = s.2 ++ [event r].
Proof. unfold record_call, call, on_world. destruct s as [[i w] t]. cbn. destruct (m w). by intros [= <- <-]. Qed.
Lemma catch_runs {A} (m : T A) s r s' : catch m s = (r, s') -> exists o, r = Ok o /\ m s = (o, s').
Proof. unfold catch. destruct (m s) as [o s1]. intros [= <- <-]. by exists o. Qed.
Lemma self_bind {A B} (f : S -> A) (k : A -> T B) s : (self f ≫= k) s = k (f s.1.1) s.
Proof. by destruct s as [[i w] t]. Qed.
Lemma update_bind {B} (f : S -> S) (k : unit -> T B) (s : traced (S * W) MountEvent) :
  (update f ≫= k) s = k tt ((f s.1.1, s.1.2), s.2).
Proof. by destruct s as [[i w] t]. Qed.
End Steps.

(** ** Lemmas: taking down *)

(** A mount with what became of it: nothing, or the outcome of its unmount. *)
Abbreviation outcome := (OwnedMount * option (result unit))%type (only parsing).
Definition tried (o : outcome) : option MountEvent := EUnmount o.1 <$> o.2.
Definition gone (o : outcome) : bool := match o.2 with Some (Ok _) => true | _ => false end.
Definition left_over (l : list outcome) : list OwnedMount := (List.filter (fun o => negb (gone o)) l).*1.

Section TakeDown.
Context {W : Type} `{MountWorld W}.

Lemma take_down_runs skip mounts st (s : traced (ChrootInstance * W) MountEvent) r s' :
  fold_each (take_down skip) mounts st s = (r, s') ->
  exists o errs, o.*1 = mounts /\ s'.1.1 = s.1.1 /\ s'.2 = s.2 ++ omap tried o /\
    r = Ok (st.1 ++ errs, st.2 ++ left_over o) /\
    (skip = None -> errs = [] -> left_over o = []).
Proof.
  revert st s. induction mounts as [|m mounts IH]; intros st s Hr; cbn [fold_each] in Hr.
  - injection Hr as <- <-. exists [], []. cbn. rewrite !app_nil_r. by destruct st.
  - apply M_bind_cases in Hr as (o & s1 & Ht & Hr). unfold take_down in Ht.
    destruct (skipped_mount skip m) eqn:Es.
    + injection Ht as <- <-. destruct Hr as [(a & Ha & Hr)|(e & ? & _)]; [|done]. apply Ok_inj in Ha as <-.
      apply IH in Hr as (os & errs & <- & Hi & Ht & -> & Hall). exists ((m, None) :: os), errs. cbn.
      rewrite <- app_assoc. split_and!; [done..|]. intros ->. done.
    + apply M_bind_cases in Ht as (c & s2 & Hc & Ht). apply catch_runs in Hc as (u & -> & Hc).
      apply record_runs in Hc as [Hi1 Ht1]. destruct Ht as [(a & Ha & Ht)|(e & ? & _)]; [|done].
      apply Ok_inj in Ha as <-. injection Ht as <- <-. destruct Hr as [(a & Ha & Hr)|(e & ? & _)]; [|done]. apply Ok_inj in Ha as <-.
      apply IH in Hr as (os & errs & <- & Hi & Ht & -> & Hall).
      exists ((m, Some u) :: os). cbn. rewrite Hi, Ht, Hi1, Ht1, <- !app_assoc. unfold left_over. cbn.
      destruct u as [u|e]; cbn.
      * exists errs. done.
      * exists (chain e :: errs). rewrite <- !app_assoc. done.
Qed.
End TakeDown.

Section CleanupRuns.
Context {W : Type} `{MountWorld W, !HostParts W}.
Abbreviation St := (traced (ChrootInstance * W) MountEvent) (only parsing).

Definition is_part (e : MountEvent) : Prop := match e with ECleanup _ _ => True | _ => False end.

Lemma clean_part_runs part m errors (s : St) r (s' : St) : clean_part part m errors s = (r, s') ->
  s'.1.1 = s.1.1 /\ exists e errs, is_part e /\ s'.2 = s.2 ++ [e] /\ r = Ok (errors ++ errs).
Proof.
  unfold clean_part. intros (o & s1 & Hc & Hr)%M_bind_cases. apply catch_runs in Hc as (u & -> & Hc).
  apply record_runs in Hc as [Hi Ht]. destruct Hr as [(a & Ha & Hr)|(e & ? & _)]; [|done]. apply Ok_inj in Ha as <-.
  injection Hr as <- <-. split; [done|]. exists (ECleanup part u).
  destruct u as [u|e]; [exists []|exists [chain e]]; cbn; by rewrite ?app_nil_r.
Qed.

Lemma maybe_part_runs (c : bool) part m errors (s : St) r (s' : St) :
  (if c then clean_part part m errors else mret errors) s = (r, s') ->
  s'.1.1 = s.1.1 /\ exists ev errs, Forall is_part ev /\ s'.2 = s.2 ++ ev /\ r = Ok (errors ++ errs).
Proof.
  destruct c.
  - intros (Hi & e & errs & He & Ht & ->)%clean_part_runs. split; [done|]. exists [e], errs. by repeat constructor.
  - intros [= <- <-]. split; [done|]. exists [], []. by rewrite !app_nil_r.
Qed.

Lemma clean_parts_runs root errors remaining (s : St) r (s' : St) : clean_parts root errors remaining s = (r, s') ->
  s'.1.1 = s.1.1 /\ exists ev errs, Forall is_part ev /\ s'.2 = s.2 ++ ev /\ r = Ok (errors ++ errs).
Proof.
  unfold clean_parts. intros (o1 & s1 & Hx & Hr)%M_bind_cases.
  apply maybe_part_runs in Hx as (Hi1 & ev1 & e1 & F1 & Ht1 & ->). destruct Hr as [(a & Ha & Hr)|(e & ? & _)]; [|done].
  apply Ok_inj in Ha as <-. apply M_bind_cases in Hr as (o2 & s2 & Hy & Hr).
  apply maybe_part_runs in Hy as (Hi2 & ev2 & e2 & F2 & Ht2 & ->). destruct Hr as [(a & Ha & Hr)|(e & ? & _)]; [|done].
  apply Ok_inj in Ha as <-. apply clean_part_runs in Hr as (Hi3 & e & e3 & F3 & Ht3 & ->). split; [congruence|].
  exists (ev1 ++ ev2 ++ [e]), (e1 ++ e2 ++ e3). rewrite Ht3, Ht2, Ht1, <- !app_assoc. split_and!; [|done..].
  rewrite !Forall_app. by repeat constructor.
Qed.

(** What the end of the cleanup calls: nothing if anything failed; the record is
    removed only behind the root. *)
Inductive ending (root record : path) : list MountEvent -> result unit -> Prop :=
| ending_failed e : ending root record [] (Err e)
| ending_root e : ending root record [ERemoveRoot root (Err e)] (Err e)
| ending_record e : ending root record [ERemoveRoot root (Ok tt); ERemoveRecord record (Err e)] (Err e)
| ending_done r : ending root record [ERemoveRoot root (Ok tt); ERemoveRecord record (Ok tt)] r.

Lemma finish_cleanup_runs fuel paths root errors (s : St) r (s' : St) : finish_cleanup fuel paths root errors s = (r, s') ->
  owned_mounts s'.1.1 = owned_mounts s.1.1 /\ ci_root s'.1.1 = ci_root s.1.1 /\ run_record s'.1.1 = run_record s.1.1 /\
  exists ev, s'.2 = s.2 ++ ev /\ ending root (run_record s.1.1) ev r /\ (ev <> [] -> errors = []) /\
    (r = Ok tt -> length ev = 2 /\ cleaned s'.1.1 = true) /\ (r <> Ok tt -> cleaned s'.1.1 = cleaned s.1.1).
Proof.
  unfold finish_cleanup. case_bool_decide as He.
  - intros (o1 & s1 & Hx & Hr)%M_bind_cases. apply record_runs in Hx as [Hi1 Ht1].
    destruct Hr as [([] & -> & Hr)|(e & -> & -> & ->)]; cycle 1.
    { rewrite Hi1. split_and!; [done..|]. eexists. split; [done|]. split; [constructor|done]. }
    rewrite self_bind in Hr. apply M_bind_cases in Hr as (o2 & s2 & Hy & Hr). apply record_runs in Hy as [Hi2 Ht2].
    rewrite Hi1 in Ht2. rewrite Ht1, <- app_assoc in Ht2. cbn in Ht2.
    destruct Hr as [([] & -> & Hr)|(e & -> & -> & ->)]; cycle 1.
    { rewrite Hi2, Hi1. split_and!; [done..|]. eexists. split; [done|]. split; [constructor|done]. }
    apply M_bind_cases in Hr as (o3 & s3 & Hz & Hr). apply world_runs in Hz as [Hi3 Ht3].
    destruct Hr as [(rm & -> & Hr)|(e & -> & -> & ->)].
    + destruct s3 as [[i3 w3] t3]. injection Hr as <- <-. cbn in *. rewrite Hi3, Hi2, Hi1. split_and!; [done..|].
      eexists. rewrite Ht3. split; [done|]. split; [constructor|done].
    + rewrite Hi3, Hi2, Hi1. split_and!; [done..|]. eexists. rewrite Ht3. split; [done|]. split; [constructor|done].
  - intros [= <- <-]. split_and!; [done..|]. exists []. rewrite app_nil_r. split; [done|]. split; [constructor|done].
Qed.

Lemma teardown_order_below root mounts : Forall (below root) mounts ->
  owned_mount_teardown_order root mounts = Ok (sort_by deeper mounts).
Proof.
  intros Hb. unfold owned_mount_teardown_order. destruct (List.find _ mounts) as [m|] eqn:E; [|done].
  apply find_some in E as [Hin%list_elem_of_In Hf]. rewrite Forall_forall in Hb. destruct (Hb m Hin) as [Hs _]. by rewrite Hs in Hf.
Qed.

Lemma cleanup_runs fuel paths (s : St) r (s' : St) : Forall (below (ci_root s.1.1)) (owned_mounts s.1.1) ->
  cleanup fuel paths s = (r, s') ->
  (s'.1.1 = s.1.1 /\ s'.2 = s.2 /\ r <> Ok tt) \/
  exists p o parts tail, s'.2 = s.2 ++ ECleanup "portal" p :: omap tried o ++ parts ++ tail /\
    o.*1 = sort_by deeper (owned_mounts s.1.1) /\ owned_mounts s'.1.1 = left_over o /\ ci_root s'.1.1 = ci_root s.1.1 /\
    run_record s'.1.1 = run_record s.1.1 /\
    Forall is_part parts /\ ending (ci_root s.1.1) (run_record s.1.1) tail r /\ (tail <> [] -> left_over o = []) /\
    (r = Ok tt -> length tail = 2 /\ cleaned s'.1.1 = true) /\ (r <> Ok tt -> cleaned s'.1.1 = cleaned s.1.1).
Proof.
  intros Hb Hr. unfold cleanup in Hr. rewrite self_bind in Hr.
  apply M_bind_cases in Hr as (o1 & s1 & Hx & Hr). apply world_runs in Hx as [Hi1 Ht1].
  destruct Hr as [([] & -> & Hr)|(e & -> & -> & ->)]; [right|by left].
  apply M_bind_cases in Hr as (o2 & s2 & Hy & Hr). injection Hy as <- <-.
  destruct Hr as [(doc & Hd & Hr)|(e & ? & _)]; [|done].
  set (s2 := (s1.1.1, s1.1.2, s1.2)) in Hr. assert (s2.1.1 = s1.1.1 /\ s2.2 = s1.2) as [Hi2 Ht2] by done. clearbody s2.
  apply M_bind_cases in Hr as (o3 & s3 & Hz & Hr). apply catch_runs in Hz as (p & -> & Hz). apply record_runs in Hz as [Hi3 Ht3].
  destruct Hr as [(a & Ha & Hr)|(e & ? & _)]; [|done]. apply Ok_inj in Ha as <-. cbn zeta in Hr.
  rewrite self_bind, update_bind in Hr. rewrite Hi3, Hi2, Hi1, teardown_order_below in Hr by done.
  apply M_bind_cases in Hr as (o4 & s4 & H4 & Hr). apply take_down_runs in H4 as (o & errs & Ho & Hi4 & Ht4 & -> & Hall).
  cbn in Hi4, Ht4. destruct Hr as [(a & Ha & Hr)|(e & ? & _)]; [|done]. apply Ok_inj in Ha as <-. rewrite update_bind in Hr.
  apply M_bind_cases in Hr as (o5 & s5 & H5 & Hr). apply clean_parts_runs in H5 as (Hi5 & parts & errs' & Hp & Ht5 & ->). cbn in Hi5, Ht5.
  destruct Hr as [(a & Ha & Hr)|(e & ? & _)]; [|done]. apply Ok_inj in Ha as <-.
  apply finish_cleanup_runs in Hr as (Hown & Hroot & Hrec & tail & Ht6 & Hend & Htail & Hok & Hcl).
  rewrite Hi5, Hi4 in Hown, Hroot, Hrec, Hend, Hcl. cbn in Hown, Hroot, Hrec, Hend, Hcl.
  exists p, o, parts, tail. rewrite Ht6, Ht5, Ht4, Ht3, Ht2, Ht1, <- !app_assoc. split_and!; [done..| |done|done].
  intros Ht. apply Htail in Ht. cbn [fst] in Ht. apply app_eq_nil in Ht as [[Ht He]%app_eq_nil _]. apply Hall; [|done].
  by destruct p.
Qed.
End CleanupRuns.

(** ** Lemmas: the order of taking down *)

(** Nothing that is strictly below a mount comes behind it. *)
Definition inside_out (l : list OwnedMount) : Prop :=
  StronglySorted (fun a b => path_starts_with (om_path b) (om_path a) = true -> path_eqb (om_path b) (om_path a) = true) l.

Lemma deeper_order a b : deeper a b = true ->
  path_starts_with (om_path b) (om_path a) = true -> path_eqb (om_path b) (om_path a) = true.
Proof.
  intros Hd [l E]%path_starts_with_true. apply path_eqb_true. unfold deeper, on, depth_key in Hd.
  rewrite E, length_app in Hd. destruct l as [|c l]; [by rewrite app_nil_r in E|]. exfalso.
  unfold leb in Hd. rewrite cmp_pair in Hd. cbn [length] in Hd. unfold cmp at 1, ord_nat in Hd.
  rewrite (proj2 (Nat.compare_gt_iff _ _)) in Hd by lia. done.
Qed.

Lemma teardown_inside_out l : inside_out (sort_by deeper l).
Proof.
  assert (StronglySorted deeper (sort_by deeper l)) as Hs.
  { apply sort_by_sorted; unfold deeper; [intros x y; apply on_total|intros x y z ? ?; by eapply on_trans]. }
  induction Hs as [|a k Hk IH Ha]; constructor; [done|]. eapply Forall_impl; [exact Ha|]. intros b Hb%Is_true_true. by apply deeper_order.
Qed.

(** ** The life of an instance *)

(** What is done to an instance before it is taken down. *)
Inductive MountOp :=
| PrepareExtension (e : ExtensionMount) (app_dir runtime_dir : path)
| PrepareMerge (m : ExtensionMergeDirectory) (app_dir runtime_dir : path)
| MountMerge (m : ExtensionMergeDirectory)
| MountNullfs (source target_relative : path) (read_only : bool)
| MountExtraPermission (source target_relative : path) (read_only : bool)
| MountSpecial (target_relative fs_type source : string)
| MountTmpfs (target_relative options : string).

Section Life.
Context {W : Type} `{MountWorld W, !HostParts W}.
Abbreviation T A := (M (traced (ChrootInstance * W) MountEvent) A) (only parsing).
Abbreviation St := (traced (ChrootInstance * W) MountEvent) (only parsing).

Definition run_op (o : MountOp) : T unit :=
  match o with
  | PrepareExtension e app_dir runtime_dir => prepare_extension_target e app_dir runtime_dir
  | PrepareMerge m app_dir runtime_dir => prepare_extension_merge_target m app_dir runtime_dir
  | MountMerge m => mount_extension_merge m
  | MountNullfs source target ro => mount_nullfs source target ro
  | MountExtraPermission source target ro => mount_nullfs_extra_permission source target ro
  | MountSpecial target fs_type source => mount_special target fs_type source
  | MountTmpfs target options => mount_tmpfs target options
  end.

(** The mounts are made up to the first failure; then the instance is cleaned up
    and dropped, [n] attempts in all. *)
Definition sandbox_life (fuel : nat) (paths : Installation) (ops : list MountOp) (n : nat) : T unit :=
  _ ← catch (for_each run_op ops);
  for_each (fun _ : unit => drop_instance fuel paths) (replicate n tt).

(** When the root and its record may be removed. *)
Definition removal_allowed (root record : path) (before : list MountEvent) (e : MountEvent) : Prop :=
  match e with
  | ERemoveRoot p _ => p = root /\ mounted before ≡ₚ unmounted before
  | ERemoveRecord p _ => p = record /\ ERemoveRoot root (Ok tt) ∈ before
  | _ => True
  end.

(** Every mount made was unmounted or is owned. *)
Record accounted (root record : path) (s : St) : Prop := {
  accounted_root : ci_root s.1.1 = root;
  accounted_record : run_record s.1.1 = record;
  accounted_below : Forall (below root) (owned_mounts s.1.1);
  accounted_mounts : mounted s.2 ≡ₚ unmounted s.2 ++ owned_mounts s.1.1;
  accounted_calls : lawful (removal_allowed root record) s.2;
  accounted_done : cleaned s.1.1 = true -> owned_mounts s.1.1 = [] /\ ERemoveRecord record (Ok tt) ∈ s.2;
}.

Lemma keeps_run_op root record o : root <> "" -> keeps (@tracked W root record) (run_op o).
Proof.
  intros Hr. destruct o; cbn [run_op]; unfold prepare_extension_target, prepare_extension_merge_target.
  all: eauto using keeps_prepare_directory, keeps_mount_extension_merge, keeps_mount_nullfs, keeps_mount_nullfs_extra,
    keeps_mount_special, keeps_mount_tmpfs.
Qed.

Lemma only_lawful G (t ev : list MountEvent) : lawful G t -> Forall (fun e => forall t, G t e) ev -> lawful G (t ++ ev).
Proof.
  intros Ht Hev. induction ev as [|e ev IH] using rev_ind; [by rewrite app_nil_r|].
  apply Forall_app in Hev as [Hev He]. rewrite app_assoc. apply lawful_snoc; [by apply IH|]. rewrite Forall_singleton in He. apply He.
Qed.

Lemma mounted_none ev : Forall (fun e => mounted_by e = None) ev -> mounted ev = [].
Proof. induction 1 as [|e ev He Hev IH]; [done|]. unfold mounted in *. cbn. by rewrite He, IH. Qed.
Lemma unmounted_none ev : Forall (fun e => unmounted_by e = None) ev -> unmounted ev = [].
Proof. induction 1 as [|e ev He Hev IH]; [done|]. unfold unmounted in *. cbn. by rewrite He, IH. Qed.

Lemma unmounted_tried o : unmounted (omap tried o) = (List.filter gone o).*1.
Proof. induction o as [|[m [[u|e]|]] o IH]; [done|..]; unfold unmounted in *; cbn; by rewrite IH. Qed.
Lemma split_outcomes o : (List.filter gone o).*1 ++ left_over o ≡ₚ o.*1.
Proof.
  unfold left_over. induction o as [|x o IH]; [done|]. cbn. destruct (gone x); cbn [negb]; cbn; [by rewrite IH|].
  rewrite <- Permutation_middle. by rewrite IH.
Qed.

Lemma parts_quiet parts : Forall is_part parts -> Forall (fun e => mounted_by e = None) parts /\ Forall (fun e => unmounted_by e = None) parts.
Proof. intros Hp. split; (eapply Forall_impl; [exact Hp|]); by intros []. Qed.
Lemma tried_quiet (o : list outcome) : Forall (fun e => mounted_by e = None) (omap tried o).
Proof. induction o as [|[m [x|]] o IH]; cbn; [constructor|by constructor|done]. Qed.

Lemma cleanup_accounts root record fuel paths (s : St) r s' : accounted root record s ->
  cleanup fuel paths s = (r, s') -> cleaned s.1.1 = false -> accounted root record s'.
Proof.
  intros [Hroot Hrec Hbelow Hm Hl Hd] Hr Hc. apply cleanup_runs in Hr; [|by rewrite Hroot].
  destruct Hr as [(Hi & Ht & _)|(p & o & parts & tail & Ht & Ho & Hown & Hroot' & Hrec' & Hp & Hend & Htail & Hok & Hncl)].
  { split; by rewrite ?Hi, ?Ht. }
  rewrite Hroot, Hrec in *. destruct (parts_quiet parts Hp) as [Hpm Hpu].
  assert (owned_mounts s.1.1 ≡ₚ (List.filter gone o).*1 ++ left_over o) as Hsplit.
  { by rewrite split_outcomes, Ho, sort_by_perm. }
  set (ev := ECleanup "portal" p :: omap tried o ++ parts) in *.
  assert (mounted ev = []) as Hem.
  { apply mounted_none. constructor; [done|]. apply Forall_app. split; [apply tried_quiet|done]. }
  assert (unmounted ev = (List.filter gone o).*1) as Heu.
  { unfold ev, unmounted. cbn. rewrite omap_app. change (unmounted (omap tried o) ++ unmounted parts = (List.filter gone o).*1).
    by rewrite (unmounted_none parts Hpu), app_nil_r, unmounted_tried. }
  assert (s'.2 = (s.2 ++ ev) ++ tail) as Ht'.
  { rewrite Ht. unfold ev. rewrite <- app_assoc. cbn. by rewrite <- app_assoc. }
  assert (lawful (removal_allowed root record) (s.2 ++ ev)) as Hl1.
  { apply only_lawful; [done|]. constructor; [done|]. apply Forall_app. split.
    - apply Forall_forall. intros e He. apply list_elem_of_omap in He as ([m [x|]] & _ & [= <-]). done.
    - eapply Forall_impl; [exact Hp|]. by intros []. }
  assert (mounted (s.2 ++ ev) ≡ₚ unmounted (s.2 ++ ev) ++ left_over o) as Hm1.
  { unfold mounted, unmounted. rewrite !omap_app.
    change (mounted s.2 ++ mounted ev ≡ₚ (unmounted s.2 ++ unmounted ev) ++ left_over o).
    by rewrite Hem, Heu, app_nil_r, <- app_assoc, <- Hsplit. }
  assert (Forall (fun e => mounted_by e = None) tail /\ Forall (fun e => unmounted_by e = None) tail) as [Htm Htu].
  { inversion Hend; subst; by repeat constructor. }
  split; rewrite ?Hroot', ?Hrec', ?Hown, ?Ht'.
  - done.
  - done.
  - assert (Forall (below root) ((List.filter gone o).*1 ++ left_over o)) as Hb by by rewrite <- Hsplit.
    by apply Forall_app in Hb as [_ Hb].
  - unfold mounted, unmounted. rewrite !(omap_app _ (s.2 ++ ev)).
    change (mounted (s.2 ++ ev) ++ mounted tail ≡ₚ (unmounted (s.2 ++ ev) ++ unmounted tail) ++ left_over o).
    by rewrite (mounted_none tail Htm), (unmounted_none tail Htu), !app_nil_r.
  - assert (tail <> [] -> mounted (s.2 ++ ev) ≡ₚ unmounted (s.2 ++ ev)) as Hall.
    { intros Hne. by rewrite Hm1, (Htail Hne), app_nil_r. }
    inversion Hend; subst.
    + by rewrite app_nil_r.
    + apply lawful_snoc; [done|]. split; [done|by apply Hall].
    + rewrite cons_middle, app_assoc. apply lawful_snoc; [apply lawful_snoc; [done|split; [done|by apply Hall]]|].
      split; [done|]. apply elem_of_app. right. left.
    + rewrite cons_middle, app_assoc. apply lawful_snoc; [apply lawful_snoc; [done|split; [done|by apply Hall]]|].
      split; [done|]. apply elem_of_app. right. left.
  - intros Hcl. destruct r as [[]|e].
    + destruct (Hok eq_refl) as [Hlen _]. destruct tail as [|x tail]; [done|]. split; [by apply Htail|].
      inversion Hend; subst. apply elem_of_app. right. right. left.
    + rewrite Hncl, Hc in Hcl by done. done.
Qed.

Lemma drop_accounts root record fuel paths (s : St) r s' : accounted root record s ->
  drop_instance fuel paths s = (r, s') -> accounted root record s' /\ (cleaned s.1.1 = true -> s' = s).
Proof.
  intros Ha Hr. unfold drop_instance in Hr. rewrite self_bind in Hr. destruct (cleaned s.1.1) eqn:Hc.
  - by injection Hr as <- <-.
  - split; [|done]. apply M_bind_cases in Hr as (o & s1 & Hx & Hr). apply catch_runs in Hx as (x & -> & Hx).
    destruct Hr as [(a & _ & Hr)|(e & ? & _)]; [|done]. injection Hr as <- <-. by eapply cleanup_accounts.
Qed.

Lemma drops_account root record fuel paths n (s : St) r s' : accounted root record s ->
  for_each (fun _ : unit => drop_instance fuel paths) (replicate n tt) s = (r, s') -> accounted root record s'.
Proof.
  revert s. induction n as [|n IH]; intros s Ha Hr; cbn [replicate for_each] in Hr; [by injection Hr as <- <-|].
  apply M_bind_cases in Hr as (o & s1 & Hx & Hr). apply (drop_accounts root record) in Hx as [Ha1 _]; [|done].
  destruct Hr as [(a & _ & Hr)|(e & _ & _ & ->)]; [|done]. by eapply IH.
Qed.

Lemma tracked_accounted root record (s : St) : tracked root record s -> accounted root record s.
Proof.
  intros [Hroot Hrec Ho Hb Hm Hc]. split; [done..| | |].
  - rewrite (unmounted_none s.2); [by rewrite Ho|]. eapply Forall_impl; [exact Hm|]. by intros [].
  - rewrite <- (app_nil_l s.2). apply only_lawful; [apply lawful_nil|]. eapply Forall_impl; [exact Hm|]. by intros [].
  - by rewrite Hc.
Qed.

Lemma keeps_run_ops root record ops : root <> "" -> keeps (@tracked W root record) (for_each run_op ops).
Proof. intros Hr. apply keeps_for_each. intros o _. by apply keeps_run_op. Qed.
End Life.

(** ** Lemmas: mounts through the staging *)

Section Staging.
Context {W : Type} `{MountWorld W}.
Abbreviation T A := (M (traced (ChrootInstance * W) MountEvent) A) (only parsing).
Abbreviation St := (traced (ChrootInstance * W) MountEvent) (only parsing).

Lemma staging_components root (id : N) : root <> "" ->
  components (join_path root STAGING_ROOT) = components root ++ [Normal STAGING_ROOT] /\
  components (join_path root (join_path STAGING_ROOT (show_N id))) = components root ++ [Normal STAGING_ROOT; Normal (show_N id)].
Proof.
  intros Hr. assert (name_ok STAGING_ROOT) as Hs by (split_and!; [done..|discriminate]).
  split; [by apply components_join_name|].
  assert (components (join_path STAGING_ROOT (show_N id)) = [Normal STAGING_ROOT; Normal (show_N id)]) as Hc.
  { rewrite components_join_name by (try apply show_N_name; done). done. }
  assert (join_path STAGING_ROOT (show_N id) <> "") as Hne by (intros E; by rewrite E in Hc).
  destruct (normal_relative _ Hne) as (Ha & Hb & _); [rewrite Hc; by repeat constructor|].
  by rewrite components_join, <- Hb, Hc by done.
Qed.

Lemma staging_holds root (id : N) : root <> "" ->
  path_starts_with (join_path root (join_path STAGING_ROOT (show_N id))) (join_path root STAGING_ROOT) = true.
Proof.
  intros Hr. destruct (staging_components root id Hr) as [E1 E2]. apply path_starts_with_true. rewrite E1, E2.
  exists [Normal (show_N id)]. by rewrite <- app_assoc.
Qed.

(** The staging is covered by no nullfs mount. *)
Lemma staging_not_aliased root id mappings mounts source (w : W) : root <> "" -> Forall (below root) mounts ->
  Forall (fun m => path_eqb (nm_target m) (join_path root STAGING_ROOT) = false) mappings ->
  nullfs_source_aliases_parent mappings mounts source (join_path root (join_path STAGING_ROOT (show_N id))) w = false.
Proof.
  intros Hr Hb Hm. unfold nullfs_source_aliases_parent. destruct (covering_mount _ _) as [c|] eqn:Ec; [|done].
  destruct (List.find _ (rev mappings)) as [m|] eqn:Em; [|done]. exfalso.
  apply max_by_key_Some in Ec as (l1 & l2 & E & _). cbn in E.
  assert (c ∈ l1 ++ c :: l2) as Hc by (apply elem_of_app; right; left). rewrite <- E in Hc.
  apply list_elem_of_In, filter_In in Hc as [Hc [Hne Hp]%andb_true_iff]. apply list_elem_of_In in Hc.
  rewrite Forall_forall in Hb. destruct (Hb c Hc) as [Hs Hne'].
  apply find_some in Em as [Hin%in_rev%list_elem_of_In Heq]. rewrite Forall_forall in Hm. specialize (Hm m Hin).
  apply path_eqb_true in Heq. apply negb_true_iff in Hne.
  apply not_true_iff_false in Hne, Hne', Hm. rewrite path_eqb_true in Hne, Hne', Hm.
  apply path_starts_with_true in Hs as [k Ek]. apply path_starts_with_true in Hp as [k' Ek'].
  destruct (staging_components root id Hr) as [E1 E2]. rewrite E2 in Hne, Ek'. rewrite E1, Heq in Hm.
  rewrite Ek in Ek', Hne, Hne', Hm. rewrite <- app_assoc in Ek'. apply app_inv_head in Ek'.
  destruct k as [|x [|y k]]; cbn in Ek'.
  - apply Hne'. by rewrite app_nil_r.
  - injection Ek' as <- _. done.
  - injection Ek' as <- <- Ek'. symmetry in Ek'. apply app_eq_nil in Ek' as [-> _]. done.
Qed.

(** What a level does that has to go through the staging. *)
Definition through_staging (fuel : nat) (root source target_relative : path) (read_only : bool) : T (option unit) :=
  _ ← prepare_staging;
  id ← self next_mount_staging_id;
  let staging_relative := join_path STAGING_ROOT (show_N id) in
  _ ← update (fun s => set_staging (mount_staging_ready s) (id + 1) s);
  staged ← mount_nullfs_impl fuel source staging_relative read_only;
  match staged with
  | None => mret None
  | Some _ =>
      mounted ← mount_nullfs_impl fuel (join_path root staging_relative) target_relative read_only;
      match mounted with
      | None => mret None
      | Some _ => Some <$> update (fun s => set_mappings (set_last_source source (nullfs_mounts s)) s)
      end
  end.

(** A level ends by itself or goes through the staging. *)
Lemma nullfs_cases fuel source rel ro (s : St) r s' : mount_nullfs_impl (S fuel) source rel ro s = (r, s') ->
  r <> Ok None \/
  exists source' s1, s1.1.1 = s.1.1 /\ s1.2 = s.2 /\
    (path_starts_with source (join_path (ci_root s.1.1) STAGING_ROOT) = true -> source' = source) /\
    nullfs_source_aliases_parent (nullfs_mounts s.1.1) (owned_mounts s.1.1) source' (join_path (ci_root s.1.1) rel) s1.1.2 = true /\
    through_staging fuel (ci_root s.1.1) source' rel ro s1 = (r, s').
Proof.
  intros Hr. cbn [mount_nullfs_impl] in Hr. rewrite self_bind in Hr. cbn zeta in Hr.
  apply M_bind_cases in Hr as (o & s1 & Hx & Hr).
  assert (s1.1.1 = s.1.1 /\ s1.2 = s.2 /\ (forall source', o = Ok source' ->
            path_starts_with source (join_path (ci_root s.1.1) STAGING_ROOT) = true -> source' = source)) as (Hi & Ht & Hs).
  { destruct (path_starts_with source _); [by injection Hx as <- <-; split_and!; [..|intros ? [= <-]]|].
    by apply world_runs in Hx as [Hi Ht]. }
  destruct Hr as [(source' & -> & Hr)|(e & -> & -> & _)]; [|by left]. specialize (Hs source' eq_refl).
  apply M_bind_cases in Hr as (o & s2 & Hx2 & Hr). apply world_runs in Hx2 as [Hi2 Ht2].
  destruct Hr as [(u & -> & Hr)|(e & -> & -> & _)]; [|by left]. rewrite !self_bind, Hi2, Hi in Hr.
  apply M_bind_cases in Hr as (o & s3 & Hx3 & Hr). injection Hx3 as <- <-.
  destruct Hr as [(alias & Hal & Hr)|(e & ? & _)]; [|done]. apply Ok_inj in Hal.
  destruct alias.
  - right. exists source', (s2.1.1, s2.1.2, s2.2). rewrite Hi2, Ht2, Hi, Ht. split_and!; [done..|]. by rewrite Hi2, Hi, Ht2, Ht in Hr.
  - left. apply M_bind_cases in Hr as (o & s4 & Hx4 & Hr). destruct Hr as [(u' & -> & Hr)|(e & -> & -> & _)]; [|done].
    unfold fmap, M_fmap in Hr. destruct (update _ s4) as [[]]; by injection Hr as <- <-.
Qed.

(** A mount that would not show itself is made without recursion. *)
Lemma nullfs_direct fuel source rel ro (s : St) r s' :
  (forall w source', (path_starts_with source (join_path (ci_root s.1.1) STAGING_ROOT) = true -> source' = source) ->
     nullfs_source_aliases_parent (nullfs_mounts s.1.1) (owned_mounts s.1.1) source' (join_path (ci_root s.1.1) rel) w = false) ->
  mount_nullfs_impl (S fuel) source rel ro s = (r, s') -> r <> Ok None.
Proof.
  intros Ha Hr. apply nullfs_cases in Hr as [?|(source' & s1 & _ & _ & Hs & Hal & _)]; [done|]. by rewrite Ha in Hal.
Qed.

(** Making the staging leaves the mappings alone. *)
Lemma mappings_bind {A B} (m : T A) (f : A -> T B) (s : St) :
  (forall s, nullfs_mounts (m s).2.1.1 = nullfs_mounts s.1.1) -> (forall a s, nullfs_mounts (f a s).2.1.1 = nullfs_mounts s.1.1) ->
  nullfs_mounts ((m ≫= f) s).2.1.1 = nullfs_mounts s.1.1.
Proof. intros Hm Hf. unfold mbind, M_bind. specialize (Hm s). destruct (m s) as [[a|e] s1]; [|done]. by rewrite Hf. Qed.
Lemma mappings_world {A} (m : M W A) (s : St) : nullfs_mounts (world m s).2.1.1 = nullfs_mounts s.1.1.
Proof. destruct (world m s) as [r s'] eqn:E. apply world_runs in E as [E _]. cbn. by rewrite E. Qed.
Lemma mappings_self {A} (f : ChrootInstance -> A) (s : St) : nullfs_mounts (self f s).2.1.1 = nullfs_mounts s.1.1.
Proof. by destruct s as [[i w] t]. Qed.
Lemma mappings_mount c action (s : St) : nullfs_mounts (run_mount c action s).2.1.1 = nullfs_mounts s.1.1.
Proof. destruct (run_mount c action s) as [r s'] eqn:E. apply record_runs in E as [E _]. cbn. by rewrite E. Qed.

Lemma mappings_mount_and_own (c : T helper_command) action m (s : St) :
  (forall s, nullfs_mounts (c s).2.1.1 = nullfs_mounts s.1.1) ->
  nullfs_mounts (mount_and_own c action m s).2.1.1 = nullfs_mounts s.1.1.
Proof. intros Hc. apply mappings_bind; [done|]. intros c' s1. apply mappings_bind; [apply mappings_mount|]. by intros ? [[i w] t]. Qed.

Lemma mappings_staging (s : St) : nullfs_mounts (prepare_staging s).2.1.1 = nullfs_mounts s.1.1.
Proof.
  unfold prepare_staging, mount_tmpfs_secure, mount_tmpfs. apply mappings_bind; [apply mappings_self|]. intros [|] s1; [done|].
  apply mappings_bind; [apply mappings_self|]. intros root s2. apply mappings_bind; [apply mappings_world|]. intros _ s3.
  apply mappings_bind; [|intros _ s4; apply mappings_bind; [apply mappings_self|by intros ? [[i w] t]]].
  intros s4. apply mappings_bind; [apply mappings_self|]. intros root' s5. apply mappings_bind; [apply mappings_world|]. intros _ s6.
  apply mappings_mount_and_own. intros s7. apply mappings_bind; [apply mappings_world|done].
Qed.
End Staging.

(** ** Theorems *)

Section Theorems.
Context {W : Type} `{MountWorld W, !HostParts W}.

(** Whatever the mounting operations are and wherever they fail, every mount
    that was made is owned by the instance, in the order they were made, and
    lies strictly below its root. *)
Theorem mounts_are_owned (ops : list MountOp) (root record : path) plan (w : W) r s' : root <> "" ->
  for_each run_op ops ((new_instance root plan record, w), []) = (r, s') ->
  owned_mounts s'.1.1 = mounted s'.2 /\ Forall (below root) (mounted s'.2).
Proof.
  intros Hr E. pose proof (keeps_run_ops root record ops Hr ((new_instance root plan record, w), [])) as Hk.
  rewrite E in Hk. destruct Hk as [_ _ Ho Hb _ _]; [by repeat split|]. cbn in Ho, Hb. by rewrite <- Ho.
Qed.

(** C7.  After any mounting operations and any number of cleanups, however they
    fail, every mount that was made was unmounted or is owned, each exactly
    once; the root was removed only when all its mounts were unmounted, its
    record only after the root; and an instance that counts as cleaned owns
    nothing and has no record. *)
Theorem sandbox_mounts_are_accounted fuel paths ops n (root record : path) plan (w : W) r s' : root <> "" ->
  sandbox_life fuel paths ops n ((new_instance root plan record, w), []) = (r, s') ->
  mounted s'.2 ≡ₚ unmounted s'.2 ++ owned_mounts s'.1.1 /\
  lawful (removal_allowed root record) s'.2 /\
  (cleaned s'.1.1 = true -> owned_mounts s'.1.1 = [] /\ ERemoveRecord record (Ok tt) ∈ s'.2).
Proof.
  intros Hr E. apply M_bind_cases in E as (o & s1 & Hx & E). apply catch_runs in Hx as (x & -> & Hx).
  destruct E as [(a & _ & E)|(e & ? & _)]; [|done].
  pose proof (keeps_run_ops root record ops Hr ((new_instance root plan record, w), [])) as Hk. rewrite Hx in Hk.
  assert (tracked root record s1) as Ht by (apply Hk; by repeat split).
  apply (drops_account root record) in E as [_ _ _ ? ? ?]; [done|by apply tracked_accounted].
Qed.
End Theorems.

(** The mounts of an instance are taken down from the inside out: all of
    them, each once, and none before one that is strictly below it; a mount
    outside of the root stops the cleanup before it starts. *)
Theorem teardown_is_inside_out root mounts :
  match owned_mount_teardown_order root mounts with
  | Ok l => l ≡ₚ mounts /\ inside_out l /\ Forall (fun m => path_starts_with (om_path m) root = true) mounts
  | Err _ => Exists (fun m => path_starts_with (om_path m) root = false) mounts
  end.
Proof.
  unfold owned_mount_teardown_order. destruct (List.find _ mounts) as [m|] eqn:E.
  - apply find_some in E as [Hin%list_elem_of_In Hf%negb_true_iff]. apply Exists_exists. by exists m.
  - split; [apply sort_by_perm|]. split; [apply teardown_inside_out|]. apply Forall_forall. intros m Hm%list_elem_of_In.
    pose proof (find_none _ _ E m Hm) as Hf. by apply negb_false_iff in Hf.
Qed.

(** A mount through the staging needs no other one: if nothing outside of
    the staging is resolved into it and no mount of the instance covers it, the
    recursion of [mount_nullfs_impl] ends within two levels, whatever the system
    answers. *)
Theorem nullfs_mount_ends {W} `{MountWorld W} (record source target_relative : path) read_only
    (s : traced (ChrootInstance * W) MountEvent) r s' :
  let root := ci_root s.1.1 in
  root <> "" -> tracked root record s ->
  Forall (fun m => path_eqb (nm_target m) (join_path root STAGING_ROOT) = false) (nullfs_mounts s.1.1) ->
  (forall w p q, canonicalize w p = inl q -> path_starts_with q (join_path root STAGING_ROOT) = false) ->
  mount_nullfs_impl NULLFS_FUEL source target_relative read_only s = (r, s') -> r <> Ok None.
Proof.
  intros root Hroot Ht Hm Hc Hr. apply nullfs_cases in Hr as [?|(source' & s1 & Hi & Hev & _ & _ & Hr)]; [done|]. fold root in Hr.
  assert (tracked root record s1) as Ht1 by (destruct Ht; split; by rewrite ?Hi, ?Hev).
  rewrite <- Hi in Hm. unfold through_staging in Hr. apply M_bind_cases in Hr as (o & s2 & Hx & Hr).
  pose proof (mappings_staging s1) as Hmap. pose proof (keeps_prepare_staging root record Hroot s1 Ht1) as Ht2.
  rewrite Hx in Hmap, Ht2. cbn in Hmap, Ht2. destruct Hr as [(u & -> & Hr)|(e & -> & -> & _)]; [|done].
  rewrite self_bind, update_bind in Hr. cbn zeta in Hr. apply M_bind_cases in Hr as (o & s3 & Hx3 & Hr).
  set (s2' := ((_, _), _)) in Hx3.
  assert (ci_root s2'.1.1 = root /\ tracked root record s2') as [Hr2 Ht2'] by (split; [apply Ht2|by destruct Ht2]).
  pose proof (keeps_mount_nullfs_impl root record Hroot 1 source' (join_path STAGING_ROOT (show_N (next_mount_staging_id s2.1.1)))
                read_only s2' Ht2') as Ht3. rewrite Hx3 in Ht3. cbn [snd] in Ht3.
  apply nullfs_direct in Hx3; cycle 1.
  { intros w x _. rewrite Hr2. apply staging_not_aliased; [done|apply Ht2'|]. cbn. by rewrite Hmap. }
  destruct Hr as [([u'|] & -> & Hr)|(e & -> & -> & _)]; [|done..].
  apply M_bind_cases in Hr as (o & s4 & Hx4 & Hr).
  assert (ci_root s3.1.1 = root) as Hr3 by apply Ht3.
  apply nullfs_direct in Hx4; cycle 1.
  { intros w x Hp. rewrite Hr3 in *. unfold nullfs_source_aliases_parent. cases; try done.
    apply not_true_iff_false. intros Hq%path_eqb_true. match goal with Hcan : canonicalize w _ = inl _ |- _ => apply Hc in Hcan as Hout end.
    apply not_true_iff_false in Hout. apply Hout. rewrite Hp in Hq by apply staging_holds, Hroot.
    apply path_starts_with_true. rewrite Hq. apply path_starts_with_true, staging_holds, Hroot. }
  destruct Hr as [([u''|] & -> & Hr)|(e & -> & -> & _)]; [|done..].
  unfold fmap, M_fmap in Hr. destruct (update _ s4) as [[]]; by injection Hr as <- <-.
Qed.

(** ** A host on which the theorems compute *)

(** Files and directories of a tree that resolves nothing into a staging. *)
Definition example_root : path := "/run/x/chroots/org.a/1".

#[local] Instance private_fs : HostFs TreeFs := {
  canonicalize t p := if path_starts_with p (join_path example_root STAGING_ROOT) then inr not_found else tree_canonicalize t p;
  path_exists := path_exists (HostFs := tree_fs);
  is_dir := is_dir (HostFs := tree_fs);
  read_dir := read_dir (HostFs := tree_fs);
  read_to_string := read_to_string (HostFs := tree_fs);
  create_dir_all := create_dir_all (HostFs := tree_fs);
}.
#[local] Instance private_files : FileOps TreeFs := {
  is_file := is_file (FileOps := tree_file_ops);
  symlink_kind := symlink_kind (FileOps := tree_file_ops);
  make_dirs := make_dirs (FileOps := tree_file_ops);
  set_mode := set_mode (FileOps := tree_file_ops);
  write_file := write_file (FileOps := tree_file_ops);
  rename_file := rename_file (FileOps := tree_file_ops);
  remove_file := remove_file (FileOps := tree_file_ops);
  remove_dir_all := remove_dir_all (FileOps := tree_file_ops);
}.
#[local] Instance no_processes : ProcessWorld TreeFs := {
  capture := mret [];
  send_signal _ _ := mret tt;
  pause := mret tt;
  self_pid := 1%Z;
}.
#[local] Instance private_recovery : RecoveryWorld TreeFs := {
  mount_command := mret "";
  launcher_lookup _ _ := Ok None;
  launcher_probe _ _ := KillESRCH;
  metadata_identity _ _ := inl (1, 1)%N;
  SandboxRecovery.unmount_command _ _ _ _ := mret tt;
  document_unmount_command _ _ _ _ := mret tt;
  to_path p := render_components p;
}.
#[local] Instance private_mounts : MountWorld TreeFs := {
  run_command _ _ := mret tt;
  read_link _ _ := inr not_found;
  make_symlink _ _ t := (inr not_found, t);
  create_dir p t := (inl tt, mkTree (components p :: dirs t) (files t));
  create_file p t := (inl tt, tree_put (components p) "" t);
}.
#[local] Instance no_parts : HostParts TreeFs := {
  sandbox_doc_dir _ := None;
  portal_cleanup := mret tt;
  graphics_cleanup := mret tt;
  system_bus_cleanup := mret tt;
  audio_cleanup _ := mret tt;
}.

Definition example_host : TreeFs :=
  mkTree (map components ["/"; "/data"; "/data/lib"; example_root; "/run/x/runs"; "/data/refs/apps"; "/data/refs/runtimes"])
    [(components (join_path example_root ".flatpak-info"), ""); (components "/run/x/runs/org.a.1.ini", fmt ["root=/r"; nl])].

(** The second mount shows what the first shows already: it goes through the
    staging.  The last one fails. *)
Definition example_ops : list MountOp :=
  [MountNullfs "/data" "usr" true; MountNullfs "/data/lib" "usr/lib" false; MountTmpfs "dev/shm" "mode=1777"; MountTmpfs "/" ""].

Definition example_start : traced (ChrootInstance * TreeFs) MountEvent :=
  ((new_instance example_root [] "/run/x/runs/org.a.1.ini", example_host), []).

Lemma mounts_are_owned_witness :
  let s' := (for_each run_op example_ops example_start).2 in
  map om_path (owned_mounts s'.1.1) =
    map (join_path example_root) ["usr"; ".freebsd-flatpak-mount-sources"; ".freebsd-flatpak-mount-sources/0"; "usr/lib"; "dev/shm"] /\
  owned_mounts s'.1.1 = mounted s'.2.
Proof.
  intros s'. split; [vm_compute; reflexivity|].
  eapply (mounts_are_owned example_ops example_root "/run/x/runs/org.a.1.ini" [] example_host); [discriminate|].
  apply surjective_pairing.
Defined.

Lemma sandbox_mounts_are_accounted_witness :
  let s' := (sandbox_life 5 example_installation example_ops 2 example_start).2 in
  length (unmounted s'.2) = 5 /\ cleaned s'.1.1 = true /\ owned_mounts s'.1.1 = [].
Proof.
  intros s'. assert (cleaned s'.1.1 = true) as Hc by (vm_compute; reflexivity).
  split; [vm_compute; reflexivity|]. split; [exact Hc|].
  eapply (sandbox_mounts_are_accounted 5 example_installation example_ops 2 example_root "/run/x/runs/org.a.1.ini" [] example_host);
    [discriminate|apply surjective_pairing|exact Hc].
Defined.

Lemma nullfs_mount_ends_witness :
  let s := (for_each run_op (take 1 example_ops) example_start).2 in
  nullfs_source_aliases_parent (nullfs_mounts s.1.1) (owned_mounts s.1.1) "/data/lib" (join_path example_root "usr/lib") s.1.2 = true /\
  (mount_nullfs_impl NULLFS_FUEL "/data/lib" "usr/lib" false s).1 <> Ok None.
Proof.
  intros s. split; [vm_compute; reflexivity|].
  eapply (nullfs_mount_ends "/run/x/runs/org.a.1.ini" "/data/lib" "usr/lib" false s).
  - vm_compute. discriminate.
  - apply (keeps_run_ops example_root "/run/x/runs/org.a.1.ini" (take 1 example_ops)); [discriminate|].
    split; reflexivity || constructor.
  - vm_compute. repeat constructor.
  - intros w p q Hq. cbn in Hq. destruct (path_starts_with p _) eqn:E; [discriminate|].
    unfold tree_canonicalize in Hq. destruct (_ && _); [|discriminate]. injection Hq as <-. exact E.
  - apply surjective_pairing.
Defined.
