(* ===== verification/NestedSandbox.v ===== *)
(** * NestedSandbox: the root of a sandbox started by a sandbox
    (src/src/sandbox/spawn_broker.rs: NestedSandboxRoot)

    A process that asks for a sandbox of its own gets a copy of its sandbox's
    root, with the mounts cloned into it through a private staging.  The record
    that owns the root is published before the root exists, so that a later
    recovery finds it.  The calls are recorded as in SandboxMounts. *)
From Stdlib Require Import Ascii String NArith ZArith Lia Permutation.
From stdpp Require Import base list strings sets.
From S2P Require Import Prelude MountCalls SecureMount Effects Traces Collections RustStr RustNum RustPath HostFs Processes InstallationPaths Records RunRecords SandboxRecovery Activation BrokerProtocol SandboxMounts.

Record NestedSandboxRoot := mkNested {
  ns_root : path;
  ns_run_record : path;
  ns_mounts : list OwnedMount;
}.

(** What of [SandboxExecutionContext] is used here. *)
Record SandboxExecutionContext := mkContext {
  cx_paths : Installation;
  cx_app_id : string;
  cx_root : path;
  cx_nested_mounts : list OwnedMount;
  cx_mounts : list OwnedMount;
}.

(** The copying of files, and the permission bits of an entry. *)
Class NestedWorld (W : Type) `{MountWorld W} := {
  entry_mode : W -> path -> nat;
  copy_file : path -> path -> W -> io_result unit * W;
}.

Section Nested.
Context {W : Type} `{NestedWorld W}.
(** The process, its counter of records, and the process table. *)
Context (pid : N) (next_sequence : M W N).
Abbreviation T A := (M (traced (NestedSandboxRoot * W) MountEvent) A) (only parsing).

Definition push_mount (m : OwnedMount) (s : NestedSandboxRoot) : NestedSandboxRoot :=
  mkNested (ns_root s) (ns_run_record s) (ns_mounts s ++ [m]).
Definition drain_mounts (s : NestedSandboxRoot) : NestedSandboxRoot := mkNested (ns_root s) (ns_run_record s) [].

(** ** Copying the root *)

Definition copy_mode (source target : path) : M W unit :=
  mode ← gets (fun w => entry_mode w source);
  io_try (set_mode target mode).

(** One entry; [recurse] copies a directory. *)
Definition copy_entry (recurse : path -> path -> M W unit) (mounts : list OwnedMount) (source target : path)
    (entry : io_result DirEntry) : M W unit :=
  entry ← lift (io_plain entry);
  if String.eqb (file_name entry) ".flatpak-info" then mret tt
  else
    let source_path := join_path source (file_name entry) in
    let target_path := join_path target (file_name entry) in
    let is_mountpoint := existsb (fun m => path_eqb (om_path m) source_path) mounts in
    kind ← getr (fun w => io_context (fmt ["inspect "; source_path]) (symlink_kind w source_path));
    match kind with
    | Symlink =>
        link ← getr (fun w => io_plain (read_link w source_path));
        io_step (fmt ["copy symlink "; source_path]) (make_symlink link target_path)
    | Directory =>
        _ ← io_step (fmt ["create "; target_path]) (create_dir target_path);
        _ ← copy_mode source_path target_path;
        if is_mountpoint then mret tt else recurse source_path target_path
    | RegularFile =>
        _ ← (if is_mountpoint then io_step (fmt ["create "; target_path]) (create_file target_path)
             else io_step (fmt ["copy "; source_path]) (copy_file source_path target_path));
        copy_mode source_path target_path
    | OtherFile => mret tt
    end.

(** The fuel bounds the depth of the tree. *)
Fixpoint copy_unmounted_tree (fuel : nat) (mounts : list OwnedMount) (source target : path) : M W unit :=
  match fuel with
  | 0 => fail ["directory tree too deep"]
  | S fuel =>
      entries ← getr (fun w => io_context (fmt ["read "; source]) (read_dir w source));
      for_each (copy_entry (copy_unmounted_tree fuel mounts) mounts source target) entries
  end.

(** ** Cloning the mounts *)

(** A mount made by the helper is remembered at once. *)
Definition mount_and_push (c : result helper_command) (action : string) (m : OwnedMount) : T unit :=
  c ← lift c;
  _ ← run_mount c action;
  update (push_mount m).

Definition clone_mount (context : SandboxExecutionContext) (root : path) (root_identity : Z * Z) (im : nat * OwnedMount) : T unit :=
  let '(index, m) := im in
  target ← lift (ok_or (fmt ["parent mount is outside sandbox root: "; om_path m]) (strip_path_prefix (om_path m) (cx_root context)));
  if is_empty target then lift (bail "nested Spawn cannot clone a mount over the sandbox root")
  else if is_internal_mount_staging target then mret tt
  else
    source_identity ← identity (om_path m);
    let stage_relative := join_path NESTED_MOUNT_STAGING (show_N (N.of_nat index)) in
    _ ← mount_and_push (nullfs_command root root_identity (om_path m) (Some source_identity) stage_relative (om_read_only m))
          "stage nested Spawn mount" (mkOwned (join_path root stage_relative) (om_read_only m));
    mount_and_push (nullfs_command root root_identity (join_path root stage_relative) None target (om_read_only m))
      "clone nested Spawn mount" (mkOwned (join_path root target) (om_read_only m)).

(** [enumerate] over the mounts, those with fewer components first. *)
Definition clone_order (mounts : list OwnedMount) : list (nat * OwnedMount) :=
  imap pair (sort_by (on (fun m => depth (om_path m))) mounts).

Definition populate (fuel : nat) (context : SandboxExecutionContext) : T unit :=
  root ← self ns_root;
  _ ← world (copy_unmounted_tree fuel (cx_mounts context) (cx_root context) root);
  info ← ask_world (fun w => io_context "read parent Flatpak instance metadata"
                               (read_to_string w (join_path (cx_root context) ".flatpak-info")));
  _ ← world (io_step "write nested Flatpak instance metadata"
               (write_file (join_path root ".flatpak-info") (restricted_flatpak_info info)));
  let staging := join_path root NESTED_MOUNT_STAGING in
  _ ← world (io_step (fmt ["create nested mount staging "; staging]) (make_dirs staging));
  root_identity ← identity root;
  _ ← mount_and_push (tmpfs_command root root_identity NESTED_MOUNT_STAGING "mode=0700")
        "mount nested Spawn staging tmpfs" (mkOwned staging false);
  for_each (clone_mount context root root_identity) (clone_order (cx_nested_mounts context)).

(** ** Taking down *)

(** Whether an unmount has failed. *)
Definition take_down_nested (failed : bool) (m : OwnedMount) : T bool :=
  r ← catch (record_call (EUnmount m) (unmount_mountpoint (components (om_path m)) (om_read_only m)));
  mret (failed || negb (is_ok r)).

(** [fs::remove_dir_all]; a root that is gone already is no error. *)
Definition remove_tree (root : path) : M W unit := fun w =>
  let (r, w') := remove_dir_all root w in
  match r with
  | inl _ => (Ok tt, w')
  | inr e => if bool_decide (ioe_kind e = NotFound) then (Ok tt, w') else (Err [ioe_message e], w')
  end.

Definition cleanup_nested : T unit :=
  mounts ← self ns_mounts;
  _ ← update drain_mounts;
  failed ← fold_each take_down_nested (rev mounts) false;
  if failed : bool then mret tt
  else
    root ← self ns_root;
    removed ← catch (record_call (ERemoveRoot root) (remove_tree root));
    match removed with
    | Err _ => mret tt
    | Ok _ =>
        run_record ← self ns_run_record;
        _ ← catch (record_call (ERemoveRecord run_record) (remove_run_record run_record));
        mret tt
    end.

(** ** Creation *)

Definition nested_name (parent : string) (sequence : N) : string :=
  fmt [parent; "-nested-"; show_N pid; "-"; show_N sequence].

(** The state of the computation is the new root.  When it cannot be populated
    it is cleaned up, and once more when it is dropped. *)
Definition create (fuel : nat) (sequence : N) (context : SandboxExecutionContext) : T unit :=
  app_root ← lift (ok_or "sandbox root has no application directory" (parent (cx_root context)));
  name ← lift (ok_or "sandbox root has no instance name" (file_name_of (cx_root context)));
  let instance_id := nested_name name sequence in
  let root := join_path app_root instance_id in
  run_record ← in_context "publish nested sandbox ownership"
    (record_call EPublish (write_nested_run_record pid next_sequence launcher_lookup (cx_paths context) (cx_app_id context)
                             instance_id root (cx_root context) (Z.of_N pid)));
  made ← ask (ECreateRoot root) (fun s => let (r, w) := create_dir root s.2 in (r, (s.1, w)));
  match made with
  | inr e =>
      _ ← catch (record_call (ERemoveRecord run_record) (remove_run_record run_record));
      fail [fmt ["create nested sandbox root "; root]; ioe_message e]
  | inl _ =>
      _ ← update (fun _ => mkNested root run_record []);
      r ← catch (populate fuel context);
      match r with
      | Ok _ => mret tt
      | Err e =>
          _ ← cleanup_nested;
          _ ← cleanup_nested;
          fail e
      end
  end.
End Nested.

(** ** Lemmas *)

(** When the calls of a nested sandbox are in order: the root is made behind its
    record, mounts are made in it, the root goes when nothing is mounted, the
    record when there is no root. *)
Definition nested_allowed (root record : path) (before : list MountEvent) (e : MountEvent) : Prop :=
  match e with
  | ECreateRoot p _ => p = root /\ EPublish (Ok record) ∈ before
  | EMount c _ => ECreateRoot root (inl tt) ∈ before /\ exists m, made_by c = Some m /\ below root m
  | ERemoveRoot p _ => p = root /\ ECreateRoot root (inl tt) ∈ before /\ mounted before ≡ₚ unmounted before
  | ERemoveRecord p _ => p = record /\ (ERemoveRoot root (Ok tt) ∈ before \/ exists e, ECreateRoot root (inr e) ∈ before)
  | _ => True
  end.

(** The mounts a plan is cloned to. *)
Definition clones (context_root root : path) (im : nat * OwnedMount) : list OwnedMount :=
  match strip_path_prefix (om_path im.2) context_root with
  | Some target =>
      if is_internal_mount_staging target then []
      else [mkOwned (join_path root (join_path NESTED_MOUNT_STAGING (show_N (N.of_nat im.1)))) (om_read_only im.2);
            mkOwned (join_path root target) (om_read_only im.2)]
  | None => []
  end.

Section NestedLemmas.
Context {W : Type} `{NestedWorld W}.
Context (root record : path) (rooted : root <> "").
Abbreviation T A := (M (traced (NestedSandboxRoot * W) MountEvent) A) (only parsing).
Abbreviation St := (traced (NestedSandboxRoot * W) MountEvent) (only parsing).

(** The root is made, and its mounts are those that the trace shows. *)
Record growing (s : St) : Prop := {
  growing_root : ns_root s.1.1 = root;
  growing_record : ns_run_record s.1.1 = record;
  growing_mounts : ns_mounts s.1.1 = mounted s.2;
  growing_unmounted : unmounted s.2 = [];
  growing_created : ECreateRoot root (inl tt) ∈ s.2;
  growing_calls : lawful (nested_allowed root record) s.2;
}.

Lemma growing_same (s s' : St) : s'.1.1 = s.1.1 -> s'.2 = s.2 -> growing s -> growing s'.
Proof. intros Hi Ht []. split; by rewrite ?Hi, ?Ht. Qed.

Lemma mounted_app a b : mounted (a ++ b) = mounted a ++ mounted b.
Proof. apply omap_app. Qed.
Lemma unmounted_app a b : unmounted (a ++ b) = unmounted a ++ unmounted b.
Proof. apply omap_app. Qed.

(** A mount is made and remembered, or neither. *)
Lemma mount_and_push_runs c action m (s : St) r s' :
  (forall c', c = Ok c' -> made_by c' = Some m /\ below root m) -> growing s -> mount_and_push c action m s = (r, s') ->
  growing s' /\ (r = Ok tt -> ns_mounts s'.1.1 = ns_mounts s.1.1 ++ [m]).
Proof using rooted.
  intros Hm Hg Hr. unfold mount_and_push in Hr. apply M_bind_cases in Hr as (o & s1 & Hx & Hr). injection Hx as <- <-.
  destruct Hr as [(c' & -> & Hr)|(e & _ & -> & ->)]; [|done]. destruct (Hm c' eq_refl) as [Hmade Hbelow].
  apply M_bind_cases in Hr as (o & s1 & Hx & Hr). apply record_runs in Hx as [Hi Ht]. destruct Hg as [G1 G2 G3 G4 G5 G6].
  assert (lawful (nested_allowed root record) s1.2) as Hl.
  { rewrite Ht. apply lawful_snoc; [done|]. split; [done|by exists m]. }
  assert (ECreateRoot root (inl tt) ∈ s1.2) as Hc by (rewrite Ht; apply elem_of_app; by left).
  assert (unmounted s1.2 = []) as Hu by (rewrite Ht, unmounted_app, G4; done).
  destruct Hr as [([] & -> & Hr)|(e & -> & -> & ->)].
  - destruct s1 as [[i w] t]. injection Hr as <- <-. cbn in *. subst i t. split; [|done]. split; cbn; [done..| |done|done|done].
    rewrite mounted_app, G3. by cbn; rewrite Hmade.
  - split; [|done]. split; rewrite ?Hi; [done..| |done|done|done]. rewrite Ht, mounted_app, G3. cbn. by rewrite app_nil_r.
Qed.

Lemma clone_mount_runs context root_identity im (s : St) r s' : growing s ->
  clone_mount context root root_identity im s = (r, s') ->
  growing s' /\ (r = Ok tt -> ns_mounts s'.1.1 = ns_mounts s.1.1 ++ clones (cx_root context) root im).
Proof using rooted.
  intros Hg Hr. destruct im as [index m]. unfold clone_mount in Hr. unfold clones. cbn [fst snd].
  apply M_bind_cases in Hr as (o & s1 & Hx & Hr). injection Hx as <- <-.
  destruct Hr as [(target & Ht%ok_or_ok & Hr)|(e & _ & -> & ->)]; [|done]. rewrite Ht.
  destruct (is_empty target); [by injection Hr as <- <-|]. destruct (is_internal_mount_staging target).
  { injection Hr as <- <-. by rewrite app_nil_r. }
  apply M_bind_cases in Hr as (o & s1 & Hx & Hr). apply world_runs in Hx as [Hi Ht1].
  pose proof (growing_same _ _ Hi Ht1 Hg) as Hg1. destruct Hr as [(si & -> & Hr)|(e & -> & -> & ->)]; [|done].
  apply M_bind_cases in Hr as (o & s2 & Hx & Hr).
  apply mount_and_push_runs in Hx as [Hg2 Hm2]; [|intros c'; by apply nullfs_made|done].
  destruct Hr as [([] & -> & Hr)|(e & -> & -> & ->)]; [|done].
  apply mount_and_push_runs in Hr as [Hg3 Hm3]; [|intros c'; by apply nullfs_made|done].
  split; [done|]. intros ->. rewrite Hm3, Hm2, Hi by done. by rewrite <- app_assoc.
Qed.

Lemma clone_mounts_run context root_identity l (s : St) r s' : growing s ->
  for_each (clone_mount context root root_identity) l s = (r, s') ->
  growing s' /\ (r = Ok tt -> ns_mounts s'.1.1 = ns_mounts s.1.1 ++ concat (map (clones (cx_root context) root) l)).
Proof using rooted.
  revert s. induction l as [|im l IH]; intros s Hg Hr; cbn [for_each] in Hr.
  - injection Hr as <- <-. cbn. by rewrite app_nil_r.
  - apply M_bind_cases in Hr as (o & s1 & Hx & Hr). apply clone_mount_runs in Hx as [Hg1 Hm1]; [|done].
    destruct Hr as [([] & -> & Hr)|(e & -> & -> & ->)]; [|done]. apply IH in Hr as [Hg2 Hm2]; [|done]. split; [done|].
    intros ->. cbn. by rewrite Hm2, Hm1, <- app_assoc.
Qed.

Lemma populate_runs fuel context (s : St) r s' : growing s -> ns_mounts s.1.1 = [] -> populate fuel context s = (r, s') ->
  growing s' /\
  (r = Ok tt -> ns_mounts s'.1.1 = mkOwned (join_path root NESTED_MOUNT_STAGING) false
                  :: concat (map (clones (cx_root context) root) (clone_order (cx_nested_mounts context)))).
Proof using rooted.
  intros Hg He Hr. unfold populate in Hr. rewrite self_bind, (growing_root s Hg) in Hr.
  assert (forall A B (m : M W A) (f : A -> T B) (s : St) r s', growing s -> (world m ≫= f) s = (r, s') ->
    (exists a s1, growing s1 /\ s1.1.1 = s.1.1 /\ f a s1 = (r, s')) \/ growing s' /\ exists e, r = Err e) as Hstep.
  { intros A B m f t rt t' Ht (o & s1 & Hx & Hc)%M_bind_cases. apply world_runs in Hx as [Hi Ht1].
    pose proof (growing_same _ _ Hi Ht1 Ht) as Hg1. destruct Hc as [(a & _ & Hc)|(e & _ & -> & ->)]; [left; by exists a, s1|right; eauto]. }
  apply Hstep in Hr as [(u1 & s1 & Hg1 & Hi1 & Hr)|[? [e ->]]]; [|by split|done].
  apply Hstep in Hr as [(info & s2 & Hg2 & Hi2 & Hr)|[? [e ->]]]; [|by split|done].
  apply Hstep in Hr as [(u3 & s3 & Hg3 & Hi3 & Hr)|[? [e ->]]]; [|by split|done]. cbn zeta in Hr.
  apply Hstep in Hr as [(u4 & s4 & Hg4 & Hi4 & Hr)|[? [e ->]]]; [|by split|done].
  apply Hstep in Hr as [(i & s5 & Hg5 & Hi5 & Hr)|[? [e ->]]]; [|by split|done].
  apply M_bind_cases in Hr as (o & s6 & Hx & Hr).
  apply mount_and_push_runs in Hx as [Hg6 Hm6]; [|intros c'; by apply tmpfs_made|done].
  destruct Hr as [([] & -> & Hr)|(e & -> & -> & ->)]; [|done].
  apply clone_mounts_run in Hr as [Hg7 Hm7]; [|done]. split; [done|]. intros ->. rewrite Hm7, Hm6 by done.
  by rewrite Hi5, Hi4, Hi3, Hi2, Hi1, He.
Qed.

(** ** Lemmas: taking down *)

Lemma take_down_nested_runs l failed (s : St) r s' : fold_each take_down_nested l failed s = (r, s') ->
  exists o, o.*1 = l /\ s'.1.1 = s.1.1 /\ s'.2 = s.2 ++ omap tried o /\ r = Ok (failed || negb (bool_decide (left_over o = []))) /\
    Forall (fun x => x.2 <> None) o.
Proof.
  revert failed s. induction l as [|m l IH]; intros failed s Hr; cbn [fold_each] in Hr.
  - injection Hr as <- <-. exists []. cbn. by rewrite app_nil_r, orb_false_r.
  - apply M_bind_cases in Hr as (x & s1 & Hx & Hr). unfold take_down_nested in Hx.
    apply M_bind_cases in Hx as (y & s2 & Hy & Hx). apply catch_runs in Hy as (u & -> & Hy). apply record_runs in Hy as [Hi1 Ht1].
    destruct Hx as [(a & Ha & Hx)|(e & ? & _)]; [|done]. apply Ok_inj in Ha as <-. injection Hx as <- <-.
    destruct Hr as [(a & Ha & Hr)|(e & ? & _)]; [|done]. apply Ok_inj in Ha as <-.
    apply IH in Hr as (o & <- & Hi & Ht & -> & Hall). exists ((m, Some u) :: o). cbn. rewrite Hi, Ht, Hi1, Ht1, <- !app_assoc.
    split_and!; [done..| |by constructor]. destruct u as [u|e]; unfold left_over; cbn; [by rewrite orb_false_r|].
    by rewrite orb_true_r.
Qed.

(** What the cleanup ends with. *)
Inductive nested_ending : bool -> list MountEvent -> Prop :=
| nested_left : nested_ending false []
| nested_root_left e : nested_ending true [ERemoveRoot root (Err e)]
| nested_gone r : nested_ending true [ERemoveRoot root (Ok tt); ERemoveRecord record r].

Lemma cleanup_nested_runs (s : St) r s' : ns_root s.1.1 = root -> ns_run_record s.1.1 = record -> cleanup_nested s = (r, s') ->
  s'.1.1 = drain_mounts s.1.1 /\ r = Ok tt /\
  exists o tail, s'.2 = s.2 ++ omap tried o ++ tail /\ o.*1 = rev (ns_mounts s.1.1) /\
    nested_ending (bool_decide (left_over o = [])) tail.
Proof.
  intros Hroot Hrec Hr. unfold cleanup_nested in Hr. rewrite self_bind, update_bind in Hr.
  apply M_bind_cases in Hr as (x & s1 & Hx & Hr). apply take_down_nested_runs in Hx as (o & Ho & Hi & Ht & -> & _).
  cbn in Hi, Ht. destruct Hr as [(a & Ha & Hr)|(e & ? & _)]; [|done]. apply Ok_inj in Ha as <-. cbn [orb] in Hr.
  case_bool_decide as Hl; cbn [negb] in Hr.
  - rewrite self_bind, Hi in Hr. cbn in Hr. rewrite Hroot in Hr.
    apply M_bind_cases in Hr as (y & s2 & Hy & Hr). apply catch_runs in Hy as (u & -> & Hy). apply record_runs in Hy as [Hi2 Ht2].
    destruct Hr as [(a & Ha & Hr)|(e & ? & _)]; [|done]. apply Ok_inj in Ha as <-. destruct u as [[]|e].
    + rewrite self_bind, Hi2, Hi in Hr. cbn in Hr. rewrite Hrec in Hr.
      apply M_bind_cases in Hr as (z & s3 & Hz & Hr). apply catch_runs in Hz as (u' & -> & Hz). apply record_runs in Hz as [Hi3 Ht3].
      destruct Hr as [(a & Ha & Hr)|(e & ? & _)]; [|done]. injection Hr as <- <-. rewrite Hi3, Hi2, Hi. split_and!; [done..|].
      exists o, [ERemoveRoot root (Ok tt); ERemoveRecord record u']. rewrite Ht3, Ht2, Ht, <- !app_assoc. split_and!; [done..|].
      rewrite bool_decide_true by done. constructor.
    + injection Hr as <- <-. rewrite Hi2, Hi. split_and!; [done..|]. exists o, [ERemoveRoot root (Err e)].
      rewrite Ht2, Ht, <- !app_assoc. split_and!; [done..|]. rewrite bool_decide_true by done. constructor.
  - injection Hr as <- <-. rewrite Hi. split_and!; [done..|]. exists o, []. rewrite app_nil_r, Ht. split_and!; [done..|].
    rewrite bool_decide_false by done. constructor.
Qed.
End NestedLemmas.

(** ** Lemmas: creation *)

Lemma join_path_nonempty a b : b <> "" -> join_path a b <> "".
Proof. intros Hb. unfold join_path. cases; [done|destruct a as [|x a]; done..]. Qed.

Section Creation.
Context {W : Type} `{NestedWorld W}.
Context (pid : N) (next_sequence : M W N).
Abbreviation St := (traced (NestedSandboxRoot * W) MountEvent) (only parsing).

(** How a creation ends: without a root, or with one that is populated or that
    was cleaned up twice. *)
Lemma create_runs fuel sequence context s0 w r (s' : St) :
  create pid next_sequence fuel sequence context ((s0, w), []) = (r, s') ->
  (r <> Ok tt /\ forall root, ECreateRoot root (inl tt) ∉ s'.2) \/
  exists root record (s1 : St), root <> "" /\ growing root record s1 /\
    ((r = Ok tt /\ s' = s1 /\
      ns_mounts s1.1.1 = mkOwned (join_path root NESTED_MOUNT_STAGING) false
                  :: concat (map (clones (cx_root context) root) (clone_order (cx_nested_mounts context)))) \/
     r <> Ok tt /\ exists s2, cleanup_nested s1 = (Ok tt, s2) /\ cleanup_nested s2 = (Ok tt, s')).
Proof.
  intros Hr. unfold create in Hr.
  apply M_bind_cases in Hr as (o & t1 & Hx & Hr). injection Hx as <- <-.
  destruct Hr as [(app_root & _ & Hr)|(e & _ & -> & ->)]; [|left; split; [done|intros ? []%elem_of_nil]].
  apply M_bind_cases in Hr as (o & t2 & Hx & Hr). injection Hx as <- <-.
  destruct Hr as [(name & _ & Hr)|(e & _ & -> & ->)]; [|left; split; [done|intros ? []%elem_of_nil]]. cbn zeta in Hr.
  set (root := join_path app_root (nested_name pid name sequence)) in Hr.
  assert (root <> "") as Hroot by (apply join_path_nonempty; unfold nested_name; by destruct name).
  apply M_bind_cases in Hr as (o & t3 & Hx & Hr). unfold in_context in Hx. destruct (record_call EPublish _ _) as [o' t3'] eqn:Ex.
  injection Hx as <- <-. apply record_runs in Ex as [_ Ht3]. cbn in Ht3.
  destruct Hr as [(record & E%with_context_ok & Hr)|(e & _ & -> & ->)]; cycle 1.
  { left. split; [done|]. rewrite Ht3. by intros p ?%list_elem_of_singleton. }
  subst o'. apply M_bind_cases in Hr as (o & t4 & Hx & Hr). unfold ask in Hx.
  destruct (create_dir root t3'.1.2) as [made w4]. injection Hx as <- <-.
  destruct Hr as [(m & E & Hr)|(e & ? & _)]; [|done]. apply Ok_inj in E as <-. rewrite Ht3 in Hr. cbn in Hr. destruct made as [[]|e].
  - right. exists root, record. rewrite update_bind in Hr. apply M_bind_cases in Hr as (o & t5 & Hx & Hr).
    apply catch_runs in Hx as (x & -> & Hx). destruct Hr as [(a & E & Hr)|(e & ? & _)]; [|done]. apply Ok_inj in E as <-.
    set (t4 := ((_, _), _) : St) in Hx.
    assert (growing root record t4) as Hg.
    { split; [done..| |].
      - cbn. right. left.
      - cbn. apply (lawful_snoc _ [_]); [apply (lawful_snoc _ []); [apply lawful_nil|done]|]. split; [done|left]. }
    destruct (populate_runs root record Hroot fuel context t4 x t5 Hg eq_refl Hx) as [Hg5 Hm5]. exists t5. split; [done|]. split; [done|].
    destruct x as [[]|e].
    + injection Hr as <- <-. left. by split_and!; [..|apply Hm5].
    + right. apply M_bind_cases in Hr as (o & t6 & Hy & Hr).
      destruct (cleanup_nested_runs root record t5 o t6 (growing_root _ _ _ Hg5) (growing_record _ _ _ Hg5) Hy) as (Hi6 & -> & _).
      destruct Hr as [(u & _ & Hr)|(e' & ? & _)]; [|done]. apply M_bind_cases in Hr as (o & t7 & Hz & Hr).
      destruct (cleanup_nested_runs root record t6 o t7) as (_ & -> & _);
        [by rewrite Hi6; apply Hg5|by rewrite Hi6; apply Hg5|done|].
      destruct Hr as [(u' & _ & Hr)|(e' & ? & _)]; [|done]. injection Hr as <- <-. split; [done|]. by exists t6.
  - left. apply M_bind_cases in Hr as (o & t5 & Hx & Hr). apply catch_runs in Hx as (x & -> & Hx). apply record_runs in Hx as [_ Ht5].
    cbn in Ht5. destruct Hr as [(u & _ & Hr)|(e' & ? & _)]; [|done]. injection Hr as <- <-. split; [done|].
    rewrite Ht5. intros p Hp. by rewrite !elem_of_cons in Hp; destruct Hp as [?|[?|[?|?%elem_of_nil]]].
Qed.
End Creation.

(** ** Theorems *)

Section Theorems.
Context {W : Type} `{NestedWorld W}.
Context (pid : N) (next_sequence : M W N).

(** A nested sandbox that was created has the mounts of its plan, each
    cloned to the same place below the new root with the same access, behind one
    in the staging, parents first; it owns exactly the mounts that were made. *)
Theorem nested_mounts_mirror fuel sequence context s0 w s' :
  create pid next_sequence fuel sequence context ((s0, w), []) = (Ok tt, s') ->
  ns_mounts s'.1.1 = mkOwned (join_path (ns_root s'.1.1) NESTED_MOUNT_STAGING) false
     :: concat (map (clones (cx_root context) (ns_root s'.1.1)) (clone_order (cx_nested_mounts context))) /\
  mounted s'.2 = ns_mounts s'.1.1.
Proof.
  intros [[? _]|(root & record & s1 & Hroot & Hg & [(_ & -> & Hm)|[? _]])]%create_runs; [done| |done].
  destruct Hg as [Hr _ Ho _ _ _]. by rewrite Hr, <- Ho.
Qed.

(** C13.  From its creation to its drop a nested sandbox is recoverable: its record
    is published before its root is made, mounts are made in the root only, the
    root is removed only when all of its mounts were unmounted, and the record
    only when the root is gone. *)
Theorem nested_root_outlives_its_mounts fuel sequence context s0 w s' r s'' :
  create pid next_sequence fuel sequence context ((s0, w), []) = (Ok tt, s') -> cleanup_nested s' = (r, s'') ->
  lawful (nested_allowed (ns_root s'.1.1) (ns_run_record s'.1.1)) s''.2 /\
  unmounted s''.2 ⊆ mounted s''.2.
Proof.
  intros [[? _]|(root & record & s1 & Hroot & Hg & [(_ & -> & _)|[? _]])]%create_runs Hc; [done| |done].
  destruct Hg as [Hr Hrec Hm Hu Hcr Hl]. rewrite Hr, Hrec.
  apply (cleanup_nested_runs root record) in Hc as (_ & _ & o & tail & Ht & Ho & Hend); [|done..].
  assert (lawful (nested_allowed root record) (s1.2 ++ omap tried o)) as Hl1.
  { apply only_lawful; [done|]. apply Forall_forall. intros e He. apply list_elem_of_omap in He as ([m [x|]] & _ & [= <-]). done. }
  assert (mounted (s1.2 ++ omap tried o) = mounted s1.2) as Hm1.
  { by rewrite mounted_app, (mounted_none (omap tried o)), app_nil_r by apply tried_quiet. }
  assert (unmounted (s1.2 ++ omap tried o) = (List.filter gone o).*1) as Hu1.
  { by rewrite unmounted_app, Hu, unmounted_tried. }
  assert ((List.filter gone o).*1 ++ left_over o ≡ₚ mounted s1.2) as Hsplit.
  { by rewrite split_outcomes, Ho, <- Permutation_rev, Hm. }
  assert (ECreateRoot root (inl tt) ∈ s1.2 ++ omap tried o) as Hcr1 by (apply elem_of_app; by left).
  assert (mounted tail = [] /\ unmounted tail = []) as [Hmt Hut] by by inversion Hend.
  rewrite Ht, app_assoc. split.
  - inversion Hend as [E|? E|? E]; subst tail; symmetry in E; try apply bool_decide_eq_true in E.
    + by rewrite app_nil_r.
    + apply lawful_snoc; [done|]. split_and!; [done..|]. rewrite Hm1, Hu1, <- Hsplit, E. by rewrite app_nil_r.
    + rewrite cons_middle, app_assoc. apply lawful_snoc; [apply lawful_snoc; [done|]|].
      * split_and!; [done..|]. rewrite Hm1, Hu1, <- Hsplit, E. by rewrite app_nil_r.
      * split; [done|]. left. apply elem_of_app. right. left.
  - rewrite mounted_app, unmounted_app, Hmt, Hut, !app_nil_r, Hm1, Hu1, <- Hsplit. intros m Hin. apply elem_of_app. by left.
Qed.

(** A creation that fails behind the root's directory removes the directory
    recursively, also when one of the root's mounts could not be unmounted: the
    first cleanup gives up, but it has forgotten the mounts, and the drop cleans
    up again. *)
Theorem failed_creation_removes_root fuel sequence context s0 w r s' root :
  create pid next_sequence fuel sequence context ((s0, w), []) = (r, s') -> r <> Ok tt ->
  ECreateRoot root (inl tt) ∈ s'.2 -> exists x, ERemoveRoot root x ∈ s'.2.
Proof.
  intros [[_ Hn]|(root' & record & s1 & Hroot & Hg & [[? _]|(_ & s2 & Hc1 & Hc2)])]%create_runs Hne Hin; [by apply Hn in Hin|done|].
  apply (cleanup_nested_runs root' record) in Hc1 as (Hi2 & _ & o1 & tail1 & Ht1 & _ & Hend1); [|by apply Hg..].
  apply (cleanup_nested_runs root' record) in Hc2 as (_ & _ & o2 & tail2 & Ht2 & Ho2 & Hend2); [|by rewrite Hi2; apply Hg..].
  rewrite Hi2 in Ho2. cbn in Ho2. apply fmap_nil_inv in Ho2 as ->. cbn in Ht2, Hend2. change (left_over []) with (@nil OwnedMount) in Hend2.
  assert (root' = root) as ->.
  { rewrite Ht2, Ht1, !elem_of_app in Hin. destruct Hin as [[Hin|[Hin|Hin]]|Hin].
    - apply list_elem_of_split in Hin as (pre & post & E). by destruct (growing_calls _ _ _ Hg pre _ post E) as [-> _].
    - apply list_elem_of_omap in Hin as ([m [x|]] & _ & [=]).
    - clear -Hin Hend1. inversion Hend1; subst; set_solver.
    - clear -Hin Hend2. inversion Hend2; subst; set_solver. }
  inversion Hend2; subst; eexists; rewrite Ht2; apply elem_of_app; right; left.
Qed.
End Theorems.

(** ** A host on which the theorems compute *)

Definition parent_root : path := "/run/x/chroots/org.a/1".
Definition child_root : path := "/run/x/chroots/org.a/1-nested-7-0".

#[local] Instance no_processes : ProcessWorld TreeFs := {
  capture := mret [];
  send_signal _ _ := mret tt;
  pause := mret tt;
  self_pid := 1%Z;
}.
(** The mount below [home/a] of the new root stays busy. *)
#[local] Instance busy_recovery : RecoveryWorld TreeFs := {
  mount_command := mret (fmt ["/home/a on "; child_root; "/home/a (nullfs, local)"]);
  launcher_lookup _ _ := Ok None;
  launcher_probe _ _ := KillESRCH;
  metadata_identity _ _ := inl (1, 1)%N;
  SandboxRecovery.unmount_command _ _ _ _ := fail ["device busy"];
  document_unmount_command _ _ _ _ := mret tt;
  to_path p := render_components p;
}.
(** The helper refuses to mount at [home/b]. *)
#[local] Instance refusing_mounts : MountWorld TreeFs := {
  run_command c _ := if bool_decide ("home/b" ∈ c) then fail ["mount failed"] else mret tt;
  read_link _ _ := inr not_found;
  make_symlink _ _ t := (inr not_found, t);
  create_dir p t := (inl tt, mkTree (components p :: dirs t) (files t));
  create_file p t := (inl tt, tree_put (components p) "" t);
}.
#[local] Instance example_nested : NestedWorld TreeFs := {
  entry_mode _ _ := 493;
  copy_file p q t := match tree_file t (components p) with
                     | Some d => (inl tt, tree_put (components q) d t)
                     | None => (inr not_found, t)
                     end;
}.

Definition example_parent : TreeFs :=
  mkTree (map components ["/"; parent_root; join_path parent_root "home"; join_path parent_root "home/a"; join_path parent_root "home/b"])
    [(components (join_path parent_root ".flatpak-info"), fmt ["[Instance]"; nl])].
Definition example_context (targets : list path) : SandboxExecutionContext :=
  let mounts := map (fun p => mkOwned (join_path parent_root p) false) targets in
  mkContext example_installation "org.a" parent_root mounts mounts.
Definition example_start (t : TreeFs) : traced (NestedSandboxRoot * TreeFs) MountEvent := ((mkNested "" "" [], t), []).
Definition example_create (targets : list path) : result unit * traced (NestedSandboxRoot * TreeFs) MountEvent :=
  create 7 (mret 0%N) 5 0 (example_context targets) (example_start example_parent).

Lemma nested_mounts_mirror_witness :
  let s' := (example_create ["home/a"]).2 in
  map om_path (mounted s'.2) = map (join_path child_root)
    [".freebsd-flatpak-mount-sources"; ".freebsd-flatpak-mount-sources/0"; "home/a"] /\ mounted s'.2 = ns_mounts s'.1.1.
Proof.
  intros s'. split; [vm_compute; reflexivity|].
  eapply (nested_mounts_mirror 7 (mret 0%N) 5 0 (example_context ["home/a"]) (mkNested "" "" []) example_parent).
  vm_compute. reflexivity.
Defined.

Lemma nested_root_outlives_its_mounts_witness :
  let s' := (example_create ["home/a"]).2 in let s'' := (cleanup_nested s').2 in
  length (mounted s''.2) = 3 /\ length (unmounted s''.2) = 2 /\ unmounted s''.2 ⊆ mounted s''.2.
Proof.
  intros s' s''. split; [vm_compute; reflexivity|]. split; [vm_compute; reflexivity|].
  eapply (nested_root_outlives_its_mounts 7 (mret 0%N) 5 0 (example_context ["home/a"]) (mkNested "" "" []) example_parent);
    [vm_compute; reflexivity|apply surjective_pairing].
Defined.

(** The mount at [home/a] is still there when the root is removed. *)
Lemma failed_creation_removes_root_witness :
  let s' := (example_create ["home/a"; "home/b"]).2 in
  mkOwned (join_path child_root "home/a") false ∈ mounted s'.2 /\ mkOwned (join_path child_root "home/a") false ∉ unmounted s'.2 /\
  exists x, ERemoveRoot child_root x ∈ s'.2.
Proof.
  intros s'. split; [apply (bool_decide_unpack _); vm_compute; exact I|]. split; [apply (bool_decide_unpack _); vm_compute; exact I|].
  eapply (failed_creation_removes_root 7 (mret 0%N) 5 0 (example_context ["home/a"; "home/b"]) (mkNested "" "" []) example_parent);
    [apply surjective_pairing|vm_compute; discriminate|].
  vm_compute. right. left.
Defined.
