(* ===== verification/BrokerService.v ===== *)
(** * BrokerService: what the spawn broker does with a connection
    (src/src/sandbox/spawn_broker.rs: receive_packet, spawn_in_existing_sandbox,
    handle_connection and what they call)

    A connection brings one request.  A spawn request passes descriptors along,
    which the broker duplicates for the process it starts; the process is
    watched until its tree has ended, and the client is told.  All calls are
    recorded; the lemmas account for every descriptor that was received or made,
    whatever the system answers and wherever the service stops. *)
From Stdlib Require Import Ascii String NArith ZArith Lia Permutation.
From stdpp Require Import base list strings sets gmap.
From S2P Require Import Prelude Effects Traces Collections RustStr RustNum RustPath HostFs Processes ProcessTrees InstallationPaths Records RunRecords LaunchRequest BrokerProtocol SandboxMounts NestedSandbox.

Definition SIGINT : Z := 2.

(** ** Messages and calls *)

(** A control message: whether it carries descriptors ([SOL_SOCKET],
    [SCM_RIGHTS]), the bytes of its data, and the descriptors there. *)
Record ControlMessage := mkControl { cm_rights : bool; cm_bytes : Z; cm_data : list Z }.

(** What [recvmsg] delivers: the packet, whether it or its control data was cut
    off, and the control messages. *)
Record Message := mkMessage { rm_packet : bytes; rm_truncated : bool; rm_control : list ControlMessage }.

(** [poll]: whether it reported anything, and the flags. *)
Record Polled := mkPolled { po_any : bool; po_gone : bool; po_input : bool }.

Inductive BrokerEvent :=
| EReceive (m : option Message)
| ECloexec (fd : Z) (ok : bool)
| EClose (fd : Z)
| EPoll (p : Polled)
| EStopping (b : bool)
| ERead (fd : Z) (r : io_result bytes)
| EDuplicate (fd minimum : Z) (r : io_result Z)
| EPipe (r : io_result (Z * Z))
| ESpawn (mappings : list (Z * Z)) (r : io_result Z)
| EKillChild (pid : Z)
| EWaitChild (pid : Z)
| ESend (message request : N) (payload : bytes) (ok : bool)
| EPause (milliseconds : Z)
| ETree (e : TreeEvent)
| EDropTree (pid : Z) (r : result (option unit))
| ENested (e : MountEvent)
| ERelease (fd : Z)
| ESocket (r : io_result Z)
| EBind (path : path) (r : io_result unit)
| EListen (r : io_result unit).

(** What the broker uses of the system.  [read] and [send] are repeated while
    they are interrupted. *)
Class BrokerSystem (W : Type) `{NestedWorld W, !ReaperSystem W} := {
  recv_message : Z -> W -> option Message * W;
  set_cloexec : Z -> W -> bool * W;
  close_fd : Z -> W -> unit * W;
  poll_connection : Z -> W -> Polled * W;
  read_stopping : W -> bool * W;
  read_bytes : Z -> nat -> W -> io_result bytes * W;
  dup_from : Z -> Z -> W -> io_result Z * W;
  make_pipe : W -> io_result (Z * Z) * W;
  (** [Command::spawn]: the program, its arguments, the descriptor mappings and
      the descriptor that reports the start. *)
  spawn_command : string * list string -> list (Z * Z) -> option Z -> W -> io_result Z * W;
  kill_child : Z -> W -> unit * W;
  wait_child : Z -> W -> unit * W;
  send_packet : Z -> bytes -> W -> bool * W;
  pause_for : Z -> W -> unit * W;
  release_fd : Z -> W -> unit * W;
  next_nested_root : W -> N * W;
  identity_of_root : W -> path -> result (Z * Z);
  make_socket : W -> io_result Z * W;
  bind_to : Z -> path -> W -> io_result unit * W;
  listen_on : Z -> W -> io_result unit * W;
  connect_to : Z -> path -> W -> bool * W;
}.

(** What of the execution context the service uses, beyond the nested root. *)
Record ServiceContext := mkService {
  sv_nested : SandboxExecutionContext;
  sv_runtime_root : path;
  sv_uid : Z;
  sv_gid : Z;
  sv_groups : list Z;
  sv_environment : list (string * string);
}.

(** The state of a service: whether a termination was requested over the
    connection ([watch_bus_triggered]), the system, and the calls so far. *)
Abbreviation service W := (traced (bool * W) BrokerEvent) (only parsing).

Section Service.
Context {W : Type} `{BrokerSystem W}.
Abbreviation T A := (M (service W) A) (only parsing).

(** A call of the system that is not recorded; one that is, with its answer. *)
Definition outside {A} (m : M W A) : T A := quiet (fun s => let (r, w) := m s.2 in (r, (s.1, w))).
Definition ask_system {A} (event : A -> BrokerEvent) (m : W -> A * W) : T A :=
  ask event (fun s => let (a, w) := m s.2 in (a, (s.1, w))).

Definition close_descriptor (fd : Z) : T unit := ask_system (fun _ => EClose fd) (close_fd fd).
Definition close_all (fds : list Z) : T unit := for_each close_descriptor fds.

(** ** Receiving a packet *)

(** The descriptors of a control message that [close_control_fds] looks at. *)
Definition message_fds (m : ControlMessage) : list Z :=
  if cm_rights m && (0 <=? cm_bytes m)%Z && (cm_bytes m mod 4 =? 0)%Z
  then take (Z.to_nat (cm_bytes m / 4)) (cm_data m) else [].

Fixpoint control_fds (descriptors : list Z) (l : list ControlMessage) : option (list Z) :=
  match l with
  | [] => Some descriptors
  | m :: r =>
      if negb (cm_rights m) || (cm_bytes m <? 0)%Z then None
      else if negb (cm_bytes m mod 4 =? 0)%Z || (Z.of_nat MAX_FDS <? Z.of_nat (length descriptors) + cm_bytes m / 4)%Z then None
      else control_fds (descriptors ++ take (Z.to_nat (cm_bytes m / 4)) (cm_data m)) r
  end.

Definition close_fds (fds : list Z) : T unit := close_all (List.filter (fun fd => 0 <=? fd)%Z fds).
Definition close_control_fds (m : Message) : T unit := close_fds (concat (map message_fds (rm_control m))).

(** The loop that makes the descriptors owned ones; the rest is not closed when
    it stops. *)
Fixpoint own_fds (raw owned : list Z) : T (option (list Z)) :=
  match raw with
  | [] => mret (Some owned)
  | fd :: r =>
      if (fd <? 0)%Z then _ ← close_all owned; mret None
      else
        ok ← ask_system (ECloexec fd) (set_cloexec fd);
        if ok : bool then own_fds r (owned ++ [fd])
        else _ ← close_descriptor fd; _ ← close_all owned; mret None
  end.

Definition receive_packet (fd : Z) : T (option (bytes * list Z)) :=
  received ← ask_system EReceive (recv_message fd);
  match received with
  | None => mret None
  | Some m =>
      if rm_truncated m then _ ← close_control_fds m; mret None
      else
        match parse_frame (rm_packet m) with
        | None => _ ← close_control_fds m; mret None
        | Some (_, _, _, expected) =>
            match control_fds [] (rm_control m) with
            | None => _ ← close_control_fds m; mret None
            | Some raw =>
                if negb (N.of_nat (length raw) =? expected)%N then _ ← close_fds raw; mret None
                else
                  owned ← own_fds raw [];
                  mret (pair (rm_packet m) <$> owned)
            end
        end
  end.

(** ** Starting the process *)

Record Spawned := mkSpawned { sd_child : Z; sd_started : option Z; sd_nested : option NestedSandboxRoot }.

(** A computation on a nested root, whose calls are recorded as the service's. *)
Definition on_nested {A} (root : NestedSandboxRoot) (m : M (traced (NestedSandboxRoot * W) MountEvent) A)
  : T (result A * NestedSandboxRoot) := fun s =>
  let '(r, (nw, ev)) := m ((root, s.1.2), []) in (Ok (r, nw.1), ((s.1.1, nw.2), s.2 ++ map ENested ev)).

Definition drop_nested (root : option NestedSandboxRoot) : T unit :=
  match root with
  | None => mret tt
  | Some root => _ ← on_nested root cleanup_nested; mret tt
  end.

(** What is dropped when a step fails. *)
Definition or_drop {A} (dropped : T unit) (m : T A) : T A :=
  r ← catch m;
  match r with
  | Ok a => mret a
  | Err e => _ ← dropped; fail e
  end.
Definition fail_io {A} (msg : string) (r : io_result A) : T A := lift (io_context msg r).

Definition readiness_pipe (minimum_fd : Z) : T (Z * Z) :=
  p ← ask_system EPipe make_pipe;
  '(read, write) ← fail_io "create Spawn readiness pipe" p;
  d ← ask_system (EDuplicate write minimum_fd) (dup_from write minimum_fd);
  match d with
  | inr e => _ ← close_all [write; read]; fail ["duplicate Spawn readiness pipe"; ioe_message e]
  | inl d => _ ← close_descriptor write; mret (read, d)
  end.

(** The ends of the pipe, if there is one. *)
Definition pipe_fds (readiness : option (Z * Z)) : list Z :=
  match readiness with Some (read, write) => [read; write] | None => [] end.

(** Each source is closed behind its duplicate; when one fails, the sources that
    are left are dropped with the duplicates. *)
Fixpoint duplicate_sources (minimum : Z) (mappings made : list (Z * Z)) : T (list (Z * Z)) :=
  match mappings with
  | [] => mret made
  | (target, source) :: r =>
      d ← ask_system (EDuplicate source minimum) (dup_from source minimum);
      match d with
      | inr e =>
          _ ← close_all (source :: map snd r ++ map snd made);
          fail ["duplicate Spawn file descriptor"; ioe_message e]
      | inl d => _ ← close_descriptor source; duplicate_sources minimum r (made ++ [(target, d)])
      end
  end.

Definition absolute_cwd (cwd : option bytes) : bool :=
  match cwd with Some (a :: _) => Ascii.eqb a "/" | Some [] => false | None => true end.

Definition flag_set (flags mask : N) : bool := negb (N.land flags mask =? 0)%N.

Section Spawning.
(** The process, its counter of records, and the depth of copied trees. *)
Context (pid : N) (next_sequence : M W N) (tree_depth : nat) (context : ServiceContext).

Definition create_nested : T NestedSandboxRoot :=
  sequence ← outside (fun w => let (n, w) := next_nested_root w in (Ok n, w));
  r ← on_nested (mkNested "" "" []) (create pid next_sequence tree_depth sequence (sv_nested context));
  _ ← lift r.1;
  mret r.2.

Definition launch_request (root : path) (request : SpawnRequest) (environment : list (string * string)) : LaunchRequest :=
  mkLaunchRequest root (sv_runtime_root context) (sv_uid context) (sv_gid context) (sv_groups context)
    (map fst (sp_mappings request)) (string_of <$> sp_cwd request) (flag_set (sp_flags request) 0x04)
    (flag_set (sp_flags request) 0x08) environment (map string_of (sp_argv request)).

(** The part behind the descriptors; they are dropped with the command, the
    write end when the process was started. *)
Definition start_process (launch_root : path) (request : SpawnRequest) (environment : list (string * string))
    (readiness : option (Z * Z)) (mappings : list (Z * Z)) : T Z :=
  c ← outside (getr (command identity_of_root (launch_request launch_root request environment)));
  r ← ask_system (ESpawn mappings) (spawn_command c mappings (snd <$> readiness));
  fail_io "spawn command through existing chroot" r.

(** Everything behind the nested root: when it fails, the nested root is dropped,
    and behind it the sources of the request that are left. *)
Definition launch_in (nested : option NestedSandboxRoot) (request : SpawnRequest) : T Spawned :=
  let drop_sources := _ ← drop_nested nested; close_all (map snd (sp_mappings request)) in
  let launch_root := match nested with Some n => ns_root n | None => cx_root (sv_nested context) end in
  let inherited := if flag_set (sp_flags request) 0x01 then [] else sv_environment context in
  environment ← or_drop drop_sources
    (lift (ok_or "Spawn environment is not UTF-8" (merge_environment inherited (sp_environment request))));
  let minimum := minimum_source (sp_mappings request) in
  readiness ← or_drop drop_sources
    (if flag_set (sp_flags request) SPAWN_NOTIFY_START then Some <$> readiness_pipe minimum else mret None);
  let drop_pipe := _ ← close_all (pipe_fds readiness); drop_nested nested in
  mappings ← or_drop drop_pipe (duplicate_sources minimum (sp_mappings request) []);
  child ← or_drop (_ ← close_all (map snd mappings); drop_pipe) (start_process launch_root request environment readiness mappings);
  _ ← close_all (option_list (snd <$> readiness));
  _ ← close_all (map snd mappings);
  mret (mkSpawned child (fst <$> readiness) nested).

Definition spawn_in_existing_sandbox (request : SpawnRequest) : T Spawned :=
  let drop_sources := close_all (map snd (sp_mappings request)) in
  if negb (spawn_flags_supported (sp_flags request)) then _ ← drop_sources; fail ["unsupported nested Spawn flags"]
  else if negb (absolute_cwd (sp_cwd request)) then _ ← drop_sources; fail ["Spawn cwd must be absolute"]
  else
    nested ← (if flag_set (sp_flags request) 0x04 then Some <$> or_drop drop_sources create_nested else mret None);
    launch_in nested request.
End Spawning.

(** ** Talking to the client *)

Definition send_frame (fd : Z) (message request : N) (payload : bytes) : T bool :=
  ask_system (ESend message request payload) (send_packet fd (frame message request payload 0 ++ payload)).

Definition stopping_now : T bool := ask_system EStopping read_stopping.

Definition watch_bus_termination_requested (fd : Z) (request : N) : T bool :=
  state ← ask_system EPoll (poll_connection fd);
  if negb (po_any state) then mret false
  else if po_gone state then mret true
  else if negb (po_input state) then mret false
  else
    received ← receive_packet fd;
    match received with
    | None => mret true
    | Some (packet, fds) =>
        _ ← close_all fds;
        mret (match parse_frame packet with
              | Some (kind, message_request, 0, 0)%N => (kind =? SPAWN_TERMINATE)%N && (message_request =? request)%N
              | _ => false
              end && Nat.eqb (length fds) 0)
    end.

Definition spawn_termination_signal (fd : Z) (request : N) (watch_bus broker_stopping : bool) : T (option Z) :=
  if broker_stopping then mret (Some SIGTERM)
  else if watch_bus then
    requested ← watch_bus_termination_requested fd request;
    mret (if requested : bool then Some SIGINT else None)
  else mret None.

(** The four bytes of the notification: every round but the last reads some. *)
Fixpoint read_ready (rounds : nat) (fd : Z) (got : bytes) : T bytes :=
  match rounds with
  | 0 => mret got
  | S rounds =>
      r ← ask_system (ERead fd) (read_bytes fd (4 - length got));
      match r with
      | inr e => fail ["wait for Spawn readiness"; ioe_message e]
      | inl [] => fail ["secure launch closed before Spawn readiness"]
      | inl b =>
          let got := got ++ take (4 - length got) b in
          if (length got <? 4)%nat then read_ready rounds fd got else mret got
      end
  end.

Definition wait_for_spawn_started (fd : Z) : T N :=
  b ← read_ready 4 fd [];
  let pid := from_be_bytes b in
  if (pid =? 0)%N then fail ["invalid Spawn readiness notification"] else mret pid.

Definition send_spawn_started (fd : Z) (request pid relative_pid : N) : T bool :=
  send_frame fd SPAWN_STARTED request (spawn_started_payload pid relative_pid).

Definition complete_spawn_start_notification (fd : Z) (request portal_pid : N) (started : option Z) (expose_pids : bool) : T bool :=
  match started with
  | None => mret true
  | Some started =>
      r ← catch (wait_for_spawn_started started);
      let started_pid := match r with Ok relative_pid => relative_pid | Err _ => 0%N end in
      send_spawn_started fd request portal_pid (spawn_started_relative_pid expose_pids started_pid)
  end.

(** [as u32] *)
Definition raw_wait_status (status : Z) : N := Z.to_N (status mod 2 ^ 32).

(** ** The process tree *)

(** The calls of ProcessTrees, recorded as the service's. *)
Definition tree_call {A} (event : A -> TreeEvent) (m : W -> A * W) : service W -> A * service W := fun s =>
  let (a, w) := m s.1.2 in (a, ((s.1.1, w), s.2 ++ [ETree (event a)])).
#[export] Instance service_reaper : ReaperSystem (service W) := {
  reap_status p := tree_call (EReapStatus p) (reap_status p);
  reap_get_pids n := tree_call (EReapGetPids n) (reap_get_pids n);
  reap_kill s t := tree_call (EReapKill s t) (reap_kill s t);
  set_reaper b := tree_call (EReaper b) (set_reaper b);
  wait_pid p := tree_call (fun _ => EWaitPid p) (wait_pid p);
  try_wait c := tree_call (ETryWait c) (try_wait c);
  instant_now := tree_call ENow instant_now;
  thread_sleep d := tree_call (fun _ => ESleep d) (thread_sleep d);
  lookup_identity p := tree_call (EIdentity p) (lookup_identity p);
  kill_process p s := tree_call (EKill p s) (kill_process p s);
}.
Definition run_tree {A} (m : M (traced (service W) TreeEvent) A) : T A := fun s => let (r, s') := m (s, []) in (r, s'.1).

(** A tree that is dropped is ended in at most this many rounds for each signal
    (ProcessTrees.dropped_tree_ends). *)
Definition DROP_ROUNDS : nat := 21.
Definition drop_tree (tree : Z) : T unit :=
  r ← catch (run_tree (terminate DROP_ROUNDS tree));
  note (EDropTree tree r).

(** [None]: the rounds were not enough. *)
Definition cleanup_exited_watch_bus_owner (owner_subtree : option Z) : T (option bool) :=
  match owner_subtree with
  | None => mret (Some true)
  | Some owner_subtree =>
      r ← catch (run_tree (terminate_orphaned_subtree_with_signal DROP_ROUNDS owner_subtree SIGINT));
      mret (match r with Ok cleaned => cleaned | Err _ => Some true end)
  end.

Definition triggered_now : T bool := quiet (gets fst).
Definition set_triggered : T unit := quiet (fun s => (Ok tt, (true, s.2))).

(** The closure of the wait. *)
Definition requested_signal (fd : Z) (request : N) (watch_bus : bool) : T (option Z) :=
  stopping ← stopping_now;
  signal ← spawn_termination_signal fd request watch_bus stopping;
  triggered ← triggered_now;
  _ ← (if bool_decide (signal = Some SIGINT) && negb triggered then set_triggered else mret tt);
  mret signal.

(** The loop that watches on for the caller when the process has ended. *)
Fixpoint watch_owner (fuel : nat) (fd : Z) (request : N) (watch_bus : bool) (owner : option Z) : T (option unit) :=
  match fuel with
  | 0 => mret None
  | S fuel =>
      if negb watch_bus then mret (Some tt)
      else
        stopping ← stopping_now;
        if stopping : bool then mret (Some tt)
        else
          triggered ← triggered_now;
          _ ← (if triggered : bool then mret tt
               else
                 requested ← watch_bus_termination_requested fd request;
                 if requested : bool then set_triggered else mret tt);
          triggered ← triggered_now;
          cleaned ← (if triggered : bool then cleanup_exited_watch_bus_owner owner else mret (Some false));
          match cleaned with
          | None => mret None
          | Some true => mret (Some tt)
          | Some false =>
              _ ← ask_system (fun _ => EPause 100) (pause_for 100);
              watch_owner fuel fd request watch_bus owner
          end
  end.

(** ** A connection *)

Definition release_connection (fd : Z) : T unit := ask_system (fun _ => ERelease fd) (release_fd fd).

(** The end of the service: the connection is closed last. *)
Definition finish (fd : Z) : T (option unit) :=
  _ ← release_connection fd;
  _ ← close_descriptor fd;
  mret (Some tt).
(** An early return, and what it drops. *)
Definition leave (fd : Z) (dropped : T unit) : T (option unit) :=
  _ ← release_connection fd;
  _ ← dropped;
  _ ← close_descriptor fd;
  mret (Some tt).

Fixpoint lifecycle_wait (rounds : nat) : T unit :=
  match rounds with
  | 0 => mret tt
  | S rounds =>
      stopping ← stopping_now;
      if stopping : bool then mret tt
      else _ ← ask_system (fun _ => EPause 1) (pause_for 1); lifecycle_wait rounds
  end.

Definition lifecycle_test (fd : Z) (request : N) : T unit :=
  accepted ← send_frame fd LIFECYCLE_TEST_ACCEPTED request (to_be_bytes request);
  if negb accepted then mret tt
  else
    _ ← lifecycle_wait 50;
    stopping ← stopping_now;
    if stopping : bool then mret tt
    else _ ← send_frame fd LIFECYCLE_TEST_EXITED request (to_be_bytes request ++ to_be_bytes 0); mret tt.

Definition fd_test (fd : Z) (request : N) (source : Z) : T unit :=
  r ← ask_system (ERead source) (read_bytes source 1);
  match r with
  | inl [b] => if Ascii.eqb b "F" then _ ← send_frame fd FD_OK request []; mret tt else mret tt
  | _ => mret tt
  end.

(** The requests that start no process. *)
Definition other_request (fd : Z) (kind request : N) (fds : list Z) : T unit :=
  if (kind =? PING)%N && Nat.eqb (length fds) 0 then _ ← send_frame fd PONG request []; mret tt
  else if (kind =? FD_TEST)%N then match fds with [source] => fd_test fd request source | _ => mret tt end
  else if (kind =? LIFECYCLE_TEST_START)%N && Nat.eqb (length fds) 0 then lifecycle_test fd request
  else mret tt.

Section Connection.
Context (pid : N) (next_sequence : M W N) (tree_depth : nat) (context : ServiceContext).
(** The rounds the service is followed for. *)
Context (fuel : nat).

Definition drop_spawned (s : Spawned) : T unit :=
  _ ← drop_nested (sd_nested s);
  close_all (option_list (sd_started s)).

(** A client that is not reached: the process is ended, then everything goes. *)
Definition abandon (fd : Z) (tree : Z) (s : Spawned) : T (option unit) :=
  waited ← catch (run_tree (wait_for_exit fuel tree (sd_child s) (mret true)));
  match waited with
  | Ok None => mret None
  | _ => leave fd (_ ← drop_tree tree; drop_spawned s)
  end.

(** The process runs: the client is told of its start and its end. *)
Definition follow (fd : Z) (request : N) (flags : N) (owner : option Z) (tree : Z) (s : Spawned) : T (option unit) :=
  let watch_bus := flag_set flags SPAWN_WATCH_BUS in
  let portal_pid := Z.to_N (sd_child s) in
  accepted ← send_frame fd SPAWN_ACCEPTED request (to_be_bytes portal_pid);
  if negb accepted then abandon fd tree s
  else
    complete ← complete_spawn_start_notification fd request portal_pid (sd_started s) (flag_set flags SPAWN_EXPOSE_PIDS);
    if negb complete then abandon fd tree s
    else
      status ← catch (run_tree (wait_for_exit_with_signal fuel tree (sd_child s) (quiet (requested_signal fd request watch_bus))));
      match status with
      | Ok None => mret None
      | _ =>
          _ ← (match status with
               | Ok (Some status) =>
                   _ ← send_frame fd SPAWN_EXITED request (to_be_bytes portal_pid ++ to_be_bytes (raw_wait_status status)); mret tt
               | _ => mret tt
               end);
          watched ← watch_owner fuel fd request watch_bus owner;
          match watched with
          | None => mret None
          | Some _ => _ ← drop_tree tree; _ ← drop_spawned s; finish fd
          end
      end.

Definition handle_spawn (fd : Z) (request : N) (payload : bytes) (fds : list Z) : T (option unit) :=
  match parse_spawn payload fds with
  | Err _ => _ ← close_all fds; leave fd (mret tt)
  | Ok spawn_request =>
      let flags := sp_flags spawn_request in
      owner ← catch (fun s : service W => resolve_watch_bus_owner (flag_set flags SPAWN_WATCH_BUS) (sp_caller_pid spawn_request)
                       (fun p => run_tree (subtree_for_descendant (Z.of_N p))) s);
      match owner with
      | Err _ => leave fd (close_all fds)
      | Ok owner =>
          spawned ← catch (spawn_in_existing_sandbox pid next_sequence tree_depth context spawn_request);
          match spawned with
          | Err _ => leave fd (mret tt)
          | Ok s =>
              match track (sd_child s) with
              | Err _ =>
                  _ ← ask_system (fun _ => EKillChild (sd_child s)) (kill_child (sd_child s));
                  _ ← ask_system (fun _ => EWaitChild (sd_child s)) (wait_child (sd_child s));
                  leave fd (drop_spawned s)
              | Ok tree => follow fd request flags owner tree s
              end
          end
      end
  end.

Definition handle_connection (fd : Z) : T (option unit) :=
  received ← receive_packet fd;
  match received with
  | None => finish fd
  | Some (packet, fds) =>
      match parse_frame packet with
      | None => _ ← close_all fds; finish fd
      | Some (kind, request, _, _) =>
          if (kind =? SPAWN)%N then handle_spawn fd request (drop HEADER_SIZE packet) fds
          else
            _ ← other_request fd kind request fds;
            _ ← close_all fds;
            finish fd
      end
  end.
End Connection.

(** ** The listener *)

Definition socket_seqpacket : T Z :=
  r ← ask_system ESocket make_socket;
  fail_io "create spawn broker socket" r.

(** The address holds 108 bytes, the last one is NUL. *)
Definition path_fits (path : path) : bool := negb (108 <? String.length path + 1)%nat.

Definition bind_socket (fd : Z) (path : path) : T unit :=
  if negb (path_fits path) then fail ["spawn broker path too long"]
  else
    b ← ask_system (EBind path) (bind_to fd path);
    _ ← fail_io "bind spawn broker" b;
    l ← ask_system EListen (listen_on fd);
    fail_io "listen spawn broker" l.

(** The path, the listener and the descriptor of the accepting thread, which is
    started behind this; [dup] takes the lowest descriptor that is free. *)
Definition bind (paths : Installation) (context : ServiceContext) : T (path * Z * Z) :=
  path ← lift (broker_path paths (cx_root (sv_nested context)));
  parent ← lift (ok_or "broker parent" (RustPath.parent path));
  _ ← outside (io_try (make_dirs parent));
  _ ← outside (catch (io_try (remove_file path)));
  listener ← socket_seqpacket;
  _ ← or_drop (close_descriptor listener) (bind_socket listener path);
  d ← ask_system (EDuplicate listener 0) (dup_from listener 0);
  accept_fd ← or_drop (close_descriptor listener) (fail_io "duplicate spawn broker listener" d);
  mret (path, listener, accept_fd).

Definition wake_broker (path : path) : T unit :=
  r ← catch socket_seqpacket;
  match r with
  | Err _ => mret tt
  | Ok fd =>
      connected ← (if path_fits path
                   then outside (fun w => let (ok, w) := connect_to fd path w in (Ok ok, w)) else mret false);
      _ ← (if connected : bool then _ ← send_frame fd 0 0 []; mret tt else mret tt);
      close_descriptor fd
  end.
End Service.

(** ** In the child *)

(** The descriptors of a process: the open file, and whether it is closed on
    [exec]. *)
Abbreviation fd_table := (gmap Z (N * bool)) (only parsing).

(** [dup2] of a descriptor that is open, to itself or to another; the close on
    [exec] is then switched off. *)
Definition dup2 (source target : Z) (t : fd_table) : option fd_table :=
  f ← t !! source;
  Some (if (source =? target)%Z then t else <[target := (f.1, false)]> t).
Definition clear_cloexec (fd : Z) (t : fd_table) : option fd_table :=
  f ← t !! fd;
  Some (<[fd := (f.1, false)]> t).

Fixpoint map_fds_in_child (mappings : list (Z * Z)) (t : fd_table) : option fd_table :=
  match mappings with
  | [] => Some t
  | (target, source) :: r =>
      t ← dup2 source target t;
      t ← clear_cloexec target t;
      map_fds_in_child r t
  end.

(** ** Lemmas: descriptors *)

(** The descriptors a call brings to the process, and those it closes. *)
Definition acquired (e : BrokerEvent) : list Z :=
  match e with
  | EReceive (Some m) => concat (map message_fds (rm_control m))
  | EDuplicate _ _ (inl d) => [d]
  | EPipe (inl (read, write)) => [read; write]
  | ESocket (inl fd) => [fd]
  | _ => []
  end.
Definition released (e : BrokerEvent) : list Z := match e with EClose fd => [fd] | _ => [] end.
Definition opened (t : list BrokerEvent) : list Z := concat (map acquired t).
Definition closed (t : list BrokerEvent) : list Z := concat (map released t).

(** A received descriptor can be set to be closed on [exec]. *)
Definition undisturbed (e : BrokerEvent) : Prop := match e with ECloexec _ ok => ok = true | _ => True end.
Definition neutral (e : BrokerEvent) : Prop := acquired e = [] /\ released e = [] /\ undisturbed e.

(** Lists that hold the same descriptors are compared by counting. *)
Definition occ (x : Z) (l : list Z) : nat := count_occ Z.eq_dec l x.
Definition same (l k : list Z) : Prop := forall x, occ x l = occ x k.

Lemma occ_nil x : occ x [] = 0.
Proof. done. Qed.
Lemma occ_app x l k : occ x (l ++ k) = (occ x l + occ x k)%nat.
Proof. apply count_occ_app. Qed.
Definition one (x a : Z) : nat := occ x [a].
Lemma occ_cons x a l : occ x (a :: l) = (one x a + occ x l)%nat.
Proof. apply (occ_app x [a] l). Qed.
Lemma opened_app a b : opened (a ++ b) = opened a ++ opened b.
Proof. unfold opened. by rewrite map_app, concat_app. Qed.
Lemma closed_app a b : closed (a ++ b) = closed a ++ closed b.
Proof. unfold closed. by rewrite map_app, concat_app. Qed.

Ltac counted :=
  unfold same in *; let x := fresh "x" in intros x;
  repeat match goal with H : forall y : Z, occ y _ = occ y _ |- _ => specialize (H x) end;
  cbn [app map concat option_list fst snd] in *;
  repeat rewrite ?map_app, ?occ_app, ?occ_cons, ?occ_nil in *; lia.

(** From the descriptors held before, the calls leave those held behind, but for
    some that are lost when a descriptor is disturbed. *)
Definition balanced (pre : list Z) (ev : list BrokerEvent) (post : list Z) : Prop :=
  exists lost, same (pre ++ opened ev) (closed ev ++ post ++ lost) /\ (Forall undisturbed ev -> lost = []).

Lemma balanced_nil pre post : same pre post -> balanced pre [] post.
Proof. intros Hs. exists []. split; [|done]. unfold opened, closed. cbn. rewrite !app_nil_r. exact Hs. Qed.
Lemma balanced_app pre ev1 mid ev2 post : balanced pre ev1 mid -> balanced mid ev2 post -> balanced pre (ev1 ++ ev2) post.
Proof.
  intros (l1 & H1 & L1) (l2 & H2 & L2). exists (l1 ++ l2). split.
  - rewrite opened_app, closed_app. intros x. specialize (H1 x). specialize (H2 x). rewrite !occ_app in *. lia.
  - intros [H3 H4]%Forall_app. by rewrite L1, L2.
Qed.
Lemma balanced_neutral pre ev : Forall neutral ev -> balanced pre ev pre.
Proof.
  induction ev as [|e ev IH]; intros Hf; [by apply balanced_nil|]. inversion Hf as [|? ? (H1 & H2 & H3) Hev]; subst.
  apply (balanced_app pre [e] pre ev); [|by apply IH]. exists []. split; [|done].
  intros x. unfold opened, closed. cbn. rewrite H1, H2. cbn. by rewrite !app_nil_r.
Qed.
Lemma balanced_same pre pre' ev post post' : same pre' pre -> same post post' -> balanced pre ev post -> balanced pre' ev post'.
Proof.
  intros H1 H2 (lost & Hl & ?). exists lost. split; [|done]. intros x. specialize (H1 x). specialize (H2 x). specialize (Hl x).
  rewrite !occ_app in *. lia.
Qed.

Lemma balanced_frame pre ev post kept : balanced pre ev post -> balanced (pre ++ kept) ev (post ++ kept).
Proof. intros (lost & Hl & ?). exists lost. split; [|done]. intros x. specialize (Hl x). rewrite !occ_app in *. lia. Qed.

(** The descriptors that [recvmsg] installs are descriptors. *)
Class DescriptorLaws (W : Type) `{BrokerSystem W} := {
  received_open : forall fd w m w', recv_message fd w = (Some m, w') -> Forall (fun d => 0 <= d)%Z (concat (map message_fds (rm_control m)));
}.

Section Accounts.
Context {W : Type} `{BrokerSystem W}.
Abbreviation T A := (M (service W) A) (only parsing).

(** [m] takes the descriptors held before to those held behind, by its result. *)
Definition holds {A} (pre : list Z) (m : T A) (post : result A -> list Z) : Prop :=
  emits m (fun r ev => balanced pre ev (post r)).

Lemma holds_same {A} pre pre' (m : T A) post post' :
  same pre' pre -> (forall r, same (post r) (post' r)) -> holds pre m post -> holds pre' m post'.
Proof. intros E1 E2 Hm. eapply emits_mono; [exact Hm|]. intros r ev Hb. by eapply balanced_same. Qed.
Lemma holds_ret {A} pre (a : A) post : same pre (post (Ok a)) -> holds pre (mret a) post.
Proof. intros Hs. by apply emits_ret, balanced_nil. Qed.
Lemma holds_lift {A} pre (x : result A) post : same pre (post x) -> holds pre (lift x) post.
Proof. intros Hs. by apply emits_lift, balanced_nil. Qed.
Lemma holds_fail {A} pre e (post : result A -> list Z) : same pre (post (Err e)) -> holds pre (fail e) post.
Proof. intros Hs. by apply emits_fail, balanced_nil. Qed.
Lemma holds_bind {A B} pre (m : T A) (f : A -> T B) mid post :
  holds pre m (fun r => match r with Ok a => mid a | Err e => post (Err e) end) -> (forall a, holds (mid a) (f a) post) ->
  holds pre (m ≫= f) post.
Proof.
  intros Hm Hf. eapply emits_bind; [exact Hm| |done]. intros a ev1 E1. eapply emits_mono; [apply Hf|].
  intros r ev2 E2. eapply balanced_app; [exact E1|exact E2].
Qed.
Lemma holds_fmap {A B} pre (f : A -> B) (m : T A) post : holds pre m (fun r => post (f <$> r)) -> holds pre (f <$> m) post.
Proof. apply (emits_fmap f m (fun r ev => balanced pre ev (post r))). Qed.
Lemma holds_catch {A} pre (m : T A) post : holds pre m (fun r => post (Ok r)) -> holds pre (catch m) post.
Proof. apply (emits_catch m (fun r ev => balanced pre ev (post r))). Qed.

Lemma holds_frame {A} pre kept (m : T A) post : holds pre m post -> holds (pre ++ kept) m (fun r => post r ++ kept).
Proof. intros Hm. eapply emits_mono; [exact Hm|]. intros r ev. apply balanced_frame. Qed.

(** A call that moves no descriptor, and computations made of such calls. *)
Lemma holds_neutral {A} pre (m : T A) post : only neutral m -> (forall r, same pre (post r)) -> holds pre m post.
Proof.
  intros Hm Hs. eapply emits_mono; [exact Hm|]. intros r ev Hev. apply (balanced_same pre pre ev pre (post r)); [done|apply Hs|by apply balanced_neutral].
Qed.
Lemma neutral_ask {A} (event : A -> BrokerEvent) m : (forall a, neutral (event a)) -> only neutral (ask_system event m : T A).
Proof. intros He. apply emits_ask. intros a. by constructor. Qed.
Lemma neutral_quiet {A} (m : M (bool * W) A) : only neutral (quiet m).
Proof. apply emits_quiet. constructor. Qed.
Lemma neutral_outside {A} (m : M W A) : only neutral (outside m : T A).
Proof. apply neutral_quiet. Qed.

Lemma holds_ask {A} pre (event : A -> BrokerEvent) m (post : result A -> list Z) :
  (forall a, same (pre ++ acquired (event a)) (released (event a) ++ post (Ok a))) -> holds pre (ask_system event m) post.
Proof.
  intros Hs. apply emits_ask. intros a. exists []. split; [|done]. unfold opened, closed. cbn. rewrite !app_nil_r. apply Hs.
Qed.

Lemma holds_other {A} pre (event : A -> BrokerEvent) m (post : result A -> list Z) :
  (forall a, neutral (event a)) -> (forall r, same pre (post r)) -> holds pre (ask_system event m) post.
Proof. intros He Hs. apply holds_neutral; [by apply neutral_ask|done]. Qed.
Lemma holds_close pre fd (post : result unit -> list Z) : same pre (fd :: post (Ok tt)) -> holds pre (close_descriptor fd) post.
Proof. intros Hs. apply holds_ask. intros []. cbn. rewrite app_nil_r. exact Hs. Qed.
Lemma holds_close_all pre fds (post : result unit -> list Z) : same pre (fds ++ post (Ok tt)) -> holds pre (close_all fds) post.
Proof.
  revert pre. induction fds as [|fd fds IH]; intros pre Hs; [by apply holds_ret|].
  apply (holds_bind _ _ _ (fun _ => fds ++ post (Ok tt))); [by apply holds_close|]. intros _. by apply IH.
Qed.

Lemma holds_or_drop {A} pre (d : T unit) (m : T A) mid out post :
  holds pre m (fun r => match r with Ok a => post (Ok a) | Err _ => mid end) -> holds mid d (fun _ => out) ->
  (forall e, same out (post (Err e))) -> holds pre (or_drop d m) post.
Proof.
  intros Hm Hd He. apply (holds_bind _ _ _ (fun r => match r with Ok a => post (Ok a) | Err _ => mid end)).
  - apply holds_catch. eapply holds_same; [done| |exact Hm]. by intros [].
  - intros [a|e]; [by apply holds_ret|]. apply (holds_bind _ _ _ (fun _ => out)).
    + eapply holds_same; [done| |exact Hd]. intros [[]|e']; [done|apply He].
    + intros _. by apply holds_fail.
Qed.

(** *** Receiving *)

Lemma control_fds_all l : forall d raw, control_fds d l = Some raw -> raw = d ++ concat (map message_fds l).
Proof.
  induction l as [|m l IH]; intros d raw; cbn [control_fds map concat]; [intros [= <-]; by rewrite app_nil_r|].
  unfold message_fds at 1. destruct (cm_rights m); cbn [negb orb andb]; [|done].
  destruct (Z.ltb_spec (cm_bytes m) 0); [done|]. rewrite (proj2 (Z.leb_le _ _)) by lia.
  destruct (_ =? 0)%Z; [|done]. cbn [negb orb andb]. destruct (_ <? _)%Z; [done|].
  intros ->%IH. by rewrite <- app_assoc.
Qed.

Lemma filter_all l : Forall (fun d => 0 <= d)%Z l -> List.filter (fun d => 0 <=? d)%Z l = l.
Proof. induction 1 as [|d l Hd Hl IH]; [done|]. cbn. by rewrite (proj2 (Z.leb_le _ _)), IH. Qed.

Lemma holds_own_fds raw : forall owned, Forall (fun d => 0 <= d)%Z raw ->
  holds (raw ++ owned) (own_fds raw owned) (fun r => match r with Ok (Some l) => l | _ => [] end).
Proof.
  induction raw as [|fd raw IH]; intros owned Hr; cbn [own_fds]; [by apply holds_ret|]. inversion_clear Hr.
  rewrite (proj2 (Z.ltb_ge _ _)) by lia.
  apply (holds_bind _ _ _ (fun ok : bool => if ok then fd :: raw ++ owned else fd :: owned)).
  - apply emits_ask. intros []; [by apply balanced_neutral; repeat constructor|].
    exists raw. unfold opened, closed. cbn. split; [counted|]. intros Hu. inversion_clear Hu. done.
  - intros [].
    + eapply holds_same; [| |apply IH; done]; [counted|done].
    + apply (holds_bind _ _ _ (fun _ => owned)); [by apply holds_close|]. intros _.
      apply (holds_bind _ _ _ (fun _ => [])); [apply holds_close_all; counted|]. intros _. by apply holds_ret.
Qed.

Context `{!DescriptorLaws W}.

(** What a caller of [receive_packet] owns. *)
Definition received_fds (r : result (option (bytes * list Z))) : list Z :=
  match r with Ok (Some (_, fds)) => fds | _ => [] end.

Lemma holds_receive fd :
  holds [] (receive_packet fd) received_fds.
Proof.
  apply (emits_bind _ _ (fun r ev => exists o, r = Ok o /\ ev = [EReceive o] /\
    match o with Some m => Forall (fun d => 0 <= d)%Z (concat (map message_fds (rm_control m))) | None => True end)); [| |by intros e ev (? & ? & _)].
  { intros s r s' Hs. unfold ask_system, ask in Hs. destruct (recv_message fd s.1.2) as [o w] eqn:E'. injection Hs as <- <-.
    exists [EReceive o]. split; [done|]. exists o. split_and!; [done..|]. destruct o; [by eapply received_open|done]. }
  intros o ev (? & [= <-] & -> & Ho). destruct o as [m|]; [|by apply emits_ret, balanced_neutral; repeat constructor].
  set (all := concat (map message_fds (rm_control m))) in *.
  enough (holds all
    (if rm_truncated m then _ ← close_control_fds m; mret None
     else match parse_frame (rm_packet m) with
          | None => _ ← close_control_fds m; mret None
          | Some (_, _, _, expected) =>
              match control_fds [] (rm_control m) with
              | None => _ ← close_control_fds m; mret None
              | Some raw => if negb (N.of_nat (length raw) =? expected)%N then _ ← close_fds raw; mret None
                            else owned ← own_fds raw []; mret (pair (rm_packet m) <$> owned)
              end
          end) received_fds) as Hh.
  { eapply emits_mono; [exact Hh|]. intros r ev Hb. apply (balanced_app [] [EReceive (Some m)] all); [|exact Hb].
    exists []. split; [|done]. intros x. unfold opened, closed. cbn. by rewrite !app_nil_r. }
  assert (holds all (_ ← close_control_fds m; mret None : T (option (bytes * list Z))) received_fds) as Hc.
  { apply (holds_bind _ _ _ (fun _ => [])); [|intros _; by apply holds_ret].
    unfold close_control_fds, close_fds. fold all. rewrite filter_all by done. apply holds_close_all. counted. }
  destruct (rm_truncated m); [done|]. destruct (parse_frame (rm_packet m)) as [[[[? ?] ?] expected]|]; [|done].
  destruct (control_fds [] (rm_control m)) as [raw|] eqn:E'; [|done]. apply control_fds_all in E' as ->. cbn [app]. fold all.
  destruct (negb _).
  - apply (holds_bind _ _ _ (fun _ => [])); [|intros _; by apply holds_ret].
    unfold close_fds. rewrite filter_all by done. apply holds_close_all. counted.
  - apply (holds_bind _ _ _ (fun o => match o with Some l => l | None => [] end)).
    + eapply holds_same; [| |apply (holds_own_fds all []); done]; [counted|]. by intros [[]|].
    + intros [l|]; by apply holds_ret.
Qed.

(** *** Starting a process *)

Lemma on_nested_emits {A} root (m : M (traced (NestedSandboxRoot * W) MountEvent) A) :
  emits (on_nested root m : T _) (fun r ev => is_ok r = true /\ Forall neutral ev).
Proof.
  intros s r s' E'. unfold on_nested in E'. destruct (m _) as [x [nw ev]]. injection E' as <- <-. exists (map ENested ev).
  split_and!; [done..|]. apply Forall_map, Forall_true. by repeat constructor.
Qed.
Lemma neutral_on_nested {A} root (m : M (traced (NestedSandboxRoot * W) MountEvent) A) : only neutral (on_nested root m : T _).
Proof. eapply emits_mono; [apply on_nested_emits|]. by intros r ev []. Qed.
(** Dropping the nested root moves no descriptor, and always returns. *)
Lemma holds_drop pre nested post : same pre (post (Ok tt)) -> holds pre (drop_nested nested) post.
Proof.
  intros Hs. destruct nested as [n|]; [|by apply holds_ret]. eapply emits_bind; [apply on_nested_emits| |].
  - intros x ev1 [_ E1]. apply emits_ret. rewrite app_nil_r. apply (balanced_same pre pre _ pre); [done|done|by apply balanced_neutral].
  - by intros e ev [? _].
Qed.
Lemma holds_drop_nested pre nested {B} (k : T B) post : holds pre k post -> holds pre (_ ← drop_nested nested; k) post.
Proof. intros Hk. apply (holds_bind _ _ _ (fun _ => pre)); [by apply holds_drop|done]. Qed.
Lemma neutral_create pid next_sequence tree_depth context : only neutral (create_nested pid next_sequence tree_depth context : T _).
Proof.
  apply only_bind; [apply neutral_outside|]. intros n. apply only_bind; [apply neutral_on_nested|]. intros r.
  apply only_bind; [by apply emits_lift; constructor|]. intros _. apply emits_ret. constructor.
Qed.
Lemma neutral_start context root request environment readiness mappings :
  only neutral (start_process context root request environment readiness mappings : T Z).
Proof.
  apply only_bind; [apply neutral_outside|]. intros c. apply only_bind; [by apply neutral_ask; repeat constructor|].
  intros r. apply emits_lift. constructor.
Qed.

Definition ok_fds {A} (f : A -> list Z) (r : result A) : list Z := match r with Ok a => f a | Err _ => [] end.

Lemma holds_lift_bind {A B} pre (x : result A) (f : A -> T B) post :
  (forall a, x = Ok a -> holds pre (f a) post) -> (forall e, x = Err e -> same pre (post (Err e))) -> holds pre (lift x ≫= f) post.
Proof.
  intros Hf He. apply emits_lift_bind; [exact Hf|]. intros e E'. by apply balanced_nil, He.
Qed.

Lemma holds_readiness minimum : holds [] (readiness_pipe minimum) (ok_fds (fun p => [p.1; p.2])).
Proof.
  apply (holds_bind _ _ _ (fun r => match r with inl (read, write) => [read; write] | inr _ => [] end)).
  { apply holds_ask. by intros [[? ?]|]. }
  intros p. apply holds_lift_bind; [|by intros e; destruct p as [[? ?]|]]. intros [read write] E'.
  destruct p as [[? ?]|]; [|done]. injection E' as -> ->.
  apply (holds_bind _ _ _ (fun d => read :: write :: match d with inl d => [d] | inr _ => [] end)).
  { apply holds_ask. by intros [d|e]; cbn; counted. }
  intros [d|e].
  - apply (holds_bind _ _ _ (fun _ => [read; d])); [apply holds_close; counted|]. intros _. by apply holds_ret.
  - apply (holds_bind _ _ _ (fun _ => [])); [apply holds_close_all; counted|]. intros _. by apply holds_fail.
Qed.

Lemma holds_duplicate minimum mappings : forall made,
  holds (map snd mappings ++ map snd made) (duplicate_sources minimum mappings made) (ok_fds (map snd)).
Proof.
  induction mappings as [|[target source] r IH]; intros made; cbn [duplicate_sources map]; [by apply holds_ret|].
  apply (holds_bind _ _ _ (fun d => match d with inl d => [d] | inr _ => [] end ++ source :: map snd r ++ map snd made)).
  { apply holds_ask. by intros [d|e]; cbn [snd acquired released]; counted. }
  intros [d|e].
  - apply (holds_bind _ _ _ (fun _ => d :: map snd r ++ map snd made)); [apply holds_close; cbn [app]; counted|]. intros _.
    eapply holds_same; [|done|apply IH]. rewrite map_app. cbn [map snd]. counted.
  - apply (holds_bind _ _ _ (fun _ => [])); [apply holds_close_all; cbn [snd]; counted|]. intros _. by apply holds_fail.
Qed.

(** What a started process leaves to the service. *)
Definition spawned_fds : Spawned -> list Z := fun s => option_list (sd_started s).

Lemma holds_launch_in context nested request :
  holds (map snd (sp_mappings request)) (launch_in context nested request) (ok_fds spawned_fds).
Proof.
  unfold launch_in. set (sources := map snd (sp_mappings request)).
  assert (holds sources (_ ← drop_nested nested; close_all sources) (fun _ => [])) as Hd.
  { apply holds_drop_nested, holds_close_all. counted. }
  apply (holds_bind _ _ _ (fun _ => sources)).
  { apply (holds_or_drop _ _ _ sources []); [by apply holds_lift; destruct (ok_or _ _)|done|done]. }
  intros environment. cbv zeta. apply (holds_bind _ _ _ (fun p => pipe_fds p ++ sources)).
  { apply (holds_or_drop _ _ _ sources []); [|done|done]. destruct (flag_set _ _); [|by apply holds_ret]. apply holds_fmap.
    eapply holds_same; [| |apply (holds_frame [] sources), holds_readiness]; [done|]. by intros [[? ?]|]. }
  intros p. set (drop_pipe := _ ← close_all (pipe_fds p); drop_nested nested).
  assert (holds (pipe_fds p) drop_pipe (fun _ => [])) as Hp.
  { apply (holds_bind _ _ _ (fun _ => [])); [apply holds_close_all; counted|]. intros _. by apply holds_drop. }
  apply (holds_bind _ _ _ (fun l => map snd l ++ pipe_fds p)).
  { apply (holds_or_drop _ _ _ (pipe_fds p) []); [|done|done].
    eapply holds_same; [| |apply (holds_frame (sources ++ []) (pipe_fds p)), (holds_duplicate _ _ [])]; [cbn [map]; fold sources; counted|by intros []]. }
  intros l. apply (holds_bind _ _ _ (fun _ => map snd l ++ pipe_fds p)).
  { apply (holds_or_drop _ _ _ (map snd l ++ pipe_fds p) []).
    - apply holds_neutral; [apply neutral_start|by intros []].
    - apply (holds_bind _ _ _ (fun _ => pipe_fds p)); [apply holds_close_all; counted|done].
    - done. }
  intros child. apply (holds_bind _ _ _ (fun _ => option_list (fst <$> p) ++ map snd l)).
  { apply holds_close_all. destruct p as [[? ?]|]; cbn; counted. }
  intros _. apply (holds_bind _ _ _ (fun _ => option_list (fst <$> p))); [apply holds_close_all; counted|].
  intros _. by apply holds_ret.
Qed.

Lemma holds_spawn pid next_sequence tree_depth context request :
  holds (map snd (sp_mappings request)) (spawn_in_existing_sandbox pid next_sequence tree_depth context request) (ok_fds spawned_fds).
Proof.
  unfold spawn_in_existing_sandbox. cbv zeta. set (sources := map snd (sp_mappings request)).
  assert (forall e, holds sources (_ ← close_all sources; fail e : T Spawned) (ok_fds spawned_fds)) as Hd.
  { intros e. apply (holds_bind _ _ _ (fun _ => [])); [apply holds_close_all; counted|]. intros _. by apply holds_fail. }
  destruct (negb _); [apply Hd|]. destruct (negb _); [apply Hd|].
  apply (holds_bind _ _ _ (fun _ => sources)); [|intros nested; apply holds_launch_in].
  destruct (flag_set _ _); [|by apply holds_ret]. apply holds_fmap.
  apply (holds_or_drop _ _ _ sources []); [|apply holds_close_all; counted|done].
  apply holds_neutral; [apply neutral_create|by intros []].
Qed.

(** *** The process tree *)

Definition tree_event (e : BrokerEvent) : option TreeEvent := match e with ETree e => Some e | _ => None end.
Definition tree_events (t : list BrokerEvent) : list TreeEvent := omap tree_event t.
Lemma tree_events_app a b : tree_events (a ++ b) = tree_events a ++ tree_events b.
Proof. apply omap_app. Qed.

Section Mirrored.
(** What is recorded while a tree is followed: the calls of the tree with those
    of the closure, which has a property of its own. *)
Context (P : list BrokerEvent -> Prop).
Context (P_nil : P []) (P_app : forall a b, P a -> P b -> P (a ++ b)) (P_tree : forall e, P [ETree e]).

Definition mirrored A (m : M (traced (service W) TreeEvent) A) : Prop := forall s r s', m s = (r, s') ->
  exists ev, s'.1.2 = s.1.2 ++ ev /\ s'.2 = s.2 ++ tree_events ev /\ P ev.

Lemma mirrored_same A (m : M (traced (service W) TreeEvent) A) : (forall s, (m s).2 = s) -> mirrored A m.
Proof using P_nil. intros Hm s r s' E'. pose proof (Hm s) as E1. rewrite E' in E1. cbn in E1. subst. exists []. by rewrite !app_nil_r. Qed.
Lemma mirrored_call A (event : A -> TreeEvent) (m : W -> A * W) : mirrored A (ask event (tree_call event m)).
Proof using P_tree.
  intros [[[b w] t] l] r s' E'. unfold ask, tree_call in E'. cbn in E'. destruct (m w) as [a w']. injection E' as <- <-.
  by exists [ETree (event a)].
Qed.
Lemma mirrored_quiet A (m : T A) : emits m (fun _ ev => P ev /\ tree_events ev = []) -> mirrored A (quiet m).
Proof.
  intros Hm s r s' E'. unfold quiet in E'. destruct (m s.1) as [x s1] eqn:E1. injection E' as <- <-.
  destruct (Hm _ _ _ E1) as (ev & E2 & E3 & E4). exists ev. rewrite E4, app_nil_r. done.
Qed.

Lemma mirrored_closed : closed_under_calls mirrored.
Proof using P_nil P_app P_tree.
  split; try (by intros; apply mirrored_call); try (by intros; apply mirrored_same).
  - intros A B m f Hm Hf s r s' (o & s1 & E1 & Hr)%M_bind_cases. apply Hm in E1 as (ev1 & E2 & E3 & E4).
    destruct Hr as [(a & -> & Hr)|(e & -> & -> & ->)]; [|by exists ev1]. apply Hf in Hr as (ev2 & E5 & E6 & E7).
    exists (ev1 ++ ev2). rewrite E5, E6, E2, E3, tree_events_app, !app_assoc. split_and!; [done..|by apply P_app].
  - intros A B f m Hm s r s' E'. unfold fmap, M_fmap in E'. destruct (m s) as [o s1] eqn:E1. apply Hm in E1 as (ev & E2 & E3 & E4).
    destruct o; injection E' as <- <-; by exists ev.
Qed.

Lemma run_tree_emits {A} (m : M (traced (service W) TreeEvent) A) (R : result A -> list TreeEvent -> Prop) :
  mirrored A m -> emits m R -> emits (run_tree m) (fun r ev => P ev /\ R r (tree_events ev)).
Proof.
  intros Hm Hr s r s' E'. unfold run_tree in E'. destruct (m (s, [])) as [x s1] eqn:E1. injection E' as <- <-.
  destruct (Hm _ _ _ E1) as (ev & E2 & E3 & E4). destruct (Hr _ _ _ E1) as (ev' & E5 & E6).
  assert (ev' = tree_events ev) as -> by (cbn in *; congruence). by exists ev.
Qed.
End Mirrored.

(** *** Talking to the client *)

(** The calls of the broker on the connection while a process runs. *)
Definition talking (e : BrokerEvent) : Prop :=
  match e with EReceive _ | ECloexec _ _ | EClose _ | EPoll _ | EStopping _ => True | _ => False end.

Lemma talking_ask {A} (event : A -> BrokerEvent) m : (forall a, talking (event a)) -> only talking (ask_system event m : T A).
Proof. intros He. apply emits_ask. intros a. by constructor. Qed.
Lemma talking_close_all fds : only talking (close_all fds : T unit).
Proof. apply only_for_each. intros fd _. by apply talking_ask. Qed.
Lemma talking_own_fds raw : forall owned, only talking (own_fds raw owned : T _).
Proof.
  induction raw as [|fd raw IH]; intros owned; cbn [own_fds]; [by apply emits_ret; constructor|]. apply only_if.
  - apply only_bind; [apply talking_close_all|]. intros _. apply emits_ret. constructor.
  - apply only_bind; [by apply talking_ask|]. intros []; [apply IH|]. apply only_bind; [by apply talking_ask|]. intros _.
    apply only_bind; [apply talking_close_all|]. intros _. apply emits_ret. constructor.
Qed.
Lemma talking_receive fd : only talking (receive_packet fd : T _).
Proof.
  assert (forall fds, only talking (_ ← close_fds fds; mret None : T (option (bytes * list Z)))) as Hc.
  { intros fds. apply only_bind; [apply talking_close_all|]. intros _. apply emits_ret. constructor. }
  apply only_bind; [by apply talking_ask|]. intros [m|]; [|by apply emits_ret; constructor]. apply only_if; [apply Hc|].
  destruct (parse_frame _) as [[[[? ?] ?] ?]|]; [|apply Hc]. destruct (control_fds _ _); [|apply Hc]. apply only_if; [apply Hc|].
  apply only_bind; [apply talking_own_fds|]. intros o. apply emits_ret. constructor.
Qed.
Lemma talking_watch fd request : only talking (watch_bus_termination_requested fd request : T bool).
Proof.
  apply only_bind; [by apply talking_ask|]. intros p. repeat (apply only_if; [by apply emits_ret; constructor|]).
  apply only_bind; [apply talking_receive|]. intros [[packet fds]|]; [|by apply emits_ret; constructor].
  apply only_bind; [apply talking_close_all|]. intros _. apply emits_ret. constructor.
Qed.
Lemma talking_signal fd request watch_bus : only talking (requested_signal fd request watch_bus : T _).
Proof.
  apply only_bind; [by apply talking_ask|]. intros b. apply only_bind.
  - apply only_if; [by apply emits_ret; constructor|]. apply only_if; [|by apply emits_ret; constructor].
    apply only_bind; [apply talking_watch|]. intros r. apply emits_ret. constructor.
  - intros signal. apply only_bind; [by apply emits_quiet; constructor|]. intros t. apply only_bind; [|intros _; apply emits_ret; constructor].
    apply only_if; [by apply emits_quiet; constructor|by apply emits_ret; constructor].
Qed.

Lemma emits_both {A} (m : T A) Q R : emits m Q -> emits m R -> emits m (fun r ev => Q r ev /\ R r ev).
Proof.
  intros Hq Hr s r s' E'. destruct (Hq _ _ _ E') as (ev & E1 & E2). destruct (Hr _ _ _ E') as (ev' & E3 & E4).
  assert (ev' = ev) as -> by (rewrite E1 in E3; by apply app_inv_head in E3). by exists ev.
Qed.
Lemma talking_no_tree ev : Forall talking ev -> tree_events ev = [].
Proof. induction 1 as [|e ev He Hev IH]; [done|]. unfold tree_events. cbn. by destruct e. Qed.

Lemma holds_watch fd request : holds [] (watch_bus_termination_requested fd request) (fun _ => []).
Proof.
  apply (holds_bind _ _ _ (fun _ => [])); [by apply holds_ask|]. intros p.
  destruct (negb (po_any p)); [by apply holds_ret|]. destruct (po_gone p); [by apply holds_ret|].
  destruct (negb (po_input p)); [by apply holds_ret|]. apply (holds_bind _ _ _ (fun o => received_fds (Ok o))).
  - eapply holds_same; [| |apply holds_receive]; [done|]. by intros [|].
  - intros [[packet fds]|]; [|by apply holds_ret]. apply (holds_bind _ _ _ (fun _ => [])); [apply holds_close_all; cbn; counted|].
    intros _. by apply holds_ret.
Qed.
Lemma holds_signal fd request watch_bus : holds [] (requested_signal fd request watch_bus) (fun _ => []).
Proof.
  apply (holds_bind _ _ _ (fun _ => [])); [by apply holds_ask|]. intros b. apply (holds_bind _ _ _ (fun _ => [])).
  - unfold spawn_termination_signal. destruct b; [by apply holds_ret|]. destruct watch_bus; [|by apply holds_ret].
    apply (holds_bind _ _ _ (fun _ => [])); [|intros r; by apply holds_ret].
    eapply holds_same; [| |apply holds_watch]; [done|]. by intros [].
  - intros signal. apply holds_neutral; [|done]. apply only_bind; [apply neutral_quiet|]. intros t.
    apply only_bind; [|intros _; apply emits_ret; constructor]. apply only_if; [apply neutral_quiet|by apply emits_ret; constructor].
Qed.

(** Following a tree moves no descriptor. *)
Definition no_descriptors (ev : list BrokerEvent) : Prop := balanced [] ev [].
Lemma tree_closed : closed_under_calls (mirrored no_descriptors).
Proof.
  apply mirrored_closed; [by apply balanced_nil|intros a b; by apply balanced_app|].
  intros e. apply balanced_neutral. by repeat constructor.
Qed.
Lemma holds_run_tree {A} pre (m : M (traced (service W) TreeEvent) A) post :
  mirrored no_descriptors A m -> (forall r, same pre (post r)) -> holds pre (run_tree m) post.
Proof.
  intros Hm Hs s r s' E'. unfold run_tree in E'. destruct (m (s, [])) as [x s1] eqn:E1. injection E' as <- <-.
  destruct (Hm _ _ _ E1) as (ev & E2 & _ & E4). exists ev. split; [done|].
  apply (balanced_same pre ([] ++ pre) ev ([] ++ pre) (post x)); [done|exact (Hs x)|exact (balanced_frame [] ev [] pre E4)].
Qed.
Lemma mirrored_signal fd request watch_bus : mirrored no_descriptors _ (quiet (requested_signal fd request watch_bus)).
Proof.
  apply mirrored_quiet. eapply emits_mono; [apply (emits_both _ _ _ (holds_signal fd request watch_bus) (talking_signal fd request watch_bus))|].
  intros r ev [E1 E2]. split; [done|by apply talking_no_tree].
Qed.

(** *** The connection *)

(** A service that ends has closed everything; none fails. *)
Definition settles (pre : list Z) (m : T (option unit)) : Prop :=
  emits m (fun r ev => match r with Ok (Some _) => balanced pre ev [] | Ok None => True | Err _ => False end).
Definition sure {A} (m : T A) : Prop := forall s, is_ok (m s).1 = true.

Lemma sure_ret {A} (a : A) : sure (mret a).
Proof. done. Qed.
Lemma sure_quiet {A} (f : M (bool * W) A) : (forall s, is_ok (f s).1 = true) -> sure (quiet f).
Proof. intros Hf s. unfold quiet. specialize (Hf s.1). by destruct (f s.1). Qed.
Lemma sure_ask {A} (event : A -> BrokerEvent) m : sure (ask_system event m : T A).
Proof. intros s. unfold ask_system, ask. by destruct (m s.1.2). Qed.
Lemma sure_catch {A} (m : T A) : sure (catch m).
Proof. intros s. unfold catch. by destruct (m s). Qed.
Lemma sure_bind {A B} (m : T A) (f : A -> T B) : sure m -> (forall a, sure (f a)) -> sure (m ≫= f).
Proof. intros Hm Hf s. unfold mbind, M_bind. specialize (Hm s). destruct (m s) as [[a|e] s1]; [apply Hf|done]. Qed.
Lemma sure_close_all fds : sure (close_all fds).
Proof. induction fds; [apply sure_ret|]. apply sure_bind; [apply sure_ask|done]. Qed.
Lemma sure_drop_nested nested : sure (drop_nested nested).
Proof.
  destruct nested as [n|]; [|apply sure_ret]. apply sure_bind; [|intros x; apply sure_ret].
  intros s. unfold on_nested. by destruct (cleanup_nested _) as [x [nw ev]].
Qed.
Lemma sure_own_fds raw : forall owned, sure (own_fds raw owned).
Proof.
  induction raw as [|fd raw IH]; intros owned; cbn [own_fds]; [apply sure_ret|]. destruct (_ <? _)%Z.
  - apply sure_bind; [apply sure_close_all|intros _; apply sure_ret].
  - apply sure_bind; [apply sure_ask|]. intros []; [apply IH|]. apply sure_bind; [apply sure_ask|]. intros _.
    apply sure_bind; [apply sure_close_all|intros _; apply sure_ret].
Qed.
Lemma sure_receive fd : sure (receive_packet fd).
Proof.
  assert (forall fds, sure (_ ← close_fds fds; mret None : T (option (bytes * list Z)))) as Hc.
  { intros fds. apply sure_bind; [apply sure_close_all|intros _; apply sure_ret]. }
  apply sure_bind; [apply sure_ask|]. intros [m|]; [|apply sure_ret]. destruct (rm_truncated m); [apply Hc|].
  destruct (parse_frame _) as [[[[? ?] ?] ?]|]; [|apply Hc]. destruct (control_fds _ _); [|apply Hc]. destruct (negb _); [apply Hc|].
  apply sure_bind; [apply sure_own_fds|intros o; apply sure_ret].
Qed.
Lemma sure_drop_tree tree : sure (drop_tree tree).
Proof. apply sure_bind; [apply sure_catch|done]. Qed.

Lemma settles_bind {A} pre (m : T A) (f : A -> T (option unit)) mid :
  sure m -> holds pre m mid -> (forall a, settles (mid (Ok a)) (f a)) -> settles pre (m ≫= f).
Proof.
  intros Hs Hm Hf s r s' (o & s1 & E' & Hr)%M_bind_cases. specialize (Hs s). rewrite E' in Hs.
  destruct (Hm _ _ _ E') as (ev1 & E1 & E2). destruct Hr as [(a & -> & Hr)|(e & -> & -> & ->)]; [|done].
  destruct (Hf _ _ _ _ Hr) as (ev2 & E3 & E4). exists (ev1 ++ ev2). rewrite E3, E1, app_assoc. split; [done|].
  destruct r as [[u|]|]; [by eapply balanced_app|done..].
Qed.
Lemma settles_same pre pre' m : same pre' pre -> settles pre m -> settles pre' m.
Proof.
  intros Hs Hm. eapply emits_mono; [exact Hm|]. intros [[u|]|] ev; [|done..]. by apply balanced_same.
Qed.
Lemma settles_waiting pre : settles pre (mret None).
Proof. by apply emits_ret. Qed.
Lemma settles_done : settles [] (mret (Some tt)).
Proof. apply emits_ret. by apply (balanced_nil [] []). Qed.

Lemma settles_finish fd : settles [fd] (finish fd).
Proof.
  apply (settles_bind _ _ _ (fun _ => [fd])); [apply sure_ask|by apply holds_other|]. intros _.
  apply (settles_bind _ _ _ (fun _ => [])); [apply sure_ask|by apply holds_close|]. intros _. apply settles_done.
Qed.
Lemma settles_leave fd pre (dropped : T unit) : sure dropped -> holds pre dropped (fun _ => []) -> settles (pre ++ [fd]) (leave fd dropped).
Proof.
  intros Hs Hd. apply (settles_bind _ _ _ (fun _ => pre ++ [fd])); [apply sure_ask|by apply holds_other|]. intros _.
  apply (settles_bind _ _ _ (fun _ => [fd])); [done|exact (holds_frame _ [fd] _ _ Hd)|]. intros _.
  apply (settles_bind _ _ _ (fun _ => [])); [apply sure_ask|by apply holds_close|]. intros _. apply settles_done.
Qed.

Lemma holds_drop_tree pre tree post : same pre (post (Ok tt)) -> holds pre (drop_tree tree) post.
Proof.
  intros Hs. apply (holds_bind _ _ _ (fun _ => pre)).
  - apply holds_catch, holds_run_tree; [|done]. apply (closed_terminate _ tree_closed).
  - intros r. apply emits_note. apply (balanced_same pre pre _ pre); [done|done|]. apply balanced_neutral. by repeat constructor.
Qed.
Lemma holds_drop_spawned s : holds (spawned_fds s) (drop_spawned s) (fun _ => []).
Proof. apply holds_drop_nested, holds_close_all. unfold spawned_fds. counted. Qed.
Lemma sure_drop_spawned s : sure (drop_spawned s).
Proof. apply sure_bind; [apply sure_drop_nested|]. intros _. apply sure_close_all. Qed.

Lemma settles_abandon fuel fd tree s : settles (spawned_fds s ++ [fd]) (abandon fuel fd tree s).
Proof.
  apply (settles_bind _ _ _ (fun _ => spawned_fds s ++ [fd])); [apply sure_catch| |].
  - apply holds_catch, holds_run_tree; [|done]. apply (closed_wait _ tree_closed), closed_ret, tree_closed.
  - assert (settles (spawned_fds s ++ [fd]) (leave fd (_ ← drop_tree tree; drop_spawned s))) as Hl.
    { apply settles_leave; [apply sure_bind; [apply sure_drop_tree|intros _; apply sure_drop_spawned]|].
      apply (holds_bind _ _ _ (fun _ => spawned_fds s)); [by apply holds_drop_tree|]. intros _. apply holds_drop_spawned. }
    intros [[st|]|e]; [done|apply settles_waiting|done].
Qed.

Lemma neutral_ready fd rounds : forall got, only neutral (read_ready rounds fd got : T bytes).
Proof.
  induction rounds as [|rounds IH]; intros got; cbn [read_ready]; [by apply emits_ret; constructor|].
  apply only_bind; [by apply neutral_ask; repeat constructor|]. intros [[|b l]|e]; [by apply emits_fail; constructor| |by apply emits_fail; constructor].
  cbv zeta. apply only_if; [apply IH|by apply emits_ret; constructor].
Qed.
Lemma neutral_complete fd request pid started expose : only neutral (complete_spawn_start_notification fd request pid started expose : T bool).
Proof.
  destruct started as [st|]; [|by apply emits_ret; constructor]. apply only_bind.
  - apply emits_catch, only_bind; [apply neutral_ready|]. intros b. cbv zeta. apply only_if; [by apply emits_fail; constructor|by apply emits_ret; constructor].
  - intros r. cbv zeta. by apply neutral_ask; repeat constructor.
Qed.
Lemma sure_complete fd request pid started expose : sure (complete_spawn_start_notification fd request pid started expose).
Proof. destruct started; [|apply sure_ret]. apply sure_bind; [apply sure_catch|]. intros r. apply sure_ask. Qed.

Lemma holds_triggered pre post : (forall r, same pre (post r)) -> holds pre triggered_now post.
Proof. intros Hs. apply holds_neutral; [apply neutral_quiet|done]. Qed.

(** A call that moves no descriptor, in front of a continuation. *)
Ltac other := apply holds_other; [by repeat constructor|by intros [?|?]].

Lemma watch_owner_accounts fuel fd request watch_bus owner :
  sure (watch_owner fuel fd request watch_bus owner) /\ holds [] (watch_owner fuel fd request watch_bus owner) (fun _ => []).
Proof.
  induction fuel as [|fuel [IHs IHh]]; cbn [watch_owner]; [by split; [|apply holds_ret]|].
  destruct watch_bus; cbn [negb]; [|by split; [|apply holds_ret]].
  assert (forall t : bool, sure (if t then mret tt else requested ← watch_bus_termination_requested fd request;
    if requested : bool then set_triggered else mret tt)) as Hw.
  { intros []; [done|]. apply sure_bind; [|by intros []; [apply sure_quiet|]].
    apply sure_bind; [apply sure_ask|]. intros p. destruct (negb (po_any p)); [done|]. destruct (po_gone p); [done|]. destruct (negb (po_input p)); [done|].
    apply sure_bind; [apply sure_receive|]. intros [[packet fds]|]; [|done]. by apply sure_bind; [apply sure_close_all|]. }
  split.
  - apply sure_bind; [apply sure_ask|]. intros []; [done|]. apply sure_bind; [by apply sure_quiet|]. intros t.
    apply sure_bind; [apply Hw|]. intros _. apply sure_bind; [by apply sure_quiet|]. intros t'. apply sure_bind.
    { destruct t'; [|done]. destruct owner; [|done]. by apply sure_bind; [apply sure_catch|]. }
    intros [[]|]; [done| |done]. by apply sure_bind; [apply sure_ask|].
  - apply (holds_bind _ _ _ (fun _ => [])); [other|]. intros []; [by apply holds_ret|].
    apply (holds_bind _ _ _ (fun _ => [])); [by apply holds_triggered; intros []|]. intros t. apply (holds_bind _ _ _ (fun _ => [])).
    { destruct t; [by apply holds_ret|]. apply (holds_bind _ _ _ (fun _ => [])).
      - eapply holds_same; [| |apply holds_watch]; [done|]. by intros [].
      - intros []; [|by apply holds_ret]. apply holds_neutral; [apply neutral_quiet|]. by intros []. }
    intros _. apply (holds_bind _ _ _ (fun _ => [])); [by apply holds_triggered; intros []|]. intros t'. apply (holds_bind _ _ _ (fun _ => [])).
    { destruct t'; [|by apply holds_ret]. destruct owner as [owner|]; [|by apply holds_ret]. apply (holds_bind _ _ _ (fun _ => [])).
      - apply holds_catch, holds_run_tree; [|done]. apply (closed_orphaned _ tree_closed).
      - intros r. by apply holds_ret. }
    intros [[]|]; [by apply holds_ret| |by apply holds_ret]. apply (holds_bind _ _ _ (fun _ => [])); [other|]. done.
Qed.

Lemma settles_follow fuel fd request flags owner tree s :
  settles (spawned_fds s ++ [fd]) (follow fuel fd request flags owner tree s).
Proof.
  unfold follow. cbv zeta. set (held := spawned_fds s ++ [fd]).
  assert (forall message pid payload (k : bool -> T (option unit)), (forall b, settles held (k b)) ->
    settles held (b ← send_frame fd message pid payload; k b)) as Hsend.
  { intros message pid payload k Hk. apply (settles_bind _ _ _ (fun _ => held)); [apply sure_ask|by apply holds_other|done]. }
  apply Hsend. intros []; cbn [negb]; [|apply settles_abandon].
  apply (settles_bind _ _ _ (fun _ => held)); [apply sure_complete|by apply holds_neutral; [apply neutral_complete|]|].
  intros []; cbn [negb]; [|apply settles_abandon].
  apply (settles_bind _ _ _ (fun _ => held)); [apply sure_catch| |].
  { apply holds_catch, holds_run_tree; [|done]. apply (closed_wait_loop _ tree_closed), mirrored_signal. }
  assert (settles held (watched ← watch_owner fuel fd request (flag_set flags SPAWN_WATCH_BUS) owner;
    match watched with None => mret None | Some _ => _ ← drop_tree tree; _ ← drop_spawned s; finish fd end)) as Hend.
  { destruct (watch_owner_accounts fuel fd request (flag_set flags SPAWN_WATCH_BUS) owner) as [Hs Hh].
    apply (settles_bind _ _ _ (fun _ => held)); [done|exact (holds_frame _ held _ _ Hh)|]. intros [[]|]; [|apply settles_waiting].
    apply (settles_bind _ _ _ (fun _ => held)); [apply sure_drop_tree|by apply holds_drop_tree|]. intros _.
    apply (settles_bind _ _ _ (fun _ => [fd])); [apply sure_drop_spawned|exact (holds_frame _ [fd] _ _ (holds_drop_spawned s))|].
    intros _. apply settles_finish. }
  assert (settles held (_ ← (mret tt : T unit); (watched ← watch_owner fuel fd request (flag_set flags SPAWN_WATCH_BUS) owner;
    match watched with None => mret None | Some _ => _ ← drop_tree tree; _ ← drop_spawned s; finish fd end))) as Hnone by exact Hend.
  intros [[st|]|e]; [|apply settles_waiting|exact Hnone].
  apply (settles_bind _ _ _ (fun _ => held)); [by apply sure_bind; [apply sure_ask|]| |by intros _].
  apply (holds_bind _ _ _ (fun _ => held)); [other|]. intros _. by apply holds_ret.
Qed.

Lemma holds_resolve pre watch_bus caller (f : N -> T (option Z)) :
  (forall n, holds pre (f n) (fun _ => pre)) ->
  holds pre (fun s : service W => resolve_watch_bus_owner watch_bus caller f s) (fun _ => pre).
Proof.
  intros Hf s r s' E'. unfold resolve_watch_bus_owner in E'.
  destruct watch_bus; [destruct (caller =? 0)%N|]; cbn [negb] in E'.
  2: { destruct (f caller s) as [x s1] eqn:E1. injection E' as <- <-. destruct (Hf _ _ _ _ E1) as (ev & E2 & E3). by exists ev. }
  all: injection E' as <- <-; exists []; (split; [by rewrite app_nil_r|by apply balanced_nil]).
Qed.

Lemma settles_spawn pid next_sequence tree_depth context fuel fd request payload fds :
  (N.of_nat (length payload) < 2 ^ 64)%N ->
  settles (fds ++ [fd]) (handle_spawn pid next_sequence tree_depth context fuel fd request payload fds).
Proof.
  intros Hsmall. unfold handle_spawn. destruct (parse_spawn payload fds) as [rq|e] eqn:Eq; cycle 1.
  { apply (settles_bind _ _ _ (fun _ => [fd])); [apply sure_close_all|apply holds_close_all; counted|]. intros _.
    apply (settles_leave fd []); [done|by apply holds_ret]. }
  apply (parse_spawn_sound _ Hsmall) in Eq as (_ & Hsources & _). cbv zeta.
  apply (settles_bind _ _ _ (fun _ => fds ++ [fd])); [apply sure_catch| |].
  { apply holds_catch, holds_resolve. intros n. apply holds_run_tree; [|done]. apply (closed_subtree_for _ tree_closed). }
  intros [owner|e]; [|apply settles_leave; [apply sure_close_all|apply holds_close_all; counted]].
  apply (settles_bind _ _ _ (fun r => match r with Ok (Ok s) => spawned_fds s | _ => [] end ++ [fd])); [apply sure_catch| |].
  { apply holds_catch. eapply holds_same; [| |apply (holds_frame (map snd (sp_mappings rq)) [fd]), holds_spawn]; [by rewrite Hsources|]. by intros []. }
  intros [s|e]; [|apply (settles_leave fd []); [done|by apply holds_ret]].
  destruct (track (sd_child s)) as [tree|e]; [apply settles_follow|].
  apply (settles_bind _ _ _ (fun _ => spawned_fds s ++ [fd])); [apply sure_ask|by apply holds_other|]. intros _.
  apply (settles_bind _ _ _ (fun _ => spawned_fds s ++ [fd])); [apply sure_ask|by apply holds_other|]. intros _.
  apply settles_leave; [apply sure_drop_spawned|apply holds_drop_spawned].
Qed.

Lemma send_accounts fd message request payload : only neutral (_ ← send_frame fd message request payload; mret tt : T unit)
  /\ sure (_ ← send_frame fd message request payload; mret tt).
Proof.
  split; [|by apply sure_bind; [apply sure_ask|]]. apply only_bind; [by apply neutral_ask; repeat constructor|].
  intros _. apply emits_ret. constructor.
Qed.
Lemma lifecycle_accounts rounds : only neutral (lifecycle_wait rounds : T unit) /\ sure (lifecycle_wait rounds).
Proof.
  induction rounds as [|rounds [IHn IHs]]; cbn [lifecycle_wait]; [by split; [apply emits_ret; constructor|]|]. split.
  - apply only_bind; [by apply neutral_ask; repeat constructor|]. intros b. apply only_if; [by apply emits_ret; constructor|].
    apply only_bind; [by apply neutral_ask; repeat constructor|done].
  - apply sure_bind; [apply sure_ask|]. intros []; [done|]. by apply sure_bind; [apply sure_ask|].
Qed.
Lemma other_accounts fd kind request fds : only neutral (other_request fd kind request fds) /\ sure (other_request fd kind request fds).
Proof.
  assert (only neutral (mret tt : T unit) /\ sure (mret tt : T unit)) as Hret by (by split; [apply emits_ret; constructor|]).
  unfold other_request. destruct (_ && _); [apply send_accounts|]. destruct (kind =? FD_TEST)%N.
  - destruct fds as [|source [|? ?]]; [done| |done]. split.
    + apply only_bind; [by apply neutral_ask; repeat constructor|]. intros [[|b [|? ?]]|e]; try apply Hret.
      apply only_if; [apply send_accounts|apply Hret].
    + apply sure_bind; [apply sure_ask|]. intros [[|b [|? ?]]|e]; try done. destruct (Ascii.eqb b "F"); [apply send_accounts|done].
  - destruct (_ && _); [|done]. split.
    + apply only_bind; [by apply neutral_ask; repeat constructor|]. intros ok. apply only_if; [apply Hret|].
      apply only_bind; [apply lifecycle_accounts|]. intros _. apply only_bind; [by apply neutral_ask; repeat constructor|].
      intros b. apply only_if; [apply Hret|apply send_accounts].
    + apply sure_bind; [apply sure_ask|]. intros []; [|done]. apply sure_bind; [apply lifecycle_accounts|]. intros _.
      apply sure_bind; [apply sure_ask|]. intros []; [done|apply send_accounts].
Qed.

Lemma parse_frame_small packet kind request len fds : parse_frame packet = Some (kind, request, len, fds) ->
  (N.of_nat (length (drop HEADER_SIZE packet)) < 2 ^ 64)%N.
Proof.
  unfold parse_frame. destruct (_ <? _)%nat; [done|]. cbv zeta. destruct (_ || _) eqn:E'; [done|]. intros _.
  apply orb_false_iff in E' as [E1 E2]. apply orb_false_iff in E1 as [_ E1]. apply N.ltb_ge in E1.
  apply negb_false_iff, N.eqb_eq in E2. rewrite length_drop. unfold MAX_PAYLOAD, HEADER_SIZE in *. lia.
Qed.

Lemma settles_connection pid next_sequence tree_depth context fuel fd :
  settles [fd] (handle_connection pid next_sequence tree_depth context fuel fd).
Proof.
  apply (settles_bind _ _ _ (fun r => received_fds r ++ [fd])); [apply sure_receive|exact (holds_frame [] [fd] _ _ (holds_receive fd))|].
  intros [[packet fds]|]; [|apply settles_finish]. cbn [received_fds].
  assert (settles (fds ++ [fd]) (_ ← close_all fds; finish fd)) as Hclose.
  { apply (settles_bind _ _ _ (fun _ => [fd])); [apply sure_close_all|apply holds_close_all; counted|]. intros _. apply settles_finish. }
  destruct (parse_frame packet) as [[[[kind request] len] n]|] eqn:E'; [|exact Hclose].
  destruct (kind =? SPAWN)%N; [apply settles_spawn; by eapply parse_frame_small|].
  destruct (other_accounts fd kind request fds) as [Hn Hs].
  apply (settles_bind _ _ _ (fun _ => fds ++ [fd])); [exact Hs|by apply holds_neutral; [exact Hn|]|]. intros _. exact Hclose.
Qed.

(** *** The listener *)

Lemma neutral_bind_socket fd path : only neutral (bind_socket fd path : T unit).
Proof.
  apply only_if; [by apply emits_fail; constructor|]. apply only_bind; [by apply neutral_ask; repeat constructor|]. intros b.
  apply only_bind; [by apply emits_lift; constructor|]. intros _. apply only_bind; [by apply neutral_ask; repeat constructor|].
  intros l. apply emits_lift. constructor.
Qed.
(** A broker that is bound has the listener and its duplicate; one that is not
    has neither. *)
Lemma holds_bind_broker paths context :
  holds [] (bind paths context) (ok_fds (fun b => [b.1.2; b.2])).
Proof.
  assert (forall A (m : T A) B (k : A -> T B) post, only neutral m -> (forall e, post (Err e) = []) ->
    (forall a, holds [] (k a) post) -> holds [] (m ≫= k) post) as Hstep.
  { intros A m B k post Hn He Hk. apply (holds_bind _ _ _ (fun _ => [])); [|done].
    apply holds_neutral; [done|]. intros [a|e]; [done|by rewrite He]. }
  apply Hstep; [by apply emits_lift; constructor|done|]. intros p. apply Hstep; [by apply emits_lift; constructor|done|]. intros d.
  apply Hstep; [apply neutral_outside|done|]. intros _. apply Hstep; [apply neutral_outside|done|]. intros _.
  apply (holds_bind _ _ _ (fun listener => [listener])).
  { apply (holds_bind _ _ _ (fun r => match r with inl fd => [fd] | inr _ => [] end)); [by apply holds_ask; intros []|].
    intros [fd|e]; by apply holds_lift. }
  intros listener. apply (holds_bind _ _ _ (fun _ => [listener])).
  { apply (holds_or_drop _ _ _ [listener] []); [|by apply holds_close|done].
    apply holds_neutral; [apply neutral_bind_socket|by intros [[]|]]. }
  intros _. apply (holds_bind _ _ _ (fun d => listener :: match d with inl d => [d] | inr _ => [] end)); [by apply holds_ask; intros []|].
  intros x. apply (holds_bind _ _ _ (fun accept_fd => [listener; accept_fd])); [|intros a; by apply holds_ret].
  apply (holds_or_drop _ _ _ [listener] []); [|by apply holds_close|done]. apply holds_lift. by destruct x.
Qed.
End Accounts.

(** ** Theorems *)

Section Theorems.
Context {W : Type} `{DescriptorLaws W}.

Lemma ask_system_bind {A B} (event : A -> BrokerEvent) m (k : A -> M (service W) B) (s : service W) :
  (ask_system event m ≫= k) s = k (m s.1.2).1 ((s.1.1, (m s.1.2).2), s.2 ++ [event (m s.1.2).1]).
Proof. unfold mbind, M_bind, ask_system, ask. by destruct (m s.1.2) as [a w]. Qed.
Lemma bind_close {B} fd (k : unit -> M (service W) B) (s : service W) :
  (close_descriptor fd ≫= k) s = k tt ((s.1.1, (close_fd fd s.1.2).2), s.2 ++ [EClose fd]).
Proof. unfold close_descriptor. rewrite ask_system_bind. by destruct (close_fd fd s.1.2).1. Qed.
Lemma close_all_runs fds : forall s : service W, exists s', close_all fds s = (Ok tt, s') /\ closed s'.2 = closed s.2 ++ fds.
Proof.
  induction fds as [|fd fds IH]; intros s; [exists s; by rewrite app_nil_r|]. unfold close_all. cbn [for_each].
  rewrite bind_close.
  destruct (IH ((s.1.1, (close_fd fd s.1.2).2), s.2 ++ [EClose fd])) as (s' & E1 & E2). exists s'. split; [exact E1|].
  rewrite E2. cbn [snd]. by rewrite closed_app, <- app_assoc.
Qed.


(** The descriptors behind one that cannot be set to be closed on exec stay
    open: only that one and those before it are closed. *)
Theorem undone_receive_leaks fd rest owned (s : service W) :
  (0 <= fd)%Z -> (set_cloexec fd s.1.2).1 = false ->
  exists s', own_fds (fd :: rest) owned s = (Ok None, s') /\ closed s'.2 = closed s.2 ++ fd :: owned.
Proof.
  intros Hfd Hc. destruct s as [[b w] t]. cbn [fst snd] in *. cbn [own_fds]. rewrite (proj2 (Z.ltb_ge _ _)) by lia.
  rewrite ask_system_bind. cbn [fst snd]. rewrite Hc, bind_close. cbn [fst snd].
  set (s1 := (_, _)). destruct (close_all_runs owned s1) as (s' & E1 & E2). eexists. split; [by unfold mbind, M_bind; rewrite E1|].
  rewrite E2. cbn [snd s1]. rewrite !closed_app. unfold closed at 2 3. cbn. by rewrite app_nil_r, <- app_assoc.
Qed.
End Theorems.

(** ** A host on which the theorems compute *)

(** A client that sends one Spawn packet with two descriptors, and a process
    that reports its start and ends at once. *)
Definition example_call : SpawnCall :=
  mkCall (list_ascii_of_string "/tmp") [list_ascii_of_string "sh"] [(1%N, 0%Z); (9%N, 1%Z)] [] 0x40.
Definition example_packet : bytes * list Z :=
  match send_spawn example_call (Some (fun h => if (h <? 2)%Z then Some (h + 40)%Z else None)) 77 with
  | Ok (Some p) => p
  | _ => ([], [])
  end.
Definition example_message : Message := mkMessage example_packet.1 false [mkControl true 8 example_packet.2].
Definition example_root : path := "/run/x/chroots/org.a/1".
Definition example_service : ServiceContext :=
  mkService (mkContext Records.example_installation "org.a" example_root [] []) "/usr" 1001 1001 [] [].
Definition example_tree : TreeFs := mkTree (map components ["/"; example_root; "/usr"]) [].

#[export] Instance example_processes : ProcessWorld TreeFs := {
  capture := mret [];
  send_signal _ _ := mret tt;
  pause := mret tt;
  self_pid := 1%Z;
}.
#[export] Instance example_recovery : SandboxRecovery.RecoveryWorld TreeFs := {
  SandboxRecovery.mount_command := mret "";
  SandboxRecovery.launcher_lookup _ _ := Ok None;
  SandboxRecovery.launcher_probe _ _ := KillESRCH;
  SandboxRecovery.metadata_identity _ _ := inl (1, 1)%N;
  SandboxRecovery.unmount_command _ _ _ _ := mret tt;
  SandboxRecovery.document_unmount_command _ _ _ _ := mret tt;
  SandboxRecovery.to_path p := render_components p;
}.
#[export] Instance example_mounts : MountWorld TreeFs := {
  run_command _ _ := mret tt;
  read_link _ _ := inr not_found;
  make_symlink _ _ t := (inl tt, t);
  create_dir _ t := (inl tt, t);
  create_file _ t := (inl tt, t);
}.
#[export] Instance example_nested : NestedWorld TreeFs := {
  entry_mode _ _ := 493;
  copy_file _ _ t := (inl tt, t);
}.
#[export] Instance example_reaper : ReaperSystem TreeFs := {
  reap_status _ w := (inl (mkReaperStatus 1 0), w);
  reap_get_pids _ w := (inl [], w);
  reap_kill _ _ w := (inl tt, w);
  set_reaper _ w := (inl tt, w);
  wait_pid _ w := (tt, w);
  try_wait _ w := (inl (Some 256%Z), w);
  instant_now w := (0%Z, w);
  thread_sleep _ w := (tt, w);
  lookup_identity _ w := (Ok None, w);
  kill_process _ _ w := (inl tt, w);
}.
#[export] Instance example_broker : BrokerSystem TreeFs := {
  recv_message _ w := (Some example_message, w);
  set_cloexec _ w := (true, w);
  close_fd _ w := (tt, w);
  poll_connection _ w := (mkPolled false false false, w);
  read_stopping w := (false, w);
  read_bytes _ _ w := (inl (to_be_bytes 12), w);
  dup_from fd minimum w := (inl (minimum + fd)%Z, w);
  make_pipe w := (inl (20, 21)%Z, w);
  spawn_command _ _ _ w := (inl 700%Z, w);
  kill_child _ w := (tt, w);
  wait_child _ w := (tt, w);
  send_packet _ _ w := (true, w);
  pause_for _ w := (tt, w);
  release_fd _ w := (tt, w);
  next_nested_root w := (0%N, w);
  identity_of_root _ _ := Ok (1, 1)%Z;
  make_socket w := (inl 3%Z, w);
  bind_to _ _ w := (inl tt, w);
  listen_on _ w := (inl tt, w);
  connect_to _ _ w := (true, w);
}.
#[export] Instance example_descriptors : DescriptorLaws TreeFs.
Proof. split. intros fd w m w' [= <- _]. repeat constructor; done. Defined.

