(* ===== verification/BrokerOrder.v ===== *)
(** * BrokerOrder: in which order the spawn broker does what it does
    (src/src/sandbox/spawn_broker.rs, as modelled in BrokerService)

    The calls of a connection are compared with those before them: what is
    started is what the packet asked for, the client is told of a start and an
    end that have happened, and a nested root is taken down behind its
    processes.  The descriptors of the started process are those of the request,
    at their targets. *)
From Stdlib Require Import Ascii String NArith ZArith Lia.
From stdpp Require Import base list strings sets gmap.
From S2P Require Import Prelude Effects Traces Collections RustStr RustNum RustPath HostFs Processes ProcessTrees InstallationPaths Records RunRecords LaunchRequest BrokerProtocol SandboxMounts NestedSandbox BrokerService.

(** ** What has to come first *)

(** A descriptor of the command, and the descriptor of the request it stands for. *)
Definition duplicated (t : list BrokerEvent) (minimum : Z) (requested given : Z * Z) : Prop :=
  given.1 = requested.1 /\ EDuplicate requested.2 minimum (inl given.2) ∈ t.

(** A packet that asks for a process. *)
Definition asked (t : list BrokerEvent) (r : SpawnRequest) : Prop :=
  exists m request len n, EReceive (Some m) ∈ t /\ parse_frame (rm_packet m) = Some (SPAWN, request, len, n) /\
    parse_spawn (drop HEADER_SIZE (rm_packet m)) (concat (map message_fds (rm_control m))) = Ok r.

Definition accepted (t : list BrokerEvent) (request : N) (pid : Z) : Prop :=
  ESend SPAWN_ACCEPTED request (to_be_bytes (Z.to_N pid)) true ∈ t.

(** The process that was started has been ended with its tree, or was killed. *)
Definition processes_over (t : list BrokerEvent) : Prop :=
  forall mappings pid, ESpawn mappings (inl pid) ∈ t -> (exists r, EDropTree pid r ∈ t) \/ EWaitChild pid ∈ t.

Definition service_allowed (t : list BrokerEvent) (e : BrokerEvent) : Prop :=
  match e with
  | ESpawn mappings _ => exists r, asked t r /\
      Forall2 (duplicated t (minimum_source (sp_mappings r))) (sp_mappings r) mappings
  | ESend message request payload _ =>
      (message = SPAWN_ACCEPTED -> exists mappings pid, ESpawn mappings (inl pid) ∈ t /\ payload = to_be_bytes (Z.to_N pid)) /\
      (message = SPAWN_STARTED -> exists pid relative_pid, accepted t request pid /\
         payload = spawn_started_payload (Z.to_N pid) relative_pid) /\
      (message = SPAWN_EXITED -> exists pid status, accepted t request pid /\
         payload = to_be_bytes (Z.to_N pid) ++ to_be_bytes (raw_wait_status status) /\
         ETree (ETryWait pid (inl (Some status))) ∈ t /\ ends_empty pid (tree_events t))
  | ENested (EUnmount _ _) | ENested (ERemoveRoot _ _) => processes_over t
  | _ => True
  end.

(** ** Lemmas: the phases of a service *)

(** Calls that need no justification, and that start nothing. *)
Definition plain (e : BrokerEvent) : Prop :=
  match e with
  | ESpawn _ _ => False
  | ESend message _ _ _ => message <> SPAWN_ACCEPTED /\ message <> SPAWN_STARTED /\ message <> SPAWN_EXITED
  | ENested (EUnmount _ _) | ENested (ERemoveRoot _ _) => False
  | _ => True
  end.
(** Those and the taking down of a nested root. *)
Definition calm (e : BrokerEvent) : Prop := plain e \/ exists n, e = ENested n.

(** Before the start; with a process; when its processes are over. *)
Definition unstarted (t : list BrokerEvent) : Prop := forall mappings pid, ESpawn mappings (inl pid) ∉ t.
Definition running (pid : Z) (t : list BrokerEvent) : Prop :=
  (exists mappings, ESpawn mappings (inl pid) ∈ t) /\ forall mappings pid', ESpawn mappings (inl pid') ∈ t -> pid' = pid.

Lemma snoc_other (t : list BrokerEvent) (e x : BrokerEvent) : x ∈ t ++ [e] -> x <> e -> x ∈ t.
Proof. intros [?|?%list_elem_of_singleton]%elem_of_app; [done|by subst]. Qed.
Lemma snoc_before (t : list BrokerEvent) (e x : BrokerEvent) : x ∈ t -> x ∈ t ++ [e].
Proof. intros. apply elem_of_app. by left. Qed.

Lemma calm_no_spawn e mappings r : calm e -> ESpawn mappings r <> e.
Proof. intros [Hp|(n & ->)]; [by intros <-|done]. Qed.
Lemma calm_of_plain e : plain e -> calm e.
Proof. by left. Qed.

Lemma unstarted_over t : unstarted t -> processes_over t.
Proof. intros Hu mappings pid Hin. by apply Hu in Hin. Qed.

Lemma calm_allowed t e : calm e -> processes_over t -> service_allowed t e.
Proof.
  intros [Hp|(n & ->)] Ho; [|by destruct n]. destruct e; try done.
  - destruct Hp as (? & ? & ?). by split_and!.
  - by destruct e.
Qed.
Lemma unstarted_step t e : unstarted t -> calm e -> service_allowed t e /\ unstarted (t ++ [e]).
Proof.
  intros Hu Hc. split; [by apply calm_allowed, unstarted_over|]. intros mappings pid Hin%snoc_other; [by eapply Hu|].
  by apply calm_no_spawn.
Qed.
Lemma running_step pid t e : running pid t -> plain e -> service_allowed t e /\ running pid (t ++ [e]).
Proof.
  intros [(maps & H1) H2] Hc. split.
  - destruct e; try done; [|by destruct e]. destruct Hc as (? & ? & ?). by split_and!.
  - split; [exists maps; by apply snoc_before|]. intros maps' pid' Hin%snoc_other; [by eapply H2|].
    by apply calm_no_spawn, calm_of_plain.
Qed.
Lemma over_step t e : processes_over t -> calm e -> service_allowed t e /\ processes_over (t ++ [e]).
Proof.
  intros Ho Hc. split; [by apply calm_allowed|]. intros maps pid Hin%snoc_other; [|by apply calm_no_spawn].
  destruct (Ho maps pid Hin) as [[r Hr]|Hr]; [left; exists r|right]; by apply snoc_before.
Qed.

Section Order.
Context {W : Type} `{DescriptorLaws W}.
Abbreviation T A := (M (service W) A) (only parsing).

Definition follows {A} (t : list BrokerEvent) (m : T A) (Q : A -> list BrokerEvent -> Prop) : Prop := obeys service_allowed t m Q.

Lemma unstarted_follows {A} t (m : T A) : only calm m -> unstarted t -> follows t m (fun _ t' => unstarted t').
Proof. apply obeys_steady. intros t' e Hu Hc. by apply unstarted_step. Qed.
Lemma running_follows {A} pid t (m : T A) : only plain m -> running pid t -> follows t m (fun _ t' => running pid t').
Proof. apply obeys_steady. intros t' e Hu Hc. by apply running_step. Qed.
Lemma over_follows {A} t (m : T A) : only calm m -> processes_over t -> follows t m (fun _ t' => processes_over t').
Proof. apply obeys_steady. intros t' e Hu Hc. by apply over_step. Qed.

(** *** The calls of the parts *)

Ltac no_calls := first [apply emits_ret; constructor | apply emits_lift; constructor | apply emits_fail; constructor | apply emits_quiet; constructor].

Lemma ask_plain {A} (event : A -> BrokerEvent) m : (forall a, plain (event a)) -> only plain (ask_system event m : T A).
Proof. intros He. apply emits_ask. intros a. by constructor. Qed.
Lemma plain_talking {A} (m : T A) : only talking m -> only plain m.
Proof. intros Hm. eapply only_mono; [exact Hm|]. by intros []. Qed.
Lemma calm_plain {A} (m : T A) : only plain m -> only calm m.
Proof. intros Hm. eapply only_mono; [exact Hm|]. by left. Qed.

Lemma plain_close_all fds : only plain (close_all fds : T unit).
Proof. apply plain_talking, talking_close_all. Qed.
Lemma plain_readiness minimum : only plain (readiness_pipe minimum : T _).
Proof.
  apply only_bind; [by apply ask_plain|]. intros p. apply only_bind; [no_calls|]. intros [? ?].
  apply only_bind; [by apply ask_plain|]. intros [d|e]; (apply only_bind; [|intros _; no_calls]); [by apply ask_plain|apply plain_close_all].
Qed.
Lemma plain_duplicate minimum mappings : forall made, only plain (duplicate_sources minimum mappings made : T _).
Proof.
  induction mappings as [|[? ?] r IH]; intros made; cbn [duplicate_sources]; [no_calls|].
  apply only_bind; [by apply ask_plain|]. intros [d|e]; (apply only_bind; [|intros _]).
  - by apply ask_plain.
  - apply IH.
  - apply plain_close_all.
  - no_calls.
Qed.
Lemma calm_on_nested {A} root (m : M (traced (NestedSandboxRoot * W) MountEvent) A) : only calm (on_nested root m : T _).
Proof.
  intros s r s' E'. unfold on_nested in E'. destruct (m _) as [x [nw ev]]. injection E' as <- <-. exists (map ENested ev).
  split; [done|]. apply Forall_map, Forall_true. intros n. right. by exists n.
Qed.
Lemma calm_drop_nested nested : only calm (drop_nested nested : T unit).
Proof. destruct nested; [|no_calls]. apply only_bind; [apply calm_on_nested|]. intros _. no_calls. Qed.
Lemma calm_create pid next_sequence tree_depth context : only calm (create_nested pid next_sequence tree_depth context : T _).
Proof.
  apply only_bind; [by apply emits_quiet; constructor|]. intros n. apply only_bind; [apply calm_on_nested|]. intros r.
  apply only_bind; [no_calls|]. intros _. no_calls.
Qed.
Lemma calm_drop_sources nested fds : only calm (_ ← drop_nested nested; close_all fds : T unit).
Proof. apply only_bind; [apply calm_drop_nested|]. intros _. apply calm_plain, plain_close_all. Qed.
Lemma calm_drop_pipe nested fds : only calm (_ ← close_all fds; drop_nested nested : T unit).
Proof. apply only_bind; [apply calm_plain, plain_close_all|]. intros _. apply calm_drop_nested. Qed.

Lemma plain_tree {A} (m : M (traced (service W) TreeEvent) A) :
  mirrored (Forall plain) A m -> only plain (run_tree m).
Proof.
  intros Hm s r s' E'. unfold run_tree in E'. destruct (m (s, [])) as [x s1] eqn:E1. injection E' as <- <-.
  destruct (Hm _ _ _ E1) as (ev & E2 & _ & E4). by exists ev.
Qed.
Lemma plain_closed : closed_under_calls (mirrored (Forall plain)).
Proof. apply mirrored_closed; [constructor|intros a b ? ?; by apply Forall_app|by repeat constructor]. Qed.

(** *** What the parts return *)

Lemma own_fds_returns raw : forall owned, emits (own_fds raw owned : T _) (fun r _ => forall l, r = Ok (Some l) -> l = owned ++ raw).
Proof.
  induction raw as [|fd raw IH]; intros owned; cbn [own_fds].
  - apply emits_ret. intros l [= <-]. by rewrite app_nil_r.
  - assert (forall m : T unit, only talking m -> emits (_ ← m; mret None : T (option (list Z))) (fun r _ => forall l, r = Ok (Some l) -> l = owned ++ fd :: raw)) as Hn.
    { intros m Hm. eapply emits_bind; [exact Hm| |done]. intros _ ev _. by apply emits_ret. }
    destruct (_ <? _)%Z; [apply Hn, talking_close_all|]. apply emits_ask_bind. intros [].
    + eapply emits_mono; [apply IH|]. intros r ev Hl l ->. rewrite (Hl l eq_refl). by rewrite <- app_assoc.
    + apply emits_ask_bind. intros _. eapply emits_bind; [apply talking_close_all| |done]. intros _ ev _. by apply emits_ret.
Qed.

Lemma receive_returns fd : emits (receive_packet fd : T _) (fun r ev => forall packet fds, r = Ok (Some (packet, fds)) ->
  exists m, EReceive (Some m) ∈ ev /\ packet = rm_packet m /\ fds = concat (map message_fds (rm_control m))).
Proof.
  apply emits_ask_bind. intros [m|]; [|by apply emits_ret].
  set (Q := fun (r : result (option (bytes * list Z))) ev => forall packet fds, r = Ok (Some (packet, fds)) ->
    exists m', EReceive (Some m') ∈ EReceive (Some m) :: ev /\ packet = rm_packet m' /\ fds = concat (map message_fds (rm_control m'))).
  assert (forall fds, emits (_ ← close_fds fds; mret None : T (option (bytes * list Z))) Q) as Hc.
  { intros fds. eapply emits_bind; [apply talking_close_all| |done]. intros _ ev _. by apply emits_ret. }
  destruct (rm_truncated m); [apply Hc|]. destruct (parse_frame (rm_packet m)) as [[[[? ?] ?] expected]|]; [|apply Hc].
  destruct (control_fds [] (rm_control m)) as [raw|] eqn:E'; [|apply Hc]. destruct (negb _); [apply Hc|].
  apply control_fds_all in E' as ->. cbn [app].
  eapply emits_bind; [apply own_fds_returns| |done]. intros [l|] ev Hl; [|by apply emits_ret]. apply emits_ret.
  intros packet fds [= <- <-]. exists m. split; [left|]. split; [done|]. by apply Hl.
Qed.

Lemma duplicate_returns minimum mappings : forall made, emits (duplicate_sources minimum mappings made : T _) (fun r ev =>
  forall l, r = Ok l -> exists l', l = made ++ l' /\ Forall2 (duplicated ev minimum) mappings l').
Proof.
  induction mappings as [|[target source] r IH]; intros made; cbn [duplicate_sources].
  - apply emits_ret. intros l [= <-]. exists []. by rewrite app_nil_r.
  - apply emits_ask_bind. intros [d|e].
    + apply emits_ask_bind. intros _. eapply emits_mono; [apply IH|]. intros x ev Hl l ->.
      destruct (Hl l eq_refl) as (l' & -> & Hf). exists ((target, d) :: l'). rewrite <- app_assoc. split; [done|].
      constructor; [split; [done|left]|]. eapply Forall2_impl; [exact Hf|]. intros a b [? ?]. split; [done|]. by do 2 right.
    + eapply emits_bind; [apply talking_close_all| |done]. intros _ ev _. by apply emits_fail.
Qed.

(** *** The start *)

Lemma follows_or_drop {A} t (d : T unit) (m : T A) (Q : A -> list BrokerEvent -> Prop) :
  follows t (catch m) (fun r t' => match r with Ok a => Q a t' | Err _ => unstarted t' end) -> only calm d ->
  follows t (or_drop d m) Q.
Proof.
  intros Hm Hd. eapply obeys_bind; [exact Hm|]. intros [a|e] t' _ Ht; [by apply obeys_ret|].
  eapply obeys_bind; [by apply unstarted_follows|]. intros _ t2 _ _. apply obeys_fail.
Qed.
(** A step in front of the start. *)
Lemma follows_before {A} t (d : T unit) (m : T A) : only calm m -> only calm d -> unstarted t ->
  follows t (or_drop d m) (fun _ t' => unstarted t').
Proof.
  intros Hm Hd Hu. apply follows_or_drop; [|done]. eapply obeys_mono; [by apply unstarted_follows; [apply emits_catch|]|]. by intros [].
Qed.

Lemma asked_prefix t t' r : t `prefix_of` t' -> asked t r -> asked t' r.
Proof.
  intros [k ->] (m & request & len & n & Hm & ?). exists m, request, len, n. split; [|done]. apply elem_of_app. by left.
Qed.

Lemma start_emits context root request environment readiness mappings :
  emits (start_process context root request environment readiness mappings : T Z) (fun r ev =>
    (ev = [] /\ is_ok r = false) \/ exists x, ev = [ESpawn mappings x] /\ match r with Ok pid => x = inl pid | Err _ => forall pid, x <> inl pid end).
Proof.
  eapply emits_bind; [apply (emits_quiet _ (fun _ ev => ev = [])); done| |].
  - intros c ev ->. apply emits_ask_bind. intros x. apply emits_lift. right. exists x. split; [done|]. by destruct x.
  - intros e ev ->. by left.
Qed.

Lemma start_follows context root request environment readiness mappings t : unstarted t ->
  (exists r, asked t r /\ Forall2 (duplicated t (minimum_source (sp_mappings r))) (sp_mappings r) mappings) ->
  follows t (catch (start_process context root request environment readiness mappings))
    (fun r t' => match r with Ok pid => running pid t' | Err _ => unstarted t' end).
Proof.
  intros Hu Hj s r s' <- Ht E'. unfold catch in E'. destruct (start_process _ _ _ _ _ _ s) as [o s1] eqn:E1. injection E' as <- <-.
  destruct (start_emits _ _ _ _ _ _ _ _ _ E1) as (ev & -> & [[-> Ho]|(x & -> & Hx)]).
  - rewrite app_nil_r. by destruct o.
  - split; [by apply lawful_snoc|]. split; [by eexists|]. destruct o as [pid|e].
    + subst x. split; [exists mappings; apply elem_of_app; right; left|]. intros maps pid'.
      intros [Hin|E2%list_elem_of_singleton]%elem_of_app; [by apply Hu in Hin|by injection E2].
    + intros maps pid'. intros [Hin|E2%list_elem_of_singleton]%elem_of_app; [by apply Hu in Hin|]. injection E2 as _ <-. by eapply Hx.
Qed.

Lemma launch_follows context nested request t : unstarted t -> asked t request ->
  follows t (launch_in context nested request) (fun s t' => running (sd_child s) t').
Proof.
  intros Hu Hask. unfold launch_in. set (drop_sources := _ ← drop_nested nested; close_all _).
  assert (only calm drop_sources) as Hd by apply calm_drop_sources.
  eapply obeys_bind; [apply follows_before; [no_calls|done|done]|]. intros environment t1 P1 U1. cbv zeta.
  eapply obeys_bind; [apply follows_before; [|done|done]|].
  { apply calm_plain, only_if; [apply emits_fmap, plain_readiness|no_calls]. }
  intros p t2 P2 U2. set (drop_pipe := _ ← close_all (pipe_fds p); _).
  assert (only calm drop_pipe) as Hp by apply calm_drop_pipe.
  eapply (obeys_bind _ _ _ _ (fun l t' => unstarted t' /\ Forall2 (duplicated t' (minimum_source (sp_mappings request))) (sp_mappings request) l)).
  { apply follows_or_drop; [|done].
    assert (emits (catch (duplicate_sources (minimum_source (sp_mappings request)) (sp_mappings request) []))
      (fun r ev => forall l, r = Ok (Ok l) -> Forall2 (duplicated ev (minimum_source (sp_mappings request))) (sp_mappings request) l)) as Hdup.
    { apply emits_catch. eapply emits_mono; [apply duplicate_returns|]. intros r ev Hl l [= ->].
      by destruct (Hl l eq_refl) as (l' & -> & Hf). }
    eapply obeys_mono; [apply obeys_emits; [apply unstarted_follows; [apply emits_catch, calm_plain, plain_duplicate|done]|exact Hdup]|].
    intros [l|e] t' _ (Hu' & ev & -> & Hl); [|done]. split; [done|].
    eapply Forall2_impl; [by apply Hl|]. intros a b [? ?]. split; [done|]. apply elem_of_app. by right. }
  intros l t3 P3 [U3 Hf]. eapply obeys_bind.
  { apply follows_or_drop; [apply start_follows; [exact U3|]|].
    - exists request. split; [|exact Hf]. eapply asked_prefix; [|exact Hask]. by do 2 (etrans; [eassumption|]).
    - apply only_bind; [apply calm_plain, plain_close_all|done]. }
  intros child t4 _ R4. eapply obeys_bind; [apply running_follows; [apply plain_close_all|exact R4]|]. intros u5 t5 _ R5.
  eapply obeys_bind; [apply running_follows; [apply plain_close_all|exact R5]|]. intros u6 t6 _ R6. by apply obeys_ret.
Qed.

Lemma spawn_follows pid next_sequence tree_depth context request t : unstarted t -> asked t request ->
  follows t (spawn_in_existing_sandbox pid next_sequence tree_depth context request) (fun s t' => running (sd_child s) t').
Proof.
  intros Hu Hask. unfold spawn_in_existing_sandbox. cbv zeta.
  assert (forall e, follows t (_ ← close_all (map snd (sp_mappings request)); fail e) (fun s t' => running (sd_child s) t')) as Hd.
  { intros e. eapply obeys_bind; [apply unstarted_follows; [apply calm_plain, plain_close_all|done]|].
    intros _ t' _ _. apply obeys_fail. }
  destruct (negb _); [apply Hd|]. destruct (negb _); [apply Hd|]. eapply (obeys_bind _ _ _ _ (fun _ t' => unstarted t')).
  - destruct (flag_set _ _); [|by apply obeys_ret].
    apply unstarted_follows; [|done]. apply emits_fmap. apply only_bind; [apply emits_catch, calm_create|].
    intros [n|e]; [no_calls|]. apply only_bind; [apply calm_plain, plain_close_all|]. intros _. no_calls.
  - intros nested t1 P1 U1. apply launch_follows; [done|]. by eapply asked_prefix.
Qed.

(** *** The end *)

Lemma running_snoc pid t e : running pid t -> (forall mappings r, ESpawn mappings r <> e) -> running pid (t ++ [e]).
Proof.
  intros [(maps & E1) E2] He. split; [exists maps; by apply snoc_before|]. intros maps' pid' Hin%snoc_other; [by eapply E2|apply He].
Qed.

Lemma plain_drop_tree tree : only plain (drop_tree tree : T unit).
Proof.
  apply only_bind; [apply emits_catch, plain_tree, (closed_terminate _ plain_closed)|]. intros r. apply emits_note. by repeat constructor.
Qed.
Lemma drop_tree_follows pid t : running pid t -> follows t (drop_tree pid) (fun _ t' => processes_over t').
Proof.
  intros Hr. eapply obeys_bind; [apply running_follows; [apply emits_catch, plain_tree, (closed_terminate _ plain_closed)|exact Hr]|].
  intros r t' _ Hr'. apply obeys_note; [done|]. intros maps pid' Hin%snoc_other; [|done].
  rewrite (proj2 Hr' _ _ Hin). left. exists r. apply elem_of_app. right. by left.
Qed.

(** An early return, with nothing but calm calls to make. *)
Lemma leave_follows fd t (d : T unit) : processes_over t -> only calm d -> follows t (leave fd d) (fun _ _ => True).
Proof.
  intros Ho Hd. eapply obeys_mono; [apply over_follows; [|exact Ho]|done].
  apply only_bind; [by apply calm_plain, ask_plain|]. intros _. apply only_bind; [done|]. intros _.
  apply only_bind; [by apply calm_plain, ask_plain|]. intros _. no_calls.
Qed.
Lemma calm_drop_spawned s : only calm (drop_spawned s : T unit).
Proof. apply only_bind; [apply calm_drop_nested|]. intros _. apply calm_plain, plain_close_all. Qed.
Lemma plain_finish fd : only plain (finish fd : T _).
Proof. apply only_bind; [by apply ask_plain|]. intros _. apply only_bind; [by apply ask_plain|]. intros _. no_calls. Qed.

Lemma leave_running pid fd s t : running pid t -> follows t (leave fd (_ ← drop_tree pid; drop_spawned s)) (fun _ _ => True).
Proof.
  intros Hr. eapply obeys_bind; [apply (running_follows pid); [by apply ask_plain|exact Hr]|]. intros u t1 _ R1.
  eapply obeys_bind with (Q := fun _ t' => processes_over t').
  - eapply obeys_bind; [apply drop_tree_follows, R1|]. intros u2 t2 _ O2. apply over_follows; [apply calm_drop_spawned|exact O2].
  - intros u3 t3 _ O3. eapply obeys_mono; [apply over_follows; [|exact O3]|done].
    apply only_bind; [by apply calm_plain, ask_plain|]. intros _. no_calls.
Qed.

Lemma abandon_follows fuel fd pid s t : running pid t -> follows t (abandon fuel fd pid s) (fun _ _ => True).
Proof.
  intros Hr. eapply obeys_bind; [apply running_follows; [|exact Hr]|].
  - apply emits_catch, plain_tree, (closed_wait _ plain_closed), closed_ret, plain_closed.
  - intros w t1 _ R1. destruct w as [[st|]|e]; [by apply leave_running|by apply obeys_ret|by apply leave_running].
Qed.

(** *** The client is told *)

Lemma accepted_prefix t t' request pid : t `prefix_of` t' -> accepted t request pid -> accepted t' request pid.
Proof. intros [k ->] Ha. apply elem_of_app. by left. Qed.

Lemma plain_ready fd rounds : forall got, only plain (read_ready rounds fd got : T bytes).
Proof.
  induction rounds as [|rounds IH]; intros got; cbn [read_ready]; [no_calls|].
  apply only_bind; [by apply ask_plain|]. intros [[|b l]|e]; [no_calls| |no_calls]. cbv zeta. apply only_if; [apply IH|no_calls].
Qed.
Lemma complete_follows fd request pid started expose t : running pid t -> accepted t request pid ->
  follows t (complete_spawn_start_notification fd request (Z.to_N pid) started expose) (fun _ t' => running pid t').
Proof.
  intros Hr Ha. destruct started as [st|]; [|by apply obeys_ret]. eapply obeys_bind; [apply running_follows; [|exact Hr]|].
  - apply emits_catch, only_bind; [apply plain_ready|]. intros b. cbv zeta. apply only_if; no_calls.
  - intros r t1 P1 R1. cbv zeta. apply obeys_ask; [|intros ok; by apply running_snoc].
    intros ok. split_and!; [done| |done]. intros _. eexists pid, _. split; [by eapply accepted_prefix|done].
Qed.

Lemma plain_watch_owner fuel fd request watch_bus owner : only plain (watch_owner fuel fd request watch_bus owner : T _).
Proof.
  induction fuel as [|fuel IH]; cbn [watch_owner]; [no_calls|]. apply only_if; [no_calls|].
  apply only_bind; [by apply ask_plain|]. intros b. apply only_if; [no_calls|].
  apply only_bind; [by apply emits_quiet; constructor|]. intros t. apply only_bind.
  { apply only_if; [no_calls|]. apply only_bind; [apply plain_talking, talking_watch|]. intros r. apply only_if; no_calls. }
  intros _. apply only_bind; [by apply emits_quiet; constructor|]. intros t'. apply only_bind.
  { apply only_if; [|no_calls]. destruct owner; [|no_calls]. apply only_bind; [|intros r; no_calls].
    apply emits_catch, plain_tree, (closed_orphaned _ plain_closed). }
  intros [[]|]; [no_calls| |no_calls]. apply only_bind; [by apply ask_plain|done].
Qed.

(** The wait: the status is the process's, and its tree is empty. *)
Lemma wait_returns fuel fd request watch_bus pid :
  emits (run_tree (wait_for_exit_with_signal fuel pid pid (quiet (requested_signal fd request watch_bus))) : T _) (fun r ev =>
    Forall plain ev /\ forall st, r = Ok (Some st) -> ETryWait pid (inl (Some st)) ∈ tree_events ev /\ ends_empty pid (tree_events ev)).
Proof.
  apply (run_tree_emits (Forall plain) _ (fun r l => forall st, r = Ok (Some st) -> ETryWait pid (inl (Some st)) ∈ l /\ ends_empty pid l)).
  - apply (closed_wait_loop _ plain_closed), mirrored_quiet. eapply emits_mono; [apply talking_signal|]. intros r ev Hev.
    split; [eapply Forall_impl; [exact Hev|by intros []]|by apply talking_no_tree].
  - eapply emits_mono; [apply wait_loop_emits; by apply emits_quiet; constructor|]. intros r ev Hev st Hr.
    by destruct (Hev st Hr) as [[?|?] ?].
Qed.
Lemma tree_event_in e t : e ∈ tree_events t -> ETree e ∈ t.
Proof. intros (x & Hx & E')%list_elem_of_omap. by destruct x; try done; injection E' as ->. Qed.

(** Behind the wait: the end is reported, and the caller watched on for. *)
Lemma report_follows fd request pid st t : running pid t -> accepted t request pid ->
  ETree (ETryWait pid (inl (Some st))) ∈ t -> ends_empty pid (tree_events t) ->
  follows t (_ ← send_frame fd SPAWN_EXITED request (to_be_bytes (Z.to_N pid) ++ to_be_bytes (raw_wait_status st)); mret tt)
    (fun _ t' => running pid t').
Proof.
  intros Hr Ha Hw He. eapply obeys_bind; [|intros ok t' _ Ht; by apply obeys_ret; exact Ht].
  apply obeys_ask; [|intros ok; by apply running_snoc]. intros ok. split_and!; [done..|]. intros _. by exists pid, st.
Qed.

Lemma follow_follows fuel fd request flags owner s t : running (sd_child s) t ->
  follows t (follow fuel fd request flags owner (sd_child s) s) (fun _ _ => True).
Proof.
  intros Hr. unfold follow. cbv zeta. set (pid := sd_child s) in *.
  eapply (obeys_bind _ _ _ _ (fun (ok : bool) t' => running pid t' /\ (ok = true -> accepted t' request pid))).
  { apply obeys_ask.
    - intros ok. destruct Hr as [(maps & Hin) _]. split_and!; [intros _; by exists maps, pid|done..].
    - intros ok. split; [by apply running_snoc|]. intros ->. apply elem_of_app. right. by left. }
  intros ok t1 P1 [R1 A1]. destruct ok; cbn [negb]; [|by apply abandon_follows]. specialize (A1 eq_refl).
  eapply obeys_bind; [by apply complete_follows|]. intros ok t2 P2 R2. destruct ok; cbn [negb]; [|by apply abandon_follows].
  assert (accepted t2 request pid) as A2 by by eapply accepted_prefix.
  eapply (obeys_bind _ _ _ _ (fun r t' => running pid t' /\ exists ev, t' = t2 ++ ev /\ forall st, r = Ok (Some st) ->
    ETryWait pid (inl (Some st)) ∈ tree_events ev /\ ends_empty pid (tree_events ev))).
  { assert (emits (catch (run_tree (wait_for_exit_with_signal fuel pid pid (quiet (requested_signal fd request (flag_set flags SPAWN_WATCH_BUS))))))
      (fun r ev => Forall plain ev /\ forall x st, r = Ok x -> x = Ok (Some st) -> ETryWait pid (inl (Some st)) ∈ tree_events ev /\ ends_empty pid (tree_events ev))) as Hw.
    { apply emits_catch. eapply emits_mono; [apply wait_returns|]. intros r ev [E1 E2]. split; [done|]. intros x st [= <-]. apply E2. }
    eapply obeys_mono; [apply obeys_emits; [apply running_follows; [|exact R2]|exact Hw]|].
    - eapply emits_mono; [exact Hw|]. by intros r ev [].
    - intros r t' _ (R' & ev & -> & _ & Hev). split; [done|]. exists ev. split; [done|]. intros st Hst. by apply (Hev r). }
  intros status t3 P3 (R3 & ev & -> & Hst).
  assert (forall t, running pid t -> follows t (watched ← watch_owner fuel fd request (flag_set flags SPAWN_WATCH_BUS) owner;
    match watched with None => mret None | Some _ => _ ← drop_tree pid; _ ← drop_spawned s; finish fd end) (fun _ _ => True)) as Hend.
  { intros t' Ht'. eapply obeys_bind; [apply running_follows; [apply plain_watch_owner|exact Ht']|].
    intros [[]|] t4 _ R4; [|by apply obeys_ret]. eapply obeys_bind; [apply drop_tree_follows, R4|]. intros u5 t5 _ O5.
    eapply obeys_bind; [apply over_follows; [apply calm_drop_spawned|exact O5]|]. intros u6 t6 _ O6.
    eapply obeys_mono; [apply over_follows; [apply calm_plain, plain_finish|exact O6]|done]. }
  assert (running pid (t2 ++ ev) -> follows (t2 ++ ev) (_ ← (mret tt : T unit); (watched ← watch_owner fuel fd request (flag_set flags SPAWN_WATCH_BUS) owner;
    match watched with None => mret None | Some _ => _ ← drop_tree pid; _ ← drop_spawned s; finish fd end)) (fun _ _ => True)) as Hnone by apply Hend.
  destruct status as [[st|]|e]; [|by apply obeys_ret|by apply Hnone].
  destruct (Hst st eq_refl) as [Hw He]. eapply obeys_bind; [apply report_follows; [exact R3|by eapply accepted_prefix| |]|].
  - apply elem_of_app. right. by apply tree_event_in.
  - rewrite tree_events_app. by apply ends_empty_app.
  - intros u t5 _ R5. apply Hend, R5.
Qed.

(** Calls that need no justification, in any trace. *)
Lemma plain_follows {A} t (m : T A) : only plain m -> follows t m (fun _ _ => True).
Proof.
  intros Hm. eapply obeys_mono; [apply (obeys_steady service_allowed (fun _ => True) plain); [|exact Hm|exact I]|done].
  intros t' e _ He. split; [|exact I]. destruct e; try done; [|by destruct e]. destruct He as (? & ? & ?). by split_and!.
Qed.
Lemma plain_leave fd : only plain (leave fd (mret tt) : T _).
Proof.
  apply only_bind; [by apply ask_plain|]. intros _. apply only_bind; [no_calls|]. intros _. apply only_bind; [by apply ask_plain|].
  intros _. no_calls.
Qed.
Lemma follows_catch {A} t (m : T A) Q : follows t m Q ->
  follows t (catch m) (fun r t' => match r with Ok a => Q a t' | Err _ => True end).
Proof.
  intros Hm s r s' Es Ht E'. unfold catch in E'. destruct (m s) as [o s1] eqn:E1. injection E' as <- <-.
  exact (Hm _ _ _ Es Ht E1).
Qed.

Lemma spawn_request_follows pid next_sequence tree_depth context fuel fd request payload fds t :
  unstarted t -> (forall r, parse_spawn payload fds = Ok r -> asked t r) ->
  follows t (handle_spawn pid next_sequence tree_depth context fuel fd request payload fds) (fun _ _ => True).
Proof.
  intros Hu Ha. unfold handle_spawn. destruct (parse_spawn payload fds) as [rq|e] eqn:Eq; cycle 1.
  { eapply obeys_bind; [apply unstarted_follows; [apply calm_plain, plain_close_all|exact Hu]|]. intros u t1 _ U1.
    apply leave_follows; [by apply unstarted_over|no_calls]. }
  specialize (Ha rq eq_refl). cbv zeta. eapply obeys_bind; [apply unstarted_follows; [apply emits_catch|exact Hu]|].
  { intros x r x' E'. unfold resolve_watch_bus_owner in E'.
    destruct (flag_set _ _); [destruct (_ =? 0)%N|]; cbn [negb] in E'.
    2: { destruct (run_tree _ x) as [y x1] eqn:E1. injection E' as <- <-.
         destruct (plain_tree _ (closed_subtree_for _ plain_closed _) _ _ _ E1) as (ev & E2 & E3). exists ev. split; [done|].
         eapply Forall_impl; [exact E3|]. by left. }
    all: injection E' as <- <-; exists []; rewrite app_nil_r; by split. }
  intros [owner|e] t1 P1 U1; [|apply leave_follows; [by apply unstarted_over|apply calm_plain, plain_close_all]].
  eapply obeys_bind; [apply follows_catch, spawn_follows; [exact U1|by eapply asked_prefix]|].
  intros [s|e] t2 P2 R2; [|by apply plain_follows; apply plain_leave].
  destruct (track (sd_child s)) as [tree|e] eqn:Et.
  - assert (tree = sd_child s) as ->.
    { unfold track, to_pid_t in Et. destruct (_ <? _)%Z; [|done]. by apply Ok_inj in Et. }
    by apply follow_follows.
  - eapply obeys_bind; [apply running_follows; [by apply ask_plain|exact R2]|]. intros u3 t3 P3 R3.
    eapply (obeys_bind _ _ _ _ (fun _ t' => processes_over t')).
    + apply obeys_ask; [done|]. intros []. intros maps p Hin%snoc_other; [|done]. rewrite (proj2 R3 _ _ Hin). right.
      apply elem_of_app. right. by left.
    + intros u4 t4 P4 O4. apply leave_follows; [exact O4|apply calm_drop_spawned].
Qed.

Lemma other_plain fd kind request fds : only plain (other_request fd kind request fds : T unit).
Proof.
  assert (forall m pl, m <> SPAWN_ACCEPTED -> m <> SPAWN_STARTED -> m <> SPAWN_EXITED ->
    only plain (_ ← send_frame fd m request pl; mret tt : T unit)) as Hsend.
  { intros m pl ???. apply only_bind; [by apply ask_plain|]. intros _. no_calls. }
  unfold other_request. apply only_if; [by apply Hsend|]. apply only_if.
  - destruct fds as [|source [|? ?]]; [no_calls| |no_calls]. apply only_bind; [by apply ask_plain|].
    intros [[|b [|? ?]]|e]; try no_calls. apply only_if; [by apply Hsend|no_calls].
  - apply only_if; [|no_calls]. apply only_bind; [by apply ask_plain|]. intros ok. apply only_if; [no_calls|].
    apply only_bind; [|intros _; apply only_bind; [by apply ask_plain|]; intros b; apply only_if; [no_calls|by apply Hsend]].
    generalize 50%nat. intros n. induction n as [|n IH]; cbn [lifecycle_wait]; [no_calls|].
    apply only_bind; [by apply ask_plain|]. intros b. apply only_if; [no_calls|]. apply only_bind; [by apply ask_plain|done].
Qed.

Lemma connection_follows pid next_sequence tree_depth context fuel fd :
  follows [] (handle_connection pid next_sequence tree_depth context fuel fd) (fun _ _ => True).
Proof.
  assert (unstarted []) as Hu by (intros ? ? []%elem_of_nil).
  eapply obeys_bind; [apply obeys_emits; [apply unstarted_follows; [apply calm_plain, plain_talking, talking_receive|exact Hu]|apply receive_returns]|].
  intros [[packet fds]|] t1 P1 (U1 & ev & E1 & Hev); [|by apply plain_follows, plain_finish].
  destruct (parse_frame packet) as [[[[kind request] len] n]|] eqn:Ef.
  - destruct (N.eqb_spec kind SPAWN) as [->|Hk].
    + apply spawn_request_follows; [exact U1|]. intros r Hr. destruct (Hev packet fds eq_refl) as (m & Hm & -> & ->).
      exists m, request, len, n. split; [|done]. by rewrite E1.
    + apply plain_follows. apply only_bind; [apply other_plain|]. intros _. apply only_bind; [apply plain_close_all|].
      intros _. apply plain_finish.
  - apply plain_follows. apply only_bind; [apply plain_close_all|]. intros _. apply plain_finish.
Qed.
End Order.

(** ** Lemmas: the descriptors of the child *)

Lemma greatest_bound l : forall a, (a <= foldl Z.max a l)%Z /\ Forall (fun x => x <= foldl Z.max a l)%Z l.
Proof.
  induction l as [|b l IH]; intros a; [by split|]. cbn [foldl]. destruct (IH (Z.max a b)) as [E1 E2].
  split; [lia|]. constructor; [lia|done].
Qed.
Lemma minimum_above_targets mappings : Forall (fun m => 0 <= m.1 <= MAX_TARGET_FD)%Z mappings ->
  Forall (fun m => m.1 < minimum_source mappings)%Z mappings.
Proof.
  unfold minimum_source. destruct mappings as [|m r]; [done|]. intros Hb.
  destruct (greatest_bound (map fst r) m.1) as [E1 E2]. set (g := foldl Z.max m.1 (map fst r)) in *.
  assert (Forall (fun m => m.1 <= g)%Z (m :: r)) as Hg by (constructor; [done|exact (proj1 (List.Forall_map _ _ _) E2)]).
  apply Forall_forall. intros x Hx. pose proof (proj1 (Forall_forall _ _) Hg x Hx) as E3.
  pose proof (proj1 (Forall_forall _ _) Hb x Hx) as [_ E4]. cbn beta in E3. destruct (Z.ltb_spec g (2 ^ 31 - 1)); [lia|].
  exfalso. clear -Hb H. assert (g <= MAX_TARGET_FD)%Z as Hle; [|unfold MAX_TARGET_FD in Hle; lia].
  unfold g. clear H g. inversion_clear Hb as [|? ? [_ Hm] Hr]. revert Hm. generalize m.1. induction r as [|b r IH]; intros a Ha; [done|].
  inversion_clear Hr as [|? ? [_ ?] ?]. cbn [map foldl]. apply IH; [done|lia].
Qed.

Lemma map_fds_spec mappings : forall table, NoDup (map fst mappings) ->
  (forall m, m ∈ mappings -> m.2 ∉ map fst mappings) -> (forall m, m ∈ mappings -> is_Some (table !! m.2)) ->
  exists table', map_fds_in_child mappings table = Some table' /\
    (forall target d, (target, d) ∈ mappings -> exists f, table' !! target = Some (f, false) /\ fst <$> table !! d = Some f) /\
    (forall fd, fd ∉ map fst mappings -> table' !! fd = table !! fd).
Proof.
  induction mappings as [|[target source] r IH]; intros table Hn Hd Hopen; cbn [map_fds_in_child].
  - exists table. split_and!; [done|by intros ? ? ?%elem_of_nil|done].
  - apply NoDup_cons in Hn as [Hnin Hn]. destruct (Hopen (target, source)) as [[f c] Hf]; [left|]. cbn [snd] in Hf.
    assert (target <> source) as Hne. { intros ->. apply (Hd (source, source)); [left|]. left. }
    assert (dup2 source target table = Some (<[target := (f, false)]> table)) as ->.
    { unfold dup2. rewrite Hf. cbn. by rewrite (proj2 (Z.eqb_neq _ _)). }
    cbn [mbind option_bind]. unfold clear_cloexec. rewrite lookup_insert_eq. cbn [mbind option_bind fst].
    rewrite insert_insert_eq. destruct (IH (<[target := (f, false)]> table)) as (table' & E1 & E2 & E3); [done| | |].
    + intros m Hm Hin. apply (Hd m); [by right|by right].
    + intros m Hm. rewrite lookup_insert_ne; [apply Hopen; by right|]. intros ->. apply (Hd m); [by right|left].
    + exists table'. split; [exact E1|]. split.
      * intros t d [[= -> ->]|Hin]%elem_of_cons.
        -- exists f. split; [by rewrite E3, lookup_insert_eq|by rewrite Hf].
        -- destruct (E2 t d Hin) as (g & ? & Hg). exists g. split; [done|].
           rewrite lookup_insert_ne in Hg; [done|]. intros ->. apply (Hd (t, d)); [by right|left].
      * intros fd Hnot. cbn in Hnot. apply not_elem_of_cons in Hnot as [? ?]. by rewrite E3, lookup_insert_ne.
Qed.

(** ** Theorems *)


Section Theorems.
Context {W : Type} `{DescriptorLaws W}.

(** C5.  The service of a connection does things in their order: what it starts is
    what a Spawn packet asked for, with a duplicate of each passed descriptor
    for its target; it says that a process was accepted when it was started,
    that it runs when the client knows of it, and that it has exited when its
    status was collected and its tree had no process left; and the nested root is
    unmounted and removed only when the process's tree was ended. *)
Theorem service_keeps_order pid next_sequence tree_depth context fuel fd w r s' :
  handle_connection pid next_sequence tree_depth context fuel fd ((false, w), []) = (r, s') ->
  forall pre e post, s'.2 = pre ++ e :: post -> service_allowed pre e.
Proof.
  intros E'. destruct (connection_follows pid next_sequence tree_depth context fuel fd ((false, w), []) r s' eq_refl (lawful_nil _) E') as (Hl & _).
  exact Hl.
Qed.
End Theorems.

(** The start of the process on the host of BrokerService is allowed, so are the
    three messages. *)
Lemma service_keeps_order_witness :
  exists r s', handle_connection 7 (mret 0%N) 5 example_service 3 5 ((false, example_tree), []) = (r, s') /\
    ESpawn [(1, 50); (9, 51)]%Z (inl 700%Z) ∈ s'.2 /\
    ESend SPAWN_EXITED 1 (to_be_bytes 700 ++ to_be_bytes 256) true ∈ s'.2 /\
    forall pre e post, s'.2 = pre ++ e :: post -> service_allowed pre e.
Proof.
  eexists _, _. split; [vm_compute; reflexivity|].
  split; [cbn [snd]; repeat (first [apply list_elem_of_here | apply list_elem_of_further])|].
  split; [cbn [snd]; repeat (first [apply list_elem_of_here | apply list_elem_of_further])|].
  eapply (service_keeps_order 7 (mret 0%N) 5 example_service 3 5 example_tree). vm_compute. reflexivity.
Defined.

