(* ===== verification/Update.v ===== *)
(** * Update: what the update command acts on
    (src/src/cli/update.rs)

    The command updates the runtimes that its operands name, or all of them, and
    then the applications, each from the remote it came from.  The theorems say
    which runtimes a request selects, and that an installed runtime which its
    remote no longer lists keeps the plain command from updating any
    application. *)
From Stdlib Require Import Ascii String NArith ZArith Lia.
From stdpp Require Import base list strings sets.
From S2P Require Import Prelude Effects Collections Gzip RustStr RustNum RustPath HostFs FlatpakRef InstallationPaths Processes Records RunRecords Uninstall ExtensionPoints RemoteConfig ExtraData CheckoutActivation RefResolution OstreeSummary OstreeRepository MetadataLock MetadataCache ApplicationInstallation Reconciliation.

Record UpdateOptions := mkUpdate {
  uo_transaction : TransactionOptions; uo_commit : option string; uo_no_related : bool; uo_kind : option RefKind;
  uo_refs : list string }.
Record UpdateTarget := mkTarget { ut_record : AppRecord; ut_remote : option RemoteApp }.
Record UpdateStatus := mkStatus {
  app_changed : bool; app_checkout_stale : bool; runtime_changed : bool; runtime_checkout_stale : bool;
  current_runtime_commit : option string }.
Record ResolvedUpdate := mkResolvedUpdate { ru_record : AppRecord; ru_remote : RemoteApp; ru_status : UpdateStatus }.

(** ** The command line *)

Definition value_after_equals (arg : string) : string :=
  match split_once "=" arg with Some (_, v) => v | None => "" end.

Definition set_commit (o : UpdateOptions) (v : string) : UpdateOptions :=
  mkUpdate (uo_transaction o) (Some v) (uo_no_related o) (uo_kind o) (uo_refs o).
Definition set_kind (o : UpdateOptions) (k : RefKind) : result UpdateOptions :=
  k ← set_kind_filter (uo_kind o) k;
  Ok (mkUpdate (uo_transaction o) (uo_commit o) (uo_no_related o) k (uo_refs o)).

Fixpoint update_args (args : list string) (o : UpdateOptions) : result UpdateOptions :=
  match args with
  | [] => Ok o
  | arg :: rest =>
      let '(mkUpdate t c n k refs) := o in
      let once (next : result UpdateOptions) :=
        match c with Some _ => bail "--commit may only be specified once" | None => next end in
      if String.eqb arg "-y" || String.eqb arg "--assumeyes"
      then update_args rest (mkUpdate (mkOptions true (noninteractive t)) c n k refs)
      else if String.eqb arg "--noninteractive" then update_args rest (mkUpdate (mkOptions (assumeyes t) true) c n k refs)
      else if String.eqb arg "--app" then o' ← set_kind o App; update_args rest o'
      else if String.eqb arg "--runtime" then o' ← set_kind o Runtime; update_args rest o'
      else if String.eqb arg "--no-related" then update_args rest (mkUpdate t c true k refs)
      else if String.eqb arg "--commit" then
        once (match rest with
              | [] => bail "missing value for --commit"
              | v :: rest => update_args rest (set_commit o v)
              end)
      else if starts_with "--commit=" arg then once (update_args rest (set_commit o (value_after_equals arg)))
      else if starts_with "-" arg then bail (fmt ["unknown update option: "; arg])
      else update_args rest (mkUpdate t c n k (refs ++ [arg]))
  end.

Definition parse_update_args (args : list string) : result UpdateOptions :=
  o ← update_args args (mkUpdate (mkOptions false false) None false None []);
  match uo_commit o with
  | Some _ => if negb (length (uo_refs o) =? 1)%nat then bail "usage: flatpak update --commit=COMMIT <ref>" else Ok o
  | None => Ok o
  end.

Definition should_update_apps (o : UpdateOptions) (had_requested_refs : bool) : bool :=
  negb (bool_decide (uo_kind o = Some Runtime)) && (negb had_requested_refs || negb (bool_decide (uo_refs o = []))).

(** ** The runtimes that are named *)

(** The loop over the installed runtimes for one request. *)
Definition matched_runtimes (partial : PartialRef) (runtimes : list RuntimeRecord) : result (list RuntimeRecord) :=
  fold_result (fun found r =>
    candidate ← parse_ref (fmt ["runtime/"; runtime_ref r]);
    Ok (if FlatpakRef.matches partial candidate then found ++ [r] else found)) runtimes [].

(** The loop over the applications, left at the first that matches. *)
Fixpoint app_matches (partial : PartialRef) (apps : list AppRecord) : result bool :=
  match apps with
  | [] => Ok false
  | a :: rest =>
      candidate ← parse_ref (app_ref a);
      if FlatpakRef.matches partial candidate then Ok true else app_matches partial rest
  end.

Definition add_target (st : list RuntimeRecord * list string) (r : RuntimeRecord) : list RuntimeRecord * list string :=
  let '(targets, seen) := st in
  if bs_contains (runtime_ref r) seen then st else (targets ++ [r], bs_insert (runtime_ref r) seen).

(** Targets, the runtimes seen and the requests that named one. *)
Definition select_request (o : UpdateOptions) (apps : list AppRecord) (runtimes : list RuntimeRecord)
    (st : list RuntimeRecord * list string * list string) (requested : string)
    : result (list RuntimeRecord * list string * list string) :=
  let '(targets, seen, matched) := st in
  partial ← parse_partial requested;
  k ← effective_kind partial (uo_kind o);
  if bool_decide (k = Some App) then Ok st
  else
    found ← matched_runtimes partial runtimes;
    app_match ← (match k with None => app_matches partial apps | Some _ => Ok false end);
    if app_match && negb (bool_decide (found = []))
    then bail (fmt [requested; " matches both an application and a runtime; use --app or --runtime"])
    else if bool_decide (found = []) then
      if bool_decide (k = Some Runtime) then bail (fmt [requested; " is not installed"]) else Ok st
    else if bool_decide (is_Some (uo_commit o)) && (1 <? length found)%nat
    then bail (fmt [requested; " matches multiple installed runtimes; specify a full ref with --commit"])
    else
      let '(targets, seen) := foldl add_target (targets, seen) found in
      Ok (targets, seen, bs_insert requested matched).

Definition select_targets (o : UpdateOptions) (apps : list AppRecord) (runtimes : list RuntimeRecord)
    : result (list RuntimeRecord * list string) :=
  if bool_decide (uo_refs o = []) then
    Ok (if bool_decide (uo_kind o = Some App) then ([], []) else (runtimes, []))
  else
    st ← fold_result (select_request o apps runtimes) (uo_refs o) ([], [], []);
    Ok (st.1.1, st.2).

Section Update.
Context {W : Type} `{CacheWorld W} `{!RemoteWorld W} `{!Libostree W} `{!StorageOps W} `{!ExtraWorld W} `{SummaryFormat} `{!Terminal W}.
Context (pid : N) (next_sequence : M W N) (process_lookup : W -> Z -> result (option ProcessIdentity)).
Context (inflate : bytes -> result bytes) (patience : nat) (now_nanos : W -> N) (sha256 : string -> string)
  (run_apply_extra : Installation -> path -> path -> path -> bool -> M W unit) (fuel : nat) (detect_facts : W -> ExtensionFacts).
(** The exports to the desktop. *)
Context (export_app : Installation -> AppRecord -> M W unit) (remove_export : Installation -> string -> M W unit).

Definition select_runtime_targets (i : Installation) (o : UpdateOptions) (apps : list AppRecord)
    : M W (list RuntimeRecord * list string) :=
  runtimes ← list_runtimes i;
  lift (select_targets o apps runtimes).

Definition checkout_present (w : W) (d : path) : bool := is_file w (join_path d "metadata") && is_dir w (join_path d "files").

(** The runtimes whose deployment is to be replaced. *)
Definition plan_runtime (i : Installation) (commit : option string) (plans : list (RuntimeRecord * RemoteRuntime))
    (r : RuntimeRecord) : M W (list (RuntimeRecord * RemoteRuntime)) :=
  metadata ← load_remote_metadata i (rt_origin r);
  let full_ref := fmt ["runtime/"; runtime_ref r] in
  remote ← (match commit with
            | Some commit => resolve_runtime_commit metadata full_ref commit
            | None => lift (resolve_exact_runtime metadata full_ref)
            end);
  present ← gets (fun w => checkout_present w (absolute_data_path i (runtime_dir r)));
  mret (if negb (String.eqb (runtime_commit r) (rt_commit remote)) || negb present then plans ++ [(r, remote)] else plans).

(** A loop whose body may not end. *)
Fixpoint each_ended {A} (f : A -> M W (option unit)) (l : list A) : M W (option unit) :=
  match l with
  | [] => mret (Some tt)
  | a :: rest => _ ⇐ f a; each_ended f rest
  end.

Definition update_runtime_targets (i : Installation) (targets : list RuntimeRecord) (options : TransactionOptions)
    (commit : option string) : M W (option unit) :=
  plans ← fold_each (plan_runtime i commit) targets [];
  if bool_decide (plans = []) then mret (Some tt)
  else
    proceed ⇐ confirm_after_preview_with fuel options;
    if negb proceed then mret (Some tt)
    else
      _ ⇐ each_ended (fun p => _ ⇐ update_runtime pid next_sequence inflate patience fuel i p.2 true (explicitly_installed p.1);
                               mret (Some tt)) plans;
      _ ← cleanup_retired_deployments fuel i;
      mret (Some tt).

(** ** What is out of date *)

Definition update_status (i : Installation) (record : AppRecord) (remote : RemoteApp) : M W UpdateStatus :=
  let dir := absolute_data_path i (app_dir record) in
  app_present ← gets (fun w => checkout_present w dir);
  let moved := negb (String.eqb (app_origin record) (ra_origin remote)) || negb (String.eqb (app_id record) (ra_app_id remote))
    || negb (String.eqb (app_ref record) (ra_app_ref remote)) || negb (String.eqb (Records.app_commit record) (ra_app_commit remote)) in
  let app_state_changed := moved || negb (String.eqb (arch record) (ra_arch remote))
    || negb (String.eqb (branch record) (ra_branch remote)) || negb (String.eqb (command record) (ra_command remote)) in
  let app_stale := negb app_present || moved in
  runtime_record ← get_runtime i (ra_runtime_ref remote);
  let same_ref := String.eqb (app_runtime_ref record) (ra_runtime_ref remote) in
  let rdir := match runtime_record with
    | Some r => absolute_data_path i (runtime_dir r)
    | None => if same_ref then absolute_data_path i (app_runtime_dir record)
              else join_path (runtimes i) (runtime_checkout_dir (ra_runtime_ref remote))
    end in
  let available := match runtime_record with
    | Some r => Some (runtime_commit r)
    | None => if same_ref then Some (app_runtime_commit record) else None
    end in
  runtime_present ← gets (fun w => checkout_present w rdir);
  let runtime_stale := match runtime_record with Some r => negb (String.eqb (rt_origin r) (ra_runtime_origin remote)) | None => false end
    || negb runtime_present || negb (bool_decide (available = Some (ra_runtime_commit remote))) in
  let runtime_state_changed := negb (String.eqb (runtime_origin record) (ra_runtime_origin remote)) || negb same_ref
    || negb (String.eqb (app_runtime_commit record) (ra_runtime_commit remote)) in
  mret (mkStatus (app_state_changed || app_stale) app_stale (runtime_state_changed || runtime_stale) runtime_stale
    (Some (app_runtime_commit record))).

(** The applications that are current, and the plans for the others. *)
Definition plan_app (i : Installation) (st : list AppRecord * list ResolvedUpdate) (p : AppRecord * RemoteApp)
    : M W (list AppRecord * list ResolvedUpdate) :=
  let '(record, remote) := p in
  status ← update_status i record remote;
  mret (if negb (app_changed status) && negb (runtime_changed status) then (st.1 ++ [record], st.2)
        else (st.1, st.2 ++ [mkResolvedUpdate record remote status])).

(** The preview names each runtime once and asks whether it is installed. *)
Definition preview_plan (i : Installation) (shown : list string) (p : ResolvedUpdate) : M W (list string) :=
  let rref := ra_runtime_ref (ru_remote p) in
  if runtime_changed (ru_status p) && negb (bs_contains rref shown)
  then _ ← get_runtime i rref; mret (bs_insert rref shown)
  else mret shown.

(** The old runtime of an application that moved to another is forgotten. *)
Definition forget_old_runtime (i : Installation) (old new : string) : M W unit :=
  if String.eqb old new then mret tt
  else
    required ← runtime_is_required i old;
    if required : bool then mret tt
    else
      record ← get_runtime i old;
      match record with
      | Some r =>
          if explicitly_installed r then mret tt
          else _ ← remove_runtime_record i (runtime_ref r); remove_remote_refs i (rt_origin r) [fmt ["runtime/"; runtime_ref r]]
      | None => mret tt
      end.

(** The body of the loop that deploys: what is selected and the runtimes forced
    so far. *)
Definition apply_update (i : Installation) (st : list AppRecord * list string) (p : ResolvedUpdate)
    : M W (option (list AppRecord * list string)) :=
  let '(selected, touched) := st in
  let record := ru_record p in
  let remote := ru_remote p in
  let status := ru_status p in
  let force_runtime := runtime_checkout_stale status && negb (bs_contains (ra_runtime_ref remote) touched) in
  let touched := if runtime_checkout_stale status then bs_insert (ra_runtime_ref remote) touched else touched in
  installed ⇐ update_app pid next_sequence process_lookup inflate patience now_nanos sha256 run_apply_extra fuel i remote
                (app_checkout_stale status) force_runtime;
  installed_record ← record_install pid next_sequence i installed;
  _ ← reconcile_runtime_bindings pid next_sequence i;
  _ ← (if String.eqb (app_id record) (ia_app_id installed) then mret tt
       else
         _ ← remove_export i (app_id record);
         _ ← remove_app_record i (app_id record);
         safe_remove_dir i (app_dir record));
  _ ← export_app i installed_record;
  _ ← forget_old_runtime i (app_runtime_ref record) (ia_runtime_ref installed);
  _ ← cleanup_retired_deployments fuel i;
  mret (Some (selected ++ [installed_record], touched)).

Fixpoint apply_updates (i : Installation) (st : list AppRecord * list string) (l : list ResolvedUpdate)
    : M W (option (list AppRecord * list string)) :=
  match l with
  | [] => mret (Some st)
  | p :: rest => st ⇐ apply_update i st p; apply_updates i st rest
  end.

Definition update_resolved (i : Installation) (resolved : list (AppRecord * RemoteApp)) (options : TransactionOptions)
    (no_related : bool) (metadata : list RemoteMetadata) : M W (option unit) :=
  st ← fold_each (plan_app i) resolved ([], []);
  let selected := st.1 in
  let plans := st.2 in
  let related apps := if no_related : bool then mret (Some tt)
                      else reconcile_extensions_with_metadata pid next_sequence fuel detect_facts i apps false metadata in
  if bool_decide (length plans = 0) then related selected
  else
    _ ← fold_each (preview_plan i) plans [];
    proceed ⇐ confirm_after_preview_with fuel options;
    if negb proceed then mret (Some tt)
    else
      done ⇐ apply_updates i (selected, []) plans;
      related done.1.

(** ** The applications that are named *)

(** The loop over the origins of the installed applications. *)
Fixpoint match_origin (i : Installation) (installed : list AppRecord) (requested : string) (origins : list string)
    : M W (option UpdateTarget) :=
  match origins with
  | [] => mret None
  | origin :: rest =>
      resolved ← catch (resolve_remote_app i (Some origin) requested);
      match resolved with
      | Ok remote =>
          match List.find (fun a => String.eqb (app_origin a) origin && String.eqb (app_id a) (ra_app_id remote)) installed with
          | Some record => mret (Some (mkTarget record (Some remote)))
          | None => match_origin i installed requested rest
          end
      | Err _ => match_origin i installed requested rest
      end
  end.

Definition find_target (i : Installation) (installed : list AppRecord) (requested : string) : M W UpdateTarget :=
  match List.find (fun a => String.eqb (app_id a) requested) installed with
  | Some record => mret (mkTarget record None)
  | None =>
      matched ← match_origin i installed requested (bs_of_list (map app_origin installed));
      lift (ok_or (fmt [requested; " is not installed"]) matched)
  end.

Definition app_targets (i : Installation) (installed : list AppRecord) (refs : list string) : M W (list UpdateTarget) :=
  if bool_decide (refs = []) then mret (map (fun a => mkTarget a None) installed)
  else
    st ← fold_each (fun st requested =>
           target ← find_target i installed requested;
           let id := app_id (ut_record target) in
           mret (if bs_contains id st.2 then st else (st.1 ++ [target], bs_insert id st.2))) refs ([], []);
    mret st.1.

Definition resolve_target (i : Installation) (commit : option string)
    (st : list (AppRecord * RemoteApp) * list (string * RemoteMetadata)) (t : UpdateTarget)
    : M W (list (AppRecord * RemoteApp) * list (string * RemoteMetadata)) :=
  let record := ut_record t in
  let origin := app_origin record in
  loaded ← (match bm_get origin st.2 with
            | Some m => mret m
            | None => in_context (fmt ["load origin "; origin; " for "; app_id record]) (load_remote_metadata i origin)
            end);
  remote ← (match commit with
            | Some commit => resolve_app_commit i loaded (app_ref record) commit
            | None =>
                match ut_remote t with
                | Some remote => mret remote
                | None =>
                    exact ← catch (resolve_exact_ref_with_runtime i loaded (app_ref record));
                    match exact with
                    | Ok remote => mret remote
                    | Err _ => resolve_remote_app i (Some origin) (app_id record)
                    end
                end
            end);
  mret (st.1 ++ [(record, remote)], bm_insert origin loaded st.2).

Definition cmd_update (i : Installation) (args : list string) : M W (option unit) :=
  o ← lift (parse_update_args args);
  let had_requested_refs := negb (bool_decide (uo_refs o = [])) in
  installed ← list_apps i;
  selection ← select_runtime_targets i o installed;
  let runtime_targets := selection.1 in
  let runtime_requests := selection.2 in
  _ ⇐ (if bool_decide (runtime_targets = []) then mret (Some tt)
       else update_runtime_targets i runtime_targets (uo_transaction o) (uo_commit o));
  let refs := List.filter (fun r => negb (bs_contains r runtime_requests)) (uo_refs o) in
  let o := mkUpdate (uo_transaction o) (uo_commit o) (uo_no_related o) (uo_kind o) refs in
  if negb (should_update_apps o had_requested_refs) then mret (Some tt)
  else if bool_decide (installed = []) then
    match refs with
    | app_id :: _ => lift (bail (fmt [app_id; " is not installed"]))
    | [] => mret (Some tt)
    end
  else
    targets ← app_targets i installed refs;
    resolved ← fold_each (resolve_target i (uo_commit o)) targets ([], []);
    update_resolved i resolved.1 (uo_transaction o) (uo_no_related o) (map snd resolved.2).
End Update.

(** ** Which runtimes a request selects *)

Section Selection.
Context (o : UpdateOptions) (apps : list AppRecord) (runtimes : list RuntimeRecord).

(** The request names the runtime. *)
Definition names (requested : string) (r : RuntimeRecord) : Prop :=
  exists partial k c, parse_partial requested = Ok partial /\ effective_kind partial (uo_kind o) = Ok k /\ k <> Some App /\
    parse_ref (fmt ["runtime/"; runtime_ref r]) = Ok c /\ FlatpakRef.matches partial c = true.

Lemma matching_exact partial found : matched_runtimes partial runtimes = Ok found ->
  forall r, r ∈ found <-> r ∈ runtimes /\ exists c, parse_ref (fmt ["runtime/"; runtime_ref r]) = Ok c /\ FlatpakRef.matches partial c = true.
Proof.
  intros E r. assert (r ∈ found <-> False \/ exists a, a ∈ runtimes /\
     (a = r /\ exists c, parse_ref (fmt ["runtime/"; runtime_ref a]) = Ok c /\ FlatpakRef.matches partial c = true)) as ->.
  { revert r. eapply (fold_result_collect (fun s P => forall r, r ∈ s <-> P r) (fun a r => a = r /\
      exists c, parse_ref (fmt ["runtime/"; runtime_ref a]) = Ok c /\ FlatpakRef.matches partial c = true)); [| | |exact E].
    - intros s P Q HPQ HP r. etransitivity; [apply HP|apply HPQ].
    - intros s a s' P _ HP (c & Hc & Es)%bind_ok r. specialize (HP r). injection Es as <-.
      destruct (FlatpakRef.matches partial c) eqn:Em.
      + rewrite elem_of_app, list_elem_of_singleton. split; intros [?|Hr]; [left; tauto| |left; tauto|right; by destruct Hr].
        right. subst. split; [done|]. by exists c.
      + split; [left; tauto|]. intros [?|(_ & c' & Hc' & Hm)]; [tauto|]. congruence.
    - intros r. split; [by intros ?%elem_of_nil|done]. }
  split; [intros [[]|(a & Ha & -> & Hc)]; done|]. intros [Hr Hc]. right. by exists r.
Qed.

(** The targets are different runtimes, the seen ones. *)
Definition targets_ok (targets : list RuntimeRecord) (seen : list string) : Prop :=
  NoDup (map runtime_ref targets) /\ (forall n, n ∈ seen <-> n ∈ map runtime_ref targets).

Lemma add_target_ok targets seen r : targets_ok targets seen ->
  let st := add_target (targets, seen) r in
  targets_ok st.1 st.2 /\ (forall x, x ∈ st.1 -> x ∈ targets \/ x = r) /\ targets ⊆ st.1 /\ runtime_ref r ∈ map runtime_ref st.1.
Proof.
  intros [Hn Hs]. unfold add_target. destruct (bs_contains (runtime_ref r) seen) eqn:E.
  - apply bs_contains_true, Hs in E. cbn. split_and!; [by split|by left|done|done].
  - assert (runtime_ref r ∉ seen) as Hr by (rewrite <- bs_contains_true, E; done). cbn. split_and!.
    + split.
      * rewrite map_app. apply NoDup_app. split; [done|]. split; [|apply NoDup_singleton].
        cbn [map]. intros n Hn2 ->%list_elem_of_singleton. apply Hr. by apply Hs.
      * intros n. rewrite elem_of_bs_insert, map_app, elem_of_app, Hs. cbn [map]. rewrite list_elem_of_singleton. tauto.
    + intros x [?| ->%list_elem_of_singleton]%elem_of_app; [by left|by right].
    + intros x Hx. apply elem_of_app. by left.
    + rewrite map_app. apply elem_of_app. right. by left.
Qed.

Lemma add_targets_ok found targets seen : targets_ok targets seen ->
  let st := foldl add_target (targets, seen) found in
  targets_ok st.1 st.2 /\ (forall x, x ∈ st.1 -> x ∈ targets \/ x ∈ found) /\ targets ⊆ st.1 /\
  forall r, r ∈ found -> runtime_ref r ∈ map runtime_ref st.1.
Proof.
  revert targets seen. induction found as [|r found IH]; intros targets seen Hok; cbn [foldl].
  - cbn. split_and!; [done|by left|done|by intros r ?%elem_of_nil].
  - destruct (add_target_ok targets seen r Hok) as (Hok1 & Hin1 & Hsub1 & Hr). cbn zeta in *.
    destruct (add_target (targets, seen) r) as [t1 s1]. cbn [fst snd] in *.
    destruct (IH t1 s1 Hok1) as (Hok2 & Hin2 & Hsub2 & Hf). split_and!; [done| |by etransitivity|].
    + intros x Hx. destruct (Hin2 x Hx) as [Hx1|?]; [|right; by right]. destruct (Hin1 x Hx1) as [?| ->]; [by left|right; left].
    + intros r' [->|Hr']%elem_of_cons; [|by apply Hf]. apply list_elem_of_fmap in Hr as (x & -> & Hx).
      apply list_elem_of_fmap. exists x. split; [done|by apply Hsub2].
Qed.

(** What the loop has so far, after the requests [done]. *)
Definition selected (done : list string) (st : list RuntimeRecord * list string * list string) : Prop :=
  targets_ok st.1.1 st.1.2 /\
  (forall r, r ∈ st.1.1 -> r ∈ runtimes /\ exists q, q ∈ done /\ names q r) /\
  (forall q, q ∈ st.2 <-> q ∈ done /\ exists r, r ∈ runtimes /\ names q r) /\
  (forall q r, q ∈ done -> r ∈ runtimes -> names q r -> runtime_ref r ∈ map runtime_ref st.1.1).

Lemma select_request_selected done st q st' : selected done st -> select_request o apps runtimes st q = Ok st' ->
  selected (done ++ [q]) st'.
Proof.
  intros (Hok & Hin & Hm & Hall) E. destruct st as [[targets seen] matched]. cbn [fst snd] in *. unfold select_request in E.
  apply bind_ok in E as (partial & Hp & E). apply bind_ok in E as (k & Hk & E).
  assert (forall st, (forall r, r ∈ runtimes -> ~ names q r) -> st = (targets, seen, matched) -> selected (done ++ [q]) st) as Hskip.
  { intros st Hno ->. cbn. split_and!; [done| | |].
    - intros r (Hr & q' & Hq & Hn)%Hin. split; [done|]. exists q'. split; [apply elem_of_app; by left|done].
    - intros q'. cbn [snd]. rewrite Hm, elem_of_app, list_elem_of_singleton. split; [tauto|].
      intros [[?| ->] (r & Hr & Hn)]; [split; eauto|by apply Hno in Hn].
    - intros q' r [Hq| ->%list_elem_of_singleton]%elem_of_app Hr Hn; [by eapply Hall|by apply Hno in Hn]. }
  case_bool_decide as HkA.
  { injection E as <-. apply Hskip; [|done]. intros r _ (p' & k' & c & Hp' & Hk' & Hne & _). congruence. }
  apply bind_ok in E as (found & Hf & E). pose proof (matching_exact _ _ Hf) as Hfound.
  assert (forall r, r ∈ runtimes -> names q r <-> r ∈ found) as Hnames.
  { intros r Hr. rewrite Hfound. split.
    - intros (p' & k' & c & Hp' & Hk' & Hne & Hc & Hmt). rewrite Hp in Hp'. injection Hp' as <-. eauto.
    - intros (_ & c & Hc & Hmt). exists partial, k, c. by split_and!. }
  apply bind_ok in E as (app_match & _ & E). destruct (app_match && _); [done|].
  destruct (bool_decide (found = [])) eqn:Ef.
  { apply bool_decide_eq_true in Ef as ->. destruct (bool_decide (k = Some Runtime)); [done|]. injection E as <-.
    apply Hskip; [|done]. intros r Hr Hn. apply Hnames in Hn; [by apply elem_of_nil in Hn|done]. }
  apply bool_decide_eq_false in Ef. destruct (_ && _); [done|].
  destruct (add_targets_ok found targets seen Hok) as (Hok2 & Hin2 & Hsub2 & Hf2).
  destruct (foldl add_target (targets, seen) found) as [t2 s2]. injection E as <-. cbn [fst snd] in *. split_and!; [done| | |].
  - intros r [Hr|Hr]%Hin2.
    + apply Hin in Hr as (? & q' & ? & ?). split; [done|]. exists q'. split; [apply elem_of_app; by left|done].
    + pose proof (proj1 (proj1 (Hfound r) Hr)) as Hrr. split; [done|]. exists q. split; [apply elem_of_app; right; by left|by apply Hnames].
  - intros q'. cbn [snd]. rewrite elem_of_bs_insert, Hm, elem_of_app, list_elem_of_singleton. split.
    + intros [->|[? ?]]; [split; [by right|]|split; [by left|done]]. destruct found as [|r found]; [done|].
      assert (r ∈ r :: found) as Hr by left. exists r. pose proof (proj1 (proj1 (Hfound r) Hr)) as Hrr. split; [done|by apply Hnames].
    + intros [[?| ->] ?]; [by right|by left].
  - intros q' r [Hq| ->%list_elem_of_singleton]%elem_of_app Hr Hn; [|by apply Hf2, Hnames].
    pose proof (Hall q' r Hq Hr Hn) as Hx. apply list_elem_of_fmap in Hx as (x & Hxr & Hx). cbn [fst].
    rewrite Hxr. apply list_elem_of_fmap. exists x. split; [done|by apply Hsub2].
Qed.

Lemma select_requests_selected l done st st' : selected done st -> fold_result (select_request o apps runtimes) l st = Ok st' ->
  selected (done ++ l) st'.
Proof.
  revert done st. induction l as [|q l IH]; intros done st Hs; cbn [fold_result].
  - intros [= <-]. by rewrite app_nil_r.
  - intros (st1 & H1 & E)%bind_ok. rewrite cons_middle, app_assoc. eapply IH; [|exact E]. by eapply select_request_selected.
Qed.

(** The operands of the command select each runtime that one of them names,
    once, and no other, and exactly the operands that name an installed runtime
    are not taken for applications afterwards. *)
Theorem runtime_selection_exact targets matched :
  uo_refs o <> [] -> select_targets o apps runtimes = Ok (targets, matched) ->
  NoDup (map runtime_ref targets) /\
  (forall r, r ∈ targets -> r ∈ runtimes /\ exists q, q ∈ uo_refs o /\ names q r) /\
  (forall q r, q ∈ uo_refs o -> r ∈ runtimes -> names q r -> runtime_ref r ∈ map runtime_ref targets) /\
  (forall q, q ∈ matched <-> q ∈ uo_refs o /\ exists r, r ∈ runtimes /\ names q r).
Proof.
  intros Hne. unfold select_targets. rewrite bool_decide_false by done. intros (st & Hst & E)%bind_ok.
  assert (selected [] ([], [], [])) as H0.
  { split_and!; cbn; [split; [constructor|done]|by intros r ?%elem_of_nil| |by intros q r ?%elem_of_nil].
    intros q. split; [by intros ?%elem_of_nil|by intros [?%elem_of_nil _]]. }
  pose proof (select_requests_selected _ _ _ _ H0 Hst) as ([Hn _] & Hin & Hm & Hall).
  injection E as <- <-. by split_and!.
Qed.
End Selection.

(** ** A runtime that is no longer listed *)

Section Unlisted.
Context {W : Type} `{CacheWorld W} `{!RemoteWorld W} (i : Installation).

(** In no state does its remote load and list it. *)
Definition unlisted (r : RuntimeRecord) : Prop :=
  forall w, match (load_remote_metadata i (rt_origin r) w).1 with
            | Ok m => find_ref (md_refs m) (fmt ["runtime/"; runtime_ref r]) = None
            | Err _ => True
            end.

Lemma plan_unlisted r plans w : unlisted r -> exists e, (plan_runtime i None plans r w).1 = Err e.
Proof.
  intros Hr. unfold plan_runtime. unfold mbind at 1, M_bind at 1. specialize (Hr w).
  destruct (load_remote_metadata i (rt_origin r) w) as [[m|e] w1]; [|by exists e]. cbn [fst] in Hr.
  unfold mbind at 1, M_bind at 1, lift, resolve_exact_runtime. rewrite Hr. by eexists.
Qed.

Lemma plans_unlisted r l plans w : r ∈ l -> unlisted r -> exists e, (fold_each (plan_runtime i None) l plans w).1 = Err e.
Proof.
  intros Hin Hr. revert plans w. induction l as [|x l IH]; intros plans w; [by apply elem_of_nil in Hin|]. cbn [fold_each].
  unfold mbind at 1, M_bind at 1. apply elem_of_cons in Hin as [<-|Hin].
  - destruct (plan_unlisted r plans w Hr) as [e He]. destruct (plan_runtime i None plans r w) as [[a|e'] w1]; [done|by exists e'].
  - destruct (plan_runtime i None plans x w) as [[a|e] w1]; [by apply IH|by exists e].
Qed.

Lemma plans_keep (P : W -> Prop) l plans : (forall n, keeps P (load_remote_metadata i n)) ->
  keeps P (fold_each (plan_runtime i None) l plans).
Proof.
  intros HP. apply keeps_fold_each. intros b r _. unfold plan_runtime. apply keeps_bind; [apply HP|]. intros m.
  apply keeps_bind; [apply keeps_lift|]. intros remote. apply keeps_bind; [apply keeps_gets|]. intros present. apply keeps_ret.
Qed.
End Unlisted.

(** C28.  One installed runtime or extension that its remote no longer lists, or
    whose remote cannot be loaded, keeps the plain command from updating
    anything: it fails, after it has done nothing but load metadata, although the
    applications and all other runtimes could be updated. *)
Theorem unlisted_runtime_blocks_update
    `{CacheWorld W} `{!RemoteWorld W} `{!Libostree W} `{!StorageOps W} `{!ExtraWorld W} `{SummaryFormat} `{!Terminal W}
    pid next_sequence process_lookup inflate patience now_nanos sha256 run_apply_extra fuel detect_facts export_app remove_export
    i args o apps runtimes r (w w1 w2 : W) :
  parse_update_args args = Ok o -> uo_refs o = [] -> uo_kind o <> Some App ->
  list_apps i w = (Ok apps, w1) -> list_runtimes i w1 = (Ok runtimes, w2) -> r ∈ runtimes -> unlisted i r ->
  exists e w', cmd_update pid next_sequence process_lookup inflate patience now_nanos sha256 run_apply_extra fuel detect_facts
      export_app remove_export i args w = (Err e, w') /\
    forall P : W -> Prop, (forall n, keeps P (load_remote_metadata i n)) -> P w2 -> P w'.
Proof.
  intros Ho Hrefs Hkind Happs Hrts Hin Hr.
  assert (uo_commit o = None) as Hc.
  { unfold parse_update_args in Ho. apply bind_ok in Ho as (o' & _ & Ho). destruct (uo_commit o') eqn:Ec; [|by injection Ho as <-].
    destruct (negb _) eqn:En; [done|]. injection Ho as <-. by rewrite Hrefs in En. }
  destruct (plans_unlisted i r runtimes [] w2 Hin Hr) as [e He].
  destruct (fold_each (plan_runtime i None) runtimes [] w2) as [res w'] eqn:Ep. cbn in He. subst res.
  exists e, w'. split.
  - unfold cmd_update. rewrite (bind_step _ _ _ o w) by (unfold lift; by rewrite Ho).
    rewrite (bind_step _ _ _ _ _ Happs).
    rewrite (bind_step _ _ _ (runtimes, []) w2).
    2:{ unfold select_runtime_targets. rewrite (bind_step _ _ _ _ _ Hrts). unfold lift, select_targets.
        rewrite Hrefs, bool_decide_true by done. by rewrite bool_decide_false by done. }
    cbn [fst snd]. rewrite bool_decide_false by (by intros ->; apply elem_of_nil in Hin).
    unfold ended at 1, mbind at 1, M_bind at 1. unfold update_runtime_targets at 1. rewrite Hc.
    unfold mbind at 1, M_bind at 1. by rewrite Ep.
  - intros P HP Hw. pose proof (plans_keep i P runtimes [] HP w2 Hw) as Hk. by rewrite Ep in Hk.
Qed.

(** ** A concrete system: the remote lists nothing any more *)

Definition platform : RuntimeRecord := mkRuntime "flathub" "org.example.Platform/x86_64/24.08" "c1" 10 true "runtimes/p/c1".

Lemma runtime_selection_exact_witness :
  let o := mkUpdate (mkOptions true false) None false None ["org.example.Platform"; "org.example.App"; "runtime/org.example.Platform"] in
  exists targets matched, select_targets o [] [platform; example_old] = Ok (targets, matched) /\
    targets = [platform] /\ matched = ["org.example.Platform"; "runtime/org.example.Platform"] /\
    NoDup (map runtime_ref targets) /\ ("org.example.App" ∉ matched).
Proof.
  intros o. do 2 eexists. split; [vm_compute; reflexivity|]. split; [reflexivity|]. split; [reflexivity|].
  edestruct (runtime_selection_exact o [] [platform; example_old]) as (Hn & _ & _ & Hm); [done|vm_compute; reflexivity|].
  split; [exact Hn|]. apply not_elem_of_cons. split; [done|]. apply not_elem_of_cons. split; [done|apply not_elem_of_nil].
Defined.

#[local] Instance bare_remote : RemoteWorld Cabinet := {
  load_arch_summary _ _ c := (Ok ("x86_64", "/home/u/.cache/remotes/flathub/summary", None), c);
  parse_summary_refs _ _ := Ok [];
  fetch_appstream_replacements _ _ _ c := (Ok [], c);
  commit_history _ _ _ _ _ c := (Ok [], c);
}.
#[local] Instance bare_repository : Libostree Cabinet := {
  open_lock _ c := (inl tt, c);
  lock_exclusive c := (inl tt, c);
  repo_open _ c := (inl tt, c);
  repo_create _ c := (inl tt, c);
  remote_replace _ _ _ c := (inl tt, c);
  remote_delete _ c := (inl tt, c);
  gpg_import _ _ c := (inl tt, c);
  repo_verify_summary _ _ _ _ := inl (inl tt);
  fsck_typed_object _ _ c := (inl tt, c);
  list_objects _ := inl [];
  read_commit _ _ := inl ListEnd;
  set_ref_none _ _ c := (inl tt, c);
  prune_static_deltas c := (inl tt, c);
  prune_objects c := (inl (0%Z, 0%Z, 0%Z), c);
  pull_history _ _ c := (inl tt, c);
  has_commit _ _ := inl false;
  load_commit _ _ := inr not_found;
}.
#[local] Instance bare_storage : StorageOps Cabinet := {
  sync_directory _ c := (inl tt, c);
  repo_pull _ _ _ c := (inl tt, c);
  fsck_object _ c := (inl tt, c);
  checkout_at _ _ c := (inl tt, c);
  repo_installed_size _ _ := Ok 0%Z;
}.
#[local] Instance bare_extra : ExtraWorld Cabinet := {
  create_dir _ c := (inl tt, c);
  file_size _ _ := inr not_found;
  open_file _ _ := inr not_found;
  flush_stdout c := (inl tt, c);
  command_status _ _ c := (inl (mkExit false "exit status: 1"), c);
}.
#[local] Instance silent_terminal : Terminal Cabinet := { print _ := mret tt; read_line := mret "" }.
#[local] Instance bare_format : SummaryFormat := {
  decode_summary _ := mkSummary [] []; decode_index _ := mkIndex [] []; sha256_hex _ := "" }.

Definition bare_home : Installation := MetadataCache.example_home.
Definition bare_cabinet : Cabinet :=
  mkCabinet (mkTree (map components ["/home/u/data"; "/home/u/data/refs"; "/home/u/data/refs/runtimes"; "/home/u/data/refs/apps"])
    [(components (runtime_record_path bare_home (runtime_ref platform)), kv (runtime_entries platform));
     (components (config_path bare_home "flathub"), kv (remote_entries MetadataCache.example_remote))]) 0 [].

Lemma bare_unlisted : unlisted bare_home platform.
Proof.
  intros c. destruct (load_remote_metadata bare_home (rt_origin platform) c) as [[m|e] c'] eqn:E; cbn [fst]; [|done].
  unfold load_remote_metadata in E.
  apply M_bind_ok in E as (x & c1 & _ & E). unfold load_remote_metadata_for in E.
  apply M_bind_ok in E as ([[a p] cid] & c2 & _ & E). apply M_bind_ok in E as (refs & c3 & [= <- _] & E). by injection E as <- _.
Qed.

Lemma unlisted_runtime_blocks_update_witness :
  let run := cmd_update 7 (mret 0%N) (fun _ _ => Ok None) Ok 10 (fun _ => 0%N) (fun _ => "") (fun _ _ _ _ _ => mret tt) 10
    (fun _ => plain_facts) (fun _ _ => mret tt) (fun _ _ => mret tt) bare_home ["-y"] bare_cabinet in
  run.1 = Err ["runtime ref is no longer present in flathub: runtime/org.example.Platform/x86_64/24.08"] /\
  exists e w', run = (Err e, w').
Proof.
  intros run. split; [vm_compute; reflexivity|]. edestruct (unlisted_runtime_blocks_update 7 (mret 0%N) (fun _ _ => Ok None) Ok 10 (fun _ => 0%N) (fun _ => "")
    (fun _ _ _ _ _ => mret tt) 10 (fun _ => plain_facts) (fun _ _ => mret tt) (fun _ _ => mret tt)
    bare_home ["-y"] (mkUpdate (mkOptions true false) None false None []) [] [platform] platform bare_cabinet) as (e & w' & E & _);
    [reflexivity|reflexivity|done|vm_compute; reflexivity|vm_compute; reflexivity|by left|exact bare_unlisted|].
  exists e, w'. exact E.
Defined.
