(* ===== verification/LaunchEnvironment.v ===== *)
(** * LaunchEnvironment: the environment a program starts with
    (src/src/sandbox/launch_environment.rs, the first half of [launch] in
    chroot_instance.rs, and desktop_integration/desktop_session.rs)

    An environment is the source's [Vec] of pairs: an entry may occur twice, and
    the program sees the last one (see LaunchRequest: the helper passes the
    entries to [Command::envs] in order).  The metadata's entries are expanded
    and merged one by one; the theorems say what a program then sees for each
    name, including names that occur twice.  What the unmodelled host resources
    contribute is [LaunchParts]. *)
From Stdlib Require Import Ascii String NArith ZArith Lia.
From stdpp Require Import base list strings sets.
From S2P Require Import Prelude Effects Collections RustStr RustNum RustPath HostFs Architecture FlatpakMetadata FilesystemGrants FileArguments InstallationPaths.

Abbreviation environment := (list (string * string)) (only parsing).

(** ** The desktop session *)

Record DesktopSession := mkDesktop {
  xdg_runtime_dir : path;
  wayland_display : string;
  ds_display : option string;
  dbus_session_bus_address : option string;
}.

(** [std::env::var_os] and [std::env::var] of the launcher's environment. *)
Section HostEnv.
Context (var_os : string -> option string).
Definition var (name : string) : option string := var_os name ≫= from_utf8.

Definition desktop_from_env : option DesktopSession :=
  dir ← var_os "XDG_RUNTIME_DIR";
  wayland ← var "WAYLAND_DISPLAY";
  Some (mkDesktop dir wayland (var "DISPLAY") (var "DBUS_SESSION_BUS_ADDRESS")).

Definition wayland_socket (d : DesktopSession) : path := join_path (xdg_runtime_dir d) (wayland_display d).

Definition chroot_dbus_address (d : DesktopSession) (uid : N) : option string :=
  address ← dbus_session_bus_address d;
  host_path ← strip_prefix "unix:path=" address;
  match strip_path_prefix host_path (xdg_runtime_dir d) with
  | Some relative => Some (fmt ["unix:path=/run/user/"; show_N uid; "/"; relative])
  | None => Some address
  end.

(** ** The first environment *)

Definition push_host_env (key : string) (env : environment) : environment :=
  match var key with
  | Some v => if is_empty v then env else env ++ [(key, v)]
  | None => env
  end.

Definition launch_env (app_id runtime_ref : string) (desktop : DesktopSession) (uid : N) (user : string)
    (host_data_home : path) : result environment :=
  architecture ← from_runtime_ref runtime_ref;
  let runtime_typelib_dir := fmt ["/usr/"; runtime_libdir architecture; "/girepository-1.0"] in
  let env :=
    [("HOME", "/var/data"); ("USER", user); ("LOGNAME", user); ("SHELL", "/bin/sh"); ("container", "flatpak");
     ("FLATPAK_ID", app_id); ("ZYPAK_ZYGOTE_STRATEGY_SPAWN", "false");
     ("XDG_RUNTIME_DIR", fmt ["/run/user/"; show_N uid]); ("WAYLAND_DISPLAY", wayland_display desktop);
     ("XDG_SESSION_TYPE", "wayland"); ("LANG", "C.UTF-8"); ("LC_ALL", "C.UTF-8"); ("GDK_BACKEND", "wayland");
     ("GSK_RENDERER", "cairo"); ("XDG_DATA_HOME", "/var/data"); ("HOST_XDG_DATA_HOME", host_data_home);
     ("XDG_CONFIG_HOME", "/var/config"); ("XDG_CACHE_HOME", "/var/cache");
     ("XDG_CONFIG_DIRS", "/app/etc/xdg:/etc/xdg");
     ("XDG_DATA_DIRS", "/app/share:/usr/share:/usr/share/runtime/share:/run/host/share");
     ("GI_TYPELIB_PATH", fmt ["/app/lib/girepository-1.0:"; runtime_typelib_dir; ":/usr/lib/girepository-1.0"]);
     ("LD_LIBRARY_PATH", "/app/lib:/app/lib64"); ("PATH", "/app/bin:/usr/bin:/bin")] in
  let env := match ds_display desktop with Some display => env ++ [("DISPLAY", display)] | None => env end in
  let env := push_host_env "XDG_CURRENT_DESKTOP" env in
  let env := push_host_env "XDG_SESSION_DESKTOP" env in
  let env := push_host_env "MOZ_ENABLE_WAYLAND" env in
  let env := push_host_env "FREEBSD_FLATPAK_TRACE_LINUX_COMPAT" env in
  Ok (match chroot_dbus_address desktop uid with
      | Some address => env ++ [("DBUS_SESSION_BUS_ADDRESS", address)]
      | None => env
      end).
End HostEnv.

(** ** Reading and expanding *)

(** The last entry with the name. *)
Definition env_value (env : environment) (key : string) : option string :=
  snd <$> List.find (fun e => String.eqb e.1 key) (rev env).

Definition is_name_char (a : ascii) : bool := Ascii.eqb a "_" || is_alnum a.

(** The characters of a name, and those up to a closing brace, which is
    consumed; without one the name is the rest. *)
Fixpoint take_name (s : string) : string * string :=
  match s with
  | EmptyString => ("", "")
  | String a r => if is_name_char a then let (n, t) := take_name r in (String a n, t) else ("", s)
  end.
Definition take_braced (s : string) : string * string := default (s, "") (split_once "}" s).

(** Every round consumes a character: the length is fuel enough. *)
Fixpoint expand_from (fuel : nat) (lookup : string -> option string) (s : string) : string :=
  match fuel, s with
  | O, _ | _, EmptyString => ""
  | S fuel, String a r =>
      if negb (Ascii.eqb a "$") then String a (expand_from fuel lookup r)
      else
        match r with
        | String "{" t =>
            let (name, rest) := take_braced t in
            default "" (lookup name) +:+ expand_from fuel lookup rest
        | _ =>
            let (name, rest) := take_name r in
            if is_empty name then String "$" (expand_from fuel lookup rest)
            else default "" (lookup name) +:+ expand_from fuel lookup rest
        end
  end.
Definition expand_env_value (v : string) (env : environment) : string := expand_from (len v) (env_value env) v.

(** ** Changing an environment *)

(** The first entry with the name, changed in place. *)
Fixpoint change_first (f : string -> string) (key : string) (env : environment) : option environment :=
  match env with
  | [] => None
  | (k, v) :: r =>
      if String.eqb k key then Some ((k, f v) :: r)
      else (fun r' => (k, v) :: r') <$> change_first f key r
  end.
Definition update_or_push (f : string -> string) (key fresh : string) (env : environment) : environment :=
  default (env ++ [(key, fresh)]) (change_first f key env).

Definition merge_env (env updates : environment) : environment :=
  foldl (fun env e => update_or_push (fun _ => e.2) e.1 e.2 env) env updates.

Definition apply_metadata_env (env : environment) (runtime_metadata effective_app_metadata : string) : environment :=
  foldl (fun env metadata =>
    foldl (fun env e => merge_env env [(e.1, expand_env_value e.2 env)]) env (section_entries metadata "Environment"))
    env [runtime_metadata; effective_app_metadata].

Definition unset_names (metadata : string) : list string :=
  match value metadata "Context" "unset-environment" with
  | None => []
  | Some unset => List.filter (fun n => negb (is_empty n) && negb (starts_with "!" n)) (map trim (split ";" unset))
  end.
Definition apply_unset_environment (env : environment) (metadata : string) : environment :=
  List.filter (fun e => negb (bool_decide (e.1 ∈ unset_names metadata))) env.

Definition prepend_env_paths (key : string) (paths : list string) (env : environment) : environment :=
  match paths with
  | [] => env
  | _ => let prefix := join ":" paths in
         update_or_push (fun v => if is_empty v then prefix else fmt [prefix; ":"; v]) key prefix env
  end.
Definition append_env_paths (key : string) (paths : list string) (env : environment) : environment :=
  match paths with
  | [] => env
  | _ => let suffix := join ":" paths in
         update_or_push (fun v => if is_empty v then suffix else fmt [v; ":"; suffix]) key suffix env
  end.

Definition apply_graphics_preloads (ld_preload zypak_ld_preload : list string) (env : environment) : environment :=
  prepend_env_paths "ZYPAK_LD_PRELOAD" zypak_ld_preload (prepend_env_paths "LD_PRELOAD" ld_preload env).

Definition runtime_library_paths (runtime_ref : string) : result (list string) :=
  architecture ← from_runtime_ref runtime_ref;
  Ok [fmt ["/usr/"; runtime_libdir architecture]; "/usr/lib"; "/usr/lib64"].

(** ** Directories named in the environment *)

(** The host directory of an entry that names one in the application's part of
    the runtime directory. *)
Definition metadata_runtime_dir (host_runtime_dir : path) (uid : N) (app_id : string) (e : string * string) : option path :=
  let sandbox_runtime_prefix := fmt ["/run/user/"; show_N uid; "/app/"; app_id] in
  if negb (ends_with "_DIR" e.1) then None
  else if negb (is_absolute e.2) || negb (path_starts_with e.2 sandbox_runtime_prefix) then None
  else join_path host_runtime_dir <$> strip_path_prefix e.2 (fmt ["/run/user/"; show_N uid]).

Section Dirs.
Context {W : Type} `{FileOps W}.

(** The path without the prefix exists whenever the entry lies below the
    application's directory, so the source's error for it cannot happen. *)
Definition ensure_metadata_runtime_dirs (env : environment) (host_runtime_dir : path) (uid : N) (app_id : string)
    : M W unit :=
  for_each (fun e =>
    match metadata_runtime_dir host_runtime_dir uid app_id e with
    | None => mret tt
    | Some host_path => io_step (fmt ["create runtime directory "; host_path]) (make_dirs host_path)
    end) env.

(** ** The environment of a launch *)

(** What the host resources, the portal and the extensions contribute. *)
Record LaunchParts := mkParts {
  audio_env : environment;
  cursor_env : environment;
  cursor_config_dirs : list string;
  portal_env : environment;
  graphics_env : environment;
  graphics_libraries : list string;
  graphics_preload : list string;
  graphics_zypak_preload : list string;
  network_preload : list string;
  linux_compat_preload : list string;
  video_libraries : list string;
  video_env : environment;
  app_extension_libraries : list string;
  runtime_extension_libraries : list string;
}.

Definition entry_env (hf : HostFilesystem) (w : W) (parts : LaunchParts) (env : environment) : environment :=
  let env := List.filter (fun e => negb (String.eqb e.1 "HOME")) env in
  let env := env ++ [("HOME", sandbox_home_env hf "/var/data")] in
  let env := env ++ user_dir_env w hf in
  let env := env ++ audio_env parts in
  let env := env ++ cursor_env parts in
  let env := prepend_env_paths "XDG_CONFIG_DIRS" (cursor_config_dirs parts) env in
  env ++ portal_env parts.

Definition preload_env (parts : LaunchParts) (env : environment) : environment :=
  let env := merge_env env (graphics_env parts) in
  let env := prepend_env_paths "LD_LIBRARY_PATH" (graphics_libraries parts) env in
  let env := apply_graphics_preloads (graphics_preload parts) (graphics_zypak_preload parts) env in
  let env := prepend_env_paths "LD_PRELOAD" (network_preload parts) env in
  let env := prepend_env_paths "LD_PRELOAD" (linux_compat_preload parts) env in
  let env := prepend_env_paths "ZYPAK_LD_PRELOAD" (network_preload parts) env in
  prepend_env_paths "ZYPAK_LD_PRELOAD" (linux_compat_preload parts) env.

Definition library_env (parts : LaunchParts) (runtime_libraries : list string) (env : environment) : environment :=
  let env := prepend_env_paths "LD_LIBRARY_PATH" (video_libraries parts) env in
  let env := prepend_env_paths "LD_LIBRARY_PATH" (app_extension_libraries parts) env in
  let env := append_env_paths "LD_LIBRARY_PATH" (runtime_extension_libraries parts) env in
  let env := append_env_paths "LD_LIBRARY_PATH" runtime_libraries env in
  merge_env env (video_env parts).

Definition launch_environment (var_os : string -> option string) (i : Installation) (hf : HostFilesystem)
    (parts : LaunchParts) (desktop : DesktopSession) (uid : N) (user app_id runtime_ref : string) (runtime_dir : path)
    (effective_metadata : string) : M W environment :=
  env ← lift (launch_env var_os app_id runtime_ref desktop uid user (data_home i));
  env ← gets (fun w => entry_env hf w parts env);
  let runtime_metadata_path := join_path runtime_dir "metadata" in
  runtime_metadata ← getr (fun w => io_context (fmt ["read Flatpak runtime metadata "; runtime_metadata_path])
                                      (read_to_string w runtime_metadata_path));
  let env := apply_metadata_env env runtime_metadata effective_metadata in
  let env := apply_unset_environment env effective_metadata in
  let env := preload_env parts env in
  runtime_libraries ← lift (runtime_library_paths runtime_ref);
  let env := library_env parts runtime_libraries env in
  _ ← ensure_metadata_runtime_dirs env (xdg_runtime_dir desktop) uid app_id;
  mret env.
End Dirs.

(** ** Lemmas: what a program sees *)

Lemma env_value_app a b k :
  env_value (a ++ b) k = match env_value b k with Some v => Some v | None => env_value a k end.
Proof.
  unfold env_value. rewrite rev_app_distr. induction (rev b) as [|e r IH]; cbn; [done|].
  destruct (String.eqb e.1 k); [done|]. apply IH.
Qed.

Lemma env_value_one k' v k : env_value [(k', v)] k = if String.eqb k' k then Some v else None.
Proof. unfold env_value. cbn. by destruct (String.eqb k' k). Qed.

Lemma env_value_cons k' v r k :
  env_value ((k', v) :: r) k =
    match env_value r k with Some w => Some w | None => if String.eqb k' k then Some v else None end.
Proof. change ((k', v) :: r) with ([(k', v)] ++ r). by rewrite env_value_app, env_value_one. Qed.

(** The entries with a name; a name is shadowed when there are several. *)
Definition occurrences (env : environment) (k : string) : nat :=
  length (List.filter (fun e => String.eqb e.1 k) env).
Definition shadowed (env : environment) (k : string) : bool := (2 <=? occurrences env k)%nat.

Lemma occurrences_app a b k : occurrences (a ++ b) k = occurrences a k + occurrences b k.
Proof. unfold occurrences. by rewrite List.filter_app, length_app. Qed.

Lemma occurrences_cons k' v r k : occurrences ((k', v) :: r) k = (if String.eqb k' k then 1 else 0) + occurrences r k.
Proof. unfold occurrences. cbn. by destruct (String.eqb k' k). Qed.

Lemma occurrences_none env k : occurrences env k = 0 <-> env_value env k = None.
Proof.
  induction env as [|[k' v] r IH]; [done|]. rewrite occurrences_cons, env_value_cons.
  destruct (env_value r k) as [w|] eqn:E.
  - split; [|done]. intros Hz. assert (occurrences r k = 0) as Ho by lia. by apply IH in Ho.
  - rewrite (proj2 IH eq_refl). by destruct (String.eqb k' k).
Qed.

Lemma change_first_None f k env : change_first f k env = None <-> env_value env k = None.
Proof.
  induction env as [|[k' v] r IH]; [done|]. cbn [change_first]. rewrite env_value_cons.
  destruct (String.eqb_spec k' k) as [->|]; [by destruct (env_value r k)|].
  destruct (change_first f k r), (env_value r k); naive_solver.
Qed.

Lemma change_first_Some f key env env' : change_first f key env = Some env' ->
  (forall k, occurrences env' k = occurrences env k) /\
  (forall k, env_value env' k = if String.eqb k key && negb (shadowed env key) then f <$> env_value env key else env_value env k).
Proof.
  revert env'. induction env as [|[k' v] r IH]; cbn [change_first]; intros env' Hu; [done|].
  unfold shadowed in *. rewrite occurrences_cons. destruct (String.eqb_spec k' key) as [->|Hk].
  - injection Hu as <-. split; intros k; [by rewrite !occurrences_cons|]. rewrite !env_value_cons, String.eqb_refl.
    destruct (env_value r key) as [w|] eqn:E.
    + assert (occurrences r key <> 0) as Hn by (intros Hz%occurrences_none; congruence).
      replace (2 <=? 1 + occurrences r key)%nat with true by (symmetry; apply Nat.leb_le; lia).
      rewrite andb_false_r. destruct (String.eqb_spec key k) as [<-|]; by rewrite ?E.
    + rewrite (proj2 (occurrences_none r key) E). cbn [Nat.add Nat.leb negb]. rewrite andb_true_r.
      rewrite (String.eqb_sym key k). destruct (String.eqb_spec k key) as [->|]; [by rewrite E|done].
  - destruct (change_first f key r) as [r'|]; [|done]. injection Hu as <-. destruct (IH r' eq_refl) as [Ho Hv].
    split; intros k; [by rewrite !occurrences_cons, Ho|]. rewrite !env_value_cons, Hv. cbn [Nat.add].
    apply String.eqb_neq in Hk. rewrite Hk. destruct (String.eqb_spec k key) as [->|]; cbn [andb]; [|done].
    destruct (negb _); [|done]. rewrite Hk. by destruct (env_value r key).
Qed.

Lemma env_value_update f key fresh env k :
  env_value (update_or_push f key fresh env) k =
    if String.eqb k key && negb (shadowed env key)
    then Some (match env_value env key with Some v => f v | None => fresh end) else env_value env k.
Proof.
  unfold update_or_push. destruct (change_first f key env) as [env'|] eqn:E; cbn [default].
  - apply change_first_Some in E as Hs. destruct Hs as [_ Hv]. rewrite Hv.
    destruct (env_value env key) as [v|] eqn:Ev; [done|]. apply (change_first_None f) in Ev. congruence.
  - apply change_first_None in E. rewrite E. unfold shadowed. rewrite (proj2 (occurrences_none env key) E). cbn [Nat.leb negb].
    rewrite andb_true_r, env_value_app, env_value_one, (String.eqb_sym key k). by destruct (String.eqb k key).
Qed.

Lemma shadowed_update f key fresh env k : shadowed (update_or_push f key fresh env) k = shadowed env k.
Proof.
  unfold update_or_push, shadowed. destruct (change_first f key env) as [env'|] eqn:E; cbn [default].
  - apply change_first_Some in E as [Ho _]. by rewrite Ho.
  - apply change_first_None in E as Hn. apply occurrences_none in Hn. rewrite occurrences_app, occurrences_cons.
    destruct (String.eqb_spec key k) as [->|]; [by rewrite Hn|]. cbn [Nat.add]. f_equal. unfold occurrences. cbn. lia.
Qed.

(** ** Expansion *)

Lemma expand_ext fuel (l1 l2 : string -> option string) s : (forall k, l1 k = l2 k) -> expand_from fuel l1 s = expand_from fuel l2 s.
Proof.
  intros Hl. revert s. induction fuel as [|fuel IH]; intros s; [done|]. destruct s as [|a r]; [done|]. cbn [expand_from].
  destruct (negb _); [by rewrite IH|]. repeat case_match; rewrite ?IH, ?Hl; done.
Qed.

(** A value as its parts: text without a dollar, names, names in braces, and
    dollars that stand for themselves. *)
Inductive template_part := Text (s : string) | Named (n : string) | Braced (n : string) | Dollar.

Definition render_part (p : template_part) : string :=
  match p with
  | Text s => s
  | Named n => "$" +:+ n
  | Braced n => fmt ["${"; n; "}"]
  | Dollar => "$"
  end.
Definition render (ps : list template_part) : string := fmt (map render_part ps).

Definition part_value (lookup : string -> option string) (p : template_part) : string :=
  match p with
  | Text s => s
  | Named n | Braced n => default "" (lookup n)
  | Dollar => "$"
  end.

(** What may follow a name without braces, and a dollar that stands for itself. *)
Definition ends_name (s : string) : bool := match s with EmptyString => true | String a _ => negb (is_name_char a) end.
Definition ends_dollar (s : string) : bool := ends_name s && negb (starts_with "{" s).

Fixpoint template_ok (ps : list template_part) : Prop :=
  match ps with
  | [] => True
  | p :: r =>
      match p with
      | Text s => has "$" s = false
      | Named n => n <> "" /\ all_bytes is_name_char n = true /\ ends_name (render r) = true
      | Braced n => has "}" n = false
      | Dollar => ends_dollar (render r) = true
      end /\ template_ok r
  end.

Lemma take_name_app n r : all_bytes is_name_char n = true -> ends_name r = true -> take_name (n +:+ r) = (n, r).
Proof.
  induction n as [|a n IH]; cbn [append all_bytes]; intros Hn Hr.
  - destruct r as [|b r]; [done|]. cbn [ends_name] in Hr. cbn [take_name]. by destruct (is_name_char b).
  - apply andb_true_iff in Hn as [Ha Hn]. cbn [take_name]. by rewrite Ha, IH.
Qed.

Lemma take_braced_app n r : has "}" n = false -> take_braced (n +:+ "}" +:+ r) = (n, r).
Proof. intros Hn. unfold take_braced. by rewrite (proj2 (split_once_Some "}" _ n r)) by (split; [done|done]). Qed.

Lemma expand_text lookup s r fuel : has "$" s = false ->
  expand_from (len s + fuel) lookup (s +:+ r) = s +:+ expand_from fuel lookup r.
Proof.
  induction s as [|a s IH]; cbn [has append]; intros Hs; [done|]. apply orb_false_iff in Hs as [Ha Hs].
  change (len (String a s) + fuel) with (S (len s + fuel)). cbn [expand_from]. rewrite Ha. cbn [negb]. by rewrite IH.
Qed.

Lemma expand_render lookup ps fuel : template_ok ps -> (len (render ps) <= fuel)%nat ->
  expand_from fuel lookup (render ps) = fmt (map (part_value lookup) ps).
Proof.
  revert fuel. induction ps as [|p ps IH]; intros fuel; [by destruct fuel|]. cbn [template_ok].
  unfold render. cbn [map]. rewrite !fmt_cons. fold (render ps). intros [Hp Hw] Hf. rewrite len_app in Hf.
  destruct p as [s|n|n|]; cbn [render_part part_value] in *.
  - replace fuel with (len s + (fuel - len s)) by lia. rewrite expand_text, IH by (done || lia). done.
  - destruct Hp as (Hn & Ha & He). destruct fuel as [|fuel]; [unfold len in Hf; cbn in Hf; lia|].
    rewrite len_app in Hf. change (len "$") with 1 in Hf. destruct n as [|a n]; [done|]. cbn [append expand_from].
    rewrite Ascii.eqb_refl. cbn [negb]. apply andb_true_iff in Ha as Hs. destruct Hs as [Hc _].
    change (String a (n +:+ render ps)) with (String a n +:+ render ps).
    rewrite (take_name_app (String a n) (render ps) Ha He). cbn [is_empty append].
    rewrite IH by (done || lia). cbn [append]. clear - Hc. destruct a as [[] [] [] [] [] [] [] []]; done.
  - destruct fuel as [|fuel]; [unfold len in Hf; cbn in Hf; lia|]. str_norm. cbn [expand_from].
    rewrite Ascii.eqb_refl. cbn [negb]. change (n +:+ String "}" (render ps)) with (n +:+ "}" +:+ render ps).
    rewrite take_braced_app by done. rewrite IH; [done..|].
    unfold fmt in Hf. cbn [foldr] in Hf. rewrite !len_app in Hf. change (len "${") with 2 in Hf. lia.
  - destruct fuel as [|fuel]; [unfold len in Hf; cbn in Hf; lia|]. change (len "$") with 1 in Hf. cbn [append expand_from].
    rewrite Ascii.eqb_refl. cbn [negb]. apply andb_true_iff in Hp as [He Hb].
    pose proof (take_name_app "" (render ps) eq_refl He) as Ht. cbn [append] in Ht. rewrite Ht. cbn [is_empty].
    rewrite IH by (done || lia). destruct (render ps) as [|a r]; [done|]. apply negb_true_iff in Hb. clear - Hb.
    destruct a as [[] [] [] [] [] [] [] []]; done.
Qed.

(** ** The metadata's environment *)

(** The reference: names stand for values, an entry changes one of them unless
    the program cannot see the change. *)
Definition assign (shadow : string -> bool) (scope : string -> option string) (e : string * string) : string -> option string :=
  fun k => if String.eqb k e.1 && negb (shadow e.1) then Some (expand_from (len e.2) scope e.2) else scope k.
Definition scope_after (shadow : string -> bool) (entries : environment) (scope : string -> option string) :
    string -> option string :=
  foldl (assign shadow) scope entries.

Definition assign_entry (env : environment) (e : string * string) : environment :=
  merge_env env [(e.1, expand_env_value e.2 env)].

Lemma apply_metadata_env_flat env rt app :
  apply_metadata_env env rt app =
    foldl assign_entry env (section_entries rt "Environment" ++ section_entries app "Environment").
Proof. unfold apply_metadata_env. cbn [foldl]. by rewrite foldl_app. Qed.

Lemma scope_after_ext shadow entries s1 s2 : (forall k, s1 k = s2 k) ->
  forall k, scope_after shadow entries s1 k = scope_after shadow entries s2 k.
Proof.
  unfold scope_after. revert s1 s2. induction entries as [|e es IH]; cbn [foldl]; intros s1 s2 Hs; [done|].
  apply IH. intros k. unfold assign. rewrite Hs. by rewrite (expand_ext _ s1 s2).
Qed.

Lemma scope_after_shadow shadow1 shadow2 entries s : (forall k, shadow1 k = shadow2 k) ->
  forall k, scope_after shadow1 entries s k = scope_after shadow2 entries s k.
Proof.
  intros Hs. unfold scope_after. revert s. induction entries as [|e es IH]; cbn [foldl]; intros s k; [done|].
  etransitivity; [apply IH|]. apply (scope_after_ext shadow2 es). intros k'. unfold assign. by rewrite Hs.
Qed.

Lemma apply_entries_scope entries env k :
  env_value (foldl assign_entry env entries) k = scope_after (shadowed env) entries (env_value env) k /\
  shadowed (foldl assign_entry env entries) k = shadowed env k.
Proof.
  revert env k. induction entries as [|e es IH]; cbn [foldl]; intros env k; [done|].
  assert (forall k, shadowed (assign_entry env e) k = shadowed env k) as Hsh.
  { intros k'. unfold assign_entry, merge_env. cbn [foldl fst snd]. apply shadowed_update. }
  destruct (IH (assign_entry env e) k) as [Hv Hs]. split; [|by rewrite Hs].
  rewrite Hv, (scope_after_shadow _ (shadowed env)) by done. unfold scope_after at 2. cbn [foldl].
  apply scope_after_ext. intros k'. unfold assign_entry, merge_env, assign. cbn [foldl fst snd].
  rewrite env_value_update. destruct (_ && _); [|done]. by destruct (env_value env e.1).
Qed.

(** A name that the program cannot be given a new value for keeps its value. *)
Lemma scope_after_shadowed shadow entries s k : shadow k = true -> scope_after shadow entries s k = s k.
Proof.
  intros Hk. revert s. induction entries as [|e es IH]; intros s; [done|]. unfold scope_after in *. cbn [foldl]. rewrite IH.
  unfold assign. destruct (String.eqb_spec k e.1) as [->|]; [|done]. by rewrite Hk.
Qed.

Lemma env_value_filter (f : string -> bool) env k : f k = true ->
  env_value (List.filter (fun e => f e.1) env) k = env_value env k.
Proof.
  intros Hk. induction env as [|[k' v] r IH]; [done|]. cbn [List.filter fst]. rewrite env_value_cons.
  destruct (f k') eqn:E; [by rewrite env_value_cons, IH|]. rewrite IH. destruct (env_value r k); [done|].
  destruct (String.eqb_spec k' k) as [->|]; [congruence|done].
Qed.

Lemma env_value_filtered (f : string -> bool) env k : f k = false -> env_value (List.filter (fun e => f e.1) env) k = None.
Proof.
  intros Hk. induction env as [|[k' v] r IH]; [done|]. cbn [List.filter fst]. destruct (f k') eqn:E; [|done].
  rewrite env_value_cons, IH. destruct (String.eqb_spec k' k) as [->|]; [congruence|done].
Qed.

Lemma env_value_unset env metadata k :
  env_value (apply_unset_environment env metadata) k =
    if bool_decide (k ∈ unset_names metadata) then None else env_value env k.
Proof.
  unfold apply_unset_environment. pose (f k := negb (bool_decide (k ∈ unset_names metadata))).
  destruct (bool_decide (k ∈ unset_names metadata)) eqn:E.
  - apply (env_value_filtered f). unfold f. by rewrite E.
  - apply (env_value_filter f). unfold f. by rewrite E.
Qed.

(** ** Lists of paths *)

Lemma prepend_value key paths env k :
  env_value (prepend_env_paths key paths env) k =
    if String.eqb k key && negb (shadowed env key) && negb (bool_decide (paths = [])) then
      Some (match env_value env key with
            | Some v => if is_empty v then join ":" paths else fmt [join ":" paths; ":"; v]
            | None => join ":" paths
            end)
    else env_value env k.
Proof.
  destruct paths as [|p ps]; cbn [prepend_env_paths]; [by rewrite andb_false_r|]. rewrite env_value_update.
  by rewrite andb_true_r.
Qed.

Lemma append_value key paths env k :
  env_value (append_env_paths key paths env) k =
    if String.eqb k key && negb (shadowed env key) && negb (bool_decide (paths = [])) then
      Some (match env_value env key with
            | Some v => if is_empty v then join ":" paths else fmt [v; ":"; join ":" paths]
            | None => join ":" paths
            end)
    else env_value env k.
Proof.
  destruct paths as [|p ps]; cbn [append_env_paths]; [by rewrite andb_false_r|]. rewrite env_value_update.
  by rewrite andb_true_r.
Qed.

Lemma prepend_other key paths env k : k <> key -> env_value (prepend_env_paths key paths env) k = env_value env k.
Proof. intros Hk%String.eqb_neq. by rewrite prepend_value, Hk. Qed.
Lemma append_other key paths env k : k <> key -> env_value (append_env_paths key paths env) k = env_value env k.
Proof. intros Hk%String.eqb_neq. by rewrite append_value, Hk. Qed.

Lemma shadowed_prepend key paths env k : shadowed (prepend_env_paths key paths env) k = shadowed env k.
Proof. destruct paths; [done|]. apply shadowed_update. Qed.
Lemma shadowed_append key paths env k : shadowed (append_env_paths key paths env) k = shadowed env k.
Proof. destruct paths; [done|]. apply shadowed_update. Qed.
Lemma shadowed_merge env updates k : shadowed (merge_env env updates) k = shadowed env k.
Proof.
  unfold merge_env. revert env. induction updates as [|e r IH]; intros env; [done|]. cbn [foldl]. rewrite IH. apply shadowed_update.
Qed.
Lemma merge_other env updates k : k ∉ updates.*1 -> env_value (merge_env env updates) k = env_value env k.
Proof.
  unfold merge_env. revert env. induction updates as [|e r IH]; intros env; [done|]. cbn [foldl]. rewrite fmap_cons.
  intros [Hk Hr]%not_elem_of_cons. rewrite IH by done. rewrite env_value_update. apply String.eqb_neq in Hk. by rewrite Hk.
Qed.

(** The pieces of a list of paths, none for a variable that is empty or not set. *)
Definition pieces (v : option string) : list string :=
  match v with Some v => if is_empty v then [] else [v] | None => [] end.

Lemma join_ne ps : ps <> [] -> Forall (fun p => p <> "") ps -> join ":" ps <> "".
Proof. destruct ps as [|p [|q r]]; [done|by intros _ [? _]%Forall_cons|]. intros _ [Hp _]%Forall_cons. cbn. by destruct p. Qed.

Lemma join_app l k : l <> [] -> k <> [] -> join ":" (l ++ k) = fmt [join ":" l; ":"; join ":" k].
Proof.
  intros Hl Hk. induction l as [|p l IH]; [done|]. cbn [Datatypes.app]. rewrite (join_cons ":" p (l ++ k)) by (destruct l; [exact Hk|discriminate]).
  destruct l as [|q l]; [by str_norm|]. rewrite (join_cons ":" p (q :: l)) by done. rewrite IH by done. by str_norm.
Qed.

(** A variable that holds_paths a list of paths. *)
Definition holds_paths (env : environment) (key : string) (l : list string) : Prop :=
  shadowed env key = false /\ default "" (env_value env key) = join ":" l /\ Forall (fun p => p <> "") l.

Lemma holds_value env key l : holds_paths env key l -> forall v, env_value env key = Some v -> is_empty v = bool_decide (l = []).
Proof.
  intros (_ & Hd & Hl) v Hv. rewrite Hv in Hd. cbn in Hd. subst v. destruct l as [|p l]; [done|].
  rewrite bool_decide_false by done. by apply is_empty_false, join_ne.
Qed.

Lemma holds_prepend env key paths l : Forall (fun p => p <> "") paths -> holds_paths env key l ->
  holds_paths (prepend_env_paths key paths env) key (paths ++ l).
Proof.
  intros Hp Hh. pose proof (holds_value env key l Hh) as Hv. destruct Hh as (Hs & Hd & Hl).
  split_and!; [by rewrite shadowed_prepend| |by apply Forall_app].
  rewrite prepend_value, String.eqb_refl, Hs. cbn [andb negb].
  destruct paths as [|p ps]; [done|]. rewrite bool_decide_false by done. cbn [negb]. cbn [default].
  destruct (env_value env key) as [v|] eqn:E; cbn [default] in *; unfold id in *.
  - rewrite (Hv v eq_refl). destruct l as [|q l]; [by rewrite app_nil_r|].
    rewrite bool_decide_false by done. rewrite Hd. by rewrite join_app.
  - destruct l as [|q l]; [by rewrite app_nil_r|]. symmetry in Hd. by apply join_ne in Hd.
Qed.

Lemma holds_append env key paths l : Forall (fun p => p <> "") paths -> holds_paths env key l ->
  holds_paths (append_env_paths key paths env) key (l ++ paths).
Proof.
  intros Hp Hh. pose proof (holds_value env key l Hh) as Hv. destruct Hh as (Hs & Hd & Hl).
  split_and!; [by rewrite shadowed_append| |by apply Forall_app].
  rewrite append_value, String.eqb_refl, Hs. cbn [andb negb].
  destruct paths as [|p ps]; [by rewrite app_nil_r|]. rewrite bool_decide_false by done. cbn [negb]. cbn [default].
  destruct (env_value env key) as [v|] eqn:E; cbn [default] in *; unfold id in *.
  - rewrite (Hv v eq_refl). destruct l as [|q l]; [done|].
    rewrite bool_decide_false by done. rewrite Hd. by rewrite join_app.
  - destruct l as [|q l]; [done|]. symmetry in Hd. by apply join_ne in Hd.
Qed.

(** Changes of other variables. *)
Lemma holds_prepend_other env key key' paths l : key <> key' -> holds_paths env key l -> holds_paths (prepend_env_paths key' paths env) key l.
Proof.
  intros Hk (Hs & Hd & Hl). split_and!; [by rewrite shadowed_prepend| |done]. by rewrite prepend_other.
Qed.
Lemma holds_append_other env key key' paths l : key <> key' -> holds_paths env key l -> holds_paths (append_env_paths key' paths env) key l.
Proof.
  intros Hk (Hs & Hd & Hl). split_and!; [by rewrite shadowed_append| |done]. by rewrite append_other.
Qed.
Lemma holds_merge env key updates l : key ∉ updates.*1 -> holds_paths env key l -> holds_paths (merge_env env updates) key l.
Proof. intros Hk (Hs & Hd & Hl). split_and!; [by rewrite shadowed_merge|by rewrite merge_other|done]. Qed.

Create HintDb holds_paths.
#[export] Hint Resolve holds_prepend holds_append holds_merge : holds_paths.
#[export] Hint Extern 2 (holds_paths (prepend_env_paths ?k' _ _) ?k _) => apply holds_prepend_other; [discriminate|] : holds_paths.
#[export] Hint Extern 2 (holds_paths (append_env_paths ?k' _ _) ?k _) => apply holds_append_other; [discriminate|] : holds_paths.

(** ** Theorems *)

(** C0.  What a program sees of the metadata's environment: the entries of the
    runtime and then of the application are assigned in order, each expanded
    with the values so far; a name with two entries keeps its last one, and the
    names to be unset are gone. *)
Theorem metadata_environment_exact env rt app k :
  env_value (apply_unset_environment (apply_metadata_env env rt app) app) k =
    if bool_decide (k ∈ unset_names app) then None
    else scope_after (shadowed env) (section_entries rt "Environment" ++ section_entries app "Environment") (env_value env) k.
Proof.
  rewrite env_value_unset. destruct (bool_decide _); [done|]. rewrite apply_metadata_env_flat. apply apply_entries_scope.
Qed.

(** C0.  A value made of text, names and names in braces expands to the text
    and the values of the names, in order. *)
Theorem expansion_is_exact ps env : template_ok ps ->
  expand_env_value (render ps) env = fmt (map (part_value (env_value env)) ps).
Proof. intros Hw. by apply expand_render. Qed.

(** The keys of the lists of paths. *)
Definition path_variables : list string := ["LD_PRELOAD"; "ZYPAK_LD_PRELOAD"; "LD_LIBRARY_PATH"].

(** C0.  Whatever the environment was, the shims of the Linux compatibility
    layer, of the network and of graphics are preloaded in this order before
    anything else, and libraries are looked for in the application's extensions,
    the video and the graphics drivers, what was there before, the runtime's
    extensions and the runtime. *)
Theorem search_paths_are_ordered parts libraries env preload zypak library :
  (forall l, l ∈ [graphics_libraries parts; graphics_preload parts; graphics_zypak_preload parts; network_preload parts;
             linux_compat_preload parts; video_libraries parts; app_extension_libraries parts;
             runtime_extension_libraries parts; libraries] -> Forall (fun p => p <> "") l) ->
  (forall k, k ∈ path_variables -> (k ∉ map fst (graphics_env parts)) /\ (k ∉ map fst (video_env parts))) ->
  holds_paths env "LD_PRELOAD" preload -> holds_paths env "ZYPAK_LD_PRELOAD" zypak -> holds_paths env "LD_LIBRARY_PATH" library ->
  let env' := library_env parts libraries (preload_env parts env) in
  holds_paths env' "LD_PRELOAD" (linux_compat_preload parts ++ network_preload parts ++ graphics_preload parts ++ preload) /\
  holds_paths env' "ZYPAK_LD_PRELOAD" (linux_compat_preload parts ++ network_preload parts ++ graphics_zypak_preload parts ++ zypak) /\
  holds_paths env' "LD_LIBRARY_PATH"
    (((app_extension_libraries parts ++ video_libraries parts ++ graphics_libraries parts ++ library)
       ++ runtime_extension_libraries parts) ++ libraries).
Proof.
  intros Hl Hk Hp Hz Hlib env'.
  assert (forall k, k ∈ path_variables -> k ∉ map fst (graphics_env parts)) as Hg by (intros k H'; apply (Hk k H')).
  assert (forall k, k ∈ path_variables -> k ∉ map fst (video_env parts)) as Hv by (intros k H'; apply (Hk k H')).
  unfold env', library_env, preload_env, apply_graphics_preloads, path_variables in *.
  split_and!; apply holds_merge; try (apply Hv; set_solver); eauto 20 with holds_paths;
    repeat match goal with
    | |- holds_paths (append_env_paths "LD_LIBRARY_PATH" _ _) "LD_LIBRARY_PATH" _ => apply holds_append; [apply Hl; set_solver|]
    | |- holds_paths (prepend_env_paths ?k _ _) ?k _ => apply holds_prepend; [apply Hl; set_solver|]
    | |- holds_paths (append_env_paths _ _ _) _ _ => apply holds_append_other; [discriminate|]
    | |- holds_paths (prepend_env_paths _ _ _) _ _ => apply holds_prepend_other; [discriminate|]
    | |- holds_paths (merge_env _ _) _ _ => apply holds_merge; [apply Hg; set_solver|]
    end; done.
Qed.

(** ** Directories named by the metadata *)

(** The part of the application in the runtime directory. *)
Definition app_runtime_components (uid : N) (app_id : string) : list component :=
  RootDir :: map Normal ["run"; "user"; show_N uid; "app"; app_id].

Lemma body_words ws : Forall name_ok ws -> body ws = map Normal ws.
Proof.
  induction 1 as [|w ws (Hs & Hk & Hd) _ IH]; [done|]. rewrite body_keep by done. rewrite IH.
  by destruct (String.eqb_spec w "..").
Qed.

Lemma components_words ws : Forall name_ok ws -> components ("/" +:+ join "/" ws) = RootDir :: map Normal ws.
Proof. intros Hw. rewrite components_with_root, body_words; [done..|]. eapply Forall_impl; [exact Hw|]. by intros s (? & _). Qed.

Lemma runtime_prefix uid : fmt ["/run/user/"; show_N uid] = "/" +:+ join "/" ["run"; "user"; show_N uid].
Proof. by str_norm. Qed.
Lemma app_prefix uid app_id : fmt ["/run/user/"; show_N uid; "/app/"; app_id] = "/" +:+ join "/" ["run"; "user"; show_N uid; "app"; app_id].
Proof. by str_norm. Qed.

(** The directory of an entry is below the application's part of the host's
    runtime directory by its components, dot-dots included. *)
Lemma metadata_runtime_dir_components host uid app_id e h : host <> "" -> name_ok app_id ->
  metadata_runtime_dir host uid app_id e = Some h ->
  exists rest, components e.2 = app_runtime_components uid app_id ++ rest /\
    components h = components host ++ map Normal ["app"; app_id] ++ rest.
Proof.
  intros Hh Ha Hd. unfold metadata_runtime_dir in Hd. destruct (negb (ends_with _ _)); [done|].
  destruct (_ || _) eqn:E; [done|]. apply orb_false_iff in E as [_ E%negb_false_iff].
  apply fmap_Some in Hd as (r & Hr & ->). rewrite runtime_prefix in Hr. rewrite app_prefix in E.
  assert (Forall name_ok ["run"; "user"; show_N uid]) as Hn by (repeat constructor; done || apply show_N_name).
  assert (Forall name_ok ["run"; "user"; show_N uid; "app"; app_id]) as Hn' by (repeat constructor; done || apply show_N_name || apply Ha).
  apply strip_path_prefix_components in Hr as (Hc & Hrel & Hb & _); [|by rewrite components_words].
  rewrite components_words in Hc by done.
  apply path_starts_with_true in E as [rest E]. rewrite components_words in E by done.
  exists rest. split; [done|]. rewrite components_join, Hb by done. f_equal. rewrite Hc in E. cbn in E |- *. by injection E as E.
Qed.

Lemma metadata_runtime_dir_made host uid app_id key v : ends_with "_DIR" key = true -> is_absolute v = true ->
  app_runtime_components uid app_id `prefix_of` components v -> name_ok app_id ->
  exists h, metadata_runtime_dir host uid app_id (key, v) = Some h.
Proof.
  intros Hk Hv Hp Ha. unfold metadata_runtime_dir. cbn [fst snd]. rewrite Hk. cbn [negb]. rewrite Hv. cbn [negb orb].
  assert (Forall name_ok ["run"; "user"; show_N uid]) as Hn by (repeat constructor; done || apply show_N_name).
  assert (Forall name_ok ["run"; "user"; show_N uid; "app"; app_id]) as Hn' by (repeat constructor; done || apply show_N_name || apply Ha).
  rewrite app_prefix, runtime_prefix. unfold path_starts_with at 1. rewrite components_words by done.
  rewrite bool_decide_true by done. cbn [negb]. unfold strip_path_prefix, path_starts_with.
  rewrite components_words by done. rewrite bool_decide_true; [by eexists|].
  etransitivity; [|exact Hp]. unfold app_runtime_components. cbn [map].
  by apply (prefix_app_r _ [RootDir; Normal "run"; Normal "user"; Normal (show_N uid)] [Normal "app"; Normal app_id]).
Qed.

(** C0.  The directories that the metadata's environment names are not confined
    to the application: the value below is in the application's part of the
    runtime directory by its components, but the directory that is made on the
    host for it is a sibling of the host's runtime directory. *)
Theorem runtime_dir_can_escape {W} `{FileOps W} host dirs base uid app_id key name (w : W) :
  is_absolute host = true -> components host = RootDir :: map Normal (dirs ++ [base]) ->
  name_ok app_id -> name_ok name -> ends_with "_DIR" key = true ->
  (forall h, (make_dirs h w).1 = inl tt) ->
  let v := "/" +:+ join "/" ["run"; "user"; show_N uid; "app"; app_id; ".."; ".."; ".."; name] in
  exists h q, metadata_runtime_dir host uid app_id (key, v) = Some h /\
    ensure_metadata_runtime_dirs [(key, v)] host uid app_id w = (Ok tt, (make_dirs h w).2) /\
    normalize_absolute_path (Err []) h = Ok q /\ components q = RootDir :: map Normal (dirs ++ [name]).
Proof.
  intros Habs Hhost Ha Hn Hk Hmk v. pose proof (show_N_name uid) as Hu.
  assert (components v = app_runtime_components uid app_id ++ [ParentDir; ParentDir; ParentDir; Normal name]) as Hv.
  { unfold v. rewrite components_with_root by (repeat constructor; done || apply Hu || apply Ha || apply Hn).
    change (body _) with (body (["run"; "user"; show_N uid; "app"; app_id] ++ [".."; ".."; ".."] ++ [name])).
    rewrite !body_app, (body_words [name]), (body_words ["run"; "user"; show_N uid; "app"; app_id])
      by (repeat constructor; done || apply Hu || apply Ha || apply Hn). done. }
  destruct (metadata_runtime_dir_made host uid app_id key v) as [h Hh]; [done|done|rewrite Hv; by apply prefix_app_r|done|].
  assert (host <> "") as Hne by (by intros ->).
  destruct (metadata_runtime_dir_components host uid app_id (key, v) h Hne Ha Hh) as (rest & Hr & Hc).
  cbn [snd] in Hr. rewrite Hv in Hr. apply app_inv_head in Hr as <-.
  assert (is_absolute h = true) as Hhabs.
  { unfold metadata_runtime_dir in Hh. destruct (negb _); [done|]. destruct (_ || _); [done|].
    apply fmap_Some in Hh as (r & Hr & ->). apply strip_path_prefix_components in Hr as (_ & Hr & _).
    - by rewrite is_absolute_join.
    - rewrite runtime_prefix, components_words; [done|]. repeat constructor; done || apply Hu. }
  destruct (normalize_absolute (Err []) h Hhabs) as (q & Hq & _ & Hqc). exists h, q. split_and!; [done| |done|].
  - unfold ensure_metadata_runtime_dirs. cbn [for_each]. rewrite Hh. unfold mbind, M_bind, io_step, io_context. specialize (Hmk h). destruct (make_dirs h w) as [r w1]. cbn in Hmk |- *. by rewrite Hmk.
  - rewrite Hqc, Hc, Hhost. f_equal. f_equal. rewrite !foldl_app. cbn [foldl reduce]. rewrite reduce_normals.
    cbn [foldl reduce]. rewrite reduce_normals. cbn [Datatypes.app]. change ["app"; app_id] with (["app"] ++ [app_id]).
    by rewrite app_assoc, !removelast_last.
Qed.

(** C0.  When the desktop has a session bus and the portal a proxy for it, the
    bus has two entries when the metadata is applied: what the metadata or an
    override says about it is written to the first one, and the program sees the
    proxy. *)
Theorem bus_override_is_lost {W} `{FileOps W} var_os i hf parts desktop uid user app_id runtime_ref runtime_dir metadata
    address proxy (w w' : W) env :
  chroot_dbus_address desktop uid = Some address ->
  env_value (portal_env parts) "DBUS_SESSION_BUS_ADDRESS" = Some proxy ->
  "DBUS_SESSION_BUS_ADDRESS" ∉ unset_names metadata ->
  "DBUS_SESSION_BUS_ADDRESS" ∉ map fst (graphics_env parts) -> "DBUS_SESSION_BUS_ADDRESS" ∉ map fst (video_env parts) ->
  launch_environment var_os i hf parts desktop uid user app_id runtime_ref runtime_dir metadata w = (Ok env, w') ->
  env_value env "DBUS_SESSION_BUS_ADDRESS" = Some proxy.
Proof.
  set (k := "DBUS_SESSION_BUS_ADDRESS"). intros Hb Hp Hu Hg Hv Hr. unfold launch_environment in Hr.
  apply M_bind_ok in Hr as (env0 & w0 & Hl0 & Hr). injection Hl0 as Hl0 <-. rewrite gets_bind in Hr.
  apply M_bind_ok in Hr as (rt & w1 & _ & Hr). cbn zeta in Hr. apply M_bind_ok in Hr as (libs & w2 & _ & Hr).
  apply M_bind_ok in Hr as (u & w3 & _ & Hr). injection Hr as <- <-.
  set (env1 := entry_env hf w parts env0).
  assert (shadowed env1 k = true /\ env_value env1 k = Some proxy) as [Hs He].
  { split; [|unfold env1, entry_env; by rewrite env_value_app, Hp].
    apply Nat.leb_le. unfold env1, entry_env. rewrite occurrences_app.
    assert (occurrences (portal_env parts) k <> 0) as Hn by (intros Hz%occurrences_none; congruence).
    enough (env_value (prepend_env_paths "XDG_CONFIG_DIRS" (cursor_config_dirs parts)
              ((((List.filter (fun e => negb (String.eqb e.1 "HOME")) env0 ++ [("HOME", sandbox_home_env hf "/var/data")])
                ++ user_dir_env w hf) ++ audio_env parts) ++ cursor_env parts)) k <> None) as Hne.
    { rewrite <- occurrences_none in Hne. lia. }
    rewrite prepend_other, !env_value_app by discriminate. repeat case_match; try done.
    rewrite (env_value_filter (fun s => negb (String.eqb s "HOME"))) by done.
    unfold launch_env in Hl0. inv_ok. rewrite Hb in Hl0. subst env0. by rewrite env_value_app. }
  unfold library_env, preload_env, apply_graphics_preloads.
  rewrite merge_other by done. rewrite !append_other by discriminate. rewrite !prepend_other by discriminate.
  rewrite merge_other by done. rewrite env_value_unset, bool_decide_false by done.
  rewrite apply_metadata_env_flat. destruct (apply_entries_scope (section_entries rt "Environment" ++ section_entries metadata "Environment") env1 k) as [Hsc _].
  rewrite Hsc. by rewrite scope_after_shadowed.
Qed.

(** ** Witnesses *)

Lemma expansion_is_exact_witness :
  expand_env_value "$XDG_RUNTIME_DIR/app/${FLATPAK_ID}/$ 5$" [("XDG_RUNTIME_DIR", "/run/user/1001"); ("FLATPAK_ID", "org.a.App")] =
    "/run/user/1001/app/org.a.App/$ 5$".
Proof.
  pose (ps := [Named "XDG_RUNTIME_DIR"; Text "/app/"; Braced "FLATPAK_ID"; Text "/"; Dollar; Text " 5"; Dollar]).
  change "$XDG_RUNTIME_DIR/app/${FLATPAK_ID}/$ 5$" with (render ps). rewrite expansion_is_exact; [reflexivity|].
  vm_compute. repeat split; discriminate.
Defined.

Definition example_parts : LaunchParts :=
  mkParts [("PULSE_SERVER", "unix:/run/pulse")] [] ["/run/host/cursors"]
    [("GTK_USE_PORTAL", "1"); ("DBUS_SESSION_BUS_ADDRESS", "unix:path=/run/user/1001/proxy")]
    [("LIBGL_DRIVERS_PATH", "/gl/lib/dri")] ["/gl/lib"] ["/shim/drm.so"] ["/shim/wayland.so"] ["/shim/net.so"]
    ["/shim/compat.so"] ["/video/lib"] [] ["/app/ext/lib"] ["/usr/ext/lib"].

Lemma search_paths_are_ordered_witness :
  let env := [("LD_PRELOAD", "/app/own.so"); ("LD_LIBRARY_PATH", "/app/lib:/app/lib64")] in
  let env' := library_env example_parts ["/usr/lib"] (preload_env example_parts env) in
  env_value env' "LD_PRELOAD" = Some "/shim/compat.so:/shim/net.so:/shim/drm.so:/app/own.so" /\
  holds_paths env' "LD_LIBRARY_PATH" ((["/app/ext/lib"; "/video/lib"; "/gl/lib"; "/app/lib:/app/lib64"] ++ ["/usr/ext/lib"]) ++ ["/usr/lib"]).
Proof.
  intros env env'. split; [vm_compute; reflexivity|].
  refine (proj2 (proj2 (search_paths_are_ordered example_parts ["/usr/lib"] env ["/app/own.so"] [] ["/app/lib:/app/lib64"] _ _ _ _ _))).
  - intros l Hl. repeat (apply elem_of_cons in Hl as [->|Hl]; [repeat constructor; discriminate|]). by apply elem_of_nil in Hl.
  - intros k Hk. unfold path_variables in Hk. cbn. repeat (apply elem_of_cons in Hk as [->|Hk]; [split; set_solver|]). by apply elem_of_nil in Hk.
  - repeat split. by repeat constructor.
  - repeat split. by repeat constructor.
  - repeat split. by repeat constructor.
Defined.

Lemma runtime_dir_can_escape_witness :
  exists h q, metadata_runtime_dir "/var/run/user/1001" 1001 "org.a.App"
      ("CACHE_DIR", "/run/user/1001/app/org.a.App/../../../1002") = Some h /\
    ensure_metadata_runtime_dirs [("CACHE_DIR", "/run/user/1001/app/org.a.App/../../../1002")] "/var/run/user/1001" 1001
      "org.a.App" (mkTree [] []) = (Ok tt, (make_dirs h (mkTree [] [])).2) /\
    normalize_absolute_path (Err []) h = Ok q /\ components q = components "/var/run/user/1002".
Proof.
  apply (runtime_dir_can_escape "/var/run/user/1001" ["var"; "run"; "user"] "1001" 1001 "org.a.App" "CACHE_DIR" "1002" (mkTree [] []));
    try reflexivity; repeat split; discriminate.
Defined.

(** An application whose metadata overrides the session bus. *)
Definition example_installation : Installation := mkInstallation "/home/u/.local/share" "/d" "/c" "/r" "/v" "/l" "/x".
Definition example_files : HostFilesystem := mkHostFilesystem [] [] [] "/home/u" (xdg_defaults "/home/u").
Definition example_desktop : DesktopSession :=
  mkDesktop "/var/run/user/1001" "wayland-0" None (Some "unix:path=/var/run/user/1001/bus").
Definition example_metadata : string :=
  fmt ["[Environment]"; nl; "DBUS_SESSION_BUS_ADDRESS=unix:path=/run/private"; nl; "CACHE_DIR=$XDG_RUNTIME_DIR/app/$FLATPAK_ID/cache"; nl].
Definition example_tree : TreeFs :=
  mkTree [components "/rt"] [(components "/rt/metadata", fmt ["[Environment]"; nl; "GST=1"; nl])].

Definition example_launch : result (list (string * string)) * TreeFs :=
  launch_environment (fun _ => None) example_installation example_files example_parts example_desktop 1001 "u" "org.a.App"
    "org.freedesktop.Platform/x86_64/25.08" "/rt" example_metadata example_tree.

Lemma bus_override_is_lost_witness :
  match example_launch with
  | (Ok env, w') =>
      env_value env "CACHE_DIR" = Some "/run/user/1001/app/org.a.App/cache" /\
      components "/var/run/user/1001/app/org.a.App/cache" ∈ dirs w' /\
      env_value env "DBUS_SESSION_BUS_ADDRESS" = Some "unix:path=/run/user/1001/proxy"
  | _ => False
  end.
Proof.
  destruct example_launch as [[env|e] w'] eqn:E; [|vm_compute in E; discriminate E].
  assert (env_value env "CACHE_DIR" = Some "/run/user/1001/app/org.a.App/cache" /\
          components "/var/run/user/1001/app/org.a.App/cache" ∈ dirs w') as [Hc Hd].
  { vm_compute in E. injection E as <- <-. split; [reflexivity|left]. }
  split; [exact Hc|]. split; [exact Hd|].
  eapply (bus_override_is_lost (fun _ => None) example_installation example_files example_parts example_desktop);
    [reflexivity|reflexivity|..|exact E]; apply (bool_decide_unpack _); vm_compute; exact I.
Defined.
