(* ===== verification/SandboxRoot.v ===== *)
(** * SandboxRoot: the files of a fresh sandbox root
    (src/src/sandbox/sandbox_root.rs and flatpak_installation.rs)

    The root gets directories for its mounts, an /etc of links into the
    runtime's, the identity files and, with network access, the host's resolver
    files; and the file .flatpak-info.  Every change is recorded in a trace, so
    that what a root can show of the host is read off the trace, whatever the
    system answers. *)
From Stdlib Require Import Ascii String NArith ZArith Lia.
From stdpp Require Import base list strings sets.
From S2P Require Import Prelude Effects Traces Collections RustStr RustNum RustPath HostFs FlatpakMetadata InstallationPaths Records Activation ApplicationEntry.

(** The making of links and the reading of bytes. *)
Class RootWorld (W : Type) `{FileOps W} := {
  symlink : string -> path -> W -> io_result unit * W;
  read_bytes : W -> path -> io_result string;
}.

(** A change of the root, with its outcome. *)
Inductive RootEvent :=
| EDirs (p : path) (r : result unit)
| ERemove (p : path) (r : result unit)
| ELink (target : string) (p : path) (r : result unit)
| EWrite (p : path) (data : string) (r : result unit)
| EMode (p : path) (mode : nat) (r : result unit).

Definition event_path (e : RootEvent) : path :=
  match e with EDirs p _ | ERemove p _ | ELink _ p _ | EWrite p _ _ | EMode p _ _ => p end.

Section Root.
Context {W : Type} `{RootWorld W}.
Abbreviation T A := (M (traced W RootEvent) A) (only parsing).

Definition make_directories (msg : string) (p : path) : T unit := call (EDirs p) (io_step msg (make_dirs p)).
Definition remove (msg : string) (p : path) : T unit := call (ERemove p) (io_step msg (remove_file p)).
Definition link_to (target : string) (p : path) : T unit :=
  call (ELink target p) (io_step (fmt ["symlink "; p; " -> "; target]) (symlink target p)).
Definition write_contents (p : path) (data : string) : T unit := call (EWrite p data) (io_step (fmt ["write "; p]) (write_file p data)).
Definition set_permissions (p : path) (mode : nat) : T unit :=
  call (EMode p mode) (io_step (fmt ["set permissions on "; p]) (set_mode p mode)).
Definition see {A} (f : W -> A) : T A := quiet (gets f).
Definition ask_for {A} (f : W -> result A) : T A := quiet (getr f).

Definition make_link (target : string) (p : path) : T unit :=
  kind ← see (fun w => symlink_kind w p);
  match kind with
  | inl _ => mret tt
  | inr _ => link_to target p
  end.

Definition remove_regular_overlay_file (p : path) : T unit :=
  kind ← see (fun w => symlink_kind w p);
  match kind with
  | inl (Symlink | RegularFile) => remove (fmt ["remove "; p]) p
  | _ => mret tt
  end.

Definition prepare_runtime_os_release (etc runtime_etc : path) : T unit :=
  let target := join_path etc "os-release" in
  _ ← remove_regular_overlay_file target;
  match parent runtime_etc with
  | None => mret tt
  | Some runtime_files =>
      present ← see (fun w => is_file w (join_path runtime_files "lib/os-release"));
      if present : bool then link_to "../usr/lib/os-release" target else mret tt
  end.

Definition prepare_host_resolver_file (etc : path) (name : string) (host_path : path) (network_enabled : bool) : T unit :=
  let target := join_path etc name in
  present ← see (fun w => path_exists w host_path);
  if negb network_enabled || negb present then remove_regular_overlay_file target
  else
    kind ← see (fun w => symlink_kind w target);
    _ ← (match kind with
         | inl (Symlink | RegularFile) => remove (fmt ["replace "; target]) target
         | inl _ => lift (bail (fmt [target; " exists and is not a file"]))
         | inr _ => mret tt
         end);
    data ← ask_for (fun w => io_context (fmt ["read "; host_path]) (read_bytes w host_path));
    _ ← write_contents target data;
    set_permissions target 420.   (* 0o644 *)

(** The files of /etc that the sandbox has its own of. *)
Definition own_etc_files : list string := ["passwd"; "group"; "resolv.conf"; "hosts"; "os-release"].

Definition overlay_entry (etc runtime_etc : path) (entry : io_result DirEntry) : T unit :=
  entry ← lift (io_context (fmt ["read entry in "; runtime_etc]) entry);
  match from_utf8 (file_name entry) with
  | None => mret tt
  | Some name_text =>
      if bool_decide (name_text ∈ own_etc_files) then mret tt
      else
        let link := join_path etc name_text in
        kind ← see (fun w => symlink_kind w link);
        match kind with
        | inl _ => mret tt
        | inr _ => link_to (fmt ["/usr/etc/"; name_text]) link
        end
  end.

Definition prepare_etc_overlay (root runtime_etc : path) (network_enabled : bool) : T unit :=
  let etc := join_path root "etc" in
  kind ← see (fun w => symlink_kind w etc);
  _ ← (match kind with
       | inl Symlink => remove (fmt ["replace "; etc]) etc
       | inl Directory | inr _ => mret tt
       | inl _ => lift (bail (fmt [etc; " exists and is not a directory"]))
       end);
  _ ← make_directories (fmt ["create "; etc]) etc;
  entries ← ask_for (fun w => io_context (fmt ["read "; runtime_etc]) (read_dir w runtime_etc));
  _ ← for_each (overlay_entry etc runtime_etc) entries;
  _ ← prepare_runtime_os_release etc runtime_etc;
  _ ← prepare_host_resolver_file etc "resolv.conf" "/etc/resolv.conf" network_enabled;
  prepare_host_resolver_file etc "hosts" "/etc/hosts" network_enabled.

Definition prepare_identity_file (etc : path) (file : string * string) : T unit :=
  let target := join_path etc file.1 in
  _ ← remove_regular_overlay_file target;
  _ ← write_contents target file.2;
  set_permissions target 420.
Definition prepare_identity_files (etc : path) (identity : SandboxIdentity) : T unit :=
  for_each (prepare_identity_file etc) [("passwd", passwd_contents identity); ("group", group_contents identity)].

Definition root_directories : list string :=
  ["app"; "usr"; "dev"; "proc"; "sys"; "tmp"; "var/data"; "var/cache"; "var/config"].

Definition prepare_root (root : path) (identity : SandboxIdentity) (runtime_etc : path) (network_enabled : bool) : T unit :=
  _ ← for_each (fun dir => make_directories (fmt ["create "; join_path root dir]) (join_path root dir)) root_directories;
  _ ← make_directories (fmt ["create "; join_path root "run/user"])
        (join_path (join_path (join_path root "run") "user") (show_Z (id_uid identity)));
  _ ← make_link "usr/bin" (join_path root "bin");
  _ ← make_link "usr/lib" (join_path root "lib");
  _ ← make_link "usr/lib64" (join_path root "lib64");
  _ ← prepare_etc_overlay root runtime_etc network_enabled;
  prepare_identity_files (join_path root "etc") identity.

(** ** .flatpak-info *)

Definition info_list (items : list string) : string :=
  match items with [] => "" | _ => fmt [join ";" items; ";"] end.

Definition flatpak_info (app : FlatpakApp) (instance_id : string) (extensions : ExtensionMountPlan) : string :=
  fmt (map end_line
    ["[Application]";
     fmt ["name="; fa_app_id app];
     fmt ["runtime="; fa_runtime_ref app];
     "";
     "[Instance]";
     fmt ["instance-id="; instance_id];
     "flatpak-version=1.12.0";
     fmt ["app-extensions="; info_list (app_info extensions)];
     fmt ["runtime-extensions="; info_list (runtime_info extensions)];
     "";
     "[Context]";
     "filesystems="]).

Definition write_flatpak_info (root : path) (app : FlatpakApp) (instance_id : string) (extensions : ExtensionMountPlan) : T unit :=
  write_contents (join_path root ".flatpak-info") (flatpak_info app instance_id extensions).
End Root.

Definition app_allows_network (metadata : string) : bool :=
  match value metadata "Context" "shared" with
  | Some shared => existsb (fun p => String.eqb p "network") (map trim (split ";" shared))
  | None => false
  end.

(** ** The installation shown to an application *)

Definition PROJECTION_SOURCE : string := ".freebsd-flatpak-mount-sources/flatpak-apps".

Record ProjectedDeployment := mkProjected { pd_source : path; pd_target : path }.
Record FlatpakInstallationProjection := mkProjection {
  source_root : path;
  target_root : path;
  deployments : list ProjectedDeployment;
}.

Section Projection.
Context {W : Type} `{FileOps W}.

Definition project_deployment (i : Installation) (source_root target_root : path) (acc : list ProjectedDeployment)
    (record : AppRecord) : M W (list ProjectedDeployment) :=
  let app_id := Records.app_id record in
  if is_empty app_id || has "/" app_id then lift (bail (fmt ["invalid installed application id: "; debug_str app_id]))
  else
    let relative := join_path app_id "current/active" in
    let skeleton := join_path source_root relative in
    _ ← io_step (fmt ["create "; skeleton]) (make_dirs skeleton);
    mret (acc ++ [mkProjected (absolute_data_path i (app_dir record)) (join_path target_root relative)]).

Definition project_installation (i : Installation) (root : path) : M W FlatpakInstallationProjection :=
  let target_root := join_path (data_home i) "flatpak/app" in
  target_root ← lift (ok_or (fmt ["XDG data home must be absolute: "; target_root]) (strip_path_prefix target_root "/"));
  let source_root := join_path root PROJECTION_SOURCE in
  _ ← io_step (fmt ["create "; source_root]) (make_dirs source_root);
  records ← list_apps i;
  deployments ← fold_each (project_deployment i source_root target_root) records [];
  mret (mkProjection source_root target_root deployments).
End Projection.

(** ** Lemmas: what is recorded *)

(** What a preparation may change: the predicate says which links and files a
    root may show of the host and the runtime. *)
Section Allowed.
Context {W : Type} `{RootWorld W} (root : path) (identity : SandboxIdentity) (runtime_etc : path) (network_enabled : bool).
Abbreviation T A := (M (traced W RootEvent) A) (only parsing).

Definition etc_file (name : string) : path := join_path (join_path root "etc") name.

Inductive allowed_link : string -> path -> Prop :=
| link_usr n : n ∈ ["bin"; "lib"; "lib64"] -> allowed_link (fmt ["usr/"; n]) (join_path root n)
| link_os_release : allowed_link "../usr/lib/os-release" (etc_file "os-release")
| link_runtime_etc n entry entries (w : W) : n ∉ own_etc_files ->
    read_dir w runtime_etc = inl entries -> inl entry ∈ entries -> file_name entry = n -> allowed_link (fmt ["/usr/etc/"; n]) (etc_file n).

Inductive allowed_write : path -> string -> Prop :=
| write_passwd : allowed_write (etc_file "passwd") (passwd_contents identity)
| write_group : allowed_write (etc_file "group") (group_contents identity)
| write_resolver n (w : W) d : network_enabled = true -> n ∈ ["resolv.conf"; "hosts"] ->
    read_bytes w (fmt ["/etc/"; n]) = inl d -> allowed_write (etc_file n) d.

Definition allowed (e : RootEvent) : Prop :=
  match e with
  | ELink target p _ => allowed_link target p
  | EWrite p d _ => allowed_write p d
  | EDirs p _ => p ∈ map (join_path root) ("etc" :: root_directories)
                 \/ p = join_path (join_path (join_path root "run") "user") (show_Z (id_uid identity))
  | ERemove p _ => p = join_path root "etc" \/ p ∈ map etc_file own_etc_files
  | EMode p mode _ => mode = 420 /\ p ∈ map etc_file own_etc_files
  end.

Lemma only_ret {A} P (a : A) : only P (mret (M := M (traced W RootEvent)) a).
Proof. apply emits_ret. constructor. Qed.
Lemma only_lift {A} P (x : result A) : only P (lift (W := traced W RootEvent) x).
Proof. apply emits_lift. constructor. Qed.
Lemma only_see {A B} P (f : W -> A) (k : A -> T B) : (forall w, only P (k (f w))) -> only P (see f ≫= k).
Proof. intros Hk s r s' Hr. by apply (Hk s.1 (s.1, s.2) r s') in Hr. Qed.
Lemma only_ask {A B} P (f : W -> result A) (k : A -> T B) :
  (forall w a, f w = Ok a -> only P (k a)) -> only P (ask_for f ≫= k).
Proof.
  intros Hk s r s' Hr. unfold ask_for, quiet, getr, mbind, M_bind in Hr. destruct (f s.1) as [a|e] eqn:E.
  - by apply (Hk _ a E (s.1, s.2)) in Hr.
  - injection Hr as <- <-. exists []. by rewrite app_nil_r.
Qed.
Lemma only_event {A} (P : RootEvent -> Prop) (event : result A -> RootEvent) (m : M W A) : (forall r, P (event r)) -> only P (call event m).
Proof. intros HP. apply emits_call. intros r. by repeat constructor. Qed.

Lemma only_remove_overlay n : n ∈ own_etc_files -> only allowed (remove_regular_overlay_file (etc_file n)).
Proof.
  intros Hn. apply only_see. intros w. destruct (symlink_kind w _) as [[]|]; try apply only_ret;
    apply only_event; intros r; right; by apply list_elem_of_fmap_2.
Qed.

Lemma only_os_release : only allowed (prepare_runtime_os_release (join_path root "etc") runtime_etc).
Proof.
  apply only_bind; [apply only_remove_overlay; set_solver|]. intros _.
  destruct (parent runtime_etc); [|apply only_ret]. apply only_see. intros w. destruct (is_file w _); [|apply only_ret].
  apply only_event. intros r. constructor.
Qed.

Lemma only_resolver n : n ∈ ["resolv.conf"; "hosts"] ->
  only allowed (prepare_host_resolver_file (join_path root "etc") n (fmt ["/etc/"; n]) network_enabled).
Proof.
  intros Hn. assert (n ∈ own_etc_files) as Ho by (unfold own_etc_files; set_solver).
  apply only_see. intros w. destruct network_enabled eqn:En; cbn [negb orb]; [|by apply only_remove_overlay].
  destruct (path_exists w _); cbn [negb]; [|by apply only_remove_overlay].
  apply only_see. intros w1. apply only_bind.
  { destruct (symlink_kind w1 _) as [[]|]; try apply only_ret; try apply only_lift;
      apply only_event; intros r; right; by apply list_elem_of_fmap_2. }
  intros _. apply only_ask. intros w2 d Hd. apply only_bind.
  - apply only_event. intros r. apply (write_resolver n w2); [done..|].
    unfold io_context in Hd. by destruct (read_bytes w2 _); [injection Hd as <-|].
  - intros _. apply only_event. intros r. split; [done|]. by apply list_elem_of_fmap_2.
Qed.

Lemma only_overlay_entry (w : W) entries entry : read_dir w runtime_etc = inl entries -> entry ∈ entries ->
  only allowed (overlay_entry (join_path root "etc") runtime_etc entry).
Proof.
  intros He Hin. destruct entry as [e|e]; [|by intros s r s' [= <- <-]; exists []; rewrite app_nil_r].
  unfold overlay_entry. cbn [io_context]. apply emits_lift_bind; [|done]. intros e' [= <-].
  unfold from_utf8. destruct (valid_utf8 (file_name e)); [|apply only_ret].
  case_bool_decide as Hn; [apply only_ret|]. apply only_see. intros w1. destruct (symlink_kind w1 _); [apply only_ret|].
  apply only_event. intros r. eapply link_runtime_etc; [done|exact He|exact Hin|done].
Qed.

Lemma only_etc_overlay : only allowed (prepare_etc_overlay root runtime_etc network_enabled).
Proof.
  apply only_see. intros w. apply only_bind.
  { destruct (symlink_kind w _) as [[]|]; try apply only_ret; try apply only_lift. apply only_event. intros r. by left. }
  intros _. apply only_bind; [apply only_event; intros r; left; left|]. intros _.
  apply only_ask. intros w1 entries He. unfold io_context in He. destruct (read_dir w1 runtime_etc) as [l|] eqn:El; [|done].
  injection He as <-. apply only_bind; [apply only_for_each; intros e Hin; by apply (only_overlay_entry w1 l)|]. intros _.
  apply only_bind; [apply only_os_release|]. intros _. apply only_bind; [apply (only_resolver "resolv.conf"); set_solver|].
  intros _. apply (only_resolver "hosts"); set_solver.
Qed.

Lemma only_identity_files : only allowed (prepare_identity_files (join_path root "etc") identity).
Proof.
  apply only_for_each. intros f Hf. assert (f.1 ∈ own_etc_files /\ allowed_write (etc_file f.1) f.2) as [Ho Hw].
  { repeat (apply elem_of_cons in Hf as [->|Hf]; [split; [unfold own_etc_files; set_solver|constructor]|]). by apply elem_of_nil in Hf. }
  apply only_bind; [by apply only_remove_overlay|]. intros _. apply only_bind; [by apply only_event|]. intros _.
  apply only_event. intros r. split; [done|]. by apply list_elem_of_fmap_2.
Qed.

Lemma only_make_link n : n ∈ ["bin"; "lib"; "lib64"] -> only allowed (make_link (fmt ["usr/"; n]) (join_path root n)).
Proof.
  intros Hn. apply only_see. intros w. destruct (symlink_kind w _); [apply only_ret|]. apply only_event. intros r. by constructor.
Qed.
End Allowed.

(** ** Identity files *)

Section Written.
Context {W : Type} `{RootWorld W}.

(** A file of the identity is written once nothing is in its place. *)
Lemma prepare_identity_file_writes etc f : 
  emits (W := W) (prepare_identity_file etc f) (fun r ev => r = Ok tt ->
    exists before, Forall (fun e => exists x, e = ERemove (join_path etc f.1) x) before /\
      ev = before ++ [EWrite (join_path etc f.1) f.2 (Ok tt); EMode (join_path etc f.1) 420 (Ok tt)]).
Proof.
  unfold prepare_identity_file. cbn zeta. eapply emits_bind.
  - apply (emits_mono _ (fun _ ev => Forall (fun e => exists x, e = ERemove (join_path etc f.1) x) ev)); [|by intros r ev; exact id].
    change (only (fun e => exists x, e = ERemove (join_path etc f.1) x) (remove_regular_overlay_file (W := W) (join_path etc f.1))).
    apply only_see. intros w. destruct (symlink_kind w _) as [[]|]; try apply only_ret; apply only_event; eauto.
  - intros [] ev1 Hev1. eapply emits_bind; [by apply (emits_call _ _ (fun r ev => ev = [EWrite (join_path etc f.1) f.2 r]))| |done].
    intros [] ev2 ->. apply emits_call. intros r Hr. subst r. by exists ev1.
  - done.
Qed.

Definition writes_last (p : path) (d : string) (ev : list RootEvent) : Prop :=
  exists before after, ev = before ++ EWrite p d (Ok tt) :: after /\
    Forall (fun e => event_path e = p -> exists m r, e = EMode p m r) after.

Lemma writes_last_app p d ev1 ev2 : writes_last p d ev1 ->
  Forall (fun e => event_path e = p -> exists m r, e = EMode p m r) ev2 -> writes_last p d (ev1 ++ ev2).
Proof. intros (b & a & -> & Ha) H2. exists b, (a ++ ev2). rewrite <- app_assoc. split; [done|]. by apply Forall_app. Qed.
Lemma writes_last_after p d ev1 ev2 : writes_last p d ev2 -> writes_last p d (ev1 ++ ev2).
Proof. intros (b & a & -> & Ha). exists (ev1 ++ b), a. by rewrite <- app_assoc. Qed.

Lemma etc_file_inj root n m : is_absolute n = false -> is_absolute m = false -> etc_file root n = etc_file root m -> n = m.
Proof.
  unfold etc_file. intros Hn Hm. unfold join_path at 1 3. rewrite Hn, Hm. destruct (_ || _); intros E.
  - by apply sapp_inv_head in E.
  - apply sapp_inv_head in E. by injection E.
Qed.

Lemma identity_file_last etc f ev : (exists before, Forall (fun e => exists x, e = ERemove (join_path etc f.1) x) before /\
      ev = before ++ [EWrite (join_path etc f.1) f.2 (Ok tt); EMode (join_path etc f.1) 420 (Ok tt)]) ->
  writes_last (join_path etc f.1) f.2 ev /\ Forall (fun e => event_path e = join_path etc f.1) ev.
Proof.
  intros (before & Hb & ->). split.
  - exists before, [EMode (join_path etc f.1) 420 (Ok tt)]. split; [done|]. constructor; [|done]. eauto.
  - apply Forall_app. split; [eapply Forall_impl; [exact Hb|]; by intros e (x & ->)|]. by repeat constructor.
Qed.

Lemma identity_files_last root identity : emits (W := W) (prepare_identity_files (join_path root "etc") identity)
  (fun r ev => r = Ok tt -> writes_last (etc_file root "passwd") (passwd_contents identity) ev /\
    writes_last (etc_file root "group") (group_contents identity) ev).
Proof.
  unfold prepare_identity_files. cbn [for_each]. eapply emits_bind; [apply prepare_identity_file_writes| |done].
  intros [] ev1 [Hp Hpo]%(fun H => identity_file_last _ _ _ (H eq_refl)).
  eapply emits_bind; [apply prepare_identity_file_writes| |done].
  intros [] ev2 [Hg Hgo]%(fun H => identity_file_last _ _ _ (H eq_refl)). apply emits_ret. intros _. rewrite app_nil_r. split.
  - apply writes_last_app; [exact Hp|]. eapply Forall_impl; [exact Hgo|]. cbn. intros e -> E.
    by apply (etc_file_inj root "group" "passwd") in E.
  - by apply writes_last_after.
Qed.
End Written.

(** ** Where the changes are *)

Section Below.
Context {W : Type} `{RootWorld W} (root : path) (identity : SandboxIdentity) (runtime_etc : path) (network_enabled : bool).
Hypothesis root_named : root <> "".
Hypothesis names : forall (w : W) entries entry, read_dir w runtime_etc = inl entries -> inl entry ∈ entries -> name_ok (file_name entry).

Definition inside_root (p : path) : Prop := exists rest, rest <> [] /\ components p = components root ++ rest.

Lemma below_join n : is_absolute n = false -> body (split "/" n) <> [] -> inside_root (join_path root n).
Proof. intros Hn Hb. exists (body (split "/" n)). split; [done|]. by apply components_join. Qed.

Lemma join_path_ne a n : a <> "" -> is_absolute n = false -> join_path a n <> "".
Proof. intros Ha Hn. unfold join_path. rewrite Hn. destruct (_ || _); by destruct a. Qed.

Lemma below_etc n : is_absolute n = false -> inside_root (etc_file root n).
Proof.
  intros Hn. unfold etc_file. exists (Normal "etc" :: body (split "/" n)). split; [done|].
  rewrite components_join by (by try apply join_path_ne). rewrite components_join_name by (done || by repeat split). by rewrite <- app_assoc.
Qed.

Lemma own_relative n : n ∈ own_etc_files -> is_absolute n = false.
Proof. unfold own_etc_files. intros Hn. repeat (apply elem_of_cons in Hn as [->|Hn]; [done|]). by apply elem_of_nil in Hn. Qed.

Lemma below_own p : p ∈ map (etc_file root) own_etc_files -> inside_root p.
Proof. intros (n & -> & Hn)%list_elem_of_fmap. by apply below_etc, own_relative. Qed.

Lemma allowed_below e : allowed (W := W) root identity runtime_etc network_enabled e -> inside_root (event_path e).
Proof.
  destruct e as [p r|p r|t p r|p d r|p m r]; cbn [allowed event_path].
  - intros [Hp| ->].
    + apply list_elem_of_fmap in Hp as (n & -> & Hn). unfold root_directories in Hn.
      repeat (apply elem_of_cons in Hn as [->|Hn]; [by apply below_join|]). by apply elem_of_nil in Hn.
    + exists ([Normal "run"; Normal "user"] ++ [Normal (show_Z (id_uid identity))]). split; [done|].
      rewrite !components_join_name by (apply show_Z_name || by repeat split || by repeat apply join_path_ne). by rewrite <- !app_assoc.
  - intros [->|Hp]; [by apply below_join|by apply below_own].
  - intros [n Hn| |n entry entries w _ He Hin Hf].
    + repeat (apply elem_of_cons in Hn as [->|Hn]; [by apply below_join|]). by apply elem_of_nil in Hn.
    + by apply below_etc.
    + apply below_etc, name_relative. rewrite <- Hf. by eapply names.
  - intros [| |n w d' _ Hn _]; try by apply below_etc. apply below_etc.
    repeat (apply elem_of_cons in Hn as [->|Hn]; [done|]). by apply elem_of_nil in Hn.
  - intros [_ Hp]. by apply below_own.
Qed.
End Below.

(** ** .flatpak-info *)

(** A value that a line of a key file can hold as it is. *)
Definition plain_value (v : string) : Prop := trim v = v /\ has LF v = false /\ has CR v = false.

Lemma info_lines (ls : list string) : Forall (fun l => has LF l = false /\ has CR l = false) ls ->
  lines (fmt (map end_line ls)) = ls.
Proof.
  intros F. apply lines_of_lines. eapply Forall_impl; [exact F|]. intros l [Hl Hc]. split; [done|]. by apply strip_cr_clean.
Qed.

Lemma info_entry current section key k v r : trim k = k -> has "=" k = false -> starts_with "[" k = false -> k <> "" ->
  trim v = v ->
  value_from current section key (fmt [k; "="; v] :: r) =
    if String.eqb current section && String.eqb k key then Some v else value_from current section key r.
Proof.
  intros Hk He Hb Hn Hv. replace (fmt [k; "="; v]) with (k +:+ String "=" v) by (by str_norm).
  apply value_from_entry; [done..|]. apply header_None. destruct k as [|a k]; [done|].
  replace (starts_with "[" (String a k +:+ String "=" v)) with false; [done|].
  rewrite starts_with_strip in Hb |- *. cbn [strip_prefix append] in *. by destruct (Ascii.eqb "[" a).
Qed.

Ltac info_step :=
  first [ rewrite (value_from_header _ _ _ _ "Application") by done
        | rewrite (value_from_header _ _ _ _ "Instance") by done
        | rewrite (value_from_header _ _ _ _ "Context") by done
        | rewrite value_from_blank by done
        | rewrite info_entry by (done || (by apply trim_visible))
        | (change "flatpak-version=1.12.0" with (fmt ["flatpak-version"; "="; "1.12.0"]))
        | (change "filesystems=" with (fmt ["filesystems"; "="; ""]))
        | (change (fmt ["name="; ?v]) with (fmt ["name"; "="; v]))
        | progress cbn [String.eqb Ascii.eqb Bool.eqb andb] ].

(** ** Theorems *)

Section Theorems.
Context {W : Type} `{RootWorld W}.

(** C0.  Whatever the system answers and wherever the preparation fails, it
    changes only what is strictly below the root; the only files it writes are
    the identity of the user and, with network access, the host's resolver
    files; and the only links it makes lead to the runtime, those in /etc never
    to the runtime's users, groups, resolver files or release. *)
Theorem sandbox_root_is_confined root identity runtime_etc network_enabled (s : traced W RootEvent) r s' :
  root <> "" ->
  (forall (w : W) entries entry, read_dir w runtime_etc = inl entries -> inl entry ∈ entries -> name_ok (file_name entry)) ->
  prepare_root root identity runtime_etc network_enabled s = (r, s') ->
  exists ev, s'.2 = s.2 ++ ev /\
    Forall (fun e => allowed (W := W) root identity runtime_etc network_enabled e /\ inside_root root (event_path e)) ev.
Proof.
  intros Hr Hn Hp. enough (only (allowed (W := W) root identity runtime_etc network_enabled)
    (prepare_root root identity runtime_etc network_enabled)) as Ho.
  { destruct (Ho _ _ _ Hp) as (ev & He & Hf). exists ev. split; [done|]. eapply Forall_impl; [exact Hf|].
    intros e Ha. split; [done|]. by eapply (allowed_below (W := W)). }
  unfold prepare_root. apply only_bind.
  { apply only_for_each. intros dir Hd. apply only_event. intros x. left. right. by apply list_elem_of_fmap_2. }
  intros _. apply only_bind; [apply only_event; intros x; by right|].
  intros _. apply only_bind; [apply (only_make_link _ _ _ _ "bin"); set_solver|].
  intros _. apply only_bind; [apply (only_make_link _ _ _ _ "lib"); set_solver|].
  intros _. apply only_bind; [apply (only_make_link _ _ _ _ "lib64"); set_solver|].
  intros _. apply only_bind; [apply only_etc_overlay|]. intros _. apply only_identity_files.
Qed.

(** C0.  A preparation that succeeds has written the identity of the user into
    both files, and nothing has changed either of them since but their modes. *)
Theorem sandbox_identity_is_written root identity runtime_etc network_enabled (s s' : traced W RootEvent) :
  prepare_root root identity runtime_etc network_enabled s = (Ok tt, s') ->
  exists ev, s'.2 = s.2 ++ ev /\
    writes_last (etc_file root "passwd") (passwd_contents identity) ev /\
    writes_last (etc_file root "group") (group_contents identity) ev.
Proof.
  intros Hp. enough (emits (prepare_root root identity runtime_etc network_enabled) (fun r ev => r = Ok tt ->
    writes_last (etc_file root "passwd") (passwd_contents identity) ev /\
    writes_last (etc_file root "group") (group_contents identity) ev)) as Ho.
  { destruct (Ho _ _ _ Hp) as (ev & He & Hw). exists ev. by destruct (Hw eq_refl). }
  assert (forall A B (m : M (traced W RootEvent) A) (k : A -> M (traced W RootEvent) B) p q d1 d2,
    only (fun _ => True) m ->
    (forall a, emits (k a) (fun r ev => r = Ok q -> writes_last p.1 d1 ev /\ writes_last p.2 d2 ev)) ->
    emits (m ≫= k) (fun r ev => r = Ok q -> writes_last p.1 d1 ev /\ writes_last p.2 d2 ev)) as Hskip.
  { intros A B m k p q d1 d2 Hm Hk. eapply emits_bind; [exact Hm| |done]. intros a ev1 _. eapply emits_mono; [apply Hk|].
    intros r ev2 Hw Hr. destruct (Hw Hr). by split; apply writes_last_after. }
  pose (etc n := etc_file root n).
  assert (forall A (event : result A -> RootEvent) (m : M W A), only (fun _ => True) (call event m)) as Hc by (intros; by apply only_event).
  unfold prepare_root.
  assert (forall n t, only (W := W) (fun _ => True) (make_link t (join_path root n))) as Hl.
  { intros n t. apply only_see. intros w. destruct (symlink_kind w _); [apply only_ret|apply Hc]. }
  apply (Hskip _ _ _ _ (etc "passwd", etc "group") tt); [apply only_for_each; intros; apply Hc|intros _].
  apply (Hskip _ _ _ _ (etc "passwd", etc "group") tt); [apply Hc|intros _].
  apply (Hskip _ _ _ _ (etc "passwd", etc "group") tt); [apply Hl|intros _].
  apply (Hskip _ _ _ _ (etc "passwd", etc "group") tt); [apply Hl|intros _].
  apply (Hskip _ _ _ _ (etc "passwd", etc "group") tt); [apply Hl|intros _].
  apply (Hskip _ _ _ _ (etc "passwd", etc "group") tt); [eapply only_mono; [apply (only_etc_overlay root identity)|done]|intros _].
  apply identity_files_last.
Qed.
End Theorems.

(** C0.  The file .flatpak-info is read back as what the launch has put into
    it. *)
Theorem flatpak_info_is_read_back app instance_id extensions :
  Forall plain_value [fa_app_id app; fa_runtime_ref app; instance_id; info_list (app_info extensions); info_list (runtime_info extensions)] ->
  let info := value (flatpak_info app instance_id extensions) in
  info "Application" "name" = Some (fa_app_id app) /\ info "Application" "runtime" = Some (fa_runtime_ref app) /\
  info "Instance" "instance-id" = Some instance_id /\
  info "Instance" "app-extensions" = Some (info_list (app_info extensions)) /\
  info "Instance" "runtime-extensions" = Some (info_list (runtime_info extensions)) /\
  info "Context" "filesystems" = Some "".
Proof.
  rewrite !Forall_cons. intros ((T1 & L1 & C1) & (T2 & L2 & C2) & (T3 & L3 & C3) & (T4 & L4 & C4) & (T5 & L5 & C5) & _) info.
  unfold info, value, flatpak_info. rewrite info_lines.
  2: { rewrite !Forall_cons. unfold fmt. cbn [foldr]. rewrite !has_app. cbn [has Ascii.eqb Bool.eqb orb].
       by rewrite L1, L2, L3, L4, L5, C1, C2, C3, C4, C5. }
  change (fmt ["name="; fa_app_id app]) with (fmt ["name"; "="; fa_app_id app]).
  change (fmt ["runtime="; fa_runtime_ref app]) with (fmt ["runtime"; "="; fa_runtime_ref app]).
  change (fmt ["instance-id="; instance_id]) with (fmt ["instance-id"; "="; instance_id]).
  change (fmt ["app-extensions="; info_list (app_info extensions)]) with (fmt ["app-extensions"; "="; info_list (app_info extensions)]).
  change (fmt ["runtime-extensions="; info_list (runtime_info extensions)])
    with (fmt ["runtime-extensions"; "="; info_list (runtime_info extensions)]).
  split_and!; repeat info_step; done.
Qed.

(** ** Witnesses *)

Definition named (e : io_result DirEntry) : bool :=
  match e with
  | inl e => negb (has "/" (file_name e)) && negb (skipped (file_name e)) && negb (String.eqb (file_name e) "..")
  | inr _ => true
  end.

(** The tree of HostFs, whose directories list names. *)
#[local] Instance named_fs : HostFs TreeFs := {
  canonicalize := canonicalize (HostFs := tree_fs);
  path_exists := path_exists (HostFs := tree_fs);
  is_dir := is_dir (HostFs := tree_fs);
  read_dir t p := match read_dir (HostFs := tree_fs) t p with inl l => inl (List.filter named l) | inr e => inr e end;
  read_to_string := read_to_string (HostFs := tree_fs);
  create_dir_all := create_dir_all (HostFs := tree_fs);
}.
#[local] Instance named_files : FileOps TreeFs := {
  is_file := is_file (FileOps := tree_file_ops);
  symlink_kind := symlink_kind (FileOps := tree_file_ops);
  make_dirs := make_dirs (FileOps := tree_file_ops);
  set_mode := set_mode (FileOps := tree_file_ops);
  write_file := write_file (FileOps := tree_file_ops);
  rename_file := rename_file (FileOps := tree_file_ops);
  remove_file := remove_file (FileOps := tree_file_ops);
  remove_dir_all := remove_dir_all (FileOps := tree_file_ops);
}.
#[local] Instance named_root : RootWorld TreeFs := {
  symlink target p t := (inl tt, tree_put (components p) target t);
  read_bytes := read_to_string (HostFs := tree_fs);
}.

Lemma named_names (w : TreeFs) p entries entry : read_dir w p = inl entries -> inl entry ∈ entries -> name_ok (file_name entry).
Proof.
  change (read_dir w p) with (match read_dir (HostFs := tree_fs) w p with inl l => inl (List.filter named l) | inr e => inr e end).
  destruct (read_dir w p) as [l|e]; intros He Hin; [|done]. injection He as <-.
  apply list_elem_of_In, filter_In in Hin as [_ Hn]. cbn in Hn.
  apply andb_true_iff in Hn as [[H1 H2]%andb_true_iff H3]. apply negb_true_iff in H1, H2, H3.
  by apply String.eqb_neq in H3.
Qed.

Definition example_identity : SandboxIdentity := mkIdentity 1001 1001 "u" (Some "u") "U" "/home/u".
Definition example_root : traced TreeFs RootEvent :=
  (mkTree [components "/rt/etc"]
     [(components "/rt/etc/fonts", ""); (components "/rt/etc/passwd", ""); (components "/etc/hosts", "127.0.0.1 localhost")], []).

Lemma sandbox_root_is_confined_witness :
  exists ev, (prepare_root "/r" example_identity "/rt/etc" true example_root).2.2 = ev /\
    ELink "/usr/etc/fonts" "/r/etc/fonts" (Ok tt) ∈ ev /\ EWrite "/r/etc/hosts" "127.0.0.1 localhost" (Ok tt) ∈ ev /\
    Forall (fun e => allowed (W := TreeFs) "/r" example_identity "/rt/etc" true e /\ inside_root "/r" (event_path e)) ev.
Proof.
  destruct (prepare_root "/r" example_identity "/rt/etc" true example_root) as [r s'] eqn:E.
  destruct (sandbox_root_is_confined "/r" example_identity "/rt/etc" true example_root r s' ltac:(discriminate)
              (fun w => named_names w "/rt/etc") E) as (ev & He & Hf).
  exists s'.2. split; [reflexivity|]. rewrite He. cbn [snd example_root Datatypes.app] in *.
  split; [|split; [|exact Hf]]; rewrite <- He; vm_compute in E; injection E as <- <-; cbn; set_solver.
Defined.

Lemma sandbox_identity_is_written_witness :
  exists ev, (prepare_root "/r" example_identity "/rt/etc" false example_root).2.2 = ev /\
    writes_last "/r/etc/passwd" (passwd_contents example_identity) ev.
Proof.
  destruct (prepare_root "/r" example_identity "/rt/etc" false example_root) as [r s'] eqn:E.
  assert (r = Ok tt) as -> by (vm_compute in E; injection E as <- _; reflexivity).
  destruct (sandbox_identity_is_written "/r" example_identity "/rt/etc" false example_root s' E) as (ev & He & Hw & _).
  exists s'.2. split; [reflexivity|]. rewrite He. exact Hw.
Defined.

Lemma flatpak_info_is_read_back_witness :
  value (flatpak_info (mkFlatpakApp "org.a.App" "/d" "org.freedesktop.Platform/x86_64/25.08" "/rt" "run" []) "1f-0-77" [])
    "Instance" "instance-id" = Some "1f-0-77".
Proof.
  destruct (flatpak_info_is_read_back (mkFlatpakApp "org.a.App" "/d" "org.freedesktop.Platform/x86_64/25.08" "/rt" "run" []) "1f-0-77" [])
    as (_ & _ & Hi & _); [repeat constructor|exact Hi].
Defined.
