(* ===== verification/AppstreamMetadata.v ===== *)
(** * AppstreamMetadata: the AppStream catalogue of a remote
    (src/src/remotes/appstream_metadata.rs)

    The catalogue is XML text that the program searches for the few elements it
    shows.  The searches work on what is left of the text; each of them shortens
    it, so that the length of the text is fuel enough. *)
From Stdlib Require Import Ascii String NArith ZArith Lia.
From stdpp Require Import base list strings sets.
From S2P Require Import Prelude Effects Collections RustStr RustNum RustPath HostFs RemoteConfig MetadataLock MetadataCache.

(** ** Searching text *)

(** The text before and after the first occurrence of a pattern: [find] and
    the slices the source takes around it. *)
Fixpoint split_at (p s : string) : option (string * string) :=
  match strip_prefix p s with
  | Some r => Some ("", r)
  | None =>
      match s with
      | EmptyString => None
      | String a r => '(h, t) ← split_at p r; Some (String a h, t)
      end
  end.

(** [str::replace] of a non-empty pattern. *)
Fixpoint replace_from (fuel : nat) (p q s : string) : string :=
  match fuel with
  | O => s
  | S fuel =>
      match split_at p s with
      | None => s
      | Some (h, t) => h +:+ q +:+ replace_from fuel p q t
      end
  end.
Definition replace (p q s : string) : string := replace_from (len s) p q s.

Definition is_ascii_whitespace (a : ascii) : bool :=
  let n := N_of_ascii a in (n =? 32)%N || (n =? 9)%N || (n =? 10)%N || (n =? 12)%N || (n =? 13)%N.

Definition quote_mark : string := String "034" "".
Definition squote : string := "'".

Definition xml_unescape_text (v : string) : string :=
  replace "&amp;" "&" (replace "&apos;" squote (replace "&quot;" quote_mark (replace "&gt;" ">" (replace "&lt;" "<" v)))).

(** ** Elements *)

(** The text from the next component on. *)
Fixpoint component_start_from (fuel : nat) (xml : string) : option string :=
  match fuel with
  | O => None
  | S fuel =>
      '(_, after) ← split_at "<component" xml;
      match after with
      | EmptyString => None
      | String boundary _ =>
          if Ascii.eqb boundary ">" || is_ascii_whitespace boundary then Some ("<component" +:+ after)
          else component_start_from fuel after
      end
  end.
Definition find_component_start (xml : string) : option string := component_start_from (len xml) xml.

(** The body of the component that the text starts with, and what follows. *)
Definition component_body (rest : string) : option (string * string) :=
  '(_, body) ← split_at ">" rest;
  split_at "</component>" body.

Definition xml_attribute (tag attribute : string) : option string :=
  '(_, v) ← split_at (fmt [attribute; "="; quote_mark]) tag;
  '(v, _) ← split_at quote_mark v;
  let v := trim v in
  if is_empty v then None else Some (xml_unescape_text v).

Fixpoint release_version_from (fuel : nat) (rest : string) : option string :=
  match fuel with
  | O => None
  | S fuel =>
      '(_, r) ← split_at "<release" rest;
      '(attributes, after) ← split_at ">" ("<release" +:+ r);
      match xml_attribute (attributes +:+ ">") "version" with
      | Some version => Some version
      | None => release_version_from fuel after
      end
  end.
Definition first_release_version (component : string) : option string := release_version_from (len component) component.

(** The trimmed markup of an opening tag: its element, and whether it closes
    itself. *)
Definition element_of (markup : string) : string := default "" (head (split_whitespace (trim_end_matches "/" markup))).

(** The text of the first element with the tag at depth 0.  [text] starts where
    the search goes on. *)
Fixpoint direct_text_from (fuel : nat) (tag : string) (depth : nat) (text : string) : option string :=
  match fuel with
  | O => None
  | S fuel =>
      '(_, r) ← split_at "<" text;
      let here := "<" +:+ r in
      if starts_with "<!--" here then
        '(_, after) ← split_at "-->" here;
        direct_text_from fuel tag depth after
      else
        '(inside, after) ← split_at ">" r;
        let markup := trim inside in
        if starts_with "?" markup || starts_with "!" markup then direct_text_from fuel tag depth after
        else if starts_with "/" markup then direct_text_from fuel tag (pred depth) after
        else
          let deeper := if ends_with "/" markup then depth else S depth in
          if Nat.eqb depth 0 && String.eqb (element_of markup) tag && negb (contains "xml:lang=" markup) then
            '(v, _) ← split_at (fmt ["</"; tag; ">"]) after;
            let v := trim v in
            if is_empty v then direct_text_from fuel tag deeper after else Some (xml_unescape_text v)
          else direct_text_from fuel tag deeper after
  end.
Definition first_direct_xml_text (xml tag : string) : option string := direct_text_from (len xml) tag 0 xml.

Fixpoint texts_from (fuel : nat) (tag rest : string) : list string :=
  match fuel with
  | O => []
  | S fuel =>
      match '(_, after_open) ← split_at (fmt ["<"; tag; ">"]) rest; split_at (fmt ["</"; tag; ">"]) after_open with
      | None => []
      | Some (v, after) =>
          let v := trim v in
          (if is_empty v then [] else [xml_unescape_text v]) ++ texts_from fuel tag after
      end
  end.
Definition xml_texts (xml tag : string) : list string := texts_from (len xml) tag xml.

(** ** The catalogue *)

Record AppstreamInfo := mkInfo {
  as_name : option string;
  as_summary : option string;
  as_version : option string;
  as_license : option string;
}.

Definition component_info (component : string) : AppstreamInfo :=
  mkInfo (first_direct_xml_text component "name") (first_direct_xml_text component "summary")
    (first_release_version component) (first_direct_xml_text component "project_license").

Definition matches_app (component app_id : string) : bool :=
  match first_direct_xml_text component "id" with
  | Some id => String.eqb id app_id || bool_decide (strip_suffix ".desktop" id = Some app_id)
  | None => false
  end.

Fixpoint info_from (fuel : nat) (rest app_id : string) : option AppstreamInfo :=
  match fuel with
  | O => None
  | S fuel =>
      rest ← find_component_start rest;
      '(component, rest) ← component_body rest;
      if matches_app component app_id then Some (component_info component) else info_from fuel rest app_id
  end.
Definition parse_appstream_info (xml app_id : string) : option AppstreamInfo := info_from (len xml) xml app_id.

(** [entry(old_id).or_default().push(new_id)] *)
Definition push_replacement (new_id : string) (m : list (string * list string)) (old_id : string) : list (string * list string) :=
  bm_insert old_id (default [] (bm_get old_id m) ++ [new_id]) m.

Fixpoint component_replacements (fuel : nat) (new_id rest : string) (m : list (string * list string)) : list (string * list string) :=
  match fuel with
  | O => m
  | S fuel =>
      match '(_, after) ← split_at "<replaces>" rest; split_at "</replaces>" after with
      | None => m
      | Some (replaces, rest) =>
          component_replacements fuel new_id rest (foldl (push_replacement new_id) m (xml_texts replaces "id"))
      end
  end.

Fixpoint replacements_from (fuel : nat) (rest : string) (m : list (string * list string)) : list (string * list string) :=
  match fuel with
  | O => m
  | S fuel =>
      match rest ← find_component_start rest; component_body rest with
      | None => m
      | Some (component, rest) =>
          replacements_from fuel rest
            (match first_direct_xml_text component "id" with
             | None => m
             | Some new_id => component_replacements (len component) new_id component m
             end)
      end
  end.
Definition parse_appstream_replacements (xml : string) : list (string * list string) := replacements_from (len xml) xml [].

(** ** Reading the cached catalogue *)

Section Fetch.
Context {W : Type} `{CacheWorld W} (inflate : Gzip.bytes -> result Gzip.bytes) (patience : nat).

Definition decompress_appstream_xml (data : string) : result string :=
  text ← decompress_string inflate data;
  ok_or "AppStream XML is not UTF-8" (from_utf8 text).

Definition fetch_appstream_xml (r : Remote) (remote_dir : path) (arch : string) : M W (option string) :=
  p ⇐ fetch_appstream patience r remote_dir arch;
  xml ← getr (fun w =>
    compressed ← io_context (fmt ["read "; p]) (read_bytes w p);
    with_context (fmt ["decompress "; p]) (decompress_appstream_xml compressed));
  mret (Some xml).

Definition appstream_info (r : Remote) (remote_dir : path) (arch app_id : string) : M W (option (option AppstreamInfo)) :=
  xml ⇐ fetch_appstream_xml r remote_dir arch;
  mret (Some (parse_appstream_info xml app_id)).

Definition fetch_appstream_replacements (r : Remote) (remote_dir : path) (arch : string)
    : M W (option (list (string * list string))) :=
  xml ⇐ fetch_appstream_xml r remote_dir arch;
  mret (Some (parse_appstream_replacements xml)).
End Fetch.

(** ** Lemmas: searching *)

Lemma split_at_Some p s h t : split_at p s = Some (h, t) -> s = h +:+ p +:+ t.
Proof.
  revert h t. induction s as [|a s IH]; cbn [split_at]; intros h t.
  - destruct (strip_prefix p "") as [r|] eqn:E; [|done]. intros [= <- <-]. by apply strip_prefix_Some in E.
  - destruct (strip_prefix p (String a s)) as [r|] eqn:E; [intros [= <- <-]; by apply strip_prefix_Some in E|].
    destruct (split_at p s) as [[h' t']|]; [|done]. intros [= <- <-]. cbn [append]. f_equal. by apply IH.
Qed.

Lemma split_at_here p r : split_at p (p +:+ r) = Some ("", r).
Proof. destruct (p +:+ r) eqn:E; cbn [split_at]; rewrite <- E, strip_prefix_app; done. Qed.

Lemma split_at_skip p a s : starts_with p (String a s) = false ->
  split_at p (String a s) = ('(h, t) ← split_at p s; Some (String a h, t)).
Proof. intros Hp. cbn [split_at]. unfold starts_with in Hp. by destruct (strip_prefix p (String a s)). Qed.

(** Replacing, one character after the other. *)
Lemma replace_more p q s fuel : p <> "" -> (len s <= fuel)%nat -> replace_from fuel p q s = replace p q s.
Proof.
  intros Hp. unfold replace. remember (len s) as n eqn:Hn. assert (len s <= n)%nat as Hs by lia. clear Hn.
  revert fuel s Hs. induction (lt_wf n) as [n _ IH]. intros fuel s Hs Hf.
  destruct n as [|n].
  - destruct s; [|unfold len in Hs; cbn in Hs; lia]. destruct fuel; [done|]. cbn. by destruct p.
  - destruct fuel as [|fuel]; [lia|]. cbn [replace_from]. destruct (split_at p s) as [[h t]|] eqn:E; [|done].
    apply split_at_Some in E as ->. rewrite !len_app in Hs. assert (0 < len p)%nat by (destruct p; [done|unfold len; cbn; lia]).
    f_equal. f_equal. rewrite (IH (len t)) by lia. symmetry. apply IH; lia.
Qed.

Lemma replace_here p q r : p <> "" -> replace p q (p +:+ r) = q +:+ replace p q r.
Proof.
  intros Hp. unfold replace at 1. destruct (len (p +:+ r)) as [|n] eqn:E.
  - rewrite len_app in E. destruct p; [done|]. unfold len in E. cbn in E. lia.
  - cbn [replace_from]. rewrite split_at_here. cbn [append]. f_equal. apply replace_more; [done|].
    rewrite len_app in E. destruct p; [done|]. unfold len in E |- *. cbn in E. lia.
Qed.

Lemma replace_skip p q a s : p <> "" -> starts_with p (String a s) = false ->
  replace p q (String a s) = String a (replace p q s).
Proof.
  intros Hp Hs. unfold replace at 1. change (len (String a s)) with (S (len s)). cbn [replace_from].
  rewrite split_at_skip by done. destruct (split_at p s) as [[h t]|] eqn:E; cbn [mbind option_bind].
  - apply split_at_Some in E as Es. cbn [append]. f_equal. unfold replace. destruct (len s) as [|n] eqn:En.
    + destruct s; [|done]. symmetry in Es. by apply sapp_eq_nil in Es as [_ [-> _]%sapp_eq_nil].
    + cbn [replace_from]. rewrite E. f_equal. f_equal. apply (f_equal len) in Es. rewrite !len_app in Es.
      assert (0 < len p)%nat by (destruct p; [done|unfold len; cbn; lia]).
      change (replace_from (S n) p q t = replace_from n p q t). by rewrite !replace_more by (done || lia).
  - unfold replace. destruct (len s) as [|n] eqn:En; [done|]. cbn [replace_from]. by rewrite E.
Qed.

(** ** Text *)

(** The five entities are decoded in one pass. *)
Definition entities : list (string * ascii) :=
  [("&lt;", "<"%char); ("&gt;", ">"%char); ("&quot;", "034"%char); ("&apos;", "'"%char); ("&amp;", "&"%char)].

Definition entity_at (s : string) : option (ascii * string) :=
  head (omap (fun e => r ← strip_prefix e.1 s; Some (e.2, r)) entities).

Fixpoint decode_from (fuel : nat) (s : string) : string :=
  match fuel, s with
  | O, _ | _, EmptyString => ""
  | S fuel, String a r =>
      match entity_at s with
      | Some (c, t) => String c (decode_from fuel t)
      | None => String a (decode_from fuel r)
      end
  end.
Definition decode_entities (s : string) : string := decode_from (len s) s.

(** What an entity has behind its ampersand is not changed by replacing
    another one. *)
Definition letter (a : ascii) : bool := is_alnum a || Ascii.eqb a ";".

Lemma replace_keeps_letters p q e s : 
  (exists p', p = String "&" p') -> letter q = false -> all_bytes letter e = true ->
  starts_with e (replace p (String q "") s) = starts_with e s.
Proof.
  intros [p' ->] Hq. revert e. induction s as [|a s IH]; intros e He; [done|].
  destruct e as [|c e]; [by rewrite !starts_with_strip|]. cbn [all_bytes] in He. apply andb_true_iff in He as [Hc He].
  assert (forall b r, letter b = false -> starts_with (String c e) (String b r) = false) as Hb.
  { intros b r Hb. rewrite starts_with_strip. cbn [strip_prefix]. destruct (Ascii.eqb_spec c b) as [->|]; [congruence|done]. }
  destruct (starts_with (String "&" p') (String a s)) eqn:Hp.
  - apply starts_with_true in Hp as [r Hr]. rewrite Hr, replace_here by done. cbn [append]. by rewrite !Hb.
  - rewrite replace_skip by done. rewrite !starts_with_strip in *. cbn [strip_prefix]. destruct (Ascii.eqb c a); [|done].
    specialize (IH e He). by rewrite !starts_with_strip in IH.
Qed.

Definition entity_body : list string := ["lt;"; "gt;"; "quot;"; "apos;"; "amp;"].

(** Replacing an entity by a character that no entity contains. *)
Definition rep (e : string) (q : ascii) : string -> string := replace (String "&" e) (String q "").

Lemma rep_skip e q a s : a <> "&"%char -> rep e q (String a s) = String a (rep e q s).
Proof. intros Ha. apply replace_skip; [done|]. rewrite starts_with_strip. cbn [strip_prefix]. by destruct (Ascii.eqb_spec "&" a) as [<-|]. Qed.

Lemma rep_amp e q s : starts_with e s = false -> rep e q (String "&" s) = String "&" (rep e q s).
Proof. intros Hs. apply replace_skip; [done|]. rewrite starts_with_strip in *. cbn [strip_prefix]. by rewrite Ascii.eqb_refl. Qed.

Lemma rep_letters e q f s : all_bytes letter f = true -> rep e q (f +:+ s) = f +:+ rep e q s.
Proof.
  induction f as [|a f IH]; [done|]. cbn [all_bytes append]. intros [Ha Hf]%andb_true_iff. rewrite rep_skip, IH; [done..|].
  by intros ->.
Qed.

Lemma xml_unescape_reps v :
  xml_unescape_text v = rep "amp;" "&" (rep "apos;" "'" (rep "quot;" "034" (rep "gt;" ">" (rep "lt;" "<" v)))).
Proof. done. Qed.

Definition reps (l : list (string * ascii)) (s : string) : string := foldl (fun s e => rep e.1 e.2 s) s l.
Definition bodies : list (string * ascii) :=
  [("lt;", "<"%char); ("gt;", ">"%char); ("quot;", "034"%char); ("apos;", "'"%char); ("amp;", "&"%char)].

Definition good_rep (e : string * ascii) : Prop := all_bytes letter e.1 = true /\ letter e.2 = false.
Lemma bodies_good : Forall good_rep bodies.
Proof. unfold bodies. rewrite !Forall_cons. by repeat split. Qed.

Lemma reps_skip l a s : a <> "&"%char -> reps l (String a s) = String a (reps l s).
Proof. intros Ha. unfold reps. revert s. induction l as [|e l IH]; intros s; [done|]. cbn [foldl]. by rewrite rep_skip. Qed.

Lemma reps_letters l f s : all_bytes letter f = true -> reps l (f +:+ s) = f +:+ reps l s.
Proof. intros Hf. unfold reps. revert s. induction l as [|e l IH]; intros s; [done|]. cbn [foldl]. by rewrite rep_letters. Qed.

Lemma reps_amp l s : Forall good_rep l -> Forall (fun e => starts_with e.1 s = false) l ->
  reps l (String "&" s) = String "&" (reps l s).
Proof.
  intros G. revert s. unfold reps. induction G as [|e l [He Hq] G IH]; intros s F; [done|]. cbn [foldl].
  apply Forall_cons in F as [Fe F]. rewrite rep_amp by done. apply IH. apply Forall_forall. intros e' Hin.
  rewrite Forall_forall in F, G. destruct (G e' Hin) as [He' _]. unfold rep.
  rewrite replace_keeps_letters; [by apply F|by eexists|done..].
Qed.

Lemma reps_entity l1 e q l2 t : Forall good_rep l1 -> all_bytes letter e = true -> (q <> "&"%char \/ l2 = []) ->
  Forall (fun e' => starts_with e'.1 (e +:+ t) = false) l1 ->
  reps (l1 ++ (e, q) :: l2) (String "&" (e +:+ t)) = String q (reps (l1 ++ (e, q) :: l2) t).
Proof.
  intros G He Hq F. unfold reps. rewrite !foldl_app. cbn [foldl fst snd]. fold (reps l1 (String "&" (e +:+ t))).
  rewrite reps_amp, reps_letters by done. unfold rep. change (String "&" (e +:+ reps l1 t)) with (String "&" e +:+ reps l1 t).
  rewrite replace_here by done. cbn [append]. destruct Hq as [Hq| ->]; [|done]. by apply (reps_skip l2).
Qed.

Lemma strip_amp e s : strip_prefix (String "&" e) (String "&" s) = strip_prefix e s.
Proof. done. Qed.

Lemma reps_entity_at n e q t r : n < 5 -> bodies !! n = Some (e, q) -> r = e +:+ t ->
  Forall (fun e' => starts_with e'.1 r = false) (take n bodies) ->
  reps bodies (String "&" r) = String q (reps bodies t).
Proof.
  intros Hn Hb -> F. pose proof bodies_good as G. rewrite Forall_forall in G.
  destruct (G (e, q)) as [He _]; [by eapply list_elem_of_lookup_2|].
  assert (q <> "&"%char \/ drop (S n) bodies = []) as Hq.
  { destruct n as [|[|[|[|[|n]]]]]; [..|lia]; injection Hb as <- <-; (by right) || (left; discriminate). }
  rewrite <- (take_drop_middle bodies n (e, q) Hb). apply reps_entity; [|done..]. apply Forall_take, bodies_good.
Qed.

(** ** Theorems *)

(** C0.  Replacing the five entities one kind after the other, as the code
    does, decodes every text as one pass over it does: what a replacement leaves
    is never taken for an entity again. *)
Theorem unescape_is_one_pass v : xml_unescape_text v = decode_entities v.
Proof.
  rewrite xml_unescape_reps. change (reps bodies v = decode_entities v). unfold decode_entities.
  assert (len v <= len v)%nat as Hl by lia. revert Hl. generalize (len v) at 2 3. intros n. revert v.
  induction n as [|n IH]; intros v Hl.
  { destruct v; [done|]. unfold len in Hl. cbn in Hl. lia. }
  destruct v as [|a r]; [done|]. change (len (String a r)) with (S (len r)) in Hl. cbn [decode_from].
  destruct (decide (a = "&"%char)) as [->|Ha]; cycle 1.
  { rewrite reps_skip by done. assert (entity_at (String a r) = None) as ->; [|rewrite IH by lia; done].
    unfold entity_at, entities. cbn [omap list_omap fst snd strip_prefix].
    by rewrite (proj2 (Ascii.eqb_neq "&" a)) by congruence. }
  assert (forall e, starts_with e r = match strip_prefix e r with Some _ => true | None => false end) as Hs by done.
  unfold entity_at, entities. cbn [omap list_omap fst snd]. rewrite !strip_amp.
  assert (forall n' e q t, n' < 5 -> bodies !! n' = Some (e, q) -> strip_prefix e r = Some t ->
    Forall (fun e' => starts_with e'.1 r = false) (take n' bodies) ->
    reps bodies (String "&" r) = String q (decode_from n t)) as Hentity.
  { intros n' e q t Hn Hb E F. apply strip_prefix_Some in E. rewrite (reps_entity_at n' e q t) by done. f_equal. apply IH.
    rewrite E, len_app in Hl. lia. }
  destruct (strip_prefix "lt;" r) as [t|] eqn:E1; [by apply (Hentity 0 "lt;"); [lia|..]|].
  destruct (strip_prefix "gt;" r) as [t|] eqn:E2; [apply (Hentity 1 "gt;"); [lia|done|done|];
    unfold bodies, starts_with; cbn [take]; by rewrite !Forall_cons; cbn [fst]; rewrite E1|].
  destruct (strip_prefix "quot;" r) as [t|] eqn:E3; [apply (Hentity 2 "quot;"); [lia|done|done|];
    unfold bodies, starts_with; cbn [take]; by rewrite !Forall_cons; cbn [fst]; rewrite E1, E2|].
  destruct (strip_prefix "apos;" r) as [t|] eqn:E4; [apply (Hentity 3 "apos;"); [lia|done|done|];
    unfold bodies, starts_with; cbn [take]; by rewrite !Forall_cons; cbn [fst]; rewrite E1, E2, E3|].
  destruct (strip_prefix "amp;" r) as [t|] eqn:E5; [apply (Hentity 4 "amp;"); [lia|done|done|];
    unfold bodies, starts_with; cbn [take]; by rewrite !Forall_cons; cbn [fst]; rewrite E1, E2, E3, E4|].
  cbn [mbind option_bind head]. rewrite reps_amp, IH; [done|lia|apply bodies_good|].
  unfold bodies, starts_with. by rewrite !Forall_cons; cbn [fst]; rewrite E1, E2, E3, E4, E5.
Qed.

(** ** A catalogue *)

Definition quoted (s : string) : string := fmt [quote_mark; s; quote_mark].
Definition example_catalogue : string :=
  fmt ["<?xml version="; quoted "1.0"; "?>"; nl; "<components><!-- a catalogue -->"; nl;
       "<component type="; quoted "desktop-application"; "><id>org.example.Other</id><name>Other</name></component>"; nl;
       "<component type="; quoted "desktop-application"; ">"; nl;
       " <id>org.example.App.desktop</id>"; nl; " <developer id="; quoted "org.example"; "><name>The Project</name></developer>"; nl;
       " <name>Example &amp; More</name><name xml:lang="; quoted "de"; ">Beispiel</name>"; nl;
       " <summary>Do &amp;lt; things</summary>"; nl;
       " <replaces><id>org.example.Old</id><id>org.example.Older</id></replaces>"; nl;
       " <releases><release version="; quoted "50.1"; " date="; quoted "2026-01-01"; "/><release version="; quoted "49"; "/></releases>"; nl;
       "</component></components>"].

Example catalogue_info : parse_appstream_info example_catalogue "org.example.App" =
  Some (mkInfo (Some "Example & More") (Some "Do &lt; things") (Some "50.1") None).
Proof. vm_compute. reflexivity. Qed.

Example catalogue_replacements : parse_appstream_replacements example_catalogue =
  [("org.example.Old", ["org.example.App.desktop"]); ("org.example.Older", ["org.example.App.desktop"])].
Proof. vm_compute. reflexivity. Qed.
