(* ===== verification/ApplyExtra.v ===== *)
(** * ApplyExtra: the sandbox in which a deployment processes its extra data
    (src/src/sandbox/apply_extra.rs)

    The program /app/bin/apply_extra of a checkout runs in a root of its own,
    with the runtime, the checkout and the directory of the extra data mounted.
    The root has a run record before it exists, and both go when its mounts have
    gone; an [ApplySandbox] that is dropped is cleaned up once more.  Calls are
    recorded as in SandboxMounts. *)
From Stdlib Require Import Ascii String NArith ZArith Lia Permutation.
From stdpp Require Import base list strings sets.
From S2P Require Import Prelude MountCalls SecureMount Effects Traces Collections RustStr RustNum RustPath HostFs FlatpakMetadata Processes InstallationPaths Records RunRecords SandboxRecovery SandboxMounts LaunchRequest ApplicationEntry SandboxRoot.

Record ApplySandbox := mkApply {
  as_root : path;
  as_runtime_root : path;
  as_record : path;
  as_mounts : list OwnedMount;
  as_cleaned : bool;
}.

Definition set_mounts (l : list OwnedMount) (s : ApplySandbox) : ApplySandbox :=
  mkApply (as_root s) (as_runtime_root s) (as_record s) l (as_cleaned s).
Definition set_done (s : ApplySandbox) : ApplySandbox :=
  mkApply (as_root s) (as_runtime_root s) (as_record s) (as_mounts s) true.

Section Apply.
Context {W : Type} `{MountWorld W}.
(** The process, its counter of records, the clock's nanoseconds in
    hexadecimal, id(1) and the launcher's environment. *)
Context (pid : N) (next_sequence : M W N) (nonce : string) (output : string -> string -> io_result Output)
  (env_var : string -> option string).
Abbreviation T A := (M (traced (ApplySandbox * W) MountEvent) A) (only parsing).

Definition prepare_apply : T unit :=
  root ← self as_root;
  _ ← for_each (fun relative => world (io_try (make_dirs (join_path root relative)))) ["app"; "usr"];
  _ ← for_each (fun l : string * string => world (io_try (make_symlink l.2 (join_path root l.1))))
        [("bin", "usr/bin"); ("lib", "usr/lib"); ("lib64", "usr/lib64")];
  world (io_try (write_file (join_path root ".flatpak-info") (fmt ["[Instance]"; nl]))).

Definition mount_apply (source : path) (target : string) (read_only : bool) : T unit :=
  root ← self as_root;
  source ← ask_world (fun w => io_context (fmt ["resolve nullfs source "; source]) (canonicalize w source));
  let target_path := join_path root target in
  _ ← world (ensure_mountpoint_free (components target_path));
  root_identity ← identity root;
  source_identity ← identity source;
  relative ← lift (ok_or "apply_extra target outside sandbox" (strip_path_prefix target_path root));
  c ← lift (nullfs_command root root_identity source (Some source_identity) relative read_only);
  _ ← run_mount c (fmt ["mount apply_extra "; target_path]);
  update (fun s => set_mounts (as_mounts s ++ [mkOwned target_path read_only]) s).

Definition unmount_apply (errors : list string) (m : OwnedMount) : T (list string) :=
  r ← catch (record_call (EUnmount m) (unmount_mountpoint (components (om_path m)) (om_read_only m)));
  mret (match r with Ok _ => errors | Err e => errors ++ [chain e] end).

Definition cleanup_apply : T unit :=
  mounts ← self as_mounts;
  errors ← fold_each unmount_apply (rev mounts) [];
  if negb (bool_decide (errors = [])) then fail [fmt ["apply_extra sandbox cleanup failed:"; nl; join nl errors]]
  else
    _ ← update (set_mounts []);
    root ← self as_root;
    _ ← record_call (ERemoveRoot root) (remove_instance_root (components root));
    record ← self as_record;
    _ ← record_call (ERemoveRecord record) (remove_run_record record);
    update set_done.

(** [Drop]: a failure is only reported. *)
Definition drop_apply : T unit :=
  cleaned ← self as_cleaned;
  if cleaned : bool then mret tt else _ ← catch cleanup_apply; mret tt.

(** What runs between the making of the sandbox and its drop. *)
Definition apply_in (checkout runtime_dir extra_dir : path) (uid gid : Z) : T unit :=
  _ ← prepare_apply;
  _ ← mount_apply (join_path runtime_dir "files") "usr" true;
  _ ← mount_apply (join_path checkout "files") "app" true;
  _ ← mount_apply extra_dir "app/extra" false;
  let user := host_user env_var uid in
  groups ← lift (numeric_ids output "id" "-G");
  root ← self as_root;
  runtime_root ← self as_runtime_root;
  command ← ask_world (fun w => LaunchRequest.command
    (fun w p => i ← io_context (fmt ["read metadata for "; p]) (metadata_identity w (components p)); Ok (Z.of_N i.1, Z.of_N i.2))
    (mkLaunchRequest root runtime_root uid gid groups [] (Some "/app/extra") false false
       [("HOME", fmt ["/home/"; user]); ("PATH", "/app/bin:/usr/bin")] ["/app/bin/apply_extra"]) w);
  _ ← world (run_command (command.1 :: command.2) "run /app/bin/apply_extra");
  cleanup_apply.

(** [run]: the sandbox exists once its record is written. *)
Definition run_apply (i : Installation) (checkout runtime_dir extra_dir : path) (use_runtime : bool) : T unit :=
  if negb use_runtime then lift (bail "extra-data processing without a runtime is not yet supported")
  else
    metadata ← ask_world (fun w => io_plain (read_to_string w (join_path checkout "metadata")));
    app_id ← lift (ok_or "extra-data checkout metadata has no application or runtime name"
      (match value metadata "Application" "name" with Some n => Some n | None => value metadata "Runtime" "name" end));
    uid ← lift (numeric_id output "id" "-u");
    gid ← lift (numeric_id output "id" "-g");
    let instance_id := fmt ["apply-extra-"; nonce; "-"; show_N pid] in
    let root := join_path (join_path (chroots i) app_id) instance_id in
    record ← record_call EPublish (write_run_record pid next_sequence launcher_lookup i
      (mkRun app_id instance_id root (Z.of_N pid) 0 None None None [] []));
    _ ← update (fun _ => mkApply root (runtime_root i) record [] false);
    r ← catch (apply_in checkout runtime_dir extra_dir uid gid);
    _ ← drop_apply;
    lift r.
End Apply.

(** ** When the root and its record may go *)

Definition mount_places (t : list MountEvent) : list pathbuf := map (fun m => components (om_path m)) (mounted t).
Definition unmount_places (t : list MountEvent) : list pathbuf := map (fun m => components (om_path m)) (unmounted t).

Definition apply_allowed (before : list MountEvent) (e : MountEvent) : Prop :=
  match e with
  | ERemoveRoot _ _ => mount_places before ⊆ unmount_places before
  | ERemoveRecord _ _ => exists root, ERemoveRoot root (Ok tt) ∈ before
  | _ => True
  end.

(** Every mount made is remembered or was unmounted, and a sandbox that counts
    as cleaned has no mount and no record. *)
Record applied {W} (root : path) (s : traced (ApplySandbox * W) MountEvent) : Prop := {
  applied_root : as_root s.1.1 = root;
  applied_lawful : lawful apply_allowed s.2;
  applied_mounts : mount_places s.2 ⊆ unmount_places s.2 ++ map (fun m => components (om_path m)) (as_mounts s.1.1);
  applied_clean : as_cleaned s.1.1 = true ->
    mount_places s.2 ⊆ unmount_places s.2 /\ (exists p, ERemoveRoot p (Ok tt) ∈ s.2) /\ exists p, ERemoveRecord p (Ok tt) ∈ s.2;
}.

(** Before its cleanup. *)
Definition in_service {W} (root : path) (s : traced (ApplySandbox * W) MountEvent) : Prop :=
  applied root s /\ as_cleaned s.1.1 = false.

Section Accounted.
Context {W : Type} `{MountWorld W} (root : path) (rooted : is_absolute root = true).
Abbreviation T A := (M (traced (ApplySandbox * W) MountEvent) A) (only parsing).
Abbreviation P := (@in_service W root) (only parsing).

Lemma applied_world {A} (m : M W A) : keeps P (world m).
Proof. intros [[i w] t] [[] ?]. unfold world, quiet, on_world. cbn. by destruct (m w). Qed.
Lemma applied_self {A} (f : ApplySandbox -> A) : keeps P (self f).
Proof. by intros [[i w] t]. Qed.
Lemma applied_self_root {A} (k : path -> T A) : keeps P (k root) -> keeps P (self as_root ≫= k).
Proof.
  intros Hk s Hs. destruct s as [[i w] t]. pose proof (applied_root _ _ (proj1 Hs)) as E. cbn in E.
  change (P (k (as_root i) ((i, w), t)).2). rewrite E. by apply Hk.
Qed.

Lemma mount_places_snoc t e : mount_places (t ++ [e]) = mount_places t ++ mount_places [e].
Proof. unfold mount_places, mounted. by rewrite omap_app, map_app. Qed.
Lemma unmount_places_snoc t e : unmount_places (t ++ [e]) = unmount_places t ++ unmount_places [e].
Proof. unfold unmount_places, unmounted. by rewrite omap_app, map_app. Qed.

(** A mount that succeeds is remembered at once. *)
Lemma applied_mount c action m m' : made_by c = Some m' -> components (om_path m') = components (om_path m) ->
  keeps P (run_mount c action ≫= fun _ => update (fun s => set_mounts (as_mounts s ++ [m]) s)).
Proof.
  intros Hc Hm [[i w] t] [[Hr Hl Ha Hd] Hcl]. unfold mbind, M_bind, run_mount, record_call, call, on_world. cbn [fst snd] in *.
  assert (forall r, lawful apply_allowed (t ++ [EMount c r])) as Hl' by (intros r; by apply lawful_snoc).
  assert (mount_places [EMount c (Ok tt)] = [components (om_path m)]) as Hmade.
  { unfold mount_places, mounted. cbn [omap list_omap mounted_by]. rewrite Hc. cbn. by rewrite Hm. }
  destruct (run_command c action w) as [[[]|e] w']; (split; [split|done]); unfold update, quiet; cbn [fst snd]; try done; try apply Hl'.
  - rewrite mount_places_snoc, unmount_places_snoc, Hmade. cbn [as_mounts set_mounts]. rewrite map_app. cbn [map]. set_solver.
  - by cbn; rewrite Hcl.
  - rewrite mount_places_snoc, unmount_places_snoc. cbn [mount_places mounted omap list_omap mounted_by map]. set_solver.
  - by rewrite Hcl.
Qed.

Lemma applied_ask {A} (f : W -> result A) : keeps P (ask_world f).
Proof. apply applied_world. Qed.

Lemma keeps_bind_ok {S A B} (I : S -> Prop) (x : result A) (f : A -> M S B) :
  (forall a, x = Ok a -> keeps I (f a)) -> keeps I (lift x ≫= f).
Proof. intros Hf. destruct x as [a|e]; [intros s; by apply (Hf a)|by intros s]. Qed.

Lemma keeps_mount_apply source target read_only : is_absolute target = false -> keeps P (mount_apply source target read_only).
Proof.
  intros Ht. apply applied_self_root. apply keeps_bind; [apply applied_ask|]. intros source'.
  apply keeps_bind; [apply applied_world|]. intros _. apply keeps_bind; [apply applied_ask|]. intros ri.
  apply keeps_bind; [apply applied_ask|]. intros si. apply keeps_bind_ok. intros rel Hrel%ok_or_ok.
  assert (root <> "") as Hne by (by intros E; rewrite E in rooted).
  assert (components root <> []) as Hcs by (by rewrite components_absolute).
  apply keeps_bind_ok. intros c Hc. apply nullfs_made in Hc as [Hc _]; [|done]. eapply applied_mount; [exact Hc|]. cbn [om_path].
  apply strip_path_prefix_components in Hrel as (Hc1 & Hc2 & Hc3 & _); [|done].
  by rewrite components_join, Hc3.
Qed.

Lemma keeps_prepare_apply : keeps P prepare_apply.
Proof.
  apply applied_self_root. apply keeps_bind; [apply keeps_for_each; intros; apply applied_world|]. intros _.
  apply keeps_bind; [apply keeps_for_each; intros; apply applied_world|]. intros _. apply applied_world.
Qed.

(** ** Taking down *)

Lemma unmount_runs errors m (s : traced (ApplySandbox * W) MountEvent) r s' : unmount_apply errors m s = (r, s') ->
  exists x, s'.1.1 = s.1.1 /\ s'.2 = s.2 ++ [EUnmount m x] /\
    r = Ok (match x with Ok _ => errors | Err e => errors ++ [chain e] end).
Proof.
  destruct s as [[i w] t]. unfold unmount_apply, catch, mbind, M_bind, record_call, call, on_world. cbn [fst snd].
  destruct (unmount_mountpoint _ _ w) as [x w']. intros [= <- <-]. by exists x.
Qed.

(** The unmounts of a pass: without an error, all of them have happened. *)
Lemma unmounts_run mounts errors (s : traced (ApplySandbox * W) MountEvent) r s' :
  fold_each unmount_apply mounts errors s = (r, s') ->
  s'.1.1 = s.1.1 /\ exists ev errors', s'.2 = s.2 ++ ev /\ r = Ok (errors ++ errors') /\
    Forall (fun e => exists m x, e = EUnmount m x) ev /\
    (errors' = [] -> map (fun m => components (om_path m)) mounts ⊆ unmount_places ev).
Proof.
  revert errors s. induction mounts as [|m mounts IH]; intros errors s Hr; cbn [fold_each] in Hr.
  { injection Hr as <- <-. split; [done|]. exists [], []. rewrite !app_nil_r. by split_and!. }
  apply M_bind_cases in Hr as (o & s1 & Hx & Hr). apply unmount_runs in Hx as (x & Hi1 & Ht1 & ->).
  destruct Hr as [(a & Ha & Hr)|(e & ? & _)]; [|done]. apply Ok_inj in Ha as <-.
  apply IH in Hr as (Hi & ev & errors' & Ht & -> & Hev & Hall). split; [by rewrite Hi|].
  exists (EUnmount m x :: ev), (match x with Ok _ => errors' | Err e => chain e :: errors' end).
  rewrite Ht, Ht1, <- app_assoc. split_and!; [done|by destruct x; rewrite <- ?app_assoc|constructor; eauto|].
  destruct x as [[]|e]; [|done]. intros He. specialize (Hall He). unfold unmount_places, unmounted in *. cbn. set_solver.
Qed.

(** ** The cleanup *)

Lemma untouched_marks ev : Forall (fun e => exists m x, e = EUnmount m x) ev -> mount_places ev = [].
Proof. induction 1 as [|e ev (m & x & ->) _ IH]; [done|]. unfold mount_places, mounted in *. by cbn. Qed.

Lemma lawful_unmounts t ev : lawful apply_allowed t -> Forall (fun e => exists m x, e = EUnmount m x) ev ->
  lawful apply_allowed (t ++ ev).
Proof. intros Ht Hev. apply only_lawful; [done|]. eapply Forall_impl; [exact Hev|]. by intros e (m & x & ->). Qed.

(** What the trace shows once every mount is gone. *)
Record bare (s : traced (ApplySandbox * W) MountEvent) : Prop := {
  bare_root : as_root s.1.1 = root;
  bare_lawful : lawful apply_allowed s.2;
  bare_gone : mount_places s.2 ⊆ unmount_places s.2;
  bare_open : as_cleaned s.1.1 = false;
}.

Lemma bare_applied s : bare s -> applied root s.
Proof. intros [Hr Hl Hg Ho]. split; [done|done|set_solver|by rewrite Ho]. Qed.

Lemma bare_call e (s : traced (ApplySandbox * W) MountEvent) s' : bare s -> s'.1.1 = s.1.1 -> s'.2 = s.2 ++ [e] ->
  apply_allowed s.2 e -> mount_places [e] = [] -> bare s'.
Proof.
  intros [Hr Hl Hg Ho] Hi Ht He Hm. split; rewrite ?Hi, ?Ht; [done|by apply lawful_snoc| |done].
  rewrite mount_places_snoc, unmount_places_snoc, Hm. set_solver.
Qed.

Lemma cleanup_applied (s : traced (ApplySandbox * W) MountEvent) : P s -> applied root (cleanup_apply s).2.
Proof.
  intros [[Hr Hl Ha Hd] Hcl]. destruct (cleanup_apply s) as [r s'] eqn:E. cbn [snd]. unfold cleanup_apply in E.
  rewrite self_bind in E. apply M_bind_cases in E as (o & s1 & Hx & E).
  apply unmounts_run in Hx as (Hi1 & ev & errors & Ht1 & -> & Hev & Hall). destruct E as [(a & Ha' & E)|(e & ? & _)]; [|done].
  apply Ok_inj in Ha' as <-. cbn [Datatypes.app] in E.
  pose proof (untouched_marks ev Hev) as Hmk. pose proof (lawful_unmounts _ _ Hl Hev) as Hl1.
  assert (mount_places s1.2 = mount_places s.2 /\ unmount_places s1.2 = unmount_places s.2 ++ unmount_places ev) as [Hm1 Hu1].
  { rewrite Ht1. unfold mount_places, unmount_places, mounted, unmounted in *. rewrite !omap_app, !map_app. by rewrite Hmk, app_nil_r. }
  rewrite <- Ht1 in Hl1. case_bool_decide as Herr; cbn [negb] in E; cycle 1.
  { injection E as <- <-. split; rewrite ?Hi1; [done|done|rewrite Hm1, Hu1; set_solver|by rewrite Hcl]. }
  specialize (Hall Herr). rewrite update_bind, self_bind in E.
  assert (bare ((set_mounts [] s1.1.1, s1.1.2), s1.2)) as Hb.
  { split; cbn [fst snd as_root as_cleaned set_mounts]; rewrite ?Hi1; [done|done| |done].
    rewrite Hm1, Hu1. assert (map (fun m => components (om_path m)) (as_mounts s.1.1) ⊆ unmount_places ev) as Hsub; [|set_solver].
    etransitivity; [|exact Hall]. rewrite map_rev. intros x. by rewrite !list_elem_of_In, <- in_rev. }
  set (s2 := ((set_mounts [] s1.1.1, s1.1.2), s1.2)) in *. clearbody s2. 
  apply M_bind_cases in E as (o & s3 & Hx & E). apply record_runs in Hx as [Hi3 Ht3].
  assert (bare s3) as Hb3 by (eapply bare_call; [exact Hb|done|exact Ht3|apply Hb|done]).
  destruct E as [([] & -> & E)|(e & -> & _ & ->)]; [|by apply bare_applied].
  rewrite self_bind in E. apply M_bind_cases in E as (o & s4 & Hx & E). apply record_runs in Hx as [Hi4 Ht4].
  assert (bare s4) as Hb4.
  { eapply bare_call; [exact Hb3|done|exact Ht4| |done]. eexists. rewrite Ht3. apply elem_of_app. right. left. }
  destruct E as [([] & -> & E)|(e & -> & _ & ->)]; [|by apply bare_applied].
  destruct s4 as [[i4 w4] t4]. injection E as <- <-. destruct Hb4 as [Hr4 Hl4 Hg4 _]. cbn in Hr4, Hl4, Hg4, Ht4.
  split; cbn [fst snd as_root as_mounts as_cleaned set_done]; [done|done|set_solver|]. intros _. split; [done|].
  rewrite Ht4, Ht3. split; eexists; rewrite !elem_of_app.
  - left. right. left.
  - right. left.
Qed.
End Accounted.

Section Run.
Context {W : Type} `{MountWorld W}.
Context (pid : N) (next_sequence : M W N) (nonce : string) (output : string -> string -> io_result Output)
  (env_var : string -> option string).
Abbreviation T A := (M (traced (ApplySandbox * W) MountEvent) A) (only parsing).
Abbreviation St := (traced (ApplySandbox * W) MountEvent) (only parsing).

Lemma cleanup_done (s s' : St) : cleanup_apply s = (Ok tt, s') -> as_cleaned s'.1.1 = true.
Proof.
  unfold cleanup_apply. intros (mounts & s1 & _ & Hr)%M_bind_ok. apply M_bind_ok in Hr as (errors & s2 & _ & Hr).
  destruct (negb _); [done|]. apply M_bind_ok in Hr as (u & s3 & _ & Hr). apply M_bind_ok in Hr as (r & s4 & _ & Hr).
  apply M_bind_ok in Hr as (u' & s5 & _ & Hr). apply M_bind_ok in Hr as (p & s6 & _ & Hr). apply M_bind_ok in Hr as (u'' & s7 & _ & Hr).
  destruct s7 as [[i w] t]. by injection Hr as <-.
Qed.

(** A step in use, and what comes behind it. *)
Lemma then_applied {A B} root (m : T A) (k : A -> T B) (Q : B -> St -> Prop) : keeps (in_service root) m ->
  (forall a s, in_service root s -> applied root (k a s).2 /\ forall b s', k a s = (Ok b, s') -> Q b s') ->
  forall s, in_service root s -> applied root ((m ≫= k) s).2 /\ forall b s', (m ≫= k) s = (Ok b, s') -> Q b s'.
Proof.
  intros Hm Hk s Hs. specialize (Hm s Hs). unfold mbind, M_bind. destruct (m s) as [[a|e] s1]; [by apply Hk|].
  split; [apply Hm|done].
Qed.

Lemma apply_in_runs root checkout runtime_dir extra_dir uid gid (s : St) : is_absolute root = true -> in_service root s ->
  applied root (apply_in output env_var checkout runtime_dir extra_dir uid gid s).2 /\
  forall b s', apply_in output env_var checkout runtime_dir extra_dir uid gid s = (Ok b, s') -> as_cleaned s'.1.1 = true.
Proof.
  intros Hroot. unfold apply_in. cbn zeta. revert s.
  assert (forall A (x : result A), keeps (@in_service W root) (lift x)) as Hl by (intros; apply keeps_lift).
  apply then_applied; [by apply keeps_prepare_apply|intros _].
  apply then_applied; [by apply keeps_mount_apply|intros _].
  apply then_applied; [by apply keeps_mount_apply|intros _].
  apply then_applied; [by apply keeps_mount_apply|intros _].
  apply then_applied; [apply Hl|intros groups].
  apply then_applied; [apply applied_self|intros r].
  apply then_applied; [apply applied_self|intros rr].
  apply then_applied; [apply applied_world|intros c].
  apply then_applied; [apply applied_world|intros _].
  intros s Hs. split; [by apply cleanup_applied|]. intros [] s' Hr. by apply cleanup_done in Hr.
Qed.

Lemma drop_applied root (s : St) : is_absolute root = true -> applied root s ->
  exists s', drop_apply s = (Ok tt, s') /\ applied root s' /\ (as_cleaned s.1.1 = true -> s' = s).
Proof.
  intros Hroot Ha. unfold drop_apply. rewrite self_bind. destruct (as_cleaned s.1.1) eqn:Hc; [by exists s|].
  unfold catch, mbind, M_bind. pose proof (cleanup_applied root Hroot s (conj Ha Hc)) as Hd.
  destruct (cleanup_apply s) as [r s']. by exists s'.
Qed.
End Run.

(** ** Theorems *)

(** C0.  Whatever the system answers and wherever the processing of extra data
    fails, the root of its sandbox is removed only when everything mounted in it
    was unmounted, and the record only behind the root; and a processing that
    succeeds has unmounted everything and removed both. *)
Theorem apply_extra_is_accounted {W} `{MountWorld W} pid next_sequence nonce output env_var (i : Installation)
    checkout runtime_dir extra_dir use_runtime (s : traced (ApplySandbox * W) MountEvent) r s' :
  is_absolute (runtime_root i) = true -> s.2 = [] ->
  run_apply pid next_sequence nonce output env_var i checkout runtime_dir extra_dir use_runtime s = (r, s') ->
  lawful apply_allowed s'.2 /\
  (r = Ok tt -> mount_places s'.2 ⊆ unmount_places s'.2 /\ (exists root, ERemoveRoot root (Ok tt) ∈ s'.2) /\
                exists record, ERemoveRecord record (Ok tt) ∈ s'.2).
Proof.
  intros Hi Ht Hr. unfold run_apply in Hr. destruct use_runtime; cbn [negb] in Hr; cycle 1.
  { injection Hr as <- <-. rewrite Ht. split; [apply lawful_nil|done]. }
  assert (forall A (m : M W A) (x : result A) (s1 : traced (ApplySandbox * W) MountEvent) s2, world m s1 = (x, s2) -> s2.2 = s1.2) as Hw.
  { intros A m x s1 s2 Hx. by apply world_runs in Hx as [_ ?]. }
  assert (lawful apply_allowed ([] : list MountEvent)) as Hnil by apply lawful_nil.
  apply M_bind_cases in Hr as (o & s1 & Hx & Hr). apply Hw in Hx as Ht1. rewrite Ht in Ht1.
  destruct Hr as [(metadata & -> & Hr)|(e & -> & -> & ->)]; [|by rewrite Ht1].
  apply M_bind_cases in Hr as (o & s2 & Hx2 & Hr). injection Hx2 as <- <-.
  destruct Hr as [(app_id & _ & Hr)|(e & _ & -> & ->)]; [|by rewrite Ht1].
  apply M_bind_cases in Hr as (o & s2 & Hx2 & Hr). injection Hx2 as <- <-.
  destruct Hr as [(uid & _ & Hr)|(e & _ & -> & ->)]; [|by rewrite Ht1].
  apply M_bind_cases in Hr as (o & s2 & Hx2 & Hr). injection Hx2 as <- <-.
  destruct Hr as [(gid & _ & Hr)|(e & _ & -> & ->)]; [|by rewrite Ht1].
  cbn zeta in Hr. set (root := join_path (join_path (chroots i) app_id) _) in Hr.
  assert (is_absolute root = true) as Hroot.
  { assert (forall a b, is_absolute a = true -> is_absolute (join_path a b) = true) as Hj.
    { intros a b Ha. destruct (is_absolute b) eqn:Eb; [unfold join_path; by rewrite Eb|].
      rewrite is_absolute_join; [done|done|by intros ->]. }
    unfold root, chroots. by repeat apply Hj. }
  apply M_bind_cases in Hr as (o & s2 & Hx2 & Hr). apply record_runs in Hx2 as [_ Ht2]. rewrite Ht1 in Ht2. cbn [Datatypes.app] in Ht2.
  assert (lawful apply_allowed s2.2) as Hl2 by (rewrite Ht2; apply (lawful_snoc _ []); [apply lawful_nil|done]).
  destruct Hr as [(record & _ & Hr)|(e & _ & -> & ->)]; [|by split].
  rewrite update_bind in Hr. set (s3 := ((_, _), _)) in Hr.
  assert (in_service root s3) as Hu.
  { split; [|done]. split; cbn [s3 fst snd as_root as_cleaned]; [done|done| |done]. rewrite Ht2. cbn. set_solver. }
  clearbody s3. apply M_bind_cases in Hr as (o4 & s4 & Hx4 & Hr). apply catch_runs in Hx4 as (x & -> & Hx4).
  destruct Hr as [(a & Ha & Hr)|(e & ? & _)]; [|done]. apply Ok_inj in Ha as <-.
  destruct (apply_in_runs output env_var root checkout runtime_dir extra_dir uid gid s3 Hroot Hu) as [Hap Hcl]. rewrite Hx4 in Hap, Hcl.
  destruct (drop_applied root s4 Hroot Hap) as (s5 & Hd & Hap5 & Hsame).
  unfold mbind, M_bind in Hr. rewrite Hd in Hr. injection Hr as <- <-.
  split; [apply Hap5|]. intros ->. specialize (Hcl tt s4 eq_refl). rewrite (Hsame Hcl). by apply (applied_clean root s4 Hap).
Qed.

(** ** Witness *)

#[local] Instance no_processes : ProcessWorld TreeFs := {
  capture := mret [];
  send_signal _ _ := mret tt;
  pause := mret tt;
  self_pid := 1%Z;
}.
#[local] Instance quiet_recovery : RecoveryWorld TreeFs := {
  mount_command := mret "";
  launcher_lookup _ _ := Ok None;
  launcher_probe _ _ := KillESRCH;
  metadata_identity _ _ := inl (1, 1)%N;
  SandboxRecovery.unmount_command _ _ _ _ := mret tt;
  document_unmount_command _ _ _ _ := mret tt;
  to_path p := render_components p;
}.
#[local] Instance quiet_mounts : MountWorld TreeFs := {
  run_command _ _ := mret tt;
  read_link _ _ := inr not_found;
  make_symlink target p t := (inl tt, tree_put (components p) target t);
  create_dir p t := (inl tt, mkTree (components p :: dirs t) (files t));
  create_file p t := (inl tt, tree_put (components p) "" t);
}.

Definition example_ids (program arg : string) : io_result Output := inl (mkOutput true "exit status: 0" (fmt ["1001"; nl])).
Definition example_apply : traced (ApplySandbox * TreeFs) MountEvent :=
  ((mkApply "" "" "" [] false,
    mkTree (map components ["/run/x"; "/rt/files"; "/co/files"; "/extra"; "/run/x/chroots/org.a.App/apply-extra-1f-77"])
      [(components "/co/metadata", fmt ["[Application]"; nl; "name=org.a.App"; nl])]), []).

Lemma apply_extra_is_accounted_witness :
  let (r, s') := run_apply 77 (mret 0%N) "1f" example_ids (fun _ => None) example_installation "/co" "/rt" "/extra" true example_apply in
  r = Ok tt /\ length (mount_places s'.2) = 3 /\ mount_places s'.2 ⊆ unmount_places s'.2.
Proof.
  destruct (run_apply 77 (mret 0%N) "1f" example_ids (fun _ => None) example_installation "/co" "/rt" "/extra" true example_apply)
    as [r s'] eqn:E.
  assert (r = Ok tt /\ length (mount_places s'.2) = 3) as [Hr Hl].
  { vm_compute in E. injection E as <- <-. split; reflexivity. }
  split; [exact Hr|]. split; [exact Hl|].
  assert (is_absolute (runtime_root example_installation) = true) as Ha by reflexivity.
  assert (example_apply.2 = []) as Ht by reflexivity.
  destruct (apply_extra_is_accounted _ _ _ _ _ _ _ _ _ _ _ _ _ Ha Ht E) as [_ Hok]. apply (Hok Hr).
Defined.
